(* ===== verification/_CoqProject ===== *)
-Q . S2P
Prelude.v
JsString.v
JsNumber.v
JsRounding.v
JsValue.v
Json.v
Browser.v
Encoding.v
StatusCodeRules.v
StatusCodeRisk.v
ParamOverrideData.v
ParamOverride.v
ParamOverrideSave.v
ParamOverrideEditor.v
ParamOverrideDrafts.v
PricingEditor.v
VerifierUrl.v
Verifier.v
ThinkTags.v
PlaygroundMessages.v
Playground.v
PlaygroundSession.v
PlaygroundStream.v
PlaygroundSync.v
Passkey.v
Tokens.v
UpstreamUpdates.v
Quota.v
ModelList.v
PriceTable.v
JsDate.v
Dashboard.v
JsSums.v
Billing.v
BillingTotals.v
UsageLogs.v
Channel.v
ChannelSave.v
ChannelForm.v
JsonEditor.v
RatioSync.v
ChannelTable.v
Sidebar.v
CodeGenerator.v
ChannelAffinity.v
AffinityPage.v
TokenKeys.v
