(* ===== verification/Prelude.v ===== *)
(** * Verification of the browser-side logic of Aggre API

    Aggre API is a gateway to language-model services: a Go server and a React
    console ([web/src]).  The console is where an operator edits what the server
    bills and rewrites, and the server takes the edited JSON as it is; it also
    has a playground in which a user talks to the models.  This library models
    the parts of the console that turn what the operator types into that JSON
    and back, the engine that checks whether a service is the model it claims to
    be, the conversation of the playground (its streams, its actions and what it
    stores), and the helpers that convert what the console exchanges with the
    server: quotas, binary data, keys, lists of models.  It also models what the
    console computes to show: the list of models with its filters and prices, the
    figures and charts of the dashboard, and the usage log with its descriptions of
    prices.  All paths below are under [web/src].

    ** The language

    - [Prelude]: results of code that may throw ([res]), array methods, sorting,
      tactics, the hint database [js].
    - [JsString]: strings as lists of UTF-16 code units; [trim], [split],
      [indexOf], decimal numerals.  Case mapping and [localeCompare] depend on
      Unicode tables and the locale: they are the interface [Unicode], with the
      laws the code relies on, and [ascii_unicode] is an instance to evaluate
      with.
    - [JsNumber]: binary64 numbers (sign, significand, exponent) with correctly
      rounded arithmetic over Q; [Number], [parseFloat], [parseInt], [String],
      [toFixed].  [Number_num_to_string]: reading back what [String] prints gives
      the number.
    - [JsRounding]: the rounding error of that arithmetic, and that products and
      quotients that undo each other come back to the integer they started from.
    - [JsValue]: values, objects with the property order of the language (integer
      keys first), property access with the prototype, [String] and [Number] of
      any value.
    - [Json]: [JSON.stringify] and [JSON.parse].  The parser recurses on fuel
      [2 * length + 1]; [parse_value_fuel] proves that it never runs out, so the
      functions are total.  [JSON_parse_ser] and [JSON_parse_stringify]: parsing
      inverts printing.
    - [Browser]: what the console takes from its surroundings, as the interface
      [Env] (clock, translations, texts of engine errors, whether local storage
      has room) with the instance [plain_env], and local storage as a map.
    - [JsSums]: the number of roundings of a sum of products of non-negative numbers
      ([rounds]), and the error bound that follows from it ([rounds_about]).
    - [JsDate]: dates, the Gregorian calendar ([civil_days]) and the fields of
      local time; the time zone is the interface [TimeZone] with the instance
      [utc].
    - [Encoding]: UTF-8, [encodeURIComponent], [btoa] and [atob], and that
      decoding inverts encoding.

    ** The components

    - [StatusCodeRules] ([helpers/statusCodeRules.js]): rule texts such as
      "400, 500-599".  Which texts are accepted, that the merged ranges cover
      exactly the codes written and are sorted and apart, that normalising is
      idempotent.
    - [StatusCodeRisk]
      ([components/table/channels/modals/statusCodeRiskGuard.js]): which entries
      of a status-code mapping are reported as invalid or as risky redirects.
    - [ParamOverrideData], [ParamOverride], [ParamOverrideSave],
      [ParamOverrideDrafts], [ParamOverrideEditor]
      ([components/table/channels/modals/ParamOverrideEditorModal.jsx] with the
      templates of [constants/channel-affinity-template.constants.js] and
      [verifyJSON] of [helpers/utils.jsx]): the editor of the rewriting rules of a
      channel.  The first two hold the tables and the functions on rules, rows
      and drafts; generated ids are a counter threaded through the monad [ID].
      [ParamOverrideSave]
      proves that what is saved is what is reopened, and that saving again writes
      the same text.  [ParamOverrideEditor] is the component as a state machine:
      one definition per handler, the effects of a render ([settle]), the states
      that can be reached ([reachable]) and their invariant.
    - [PricingEditor] ([pages/Setting/Ratio/hooks/useModelPricingEditorState.js]):
      ratios shown as prices and prices saved as ratios.  What is saved is what is
      previewed and what is loaded again; which models are refused and that then
      nothing is sent; the hook as a state machine and its invariant.
    - [VerifierUrl], [Verifier] ([pages/Verifier/verifierEngine.js]): endpoints,
      probes in three protocols, the event stream, the checks and the score.  The
      network is the interface [Net], a function of the requests sent so far; the
      monad [IO] threads that list.  All spellings of a base URL give the same
      endpoint; reading a stream does not depend on how it is cut; a run sends at
      most four requests, all to that endpoint; which scores answers get that admit
      not to know ([admits]) or claim something ([claims]).

    - [ThinkTags] (the think tags of [helpers/utils.jsx] and
      [components/playground/MessageContent.jsx]): the thoughts a model writes
      between tags, taken out of a finished or unfinished text, and what of a
      message is shown.
    - [PlaygroundMessages] (message helpers of [helpers/utils.jsx], playground
      helpers of [helpers/api.js], [constants/playground.constants.js],
      [components/playground/configStorage.js], [hooks/playground/useDataLoader.js]
      and the configuration of [usePlaygroundState.js]): messages, request bodies,
      the stored configuration and conversation, export and import, the models and
      groups offered.
    - [Playground] ([hooks/playground/useApiRequest.jsx], [useMessageActions.jsx],
      [useMessageEdit.jsx], [usePlaygroundState.js], [pages/Playground/index.jsx]):
      the page as a state machine.  The state [pg] holds the conversation, the
      configuration, the debug data, the variables of each connection, the edit
      dialog, the id counter, local storage and the pending timers; an [event] is
      a click, an event of a connection, the answer of a request or a timer that
      fires, in any order.
    - [PlaygroundSession]: what holds in every state of a session, which starts on
      a stored or default conversation and into which well-formed conversations
      may be brought from outside; what retrying and deleting do.
    - [PlaygroundStream]: the reply refines a machine of two growing texts and a
      phase, whatever events arrive, as a trace of events is read without the
      page ([says]); what a finished, a stopped and a failed stream leave behind,
      and two ends of a stream that the page does not notice ([silent_ends]).
    - [PlaygroundSync] ([hooks/playground/useSyncMessageAndCustomBody.js]): the two
      effects that keep the conversation and the custom request body equal, and
      what a reload of the page restores.
    - [Passkey] ([helpers/base64.js], [helpers/passkey.js]): texts and buffers as
      base64, and the options and results of a passkey ceremony.  No byte is lost
      in either direction, and all platforms encode alike.
    - [Tokens] ([helpers/token.js]): fetching keys through the HTTP client, a
      parameter, and connection strings.
    - [UpstreamUpdates] ([hooks/channels/upstreamUpdateUtils.js],
      [useChannelUpstreamUpdates.jsx]): the dialog and the guarded requests about
      models that an upstream service has added or dropped.  A call is a member of
      [calls] from its request to the end of its refresh; replies and refreshes
      are events in any order.
    - [Quota] ([helpers/quota.js], the currency settings and quota texts of
      [helpers/render.jsx], the quota fields of [pages/Team/TeamDetail.jsx] and
      [AddEditSubscriptionModal.jsx]): quotas shown and entered as money.
    - [ModelList] ([hooks/model-pricing/useModelPricingData.jsx],
      [usePricingFilterCounts.js], the filter components of
      [components/table/model-pricing/filter] and [resetPricingFilters] of
      [helpers/utils.jsx]): loading and ordering of the list of models, the six
      filters, and the collections on which each filter counts its options.
    - [PriceTable] ([calculateModelPrice], [getModelPriceItems] and their helpers
      in [helpers/utils.jsx], [displayPrice] and the sorting of the list): the
      group a price is shown for, the amounts and their unit.
    - [Dashboard] ([helpers/dashboard.jsx], [hooks/dashboard/useDashboardCharts.jsx],
      [useDashboardData.js], the time labels of [helpers/utils.jsx]): rows of usage
      added up by time label and by model.
    - [Billing], [BillingTotals] (the price descriptions of [helpers/render.jsx]): what
      a log entry says about its price, in prices or in ratios.  i18next is the
      interface [I18n], with the instance [plain_i18n].  The articles end with a
      total, computed along another way than the terms they list.
    - [UsageLogs] ([hooks/usage-logs/useUsageLogsData.jsx],
      [components/table/usage-logs/index.jsx], [helpers/log.js]): the page of log
      entries as a state machine in which requests are answered in any order, the
      details of an entry, the pager and the export as CSV.
    - [Channel], [ChannelSave], [ChannelForm]
      ([components/table/channels/modals/EditChannelModal.jsx], [getChannelModels] of
      [helpers/api.js]): the dialog that edits a channel.  [Channel] opens a stored
      channel and submits the form, with the checks that end a submission early
      ([early]) and the answers to its two prompts as arguments; [ChannelForm] holds the
      handlers between, on the state of the last render and the current one;
      [ChannelSave] proves what can be sent and what opening it again shows.  The form of
      the component library is the interface [FormApi] with the instance [plain_form].

    - [JsonEditor] ([components/common/ui/JSONEditor.jsx]): a JSON object edited as pairs or
      by hand.  The property set by the parent is part of the state; [set_prop] runs the
      two effects that follow it.
    - [RatioSync] ([pages/Setting/Ratio/UpstreamRatioSync.jsx]): values chosen from the
      ratios of other services and written into the four options, in which a model has
      either a price or ratios.
    - [ChannelTable] ([hooks/channels/useChannelsData.jsx]): the list of channels, plain or
      gathered by tag, its counts, its stored columns, and the batches in which models are
      tested.  The requests under way are part of the state, so that replies come in any
      order; [replied] is the rest of the handler after the reply.
    - [Sidebar] ([hooks/common/useSidebar.js], [useUserPermissions.js],
      [pages/Setting/Operation/SettingsSidebarModulesAdmin.jsx]): which modules the sidebar
      shows; the hook with its loads under way, and the page that writes the option from
      which the hook reads.
    - [CodeGenerator] ([pages/Tools/CurlGenerator.jsx]): a chat request as a shell command
      and as programs; [curl_reads], [node_reads] and [go_reads] read them back as HTTP
      requests, by the rules of the shell, of JavaScript and of Go.
    - [ChannelAffinity], [AffinityPage]
      ([pages/Setting/Operation/SettingsChannelAffinity.jsx], with the templates of
      [constants/channel-affinity-template.constants.js]): rules that are stored as a JSON
      text and edited in a table, in a dialog or as the text; the second file has the page
      as a state machine with its invariant.
    - [TokenKeys] ([hooks/tokens/useTokensData.jsx], the part on keys): keys of tokens that
      are fetched once and shared by all who ask; the requests under way and who waits for
      them are part of the state.  What is copied is compared with what the events of a trace
      asked for ([runs], [asks]).

    The editors, the verifier and the helpers do not call one another; they share the language
    files, and the editors and the server meet in the JSON texts.  The playground
    files build on each other in the order listed; [PriceTable] builds on [ModelList],
    [UsageLogs] on [Billing], all that shows money on [Quota], [Channel] on
    [StatusCodeRisk], and [ChannelAffinity] takes the templates of [ParamOverrideData].

    ** Kinds of theorems

    Round trips: [reopen_saved], [save_reopen_save], [reload_reads_saved],
    [parse_rules_idempotent], [export_import], [saved_config_loads],
    [reload_restores], [ceremony_keeps_bytes], [registration_keeps_bytes],
    [base64url_roundtrip],
    [connection_roundtrip], [limit_unchanged], [export_reads_back],
    [settings_read_back], [extra_settings_read_back], [resave_same],
    [shell_argument_reads_back].  Refinement of an
    abstract machine: [stream_refines]; of an exact sum: [claude_total_is_breakdown],
    [model_total_is_formula].  Invariants over all reachable states: [editor_invariant],
    [pricing_invariant], [session_invariant], [editor_ids], [chosen_ok],
    [table_in_step], [key_requests_counted], [shown_has_key], [copied_exact].  Exact behaviour, errors included:
    [parse_rules_accepts], [parse_rules_ranges], [validateOperations_accepts],
    [validateOperations_first_error], [serialize_refuses],
    [disallowed_redirects_exact], [endpoint_spellings], [score_levels],
    [payload_exact], [think_tags_extracted], [streamed_reply],
    [stop_keeps_reply], [retry_replays], [delete_removes], [token_keys_exact],
    [offered_models_decided], [list_loaded], [tag_options_exact],
    [reset_shows_all], [cheapest_group], [sorted_by_price], [trends_conserve],
    [pie_conserves], [page_shows_reply], [deduplicated_exact], [custom_models_added],
    [other_setting_exact], [template_appended], [synced_exact], [chosen_number_exact],
    [stored_differences_gone], [edited_text_exact], [new_key_fresh], [typed_object_taken],
    [tag_rows_exact], [type_counts_exact], [batch_tally_exact], [merge_exact],
    [visible_exact], [curl_words], [url_spellings], [templates_added], [submit_exact].
    Conservation: [bars_conserve].  Equivalences:
    [counts_are_rows], [processes_agree], [claude_processes_agree], [stream_is_lines],
    [preview_is_what_is_saved], [edits_stay], [answer_shown_alike], [repair_like_stop],
    [base64_on_all_platforms], [requests_agree], [listed_are_visible].  Safety: [saved_text_valid], [requests_stay],
    [submit_all_or_nothing], [stop_is_final], [single_flight],
    [admin_fields_hidden], [redirects_confirmed], [stored_key_kept],
    [temporary_never_sent], [locked_channel], [unconfirmed_keeps_billing],
    [latest_load_shown], [stopped_batches], [tag_status_kept],
    [malformed_text_kept], [only_allowed_shown], [switched_off_hidden],
    [saved_rule_valid].  Liveness:
    [stream_end_settles], [call_ends], [loader_ends], [waiting_served].  Types and bounds: [base64url_types],
    [quota_is_count], [token_price_shown], [pages_offered].
    Some theorems state behaviour that the code has and hardly means to have:
    [quoted_value_changes], [null_operation_throws], [added_rule_is_dropped],
    [rule_id_never_matches], [prune_advanced_reverts],
    [path_alias_exemption_dead], [zero_input_price_drops],
    [first_keystroke_decides], [short_answer_passes], [tags_put_together],
    [reload_reuses_ids], [body_ids_collide], [answers_not_saved], [silent_ends],
    [no_choice_no_reply], [done_after_clear_throws],
    [edit_of_gone_message_throws], [load_error_unreported],
    [import_keeps_custom_mode], [plan_total_lost], [yuan_rates_differ],
    [reply_closes_other_dialog], [null_groups_throw],
    [failed_load_keeps_loading], [symbol_point_corrupts], [reset_keeps_group],
    [small_price_vanishes], [no_data_is_drawn], [new_year_bars_vanish],
    [gap_bars_vanish], [image_drops_cache_discount], [image_counted_twice],
    [malformed_other_throws], [statistics_stuck], [refresh_asks_twice],
    [page_size_lost], [page_size_keeps_page], [free_cache_shown_full],
    [switched_off_stays_on], [generated_credential_lost], [declined_address_stays].

    ** Bounds

    Strings, lists and JSON depth are unbounded.  Numbers are binary64 and their
    overflow is part of the model.  [shortest] in [JsNumber] tries up to 17
    digits, which determine a binary64 number; were they not enough it would fall
    back on the exact decimal expansion, so its round trip holds without
    relying on that fact.  The loop over think tags recurses on fuel, the length
    of the text, and each match consumes more than one unit of it.
    [limit_unchanged] is for limits up to 2^49 and settings between 2^-100 and
    2^100: within them four roundings stay below half a unit of quota.
    [token_price_shown] is for prices below 10^9 in dollars or yuan and, per thousand
    tokens, for thousandths that do not end in 50.  The readers of [CodeGenerator] allow
    eight headers, more than a program has.  The theorems on the dashboard
    are for counts whose sum is below 2^53, where sums of binary64 are exact, and
    for years of four digits, without which labels of different times could
    coincide.  The totals of [BillingTotals] are for non-negative numbers that are zero
    or between 2^-60 and 2^60; fewer than forty roundings then change a sum by less
    than a part in 2^47.

    ** Not modelled, and what may follow

    Rendering, styling and texts; copying to the clipboard, pasted images and the
    visibility of two help dialogs of the rule editor; the transport below
    [fetch] and the library that reads event streams; callbacks of the playground
    that still hold an older configuration when a timer fires (the model reads
    the current one); of the channel dialog the lists fetched for its pickers, the
    two-factor dialog and the answer to its request; in the table of channels, handlers
    that still hold an earlier list; the statistics of the affinity cache; the refresh event
    between several sidebars; the Go server.  Order of extension: the rest of the
    hook of the tokens and the hooks of the other tables, the deployment dialogs. *)

From Stdlib Require Export ZArith Lia.
From stdpp Require Export base list option tactics strings gmap sorting.

#[export] Set Default Goal Selector "!".
#[export] Set Warnings "-clear-no-such-hyp,-register-all".

(** ** Scopes and notations *)

Declare Scope js_scope.
Delimit Scope js_scope with js.

(** ** Results of code that may throw

    A JavaScript computation either completes with a value or throws.  The
    exceptions the modelled code can raise or observe are the engine's
    [TypeError], [SyntaxError], [ReferenceError], [RangeError] and [URIError],
    the [DOMException]s of the browser, by their name, and [new Error(message)];
    the message of an [Error] is what the code shows to the user, so it is
    kept. *)

Inductive exc :=
| TypeError
| SyntaxError
| ReferenceError
| RangeError
| URIError
| DOMException (name : list Z)
| UserError (message : list Z).

Inductive res (A : Type) :=
| Ok (a : A)
| Throw (e : exc).
Arguments Ok {A} a.
Arguments Throw {A} e.

#[export] Instance exc_eq_dec : EqDecision exc.
Proof. solve_decision. Defined.

#[export] Instance res_eq_dec {A} `{EqDecision A} : EqDecision (res A).
Proof. solve_decision. Defined.

Lemma Ok_inj {A} (a b : A) : Ok a = Ok b → a = b.
Proof. by intros [= ->]. Qed.

Definition rbind {A B} (r : res A) (f : A → res B) : res B :=
  match r with Ok a => f a | Throw e => Throw e end.

Definition rmap {A B} (f : A → B) (r : res A) : res B :=
  match r with Ok a => Ok (f a) | Throw e => Throw e end.

(** [try { r } catch { d }] *)
Definition rcatch {A} (r : res A) (d : A) : A :=
  match r with Ok a => a | Throw _ => d end.

Notation "'let!' x ':=' r 'in' k" := (rbind r (λ x, k))
  (at level 10, x pattern, r at level 100, k at level 200) : js_scope.
Notation "r '?catch' d" := (rcatch r d) (at level 60) : js_scope.

Definition is_ok {A} (r : res A) : bool :=
  match r with Ok _ => true | Throw _ => false end.

(** [Array.prototype.map] with a callback that may throw: left to right,
    the first exception ends the call. *)
Fixpoint rmapM {A B} (f : A → res B) (l : list A) : res (list B) :=
  match l with
  | [] => Ok []
  | x :: l => rbind (f x) (λ y, rbind (rmapM f l) (λ ys, Ok (y :: ys)))
  end.

Lemma rmapM_ok {A B} (f : A → res B) (g : A → B) l :
  Forall (λ x, f x = Ok (g x)) l → rmapM f l = Ok (map g l).
Proof. induction 1 as [|x l Hx _ IH]; [done|]. simpl. by rewrite Hx; simpl; rewrite IH. Qed.

Lemma rmapM_elem {A B} (f : A → res B) l r y :
  rmapM f l = Ok r → y ∈ r ↔ ∃ x, x ∈ l ∧ f x = Ok y.
Proof.
  revert r. induction l as [|x l IH]; intros r Hr; simpl in Hr.
  - injection Hr as <-. split; [by intros ?%elem_of_nil|]. by intros (x & ?%elem_of_nil & _).
  - destruct (f x) as [b|] eqn:Ef; simpl in Hr; [|done].
    destruct (rmapM f l) as [bs|] eqn:El; simpl in Hr; [|done]. injection Hr as <-.
    rewrite elem_of_cons, (IH bs eq_refl). setoid_rewrite elem_of_cons.
    split; [intros [->|(z & Hz & Hy)]; eauto|].
    intros (z & [->|Hz] & Hy); [left; congruence|eauto].
Qed.

Lemma rmapM_app {A B} (f : A → res B) l k :
  rmapM f (l ++ k) = rbind (rmapM f l) (λ a, rbind (rmapM f k) (λ b, Ok (a ++ b))).
Proof.
  induction l as [|x l IH]; simpl; [by destruct (rmapM f k)|].
  destruct (f x); simpl; [|done]. rewrite IH. destruct (rmapM f l); simpl; [|done].
  by destruct (rmapM f k).
Qed.

Lemma rmapM_length {A B} (f : A → res B) l k :
  rmapM f l = Ok k → length k = length l.
Proof.
  revert k. induction l as [|x l IH]; simpl; intros k H; [by simplify_eq|].
  destruct (f x); simpl in H; [|done]. destruct (rmapM f l) eqn:E; simpl in H; [|done].
  simplify_eq. simpl. by rewrite (IH _ eq_refl).
Qed.

(** [filter] and [reduce] with a callback that may throw *)
Fixpoint rfilter {A} (p : A → res bool) (l : list A) : res (list A) :=
  match l with
  | [] => Ok []
  | x :: l => rbind (p x) (λ b : bool, rbind (rfilter p l) (λ k, Ok (if b then x :: k else k)))
  end.

Fixpoint rfold {A B} (f : B → A → res B) (b : B) (l : list A) : res B :=
  match l with [] => Ok b | x :: l => rbind (f b x) (λ b, rfold f b l) end.

Lemma rfilter_ok {A} (p : A → res bool) (q : A → bool) l :
  Forall (λ x, p x = Ok (q x)) l → rfilter p l = Ok (List.filter q l).
Proof.
  induction 1 as [|x l Hx _ IH]; [done|]. cbn [rfilter List.filter]. rewrite Hx, IH. cbn [rbind].
  by destruct (q x).
Qed.

Lemma rmapM_Forall2 {A B} (f : A → res B) (R : A → B → Prop) l l' :
  (∀ x y, f x = Ok y → R x y) → rmapM f l = Ok l' → Forall2 R l l'.
Proof.
  intros HR. revert l'. induction l as [|x l IH]; simpl; intros l' Hl; [by simplify_eq|].
  destruct (f x) eqn:E; simpl in Hl; [|done]. destruct (rmapM f l) eqn:El; simpl in Hl; [|done].
  simplify_eq. constructor; auto.
Qed.

(** ** Tactics *)

(** Case analysis on the scrutinee of the first [match]/[if] of the goal. *)
Ltac case_goal :=
  match goal with
  | |- context [match ?x with _ => _ end] => destruct x eqn:?
  end.

(** The same on hypotheses. *)
Ltac case_hyp :=
  match goal with
  | H : context [match ?x with _ => _ end] |- _ => destruct x eqn:?
  end.

(** Turns boolean connectives in hypotheses and goal into propositions. *)
Ltac boolify :=
  repeat match goal with
  | H : (_ && _)%bool = true |- _ => apply andb_true_iff in H; destruct H
  | H : (_ || _)%bool = false |- _ => apply orb_false_iff in H; destruct H
  | H : negb _ = true |- _ => apply negb_true_iff in H
  | H : negb _ = false |- _ => apply negb_false_iff in H
  | H : bool_decide _ = true |- _ => apply bool_decide_eq_true in H
  | H : bool_decide _ = false |- _ => apply bool_decide_eq_false in H
  | H : (_ <=? _)%Z = true |- _ => apply Z.leb_le in H
  | H : (_ <=? _)%Z = false |- _ => apply Z.leb_gt in H
  | H : (_ <? _)%Z = true |- _ => apply Z.ltb_lt in H
  | H : (_ <? _)%Z = false |- _ => apply Z.ltb_ge in H
  | H : (_ =? _)%Z = true |- _ => apply Z.eqb_eq in H
  | H : (_ =? _)%Z = false |- _ => apply Z.eqb_neq in H
  end.

(** ** Lists: the JavaScript array methods the code uses *)

Section array.
Context {A : Type}.
Implicit Types (l k : list A).

(** [findIndex]: the position of the first match ([None] stands for -1). *)
Fixpoint find_index (p : A → bool) (l : list A) : option nat :=
  match l with
  | [] => None
  | x :: l => if p x then Some 0%nat else S <$> find_index p l
  end.

(** [arr.splice(i, 1)] on a copy: the element taken out and what is left. *)
Definition splice1 (i : nat) (l : list A) : option A * list A :=
  (l !! i, take i l ++ drop (S i) l).

(** [arr.splice(i, 0, x)] on a copy; an index past the end appends. *)
Definition splice_ins (i : nat) (x : A) (l : list A) : list A :=
  take i l ++ x :: drop i l.

Lemma find_index_Some p l i :
  find_index p l = Some i ↔
  ∃ x, l !! i = Some x ∧ p x = true ∧ ∀ j y, (j < i)%nat → l !! j = Some y → p y = false.
Proof.
  revert i. induction l as [|a l IH]; intros i; simpl.
  { split; [done|]. by intros (x & ? & _). }
  destruct (p a) eqn:Ha.
  - split.
    + intros ?; simplify_eq. exists a. split_and!; [done..|]. intros; lia.
    + intros (x & Hx & Hp & Hmin). destruct i as [|i]; [done|].
      specialize (Hmin 0%nat a ltac:(lia) eq_refl). congruence.
  - rewrite fmap_Some. split.
    + intros (j & Hj & ->). apply IH in Hj as (x & Hx & Hp & Hmin).
      exists x. split_and!; [done..|]. intros [|j'] y ? Hy; simpl in *; [by simplify_eq|].
      eapply Hmin; [|done]. lia.
    + intros (x & Hx & Hp & Hmin). destruct i as [|i]; simpl in *; [congruence|].
      exists i. split; [|done]. apply IH. exists x. split_and!; [done..|].
      intros j y ? Hy. apply (Hmin (S j) y); [lia|done].
Qed.

Lemma find_index_None p l :
  find_index p l = None ↔ Forall (λ x, p x = false) l.
Proof.
  induction l as [|a l IH]; simpl; [by split|].
  rewrite list.Forall_cons. destruct (p a); [split; [done|naive_solver]|].
  destruct (find_index p l); simpl; [split; [done|]|naive_solver].
  intros [_ H]. apply IH in H. done.
Qed.

Lemma find_index_is_Some p l x :
  x ∈ l → p x = true → ∃ i, find_index p l = Some i.
Proof.
  intros Hin Hp. destruct (find_index p l) as [i|] eqn:E; [eauto|].
  apply find_index_None in E. rewrite Forall_forall in E. rewrite (E x Hin) in Hp. done.
Qed.

Lemma splice1_perm i l x rest :
  splice1 i l = (Some x, rest) → l ≡ₚ x :: rest.
Proof.
  unfold splice1. intros; simplify_eq.
  match goal with H : l !! i = Some x |- _ =>
    transitivity (take i l ++ x :: drop (S i) l);
      [by rewrite (take_drop_middle l i x H)|] end.
  symmetry. apply Permutation_middle.
Qed.

Lemma splice_ins_perm i x l : splice_ins i x l ≡ₚ x :: l.
Proof.
  unfold splice_ins. rewrite <- Permutation_middle. by rewrite take_drop.
Qed.

(** [Array.from(new Set(l))]: first occurrences, in order. *)
Fixpoint dedup_acc `{EqDecision A} (seen : list A) (l : list A) : list A :=
  match l with
  | [] => []
  | x :: l => if decide (x ∈ seen) then dedup_acc seen l
              else x :: dedup_acc (x :: seen) l
  end.
Definition set_array `{EqDecision A} (l : list A) : list A := dedup_acc [] l.

Lemma elem_of_dedup_acc `{EqDecision A} seen l x :
  x ∈ dedup_acc seen l ↔ x ∈ l ∧ x ∉ seen.
Proof.
  revert seen. induction l as [|a l IH]; intros seen; simpl; [set_solver|].
  case_decide as Ha; rewrite ?elem_of_cons, IH; [set_solver|].
  rewrite elem_of_cons. destruct (decide (x = a)); naive_solver.
Qed.

Lemma NoDup_dedup_acc `{EqDecision A} seen l : NoDup (dedup_acc seen l).
Proof.
  revert seen. induction l as [|a l IH]; intros seen; simpl; [constructor|].
  case_decide; [done|]. constructor; [|done]. rewrite elem_of_dedup_acc. set_solver.
Qed.

Lemma elem_of_set_array `{EqDecision A} l x : x ∈ set_array l ↔ x ∈ l.
Proof. unfold set_array. rewrite elem_of_dedup_acc. set_solver. Qed.

Lemma NoDup_set_array `{EqDecision A} l : NoDup (set_array l).
Proof. apply NoDup_dedup_acc. Qed.

End array.

Lemma zip_with_map {A B C D} (f : B → C → D) (g : A → B) (h : A → C) l :
  zip_with f (map g l) (map h l) = map (λ x, f (g x) (h x)) l.
Proof. induction l as [|x l IH]; simpl; [done|]. by rewrite IH. Qed.

Lemma Forall2_map {A B C} (R : B → C → Prop) (g : A → B) (h : A → C) l :
  Forall (λ x, R (g x) (h x)) l → Forall2 R (map g l) (map h l).
Proof. induction 1; simpl; by constructor. Qed.

Lemma Forall_map_2 {A B} (P : B → Prop) (g : A → B) l :
  Forall (λ x, P (g x)) l → Forall P (map g l).
Proof. induction 1; simpl; by constructor. Qed.

(** [l.filter(p)] *)
Lemma filter_sublist_of {A} (p : A → bool) l : List.filter p l `sublist_of` l.
Proof. induction l as [|x l IH]; simpl; [done|]. destruct (p x); by constructor. Qed.

Lemma sublist_map {A B} (f : A → B) l k : l `sublist_of` k → map f l `sublist_of` map f k.
Proof. induction 1; simpl; by constructor. Qed.

Lemma elem_of_filter_bool {A} (p : A → bool) l x :
  x ∈ List.filter p l ↔ x ∈ l ∧ p x = true.
Proof. by rewrite !list_elem_of_In, filter_In. Qed.

Lemma filter_all {A} (p : A → bool) l :
  Forall (λ x, p x = true) l → List.filter p l = l.
Proof. induction 1 as [|x l Hx _ IH]; simpl; [done|]. by rewrite Hx, IH. Qed.

Lemma filter_none {A} (p : A → bool) l :
  Forall (λ x, p x = false) l → List.filter p l = [].
Proof. induction 1 as [|x l Hx _ IH]; simpl; [done|]. by rewrite Hx, IH. Qed.

Lemma filter_filter {A} (p q : A → bool) l :
  List.filter p (List.filter q l) = List.filter (λ x, q x && p x) l.
Proof.
  induction l as [|x l IH]; [done|]. cbn [List.filter].
  destruct (q x); cbn [List.filter andb]; [destruct (p x)|]; by rewrite IH.
Qed.

(** A filter that is on unless [b] *)
Lemma filter_if {A} (b : bool) (p : A → bool) l :
  (if b then l else List.filter p l) = List.filter (λ x, b || p x) l.
Proof. destruct b; cbn [orb]; [|done]. symmetry. apply filter_all. by apply list.Forall_true. Qed.

(** ** [Array.prototype.sort]

    The sort is stable, so the result is determined by the order; insertion
    sort computes it.  [le x y] is [compare(x, y) <= 0]. *)

Section sort.
Context {A : Type} (le : A → A → bool).

Fixpoint insert_sorted (x : A) (l : list A) : list A :=
  match l with
  | [] => [x]
  | y :: l' => if le x y then x :: l else y :: insert_sorted x l'
  end.
Fixpoint sort_by (l : list A) : list A :=
  match l with [] => [] | x :: l => insert_sorted x (sort_by l) end.

Lemma insert_sorted_perm x l : insert_sorted x l ≡ₚ x :: l.
Proof.
  induction l as [|y l IH]; simpl; [done|]. destruct (le x y); [done|].
  rewrite IH. apply Permutation_swap.
Qed.

Lemma sort_by_perm l : sort_by l ≡ₚ l.
Proof. induction l as [|x l IH]; simpl; [done|]. by rewrite insert_sorted_perm, IH. Qed.

Context (Htotal : ∀ x y, le x y = true ∨ le y x = true)
        (Htrans : ∀ x y z, le x y = true → le y z = true → le x z = true).

Lemma sort_by_sorted l : StronglySorted (λ x y, le x y = true) (sort_by l).
Proof.
  induction l as [|x l IH]; simpl; [constructor|].
  induction IH as [|y k Hk IHk Hy]; simpl; [by repeat constructor|].
  destruct (le x y) eqn:E.
  - constructor; [by constructor|]. constructor; [done|].
    eapply Forall_impl; [exact Hy|]. eauto.
  - constructor; [done|]. rewrite insert_sorted_perm. constructor; [|done].
    destruct (Htotal x y); congruence.
Qed.
End sort.

Lemma sort_by_id {A} (le : A → A → bool) l :
  StronglySorted (λ x y, le x y = true) l → sort_by le l = l.
Proof.
  induction 1 as [|x l Hl IH Hx]; simpl; [done|]. rewrite IH.
  destruct Hx as [|y l Hy _]; simpl; [done|]. by rewrite Hy.
Qed.

(** A stable sort by [le] keeps the order [R] among equals. *)
Section stable.
Context {A : Type} (le : A → A → bool) (R : A → A → Prop)
  (Htotal : ∀ x y, le x y = true ∨ le y x = true)
  (Htrans : ∀ x y z, le x y = true → le y z = true → le x z = true).

Definition stable_order (x y : A) : Prop := le x y = true ∧ (le y x = true → R x y).

Lemma insert_sorted_stable x k :
  Forall (R x) k → StronglySorted stable_order k → StronglySorted stable_order (insert_sorted le x k).
Proof.
  intros HR Hk. induction Hk as [|y k Hk IH Hy]; cbn [insert_sorted]; [by repeat constructor|].
  apply list.Forall_cons in HR as [Hxy HR]. destruct (le x y) eqn:E.
  - constructor; [by constructor|]. constructor; [by split|].
    apply Forall_forall. intros z Hz. rewrite Forall_forall in HR, Hy.
    destruct (Hy z Hz) as [Hyz _]. split; [by eapply Htrans|]. intros _. by apply HR.
  - constructor; [by apply IH|]. rewrite insert_sorted_perm. constructor; [|done].
    split; [destruct (Htotal x y); congruence|congruence].
Qed.

Lemma sort_by_stable l : StronglySorted R l → StronglySorted stable_order (sort_by le l).
Proof.
  induction 1 as [|x l _ IH Hx]; cbn [sort_by]; [constructor|].
  apply insert_sorted_stable; [by rewrite sort_by_perm|done].
Qed.
End stable.

(** [sort_by] with an order that is total and transitive on the elements of the
    list only *)
Lemma sort_by_sorted_on {A} (P : A → Prop) (le : A → A → bool) l :
  (∀ x y, P x → P y → le x y = true ∨ le y x = true) →
  (∀ x y z, P x → P y → P z → le x y = true → le y z = true → le x z = true) →
  Forall P l → StronglySorted (λ x y, le x y = true) (sort_by le l).
Proof.
  intros Ht Htr. induction 1 as [|x l Hx Hl IH]; cbn [sort_by]; [constructor|].
  assert (HP : Forall P (sort_by le l)) by (by rewrite sort_by_perm).
  induction IH as [|y k Hk IHk Hy]; cbn [insert_sorted]; [by repeat constructor|].
  apply list.Forall_cons in HP as [Py Pk]. destruct (le x y) eqn:E.
  - constructor; [by constructor|]. constructor; [done|]. apply Forall_forall. intros z Hz.
    rewrite Forall_forall in Hy, Pk. eapply (Htr x y z); eauto.
  - constructor; [by apply IHk|]. rewrite insert_sorted_perm. constructor; [|done].
    destruct (Ht x y Hx Py); congruence.
Qed.

Lemma StronglySorted_weaken {A} (R S : A → A → Prop) l :
  (∀ x y, R x y → S x y) → StronglySorted R l → StronglySorted S l.
Proof.
  intros HRS. induction 1 as [|x l _ IH Hx]; [constructor|]. constructor; [done|].
  eapply Forall_impl; [exact Hx|]. apply HRS.
Qed.

(** ** The library's hint database *)

Create HintDb js.
Create Rewrite HintDb js.
#[export] Hint Resolve NoDup_set_array : js.
