(* ===== verification/JsString.v ===== *)
(** * Strings of the JavaScript language

    A string is its list of UTF-16 code units (ECMA-262, 6.1.4), each an
    integer in [0, 65535].  The file holds the string methods the application
    calls ([trim], [includes], [indexOf], [split], [join], [slice],
    [replaceAll], ...), decimal printing of integers, and the interface
    [Unicode] for the two operations that depend on the Unicode tables of the
    engine, [toLowerCase]/[toUpperCase] and [localeCompare].

    String literals of the source are written [u "..."]: the UTF-8 bytes of
    the Rocq literal are decoded to code points and re-encoded as UTF-16. *)

From S2P Require Import Prelude.


Local Open Scope Z_scope.

Abbreviation jstr := (list Z).

Definition is_unit (c : Z) : Prop := 0 ≤ c < 65536.
Definition jstr_wf (s : jstr) : Prop := Forall is_unit s.

(** ** Literals *)

Definition utf16_encode (p : Z) : jstr :=
  if p <? 65536 then [p]
  else [55296 + (p - 65536) / 1024; 56320 + (p - 65536) mod 1024].

Fixpoint utf16_of_utf8 (l : list Z) : jstr :=
  match l with
  | [] => []
  | a :: l1 =>
    if a <? 128 then a :: utf16_of_utf8 l1 else
    match l1 with
    | [] => []
    | b :: l2 =>
      if a <? 224 then ((a - 192) * 64 + (b - 128)) :: utf16_of_utf8 l2 else
      match l2 with
      | [] => []
      | c :: l3 =>
        if a <? 240
        then ((a - 224) * 4096 + (b - 128) * 64 + (c - 128)) :: utf16_of_utf8 l3
        else match l3 with
        | [] => []
        | d :: l4 =>
          utf16_encode ((a - 240) * 262144 + (b - 128) * 4096 + (c - 128) * 64 + (d - 128))
            ++ utf16_of_utf8 l4
        end
      end
    end
  end.

Definition u (s : string) : jstr :=
  utf16_of_utf8 (map (λ c, Z.of_N (Ascii.N_of_ascii c)) (String.list_ascii_of_string s)).
Arguments u s%_string_scope.

(** A literal with its apostrophes read as quotation marks, for JSON texts. *)
Definition uq (s : string) : jstr := map (λ c, if c =? 39 then 34 else c) (u s).
Arguments uq s%_string_scope.

(** ** Character classes *)

(** White space and line terminators, as [trim] and [\s] see them. *)
Definition is_ws (c : Z) : bool :=
  ((9 <=? c) && (c <=? 13)) || (c =? 32) || (c =? 160) || (c =? 5760)
  || ((8192 <=? c) && (c <=? 8202)) || (c =? 8232) || (c =? 8233)
  || (c =? 8239) || (c =? 8287) || (c =? 12288) || (c =? 65279).

Definition is_digit (c : Z) : bool := (48 <=? c) && (c <=? 57).

Definition is_ascii (c : Z) : Prop := 0 ≤ c < 128.

(** ** Methods *)

Abbreviation seqb s t := (bool_decide (@eq jstr s t)).
Notation "s =s t" := (bool_decide (@eq jstr s t)) (at level 70, only parsing) : js_scope.
Open Scope js_scope.

Definition nonempty (s : jstr) : bool := negb (seqb s []).

Fixpoint trim_start (s : jstr) : jstr :=
  match s with
  | [] => []
  | c :: s' => if is_ws c then trim_start s' else s
  end.

Definition trim_end (s : jstr) : jstr := rev (trim_start (rev s)).

Definition trim (s : jstr) : jstr := trim_end (trim_start s).

Fixpoint starts_with (p s : jstr) : bool :=
  match p, s with
  | [], _ => true
  | a :: p, b :: s => (a =? b) && starts_with p s
  | _ :: _, [] => false
  end.

Definition ends_with (p s : jstr) : bool := starts_with (rev p) (rev s).

(** [s.indexOf(p)], [None] for -1. *)
Fixpoint index_of (p s : jstr) : option nat :=
  if starts_with p s then Some 0%nat
  else match s with [] => None | _ :: s' => S <$> index_of p s' end.

Definition includes (p s : jstr) : bool := bool_decide (is_Some (index_of p s)).

(** [s.lastIndexOf(p)]. *)
Fixpoint last_index_of (p s : jstr) : option nat :=
  match s with
  | [] => if starts_with p [] then Some 0%nat else None
  | _ :: s' =>
    match last_index_of p s' with
    | Some i => Some (S i)
    | None => if starts_with p s then Some 0%nat else None
    end
  end.

(** [s.split(c)] for a separator of one code unit. *)
Fixpoint split_on (c : Z) (s : jstr) : list jstr :=
  match s with
  | [] => [[]]
  | x :: s' =>
    if x =? c then [] :: split_on c s'
    else match split_on c s' with
         | seg :: segs => (x :: seg) :: segs
         | [] => [[x]]
         end
  end.

Fixpoint join (sep : jstr) (l : list jstr) : jstr :=
  match l with
  | [] => []
  | [x] => x
  | x :: l => x ++ sep ++ join sep l
  end.

(** [s.replaceAll(c, '')] for one code unit. *)
Definition remove_unit (c : Z) (s : jstr) : jstr := filter (λ x, x ≠ c) s.

(** [s.replace(/[a]/g, b)] for one code unit each. *)
Definition replace_unit (a b : Z) (s : jstr) : jstr :=
  map (λ x, if x =? a then b else x) s.

(** ** Decimal numerals *)

Fixpoint dec_go (fuel : nat) (n : Z) : jstr :=
  match fuel with
  | O => []
  | S f => if n <? 10 then [48 + n] else dec_go f (n / 10) ++ [48 + n mod 10]
  end.

(** The numeral of a natural number; the fuel is its length in binary. *)
Definition dec (n : Z) : jstr := dec_go (S (Z.to_nat (Z.log2 n))) n.

(** The numeral of an integer. *)
Definition decZ (n : Z) : jstr := if n <? 0 then 45 :: dec (- n) else dec n.

Definition dval_from (a : Z) (s : jstr) : Z := fold_left (λ a c, 10 * a + (c - 48)) s a.
Definition dval (s : jstr) : Z := dval_from 0 s.

(** ** Case mapping and collation

    [toLowerCase], [toUpperCase] and [localeCompare] read the Unicode data the
    engine ships; the application only relies on what is stated here. *)

Definition lower_unit (c : Z) : Z := if (65 <=? c) && (c <=? 90) then c + 32 else c.
Definition upper_unit (c : Z) : Z := if (97 <=? c) && (c <=? 122) then c - 32 else c.

Class Unicode := {
  toLowerCase : jstr → jstr;
  toUpperCase : jstr → jstr;
  localeCompare : jstr → jstr → Z;
  toLowerCase_ascii s : Forall is_ascii s → toLowerCase s = map lower_unit s;
  toUpperCase_ascii s : Forall is_ascii s → toUpperCase s = map upper_unit s;
  toLowerCase_nonempty s : s ≠ [] → toLowerCase s ≠ [];
  localeCompare_antisym s t : Z.sgn (localeCompare s t) = - Z.sgn (localeCompare t s);
  localeCompare_trans s t r :
    localeCompare s t ≤ 0 → localeCompare t r ≤ 0 → localeCompare s r ≤ 0;
}.

(** Sorting by [(a, b) => key(a).localeCompare(key(b))] *)
Lemma locale_sorted `{Unicode} {A} (key : A → jstr) l :
  StronglySorted (λ a b, localeCompare (key a) (key b) ≤ 0)
    (sort_by (λ a b, localeCompare (key a) (key b) <=? 0) l).
Proof.
  eapply StronglySorted_weaken; [|apply sort_by_sorted].
  - intros x y. apply Z.leb_le.
  - intros x y. rewrite !Z.leb_le. pose proof (localeCompare_antisym (key x) (key y)). lia.
  - intros x y z. rewrite !Z.leb_le. apply localeCompare_trans.
Qed.

(** Code-unit order, an instance to evaluate the model with. *)
Fixpoint unit_compare (s t : jstr) : Z :=
  match s, t with
  | [], [] => 0
  | [], _ :: _ => -1
  | _ :: _, [] => 1
  | a :: s, b :: t => if a <? b then -1 else if b <? a then 1 else unit_compare s t
  end.

Lemma unit_compare_antisym s t : unit_compare s t = - unit_compare t s.
Proof.
  revert t. induction s as [|a s IH]; intros [|b t]; simpl; [done..|].
  destruct (Z.ltb_spec a b), (Z.ltb_spec b a); try lia. apply IH.
Qed.

Lemma unit_compare_trans s t r :
  unit_compare s t ≤ 0 → unit_compare t r ≤ 0 → unit_compare s r ≤ 0.
Proof.
  revert t r. induction s as [|a s IH]; intros [|b t] [|c r]; simpl; try lia.
  destruct (Z.ltb_spec a b), (Z.ltb_spec b c), (Z.ltb_spec a c), (Z.ltb_spec b a),
    (Z.ltb_spec c b), (Z.ltb_spec c a); try lia. apply IH.
Qed.

#[program] Definition ascii_unicode : Unicode := {|
  toLowerCase := map lower_unit;
  toUpperCase := map upper_unit;
  localeCompare := unit_compare;
|}.
Next Obligation. done. Qed.
Next Obligation. done. Qed.
Next Obligation. by intros []. Qed.
Next Obligation. intros s t. rewrite (unit_compare_antisym s t). lia. Qed.
Next Obligation. exact unit_compare_trans. Qed.

(** ** Lemmas on [trim] *)

Lemma trim_start_app s : ∃ w, s = w ++ trim_start s ∧ Forall (λ c, is_ws c = true) w.
Proof.
  induction s as [|c s (w & Hs & Hw)]; simpl; [by exists []|].
  destruct (is_ws c) eqn:E; [|by exists []].
  exists (c :: w). simpl. by rewrite <- Hs; repeat constructor.
Qed.

Lemma trim_start_head s c r : trim_start s = c :: r → is_ws c = false.
Proof.
  induction s as [|a s IH]; simpl; [done|].
  destruct (is_ws a) eqn:E; [done|]. by intros [= <- _].
Qed.

Lemma trim_start_fixed s : (∀ c r, s = c :: r → is_ws c = false) → trim_start s = s.
Proof. destruct s as [|a s]; simpl; intros H; [done|]. by rewrite (H a s eq_refl). Qed.

Lemma trim_start_idem s : trim_start (trim_start s) = trim_start s.
Proof. apply trim_start_fixed, trim_start_head. Qed.

Lemma trim_start_nil s : trim_start s = [] ↔ Forall (λ c, is_ws c = true) s.
Proof.
  induction s as [|c s IH]; simpl; [done|]. rewrite list.Forall_cons.
  destruct (is_ws c) eqn:E; [rewrite IH; naive_solver|].
  split; [done|]. intros [? _]; congruence.
Qed.

(** The first and the last code unit are not white space. *)
Definition tight (s : jstr) : Prop :=
  (∀ c r, s = c :: r → is_ws c = false) ∧ (∀ c r, s = r ++ [c] → is_ws c = false).

Lemma trim_tight s : tight s → trim s = s.
Proof.
  intros [Hh Hl]. unfold trim, trim_end. rewrite (trim_start_fixed s Hh).
  rewrite trim_start_fixed; [apply rev_involutive|].
  intros c r Hr. apply (Hl c (rev r)). rewrite <- (rev_involutive s), Hr. done.
Qed.

Lemma tight_trim s : tight (trim s).
Proof.
  unfold trim, trim_end. set (t := trim_start s). split.
  - intros c r Hc. destruct (trim_start_app (rev t)) as (w & Ht & _).
    apply (f_equal (@rev Z)) in Ht. rewrite rev_involutive, rev_app_distr, Hc in Ht. simpl in Ht.
    eapply (trim_start_head s); fold t; exact Ht.
  - intros c r Hc. apply (f_equal (@rev Z)) in Hc. rewrite rev_involutive, rev_app_distr in Hc.
    eapply trim_start_head; exact Hc.
Qed.

Lemma trim_idem s : trim (trim s) = trim s.
Proof. apply trim_tight, tight_trim. Qed.

Lemma trim_fixed_iff s : trim s = s ↔ tight s.
Proof. split; [intros <-; apply tight_trim|apply trim_tight]. Qed.

Lemma trim_nil s : trim s = [] ↔ Forall (λ c, is_ws c = true) s.
Proof.
  unfold trim, trim_end. rewrite <- (trim_start_nil s). split.
  - intros H. apply (f_equal (@rev Z)) in H. rewrite rev_involutive in H. simpl in H.
    apply trim_start_nil, List.Forall_rev in H. rewrite rev_involutive in H.
    destruct (trim_start s) as [|c r] eqn:E; [done|].
    apply list.Forall_cons in H as [H _]. by rewrite (trim_start_head _ _ _ E) in H.
  - by intros ->.
Qed.

Lemma tight_app p s :
  p ≠ [] → s ≠ [] → (∀ c r, p = c :: r → is_ws c = false) → tight s → tight (p ++ s).
Proof.
  intros Hp Hs Hph [_ Hsl]. split.
  - intros c r H. destruct p as [|a p]; [done|]. simplify_eq/=. eauto.
  - intros c r H. destruct (exists_last Hs) as (s' & x & ->).
    rewrite app_assoc in H. apply app_inj_tail in H as [_ ->]. eauto.
Qed.

#[export] Hint Rewrite trim_idem : js.

(** ** Lemmas on decimal numerals *)

Lemma is_digit_spec c : is_digit c = true ↔ 48 ≤ c ≤ 57.
Proof. unfold is_digit. rewrite andb_true_iff, !Z.leb_le. done. Qed.

Lemma dval_from_app a s t : dval_from a (s ++ t) = dval_from (dval_from a s) t.
Proof. unfold dval_from. by rewrite fold_left_app. Qed.

Lemma dval_snoc s c : dval (s ++ [c]) = 10 * dval s + (c - 48).
Proof. unfold dval. by rewrite dval_from_app. Qed.

Lemma dval_from_shift a s : dval_from a s = a * 10 ^ Z.of_nat (length s) + dval s.
Proof.
  induction s as [|c s IH] using rev_ind; [unfold dval, dval_from; simpl; lia|].
  rewrite dval_from_app, dval_snoc, length_app. simpl. rewrite IH. unfold dval_from; simpl.
  replace (Z.of_nat (length s + 1)) with (Z.of_nat (length s) + 1) by lia.
  rewrite Z.pow_add_r by lia. ring_simplify. lia.
Qed.

Lemma dval_app s t : dval (s ++ t) = dval s * 10 ^ Z.of_nat (length t) + dval t.
Proof. unfold dval at 1. by rewrite dval_from_app, dval_from_shift. Qed.

Lemma dval_nonneg s : Forall (λ c, is_digit c = true) s → 0 ≤ dval s.
Proof.
  induction s as [|c s IH] using rev_ind; [done|].
  rewrite Forall_app, list.Forall_singleton, dval_snoc, is_digit_spec. intros [Hs Hc].
  specialize (IH Hs). lia.
Qed.

(** What [dec] produces: digits, no superfluous zero in front, the right value. *)
Record numeral (n : Z) (s : jstr) : Prop := {
  numeral_digits : Forall (λ c, is_digit c = true) s;
  numeral_val : dval s = n;
  numeral_ne : s ≠ [];
  numeral_head : ∀ c r, s = c :: r → c = 48 → r = [];
}.

Lemma dec_go_numeral f n : 0 ≤ n < 2 ^ Z.of_nat f → 0 < Z.of_nat f → numeral n (dec_go f n).
Proof.
  revert n. induction f as [|f IH]; intros n Hn Hf; [lia|]. simpl.
  destruct (Z.ltb_spec n 10).
  { split; [repeat constructor; apply is_digit_spec; lia
           |unfold dval, dval_from; simpl; lia|done|]. by intros c r [= <- <-]. }
  assert (Hp : 2 ^ Z.of_nat (S f) = 2 * 2 ^ Z.of_nat f).
  { rewrite Nat2Z.inj_succ, Z.pow_succ_r; lia. }
  assert (Hq : 0 < n / 10 < 2 ^ Z.of_nat f).
  { split; [apply Z.div_str_pos; lia|apply Z.div_lt_upper_bound; lia]. }
  assert (0 < Z.of_nat f) by (destruct f; simpl in *; lia).
  destruct (IH (n / 10) ltac:(lia) ltac:(done)) as [Hd Hv Hne Hh].
  pose proof (Z.mod_pos_bound n 10 ltac:(lia)). split.
  - rewrite Forall_app. split; [done|]. repeat constructor. apply is_digit_spec. lia.
  - rewrite dval_snoc, Hv. pose proof (Z.div_mod n 10 ltac:(lia)). lia.
  - by destruct (dec_go f (n / 10)).
  - intros c r Hc ->. destruct (dec_go f (n / 10)) as [|c' r'] eqn:E; [done|].
    simplify_eq/=. rewrite (Hh _ _ eq_refl eq_refl) in Hv. unfold dval, dval_from in Hv.
    simpl in Hv. lia.
Qed.

Lemma dec_numeral n : 0 ≤ n → numeral n (dec n).
Proof.
  intros Hn. apply dec_go_numeral; [|lia]. split; [done|].
  rewrite Nat2Z.inj_succ, Z2Nat.id by apply Z.log2_nonneg.
  destruct (Z.eq_dec n 0) as [->|]; [done|]. apply Z.log2_spec. lia.
Qed.

Lemma dec_inj n m : 0 ≤ n → 0 ≤ m → dec n = dec m → n = m.
Proof.
  intros Hn Hm H. rewrite <- (numeral_val _ _ (dec_numeral n Hn)), H.
  apply numeral_val, dec_numeral, Hm.
Qed.

(** ** Lemmas on searching *)

Lemma starts_with_spec p s : starts_with p s = true ↔ ∃ r, s = p ++ r.
Proof.
  revert s. induction p as [|a p IH]; intros s; simpl; [split; eauto|].
  destruct s as [|b s]; [split; [done|intros [r Hr]; done]|].
  rewrite andb_true_iff, Z.eqb_eq, IH. split.
  - intros [-> [r ->]]. eauto.
  - intros [r [= -> ->]]. eauto.
Qed.

Lemma starts_with_app p r : starts_with p (p ++ r) = true.
Proof. apply starts_with_spec. eauto. Qed.

Lemma index_of_Some p s i :
  index_of p s = Some i →
  ∃ a b, s = a ++ p ++ b ∧ length a = i.
Proof.
  revert i. induction s as [|c s IH]; intros i; simpl.
  - destruct (starts_with p []) eqn:E; [|done]. intros [= <-].
    apply starts_with_spec in E as [r ->]. by exists [], r.
  - destruct (starts_with p (c :: s)) eqn:E.
    { intros [= <-]. apply starts_with_spec in E as [r ->]. by exists [], r. }
    intros (j & Hj & ->)%fmap_Some. destruct (IH j Hj) as (a & b & -> & <-).
    by exists (c :: a), b.
Qed.

Lemma index_of_None p s : index_of p s = None ↔ ∀ a b, s ≠ a ++ p ++ b.
Proof.
  induction s as [|c s IH]; simpl.
  - destruct (starts_with p []) eqn:E.
    + split; [done|]. apply starts_with_spec in E as [r Hr]. intros H. by destruct (H [] r).
    + split; [|done]. intros _ [|? ?] b Hb; [|done].
      enough (starts_with p [] = true) by congruence. apply starts_with_spec; eauto.
  - destruct (starts_with p (c :: s)) eqn:E.
    + split; [done|]. apply starts_with_spec in E as [r Hr]. intros H. by destruct (H [] r).
    + destruct (index_of p s) eqn:Ei; simpl.
      * split; [done|]. apply index_of_Some in Ei as (a & b & -> & _).
        intros H. by destruct (H (c :: a) b).
      * split; [|done]. intros _ [|x a] b Hb.
        { simpl in Hb. enough (starts_with p (c :: s) = true) by congruence.
          apply starts_with_spec; eauto. }
        simplify_eq/=. by apply (proj1 IH eq_refl a b).
Qed.

Lemma includes_spec p s : includes p s = true ↔ ∃ a b, s = a ++ p ++ b.
Proof.
  unfold includes. rewrite bool_decide_eq_true. split.
  - intros [i Hi]. apply index_of_Some in Hi as (a & b & H & _). eauto.
  - intros (a & b & H). destruct (index_of p s) eqn:E; [done|].
    by apply index_of_None with (a:=a) (b:=b) in E.
Qed.

(** The first occurrence of a one-unit separator. *)
Lemma index_of_unit c a b :
  c ∉ a → index_of [c] (a ++ c :: b) = Some (length a).
Proof.
  induction a as [|x a IH]; simpl; intros Hc.
  - by rewrite Z.eqb_refl.
  - rewrite not_elem_of_cons in Hc. destruct Hc as [Hx Ha].
    destruct (Z.eqb_spec c x); [done|]. simpl. by rewrite IH.
Qed.

Lemma join_cons2 sep a b l : join sep (a :: b :: l) = a ++ sep ++ join sep (b :: l).
Proof. done. Qed.

Lemma split_on_ne c s : split_on c s ≠ [].
Proof. destruct s as [|x s]; simpl; [done|]. by destruct (x =? c), (split_on c s). Qed.

Lemma split_on_join c s : join [c] (split_on c s) = s.
Proof.
  induction s as [|x s IH]; simpl; [done|].
  destruct (Z.eqb_spec x c) as [->|].
  - pose proof (split_on_ne c s). destruct (split_on c s); [done|].
    simpl in *. by rewrite IH.
  - pose proof (split_on_ne c s). destruct (split_on c s) as [|seg segs]; [done|].
    rewrite <- IH. by destruct segs.
Qed.

Lemma split_on_free_of c s : Forall (λ x, c ∉ x) (split_on c s).
Proof.
  induction s as [|x s IH]; simpl; [repeat constructor; set_solver|].
  destruct (Z.eqb_spec x c); [constructor; [set_solver|done]|].
  destruct IH as [|seg segs Hseg Hsegs]; constructor; [set_solver|set_solver|set_solver|done].
Qed.

Lemma split_on_Forall (P : Z → Prop) c s : Forall P s → Forall (Forall P) (split_on c s).
Proof.
  induction 1 as [|x s Hx _ IH]; simpl; [by repeat constructor|]. case_match; [by constructor|].
  destruct (split_on c s) as [|y l]; [by repeat constructor|].
  apply list.Forall_cons in IH as [Hy Hl]. constructor; [by constructor|done].
Qed.

Lemma split_on_app c a s :
  c ∉ a → split_on c (a ++ c :: s) = a :: split_on c s.
Proof.
  induction a as [|x a IH]; simpl; intros Ha; [by rewrite Z.eqb_refl|].
  rewrite not_elem_of_cons in Ha. destruct Ha as [Hx Ha].
  destruct (Z.eqb_spec x c); [congruence|]. by rewrite IH.
Qed.

Lemma split_on_free c a : c ∉ a → split_on c a = [a].
Proof.
  induction a as [|x a IH]; simpl; intros Ha; [done|].
  rewrite not_elem_of_cons in Ha. destruct Ha as [Hx Ha].
  destruct (Z.eqb_spec x c); [congruence|]. by rewrite IH.
Qed.

Lemma split_join c (l : list jstr) :
  l ≠ [] → Forall (λ x, c ∉ x) l → split_on c (join [c] l) = l.
Proof.
  intros Hne H. induction H as [|x l Hx Hl IH]; [done|].
  destruct l as [|y l]; simpl; [by apply split_on_free|].
  change (c :: ?t) with ([c] ++ t). simpl.
  rewrite split_on_app by done. f_equal. by apply IH.
Qed.
