(* ===== verification/JsNumber.v ===== *)
(** * Numbers of the JavaScript language

    IEEE-754 binary64, as ECMA-262 prescribes: a number is NaN, an infinity,
    or a signed [m * 2^e] with a 53-bit significand in canonical form.  Every
    arithmetic operation is the exact rational operation followed by
    [round_q], round-to-nearest ties-to-even with overflow to infinity and
    gradual underflow.

    The file also holds the conversions between numbers and strings the
    application calls: [Number(s)], [parseFloat], [parseInt(s, 10)],
    [String(x)] (the shortest decimal that reads back as [x]) and [toFixed]. *)

From Stdlib Require Import QArith Qround Qpower Lqa.
From S2P Require Import Prelude JsString.

Local Open Scope Z_scope.

Inductive num :=
| NaN
| Inf (neg : bool)
| Fin (neg : bool) (m e : Z).

#[export] Instance num_eq_dec : EqDecision num.
Proof. solve_decision. Defined.

Definition emin : Z := -1074.
Definition emax : Z := 971.

(** Canonical significands: normal numbers have 53 bits, the others the least
    exponent. *)
Definition canonical (m e : Z) : Prop :=
  0 ≤ m < 2 ^ 53 ∧ emin ≤ e ≤ emax ∧ (2 ^ 52 ≤ m ∨ e = emin).

Definition num_wf (x : num) : Prop :=
  match x with Fin _ m e => canonical m e | _ => True end.

(** ** Rounding *)

(** [2^k ≤ n/d] *)
Definition ge_pow2 (n d k : Z) : bool :=
  if 0 <=? k then d * 2 ^ k <=? n else d <=? n * 2 ^ (- k).

(** [⌊log2 (n/d)⌋] *)
Definition ilog2 (n d : Z) : Z :=
  let k := Z.log2 n - Z.log2 d in if ge_pow2 n d k then k else k - 1.

Definition round_nd (neg : bool) (n d : Z) : num :=
  if n =? 0 then Fin neg 0 emin else
  let e := Z.max (ilog2 n d - 52) emin in
  let a := if 0 <=? e then n else n * 2 ^ (- e) in
  let b := if 0 <=? e then d * 2 ^ e else d in
  let m := a / b in
  let r := a mod b in
  let m := if (b <? 2 * r) || ((b =? 2 * r) && Z.odd m) then m + 1 else m in
  let '(m, e) := if m =? 2 ^ 53 then (2 ^ 52, e + 1) else (m, e) in
  if emax <? e then Inf neg else Fin neg m e.

(** The number nearest to the magnitude [q], with the given sign. *)
Definition round_q (neg : bool) (q : Q) : num :=
  let q := Qred q in round_nd neg (Qnum q) (Zpos (Qden q)).

(** The exact magnitude of a finite number. *)
Definition mag (m e : Z) : Q := (inject_Z m * (2 # 1) ^ e)%Q.

Definition to_q (neg : bool) (m e : Z) : Q :=
  if neg then (- mag m e)%Q else mag m e.

(** Rounds a signed exact result; an exact zero takes the sign [zneg]. *)
Definition round_signed (zneg : bool) (q : Q) : num :=
  match (q ?= 0)%Q with
  | Eq => Fin zneg 0 emin
  | Lt => round_q true (- q)
  | Gt => round_q false q
  end.

(** ** Arithmetic *)

Definition nzero : num := Fin false 0 emin.

Definition of_Z (z : Z) : num := round_q (z <? 0) (inject_Z (Z.abs z)).

Definition nopp (x : num) : num :=
  match x with NaN => NaN | Inf s => Inf (negb s) | Fin s m e => Fin (negb s) m e end.

Definition nadd (x y : num) : num :=
  match x, y with
  | NaN, _ | _, NaN => NaN
  | Inf s, Inf t => if eqb s t then Inf s else NaN
  | Inf s, Fin _ _ _ => Inf s
  | Fin _ _ _, Inf t => Inf t
  | Fin s m e, Fin t n f => round_signed (s && t) (to_q s m e + to_q t n f)
  end.

Definition nsub (x y : num) : num := nadd x (nopp y).

Definition nmul (x y : num) : num :=
  match x, y with
  | NaN, _ | _, NaN => NaN
  | Inf s, Inf t => Inf (xorb s t)
  | Inf s, Fin t n _ | Fin t n _, Inf s => if n =? 0 then NaN else Inf (xorb s t)
  | Fin s m e, Fin t n f => round_q (xorb s t) (mag m e * mag n f)
  end.

Definition ndiv (x y : num) : num :=
  match x, y with
  | NaN, _ | _, NaN => NaN
  | Inf _, Inf _ => NaN
  | Inf s, Fin t _ _ => Inf (xorb s t)
  | Fin s _ _, Inf t => Fin (xorb s t) 0 emin
  | Fin s m e, Fin t n f =>
    if n =? 0 then (if m =? 0 then NaN else Inf (xorb s t))
    else round_q (xorb s t) (mag m e / mag n f)
  end.

Definition ncompare (x y : num) : option comparison :=
  match x, y with
  | NaN, _ | _, NaN => None
  | Inf s, Inf t => Some (match s, t with
                          | true, false => Lt | false, true => Gt | _, _ => Eq end)
  | Inf s, Fin _ _ _ => Some (if s then Lt else Gt)
  | Fin _ _ _, Inf t => Some (if t then Gt else Lt)
  | Fin s m e, Fin t n f => Some (to_q s m e ?= to_q t n f)%Q
  end.

(** [===], [<], [<=], [>], [>=] on numbers *)
Definition neqb (x y : num) : bool := bool_decide (ncompare x y = Some Eq).
Definition nltb (x y : num) : bool := bool_decide (ncompare x y = Some Lt).
Definition nleb (x y : num) : bool := nltb x y || neqb x y.
Definition ngtb (x y : num) : bool := nltb y x.
Definition ngeb (x y : num) : bool := nleb y x.

Definition isNaN (x : num) : bool := match x with NaN => true | _ => false end.
Definition isFinite (x : num) : bool := match x with Fin _ _ _ => true | _ => false end.

(** Truthiness of a number: not NaN and not a zero. *)
Definition ntruthy (x : num) : bool :=
  match x with NaN => false | Inf _ => true | Fin _ m _ => negb (m =? 0) end.

(** [Some z] when the number is the integer [z]. *)
Definition to_integer (x : num) : option Z :=
  match x with
  | Fin s m e =>
    let sg z := if s then - z else z in
    if 0 <=? e then Some (sg (m * 2 ^ e))
    else if m mod 2 ^ (- e) =? 0 then Some (sg (m / 2 ^ (- e))) else None
  | _ => None
  end.
Definition isInteger (x : num) : bool := bool_decide (is_Some (to_integer x)).

(** [Math.max(x, y)] *)
Definition math_max (x y : num) : num :=
  match ncompare x y with
  | None => NaN
  | Some Lt => y
  | Some Gt => x
  | Some Eq => match x with Fin true 0 _ => y | _ => x end
  end.

(** [Math.floor] and [Math.round] (the latter rounds halves up). *)
Definition keep_zero_sign (s : bool) (z : Z) : num :=
  if z =? 0 then Fin s 0 emin else of_Z z.
Definition math_floor (x : num) : num :=
  match x with
  | Fin s m e => keep_zero_sign s (Qfloor (to_q s m e))
  | _ => x
  end.
Definition math_round (x : num) : num :=
  match x with
  | Fin s m e => keep_zero_sign s (Qfloor (to_q s m e + (1 # 2)))
  | _ => x
  end.

(** ** From strings *)

Fixpoint take_digits (s : jstr) : jstr * jstr :=
  match s with
  | [] => ([], [])
  | c :: r => if is_digit c then let '(d, t) := take_digits r in (c :: d, t) else ([], s)
  end.

(** An optional sign: is it a minus, and what follows. *)
Definition take_sign (s : jstr) : bool * jstr :=
  match s with
  | c :: r => if c =? 45 then (true, r) else if c =? 43 then (false, r) else (false, s)
  | [] => (false, s)
  end.

(** An optional point and the digits after it. *)
Definition take_frac (s : jstr) : jstr * jstr :=
  match s with
  | c :: r => if c =? 46 then take_digits r else ([], s)
  | [] => ([], s)
  end.

(** [e]/[E], optional sign, digits; [None] when that is not what follows. *)
Definition take_exp (s : jstr) : option (Z * jstr) :=
  match s with
  | c :: r =>
    if (c =? 101) || (c =? 69) then
      let '(neg, r) := take_sign r in
      match take_digits r with
      | ([], _) => None
      | (d, t) => Some (if neg then - dval d else dval d, t)
      end
    else None
  | [] => None
  end.

(** The decimal [m * 10^e] *)
Definition dec_q (m e : Z) : Q := (inject_Z m * (10 # 1) ^ e)%Q.
Definition dec_to_num (neg : bool) (m e : Z) : num := round_q neg (dec_q m e).

(** The longest prefix that is a [StrUnsignedDecimalLiteral] without
    [Infinity]: its significand, its exponent and the rest. *)
Definition scan_udec (s : jstr) : option (Z * Z * jstr) :=
  let '(i, r) := take_digits s in
  let '(f, r) := take_frac r in
  if seqb i [] && seqb f [] then None else
  let m := dval (i ++ f) in
  let k := Z.of_nat (length f) in
  match take_exp r with
  | Some (e, r) => Some (m, e - k, r)
  | None => Some (m, - k, r)
  end.

(** Digits of another radix, all of the string. *)
Definition radix_digit (radix c : Z) : option Z :=
  let v := if is_digit c then c - 48
           else if (97 <=? c) && (c <=? 102) then c - 87
           else if (65 <=? c) && (c <=? 70) then c - 55 else 99 in
  if v <? radix then Some v else None.
Fixpoint radix_val (radix a : Z) (s : jstr) : option Z :=
  match s with
  | [] => Some a
  | c :: s => match radix_digit radix c with
              | Some v => radix_val radix (radix * a + v) s
              | None => None
              end
  end.
Definition radix_num (radix : Z) (s : jstr) : num :=
  match s with
  | [] => NaN
  | _ => match radix_val radix 0 s with Some z => of_Z z | None => NaN end
  end.

(** [0x], [0o], [0b]: the radix and the digits. *)
Definition radix_prefix (t : jstr) : option (Z * jstr) :=
  match t with
  | z :: c :: r =>
    if z =? 48 then
      if (c =? 120) || (c =? 88) then Some (16, r)
      else if (c =? 111) || (c =? 79) then Some (8, r)
      else if (c =? 98) || (c =? 66) then Some (2, r)
      else None
    else None
  | _ => None
  end.

(** A [StrDecimalLiteral], all of the string. *)
Definition decimal_literal (t : jstr) : num :=
  let '(neg, r) := take_sign t in
  if seqb r (u "Infinity") then Inf neg
  else match scan_udec r with Some (m, e, []) => dec_to_num neg m e | _ => NaN end.

(** [Number(s)] for a string (StringToNumber) *)
Definition Number (s : jstr) : num :=
  let t := trim s in
  if seqb t [] then nzero else
  match radix_prefix t with
  | Some (radix, r) => radix_num radix r
  | None => decimal_literal t
  end.

Definition parseFloat (s : jstr) : num :=
  let '(neg, r) := take_sign (trim_start s) in
  if starts_with (u "Infinity") r then Inf neg
  else match scan_udec r with Some (m, e, _) => dec_to_num neg m e | None => NaN end.

(** [parseInt(s, 10)] *)
Definition parseInt (s : jstr) : num :=
  let '(neg, r) := take_sign (trim_start s) in
  match take_digits r with
  | ([], _) => NaN
  | (d, _) => round_q neg (inject_Z (dval d))
  end.

(** ** To strings *)

(** The two [k]-digit decimals around [q], the nearer one first, where [q] is
    in [10^(n-1), 10^n). *)
Definition candidates (q : Q) (n k : Z) : list (Z * Z) :=
  let p := n - k in
  let x := (q * (10 # 1) ^ (- p))%Q in
  let s := Qfloor x in
  let up := if s + 1 =? 10 ^ k then (1, p + k) else (s + 1, p) in
  if Qle_bool (x - inject_Z s) (1 # 2) then [(s, p); up] else [up; (s, p)].

Definition reads_back (m e : Z) (c : Z * Z) : bool :=
  bool_decide (0 < c.1 ∧ dec_to_num false c.1 c.2 = Fin false m e).

(** The least [n] with [q < 10^n]. *)
Fixpoint log10_up (fuel : nat) (n : Z) (q : Q) : Z :=
  match fuel with
  | O => n
  | S f => if Qle_bool ((10 # 1) ^ n) q then log10_up f (n + 1) q else n
  end.

Fixpoint shortest_from (fuel : nat) (k n m e : Z) : Z * Z :=
  match fuel with
  | O => if 0 <=? e then (m * 2 ^ e, 0) else (m * 5 ^ (- e), e)
  | S f =>
    match List.find (reads_back m e) (candidates (mag m e) n k) with
    | Some c => c
    | None => shortest_from f (k + 1) n m e
    end
  end.

(** The digits [s] and the exponent [p] of Number::toString: [s * 10^p] reads
    back as [m * 2^e] and [s] has as few digits as possible.  17 digits are
    enough for binary64; the decimal expansion of the number itself closes the
    recursion.  The exponent estimate starts below the decade of [m * 2^e]. *)
Definition shortest (m e : Z) : Z * Z :=
  let start := ((Z.log2 m + e) * 3) / 10 - 2 in
  shortest_from 17 1 (log10_up 50 start (mag m e)) m e.

Definition zeros (k : Z) : jstr := replicate (Z.to_nat k) 48.

Definition fmt_exp (n : Z) : jstr :=
  101 :: (if n - 1 <? 0 then 45 else 43) :: dec (Z.abs (n - 1)).

(** The layout of the digits [ds] of a number in [10^(n-1), 10^n). *)
Definition layout (ds : jstr) (n : Z) : jstr :=
  let k := Z.of_nat (length ds) in
  if (k <=? n) && (n <=? 21) then ds ++ zeros (n - k)
  else if (0 <? n) && (n <=? 21) then take (Z.to_nat n) ds ++ 46 :: drop (Z.to_nat n) ds
  else if (-6 <? n) && (n <=? 0) then 48 :: 46 :: zeros (- n) ++ ds
  else match ds with
       | [d] => d :: fmt_exp n
       | d :: r => d :: 46 :: r ++ fmt_exp n
       | [] => []
       end.

Definition print_dec (s p : Z) : jstr :=
  let ds := dec s in layout ds (p + Z.of_nat (length ds)).

(** [String(x)] *)
Definition num_to_string (x : num) : jstr :=
  match x with
  | NaN => u "NaN"
  | Inf false => u "Infinity"
  | Inf true => u "-Infinity"
  | Fin s m e =>
    if m =? 0 then u "0"
    else let '(d, p) := shortest m e in
         (if s then [45] else []) ++ print_dec d p
  end.

(** [x.toFixed(f)]; from [10^21] on, and for NaN and infinities, it is
    [String(x)]. *)
Definition toFixed (f : Z) (x : num) : jstr :=
  match x with
  | Fin s m e =>
    if Qle_bool ((10 # 1) ^ 21) (mag m e) then num_to_string x else
    let n := Qfloor (mag m e * (10 # 1) ^ f + (1 # 2)) in
    let ds := dec n in
    let sign := if s && negb (m =? 0) then [45] else [] in
    if f =? 0 then sign ++ ds else
    let ds := if Z.of_nat (length ds) <=? f
              then zeros (f + 1 - Z.of_nat (length ds)) ++ ds else ds in
    let i := (length ds - Z.to_nat f)%nat in
    sign ++ take i ds ++ 46 :: drop i ds
  | _ => num_to_string x
  end.

(** ** Rounding is exact on representable numbers *)

Lemma pow2_pos k : 0 ≤ k → 0 < 2 ^ k.
Proof. intros. by apply Z.pow_pos_nonneg. Qed.

(** [n/d = m * 2^e], in integers. *)
Definition ratio_is (n d m e : Z) : Prop :=
  n * 2 ^ (Z.max (- e) 0) = m * d * 2 ^ (Z.max e 0).

Lemma ratio_log2 n d m e :
  0 < n → 0 < d → 0 < m → ratio_is n d m e →
  Z.log2 m + e ≤ Z.log2 n - Z.log2 d ≤ Z.log2 m + e + 1.
Proof.
  unfold ratio_is. intros Hn Hd Hm H.
  assert (Hl : Z.log2 n + Z.max (- e) 0 = Z.log2 (m * d) + Z.max e 0).
  { apply (f_equal Z.log2) in H. rewrite !Z.log2_mul_pow2 in H; lia. }
  pose proof (Z.log2_mul_below m d Hm Hd).
  pose proof (Z.log2_mul_above m d ltac:(lia) ltac:(lia)). lia.
Qed.

Lemma ge_pow2_ratio n d m e k :
  0 < d → 0 < m → ratio_is n d m e →
  ge_pow2 n d k = (k <=? Z.log2 m + e).
Proof.
  unfold ratio_is, ge_pow2. intros Hd Hm H.
  assert (Hk : ∀ j, 0 ≤ j → (2 ^ j <=? m) = (j <=? Z.log2 m)).
  { intros j Hj. apply eq_true_iff_eq. rewrite !Z.leb_le. apply Z.log2_le_pow2; lia. }
  set (a := Z.max (- e) 0) in *. set (b := Z.max e 0) in *.
  assert (Hpa : 0 < 2 ^ a) by (apply pow2_pos; lia).
  assert (Hpb : 0 < 2 ^ b) by (apply pow2_pos; lia).
  assert (Hcore : (if 0 <=? k then d * 2 ^ k <=? n else d <=? n * 2 ^ (- k))
    = (2 ^ (Z.max k 0 + a) <=? m * 2 ^ (b + Z.max (- k) 0))).
  { apply eq_true_iff_eq. rewrite Z.leb_le, !Z.pow_add_r by lia.
    destruct (Z.leb_spec 0 k); rewrite Z.leb_le.
    - rewrite (Z.max_l k 0), (Z.max_r (- k) 0), Z.pow_0_r by lia. split; intros.
      + apply (Zmult_le_reg_r _ _ d); [lia|]. nia.
      + apply (Zmult_le_reg_r _ _ (2 ^ a)); [lia|]. nia.
    - rewrite (Z.max_r k 0), (Z.max_l (- k) 0), Z.pow_0_r by lia. split; intros.
      + apply (Zmult_le_reg_r _ _ d); [lia|]. nia.
      + apply (Zmult_le_reg_r _ _ (2 ^ a)); [lia|]. nia. }
  rewrite Hcore. set (x := Z.max k 0 + a). set (y := b + Z.max (- k) 0).
  apply eq_true_iff_eq. rewrite !Z.leb_le.
  assert (x - y = k - e) by lia.
  rewrite (Z.log2_le_pow2 (m * 2 ^ y) x); [|apply Z.mul_pos_pos; [lia|apply pow2_pos; lia]].
  rewrite Z.log2_mul_pow2 by lia. lia.
Qed.

Lemma ilog2_ratio n d m e :
  0 < n → 0 < d → 0 < m → ratio_is n d m e → ilog2 n d = Z.log2 m + e.
Proof.
  intros Hn Hd Hm H. unfold ilog2.
  pose proof (ratio_log2 n d m e Hn Hd Hm H).
  rewrite (ge_pow2_ratio n d m e _ Hd Hm H). destruct (Z.leb_spec (Z.log2 n - Z.log2 d) (Z.log2 m + e)); lia.
Qed.

Lemma round_nd_exact neg n d m e :
  0 < d → 0 < m → canonical m e → ratio_is n d m e → round_nd neg n d = Fin neg m e.
Proof.
  intros Hd Hm (Hm53 & He & Hnorm) H.
  assert (Hn : 0 < n).
  { unfold ratio_is in H. pose proof (pow2_pos (Z.max (- e) 0) ltac:(lia)).
    pose proof (pow2_pos (Z.max e 0) ltac:(lia)). nia. }
  unfold round_nd. destruct (Z.eqb_spec n 0); [lia|].
  rewrite (ilog2_ratio n d m e Hn Hd Hm H).
  assert (Hlog : Z.log2 m < 53) by (apply Z.log2_lt_pow2; lia).
  assert (Hexp : Z.max (Z.log2 m + e - 52) emin = e).
  { destruct Hnorm as [Hnorm| ->]; [|lia]. assert (52 ≤ Z.log2 m); [|lia].
    apply Z.log2_le_pow2; lia. }
  rewrite Hexp. unfold ratio_is in H.
  assert (Hab : (if 0 <=? e then n else n * 2 ^ (- e)) =
    m * (if 0 <=? e then d * 2 ^ e else d)).
  { destruct (Z.leb_spec 0 e).
    - rewrite (Z.max_r (- e) 0), (Z.max_l e 0) in H by lia. lia.
    - rewrite (Z.max_l (- e) 0), (Z.max_r e 0) in H by lia. lia. }
  set (b := if 0 <=? e then d * 2 ^ e else d) in *.
  assert (Hb : 0 < b).
  { unfold b. destruct (Z.leb_spec 0 e); [|done]. pose proof (pow2_pos e ltac:(lia)). nia. }
  cbv zeta. rewrite Hab, Z.div_mul, Z.mod_mul by lia.
  destruct (Z.ltb_spec b (2 * 0)); [lia|]. destruct (Z.eqb_spec b (2 * 0)); [lia|]. simpl.
  destruct (Z.eqb_spec m (2 ^ 53)); [lia|].
  destruct (Z.ltb_spec emax e); [lia|done].
Qed.

#[export] Instance round_q_proper neg : Proper (Qeq ==> eq) (round_q neg).
Proof. intros p q H. unfold round_q. by rewrite (Qred_complete _ _ H). Qed.

Lemma Qpow_pos (a : positive) (e : Z) : 0 ≤ e → ((Zpos a # 1) ^ e == inject_Z (Zpos a ^ e))%Q.
Proof. intros He. rewrite <- (Zpower_Qpower (Zpos a) e He). reflexivity. Qed.

Lemma Qpow_ne (a : positive) (e : Z) : ~ ((Zpos a # 1) ^ e == 0)%Q.
Proof. apply Qpower_not_0. done. Qed.

Lemma mag_ratio n (d : positive) m e : ((n # d) == mag m e)%Q → ratio_is n (Zpos d) m e.
Proof.
  unfold mag, ratio_is. intros H. destruct (Z.leb_spec 0 e).
  - rewrite (Z.max_r (- e) 0), (Z.max_l e 0), Z.pow_0_r by lia.
    rewrite Qpow_pos in H by done. unfold Qeq in H. simpl in H. lia.
  - rewrite (Z.max_l (- e) 0), (Z.max_r e 0), Z.pow_0_r by lia.
    assert (H' : ((n # d) * (2 # 1) ^ (- e) == inject_Z m)%Q).
    { rewrite H, <- Qmult_assoc, <- Qpower_plus by done.
      replace (e + - e) with 0 by lia. simpl. ring. }
    rewrite Qpow_pos in H' by lia. unfold Qeq in H'. simpl in H'. lia.
Qed.

Lemma round_q_zero neg q : (q == 0)%Q → round_q neg q = Fin neg 0 emin.
Proof. intros ->. done. Qed.

(** A representable magnitude rounds to itself. *)
Lemma round_q_exact neg m e q :
  canonical m e → (q == mag m e)%Q → (m = 0 → e = emin) →
  round_q neg q = Fin neg m e.
Proof.
  intros Hc Hq H0. destruct (Z.eq_dec m 0) as [->|Hm].
  { rewrite H0 by done. apply round_q_zero. rewrite Hq. unfold mag. by rewrite Qmult_0_l. }
  unfold round_q. apply round_nd_exact; [done|destruct Hc; lia|done|].
  destruct (Qred q) as [n d] eqn:E. apply mag_ratio.
  rewrite <- E. transitivity q; [apply Qred_correct|done].
Qed.

Lemma canonical_zero e : canonical 0 e → e = emin.
Proof. intros (_ & _ & [H|H]); [lia|done]. Qed.

(** ** Printing then reading *)

Lemma dec_q_scale m j e : 0 ≤ j → (dec_q (m * 10 ^ j) e == dec_q m (e + j))%Q.
Proof.
  intros Hj. unfold dec_q. rewrite inject_Z_mult, <- Qpow_pos by done.
  rewrite (Z.add_comm e j), Qpower_plus by done. ring.
Qed.

(** The rest of the input does not continue a number. *)
Definition num_end (r : jstr) : Prop :=
  ∀ c t, r = c :: t → is_digit c = false ∧ c ≠ 46 ∧ c ≠ 101 ∧ c ≠ 69.

Definition no_digit (r : jstr) : Prop := ∀ c t, r = c :: t → is_digit c = false.

Lemma take_digits_app ds r :
  Forall (λ c, is_digit c = true) ds → no_digit r → take_digits (ds ++ r) = (ds, r).
Proof.
  induction 1 as [|c ds Hc _ IH]; intros Hr; simpl.
  - destruct r as [|c r]; [done|]. simpl. by rewrite (Hr c r eq_refl).
  - rewrite Hc. by rewrite (IH Hr).
Qed.

Lemma num_end_no_digit r : num_end r → no_digit r.
Proof. intros H c t ->. by apply (H c t). Qed.

Lemma take_sign_digits ds r :
  Forall (λ c, is_digit c = true) ds → ds ≠ [] → take_sign (ds ++ r) = (false, ds ++ r).
Proof.
  intros H Hne. destruct ds as [|c d]; [done|].
  apply list.Forall_cons in H as [Hc _]. apply is_digit_spec in Hc. simpl.
  destruct (Z.eqb_spec c 45), (Z.eqb_spec c 43); (lia || done).
Qed.

(** An exponent part, as [num_to_string] writes it. *)
Definition exp_shape (ex : jstr) (E : Z) : Prop :=
  (ex = [] ∧ E = 0) ∨ (∃ n, ex = fmt_exp n ∧ E = n - 1).

Lemma take_exp_fmt n r : no_digit r → take_exp (fmt_exp n ++ r) = Some (n - 1, r).
Proof.
  intros Hr. unfold fmt_exp. simpl.
  destruct (dec_numeral (Z.abs (n - 1)) ltac:(lia)) as [Hd Hv Hne _].
  assert (Ht : take_digits (dec (Z.abs (n - 1)) ++ r) = (dec (Z.abs (n - 1)), r))
    by (by apply take_digits_app).
  destruct (Z.ltb_spec (n - 1) 0); simpl; rewrite Ht, Hv;
    destruct (dec (Z.abs (n - 1))); try done; do 2 f_equal; lia.
Qed.

(** The parts of a printed number: integer digits, fraction digits, exponent. *)
Record dec_shape (s p : Z) (i f ex : jstr) (E : Z) : Prop := {
  shape_int : Forall (λ c, is_digit c = true) i;
  shape_frac : Forall (λ c, is_digit c = true) f;
  shape_int_ne : i ≠ [];
  shape_lead : ∀ r, i = 48 :: r → r = [];
  shape_exp : exp_shape ex E;
  shape_val : (dec_q (dval (i ++ f)) (E - Z.of_nat (length f)) == dec_q s p)%Q;
}.

Definition frac_text (f : jstr) : jstr := match f with [] => [] | _ => 46 :: f end.

Lemma digits_zeros k : Forall (λ c, is_digit c = true) (zeros k).
Proof. apply Forall_replicate. done. Qed.

Lemma dval_zeros k : dval (zeros k) = 0.
Proof.
  unfold zeros. induction (Z.to_nat k) as [|j IH]; [done|].
  rewrite replicate_S_end, dval_snoc, IH. done.
Qed.

Lemma length_zeros k : 0 ≤ k → Z.of_nat (length (zeros k)) = k.
Proof. intros. unfold zeros. rewrite length_replicate. lia. Qed.

Lemma numeral_lead s ds r : numeral s ds → 0 < s → ds ≠ 48 :: r.
Proof.
  intros [_ Hv _ Hh] Hs ->. specialize (Hh _ _ eq_refl eq_refl) as ->.
  unfold dval, dval_from in Hv. simpl in Hv. lia.
Qed.

Lemma print_dec_shape s p :
  0 < s → ∃ i f ex E, print_dec s p = i ++ frac_text f ++ ex ∧ dec_shape s p i f ex E.
Proof.
  intros Hs. pose proof (dec_numeral s ltac:(lia)) as Hnum.
  pose proof (λ r, numeral_lead s (dec s) r Hnum Hs) as Hlead.
  destruct Hnum as [Hd Hv Hne _]. unfold print_dec, layout.
  set (ds := dec s) in *. set (n := p + Z.of_nat (length ds)).
  replace (n - Z.of_nat (length ds)) with p by lia.
  destruct ((Z.of_nat (length ds) <=? n) && (n <=? 21)) eqn:E1.
  { boolify. exists (ds ++ zeros p), [], [], 0. split; [by rewrite app_nil_r|]. split.
    - apply Forall_app. split; [done|apply digits_zeros].
    - constructor.
    - by destruct ds.
    - intros r Hr. destruct ds as [|c d]; [done|]. simplify_eq/=. by destruct (Hlead d).
    - by left.
    - rewrite app_nil_r, dval_app, Hv, dval_zeros, length_zeros by lia.
      simpl. rewrite Z.add_0_r. rewrite dec_q_scale by lia. done. }
  destruct ((0 <? n) && (n <=? 21)) eqn:E2.
  { boolify. apply andb_false_iff in E1. assert (n < Z.of_nat (length ds)).
    { destruct E1 as [E1|E1]; boolify; lia. }
    assert (Hdrop : drop (Z.to_nat n) ds ≠ []).
    { intros Hx. apply (f_equal length) in Hx. rewrite length_drop in Hx. simpl in Hx. lia. }
    exists (take (Z.to_nat n) ds), (drop (Z.to_nat n) ds), [], 0. split.
    { rewrite app_nil_r. by destruct (drop (Z.to_nat n) ds). }
    split.
    - by apply Forall_take.
    - by apply Forall_drop.
    - intros Hx. apply (f_equal length) in Hx. rewrite length_take in Hx. simpl in Hx. lia.
    - intros r Hr. destruct ds as [|c d]; [done|]. destruct (Z.to_nat n) eqn:En; [lia|].
      simplify_eq/=. by destruct (Hlead d).
    - by left.
    - rewrite take_drop, Hv, length_drop.
      replace (0 - Z.of_nat (length ds - Z.to_nat n)) with p by lia. done. }
  destruct ((-6 <? n) && (n <=? 0)) eqn:E3.
  { boolify. exists [48], (zeros (- n) ++ ds), [], 0. split.
    { rewrite app_nil_r. by destruct (zeros (- n)), ds. }
    split.
    - by repeat constructor.
    - apply Forall_app. split; [apply digits_zeros|done].
    - done.
    - by intros r [= <-].
    - by left.
    - rewrite dval_app, dval_app, dval_zeros, Hv. change (dval [48]) with 0.
      rewrite length_app, Nat2Z.inj_add, length_zeros by lia.
      replace (0 - (- n + Z.of_nat (length ds))) with p by lia. done. }
  destruct ds as [|d r] eqn:Eds; [done|].
  apply list.Forall_cons in Hd as [Hd Hr].
  exists [d], r, (fmt_exp n), (n - 1). split; [by destruct r|]. split.
  - by repeat constructor.
  - done.
  - done.
  - by intros r' [= _ <-].
  - right. eauto.
  - simpl. rewrite Hv. subst n. simpl. replace (_ - _ - _) with p by lia. done.
Qed.

Lemma exp_shape_no_digit ex E r : exp_shape ex E → num_end r → no_digit (ex ++ r).
Proof.
  intros [[-> _]|(n & -> & _)] Hr; [by apply num_end_no_digit|]. by intros c t [= <- _].
Qed.

Lemma take_exp_shape ex E r :
  exp_shape ex E → num_end r →
  take_exp (ex ++ r) = if seqb ex [] then None else Some (E, r).
Proof.
  intros [[-> ->]|(n & -> & ->)] Hr.
  - simpl. destruct r as [|c t]; [done|]. simpl. destruct (Hr c t eq_refl) as (_ & _ & H1 & H2).
    destruct (Z.eqb_spec c 101), (Z.eqb_spec c 69); done.
  - rewrite take_exp_fmt by (by apply num_end_no_digit). done.
Qed.

Lemma take_frac_shape f ex E r :
  Forall (λ c, is_digit c = true) f → exp_shape ex E → num_end r →
  take_frac (frac_text f ++ ex ++ r) = (f, ex ++ r).
Proof.
  intros Hf Hex Hr. pose proof (exp_shape_no_digit ex E r Hex Hr).
  destruct f as [|c f]; [|by apply (take_digits_app (c :: f))]. simpl.
  destruct Hex as [[-> _]|(n & -> & _)]; [|done]. simpl.
  destruct r as [|c t]; [done|]. destruct (Hr c t eq_refl) as (_ & Hc & _). simpl.
  destruct (Z.eqb_spec c 46); done.
Qed.

Lemma scan_udec_shape s p i f ex E r :
  dec_shape s p i f ex E → num_end r →
  scan_udec ((i ++ frac_text f ++ ex) ++ r) = Some (dval (i ++ f), E - Z.of_nat (length f), r).
Proof.
  intros [Hi Hf Hne _ Hex _] Hr. unfold scan_udec.
  rewrite <- !app_assoc.
  pose proof (exp_shape_no_digit ex E r Hex Hr) as Hnd.
  rewrite take_digits_app; [|done|].
  2: { destruct f as [|c f]; [done|]. by intros c' t [= <- _]. }
  rewrite (take_frac_shape f ex E r Hf Hex Hr). destruct (seqb i []) eqn:Ei; [by boolify|]. simpl.
  rewrite (take_exp_shape ex E r Hex Hr). destruct (seqb ex []) eqn:Eex; [|done].
  boolify. destruct Hex as [[_ ->]|(n & -> & _)]; [|done]. by subst ex.
Qed.

Lemma round_q_sign neg q m e : round_q false q = Fin false m e → round_q neg q = Fin neg m e.
Proof.
  unfold round_q, round_nd. intros H.
  repeat (case_match; simplify_eq; try done).
Qed.

Lemma dec_q_exact m e :
  (dec_q (if (0 <=? e)%Z then m * 2 ^ e else m * 5 ^ (- e))
     (if (0 <=? e)%Z then 0 else e) == mag m e)%Q.
Proof.
  unfold dec_q, mag. destruct (Z.leb_spec 0 e).
  - rewrite inject_Z_mult, <- Qpow_pos by done. simpl. ring.
  - rewrite inject_Z_mult, <- (Qpow_pos 5) by lia.
    assert (H10 : ((10 # 1) ^ e == (5 # 1) ^ e * (2 # 1) ^ e)%Q).
    { rewrite <- Qmult_power. by apply Qpower_comp. }
    assert (H5 : ((5 # 1) ^ (- e) * (5 # 1) ^ e == 1)%Q).
    { rewrite <- Qpower_plus by done. by replace (- e + e) with 0 by lia. }
    rewrite H10.
    transitivity (inject_Z m * ((5 # 1) ^ (- e) * (5 # 1) ^ e) * (2 # 1) ^ e)%Q; [ring|].
    rewrite H5. ring.
Qed.

Lemma shortest_from_ok fuel k n m e :
  canonical m e → 0 < m → reads_back m e (shortest_from fuel k n m e) = true.
Proof.
  intros Hc Hm. revert k. induction fuel as [|fuel IH]; intros k; simpl.
  - unfold reads_back. apply bool_decide_eq_true. split.
    + destruct (Z.leb_spec 0 e); simpl; apply Z.mul_pos_pos; try done;
        apply Z.pow_pos_nonneg; lia.
    + unfold dec_to_num. apply round_q_exact; [done| |lia].
      rewrite <- dec_q_exact. by destruct (0 <=? e).
  - destruct (List.find _ _) as [c|] eqn:E; [|apply IH].
    by apply List.find_some in E as [_ E].
Qed.

Lemma shortest_ok m e d p :
  canonical m e → 0 < m → shortest m e = (d, p) →
  0 < d ∧ ∀ neg, dec_to_num neg d p = Fin neg m e.
Proof.
  intros Hc Hm H. pose proof (shortest_from_ok 17 1
    (log10_up 50 ((Z.log2 m + e) * 3 / 10 - 2) (mag m e)) m e Hc Hm) as Hr.
  unfold shortest in H. rewrite H in Hr. unfold reads_back in Hr. boolify.
  destruct Hr as [? Hr]. split; [done|]. intros neg. by apply round_q_sign.
Qed.

Definition neg_zero (x : num) : bool :=
  match x with Fin true m _ => m =? 0 | _ => false end.

(** Finite numbers print as [sign], integer, fraction and exponent parts that
    read back as the number. *)
Lemma num_to_string_shape x :
  num_wf x → isFinite x = true → neg_zero x = false →
  ∃ neg i f ex E s p,
    num_to_string x = (if neg : bool then [45] else []) ++ (i ++ frac_text f ++ ex) ∧
    dec_shape s p i f ex E ∧
    dec_to_num neg (dval (i ++ f)) (E - Z.of_nat (length f)) = x.
Proof.
  intros Hwf Hfin Hz. destruct x as [| |neg m e]; [done..|]. simpl in *.
  destruct (Z.eqb_spec m 0) as [->|Hm0].
  { destruct neg; [done|]. apply canonical_zero in Hwf as ->.
    exists false, [48], [], [], 0, 0, 0. split; [done|]. split; [|done].
    split; [by repeat constructor|constructor|done|by intros r [= <-]|by left|done]. }
  assert (Hm : 0 < m) by (destruct Hwf; lia).
  destruct (shortest m e) as [d p] eqn:Es.
  destruct (shortest_ok m e d p Hwf Hm Es) as [Hd Hrd].
  destruct (print_dec_shape d p Hd) as (i & f & ex & E & -> & Hshape).
  exists neg, i, f, ex, E, d, p. split; [done|]. split; [done|].
  unfold dec_to_num. rewrite (shape_val _ _ _ _ _ _ Hshape). apply Hrd.
Qed.

Lemma digit_not_ws c : is_digit c = true → is_ws c = false.
Proof.
  rewrite is_digit_spec. intros H. unfold is_ws.
  repeat match goal with
  | |- context [?a <=? ?b] => destruct (Z.leb_spec a b); try lia
  | |- context [?a =? ?b] => destruct (Z.eqb_spec a b); try lia
  end; done.
Qed.

Lemma tight_forall s : Forall (λ c, is_ws c = false) s → tight s.
Proof.
  intros H. split; intros c r ->.
  - rewrite list.Forall_cons in H. tauto.
  - rewrite Forall_app, list.Forall_singleton in H. tauto.
Qed.

Lemma shape_not_ws s p i f ex E :
  dec_shape s p i f ex E → Forall (λ c, is_ws c = false) (i ++ frac_text f ++ ex).
Proof.
  intros [Hi Hf _ _ Hex _].
  assert (Hd : ∀ l, Forall (λ c, is_digit c = true) l → Forall (λ c, is_ws c = false) l)
    by (intros l Hl; eapply Forall_impl; [exact Hl|apply digit_not_ws]).
  rewrite !Forall_app. split_and!; [by apply Hd| |].
  - destruct f; [constructor|]. constructor; [done|by apply Hd].
  - destruct Hex as [[-> _]|(n & -> & _)]; [constructor|]. unfold fmt_exp.
    repeat constructor; [by destruct (n - 1 <? 0)|].
    apply Hd. apply (numeral_digits (Z.abs (n - 1))), dec_numeral. lia.
Qed.

Lemma num_end_nil : num_end [].
Proof. done. Qed.

Lemma radix_prefix_shape (neg : bool) i f ex E :
  Forall (λ c, is_digit c = true) i → i ≠ [] → (∀ r, i = 48 :: r → r = []) →
  exp_shape ex E →
  radix_prefix ((if neg then [45] else []) ++ i ++ frac_text f ++ ex) = None.
Proof.
  intros Hi Hne Hlead Hex. destruct neg; [by destruct i|].
  destruct i as [|c i]; [done|]. simpl.
  destruct (Z.eqb_spec c 48) as [->|]; [|by destruct (i ++ frac_text f ++ ex)].
  rewrite (Hlead i eq_refl). destruct f; [|done].
  by destruct Hex as [[-> _]|(n & -> & _)].
Qed.

(** [Number(t)] on the text of an unsigned number without a radix prefix. *)
Lemma Number_shape neg s p i f ex E :
  dec_shape s p i f ex E →
  Number ((if neg : bool then [45] else []) ++ (i ++ frac_text f ++ ex)) =
  dec_to_num neg (dval (i ++ f)) (E - Z.of_nat (length f)).
Proof.
  intros Hs. pose proof (scan_udec_shape _ _ _ _ _ _ [] Hs num_end_nil) as Hscan.
  rewrite app_nil_r in Hscan. set (t := i ++ frac_text f ++ ex) in *.
  assert (Hws : Forall (λ c, is_ws c = false) ((if neg then [45] else []) ++ t)).
  { apply Forall_app. split; [by destruct neg; repeat constructor|].
    eapply shape_not_ws; exact Hs. }
  unfold Number. rewrite trim_tight by (by apply tight_forall).
  destruct Hs as [Hi _ Hne Hlead Hex _].
  assert (Hinf : seqb t (u "Infinity") = false).
  { apply bool_decide_eq_false. subst t. destruct i as [|c i']; [done|].
    apply list.Forall_cons in Hi as [Hc%is_digit_spec _]. vm_compute (u "Infinity").
    intros [= ? _]. lia. }
  assert (Hdec : decimal_literal ((if neg then [45] else []) ++ t) =
    dec_to_num neg (dval (i ++ f)) (E - Z.of_nat (length f))).
  { unfold decimal_literal.
    assert (Hsg : take_sign ((if neg then [45] else []) ++ t) = (neg, t))
      by (destruct neg; [done|subst t; by apply (take_sign_digits i)]).
    by rewrite Hsg, Hinf, Hscan. }
  rewrite bool_decide_eq_false_2 by (by destruct neg, i).
  subst t. by rewrite (radix_prefix_shape neg i f ex E).
Qed.

(** Reading back what [String] prints gives the same number. *)
Theorem Number_num_to_string x :
  num_wf x → isFinite x = true → neg_zero x = false → Number (num_to_string x) = x.
Proof.
  intros Hwf Hfin Hz.
  destruct (num_to_string_shape x Hwf Hfin Hz) as (neg & i & f & ex & E & s & p & -> & Hs & <-).
  by apply (Number_shape neg s p).
Qed.

(** ** Every result of rounding is canonical *)

Lemma log2_bounds n : 0 < n → 2 ^ Z.log2 n ≤ n < 2 ^ (Z.log2 n + 1).
Proof. intros. rewrite Z.add_1_r. by apply Z.log2_spec. Qed.

Lemma ge_pow2_above n d :
  0 < n → 0 < d → ge_pow2 n d (Z.log2 n - Z.log2 d + 1) = false.
Proof.
  intros Hn Hd. pose proof (log2_bounds n Hn). pose proof (log2_bounds d Hd).
  pose proof (Z.log2_nonneg n). pose proof (Z.log2_nonneg d). unfold ge_pow2.
  set (k := Z.log2 n - Z.log2 d + 1).
  destruct (Z.leb_spec 0 k); apply Z.leb_gt.
  - assert (2 ^ Z.log2 d * 2 ^ k = 2 ^ (Z.log2 n + 1)).
    { rewrite <- Z.pow_add_r by lia. f_equal. lia. }
    pose proof (pow2_pos k ltac:(lia)). nia.
  - assert (2 ^ (Z.log2 n + 1) * 2 ^ (- k) = 2 ^ Z.log2 d).
    { rewrite <- Z.pow_add_r by lia. f_equal. lia. }
    pose proof (pow2_pos (- k) ltac:(lia)). nia.
Qed.

Lemma ge_pow2_below n d :
  0 < n → 0 < d → ge_pow2 n d (Z.log2 n - Z.log2 d - 1) = true.
Proof.
  intros Hn Hd. pose proof (log2_bounds n Hn). pose proof (log2_bounds d Hd).
  pose proof (Z.log2_nonneg n). pose proof (Z.log2_nonneg d). unfold ge_pow2.
  set (k := Z.log2 n - Z.log2 d - 1).
  destruct (Z.leb_spec 0 k); apply Z.leb_le.
  - assert (2 ^ (Z.log2 d + 1) * 2 ^ k = 2 ^ Z.log2 n).
    { rewrite <- Z.pow_add_r by lia. f_equal. lia. }
    pose proof (pow2_pos k ltac:(lia)). nia.
  - assert (2 ^ Z.log2 n * 2 ^ (- k) = 2 ^ (Z.log2 d + 1)).
    { rewrite <- Z.pow_add_r by lia. f_equal. lia. }
    pose proof (pow2_pos (- k) ltac:(lia)). nia.
Qed.

Lemma ilog2_spec n d :
  0 < n → 0 < d → ge_pow2 n d (ilog2 n d) = true ∧ ge_pow2 n d (ilog2 n d + 1) = false.
Proof.
  intros Hn Hd. unfold ilog2.
  pose proof (ge_pow2_above n d Hn Hd). pose proof (ge_pow2_below n d Hn Hd).
  destruct (ge_pow2 n d (Z.log2 n - Z.log2 d)) eqn:E; [done|].
  by replace (Z.log2 n - Z.log2 d - 1 + 1) with (Z.log2 n - Z.log2 d) by lia.
Qed.

(** Scaling by [2^-e] turns [ge_pow2] into a comparison of the scaled parts. *)
Lemma ge_pow2_scaled n d e j :
  0 < n → 0 < d → 0 ≤ j →
  ge_pow2 n d (e + j) =
  ((if 0 <=? e then d * 2 ^ e else d) * 2 ^ j <=? (if 0 <=? e then n else n * 2 ^ (- e))).
Proof.
  intros Hn Hd Hj. unfold ge_pow2. destruct (Z.leb_spec 0 e).
  - destruct (Z.leb_spec 0 (e + j)); [|lia]. by rewrite Z.pow_add_r, Z.mul_assoc by lia.
  - apply eq_true_iff_eq. destruct (Z.leb_spec 0 (e + j)); rewrite !Z.leb_le.
    + replace (2 ^ j) with (2 ^ (e + j) * 2 ^ (- e)) by (rewrite <- Z.pow_add_r by lia; f_equal; lia).
      pose proof (pow2_pos (- e) ltac:(lia)). split; intros; [nia|].
      apply (Zmult_le_reg_r _ _ (2 ^ (- e))); nia.
    + replace (2 ^ (- e)) with (2 ^ (- (e + j)) * 2 ^ j)
        by (rewrite <- Z.pow_add_r by lia; f_equal; lia).
      pose proof (pow2_pos j ltac:(lia)). split; intros; [nia|].
      apply (Zmult_le_reg_r _ _ (2 ^ j)); nia.
Qed.

Lemma ge_pow2_mono n d k k' :
  0 < n → 0 < d → k ≤ k' → ge_pow2 n d k' = true → ge_pow2 n d k = true.
Proof.
  intros Hn Hd Hk. unfold ge_pow2.
  destruct (Z.leb_spec 0 k'), (Z.leb_spec 0 k); rewrite !Z.leb_le; intros Hle; try lia.
  - assert (2 ^ k ≤ 2 ^ k') by (apply Z.pow_le_mono_r; lia). nia.
  - pose proof (pow2_pos k' ltac:(lia)). pose proof (pow2_pos (- k) ltac:(lia)). nia.
  - assert (2 ^ (- k') ≤ 2 ^ (- k)) by (apply Z.pow_le_mono_r; lia). nia.
Qed.

(** The significand before ties are resolved. *)
Lemma scaled_bounds n d e :
  0 < n → 0 < d → e = Z.max (ilog2 n d - 52) emin →
  let a := if 0 <=? e then n else n * 2 ^ (- e) in
  let b := if 0 <=? e then d * 2 ^ e else d in
  0 ≤ a / b < 2 ^ 53 ∧ (2 ^ 52 ≤ a / b ∨ e = emin).
Proof.
  intros Hn Hd He a b. destruct (ilog2_spec n d Hn Hd) as [Hlo Hhi].
  pose proof (λ j, ge_pow2_scaled n d e j Hn Hd) as Hsc. fold a b in Hsc.
  assert (Hb : 0 < b).
  { unfold b. destruct (Z.leb_spec 0 e); [|done]. pose proof (pow2_pos e ltac:(lia)). nia. }
  assert (Ha : 0 < a).
  { unfold a. destruct (Z.leb_spec 0 e); [lia|]. pose proof (pow2_pos (- e) ltac:(lia)). nia. }
  split; [split|].
  - apply Z.div_pos; lia.
  - apply Z.div_lt_upper_bound; [done|]. apply Z.nle_gt. intros H.
    assert (Hge : ge_pow2 n d (e + 53) = true) by (rewrite Hsc by lia; by apply Z.leb_le).
    apply (ge_pow2_mono n d (ilog2 n d + 1)) in Hge; [congruence|lia..].
  - destruct (Z.le_gt_cases emin (ilog2 n d - 52)); [left|right; lia].
    replace (ilog2 n d) with (e + 52) in Hlo by lia. rewrite Hsc in Hlo by lia. boolify.
    apply Z.div_le_lower_bound; lia.
Qed.

Lemma round_nd_wf neg n d : 0 ≤ n → 0 < d → num_wf (round_nd neg n d).
Proof.
  intros Hn0 Hd. unfold round_nd. destruct (Z.eqb_spec n 0) as [->|Hn].
  { simpl. unfold canonical, emin, emax. lia. }
  destruct (scaled_bounds n d _ ltac:(lia) Hd eq_refl) as [Hm Hnorm].
  set (e := Z.max (ilog2 n d - 52) emin) in *. cbv zeta in *.
  set (m := (if 0 <=? e then n else n * 2 ^ (- e)) / (if 0 <=? e then d * 2 ^ e else d)) in *.
  set (up := (_ <? _) || _). assert (emin ≤ e) by lia.
  destruct up; [destruct (Z.eqb_spec (m + 1) (2 ^ 53))|destruct (Z.eqb_spec m (2 ^ 53))];
    match goal with |- context [emax <? ?x] => destruct (Z.ltb_spec emax x) end;
    simpl; unfold canonical; try done; lia.
Qed.

Lemma round_q_wf neg q : (0 <= q)%Q → num_wf (round_q neg q).
Proof.
  intros Hq. apply round_nd_wf; [|done].
  rewrite <- (Qred_correct q) in Hq. unfold Qle in Hq. simpl in Hq. lia.
Qed.

Lemma Qpow_nonneg (a : positive) e : (0 <= (Zpos a # 1) ^ e)%Q.
Proof. apply Qpower_pos. done. Qed.

Lemma dec_to_num_wf neg m e : 0 ≤ m → num_wf (dec_to_num neg m e).
Proof.
  intros Hm. apply round_q_wf. unfold dec_q.
  apply Qmult_le_0_compat; [by rewrite <- (Zle_Qle 0)|apply Qpow_nonneg].
Qed.

Lemma of_Z_wf z : num_wf (of_Z z).
Proof. apply round_q_wf. rewrite <- (Zle_Qle 0). lia. Qed.

(** Integers of at most 53 bits are represented exactly. *)
Lemma of_Z_small z : 0 < Z.abs z < 2 ^ 53 →
  ∃ m e, of_Z z = Fin (z <? 0) m e ∧ canonical m e ∧ (mag m e == inject_Z (Z.abs z))%Q.
Proof.
  intros Hz. set (k := 52 - Z.log2 (Z.abs z)).
  assert (Hl : Z.log2 (Z.abs z) < 53) by (apply Z.log2_lt_pow2; lia).
  pose proof (Z.log2_nonneg (Z.abs z)). pose proof (log2_bounds (Z.abs z) ltac:(lia)).
  assert (Hc : canonical (Z.abs z * 2 ^ k) (- k)).
  { unfold canonical, emin, emax. pose proof (pow2_pos k ltac:(lia)).
    assert (2 ^ Z.log2 (Z.abs z) * 2 ^ k = 2 ^ 52) by (rewrite <- Z.pow_add_r by lia; f_equal; lia).
    assert (2 ^ (Z.log2 (Z.abs z) + 1) * 2 ^ k = 2 ^ 53)
      by (rewrite <- Z.pow_add_r by lia; f_equal; lia).
    split_and!; [nia|nia|lia|lia|left; nia]. }
  assert (Hmag : (mag (Z.abs z * 2 ^ k) (- k) == inject_Z (Z.abs z))%Q).
  { unfold mag. rewrite inject_Z_mult, <- (Qpow_pos 2), <- Qmult_assoc, <- Qpower_plus by (done || lia).
    replace (k + - k) with 0 by lia. simpl. ring. }
  eexists _, _. split; [|split; [exact Hc|exact Hmag]].
  apply round_q_exact; [done|by symmetry|].
  intros Hz0. destruct Hc as (? & ? & [?|?]); lia.
Qed.

(** ** Small integers *)

Definition int_of (x : num) : Z := default 0 (to_integer x).

Lemma to_q_inject s m e z : (mag m e == inject_Z (Z.abs z))%Q → s = (z <? 0) → (to_q s m e == inject_Z z)%Q.
Proof.
  intros H ->. unfold to_q. destruct (Z.ltb_spec z 0); rewrite H.
  - rewrite <- inject_Z_opp. f_equiv. lia.
  - f_equiv. lia.
Qed.

(** The value of a small integer, as a rational. *)
Lemma of_Z_q z : Z.abs z < 2 ^ 53 → ∃ s m e, of_Z z = Fin s m e ∧ (to_q s m e == inject_Z z)%Q.
Proof.
  intros Hz. destruct (Z.eq_dec z 0) as [->|Hz0]; [by exists false, 0, emin|].
  destruct (of_Z_small z ltac:(lia)) as (m & e & -> & _ & Hm).
  exists (z <? 0), m, e. split; [done|]. by apply to_q_inject.
Qed.

Lemma Qcompare_inject x y z w :
  (x == inject_Z z)%Q → (y == inject_Z w)%Q → (x ?= y)%Q = (z ?= w).
Proof. intros -> ->. unfold Qcompare. simpl. by rewrite !Z.mul_1_r. Qed.

Lemma ncompare_of_Z z w :
  Z.abs z < 2 ^ 53 → Z.abs w < 2 ^ 53 → ncompare (of_Z z) (of_Z w) = Some (z ?= w).
Proof.
  intros Hz Hw. destruct (of_Z_q z Hz) as (s & m & e & -> & Hm).
  destruct (of_Z_q w Hw) as (t & n & f & -> & Hn). simpl. by rewrite (Qcompare_inject _ _ z w).
Qed.

Lemma mag_ge m e : 2 ^ 52 ≤ m → 1 ≤ e → (inject_Z (2 ^ 53) <= mag m e)%Q.
Proof.
  intros Hm He. unfold mag. rewrite Qpow_pos by lia. rewrite <- inject_Z_mult, <- Zle_Qle.
  assert (2 ^ 1 ≤ 2 ^ e) by (apply Z.pow_le_mono_r; lia). nia.
Qed.

(** Large integers stay large. *)
Lemma round_big z :
  2 ^ 53 ≤ z → round_q false (inject_Z z) = Inf false ∨
  ∃ m e, round_q false (inject_Z z) = Fin false m e ∧ (inject_Z (2 ^ 53) <= mag m e)%Q.
Proof.
  intros Hz. unfold round_q.
  assert (Hred : Qred (inject_Z z) = inject_Z z).
  { unfold Qred, inject_Z. pose proof (Z.ggcd_correct_divisors z 1) as Hc.
    pose proof (Z.ggcd_gcd z 1) as Hg. rewrite Z.gcd_1_r in Hg.
    destruct (Z.ggcd z 1) as [g [a b]]. simpl in *. subst g.
    destruct Hc as [H1 H2]. f_equal; [lia|]. by replace b with 1 by lia. }
  rewrite Hred. simpl. unfold round_nd. destruct (Z.eqb_spec z 0); [lia|].
  assert (Hlog : 53 ≤ ilog2 z 1).
  { destruct (ilog2_spec z 1 ltac:(lia) ltac:(lia)) as [_ Hhi].
    apply Z.nlt_ge. intros Hlt. enough (ge_pow2 z 1 (ilog2 z 1 + 1) = true) by congruence.
    apply (ge_pow2_mono z 1 _ 53); [lia..|]. unfold ge_pow2. simpl. by apply Z.leb_le. }
  destruct (scaled_bounds z 1 _ ltac:(lia) ltac:(lia) eq_refl) as [Hm Hnorm].
  set (e := Z.max (ilog2 z 1 - 52) emin) in *. cbv zeta in *. unfold emin in *.
  set (m := (if 0 <=? e then z else z * 2 ^ (- e)) / (if 0 <=? e then 1 * 2 ^ e else 1)) in *.
  set (up := (_ <? _) || _). assert (2 ^ 52 ≤ m ∧ 1 ≤ e) as [Hm52 He] by lia.
  destruct up; [destruct (Z.eqb_spec (m + 1) (2 ^ 53))|destruct (Z.eqb_spec m (2 ^ 53))];
    match goal with |- context [emax <? ?x] => destruct (emax <? x) end; try (by left);
    right; eexists _, _; (split; [done|]); apply mag_ge; lia.
Qed.

(** [parseInt] of a string of digits compares with small bounds as the integer
    it denotes. *)
Lemma round_ltb z w :
  0 ≤ z → Z.abs w < 2 ^ 53 →
  nltb (round_q false (inject_Z z)) (of_Z w) = (z <? w) ∧
  nltb (of_Z w) (round_q false (inject_Z z)) = (w <? z).
Proof.
  intros Hz Hw. destruct (Z.lt_ge_cases z (2 ^ 53)) as [Hs|Hb].
  - replace (round_q false (inject_Z z)) with (of_Z z)
      by (unfold of_Z; destruct (Z.ltb_spec z 0); [lia|]; by rewrite Z.abs_eq by lia).
    unfold nltb. rewrite !ncompare_of_Z by lia. unfold Z.ltb.
    split; case_bool_decide; case_match; congruence.
  - destruct (of_Z_q w Hw) as (s & m & e & -> & Hm).
    destruct (Z.ltb_spec z w), (Z.ltb_spec w z); try lia.
    destruct (round_big z Hb) as [->|(m' & e' & -> & Hle)].
    { unfold nltb. simpl. done. }
    unfold nltb. simpl.
    assert (Hlt : (to_q s m e < mag m' e')%Q).
    { rewrite Hm. eapply Qlt_le_trans; [|exact Hle]. rewrite <- Zlt_Qlt. lia. }
    split; case_bool_decide as Hc; try done.
    + injection Hc as Hc. apply Qlt_alt in Hc. exfalso. lra.
    + exfalso. apply Hc. f_equal. by apply Qlt_alt.
Qed.

Lemma int_of_small z : 0 ≤ z < 2 ^ 53 → int_of (of_Z z) = z.
Proof.
  intros Hz. destruct (Z.eq_dec z 0) as [->|]; [done|].
  destruct (of_Z_small z ltac:(lia)) as (m & e & -> & Hc & Hm).
  destruct (Z.ltb_spec z 0); [lia|]. unfold int_of, to_integer. simpl.
  assert (Hr : ratio_is z 1 m e) by (apply (mag_ratio z 1); rewrite Hm; unfold Qeq; simpl; lia).
  unfold ratio_is in Hr. destruct (Z.leb_spec 0 e); simpl.
  - rewrite (Z.max_r (- e) 0), (Z.max_l e 0), Z.pow_0_r in Hr by lia. lia.
  - rewrite (Z.max_l (- e) 0), (Z.max_r e 0), Z.pow_0_r in Hr by lia.
    pose proof (pow2_pos (- e) ltac:(lia)). rewrite !Z.mul_1_r in Hr. rewrite <- Hr.
    rewrite Z.mod_mul, Z.div_mul by lia. done.
Qed.

(** Small integers print as their decimal numeral. *)
Lemma to_integer_of_Z z : 0 ≤ z < 2 ^ 53 → to_integer (of_Z z) = Some z.
Proof.
  intros Hz. pose proof (int_of_small z Hz) as H. unfold int_of in H.
  destruct (to_integer (of_Z z)) eqn:E; simpl in H; [by subst|].
  subst z. done.
Qed.

(** The number a string of digits denotes to [parseInt]. *)
Definition round_int (z : Z) : num := round_q false (inject_Z z).

Lemma round_int_small z : 0 ≤ z → round_int z = of_Z z.
Proof.
  intros Hz. unfold round_int, of_Z. destruct (Z.ltb_spec z 0); [lia|]. by rewrite Z.abs_eq.
Qed.

Lemma parseInt_numeral s :
  Forall (λ c, is_digit c = true) s → s ≠ [] → parseInt s = round_int (dval s).
Proof.
  intros Hd Hne. unfold parseInt.
  assert (Ht : tight s).
  { apply tight_forall. eapply Forall_impl; [exact Hd|apply digit_not_ws]. }
  rewrite trim_start_fixed by apply Ht.
  rewrite <- (app_nil_r s) at 1. rewrite take_sign_digits by done.
  rewrite take_digits_app by done. by destruct s.
Qed.

Lemma round_int_ltb z w :
  0 ≤ z → Z.abs w < 2 ^ 53 →
  nltb (round_int z) (of_Z w) = (z <? w) ∧ nltb (of_Z w) (round_int z) = (w <? z).
Proof. apply round_ltb. Qed.

Lemma of_Z_finite z : Z.abs z < 2 ^ 53 → isFinite (of_Z z) = true.
Proof. intros Hz. by destruct (of_Z_q z Hz) as (s & m & e & -> & _). Qed.

Lemma nltb_of_Z z w : Z.abs z < 2 ^ 53 → Z.abs w < 2 ^ 53 → nltb (of_Z z) (of_Z w) = (z <? w).
Proof.
  intros Hz Hw. unfold nltb. rewrite ncompare_of_Z by done. unfold Z.ltb.
  case_bool_decide; case_match; congruence.
Qed.

(** Comparing an integral number with a small integer. *)
Lemma to_integer_q s m e z : to_integer (Fin s m e) = Some z → (to_q s m e == inject_Z z)%Q.
Proof.
  unfold to_integer, to_q. intros H.
  assert (Hm : ∃ w, (mag m e == inject_Z w)%Q ∧ z = if s then - w else w).
  { destruct (Z.leb_spec 0 e).
    - exists (m * 2 ^ e). injection H as <-. split; [|done]. unfold mag.
      rewrite (Qpow_pos 2) by done. by rewrite <- inject_Z_mult.
    - destruct (Z.eqb_spec (m mod 2 ^ (- e)) 0) as [E|]; [|done]. injection H as <-.
      exists (m / 2 ^ (- e)). split; [|done]. unfold mag.
      apply Z_div_exact_full_2 in E; [|lia]. rewrite E at 1. rewrite inject_Z_mult.
      change (2 ^ (- e)) with (Zpos 2 ^ (- e)). rewrite <- (Qpow_pos 2) by lia.
      rewrite <- Qmult_assoc, (Qmult_comm (inject_Z _)), Qmult_assoc, <- Qpower_plus by done.
      replace (- e + e) with 0 by lia. simpl. apply Qmult_1_l. }
  destruct Hm as (w & Hw & ->). destruct s; rewrite Hw; [|done]. by rewrite inject_Z_opp.
Qed.

Lemma ncompare_integer x z w :
  to_integer x = Some z → Z.abs w < 2 ^ 53 → ncompare x (of_Z w) = Some (z ?= w).
Proof.
  intros Hx Hw. destruct x as [|s|s m e]; [done..|]. apply to_integer_q in Hx.
  destruct (of_Z_q w Hw) as (t & n & f & -> & Hn). simpl. by rewrite (Qcompare_inject _ _ z w).
Qed.

Lemma ncompare_antisym x y : ncompare y x = CompOpp <$> ncompare x y.
Proof.
  destruct x as [|[]|], y as [|[]|]; try done. simpl. by rewrite Qcompare_antisym.
Qed.

Lemma nleb_integer x z w :
  to_integer x = Some z → Z.abs w < 2 ^ 53 →
  nleb x (of_Z w) = (z <=? w) ∧ ngeb x (of_Z w) = (w <=? z).
Proof.
  intros Hx Hw. pose proof (ncompare_integer x z w Hx Hw) as Hc.
  unfold ngeb, nleb, nltb, neqb. rewrite (ncompare_antisym x), Hc. simpl.
  unfold Z.leb. rewrite (Z.compare_antisym z w). by destruct (z ?= w).
Qed.

(** A finite number equal to zero has a zero significand. *)
Lemma fin_nonzero s m e : m ≠ 0 → ncompare (Fin s m e) (of_Z 0) ≠ Some Eq.
Proof.
  intros Hm. change (of_Z 0) with (Fin false 0 emin). simpl. intros [= H].
  apply Qeq_alt in H. unfold to_q in H.
  assert (Hz : (mag 0 emin == 0)%Q) by (unfold mag; apply Qmult_0_l). rewrite Hz in H.
  assert (Hmag : (mag m e == 0)%Q).
  { destruct s; [|done]. rewrite <- (Qopp_opp (mag m e)), H. done. }
  unfold mag in Hmag. apply Qmult_integral in Hmag as [Hq|Hq].
  - apply Hm. by apply (inject_Z_injective m 0).
  - by apply (Qpow_ne 2 e).
Qed.

(** ** Every number read from a text is canonical *)

Lemma take_digits_digits s i r :
  take_digits s = (i, r) → Forall (λ c, is_digit c = true) i ∧ s = i ++ r.
Proof.
  revert i r. induction s as [|c s IH]; simpl; intros i r H; [by simplify_eq|].
  destruct (is_digit c) eqn:Ec; [|by simplify_eq]. destruct (take_digits s) as [d t].
  destruct (IH d t eq_refl) as [Hd ->]. simplify_eq. split; [by constructor|done].
Qed.

Lemma take_frac_digits s f r :
  take_frac s = (f, r) → Forall (λ c, is_digit c = true) f ∧ ∃ w, s = w ++ r.
Proof.
  unfold take_frac. destruct s as [|c s]; [intros [= <- <-]; split; [constructor|by exists []]|].
  destruct (c =? 46).
  - intros H. apply take_digits_digits in H as [Hf ->]. split; [done|]. by exists (c :: f).
  - intros [= <- <-]. split; [constructor|by exists []].
Qed.

Lemma scan_udec_nonneg s m e r : scan_udec s = Some (m, e, r) → 0 ≤ m.
Proof.
  unfold scan_udec. destruct (take_digits s) as [i r1] eqn:Ei.
  apply take_digits_digits in Ei as [Hi _].
  destruct (take_frac r1) as [f r2] eqn:Ef. apply take_frac_digits in Ef as [Hf _].
  assert (Hm : 0 ≤ dval (i ++ f)) by (apply dval_nonneg, Forall_app; done).
  destruct (_ && _); [done|]. destruct (take_exp r2) as [[e' r3]|]; by intros [= <- _ _].
Qed.

Lemma Number_wf s : num_wf (Number s).
Proof.
  unfold Number. case_bool_decide; [apply (of_Z_wf 0)|].
  destruct (radix_prefix _) as [[radix r]|].
  - unfold radix_num. destruct r; [done|]. destruct (radix_val _ _ _); [apply of_Z_wf|done].
  - unfold decimal_literal. destruct (take_sign _) as [neg r]. case_bool_decide; [done|].
    destruct (scan_udec r) as [[[m e] [|]]|] eqn:E; [|done..].
    apply dec_to_num_wf. by eapply scan_udec_nonneg.
Qed.

Lemma parseFloat_wf s : num_wf (parseFloat s).
Proof.
  unfold parseFloat. destruct (take_sign _) as [neg r]. destruct (starts_with _ r); [done|].
  destruct (scan_udec r) as [[[m e] r']|] eqn:E; [|done].
  apply dec_to_num_wf. by eapply scan_udec_nonneg.
Qed.

Lemma parseInt_wf s : num_wf (parseInt s).
Proof.
  unfold parseInt. destruct (take_sign _) as [neg r]. destruct (take_digits r) as [[|c d] r'] eqn:E; [done|].
  apply round_q_wf. change 0%Q with (inject_Z 0). rewrite <- Zle_Qle. apply dval_nonneg. by apply take_digits_digits in E as [].
Qed.
