(* ===== verification/JsRounding.v ===== *)
(** * The rounding error of arithmetic

    The standard model of floating-point arithmetic for the numbers of
    [JsNumber]: away from underflow and overflow a result differs from the exact
    one by at most the fraction 2^-53 of it.  From it: products and quotients
    that undo each other come back to the integer they started from. *)

From Stdlib Require Import QArith Qpower Qround Qabs Lqa.
From S2P Require Import Prelude JsString JsNumber.

Local Open Scope Z_scope.

(** ** Rounding a positive fraction *)

(** The significand that [round_nd] chooses is within half a unit of [a/b]. *)
Lemma nearest_error a b :
  0 < b →
  let m := a / b in let r := a mod b in
  let m' := if (b <? 2 * r) || ((b =? 2 * r) && Z.odd m) then m + 1 else m in
  Z.abs (2 * (m' * b - a)) ≤ b.
Proof.
  intros Hb m r m'. pose proof (Z.div_mod a b ltac:(lia)) as Ha.
  pose proof (Z.mod_pos_bound a b Hb) as Hr. fold m r in Ha, Hr. unfold m'.
  destruct (Z.ltb_spec b (2 * r)), (Z.eqb_spec b (2 * r)), (Z.odd m); cbn [orb andb]; nia.
Qed.

(** [n/d] is in the range of the normal numbers, one binade below overflow. *)
Definition in_range (n d : Z) : Prop := ge_pow2 n d (-1022) = true ∧ ge_pow2 n d 1023 = false.

Lemma in_range_ilog2 n d :
  0 < n → 0 < d → in_range n d → -1022 ≤ ilog2 n d ≤ 1022.
Proof.
  intros Hn Hd [Hlo Hhi]. destruct (ilog2_spec n d Hn Hd) as [H1 H2]. split.
  - apply Z.le_ngt. intros H. rewrite (ge_pow2_mono n d (ilog2 n d + 1) (-1022)) in H2; [done|lia..|done].
  - apply Z.le_ngt. intros H. rewrite (ge_pow2_mono n d 1023 (ilog2 n d)) in Hhi; [done|lia..|done].
Qed.

(** [n/d = (a/b) * 2^e] for the scaled parts *)
Lemma scaled_ratio n d e :
  0 < d →
  let a := if 0 <=? e then n else n * 2 ^ (- e) in
  let b := if 0 <=? e then d * 2 ^ e else d in
  (inject_Z n / inject_Z d == inject_Z a / inject_Z b * (2 # 1) ^ e)%Q.
Proof.
  intros Hd a b. unfold a, b. assert (~ inject_Z d == 0)%Q.
  { intros Hz. assert (d = 0) by (apply (proj1 (inject_Z_injective d 0)); exact Hz). lia. }
  destruct (Z.leb_spec 0 e) as [He|He].
  - rewrite inject_Z_mult, <- (Qpow_pos 2) by done. pose proof (Qpow_ne 2 e). field. done.
  - rewrite inject_Z_mult, <- (Qpow_pos 2) by lia. rewrite Qpower_opp. pose proof (Qpow_ne 2 e).
    field. done.
Qed.

(** The unit roundoff *)
Definition u53 : Q := 1 # (2 ^ 53).

(** [x] is [q] up to the fraction [d] of it. *)
Definition near (d q x : Q) : Prop := (q - q * d <= x /\ x <= q + q * d)%Q.

Lemma near_integer m a b :
  0 < b → b * 2 ^ 52 ≤ a → Z.abs (2 * (m * b - a)) ≤ b →
  near u53 (inject_Z a / inject_Z b) (inject_Z m).
Proof.
  intros Hb Ha Hm. destruct b as [|bp|]; [lia| |lia].
  assert (inject_Z a / inject_Z (Zpos bp) == a # bp)%Q as Hq.
  { unfold inject_Z, Qdiv, Qinv, Qmult, Qeq. simpl. lia. }
  unfold near. rewrite Hq. unfold u53, Qle, Qminus, Qplus, Qopp, Qmult, inject_Z. simpl.
  split; nia.
Qed.

Lemma near_scale d q x p : (0 <= p)%Q → near d q x → near d (q * p) (x * p).
Proof.
  intros Hp [H1 H2]. split.
  - assert (q * p - q * p * d == (q - q * d) * p)%Q as -> by ring. by apply Qmult_le_compat_r.
  - assert (q * p + q * p * d == (q + q * d) * p)%Q as -> by ring. by apply Qmult_le_compat_r.
Qed.

#[export] Instance near_proper : Proper (Qeq ==> Qeq ==> Qeq ==> iff) near.
Proof. intros d d' Hd q q' Hq x x' Hx. unfold near. by rewrite Hd, Hq, Hx. Qed.

Lemma round_nd_near neg n d :
  0 < n → 0 < d → in_range n d →
  ∃ m e, round_nd neg n d = Fin neg m e ∧ near u53 (inject_Z n / inject_Z d) (mag m e).
Proof.
  intros Hn Hd Hr. pose proof (in_range_ilog2 n d Hn Hd Hr) as Hl.
  destruct (ilog2_spec n d Hn Hd) as [Hlo _]. unfold round_nd. rewrite (proj2 (Z.eqb_neq n 0)) by lia.
  replace (Z.max (ilog2 n d - 52) emin) with (ilog2 n d - 52) by (unfold emin; lia).
  set (e := ilog2 n d - 52). replace (ilog2 n d) with (e + 52) in Hlo by lia.
  rewrite ge_pow2_scaled in Hlo by lia. pose proof (scaled_ratio n d e Hd) as Hs. cbv zeta in *.
  set (a := if 0 <=? e then n else n * 2 ^ (- e)) in *.
  set (b := if 0 <=? e then d * 2 ^ e else d) in *.
  assert (Hb : 0 < b).
  { unfold b. destruct (Z.leb_spec 0 e); [|done]. pose proof (pow2_pos e ltac:(lia)). nia. }
  apply Z.leb_le in Hlo. pose proof (nearest_error a b Hb) as He. cbv zeta in He.
  set (m := if (b <? 2 * (a mod b)) || ((b =? 2 * (a mod b)) && Z.odd (a / b)) then a / b + 1 else a / b) in *.
  pose proof (near_scale _ _ _ ((2 # 1) ^ e)%Q (Qpow_nonneg 2 e) (near_integer m a b Hb Hlo He)) as Hnear.
  rewrite <- Hs in Hnear. destruct (Z.eqb_spec m (2 ^ 53)) as [Hm|Hm].
  - exists (2 ^ 52), (e + 1). destruct (Z.ltb_spec emax (e + 1)); [unfold emax in *; lia|]. split; [done|].
    assert (mag (2 ^ 52) (e + 1) == inject_Z m * (2 # 1) ^ e)%Q as ->; [|done].
    unfold mag. rewrite Hm, Qpower_plus by done. simpl ((2 # 1) ^ 1)%Q.
    change (inject_Z (2 ^ 53)) with (inject_Z (2 ^ 52) * (2 # 1))%Q. ring.
  - exists m, e. destruct (Z.ltb_spec emax e); [unfold emax in *; lia|]. done.
Qed.

(** ** Away from underflow and overflow *)

(** [2^-k ≤ q ≤ 2^k] *)
Definition bounded (k : Z) (q : Q) : Prop :=
  (1 <= q * inject_Z (2 ^ k) /\ q <= inject_Z (2 ^ k))%Q.

#[export] Instance bounded_proper k : Proper (Qeq ==> iff) (bounded k).
Proof. intros q q' Hq. unfold bounded. by rewrite Hq. Qed.

Lemma pow2_q k : 0 ≤ k → (0 < inject_Z (2 ^ k))%Q.
Proof. intros Hk. pose proof (pow2_pos k Hk). by rewrite (Zlt_Qlt 0) in *. Qed.

Lemma bounded_pos k q : 0 ≤ k → bounded k q → (0 < q)%Q.
Proof.
  intros Hk [H1 _]. pose proof (pow2_q k Hk). destruct (Qlt_le_dec 0 q) as [|Hq]; [done|].
  assert (q * inject_Z (2 ^ k) <= 0 * inject_Z (2 ^ k))%Q by (apply Qmult_le_compat_r; lra). lra.
Qed.

Lemma inject_pow2_add k l : 0 ≤ k → 0 ≤ l → inject_Z (2 ^ (k + l)) = (inject_Z (2 ^ k) * inject_Z (2 ^ l))%Q.
Proof. intros Hk Hl. by rewrite Z.pow_add_r, inject_Z_mult by done. Qed.

Lemma Qmult_one_le a b : (1 <= a → 1 <= b → 1 <= a * b)%Q.
Proof.
  intros Ha Hb. assert (1 * b <= a * b)%Q by (apply Qmult_le_compat_r; lra). lra.
Qed.

Lemma bounded_mul k l q p :
  0 ≤ k → 0 ≤ l → bounded k q → bounded l p → bounded (k + l) (q * p).
Proof.
  intros Hk Hl Hq Hp. pose proof (bounded_pos k q Hk Hq). pose proof (bounded_pos l p Hl Hp).
  destruct Hq as [H1 H2], Hp as [H3 H4]. pose proof (pow2_q k Hk). pose proof (pow2_q l Hl).
  unfold bounded. rewrite inject_pow2_add by done.
  set (K := inject_Z (2 ^ k)) in *. set (L := inject_Z (2 ^ l)) in *. split.
  - assert (q * p * (K * L) == (q * K) * (p * L))%Q as -> by ring. by apply Qmult_one_le.
  - apply Qle_trans with (K * p)%Q; [apply Qmult_le_compat_r; lra|].
    rewrite !(Qmult_comm K). apply Qmult_le_compat_r; lra.
Qed.

Lemma bounded_inv k q : 0 ≤ k → bounded k q → bounded k (/ q).
Proof.
  intros Hk Hq. pose proof (bounded_pos k q Hk Hq) as Hpos. destruct Hq as [H1 H2].
  assert (Hne : (~ q == 0)%Q) by lra. assert (0 < / q)%Q by by apply Qinv_lt_0_compat.
  unfold bounded. set (K := inject_Z (2 ^ k)) in *. split.
  - apply Qle_trans with (q * / q)%Q; [apply Qle_lteq; right; by field|].
    rewrite (Qmult_comm (/ q) K). apply Qmult_le_compat_r; lra.
  - apply Qle_trans with (q * K * / q)%Q; [|apply Qle_lteq; right; by field].
    assert (/ q == 1 * / q)%Q as Hone by ring. rewrite Hone at 1. apply Qmult_le_compat_r; lra.
Qed.

Lemma bounded_mono k l q : 0 ≤ k ≤ l → bounded k q → bounded l q.
Proof.
  intros Hk [H1 H2]. pose proof (bounded_pos k q ltac:(lia) (conj H1 H2)).
  assert (inject_Z (2 ^ k) <= inject_Z (2 ^ l))%Q.
  { rewrite <- Zle_Qle. apply Z.pow_le_mono_r; lia. }
  split; [|lra]. apply Qle_trans with (q * inject_Z (2 ^ k))%Q; [done|].
  rewrite !(Qmult_comm q). apply Qmult_le_compat_r; lra.
Qed.

(** A value within half of a bounded one is bounded too. *)
Lemma bounded_near k d q x :
  0 ≤ k → (d <= 1 # 2)%Q → bounded k q → near d q x → bounded (k + 1) x.
Proof.
  intros Hk Hd Hb [H1 H2]. pose proof (bounded_pos k q Hk Hb) as Hq. destruct Hb as [H3 H4].
  assert (q * d <= q * (1 # 2))%Q by (rewrite !(Qmult_comm q); apply Qmult_le_compat_r; lra).
  unfold bounded. rewrite inject_pow2_add by lia. change (inject_Z (2 ^ 1)) with 2%Q.
  pose proof (pow2_q k Hk). set (K := inject_Z (2 ^ k)) in *. split; [|lra].
  apply Qle_trans with (q * (1 # 2) * (K * 2))%Q; [lra|]. apply Qmult_le_compat_r; lra.
Qed.

Lemma round_q_near neg q k :
  0 ≤ k ≤ 1022 → bounded k q → ∃ m e, round_q neg q = Fin neg m e ∧ near u53 q (mag m e).
Proof.
  intros Hk Hb. pose proof (bounded_pos k q ltac:(lia) Hb) as Hq. destruct Hb as [H1 H2].
  unfold round_q. set (r := Qred q). assert (Hr : (r == q)%Q) by apply Qred_correct.
  rewrite <- Hr in H1, H2, Hq. destruct r as [n d]. simpl Qnum. simpl Qden.
  assert (Hn : 0 < n) by (unfold Qlt in Hq; simpl in Hq; lia).
  assert (HK : 2 ^ k ≤ 2 ^ 1022) by (apply Z.pow_le_mono_r; lia).
  unfold Qle, Qmult, inject_Z in H1, H2. simpl in H1, H2.
  destruct (round_nd_near neg n (Zpos d)) as (m & e & He & Hnear); [done|done| |].
  { split; unfold ge_pow2; cbn [Z.leb Z.compare Z.opp].
    - apply Z.leb_le. nia.
    - apply Z.leb_gt. assert (2 ^ 1022 < 2 ^ 1023) by (apply Z.pow_lt_mono_r; lia). nia. }
  exists m, e. split; [done|]. assert (inject_Z n / inject_Z (Zpos d) == q)%Q as <-; [|done].
  rewrite <- Hr. unfold inject_Z, Qdiv, Qinv, Qmult, Qeq. simpl. lia.
Qed.

(** ** Chains of operations *)

(** [x] is a positive number that is [q] up to the fraction [d]. *)
Definition approx (d q : Q) (x : num) : Prop := ∃ m e, x = Fin false m e ∧ near d q (mag m e).

#[export] Instance approx_proper : Proper (Qeq ==> Qeq ==> eq ==> iff) approx.
Proof.
  intros d d' Hd q q' Hq x x' <-. unfold approx. split; intros (m & e & Hx & Hn); exists m, e; split;
    try done; [by rewrite <- Hd, <- Hq|by rewrite Hd, Hq].
Qed.

(** The fraction after one more operation *)
Definition more (d : Q) : Q := (d + u53 + d * u53)%Q.

Lemma near_trans d q x y :
  (0 <= d -> 0 <= q -> near d q x -> near u53 x y -> near (more d) q y)%Q.
Proof.
  intros Hd Hq [H1 H2] [H3 H4]. unfold more. assert (Hu : (0 <= u53 <= 1)%Q) by (split; done).
  assert (0 <= q * d)%Q by (by apply Qmult_le_0_compat).
  assert (x * u53 <= (q + q * d) * u53)%Q by (apply Qmult_le_compat_r; lra).
  assert ((q - q * d) * u53 <= x * u53)%Q by (apply Qmult_le_compat_r; lra).
  assert (0 <= q * d * u53)%Q by (apply Qmult_le_0_compat; lra).
  assert (0 <= q * u53)%Q by (apply Qmult_le_0_compat; lra).
  split; lra.
Qed.

(** Multiplication and division by a number whose value is [p] *)
Definition exactly (p : Q) (y : num) : Prop := ∃ n f, y = Fin false n f ∧ (mag n f == p)%Q ∧ n ≠ 0.

Lemma nmul_approx d q k p l x y :
  0 ≤ k → 0 ≤ l → k + 1 + l ≤ 1022 → (0 <= d <= 1 # 2)%Q →
  bounded k q → bounded l p → approx d q x → exactly p y → approx (more d) (q * p) (nmul x y).
Proof.
  intros Hk Hl Hkl Hd Hq Hp (m & e & -> & Hx) (n & f & -> & Hy & _).
  pose proof (bounded_pos k q Hk Hq). pose proof (bounded_pos l p Hl Hp).
  pose proof (bounded_near k d q _ Hk (proj2 Hd) Hq Hx) as Hb.
  pose proof (bounded_mul (k + 1) l _ _ ltac:(lia) Hl Hb Hp) as Hb'. rewrite <- Hy in Hb'.
  cbn [nmul xorb]. destruct (round_q_near false _ (k + 1 + l) ltac:(lia) Hb') as (m' & e' & -> & Hn).
  exists m', e'. split; [done|]. apply near_trans with (mag m e * p)%Q.
  - lra.
  - apply Qmult_le_0_compat; lra.
  - apply near_scale; [lra|done].
  - by rewrite <- Hy.
Qed.

Lemma ndiv_approx d q k p l x y :
  0 ≤ k → 0 ≤ l → k + 1 + l ≤ 1022 → (0 <= d <= 1 # 2)%Q →
  bounded k q → bounded l p → approx d q x → exactly p y → approx (more d) (q / p) (ndiv x y).
Proof.
  intros Hk Hl Hkl Hd Hq Hp (m & e & -> & Hx) (n & f & -> & Hy & Hn0).
  pose proof (bounded_pos k q Hk Hq). pose proof (bounded_pos l p Hl Hp).
  pose proof (bounded_near k d q _ Hk (proj2 Hd) Hq Hx) as Hb.
  pose proof (bounded_mul (k + 1) l _ _ ltac:(lia) Hl Hb (bounded_inv l p Hl Hp)) as Hb'.
  cbn [ndiv xorb]. rewrite (proj2 (Z.eqb_neq n 0)) by done.
  assert (Hdiv : (mag m e / mag n f == mag m e * / p)%Q) by (unfold Qdiv; by rewrite Hy).
  rewrite <- Hdiv in Hb'. destruct (round_q_near false _ (k + 1 + l) ltac:(lia) Hb') as (m' & e' & -> & Hn).
  exists m', e'. split; [done|]. rewrite Hdiv in Hn.
  assert (0 < / p)%Q by by apply Qinv_lt_0_compat.
  apply near_trans with (mag m e * / p)%Q; [lra| | |done].
  - apply Qmult_le_0_compat; lra.
  - apply near_scale; [lra|done].
Qed.

(** [Math.round] finds an integer from within less than a half. *)
Lemma math_round_approx d z x :
  0 < z → (inject_Z z * d < 1 # 2)%Q → approx d (inject_Z z) x → math_round x = of_Z z.
Proof.
  intros Hz Hd (m & e & -> & H1 & H2). cbn [math_round]. unfold to_q.
  assert (Hf : Qfloor (mag m e + (1 # 2)) = z).
  { pose proof (Qfloor_le (mag m e + (1 # 2))) as Hlo. pose proof (Qlt_floor (mag m e + (1 # 2))) as Hhi.
    set (w := Qfloor _) in *.
    assert (inject_Z w < inject_Z (z + 1))%Q by (rewrite inject_Z_plus; change (inject_Z 1) with 1%Q; lra).
    assert (inject_Z z < inject_Z (w + 1))%Q by lra. rewrite <- Zlt_Qlt in *. lia. }
  rewrite Hf. unfold keep_zero_sign. by rewrite (proj2 (Z.eqb_neq z 0)) by lia.
Qed.

(** ** Fixed-point texts *)

(** [n / 10^f] with [f] digits after the point *)
Definition fixed_text (f n : Z) : jstr :=
  let ds := dec n in
  let ds := if Z.of_nat (length ds) <=? f then zeros (f + 1 - Z.of_nat (length ds)) ++ ds else ds in
  let i := (length ds - Z.to_nat f)%nat in
  take i ds ++ 46 :: drop i ds.

Lemma toFixed_text f m e :
  0 < f → (mag m e < (10 # 1) ^ 21)%Q →
  toFixed f (Fin false m e) = fixed_text f (Qfloor (mag m e * (10 # 1) ^ f + (1 # 2))).
Proof.
  intros Hf Hm. unfold toFixed. destruct (Qle_bool _ _) eqn:E.
  { apply Qle_bool_iff in E. lra. }
  rewrite (proj2 (Z.eqb_neq f 0)) by lia. reflexivity.
Qed.

Lemma fixed_text_shape f n :
  0 < f → 0 ≤ n →
  ∃ i fr, fixed_text f n = i ++ 46 :: fr ∧ i ≠ [] ∧ Forall (λ c, is_digit c = true) i ∧
          Forall (λ c, is_digit c = true) fr ∧ Z.of_nat (length fr) = f ∧ dval (i ++ fr) = n.
Proof.
  intros Hf Hn. unfold fixed_text. destruct (dec_numeral n Hn) as [Hd Hv Hne _].
  set (ds := dec n) in *.
  set (ds' := if Z.of_nat (length ds) <=? f then zeros (f + 1 - Z.of_nat (length ds)) ++ ds else ds).
  assert (Hds' : Forall (λ c, is_digit c = true) ds' ∧ dval ds' = n ∧ f < Z.of_nat (length ds')).
  { unfold ds'. destruct (Z.leb_spec (Z.of_nat (length ds)) f); [|done]. split_and!.
    - apply Forall_app. split; [apply digits_zeros|done].
    - rewrite dval_app, dval_zeros. lia.
    - rewrite length_app, Nat2Z.inj_add, length_zeros by lia. lia. }
  destruct Hds' as (Hd' & Hv' & Hl). exists (take (length ds' - Z.to_nat f) ds'), (drop (length ds' - Z.to_nat f) ds').
  split_and!.
  - done.
  - intros Hnil. apply (f_equal length) in Hnil. rewrite length_take in Hnil. cbn in Hnil. lia.
  - by apply Forall_take.
  - by apply Forall_drop.
  - rewrite length_drop. lia.
  - by rewrite take_drop.
Qed.

Lemma parseFloat_decimal i fr :
  i ≠ [] → Forall (λ c, is_digit c = true) i → Forall (λ c, is_digit c = true) fr →
  parseFloat (i ++ 46 :: fr) = dec_to_num false (dval (i ++ fr)) (- Z.of_nat (length fr)).
Proof.
  intros Hne Hi Hfr. unfold parseFloat. destruct i as [|c i]; [done|].
  assert (Hc : is_digit c = true) by (by apply list.Forall_cons in Hi as [? _]).
  rewrite trim_start_fixed by (intros c' r [= <- _]; by apply digit_not_ws).
  rewrite take_sign_digits by done.
  assert (starts_with (u "Infinity") ((c :: i) ++ 46 :: fr) = false) as ->.
  { apply is_digit_spec in Hc. vm_compute (u "Infinity"). cbn [app starts_with].
    by rewrite (proj2 (Z.eqb_neq 73 c)) by lia. }
  unfold scan_udec. rewrite take_digits_app by (try done; by intros ? ? [= <- _]).
  assert (take_frac (46 :: fr) = (fr, [])) as Htf.
  { unfold take_frac. cbn. rewrite <- (app_nil_r fr) at 1. by rewrite take_digits_app. }
  rewrite Htf. rewrite bool_decide_eq_false_2 by done. reflexivity.
Qed.

(** A number close enough to [z / 10^f] is printed as that. *)
Lemma toFixed_near f z d q x :
  0 < f → approx d q x → (q + q * d < (10 # 1) ^ 21)%Q →
  (inject_Z z - (1 # 2) <= (q - q * d) * (10 # 1) ^ f)%Q →
  ((q + q * d) * (10 # 1) ^ f < inject_Z z + (1 # 2))%Q →
  toFixed f x = fixed_text f z.
Proof.
  intros Hf (m & e & -> & H1 & H2) Hbig Hlo Hhi. rewrite toFixed_text; [|done|lra]. f_equal.
  pose proof (Qpow_nonneg 10 f) as Hp.
  assert ((q - q * d) * (10 # 1) ^ f <= mag m e * (10 # 1) ^ f)%Q by (by apply Qmult_le_compat_r).
  assert (mag m e * (10 # 1) ^ f <= (q + q * d) * (10 # 1) ^ f)%Q by (by apply Qmult_le_compat_r).
  set (v := (mag m e * (10 # 1) ^ f)%Q) in *.
  pose proof (Qfloor_le (v + (1 # 2))) as Hl. pose proof (Qlt_floor (v + (1 # 2))) as Hh.
  set (w := Qfloor _) in *.
  assert (inject_Z w < inject_Z (z + 1))%Q by (rewrite inject_Z_plus; change (inject_Z 1) with 1%Q; lra).
  assert (inject_Z z < inject_Z (w + 1))%Q by lra. rewrite <- Zlt_Qlt in *. lia.
Qed.

(** ** The sign of a difference *)

(** A magnitude of at least the least positive number is not rounded to zero. *)
Lemma round_nd_nonzero n d :
  0 < n → 0 < d → d ≤ n * 2 ^ 1074 →
  round_nd false n d = Inf false ∨ ∃ m e, round_nd false n d = Fin false m e ∧ 0 < m.
Proof.
  intros Hn Hd Hge. unfold round_nd. rewrite (proj2 (Z.eqb_neq n 0)) by lia.
  destruct (scaled_bounds n d _ Hn Hd eq_refl) as [Hm Hnorm].
  set (e := Z.max (ilog2 n d - 52) emin) in *. cbv zeta in *.
  assert (Hpos : 0 < (if 0 <=? e then n else n * 2 ^ (- e)) / (if 0 <=? e then d * 2 ^ e else d)).
  { destruct Hnorm as [?|He]; [lia|]. rewrite He. cbn [Z.leb Z.compare emin Z.opp].
    apply Z.div_str_pos. unfold emin. cbn [Z.opp]. lia. }
  set (m := (if 0 <=? e then n else n * 2 ^ (- e)) / (if 0 <=? e then d * 2 ^ e else d)) in *.
  set (up := (_ <? _) || _).
  destruct up; [destruct (Z.eqb_spec (m + 1) (2 ^ 53))|destruct (Z.eqb_spec m (2 ^ 53))];
    match goal with |- context [emax <? ?x] => destruct (Z.ltb_spec emax x) end;
    try (by left); right; eexists _, _; (split; [reflexivity|lia]).
Qed.

Lemma round_q_nonzero q :
  ((2 # 1) ^ emin <= q)%Q →
  round_q false q = Inf false ∨ ∃ m e, round_q false q = Fin false m e ∧ 0 < m.
Proof.
  intros Hq. unfold round_q. set (r := Qred q). assert (Hr : (r == q)%Q) by apply Qred_correct.
  rewrite <- Hr in Hq. destruct r as [n d]. cbn [Qnum Qden].
  assert (Hge : Zpos d ≤ n * 2 ^ 1074).
  { change ((2 # 1) ^ emin)%Q with (/ ((2 # 1) ^ 1074))%Q in Hq. rewrite Qpow_pos in Hq by lia.
    assert (Hm : (/ inject_Z (2 ^ 1074) * inject_Z (2 ^ 1074) <= (n # d) * inject_Z (2 ^ 1074))%Q)
      by (apply Qmult_le_compat_r; [done|]; by apply Qlt_le_weak, pow2_q).
    rewrite Qmult_comm, Qmult_inv_r in Hm by (intros Hz; pose proof (pow2_q 1074 ltac:(lia)); lra).
    unfold Qle, Qmult, inject_Z in Hm. cbn [Qnum Qden] in Hm. lia. }
  apply round_nd_nonzero; [|done..]. assert (0 < 2 ^ 1074) by done. nia.
Qed.

(** A canonical number is a whole multiple of the least positive one. *)
Lemma to_q_multiple s m e : canonical m e → ∃ k, (to_q s m e == inject_Z k * (2 # 1) ^ emin)%Q.
Proof.
  intros Hc. assert (Hm : (mag m e == inject_Z (m * 2 ^ (e - emin)) * (2 # 1) ^ emin)%Q).
  { assert (emin ≤ e) by (unfold canonical in Hc; lia).
    unfold mag. rewrite inject_Z_mult, <- (Qpow_pos 2) by lia. rewrite <- Qmult_assoc.
    rewrite <- Qpower_plus by done. by replace (e - emin + emin) with e by lia. }
  destruct s; [exists (- (m * 2 ^ (e - emin)))|by exists (m * 2 ^ (e - emin))].
  unfold to_q. rewrite Hm, inject_Z_opp. ring.
Qed.

Lemma nsub_positive x y :
  num_wf x → num_wf y → isFinite x = true → isFinite y = true →
  ngtb (nsub x y) nzero = nltb y x.
Proof.
  destruct x as [| |s m e], y as [| |s' m' e']; try done. intros Hx Hy _ _.
  unfold nsub, nopp, nadd. cbn [num_wf] in Hx, Hy.
  destruct (to_q_multiple s m e Hx) as [k Hk]. destruct (to_q_multiple (negb s') m' e' Hy) as [k' Hk'].
  assert (Hneg : (to_q (negb s') m' e' == - to_q s' m' e')%Q) by (destruct s'; cbn; ring).
  unfold ngtb, nltb at 2. cbn [ncompare]. set (X := to_q s m e) in *. set (Y := to_q s' m' e') in *.
  set (D := (X + to_q (negb s') m' e')%Q) in *.
  assert (HD : (D == X - Y)%Q) by (unfold D; rewrite Hneg; ring).
  unfold round_signed. destruct (D ?= 0)%Q eqn:E.
  - apply Qeq_alt in E. rewrite bool_decide_eq_false_2; [by destruct s, s'; vm_compute|]. intros [= Hlt%Qlt_alt]. lra.
  - apply Qlt_alt in E. rewrite bool_decide_eq_false_2 by (intros [= Hlt%Qlt_alt]; lra).
    apply not_true_is_false. pose proof (round_q_wf true (- D)%Q ltac:(lra)) as Hwf.
    assert (Hs : ∀ q, (∃ a b, round_q true q = Fin true a b) ∨ round_q true q = Inf true).
    { intros q. unfold round_q, round_nd. repeat case_match; eauto. }
    destruct (Hs (- D)%Q) as [(a & b & Hab)| ->]; [|done]. rewrite Hab in *. cbn [num_wf] in Hwf.
    unfold nltb, nzero. rewrite bool_decide_eq_true. cbn [ncompare]. intros [= Hlt%Qlt_alt].
    unfold to_q, mag in Hlt. assert (0 <= inject_Z a * (2 # 1) ^ b)%Q; [|].
    { apply Qmult_le_0_compat; [|apply Qpow_nonneg]. rewrite <- (Zle_Qle 0). unfold canonical in Hwf. lia. }
    change (inject_Z 0) with 0%Q in Hlt. lra.
  - apply Qgt_alt in E. rewrite (bool_decide_eq_true_2 (Some (Y ?= X)%Q = Some Lt)) by (apply f_equal, (proj1 (Qlt_alt _ _)); lra).
    destruct (round_q_nonzero D) as [->|(a & b & -> & Ha)]; [|done|].
    + assert (HDk : (D == inject_Z (k + k') * (2 # 1) ^ emin)%Q) by (unfold D; rewrite Hk, Hk', inject_Z_plus; ring).
      rewrite HDk in E |- *. assert (Hp : (0 <= (2 # 1) ^ emin)%Q) by apply Qpow_nonneg.
      assert (1 ≤ k + k').
      { destruct (Z.le_gt_cases 1 (k + k')) as [|Hle]; [done|]. exfalso.
        assert (inject_Z (k + k') * (2 # 1) ^ emin <= 0 * (2 # 1) ^ emin)%Q; [|lra].
        apply Qmult_le_compat_r; [|done]. change 0%Q with (inject_Z 0). rewrite <- Zle_Qle. lia. }
      assert (1 * (2 # 1) ^ emin <= inject_Z (k + k') * (2 # 1) ^ emin)%Q; [|lra].
      apply Qmult_le_compat_r; [|done]. change 1%Q with (inject_Z 1). by rewrite <- Zle_Qle.
    + unfold nltb, nzero. apply bool_decide_eq_true_2. cbn [ncompare]. apply f_equal, (proj1 (Qlt_alt _ _)).
      unfold to_q, mag. change (inject_Z 0) with 0%Q.
      assert (0 < inject_Z a * (2 # 1) ^ b)%Q; [|lra].
      apply Qmult_lt_0_compat; [by rewrite <- (Zlt_Qlt 0)|]. by apply Qpower_0_lt.
Qed.

(** ** Integers *)

Lemma round_q_proper neg q q' : (q == q')%Q → round_q neg q = round_q neg q'.
Proof. intros Hq. unfold round_q. by rewrite (Qred_complete _ _ Hq). Qed.

Lemma round_signed_of_Z q z : (q == inject_Z z)%Q → round_signed false q = of_Z z.
Proof.
  intros Hq. unfold round_signed, of_Z. destruct (q ?= 0)%Q eqn:E.
  - apply Qeq_alt in E. assert (z = 0) as ->; [|done].
    apply (inject_Z_injective z 0). by rewrite <- Hq, E.
  - apply Qlt_alt in E. rewrite Hq in E. change 0%Q with (inject_Z 0) in E. rewrite <- Zlt_Qlt in E. rewrite (proj2 (Z.ltb_lt z 0)) by done.
    apply round_q_proper. rewrite Hq, Z.abs_neq, inject_Z_opp by lia. reflexivity.
  - apply Qgt_alt in E. rewrite Hq in E. change 0%Q with (inject_Z 0) in E. rewrite <- Zlt_Qlt in E. rewrite (proj2 (Z.ltb_ge z 0)) by lia.
    apply round_q_proper. by rewrite Hq, Z.abs_eq by lia.
Qed.

(** Sums of integers are exact. *)
Lemma nadd_of_Z a b : 0 ≤ a < 2 ^ 53 → Z.abs b < 2 ^ 53 → nadd (of_Z a) (of_Z b) = of_Z (a + b).
Proof.
  intros Ha Hb. destruct (of_Z_q a ltac:(lia)) as (s & m & e & Ea & Qa).
  destruct (of_Z_q b Hb) as (s' & m' & e' & Eb & Qb). rewrite Ea, Eb. cbn [nadd].
  assert (s = false) as ->.
  { destruct (decide (a = 0)) as [->|Hne]; [vm_compute in Ea; congruence|].
    destruct (of_Z_small a ltac:(lia)) as (m0 & e0 & E0 & _).
    rewrite E0, (proj2 (Z.ltb_ge a 0)) in Ea by lia. congruence. }
  cbn [andb]. apply round_signed_of_Z. by rewrite Qa, Qb, inject_Z_plus.
Qed.

(** ** Order *)

Lemma nltb_fin s m e s' m' e' :
  nltb (Fin s m e) (Fin s' m' e') = true ↔ (to_q s m e < to_q s' m' e')%Q.
Proof. unfold nltb. rewrite bool_decide_eq_true. cbn [ncompare]. rewrite Qlt_alt. split; congruence. Qed.

Lemma nltb_trans x y z :
  isFinite x = true → isFinite y = true → isFinite z = true →
  nltb x y = true → nltb y z = true → nltb x z = true.
Proof.
  destruct x, y, z; try done. intros _ _ _. rewrite !nltb_fin. intros. by eapply Qlt_trans.
Qed.

Lemma nltb_irrefl x : nltb x x = false.
Proof.
  apply not_true_is_false. destruct x as [|[]|s m e]; [done..|]. rewrite nltb_fin. apply Qlt_irrefl.
Qed.

Lemma nltb_cases x y : isFinite x = true → isFinite y = true → nltb x y = false ∨ nltb y x = false.
Proof.
  intros Hx Hy. destruct (nltb x y) eqn:E; [right|by left]. apply not_true_is_false. intros E'.
  pose proof (nltb_trans x y x Hx Hy Hx E E'). by rewrite nltb_irrefl in *.
Qed.

Lemma nltb_false_trans x y z :
  isFinite x = true → isFinite y = true → isFinite z = true →
  nltb y x = false → nltb z y = false → nltb z x = false.
Proof.
  destruct x, y, z; try done. intros _ _ _. rewrite <- !not_true_iff_false, !nltb_fin. intros. lra.
Qed.

(** Sorting by [(a, b) => f(b) - f(a)]: all elements, the greatest numbers first *)
Definition finite (x : num) : Prop := num_wf x ∧ isFinite x = true.

Lemma desc_sorted {A} (f : A → num) l :
  Forall (λ x, finite (f x)) l →
  StronglySorted (λ a b, nltb (f a) (f b) = false) (sort_by (λ a b, negb (ngtb (nsub (f b) (f a)) nzero)) l).
Proof.
  intros Hl. set (le := λ a b, negb (ngtb (nsub (f b) (f a)) nzero)).
  assert (Hle : ∀ a b, finite (f a) → finite (f b) → le a b = true ↔ nltb (f a) (f b) = false).
  { intros a b [? ?] [? ?]. unfold le. rewrite nsub_positive by done. by destruct (nltb (f a) (f b)). }
  assert (HP : Forall (λ x, finite (f x)) (sort_by le l)) by (by rewrite sort_by_perm).
  assert (Hs : StronglySorted (λ a b, le a b = true) (sort_by le l)).
  { apply (sort_by_sorted_on (λ x, finite (f x))); [..|done].
    - intros x y Hx Hy. rewrite !Hle by done. apply nltb_cases; [apply Hx|apply Hy].
    - intros x y z Hx Hy Hz. rewrite !Hle by done. intros. eapply (nltb_false_trans (f z) (f y) (f x)); try done;
        [apply Hz|apply Hy|apply Hx]. }
  clear -Hs HP Hle. induction Hs as [|x k Hk IH Hx]; [constructor|].
  apply list.Forall_cons in HP as [Px Pk]. constructor; [by apply IH|].
  apply Forall_forall. intros y Hy. rewrite Forall_forall in Hx, Pk. apply Hle; [done|by apply Pk|by apply Hx].
Qed.
