(* ===== verification/JsValue.v ===== *)
(** * Values of the JavaScript language

    The data the application passes around: primitives, arrays and plain
    objects.  An object is the list of its own properties in the order
    [Object.keys] enumerates them: array-index keys ascending, then the other
    keys in insertion order (ECMA-262, OrdinaryOwnPropertyKeys).  Reading a
    property falls back on the prototype, so that [o["constructor"]] is a
    function and not [undefined]; reading a property of [null] or [undefined]
    throws.  [String(x)] and [Number(x)] follow ToPrimitive: an object with an
    own, necessarily non-callable, [toString] property makes them throw. *)

From S2P Require Import Prelude JsString JsNumber.

Local Open Scope Z_scope.

Inductive val :=
| VUndef
| VNull
| VBool (b : bool)
| VNum (n : num)
| VStr (s : jstr)
| VArr (l : list val)
| VObj (o : list (jstr * val))
| VFun (name : jstr).

Abbreviation obj := (list (jstr * val)).

(** Induction that reaches the elements of arrays and objects. *)
Section val_ind'.
Context (P : val → Prop)
  (Hundef : P VUndef) (Hnull : P VNull) (Hbool : ∀ b, P (VBool b))
  (Hnum : ∀ n, P (VNum n)) (Hstr : ∀ s, P (VStr s))
  (Harr : ∀ l, Forall P l → P (VArr l))
  (Hobj : ∀ o, Forall (λ kv, P kv.2) o → P (VObj o))
  (Hfun : ∀ f, P (VFun f)).

Fixpoint val_ind' (v : val) : P v :=
  match v with
  | VUndef => Hundef
  | VNull => Hnull
  | VBool b => Hbool b
  | VNum n => Hnum n
  | VStr s => Hstr s
  | VArr l => Harr l ((fix go l : Forall P l :=
      match l with
      | [] => Forall_nil_2 P
      | x :: l => Forall_cons_2 P x l (val_ind' x) (go l)
      end) l)
  | VObj o => Hobj o ((fix go o : Forall (λ kv, P kv.2) o :=
      match o with
      | [] => Forall_nil_2 (λ kv, P kv.2)
      | kv :: o => Forall_cons_2 (λ kv, P kv.2) kv o (val_ind' kv.2) (go o)
      end) o)
  | VFun f => Hfun f
  end.
End val_ind'.

(** ** Type tests and truthiness *)

Definition is_undef (v : val) : bool := match v with VUndef => true | _ => false end.
Definition is_null (v : val) : bool := match v with VNull => true | _ => false end.
Definition is_nullish (v : val) : bool := is_undef v || is_null v.
Definition is_str (v : val) : bool := match v with VStr _ => true | _ => false end.
Definition is_num (v : val) : bool := match v with VNum _ => true | _ => false end.
Definition is_arr (v : val) : bool := match v with VArr _ => true | _ => false end.
Definition is_true (v : val) : bool := match v with VBool true => true | _ => false end.
Definition is_false (v : val) : bool := match v with VBool false => true | _ => false end.
(** [typeof v === 'object'] *)
Definition typeof_object (v : val) : bool :=
  match v with VNull | VArr _ | VObj _ => true | _ => false end.
(** [v && typeof v === 'object' && !Array.isArray(v)] *)
Definition is_plain (v : val) : bool := match v with VObj _ => true | _ => false end.

Definition truthy (v : val) : bool :=
  match v with
  | VUndef | VNull => false
  | VBool b => b
  | VNum n => ntruthy n
  | VStr s => nonempty s
  | VArr _ | VObj _ | VFun _ => true
  end.

(** [a || b] and [a ?? b] *)
Definition v_or (a b : val) : val := if truthy a then a else b.
Definition v_coalesce (a b : val) : val := if is_nullish a then b else a.

(** [v === 'text'] *)
Definition is_text (v : val) (s : jstr) : bool :=
  match v with VStr t => t =s s | _ => false end.

(** ** Objects *)

(** The integer of an array-index key: a canonical numeral below [2^32 - 1]. *)
Definition array_index (k : jstr) : option Z :=
  if forallb is_digit k && nonempty k && (k =s dec (dval k)) && (dval k <? 4294967295)
  then Some (dval k) else None.

Fixpoint obj_get (o : obj) (k : jstr) : option val :=
  match o with
  | [] => None
  | (k', v) :: o => if k' =s k then Some v else obj_get o k
  end.

Definition obj_has (o : obj) (k : jstr) : bool := bool_decide (is_Some (obj_get o k)).

(** Adds a key that is not there yet, at its place in the key order. *)
Fixpoint obj_add (o : obj) (k : jstr) (v : val) : obj :=
  match o with
  | [] => [(k, v)]
  | (k', v') :: o' =>
    match array_index k, array_index k' with
    | Some i, Some j => if i <? j then (k, v) :: o else (k', v') :: obj_add o' k v
    | Some _, None => (k, v) :: o
    | None, _ => (k', v') :: obj_add o' k v
    end
  end.

Fixpoint obj_update (o : obj) (k : jstr) (v : val) : obj :=
  match o with
  | [] => []
  | (k', v') :: o => if k' =s k then (k', v) :: o else (k', v') :: obj_update o k v
  end.

(** Defining the own property [k] (object literals, [JSON.parse], spread). *)
Definition obj_set (o : obj) (k : jstr) (v : val) : obj :=
  if obj_has o k then obj_update o k v else obj_add o k v.

Fixpoint obj_del (o : obj) (k : jstr) : obj :=
  match o with
  | [] => []
  | (k', v) :: o => if k' =s k then o else (k', v) :: obj_del o k
  end.

Definition obj_extend (o p : obj) : obj := fold_left (λ o kv, obj_set o kv.1 kv.2) p o.
Definition obj_of_entries (p : obj) : obj := obj_extend [] p.

Definition obj_keys (o : obj) : list jstr := map fst o.

(** The keys are in enumeration order, without repetition. *)
Definition key_before (k k' : jstr) : Prop :=
  k ≠ k' ∧
  match array_index k, array_index k' with
  | Some i, Some j => i < j
  | None, Some _ => False
  | _, None => True
  end.
Definition obj_ok (o : obj) : Prop := StronglySorted key_before (obj_keys o).

(** ** Reading properties *)

Definition object_proto : list jstr :=
  map u ["constructor"; "__defineGetter__"; "__defineSetter__"; "hasOwnProperty";
         "__lookupGetter__"; "__lookupSetter__"; "isPrototypeOf"; "propertyIsEnumerable";
         "toString"; "valueOf"; "toLocaleString"].

Definition array_proto : list jstr :=
  map u ["at"; "concat"; "copyWithin"; "entries"; "every"; "fill"; "filter"; "find";
         "findIndex"; "findLast"; "findLastIndex"; "flat"; "flatMap"; "forEach"; "includes";
         "indexOf"; "join"; "keys"; "lastIndexOf"; "map"; "pop"; "push"; "reduce";
         "reduceRight"; "reverse"; "shift"; "slice"; "some"; "sort"; "splice"; "toReversed";
         "toSorted"; "toSpliced"; "unshift"; "values"; "with"].

Definition proto_get (k : jstr) : val :=
  if bool_decide (k ∈ object_proto) then VFun k
  else if k =s u "__proto__" then VObj []
  else VUndef.

(** [v[k]].  Of the primitives only strings have own properties; the methods
    of the wrapper prototypes are never read through this function. *)
Definition get (v : val) (k : jstr) : res val :=
  match v with
  | VUndef | VNull => Throw TypeError
  | VObj o => Ok (default (proto_get k) (obj_get o k))
  | VArr l =>
    Ok (if k =s u "length" then VNum (of_Z (Z.of_nat (length l)))
        else match array_index k with
             | Some i => default VUndef (l !! Z.to_nat i)
             | None => if bool_decide (k ∈ array_proto) then VFun k else proto_get k
             end)
  | VStr s =>
    Ok (if k =s u "length" then VNum (of_Z (Z.of_nat (length s)))
        else match array_index k with
             | Some i => match s !! Z.to_nat i with Some c => VStr [c] | None => VUndef end
             | None => proto_get k
             end)
  | _ => Ok (proto_get k)
  end.

(** [v?.k] *)
Definition get_opt (v : val) (k : jstr) : val :=
  match get v k with Ok x => x | Throw _ => VUndef end.

(** A property of a value known to be an object. *)
Definition oget (o : obj) (k : jstr) : val := default (proto_get k) (obj_get o k).

(** [Object.entries(v)] of a value that is not [null] or [undefined]. *)
Definition indexed {A} (l : list A) : list (jstr * A) :=
  imap (λ i x, (dec (Z.of_nat i), x)) l.
Definition entries (v : val) : list (jstr * val) :=
  match v with
  | VObj o => o
  | VArr l => indexed l
  | VStr s => map (λ ic, (ic.1, VStr [ic.2])) (indexed s)
  | _ => []
  end.
Definition keys (v : val) : list jstr := map fst (entries v).

(** ** Conversions *)

(** [String(v)] *)
Fixpoint to_str (v : val) : res jstr :=
  match v with
  | VUndef => Ok (u "undefined")
  | VNull => Ok (u "null")
  | VBool b => Ok (if b then u "true" else u "false")
  | VNum n => Ok (num_to_string n)
  | VStr s => Ok s
  | VArr l =>
    rmap (join (u ",")) (rmapM (λ x, if is_nullish x then Ok [] else to_str x) l)
  | VObj o => if obj_has o (u "toString") then Throw TypeError else Ok (u "[object Object]")
  | VFun f => Ok (u "function " ++ f ++ u "() { [native code] }")
  end.

(** [Number(v)] *)
Definition to_num (v : val) : res num :=
  match v with
  | VUndef => Ok NaN
  | VNull => Ok nzero
  | VBool b => Ok (if b then of_Z 1 else nzero)
  | VNum n => Ok n
  | VStr s => Ok (Number s)
  | VArr _ | VObj _ => rmap Number (to_str v)
  | VFun _ => Ok NaN
  end.

(** [a + b] *)
Definition to_primitive (v : val) : res val :=
  match v with VArr _ | VObj _ | VFun _ => rmap VStr (to_str v) | _ => Ok v end.
Definition js_add (a b : val) : res val :=
  let! a := to_primitive a in
  let! b := to_primitive b in
  if is_str a || is_str b
  then let! s := to_str a in let! s' := to_str b in Ok (VStr (s ++ s'))
  else let! x := to_num a in let! y := to_num b in Ok (VNum (nadd x y)).

(** [a === b].  Two values of object type are equal when they are the same
    object; values read from two places are taken to be different ones. *)
Definition strict_eq (a b : val) : bool :=
  match a, b with
  | VUndef, VUndef | VNull, VNull => true
  | VBool x, VBool y => eqb x y
  | VNum x, VNum y => neqb x y
  | VStr x, VStr y => x =s y
  | _, _ => false
  end.

(** ** Lemmas on objects *)

Lemma array_index_dec k i : array_index k = Some i → k = dec i.
Proof.
  unfold array_index. case_match eqn:E; [|done]. boolify. by intros [= <-].
Qed.

Lemma obj_get_update o k v k' :
  obj_get (obj_update o k v) k' =
  if decide (k = k') then (if obj_has o k then Some v else None) else obj_get o k'.
Proof.
  unfold obj_has. induction o as [|[k1 v1] o IH]; simpl; [by case_decide|].
  destruct (bool_decide (k1 = k)) eqn:E1; boolify; simpl.
  - subst. destruct (bool_decide (k = k')) eqn:E2; boolify; by case_decide.
  - rewrite IH. destruct (bool_decide (k1 = k')) eqn:E2; boolify; [|done].
    case_decide; [congruence|done].
Qed.

Lemma obj_get_add o k v k' :
  obj_get o k = None →
  obj_get (obj_add o k v) k' = if decide (k = k') then Some v else obj_get o k'.
Proof.
  induction o as [|[k1 v1] o IH]; simpl; intros Hk.
  { repeat (case_bool_decide || case_decide); congruence. }
  destruct (bool_decide (k1 = k)) eqn:E1; [done|]. boolify. specialize (IH Hk).
  assert (Hrec : obj_get ((k1, v1) :: obj_add o k v) k' =
    if decide (k = k') then Some v else if k1 =s k' then Some v1 else obj_get o k').
  { simpl. rewrite IH. destruct (bool_decide (k1 = k')) eqn:E2; boolify; [|done].
    case_decide; [congruence|done]. }
  assert (Hhd : obj_get ((k, v) :: (k1, v1) :: o) k' =
    if decide (k = k') then Some v else if k1 =s k' then Some v1 else obj_get o k').
  { simpl. destruct (decide (k = k')) as [->|].
    - by rewrite bool_decide_eq_true_2.
    - by rewrite (bool_decide_eq_false_2 (k = k')). }
  destruct (array_index k), (array_index k1); [|exact Hhd|exact Hrec..].
  destruct (_ <? _); [exact Hhd|exact Hrec].
Qed.

(** Reading after writing. *)
Lemma obj_get_set o k v k' :
  obj_get (obj_set o k v) k' = if decide (k = k') then Some v else obj_get o k'.
Proof.
  unfold obj_set. destruct (obj_has o k) eqn:E.
  - rewrite obj_get_update, E. done.
  - apply obj_get_add. unfold obj_has in E. boolify. by apply eq_None_not_Some.
Qed.

Lemma obj_get_keys o k : obj_get o k = None ↔ k ∉ obj_keys o.
Proof.
  unfold obj_keys. induction o as [|[k1 v1] o IH]; simpl; [set_solver|].
  rewrite not_elem_of_cons. case_bool_decide; [naive_solver|]. rewrite IH. naive_solver.
Qed.

Lemma obj_keys_update o k v : obj_keys (obj_update o k v) = obj_keys o.
Proof.
  unfold obj_keys. induction o as [|[k1 v1] o IH]; simpl; [done|].
  case_bool_decide; simpl; [done|]. by rewrite IH.
Qed.

Lemma elem_of_keys_add o k v k' : k' ∈ obj_keys (obj_add o k v) ↔ k' = k ∨ k' ∈ obj_keys o.
Proof.
  unfold obj_keys. induction o as [|[k1 v1] o IH]; simpl; [set_solver|].
  destruct (array_index k), (array_index k1); try case_match; simpl;
    rewrite ?elem_of_cons, ?IH; set_solver.
Qed.

Lemma obj_ok_add o k v : obj_ok o → k ∉ obj_keys o → obj_ok (obj_add o k v).
Proof.
  unfold obj_ok. induction o as [|[k1 v1] o IH]; intros Ho Hk; [by repeat constructor|].
  simpl in Ho, Hk. apply StronglySorted_inv in Ho as [Ho Hf].
  rewrite not_elem_of_cons in Hk. destruct Hk as [Hk1 Hk].
  assert (Hcons : key_before k1 k → StronglySorted key_before (k1 :: obj_keys (obj_add o k v))).
  { intros H1. constructor; [by apply IH|]. apply Forall_forall. intros x Hx.
    apply elem_of_keys_add in Hx as [->|Hx]; [done|]. by eapply Forall_forall in Hf. }
  assert (Hhead : (∃ i, array_index k = Some i ∧
      match array_index k1 with Some j => i < j | None => True end) →
    StronglySorted key_before (k :: k1 :: obj_keys o)).
  { intros (i & Hi & Hj). constructor; [by constructor|]. apply Forall_forall. intros x Hx.
    assert (Hxk : k ≠ x) by set_solver. split; [done|]. rewrite Hi.
    apply elem_of_cons in Hx as [->|Hx]; [by destruct (array_index k1)|].
    rewrite Forall_forall in Hf. destruct (Hf x Hx) as [_ Hb].
    destruct (array_index k1), (array_index x); try done. lia. }
  simpl. destruct (array_index k) as [i|] eqn:Ei, (array_index k1) as [j|] eqn:Ej.
  - destruct (Z.ltb_spec i j); [apply Hhead; eauto|]. apply Hcons. split; [done|].
    rewrite Ei, Ej. assert (i ≠ j); [|lia]. intros ->.
    apply array_index_dec in Ei as ->. by apply array_index_dec in Ej as ->.
  - apply Hhead. eauto.
  - apply Hcons. split; [done|]. by rewrite Ei, Ej.
  - apply Hcons. split; [done|]. by rewrite Ei, Ej.
Qed.

Lemma obj_ok_set o k v : obj_ok o → obj_ok (obj_set o k v).
Proof.
  intros Ho. unfold obj_set. destruct (obj_has o k) eqn:E.
  - unfold obj_ok. by rewrite obj_keys_update.
  - apply obj_ok_add; [done|]. unfold obj_has in E. boolify.
    by apply obj_get_keys, eq_None_not_Some.
Qed.

Lemma obj_ok_extend o p : obj_ok o → obj_ok (obj_extend o p).
Proof.
  revert o. induction p as [|[k v] p IH]; simpl; intros o Ho; [done|].
  unfold obj_extend in *; simpl. by apply IH, obj_ok_set.
Qed.

Lemma obj_ok_nil : obj_ok [].
Proof. constructor. Qed.

Lemma obj_ok_of_entries p : obj_ok (obj_of_entries p).
Proof. apply obj_ok_extend, obj_ok_nil. Qed.

(** A key that comes after all others is appended. *)
Lemma obj_add_last o k v :
  Forall (λ k', key_before k' k) (obj_keys o) → obj_add o k v = o ++ [(k, v)].
Proof.
  unfold obj_keys. induction o as [|[k1 v1] o IH]; simpl; [done|].
  rewrite list.Forall_cons. intros [[Hne H1] Ho]. rewrite IH by done.
  destruct (array_index k) as [i|] eqn:Ei, (array_index k1) as [j|] eqn:Ej; try done.
  destruct (Z.ltb_spec i j); [lia|done].
Qed.

Lemma obj_extend_sorted o p :
  obj_ok (o ++ p) → obj_extend o p = o ++ p.
Proof.
  revert o. induction p as [|[k v] p IH]; intros o Ho; simpl; [by rewrite app_nil_r|].
  unfold obj_extend in *; simpl.
  assert (Hlast : Forall (λ k', key_before k' k) (obj_keys o)).
  { unfold obj_ok in Ho. unfold obj_keys in *. rewrite map_app in Ho.
    clear IH. induction (map fst o) as [|k1 ks IHk]; [constructor|].
    simpl in Ho. apply StronglySorted_inv in Ho as [Ho Hf].
    constructor; [|by apply IHk]. rewrite Forall_forall in Hf. apply Hf. set_solver. }
  assert (Hset : obj_set o k v = o ++ [(k, v)]).
  { unfold obj_set. rewrite <- obj_add_last by done.
    destruct (obj_has o k) eqn:E; [|done]. unfold obj_has in E. boolify.
    exfalso. destruct (obj_get_keys o k) as [_ Hn].
    rewrite Hn in E; [by destruct E|]. intros Hin.
    rewrite Forall_forall in Hlast. by destruct (Hlast k Hin). }
  rewrite Hset, IH; [by rewrite <- app_assoc|]. by rewrite <- app_assoc.
Qed.

(** Rebuilding an object from its entries gives the object back. *)
Lemma obj_of_entries_id o : obj_ok o → obj_of_entries o = o.
Proof. intros. by apply (obj_extend_sorted []). Qed.

Lemma obj_get_elem o k v : obj_ok o → (k, v) ∈ o → obj_get o k = Some v.
Proof.
  unfold obj_ok, obj_keys. induction o as [|[k1 v1] o IH]; simpl; intros Ho Hin; [set_solver|].
  apply StronglySorted_inv in Ho as [Ho Hf]. apply elem_of_cons in Hin as [[= -> ->]|Hin].
  - by rewrite bool_decide_eq_true_2.
  - rewrite bool_decide_eq_false_2; [by apply IH|]. intros ->.
    rewrite Forall_forall in Hf. destruct (Hf k) as [? _]; [|done].
    apply list_elem_of_fmap. by exists (k, v).
Qed.

#[export] Hint Resolve obj_ok_nil obj_ok_set obj_ok_extend obj_ok_of_entries : js.

Lemma obj_ok_NoDup o : obj_ok o → NoDup (obj_keys o).
Proof.
  unfold obj_ok. induction 1 as [|k ks HS IH HF]; constructor; [|done]. intros Hin.
  rewrite list.Forall_forall in HF. by destruct (HF k Hin) as [Hn _].
Qed.

(** Spreading an object over another *)
Lemma obj_get_extend_ok o p k :
  obj_ok p → obj_get (obj_extend o p) k = match obj_get p k with Some v => Some v | None => obj_get o k end.
Proof.
  unfold obj_ok, obj_keys. revert o. induction p as [|[k1 v1] p IH]; intros o Hp; [done|].
  apply StronglySorted_inv in Hp as [Hp Hf]. unfold obj_extend in *. cbn [fold_left fst snd obj_get].
  rewrite IH, obj_get_set by done. destruct (decide (k1 = k)) as [->|Hne].
  - rewrite bool_decide_eq_true_2 by done. destruct (obj_get p k) eqn:E; [|done].
    assert (k ∈ obj_keys p) as Hk by (apply dec_stable; intros Hn; apply obj_get_keys in Hn; congruence).
    rewrite Forall_forall in Hf. by destruct (Hf k Hk).
  - rewrite bool_decide_eq_false_2 by done. by destruct (obj_get p k).
Qed.

Lemma obj_get_In o k v : obj_get o k = Some v → (k, v) ∈ o.
Proof.
  induction o as [|[k' v'] o IH]; simpl; [done|]. case_bool_decide; [intros [= ->]; subst; constructor|].
  intros Hin%IH. by constructor.
Qed.

(** Deleting. *)
Lemma obj_get_del_ne o k k' : k ≠ k' → obj_get (obj_del o k) k' = obj_get o k'.
Proof.
  intros Hk. induction o as [|[k1 v1] o IH]; simpl; [done|].
  case_bool_decide; simpl; [subst; by rewrite bool_decide_false|]. by rewrite IH.
Qed.

Lemma obj_get_del o k : obj_ok o → obj_get (obj_del o k) k = None.
Proof.
  unfold obj_ok, obj_keys. induction o as [|[k1 v1] o IH]; simpl; [done|].
  intros [Ho Hf]%StronglySorted_inv. case_bool_decide as E; simpl.
  - subst. apply obj_get_keys. intros Hin. rewrite Forall_forall in Hf. by destruct (Hf k Hin).
  - rewrite bool_decide_false by done. by apply IH.
Qed.

Lemma obj_del_Forall (P : jstr * val → Prop) o k : Forall P o → Forall P (obj_del o k).
Proof. induction 1 as [|[k' v] o Hx Ho IH]; simpl; [constructor|]. case_bool_decide; [done|by constructor]. Qed.

Lemma obj_ok_del o k : obj_ok o → obj_ok (obj_del o k).
Proof.
  unfold obj_ok, obj_keys. induction o as [|[k1 v1] o IH]; simpl; [done|].
  intros [Ho Hf]%StronglySorted_inv. case_bool_decide; [done|]. simpl. constructor; [by apply IH|].
  rewrite !Forall_map in *. by apply obj_del_Forall.
Qed.
