(* ===== verification/Json.v ===== *)
(** * [JSON.parse] and [JSON.stringify]

    The parser follows the JSON grammar of ECMA-262 (25.5.1) on code units;
    the serializer is SerializeJSONProperty with the two forms the application
    uses, [JSON.stringify(v)] (empty gap) and [JSON.stringify(v, null, 2)].
    The main results are that the parser never runs out of fuel
    ([parse_value_fuel]), that its results are well formed
    ([JSON_parse_wf]), and that it inverts the serializer on well-formed
    data ([JSON_parse_stringify]). *)

From S2P Require Import Prelude JsString JsNumber JsValue.

Local Open Scope Z_scope.

(** ** Serializer *)

Definition hex_digit (n : Z) : Z := if n <? 10 then 48 + n else 87 + n.
Definition unicode_escape (c : Z) : jstr :=
  [92; 117; hex_digit (c / 4096); hex_digit (c / 256 mod 16);
   hex_digit (c / 16 mod 16); hex_digit (c mod 16)].

Definition is_high (c : Z) : bool := (55296 <=? c) && (c <=? 56319).
Definition is_low (c : Z) : bool := (56320 <=? c) && (c <=? 57343).

Definition quote_unit (c : Z) : jstr :=
  if c =? 8 then [92; 98]
  else if c =? 9 then [92; 116]
  else if c =? 10 then [92; 110]
  else if c =? 12 then [92; 102]
  else if c =? 13 then [92; 114]
  else if c =? 34 then [92; 34]
  else if c =? 92 then [92; 92]
  else if c <? 32 then unicode_escape c
  else [c].

(** QuoteJSONString without the quotes: lone surrogates are escaped. *)
Fixpoint quote_body (s : jstr) : jstr :=
  match s with
  | [] => []
  | c :: s' =>
    if is_high c then
      match s' with
      | d :: s'' => if is_low d then c :: d :: quote_body s''
                    else unicode_escape c ++ quote_body s'
      | [] => unicode_escape c
      end
    else if is_low c then unicode_escape c ++ quote_body s'
    else quote_unit c ++ quote_body s'
  end.
Definition quote (s : jstr) : jstr := 34 :: quote_body s ++ [34].

(** The elements [parts] between brackets, one per line when [gap] is not
    empty. *)
Definition bracket (opn cls : Z) (gap ind : jstr) (parts : list jstr) : jstr :=
  match parts with
  | [] => [opn; cls]
  | _ =>
    if gap =s [] then opn :: join [44] parts ++ [cls]
    else opn :: 10 :: (ind ++ gap) ++ join (44 :: 10 :: ind ++ gap) parts ++ 10 :: ind ++ [cls]
  end.

(** [None] stands for [undefined]. *)
Fixpoint ser (gap ind : jstr) (v : val) : option jstr :=
  match v with
  | VUndef | VFun _ => None
  | VNull => Some (u "null")
  | VBool b => Some (if b then u "true" else u "false")
  | VNum n => Some (if isFinite n then num_to_string n else u "null")
  | VStr s => Some (quote s)
  | VArr l =>
    Some (bracket 91 93 gap ind
      (map (λ x, default (u "null") (ser gap (ind ++ gap) x)) l))
  | VObj o =>
    Some (bracket 123 125 gap ind
      (flat_map (λ kv, match ser gap (ind ++ gap) kv.2 with
                       | Some t => [quote kv.1 ++ 58 :: (if gap =s [] then [] else [32]) ++ t]
                       | None => []
                       end) o))
  end.

Definition indent2 : jstr := [32; 32].

(** [JSON.stringify(v)] and [JSON.stringify(v, null, 2)] *)
Definition stringify (v : val) : option jstr := ser [] [] v.
Definition stringify2 (v : val) : option jstr := ser indent2 [] v.

(** The text of a value that is not [undefined] or a function. *)
Definition stringify_text (v : val) : jstr := default [] (stringify v).
Definition stringify2_text (v : val) : jstr := default [] (stringify2 v).

(** ** Parser *)

Inductive presult A :=
| POk (a : A) (rest : jstr)
| PErr
| PFuel.
Arguments POk {A} a rest.
Arguments PErr {A}.
Arguments PFuel {A}.

Definition pbind {A B} (r : presult A) (f : A → jstr → presult B) : presult B :=
  match r with POk a rest => f a rest | PErr => PErr | PFuel => PFuel end.

Definition is_json_ws (c : Z) : bool := (c =? 9) || (c =? 10) || (c =? 13) || (c =? 32).
Fixpoint skip_ws (s : jstr) : jstr :=
  match s with
  | c :: s' => if is_json_ws c then skip_ws s' else s
  | [] => []
  end.

Definition hex_val (c : Z) : option Z := radix_digit 16 c.
Definition hex4 (a b c d : Z) : option Z :=
  match hex_val a, hex_val b, hex_val c, hex_val d with
  | Some a, Some b, Some c, Some d => Some (a * 4096 + b * 256 + c * 16 + d)
  | _, _, _, _ => None
  end.

Definition simple_escape (c : Z) : option Z :=
  if c =? 34 then Some 34 else if c =? 92 then Some 92 else if c =? 47 then Some 47
  else if c =? 98 then Some 8 else if c =? 102 then Some 12 else if c =? 110 then Some 10
  else if c =? 114 then Some 13 else if c =? 116 then Some 9 else None.

Definition pcons (c : Z) (r : presult jstr) : presult jstr :=
  pbind r (λ s rest, POk (c :: s) rest).

(** The rest of a string literal, after the opening quote. *)
Fixpoint parse_string (s : jstr) : presult jstr :=
  match s with
  | [] => PErr
  | c :: s1 =>
    if c =? 34 then POk [] s1
    else if c =? 92 then
      match s1 with
      | e :: s2 =>
        if e =? 117 then
          match s2 with
          | h1 :: h2 :: h3 :: h4 :: s3 =>
            match hex4 h1 h2 h3 h4 with
            | Some c => pcons c (parse_string s3)
            | None => PErr
            end
          | _ => PErr
          end
        else match simple_escape e with
             | Some c => pcons c (parse_string s2)
             | None => PErr
             end
      | [] => PErr
      end
    else if c <? 32 then PErr
    else pcons c (parse_string s1)
  end.

(** A JSON number: no superfluous zeros, digits on both sides of the point. *)
Definition parse_number (s : jstr) : presult val :=
  let neg := starts_with [45] s in
  let t := if neg then drop 1 s else s in
  let '(i, r) := take_digits t in
  let '(f, r') := take_frac r in
  if seqb i [] then PErr
  else if starts_with [48] i && negb (seqb i [48]) then PErr
  else if starts_with [46] r && seqb f [] then PErr
  else
    let m := dval (i ++ f) in
    let k := Z.of_nat (length f) in
    match take_exp r' with
    | Some (e, r'') => POk (VNum (dec_to_num neg m (e - k))) r''
    | None => if starts_with [101] r' || starts_with [69] r' then PErr
              else POk (VNum (dec_to_num neg m (- k))) r'
    end.

Definition parse_literal (lit : jstr) (v : val) (s : jstr) : presult val :=
  if starts_with lit s then POk v (drop (length lit) s) else PErr.

(** A value, given the parsers of the elements of an array (after [\[] or
    [,]) and of the members of an object (after [{] or [,]). *)
Definition value_step (elems : jstr → presult (list val))
    (members : jstr → presult (list (jstr * val))) (s : jstr) : presult val :=
  match skip_ws s with
  | [] => PErr
  | c :: r =>
    if c =? 123 then
      match skip_ws r with
      | d :: r' => if d =? 125 then POk (VObj []) r'
                   else pbind (members r) (λ o r, POk (VObj (obj_of_entries o)) r)
      | [] => PErr
      end
    else if c =? 91 then
      match skip_ws r with
      | d :: r' => if d =? 93 then POk (VArr []) r'
                   else pbind (elems r) (λ l r, POk (VArr l) r)
      | [] => PErr
      end
    else if c =? 34 then pbind (parse_string r) (λ s r, POk (VStr s) r)
    else if c =? 116 then parse_literal (u "true") (VBool true) (c :: r)
    else if c =? 102 then parse_literal (u "false") (VBool false) (c :: r)
    else if c =? 110 then parse_literal (u "null") VNull (c :: r)
    else parse_number (c :: r)
  end.

(** After an element or a member: [,] and more of them, or the closing
    bracket. *)
Definition list_step {A} (cls : Z) (more : jstr → presult (list A)) (x : A) (s : jstr)
    : presult (list A) :=
  match skip_ws s with
  | c :: r => if c =? 44 then pbind (more r) (λ l r, POk (x :: l) r)
              else if c =? cls then POk [x] r else PErr
  | [] => PErr
  end.

Definition member_step (value : jstr → presult val)
    (more : jstr → presult (list (jstr * val))) (s : jstr) : presult (list (jstr * val)) :=
  match skip_ws s with
  | q :: r =>
    if q =? 34 then
      pbind (parse_string r) (λ k r,
        match skip_ws r with
        | c :: r => if c =? 58 then pbind (value r) (λ v r, list_step 125 more (k, v) r) else PErr
        | [] => PErr
        end)
    else PErr
  | [] => PErr
  end.

Fixpoint parse_value (fuel : nat) (s : jstr) : presult val :=
  match fuel with
  | O => PFuel
  | S fuel => value_step (parse_elems fuel) (parse_members fuel) s
  end
with parse_elems (fuel : nat) (s : jstr) : presult (list val) :=
  match fuel with
  | O => PFuel
  | S fuel => pbind (parse_value fuel s) (λ v r, list_step 93 (parse_elems fuel) v r)
  end
with parse_members (fuel : nat) (s : jstr) : presult (list (jstr * val)) :=
  match fuel with
  | O => PFuel
  | S fuel => member_step (parse_value fuel) (parse_members fuel) s
  end.

Definition parse_fuel (s : jstr) : nat := 2 * length s + 1.

Definition JSON_parse (s : jstr) : res val :=
  match parse_value (parse_fuel s) s with
  | POk v r => if skip_ws r =s [] then Ok v else Throw SyntaxError
  | PErr | PFuel => Throw SyntaxError
  end.

(** ** Fuel: more of it changes nothing, and [parse_fuel] is enough *)

Lemma pbind_mono {A B} (r r' : presult A) (f f' : A → jstr → presult B) :
  (r ≠ PFuel → r' = r) →
  (∀ a t, r = POk a t → f a t ≠ PFuel → f' a t = f a t) →
  pbind r f ≠ PFuel → pbind r' f' = pbind r f.
Proof.
  intros Hr Hf H. destruct r as [a t| |]; simpl in *; [..|done];
    rewrite Hr by done; [|done]. by apply Hf.
Qed.

(** [p'] gives the same answer as [p] wherever [p] has fuel enough. *)
Definition refines {A} (p p' : jstr → presult A) : Prop := ∀ s, p s ≠ PFuel → p' s = p s.

Lemma list_step_refines {A} cls (more more' : jstr → presult (list A)) x :
  refines more more' → refines (list_step cls more x) (list_step cls more' x).
Proof.
  intros Hm s. unfold list_step. destruct (skip_ws s) as [|c r]; [done|].
  destruct (c =? 44); [|done]. apply pbind_mono; auto.
Qed.

Lemma member_step_refines value value' more more' :
  refines value value' → refines more more' →
  refines (member_step value more) (member_step value' more').
Proof.
  intros Hv Hm s. unfold member_step. destruct (skip_ws s) as [|q r]; [done|].
  destruct (q =? 34); [|done]. apply pbind_mono; [done|intros k t _].
  destruct (skip_ws t) as [|c r1]; [done|]. destruct (c =? 58); [|done].
  apply pbind_mono; [auto|intros v t2 _]. by apply list_step_refines.
Qed.

Lemma value_step_refines elems elems' members members' :
  refines elems elems' → refines members members' →
  refines (value_step elems members) (value_step elems' members').
Proof.
  intros He Hm s. unfold value_step. destruct (skip_ws s) as [|c r]; [done|].
  destruct (c =? 123); [|destruct (c =? 91); [|done]];
    (destruct (skip_ws r) as [|d r']; [done|]; destruct (d =? _); [done|]);
    apply pbind_mono; auto.
Qed.

Lemma parse_mono_step f :
  refines (parse_value f) (parse_value (S f)) ∧
  refines (parse_elems f) (parse_elems (S f)) ∧
  refines (parse_members f) (parse_members (S f)).
Proof.
  induction f as [|f (IHv & IHe & IHm)]; [by split_and!; intros s H; destruct H|]. split_and!.
  - by apply (value_step_refines (parse_elems f) (parse_elems (S f))).
  - intros s. apply pbind_mono; [apply IHv|]. intros v t _. by apply list_step_refines.
  - by apply (member_step_refines (parse_value f) (parse_value (S f))).
Qed.

Lemma parse_value_mono f f' s :
  (f ≤ f')%nat → parse_value f s ≠ PFuel → parse_value f' s = parse_value f s.
Proof.
  induction 1 as [|f' Hf IH]; [done|]. intros H. rewrite <- (IH H).
  apply parse_mono_step. by rewrite IH.
Qed.

Lemma parse_elems_mono f f' s :
  (f ≤ f')%nat → parse_elems f s ≠ PFuel → parse_elems f' s = parse_elems f s.
Proof.
  induction 1 as [|f' Hf IH]; [done|]. intros H. rewrite <- (IH H).
  apply parse_mono_step. by rewrite IH.
Qed.

Lemma parse_members_mono f f' s :
  (f ≤ f')%nat → parse_members f s ≠ PFuel → parse_members f' s = parse_members f s.
Proof.
  induction 1 as [|f' Hf IH]; [done|]. intros H. rewrite <- (IH H).
  apply parse_mono_step. by rewrite IH.
Qed.

Lemma skip_ws_length s : (length (skip_ws s) ≤ length s)%nat.
Proof. induction s as [|c s IH]; simpl; [done|]. destruct (is_json_ws c); simpl; lia. Qed.

Lemma skip_ws_cons s c r : skip_ws s = c :: r → (length r < length s)%nat.
Proof. intros H. pose proof (skip_ws_length s) as Hl. rewrite H in Hl. simpl in Hl. lia. Qed.

(** [r] uses up at least one unit of [s]; it never runs out of fuel. *)
Definition consumes {A} (r : presult A) (s : jstr) : Prop :=
  ∀ a t, r = POk a t → (length t < length s)%nat.

Definition total {A} (r : presult A) (s : jstr) : Prop := consumes r s ∧ r ≠ PFuel.

Lemma pbind_total {A B} (r : presult A) (f : A → jstr → presult B) s0 s :
  total r s0 → (∀ a t, (length t < length s0)%nat → total (f a t) s) → total (pbind r f) s.
Proof.
  intros [Hc Hf] H. destruct r as [a t| |]; simpl; [|by split; [intros ? ? ?|]|done].
  by apply H, (Hc a t).
Qed.

Lemma perr_consumes {A} s : total (@PErr A) s.
Proof. by split; [intros a t H|]. Qed.

Lemma pok_consumes {A} (a : A) t s :
  (length t < length s)%nat → total (POk a t) s.
Proof. intros H. split; [|done]. by intros a' t' [= _ <-]. Qed.

Lemma parse_string_consumes n s : (length s ≤ n)%nat → total (parse_string s) s.
Proof.
  revert s. induction n as [|n IH]; intros [|c s] Hn; simpl in Hn; try lia;
    try apply perr_consumes.
  assert (Hrec : ∀ d s', (length s' ≤ length s)%nat →
    total (pcons d (parse_string s')) (c :: s)).
  { intros d s' Hs. destruct (IH s' ltac:(lia)) as [Hc Hf]. unfold pcons.
    destruct (parse_string s') as [a t| |] eqn:E; simpl; [|apply perr_consumes|done].
    apply pok_consumes. specialize (Hc a t eq_refl). simpl. lia. }
  simpl. destruct (c =? 34); [apply pok_consumes; simpl; lia|].
  destruct (c =? 92).
  - destruct s as [|e s2]; [apply perr_consumes|]. destruct (e =? 117).
    + do 4 (destruct s2 as [|? s2]; [apply perr_consumes|]).
      destruct (hex4 _ _ _ _); [|apply perr_consumes]. apply Hrec. simpl; lia.
    + destruct (simple_escape e); [|apply perr_consumes]. apply Hrec. simpl; lia.
  - destruct (c <? 32); [apply perr_consumes|]. by apply Hrec.
Qed.

Lemma take_digits_length s i r : take_digits s = (i, r) → length s = (length i + length r)%nat.
Proof.
  revert i r. induction s as [|c s IH]; simpl; intros i r H; [by simplify_eq|].
  destruct (is_digit c); [|by simplify_eq]. destruct (take_digits s) as [d t] eqn:E.
  simplify_eq. simpl. by rewrite (IH _ _ eq_refl).
Qed.

Lemma take_frac_length s f r : take_frac s = (f, r) → (length r ≤ length s)%nat.
Proof.
  unfold take_frac. destruct s as [|c s]; [by intros [= <- <-]|].
  destruct (c =? 46); [|by intros [= <- <-]]. intros H%take_digits_length. simpl. lia.
Qed.

Lemma take_exp_length s e r : take_exp s = Some (e, r) → (length r ≤ length s)%nat.
Proof.
  unfold take_exp. destruct s as [|c s]; [done|]. destruct (_ || _); [|done].
  destruct (take_sign s) as [neg t] eqn:Es.
  assert (length t ≤ length s)%nat.
  { unfold take_sign in Es. destruct s as [|d s]; [by simplify_eq|].
    destruct (d =? 45), (d =? 43); simplify_eq; simpl; lia. }
  destruct (take_digits t) as [d t'] eqn:Et. apply take_digits_length in Et.
  destruct d; [done|]. intros [= _ <-]. simpl in *. lia.
Qed.

Lemma parse_number_consumes s : total (parse_number s) s.
Proof.
  unfold parse_number. set (t := if starts_with [45] s then drop 1 s else s).
  assert (Ht : (length t ≤ length s)%nat).
  { unfold t. destruct (starts_with [45] s); [rewrite length_drop; lia|done]. }
  destruct (take_digits t) as [i r] eqn:Ei. apply take_digits_length in Ei.
  destruct (take_frac r) as [f r'] eqn:Ef. apply take_frac_length in Ef.
  destruct (seqb i []) eqn:Hi; [apply perr_consumes|]. boolify.
  assert (0 < length i)%nat by (destruct i; [done|simpl; lia]).
  destruct (_ && _); [apply perr_consumes|]. destruct (_ && _); [apply perr_consumes|].
  destruct (take_exp r') as [[e r'']|] eqn:Ee.
  - apply take_exp_length in Ee. apply pok_consumes. lia.
  - destruct (_ || _); [apply perr_consumes|]. apply pok_consumes. lia.
Qed.

Lemma parse_literal_consumes l v s :
  l ≠ [] → total (parse_literal l v s) s.
Proof.
  intros Hl. unfold parse_literal. destruct (starts_with l s) eqn:E; [|apply perr_consumes].
  apply starts_with_spec in E as [r ->]. apply pok_consumes.
  rewrite length_drop, length_app. destruct l; [done|]. simpl. lia.
Qed.

Lemma total_weaken {A} (r : presult A) s s' :
  (length s ≤ length s')%nat → total r s → total r s'.
Proof. intros Hs [Hc Hf]. split; [|done]. intros a t Ha. specialize (Hc a t Ha). lia. Qed.

Lemma list_step_total {A} cls (more : jstr → presult (list A)) x s s' :
  (length s ≤ length s')%nat →
  (∀ r, (length r < length s)%nat → total (more r) r) →
  total (list_step cls more x s) s'.
Proof.
  intros Hs Hm. unfold list_step. destruct (skip_ws s) as [|c r] eqn:E; [apply perr_consumes|].
  apply skip_ws_cons in E. destruct (c =? 44).
  - eapply pbind_total; [by apply Hm|]. intros l t Ht. apply pok_consumes. lia.
  - destruct (c =? cls); [|apply perr_consumes]. apply pok_consumes. lia.
Qed.

Lemma member_step_total value more s :
  (∀ r, (length r < length s)%nat → total (value r) r) →
  (∀ r, (length r < length s)%nat → total (more r) r) →
  total (member_step value more s) s.
Proof.
  intros Hv Hm. unfold member_step. destruct (skip_ws s) as [|q r] eqn:E; [apply perr_consumes|].
  apply skip_ws_cons in E. destruct (q =? 34); [|apply perr_consumes].
  eapply pbind_total; [by apply (parse_string_consumes (length r))|]. intros k t Ht.
  destruct (skip_ws t) as [|c r1] eqn:E1; [apply perr_consumes|]. apply skip_ws_cons in E1.
  destruct (c =? 58); [|apply perr_consumes].
  eapply pbind_total; [apply Hv; lia|]. intros v t2 Ht2.
  apply list_step_total; [lia|]. intros r' Hr'. apply Hm. lia.
Qed.

Lemma value_step_total elems members s :
  (∀ r, (length r < length s)%nat → total (elems r) r) →
  (∀ r, (length r < length s)%nat → total (members r) r) →
  total (value_step elems members s) s.
Proof.
  intros He Hm. unfold value_step. destruct (skip_ws s) as [|c r] eqn:E; [apply perr_consumes|].
  assert (Hle : (length (c :: r) ≤ length s)%nat) by (rewrite <- E; apply skip_ws_length).
  simpl in Hle.
  destruct (c =? 123); [|destruct (c =? 91)].
  1,2: destruct (skip_ws r) as [|d r'] eqn:Er; [apply perr_consumes|]; apply skip_ws_cons in Er;
    destruct (d =? _); [apply pok_consumes; lia|].
  - eapply pbind_total; [apply Hm; lia|]. intros. apply pok_consumes. lia.
  - eapply pbind_total; [apply He; lia|]. intros. apply pok_consumes. lia.
  - destruct (c =? 34).
    { eapply pbind_total; [by apply (parse_string_consumes (length r))|].
      intros. apply pok_consumes. lia. }
    apply (total_weaken _ (c :: r)); [simpl; lia|].
    destruct (c =? 116); [by apply parse_literal_consumes|].
    destruct (c =? 102); [by apply parse_literal_consumes|].
    destruct (c =? 110); [by apply parse_literal_consumes|apply parse_number_consumes].
Qed.

(** The parser always answers within the fuel [JSON_parse] gives it. *)
Lemma parse_total f :
  (∀ s, (2 * length s + 1 ≤ f)%nat → total (parse_value f s) s) ∧
  (∀ s, (2 * length s + 2 ≤ f)%nat → total (parse_elems f s) s) ∧
  (∀ s, (2 * length s + 1 ≤ f)%nat → total (parse_members f s) s).
Proof.
  induction f as [|f (IHv & IHe & IHm)]; [split_and!; intros; lia|]. split_and!; intros s Hs.
  - apply value_step_total; intros r Hr; [apply IHe|apply IHm]; lia.
  - apply (pbind_total _ _ s); [apply IHv; lia|]. intros v t Ht.
    apply list_step_total; [lia|]. intros r Hr. apply IHe. lia.
  - apply member_step_total; intros r Hr; [apply IHv|apply IHm]; lia.
Qed.

Lemma parse_value_fuel s : parse_value (parse_fuel s) s ≠ PFuel.
Proof. apply parse_total. done. Qed.

(** Any amount of fuel that gives an answer gives the answer of [JSON_parse]. *)
Lemma JSON_parse_any f s v :
  parse_value f s = POk v [] → JSON_parse s = Ok v.
Proof.
  intros H. unfold JSON_parse.
  assert (Hp : parse_value (parse_fuel s) s = POk v []).
  { destruct (Nat.le_ge_cases f (parse_fuel s)) as [Hf|Hf].
    - rewrite <- H. apply parse_value_mono; [done|]. by rewrite H.
    - rewrite <- (parse_value_mono _ _ _ Hf (parse_value_fuel s)). done. }
  by rewrite Hp.
Qed.

(** ** Parsing what the serializer writes *)

Lemma hex_val_digit n : 0 ≤ n < 16 → hex_val (hex_digit n) = Some n.
Proof.
  intros Hn. unfold hex_val, hex_digit, radix_digit, is_digit. destruct (Z.ltb_spec n 10).
  - destruct (Z.leb_spec 48 (48 + n)); [|lia]. destruct (Z.leb_spec (48 + n) 57); [|lia]. simpl.
    destruct (Z.ltb_spec (48 + n - 48) 16); [|lia]. f_equal. lia.
  - destruct (Z.leb_spec 48 (87 + n)); [|lia]. destruct (Z.leb_spec (87 + n) 57); [lia|]. simpl.
    destruct (Z.leb_spec 97 (87 + n)); [|lia]. destruct (Z.leb_spec (87 + n) 102); [|lia]. simpl.
    destruct (Z.ltb_spec (87 + n - 87) 16); [|lia]. f_equal. lia.
Qed.

Lemma hex4_escape c :
  is_unit c →
  hex4 (hex_digit (c / 4096)) (hex_digit (c / 256 mod 16)) (hex_digit (c / 16 mod 16))
    (hex_digit (c mod 16)) = Some c.
Proof.
  unfold is_unit. intros Hc. unfold hex4.
  pose proof (Z.mod_pos_bound (c / 256) 16 ltac:(lia)).
  pose proof (Z.mod_pos_bound (c / 16) 16 ltac:(lia)).
  pose proof (Z.mod_pos_bound c 16 ltac:(lia)).
  assert (0 ≤ c / 4096 < 16) by (split; [apply Z.div_pos; lia|apply Z.div_lt_upper_bound; lia]).
  rewrite !hex_val_digit by done. f_equal.
  pose proof (Z.div_mod c 16 ltac:(lia)). pose proof (Z.div_mod (c / 16) 16 ltac:(lia)).
  pose proof (Z.div_mod (c / 256) 16 ltac:(lia)).
  assert (c / 16 / 16 = c / 256) by (by rewrite Z.div_div by lia).
  assert (c / 256 / 16 = c / 4096) by (by rewrite Z.div_div by lia).
  lia.
Qed.

Lemma parse_unicode_escape c s :
  is_unit c → parse_string (unicode_escape c ++ s) = pcons c (parse_string s).
Proof.
  intros Hc. unfold unicode_escape.
  cbn -[hex_digit hex4 Z.div Z.modulo]. by rewrite (hex4_escape c Hc).
Qed.

Lemma parse_raw_unit c s :
  32 ≤ c → c ≠ 34 → c ≠ 92 → parse_string (c :: s) = pcons c (parse_string s).
Proof.
  intros Hc H1 H2. simpl. destruct (Z.eqb_spec c 34); [done|]. destruct (Z.eqb_spec c 92); [done|].
  destruct (Z.ltb_spec c 32); [lia|done].
Qed.

Lemma parse_quote_unit c s :
  is_unit c → parse_string (quote_unit c ++ s) = pcons c (parse_string s).
Proof.
  intros Hc. unfold quote_unit.
  repeat match goal with |- context [c =? ?k] => destruct (Z.eqb_spec c k) as [->|]; [done|] end.
  destruct (Z.ltb_spec c 32); [by apply parse_unicode_escape|]. by apply parse_raw_unit.
Qed.

Lemma parse_quote_body n s r :
  (length s ≤ n)%nat → jstr_wf s → parse_string (quote_body s ++ 34 :: r) = POk s r.
Proof.
  revert s. induction n as [|n IH]; intros [|c s] Hn Hs; simpl in Hn; try lia; try done.
  apply list.Forall_cons in Hs as [Hc Hs]. cbn [quote_body].
  assert (Hrest : pcons c (parse_string (quote_body s ++ 34 :: r)) = POk (c :: s) r).
  { by rewrite IH by (done || lia). }
  destruct (is_high c) eqn:Eh; [|destruct (is_low c)].
  - destruct s as [|d s''].
    + by rewrite parse_unicode_escape.
    + destruct (is_low d) eqn:El.
      * apply list.Forall_cons in Hs as [Hd Hs]. unfold is_high, is_low in *. boolify.
        simpl app. rewrite !parse_raw_unit by lia.
        rewrite IH; [done|simpl in Hn; lia|done].
      * by rewrite <- app_assoc, parse_unicode_escape.
  - by rewrite <- app_assoc, parse_unicode_escape.
  - by rewrite <- app_assoc, parse_quote_unit.
Qed.

Lemma parse_quote s r :
  jstr_wf s → parse_string (quote_body s ++ 34 :: r) = POk s r.
Proof. intros. by eapply parse_quote_body. Qed.

Lemma starts_with_unit c d s : starts_with [c] (d :: s) = (c =? d).
Proof. simpl. by rewrite andb_true_r. Qed.

Lemma take_exp_none_head ex E r :
  exp_shape ex E → num_end r → seqb ex [] = true →
  starts_with [101] (ex ++ r) || starts_with [69] (ex ++ r) = false.
Proof.
  intros Hex Hr H. boolify. subst ex. rewrite app_nil_l. destruct r as [|c t]; [done|].
  destruct (Hr c t eq_refl) as (_ & _ & H1 & H2). rewrite !starts_with_unit.
  destruct (Z.eqb_spec 101 c), (Z.eqb_spec 69 c); first [done|congruence].
Qed.

Lemma parse_number_shape (neg : bool) s p i f ex E r :
  dec_shape s p i f ex E → num_end r →
  parse_number (((if neg then [45] else []) ++ (i ++ frac_text f ++ ex)) ++ r) =
  POk (VNum (dec_to_num neg (dval (i ++ f)) (E - Z.of_nat (length f)))) r.
Proof.
  intros [Hi Hf Hne Hlead Hex _] Hr. unfold parse_number.
  assert (Hneg : starts_with [45] (((if neg then [45] else []) ++ i ++ frac_text f ++ ex) ++ r) = neg).
  { destruct neg; [done|]. destruct i as [|c i]; [done|].
    apply list.Forall_cons in Hi as [Hc%is_digit_spec _]. cbn -[Z.eqb].
    destruct (Z.eqb_spec 45 c); [lia|done]. }
  rewrite Hneg.
  assert (Ht : (if neg then drop 1 (((if neg then [45] else []) ++ i ++ frac_text f ++ ex) ++ r)
    else ((if neg then [45] else []) ++ i ++ frac_text f ++ ex) ++ r)
    = i ++ frac_text f ++ ex ++ r).
  { by destruct neg; simpl; rewrite <- ?app_assoc. }
  rewrite Ht. pose proof (exp_shape_no_digit ex E r Hex Hr) as Hnd.
  rewrite take_digits_app; [|done|].
  2: { destruct f as [|c f]; [done|]. by intros c' t [= <- _]. }
  rewrite (take_frac_shape f ex E r Hf Hex Hr).
  rewrite bool_decide_eq_false_2 by done.
  assert (Hz : starts_with [48] i && negb (seqb i [48]) = false).
  { destruct i as [|c i]; [done|]. rewrite starts_with_unit. destruct (Z.eqb_spec 48 c) as [<-|]; [|done].
    by rewrite (Hlead i eq_refl). }
  rewrite Hz.
  assert (Hdot : starts_with [46] (frac_text f ++ ex ++ r) && seqb f [] = false).
  { destruct f as [|c f]; [|by rewrite andb_false_r]. simpl app.
    destruct (ex ++ r) as [|c t] eqn:Eer; [done|]. rewrite starts_with_unit.
    destruct (Z.eqb_spec 46 c) as [<-|]; [|done]. exfalso.
    destruct Hex as [[-> _]|(n & -> & _)]; [|done]. simpl in Eer.
    by destruct (Hr 46 t Eer) as (_ & ? & _). }
  rewrite Hdot, (take_exp_shape ex E r Hex Hr). destruct (seqb ex []) eqn:Eex; [|done].
  rewrite (take_exp_none_head ex E r Hex Hr Eex). boolify. subst ex.
  destruct Hex as [[_ ->]|(n & ? & _)]; done.
Qed.

Lemma parse_number_print x r :
  num_wf x → isFinite x = true → neg_zero x = false → num_end r →
  parse_number (num_to_string x ++ r) = POk (VNum x) r.
Proof.
  intros Hwf Hfin Hz Hr.
  destruct (num_to_string_shape x Hwf Hfin Hz) as (neg & i & f & ex & E & s & p & -> & Hs & Hx).
  rewrite (parse_number_shape neg s p) with (E := E) by done. by rewrite Hx.
Qed.

(** Well-formed data: canonical numbers, code units in range, object keys in
    enumeration order. *)
Inductive val_wf : val → Prop :=
| wf_undef : val_wf VUndef
| wf_null : val_wf VNull
| wf_bool b : val_wf (VBool b)
| wf_num n : num_wf n → val_wf (VNum n)
| wf_str s : jstr_wf s → val_wf (VStr s)
| wf_arr l : Forall val_wf l → val_wf (VArr l)
| wf_obj o : obj_ok o → Forall (λ kv, jstr_wf kv.1 ∧ val_wf kv.2) o → val_wf (VObj o)
| wf_fun f : val_wf (VFun f).

(** What survives serialization: [undefined] and functions vanish from objects
    and become [null] in arrays, numbers that JSON cannot write become [null],
    [-0] becomes [0]. *)
Definition unserializable (v : val) : bool :=
  match v with VUndef | VFun _ => true | _ => false end.

Fixpoint json_norm (v : val) : val :=
  match v with
  | VUndef | VFun _ => VNull
  | VNum n => if isFinite n then (if neg_zero n then VNum nzero else v) else VNull
  | VArr l => VArr (map json_norm l)
  | VObj o => VObj (flat_map (λ kv, if unserializable kv.2 then []
                                    else [(kv.1, json_norm kv.2)]) o)
  | _ => v
  end.

Definition all_ws (w : jstr) : Prop := Forall (λ c, is_json_ws c = true) w.

Lemma skip_ws_app w s : all_ws w → skip_ws (w ++ s) = skip_ws s.
Proof. induction 1 as [|c w Hc _ IH]; simpl; [done|]. by rewrite Hc. Qed.

Lemma value_step_ws elems members w s :
  all_ws w → value_step elems members (w ++ s) = value_step elems members s.
Proof. intros. unfold value_step. by rewrite skip_ws_app. Qed.

Lemma parse_value_ws f w s : all_ws w → parse_value f (w ++ s) = parse_value f s.
Proof. intros. destruct f; [done|]. by apply value_step_ws. Qed.

Lemma parse_members_ws f w s : all_ws w → parse_members f (w ++ s) = parse_members f s.
Proof. intros. destruct f; [done|]. simpl. unfold member_step. by rewrite skip_ws_app. Qed.

(** The text starts a value: not white space, not a closing bracket. *)
Definition value_head (t : jstr) : Prop :=
  ∃ c r, t = c :: r ∧ is_json_ws c = false ∧ c ≠ 93 ∧ c ≠ 125.

Lemma value_head_skip t r : value_head t → ∃ c r', skip_ws (t ++ r) = c :: r' ∧ c ≠ 93 ∧ c ≠ 125.
Proof. intros (c & r' & -> & Hc & H1 & H2). simpl. rewrite Hc. eauto. Qed.

Lemma num_end_punct c r : (c = 44 ∨ c = 93 ∨ c = 125 ∨ is_json_ws c = true) → num_end (c :: r).
Proof.
  intros Hc c' t [= <- _]. unfold is_json_ws in Hc.
  destruct Hc as [->|[->|[->|Hc]]]; [done..|].
  rewrite !orb_true_iff, !Z.eqb_eq in Hc. destruct Hc as [[[->| ->]| ->]| ->]; done.
Qed.

Lemma num_end_ws w c r : all_ws w → (c = 44 ∨ c = 93 ∨ c = 125) → num_end (w ++ c :: r).
Proof.
  intros Hw Hc. destruct Hw as [|d w Hd Hw]; apply num_end_punct; tauto.
Qed.

(** The parser [p] reads the text [t] as the value [x], whatever follows. *)
Definition reads {A} (p : nat → jstr → presult A) (t : jstr) (x : A) : Prop :=
  ∀ rest, num_end rest → ∃ f, p f (t ++ rest) = POk x rest.

Lemma parse_value_grow f f' s v r :
  (f ≤ f')%nat → parse_value f s = POk v r → parse_value f' s = POk v r.
Proof. intros Hf H. rewrite <- H. apply parse_value_mono; [done|]. by rewrite H. Qed.

(** Elements separated by [,] and white space, up to the closing bracket. *)
Lemma parse_elems_join w w2 ts vs :
  all_ws w → all_ws w2 → ts ≠ [] →
  Forall2 (reads parse_value) ts vs →
  ∀ rest, ∃ f, parse_elems f (w ++ join (44 :: w) ts ++ w2 ++ 93 :: rest) = POk vs rest.
Proof.
  intros Hw Hw2 Hne H rest. induction H as [|t v ts vs Ht Hts IH]; [done|].
  destruct Hts as [|t' v' ts vs Ht' Hts].
  - destruct (Ht (w2 ++ 93 :: rest)) as [f Hf]; [apply num_end_ws; auto|].
    exists (S f). simpl. rewrite parse_value_ws, Hf by done. simpl. unfold list_step.
    by rewrite skip_ws_app.
  - destruct (IH ltac:(done)) as [f1 Hf1].
    set (tail := w ++ join (44 :: w) (t' :: ts) ++ w2 ++ 93 :: rest) in *.
    destruct (Ht (44 :: tail)) as [f2 Hf2]; [apply num_end_punct; auto|].
    exists (S (f1 + f2)). apply (parse_value_grow f2 (f1 + f2)) in Hf2; [|lia].
    assert (He : parse_elems (f1 + f2) tail = POk (v' :: vs) rest).
    { rewrite <- Hf1. apply parse_elems_mono; [lia|]. by rewrite Hf1. }
    rewrite join_cons2, <- !app_assoc. cbn [parse_elems]. rewrite parse_value_ws by done.
    change ((44 :: w) ++ ?x) with (44 :: w ++ x). fold tail. rewrite Hf2. cbn [pbind].
    unfold list_step. simpl skip_ws. cbn [Z.eqb Pos.eqb]. by rewrite He.
Qed.

(** The member [k: t]. *)
Definition member_text (sp : jstr) (k t : jstr) : jstr := quote k ++ 58 :: sp ++ t.

Lemma member_step_text value more sp k t v rest f s :
  all_ws sp → jstr_wf k → value = parse_value f →
  parse_value f (t ++ rest) = POk v s →
  member_step value more (member_text sp k t ++ rest) = list_step 125 more (k, v) s.
Proof.
  intros Hsp Hk -> Hv. unfold member_step, member_text, quote.
  rewrite <- !app_comm_cons, <- !app_assoc. simpl skip_ws. cbn [Z.eqb Pos.eqb].
  rewrite parse_quote by done. cbn [pbind]. simpl app. simpl skip_ws. cbn [Z.eqb Pos.eqb].
  rewrite <- app_assoc, parse_value_ws, Hv by done. done.
Qed.

Lemma parse_members_join w w2 sp (ks ts : list jstr) vs :
  all_ws w → all_ws w2 → all_ws sp → ts ≠ [] →
  Forall2 (reads parse_value) ts vs → Forall jstr_wf ks → length ks = length ts →
  ∀ rest, ∃ f,
    parse_members f (w ++ join (44 :: w) (zip_with (member_text sp) ks ts) ++ w2 ++ 125 :: rest)
    = POk (zip ks vs) rest.
Proof.
  intros Hw Hw2 Hsp Hne H Hks Hlen rest. revert ks Hks Hlen.
  induction H as [|t v ts vs Ht Hts IH]; [done|]. intros [|k ks] Hks Hlen; [done|].
  injection Hlen as Hlen.
  apply list.Forall_cons in Hks as [Hk Hks].
  destruct Hts as [|t' v' ts vs Ht' Hts].
  - destruct ks; [|done]. destruct (Ht (w2 ++ 125 :: rest)) as [f Hf]; [apply num_end_ws; auto|].
    exists (S f). simpl zip_with. simpl join. rewrite parse_members_ws by done. cbn [parse_members].
    rewrite (member_step_text _ _ sp k t v _ f _ Hsp Hk eq_refl Hf). unfold list_step.
    by rewrite skip_ws_app.
  - destruct ks as [|k' ks]; [done|].
    destruct (IH ltac:(done) (k' :: ks) Hks ltac:(done)) as [f1 Hf1]. simpl zip_with in *.
    set (tail := w ++ join (44 :: w) (member_text sp k' t' :: zip_with (member_text sp) ks ts)
                   ++ w2 ++ 125 :: rest) in *.
    destruct (Ht (44 :: tail)) as [f2 Hf2]; [apply num_end_punct; auto|].
    exists (S (f1 + f2)).
    apply (parse_value_grow f2 (f1 + f2)) in Hf2; [|lia].
    assert (Hm : parse_members (f1 + f2) tail = POk ((k', v') :: zip ks vs) rest).
    { rewrite <- Hf1. apply parse_members_mono; [lia|]. by rewrite Hf1. }
    rewrite join_cons2, <- !app_assoc, parse_members_ws by done. cbn [parse_members].
    change ((44 :: w) ++ ?x) with (44 :: w ++ x). fold tail.
    rewrite (member_step_text _ _ sp k t v _ (f1 + f2) _ Hsp Hk eq_refl Hf2).
    unfold list_step. simpl skip_ws. cbn [Z.eqb Pos.eqb]. by rewrite Hm.
Qed.

Definition ser_text (gap ind : jstr) (v : val) : jstr := default (u "null") (ser gap ind v).

(** The properties an object keeps when it is serialized. *)
Definition kept (o : obj) : obj := List.filter (λ kv, negb (unserializable kv.2)) o.

Lemma ser_unserializable gap ind v : unserializable v = true → ser gap ind v = None.
Proof. by destruct v. Qed.

Lemma ser_serializable gap ind v :
  unserializable v = false → ser gap ind v = Some (ser_text gap ind v).
Proof. unfold ser_text. by destruct v. Qed.

Lemma json_norm_obj o :
  json_norm (VObj o) = VObj (map (λ kv, (kv.1, json_norm kv.2)) (kept o)).
Proof.
  simpl. f_equal. unfold kept. induction o as [|[k v] o IH]; simpl; [done|].
  destruct (unserializable v); simpl; by rewrite IH.
Qed.

Lemma ser_obj gap ind o :
  let sp := if gap =s [] then [] else [32] in
  ser gap ind (VObj o) =
  Some (bracket 123 125 gap ind
    (map (λ kv, member_text sp kv.1 (ser_text gap (ind ++ gap) kv.2)) (kept o))).
Proof.
  intros sp. simpl. do 2 f_equal. unfold kept. induction o as [|[k v] o IH]; simpl; [done|].
  destruct (unserializable v) eqn:E; simpl.
  - by rewrite ser_unserializable.
  - rewrite ser_serializable by done. simpl. by rewrite IH.
Qed.

Lemma kept_elem kv o : kv ∈ kept o → kv ∈ o.
Proof. unfold kept. rewrite !list_elem_of_In, List.filter_In. tauto. Qed.

Lemma kept_ok o : obj_ok o → obj_ok (map (λ kv, (kv.1, json_norm kv.2)) (kept o)).
Proof.
  unfold obj_ok, obj_keys. rewrite map_map. simpl.
  induction o as [|[k v] o IH]; simpl; [constructor|]. intros [Ho Hf]%StronglySorted_inv.
  destruct (unserializable v); simpl; [by apply IH|]. constructor; [by apply IH|].
  apply Forall_forall. intros k' Hk'. rewrite Forall_forall in Hf. apply Hf.
  apply list_elem_of_fmap in Hk' as (kv & -> & Hin). apply list_elem_of_fmap.
  exists kv. split; [done|]. by apply kept_elem.
Qed.

Lemma bracket_ws opn cls gap ind parts :
  all_ws gap → all_ws ind → parts ≠ [] →
  ∃ w w2, all_ws w ∧ all_ws w2 ∧
    bracket opn cls gap ind parts = opn :: w ++ join (44 :: w) parts ++ w2 ++ [cls].
Proof.
  intros Hg Hi Hp. unfold bracket. destruct parts as [|p ps]; [done|].
  case_bool_decide as Eg.
  - exists [], []. split_and!; [constructor..|]. done.
  - exists (10 :: ind ++ gap), (10 :: ind). unfold all_ws in *.
    split_and!; [constructor; [done|by apply Forall_app]|by constructor|done].
Qed.

Lemma reads_arr gap ind ts vs :
  all_ws gap → all_ws ind →
  Forall2 (reads parse_value) ts vs → Forall value_head ts →
  reads parse_value (bracket 91 93 gap ind ts) (VArr vs).
Proof.
  intros Hg Hi H Hh rest Hr. destruct (decide (ts = [])) as [->|Hne].
  { apply Forall2_nil_inv_l in H as ->. by exists 1%nat. }
  destruct (bracket_ws 91 93 gap ind ts Hg Hi Hne) as (w & w2 & Hw & Hw2 & ->).
  destruct (parse_elems_join w w2 ts vs Hw Hw2 Hne H rest) as [f Hf].
  assert (Hbody : ∃ c r', skip_ws (w ++ join (44 :: w) ts ++ w2 ++ 93 :: rest) = c :: r' ∧ c ≠ 93).
  { rewrite skip_ws_app by done. destruct ts as [|t ts]; [done|].
    apply list.Forall_cons in Hh as [Ht _].
    destruct ts as [|t' ts]; simpl join; rewrite <- ?app_assoc;
      [destruct (value_head_skip t (w2 ++ 93 :: rest) Ht) as (c & r' & -> & ? & ?)
      |edestruct (value_head_skip t) as (c & r' & -> & ? & ?); [done|]]; eauto. }
  exists (S f). rewrite <- app_comm_cons, <- !app_assoc. simpl app. cbn [parse_value].
  unfold value_step. simpl skip_ws. cbn [Z.eqb Pos.eqb].
  destruct Hbody as (c & r' & -> & Hc). destruct (Z.eqb_spec c 93); [done|].
  by rewrite Hf.
Qed.

Lemma reads_obj gap ind sp ks ts vs :
  all_ws gap → all_ws ind → all_ws sp →
  Forall2 (reads parse_value) ts vs → Forall jstr_wf ks → length ks = length ts →
  obj_ok (zip ks vs) →
  reads parse_value (bracket 123 125 gap ind (zip_with (member_text sp) ks ts)) (VObj (zip ks vs)).
Proof.
  intros Hg Hi Hsp H Hks Hlen Hok rest Hr. destruct (decide (ts = [])) as [->|Hne].
  { apply Forall2_nil_inv_l in H as ->. destruct ks; [|done]. by exists 1%nat. }
  assert (Hne' : zip_with (member_text sp) ks ts ≠ []) by (by destruct ks, ts).
  destruct (bracket_ws 123 125 gap ind _ Hg Hi Hne') as (w & w2 & Hw & Hw2 & ->).
  destruct (parse_members_join w w2 sp ks ts vs Hw Hw2 Hsp Hne H Hks Hlen rest) as [f Hf].
  assert (Hbody : ∃ r', skip_ws (w ++ join (44 :: w) (zip_with (member_text sp) ks ts)
      ++ w2 ++ 125 :: rest) = 34 :: r').
  { rewrite skip_ws_app by done. destruct ks as [|k ks], ts as [|t ts]; try done.
    by destruct ks, ts; eexists. }
  exists (S f). rewrite <- app_comm_cons, <- !app_assoc. simpl app. cbn [parse_value].
  unfold value_step. simpl skip_ws. cbn [Z.eqb Pos.eqb].
  destruct Hbody as (r' & ->). cbn [Z.eqb Pos.eqb]. rewrite Hf. simpl.
  by rewrite obj_of_entries_id.
Qed.

Lemma value_step_other c r elems members :
  is_json_ws c = false → c ≠ 123 → c ≠ 91 → c ≠ 34 → c ≠ 116 → c ≠ 102 → c ≠ 110 →
  value_step elems members (c :: r) = parse_number (c :: r).
Proof.
  intros Hw. unfold value_step. simpl skip_ws. rewrite Hw. intros.
  repeat (rewrite (proj2 (Z.eqb_neq c _)) by done). done.
Qed.

Lemma reads_lit lit v :
  (lit, v) ∈ [(u "null", VNull); (u "true", VBool true); (u "false", VBool false)] →
  reads parse_value lit v ∧ value_head lit.
Proof.
  intros H. repeat (apply elem_of_cons in H as [[= -> ->]|H]); [..|by apply not_elem_of_nil in H].
  all: split; [intros rest Hr; by exists 1%nat|by eexists _, _].
Qed.

Lemma digit_head c : is_digit c = true ∨ c = 45 →
  is_json_ws c = false ∧ c ≠ 123 ∧ c ≠ 91 ∧ c ≠ 34 ∧ c ≠ 116 ∧ c ≠ 102 ∧ c ≠ 110 ∧ c ≠ 93 ∧ c ≠ 125.
Proof.
  intros [Hc%is_digit_spec| ->]; [|done]. unfold is_json_ws.
  repeat match goal with |- context [?a =? ?b] => destruct (Z.eqb_spec a b); [lia|] end.
  split_and!; [done|lia..].
Qed.

Lemma reads_num x :
  num_wf x → isFinite x = true → neg_zero x = false →
  reads parse_value (num_to_string x) (VNum x) ∧ value_head (num_to_string x).
Proof.
  intros Hwf Hf Hz.
  assert (Hh : ∃ c r, num_to_string x = c :: r ∧ (is_digit c = true ∨ c = 45)).
  { destruct (num_to_string_shape x Hwf Hf Hz) as (neg & i & f & ex & E & s & p & -> & Hs & _).
    destruct neg; [by eexists _, _; split; [|right]|]. destruct Hs as [Hi _ Hne _ _ _].
    destruct i as [|c i]; [done|]. apply list.Forall_cons in Hi as [Hc _].
    eexists _, _. split; [done|by left]. }
  destruct Hh as (c & r & Hcr & Hc). pose proof (digit_head c Hc) as Hd. destruct_and! Hd.
  split; [|by exists c, r]. intros rest Hr. exists 1%nat. cbn [parse_value].
  pose proof (parse_number_print x rest Hwf Hf Hz Hr) as Hp. rewrite Hcr in *. simpl app in *.
  by rewrite value_step_other.
Qed.

Lemma reads_str s : jstr_wf s → reads parse_value (quote s) (VStr s) ∧ value_head (quote s).
Proof.
  intros Hs. split; [|by eexists _, _]. intros rest Hr. exists 1%nat. unfold quote.
  rewrite <- app_comm_cons, <- app_assoc. cbn [parse_value]. unfold value_step.
  simpl skip_ws. cbn [Z.eqb Pos.eqb]. simpl app. by rewrite parse_quote.
Qed.

Lemma ser_text_neg_zero gap ind x :
  num_wf x → neg_zero x = true → ser_text gap ind (VNum x) = num_to_string nzero.
Proof.
  intros Hwf Hz. destruct x as [| |[] m e]; try done. simpl in *. boolify. subst m. done.
Qed.

Lemma nzero_wf : num_wf nzero.
Proof. simpl. unfold canonical, emin, emax. lia. Qed.

Definition reads_back_as_norm (gap ind : jstr) (v : val) : Prop :=
  reads parse_value (ser_text gap ind v) (json_norm v) ∧ value_head (ser_text gap ind v).

Lemma bracket_head opn cls gap ind parts :
  is_json_ws opn = false → opn ≠ 93 → opn ≠ 125 → value_head (bracket opn cls gap ind parts).
Proof.
  intros. unfold bracket. destruct parts; [by eexists _, _|].
  by case_bool_decide; eexists _, _.
Qed.

Lemma reads_ser_arr gap ind l :
  all_ws gap → all_ws ind →
  Forall (reads_back_as_norm gap (ind ++ gap)) l → reads_back_as_norm gap ind (VArr l).
Proof.
  intros Hg Hi Hl. split; [|by apply bracket_head]. cbn [json_norm].
  apply reads_arr; [done..| |].
  - apply Forall2_map. eapply Forall_impl; [exact Hl|]. by intros x [? _].
  - apply Forall_map_2. eapply Forall_impl; [exact Hl|]. by intros x [_ ?].
Qed.

Lemma reads_ser_obj gap ind o :
  all_ws gap → all_ws ind → obj_ok o →
  Forall (λ kv, jstr_wf kv.1 ∧ reads_back_as_norm gap (ind ++ gap) kv.2) o →
  reads_back_as_norm gap ind (VObj o).
Proof.
  intros Hg Hi Hok Ho. unfold reads_back_as_norm, ser_text. rewrite ser_obj. cbn [default].
  split; [|by apply bracket_head]. rewrite json_norm_obj. pose proof (kept_ok o Hok) as Hok'.
  assert (Hk : Forall (λ kv, jstr_wf kv.1 ∧ reads_back_as_norm gap (ind ++ gap) kv.2) (kept o)).
  { rewrite Forall_forall in Ho |- *. intros kv Hkv%kept_elem. auto. }
  set (sp := if gap =s [] then [] else [32]).
  pose proof (reads_obj gap ind sp (map fst (kept o))
    (map (λ kv, ser_text gap (ind ++ gap) kv.2) (kept o))
    (map (λ kv, json_norm kv.2) (kept o))) as Hobj.
  rewrite !zip_with_map in Hobj. apply Hobj; [done|done| | | | |done].
  - unfold sp. case_bool_decide; repeat constructor.
  - apply Forall2_map. eapply Forall_impl; [exact Hk|]. by intros kv [_ [? _]].
  - apply Forall_map_2. eapply Forall_impl; [exact Hk|]. by intros kv [? _].
  - by rewrite !length_map.
Qed.

(** The text of a value reads back as its normal form, in any context. *)
Lemma reads_ser v : ∀ gap ind,
  all_ws gap → all_ws ind → val_wf v → reads_back_as_norm gap ind v.
Proof.
  induction v as [| |b|n|s|l IH|o IH|f] using val_ind'; intros gap ind Hg Hi Hwf.
  - apply reads_lit. by left.
  - apply reads_lit. by left.
  - apply reads_lit. destruct b; set_solver.
  - inversion_clear Hwf. unfold reads_back_as_norm. cbn [json_norm].
    destruct (isFinite n) eqn:Hf.
    2: { unfold ser_text. simpl. rewrite Hf. apply reads_lit. by left. }
    destruct (neg_zero n) eqn:Hz.
    + rewrite ser_text_neg_zero by done. apply reads_num; [apply nzero_wf|done|done].
    + unfold ser_text. simpl. rewrite Hf. by apply reads_num.
  - inversion_clear Hwf. by apply reads_str.
  - inversion_clear Hwf as [| | | | |? Hl| |]. apply reads_ser_arr; [done..|].
    rewrite Forall_forall in IH, Hl |- *. intros x Hx. apply IH; auto. by apply Forall_app.
  - inversion_clear Hwf as [| | | | | |? Hok Ho|]. apply reads_ser_obj; [done..|].
    rewrite Forall_forall in IH, Ho |- *. intros kv Hkv. destruct (Ho kv Hkv) as [? ?].
    split; [done|]. apply IH; auto. by apply Forall_app.
  - apply reads_lit. by left.
Qed.

Lemma indent2_ws : all_ws indent2.
Proof. by repeat constructor. Qed.

(** [JSON.parse] inverts [JSON.stringify] up to what JSON cannot express. *)
Lemma JSON_parse_ser gap v t :
  all_ws gap → val_wf v → ser gap [] v = Some t → JSON_parse t = Ok (json_norm v).
Proof.
  intros Hg Hwf Ht. destruct (reads_ser v gap [] Hg ltac:(constructor) Hwf) as [Hr _].
  destruct (Hr [] num_end_nil) as [f Hf]. rewrite app_nil_r in Hf.
  unfold ser_text in Hf. rewrite Ht in Hf. by eapply JSON_parse_any.
Qed.

(** ** Results of the parser are well formed *)

Definition pwf {A} (P : A → Prop) (r : presult A) : Prop :=
  ∀ a t, r = POk a t → P a ∧ jstr_wf t.

Lemma pwf_ok {A} (P : A → Prop) a t : P a → jstr_wf t → pwf P (POk a t).
Proof. by intros ? ? ? ? [= <- <-]. Qed.

Lemma pwf_err {A} (P : A → Prop) : pwf P PErr.
Proof. by intros ? ?. Qed.

Lemma pwf_fuel {A} (P : A → Prop) : pwf P PFuel.
Proof. by intros ? ?. Qed.

Lemma pwf_bind {A B} (P : A → Prop) (Q : B → Prop) r (f : A → jstr → presult B) :
  pwf P r → (∀ a t, P a → jstr_wf t → pwf Q (f a t)) → pwf Q (pbind r f).
Proof.
  intros Hr Hf. destruct r as [a t| |]; simpl; [|apply pwf_err|apply pwf_fuel].
  destruct (Hr a t eq_refl). by apply Hf.
Qed.

Lemma jstr_wf_cons c s : jstr_wf (c :: s) ↔ is_unit c ∧ jstr_wf s.
Proof. apply list.Forall_cons. Qed.

Lemma jstr_wf_suffix a b : jstr_wf (a ++ b) → jstr_wf b.
Proof. unfold jstr_wf. rewrite Forall_app. tauto. Qed.

Lemma skip_ws_wf s : jstr_wf s → jstr_wf (skip_ws s).
Proof.
  induction s as [|c s IH]; simpl; [done|]. intros Hs. destruct (is_json_ws c); [|done].
  apply jstr_wf_cons in Hs as [_ Hs]. auto.
Qed.

Lemma skip_ws_cons_wf s c r : jstr_wf s → skip_ws s = c :: r → jstr_wf r.
Proof. intros Hs%skip_ws_wf E. rewrite E in Hs. by apply jstr_wf_cons in Hs as [_ ?]. Qed.

Lemma hex_val_range c n : hex_val c = Some n → 0 ≤ n < 16.
Proof.
  unfold hex_val, radix_digit, is_digit.
  repeat (match goal with |- context [?a <=? ?b] => destruct (Z.leb_spec a b) end; cbn [andb]);
    match goal with |- context [?a <? ?b] => destruct (Z.ltb_spec a b) end;
    intros; simplify_eq; lia.
Qed.

Lemma hex4_range a b c d n : hex4 a b c d = Some n → is_unit n.
Proof.
  unfold hex4, is_unit. intros H.
  destruct (hex_val a) eqn:Ea, (hex_val b) eqn:Eb, (hex_val c) eqn:Ec, (hex_val d) eqn:Ed;
    simplify_eq.
  apply hex_val_range in Ea, Eb, Ec, Ed. lia.
Qed.

Lemma simple_escape_unit e c : simple_escape e = Some c → is_unit c.
Proof. unfold simple_escape, is_unit. repeat case_match; intros; simplify_eq; lia. Qed.

Lemma pcons_wf c r : is_unit c → pwf jstr_wf r → pwf jstr_wf (pcons c r).
Proof.
  intros Hc Hr. eapply pwf_bind; [exact Hr|]. intros s t Hs Ht. apply pwf_ok; [|done].
  by apply jstr_wf_cons.
Qed.

Lemma parse_string_wf n s : (length s ≤ n)%nat → jstr_wf s → pwf jstr_wf (parse_string s).
Proof.
  revert s. induction n as [|n IH]; intros [|c s] Hn Hs; simpl in Hn; try lia; try apply pwf_err.
  apply jstr_wf_cons in Hs as [Hc Hs]. simpl.
  destruct (c =? 34); [by apply pwf_ok; [constructor|]|]. destruct (c =? 92).
  - destruct s as [|e s2]; [apply pwf_err|]. apply jstr_wf_cons in Hs as [_ Hs].
    destruct (e =? 117).
    + do 4 (destruct s2 as [|? s2]; [apply pwf_err|]; apply jstr_wf_cons in Hs as [_ Hs]).
      destruct (hex4 _ _ _ _) eqn:E; [|apply pwf_err]. apply hex4_range in E.
      apply pcons_wf; [done|]. apply IH; [simpl in *; lia|done].
    + destruct (simple_escape e) eqn:E; [|apply pwf_err]. apply simple_escape_unit in E.
      apply pcons_wf; [done|]. apply IH; [simpl in *; lia|done].
  - destruct (c <? 32); [apply pwf_err|]. apply pcons_wf; [done|]. apply IH; [lia|done].
Qed.

Lemma take_exp_suffix s e r : take_exp s = Some (e, r) → ∃ w, s = w ++ r.
Proof.
  unfold take_exp. destruct s as [|c s]; [done|]. destruct (_ || _); [|done].
  destruct (take_sign s) as [neg t] eqn:Es.
  assert (Ht : ∃ w, s = w ++ t).
  { unfold take_sign in Es. destruct s as [|d s]; [simplify_eq; by exists []|].
    destruct (d =? 45), (d =? 43); simplify_eq; (by exists [d]) || (by exists []). }
  destruct (take_digits t) as [d t'] eqn:Et. apply take_digits_digits in Et as [_ ->].
  destruct d as [|x d]; [done|]. intros [= _ <-]. destruct Ht as [w ->].
  exists (c :: w ++ x :: d). simpl. by rewrite <- app_assoc.
Qed.

Lemma parse_number_wf s : jstr_wf s → pwf val_wf (parse_number s).
Proof.
  intros Hs. unfold parse_number. set (t := if starts_with [45] s then drop 1 s else s).
  assert (Ht : jstr_wf t).
  { unfold t. destruct (starts_with [45] s); [|done]. by apply Forall_drop. }
  destruct (take_digits t) as [i r] eqn:Ei. apply take_digits_digits in Ei as [Hi Eti].
  rewrite Eti in Ht. apply jstr_wf_suffix in Ht.
  destruct (take_frac r) as [f r'] eqn:Ef. apply take_frac_digits in Ef as [Hf [w ->]].
  apply jstr_wf_suffix in Ht.
  assert (Hm : 0 ≤ dval (i ++ f)) by (apply dval_nonneg, Forall_app; done).
  destruct (seqb i []); [apply pwf_err|]. destruct (_ && _); [apply pwf_err|].
  destruct (_ && _); [apply pwf_err|].
  destruct (take_exp r') as [[e r'']|] eqn:Ee.
  - apply take_exp_suffix in Ee as [w' ->]. apply jstr_wf_suffix in Ht.
    apply pwf_ok; [|done]. constructor. by apply dec_to_num_wf.
  - destruct (_ || _); [apply pwf_err|]. apply pwf_ok; [|done]. constructor. by apply dec_to_num_wf.
Qed.

Lemma parse_literal_wf lit v s : val_wf v → jstr_wf s → pwf val_wf (parse_literal lit v s).
Proof.
  intros Hv Hs. unfold parse_literal. destruct (starts_with _ _); [|apply pwf_err].
  apply pwf_ok; [done|]. by apply Forall_drop.
Qed.

Lemma obj_set_Forall (P : jstr * val → Prop) o k v :
  Forall P o → P (k, v) → Forall P (obj_set o k v).
Proof.
  intros Ho Hk. unfold obj_set. destruct (obj_has o k).
  - induction Ho as [|[k' v'] o Hx Ho IH]; simpl; [constructor|].
    case_bool_decide; constructor; try done. by subst.
  - induction Ho as [|[k' v'] o Hx Ho IH]; simpl; [by repeat constructor|].
    destruct (array_index k), (array_index k'); try case_match; repeat constructor; done.
Qed.

Lemma obj_of_entries_Forall (P : jstr * val → Prop) p :
  Forall P p → Forall P (obj_of_entries p).
Proof.
  intros Hp. unfold obj_of_entries, obj_extend.
  assert (Hgen : ∀ o, Forall P o → Forall P (fold_left (λ o kv, obj_set o kv.1 kv.2) p o)).
  { induction Hp as [|[k v] p Hx Hp IH]; simpl; intros o Ho; [done|].
    apply IH. by apply obj_set_Forall. }
  apply Hgen. constructor.
Qed.

Abbreviation entry_wf := (λ kv : jstr * val, jstr_wf kv.1 ∧ val_wf kv.2).

Lemma list_step_wf {A} (P : A → Prop) cls more x s :
  (∀ s, jstr_wf s → pwf (Forall P) (more s)) → P x → jstr_wf s →
  pwf (Forall P) (list_step cls more x s).
Proof.
  intros Hm Hx Hs. unfold list_step. destruct (skip_ws s) as [|c r] eqn:E; [apply pwf_err|].
  apply skip_ws_cons_wf in E; [|done]. destruct (c =? 44).
  - eapply pwf_bind; [by apply Hm|]. intros l t Hl Ht. apply pwf_ok; [by constructor|done].
  - destruct (c =? cls); [|apply pwf_err]. apply pwf_ok; [by repeat constructor|done].
Qed.

Lemma member_step_wf value more s :
  (∀ s, jstr_wf s → pwf val_wf (value s)) →
  (∀ s, jstr_wf s → pwf (Forall entry_wf) (more s)) → jstr_wf s →
  pwf (Forall entry_wf) (member_step value more s).
Proof.
  intros Hv Hm Hs. unfold member_step. destruct (skip_ws s) as [|q r] eqn:E; [apply pwf_err|].
  apply skip_ws_cons_wf in E; [|done]. destruct (q =? 34); [|apply pwf_err].
  eapply pwf_bind; [by apply (parse_string_wf (length r))|]. intros k t Hk Ht.
  destruct (skip_ws t) as [|c r1] eqn:E1; [apply pwf_err|]. apply skip_ws_cons_wf in E1; [|done].
  destruct (c =? 58); [|apply pwf_err].
  eapply pwf_bind; [by apply Hv|]. intros v t2 Hv2 Ht2. by apply list_step_wf.
Qed.

Lemma value_step_wf elems members s :
  (∀ s, jstr_wf s → pwf (Forall val_wf) (elems s)) →
  (∀ s, jstr_wf s → pwf (Forall entry_wf) (members s)) → jstr_wf s →
  pwf val_wf (value_step elems members s).
Proof.
  intros He Hm Hs. unfold value_step. destruct (skip_ws s) as [|c r] eqn:E; [apply pwf_err|].
  assert (Hcr : jstr_wf (c :: r)) by (rewrite <- E; by apply skip_ws_wf).
  assert (Hr : jstr_wf r) by (by apply jstr_wf_cons in Hcr as [_ ?]).
  destruct (c =? 123); [|destruct (c =? 91)].
  1,2: destruct (skip_ws r) as [|d r'] eqn:Er; [apply pwf_err|];
    apply skip_ws_cons_wf in Er; [|done].
  - destruct (d =? 125); [apply pwf_ok; [by repeat constructor|done]|].
    eapply pwf_bind; [by apply Hm|]. intros o t Ho Ht. apply pwf_ok; [|done].
    constructor; [apply obj_ok_of_entries|by apply obj_of_entries_Forall].
  - destruct (d =? 93); [apply pwf_ok; [by repeat constructor|done]|].
    eapply pwf_bind; [by apply He|]. intros l t Hl Ht. apply pwf_ok; [by constructor|done].
  - destruct (c =? 34).
    { eapply pwf_bind; [by apply (parse_string_wf (length r))|]. intros x t Hx Ht.
      apply pwf_ok; [by constructor|done]. }
    destruct (c =? 116); [by apply parse_literal_wf; [constructor|]|].
    destruct (c =? 102); [by apply parse_literal_wf; [constructor|]|].
    destruct (c =? 110); [by apply parse_literal_wf; [constructor|]|by apply parse_number_wf].
Qed.

Lemma parse_wf f :
  (∀ s, jstr_wf s → pwf val_wf (parse_value f s)) ∧
  (∀ s, jstr_wf s → pwf (Forall val_wf) (parse_elems f s)) ∧
  (∀ s, jstr_wf s → pwf (Forall entry_wf) (parse_members f s)).
Proof.
  induction f as [|f (IHv & IHe & IHm)]; [split_and!; intros; apply pwf_fuel|].
  split_and!; intros s Hs.
  - by apply value_step_wf.
  - apply (pwf_bind val_wf); [by apply IHv|]. intros v t Hv Ht. by apply list_step_wf.
  - by apply member_step_wf.
Qed.

Lemma JSON_parse_wf s v : jstr_wf s → JSON_parse s = Ok v → val_wf v.
Proof.
  intros Hs. unfold JSON_parse.
  destruct (parse_value (parse_fuel s) s) as [v' r| |] eqn:E; [|done..].
  case_bool_decide; [|done]. intros [= <-].
  by apply (proj1 (parse_wf (parse_fuel s)) s Hs v' r).
Qed.

Lemma v_or_wf a b : val_wf a → val_wf b → val_wf (v_or a b).
Proof. unfold v_or. by destruct (truthy a). Qed.

(** ** Normal forms *)

Lemma json_norm_kept v : unserializable (json_norm v) = false.
Proof. destruct v as [| | |n| | | |]; simpl; try done. by destruct (isFinite n), (neg_zero n). Qed.

Lemma kept_all o : Forall (λ kv, unserializable kv.2 = false) o → kept o = o.
Proof. unfold kept. induction 1 as [|kv o Hk Ho IH]; simpl; [done|]. by rewrite Hk, IH. Qed.

(** Serializing the normal form writes the same text. *)
Lemma ser_text_norm v : ∀ gap ind, ser_text gap ind (json_norm v) = ser_text gap ind v.
Proof.
  induction v as [| |b|n|s|l IH|o IH|f] using val_ind'; intros gap ind; try done.
  - simpl. destruct (isFinite n) eqn:Hf; [|unfold ser_text; simpl; by rewrite Hf].
    destruct (neg_zero n) eqn:Hz; [|done].
    destruct n as [| |[] m e]; try done. simpl in Hz. boolify. by subst m.
  - unfold ser_text. simpl. f_equal. rewrite map_map. apply map_ext_in. intros x Hx.
    rewrite Forall_forall in IH. apply IH. by apply list_elem_of_In.
  - unfold ser_text. rewrite json_norm_obj, !ser_obj. simpl. f_equal.
    rewrite kept_all; [|apply Forall_map_2, Forall_forall; intros; apply json_norm_kept].
    rewrite map_map. apply map_ext_in. intros kv Hkv. f_equal.
    rewrite Forall_forall in IH. apply IH, kept_elem. by apply list_elem_of_In.
Qed.

Lemma json_norm_wf v : val_wf v → val_wf (json_norm v).
Proof.
  induction v as [| |b|n|s|l IH|o IH|f] using val_ind'; intros Hwf; try exact Hwf; try exact wf_null.
  - simpl. inversion_clear Hwf. destruct (isFinite n), (neg_zero n); constructor; [|done].
    apply nzero_wf.
  - inversion_clear Hwf as [| | | | |? Hl| |]. constructor. apply Forall_map_2.
    rewrite Forall_forall in IH, Hl |- *. auto.
  - inversion_clear Hwf as [| | | | | |? Hok Ho|]. rewrite json_norm_obj. constructor; [by apply kept_ok|].
    apply Forall_map_2. rewrite Forall_forall in IH, Ho |- *. intros kv Hkv%kept_elem.
    destruct (Ho kv Hkv). split; simpl; auto.
Qed.

(** Formatting text that parses is idempotent: parsing the formatted text and
    formatting again changes nothing. *)
Lemma stringify_parse_stable gap v t :
  all_ws gap → val_wf v → ser gap [] v = Some t →
  ∃ v', JSON_parse t = Ok v' ∧ ser gap [] v' = Some t.
Proof.
  intros Hg Hwf Ht. exists (json_norm v). split; [by eapply JSON_parse_ser|].
  rewrite ser_serializable by apply json_norm_kept. rewrite ser_text_norm.
  unfold ser_text. by rewrite Ht.
Qed.

(** Data whose serialization loses nothing. *)
Inductive json_data : val → Prop :=
| jd_null : json_data VNull
| jd_bool b : json_data (VBool b)
| jd_num n : num_wf n → isFinite n = true → neg_zero n = false → json_data (VNum n)
| jd_str s : jstr_wf s → json_data (VStr s)
| jd_arr l : Forall json_data l → json_data (VArr l)
| jd_obj o : obj_ok o → Forall (λ kv, jstr_wf kv.1 ∧ json_data kv.2) o → json_data (VObj o).

Lemma json_data_wf v : json_data v → val_wf v.
Proof.
  induction v as [| |b|n|s|l IH|o IH|f] using val_ind'; intros H; inversion_clear H;
    constructor; try done.
  - rewrite Forall_forall in *. auto.
  - rewrite Forall_forall in *. intros kv Hkv. split; [naive_solver|]. apply IH; naive_solver.
Qed.

Lemma json_data_serializable v : json_data v → unserializable v = false.
Proof. by destruct 1. Qed.

Lemma json_data_norm v : json_data v → json_norm v = v.
Proof.
  induction v as [| |b|n|s|l IH|o IH|f] using val_ind'; intros H; inversion_clear H; try done.
  - simpl. by rewrite H1, H2.
  - simpl. f_equal. rewrite <- (map_id l) at 2. apply map_ext_in. intros x Hx.
    rewrite Forall_forall in *. apply list_elem_of_In in Hx. auto.
  - rewrite json_norm_obj, kept_all.
    + f_equal. rewrite <- (map_id o) at 2. apply map_ext_in. intros [k v] Hx.
      rewrite Forall_forall in *. apply list_elem_of_In in Hx. simpl. f_equal.
      apply (IH (k, v) Hx). naive_solver.
    + rewrite Forall_forall in *. intros kv Hkv. apply json_data_serializable. naive_solver.
Qed.

(** [JSON.parse(JSON.stringify(v))] is [v] on such data. *)
Lemma JSON_parse_stringify gap v :
  all_ws gap → json_data v → JSON_parse (default [] (ser gap [] v)) = Ok v.
Proof.
  intros Hg Hv. rewrite ser_serializable by (by apply json_data_serializable). simpl.
  rewrite <- (json_data_norm v Hv) at 2. eapply JSON_parse_ser; [exact Hg|by apply json_data_wf|].
  apply ser_serializable, json_data_serializable, Hv.
Qed.

(** A parsed value is neither [undefined] nor a function. *)
Lemma pbind_inv {A B} (m : presult A) (f : A → jstr → presult B) b t :
  pbind m f = POk b t → ∃ a r, m = POk a r ∧ f a r = POk b t.
Proof. unfold pbind. destruct m as [a r| |]; [eauto|done..]. Qed.

Lemma parse_literal_inv lit v s w t : parse_literal lit v s = POk w t → w = v.
Proof. unfold parse_literal. by destruct (starts_with lit s); [intros [= -> _]|]. Qed.

Lemma parse_number_inv s v t : parse_number s = POk v t → ∃ n, v = VNum n.
Proof.
  unfold parse_number. destruct (take_digits _) as [i r], (take_frac r) as [f r'].
  repeat case_match; intros; simplify_eq; eauto.
Qed.

Lemma JSON_parse_kept s v : JSON_parse s = Ok v → unserializable v = false.
Proof.
  unfold JSON_parse. destruct (parse_value (parse_fuel s) s) as [w r| |] eqn:E; [|done..].
  case_bool_decide; [|done]. intros [= <-]. unfold parse_fuel in E. rewrite Nat.add_1_r in E.
  simpl in E. unfold value_step in E. destruct (skip_ws s) as [|c t]; [done|].
  repeat match type of E with
  | (if ?b then _ else _) = _ => destruct b
  | match skip_ws ?x with _ => _ end = _ => destruct (skip_ws x)
  end; try done;
  try (apply pbind_inv in E as (? & ? & _ & ?); by simplify_eq);
  try (apply parse_literal_inv in E as ->; done);
  try (by apply parse_number_inv in E as [? ->]); by simplify_eq.
Qed.

(** Reading a property of a serialized and parsed object. *)
Lemma obj_get_norm o k :
  obj_ok o →
  obj_get (map (λ kv, (kv.1, json_norm kv.2)) (kept o)) k =
  match obj_get o k with
  | Some v => if unserializable v then None else Some (json_norm v)
  | None => None
  end.
Proof.
  unfold kept, obj_ok, obj_keys. induction o as [|[k1 v1] o IH]; simpl; [done|].
  intros [Ho Hf]%StronglySorted_inv. specialize (IH Ho).
  assert (Hk1 : obj_get o k1 = None).
  { apply obj_get_keys. intros Hin. rewrite Forall_forall in Hf. by destruct (Hf k1 Hin). }
  destruct (unserializable v1) eqn:E; simpl.
  - rewrite IH. case_bool_decide; subst; [by rewrite Hk1, E|done].
  - case_bool_decide; [by rewrite E|apply IH].
Qed.

(** The text of an object or an array starts and ends with its brackets. *)
Lemma bracket_shape opn cls gap ind parts :
  ∃ mid, bracket opn cls gap ind parts = opn :: mid ++ [cls].
Proof.
  unfold bracket. destruct parts as [|p ps]; [by exists []|]. case_bool_decide; [eauto|].
  exists (10 :: (ind ++ gap) ++ join (44 :: 10 :: ind ++ gap) (p :: ps) ++ 10 :: ind).
  simpl. by rewrite <- !app_assoc.
Qed.

Lemma bracket_tight opn cls gap ind parts :
  is_ws opn = false → is_ws cls = false → tight (bracket opn cls gap ind parts).
Proof.
  intros Ho Hc. destruct (bracket_shape opn cls gap ind parts) as [mid ->]. split.
  - by intros c r [= <- _].
  - intros c r H. change (opn :: mid ++ [cls]) with ((opn :: mid) ++ [cls]) in H.
    by apply app_inj_tail in H as [_ <-].
Qed.

Lemma ser_obj_tight gap ind o t : ser gap ind (VObj o) = Some t → tight t ∧ t ≠ [].
Proof.
  intros H. rewrite ser_obj in H. injection H as <-. split; [by apply bracket_tight|].
  match goal with |- bracket ?a ?b ?c ?d ?e ≠ _ => by destruct (bracket_shape a b c d e) as [? ->] end.
Qed.

(** Text without a character that is not white space is not JSON. *)
Lemma ws_not_number c s : is_ws c = true → parse_number (c :: s) = PErr.
Proof.
  intros Hc. unfold parse_number. rewrite starts_with_unit.
  destruct (Z.eqb_spec 45 c) as [<-|Hm]; [done|].
  assert (Hd : is_digit c = false).
  { destruct (is_digit c) eqn:E; [|done]. apply digit_not_ws in E. congruence. }
  simpl. rewrite Hd. destruct (take_frac (c :: s)) as [f r']. done.
Qed.

Lemma JSON_parse_blank s : Forall (λ c, is_ws c = true) s → JSON_parse s = Throw SyntaxError.
Proof.
  intros H. unfold JSON_parse, parse_fuel. rewrite Nat.add_1_r. simpl. unfold value_step.
  assert (Hs : Forall (λ c, is_ws c = true) (skip_ws s)).
  { induction H as [|c s Hc Hs IH]; simpl; [done|]. destruct (is_json_ws c); [done|]. by constructor. }
  destruct Hs as [|c r Hc _]; [done|].
  assert (Hne : ∀ d, is_ws d = false → (c =? d) = false).
  { intros d Hd. apply Z.eqb_neq. congruence. }
  rewrite !Hne by done. by rewrite ws_not_number.
Qed.

Lemma JSON_parse_nonblank s v : JSON_parse s = Ok v → trim s ≠ [].
Proof. intros H Ht%trim_nil. rewrite JSON_parse_blank in H by done. done. Qed.

(** JSON text written by [JSON.stringify] has no blanks around it. *)
Lemma ser_tight gap ind v t :
  val_wf v → json_norm v = v → ser gap ind v = Some t → tight t.
Proof.
  intros Hwf Hn Ht. destruct v as [| |[]|n|s|l|o|]; simpl in Ht; try done; try injection Ht as <-.
  - apply tight_forall. by repeat constructor.
  - apply tight_forall. by repeat constructor.
  - apply tight_forall. by repeat constructor.
  - simpl in Hn. destruct (isFinite n) eqn:Hf; [|done].
    destruct (neg_zero n) eqn:Hz; [injection Hn as <-; by vm_compute in Hz|].
    inversion_clear Hwf as [| | |? Hnw| | | |].
    destruct (num_to_string_shape n Hnw Hf Hz) as (neg & i & f & ex & E & sg & p & -> & Hs & _).
    apply tight_forall. rewrite Forall_app. split; [|by eapply shape_not_ws].
    destruct neg; by repeat constructor.
  - unfold quote. split; [by intros c r [= <- _]|]. intros c r H.
    change (34 :: quote_body s ++ [34]) with ((34 :: quote_body s) ++ [34]) in H.
    by apply app_inj_tail in H as [_ <-].
  - by apply bracket_tight.
  - by apply bracket_tight.
Qed.

(** ** Checking literals by computation *)

Lemma jstr_wf_app a b : jstr_wf (a ++ b) ↔ jstr_wf a ∧ jstr_wf b.
Proof. apply Forall_app. Qed.

Lemma jstr_wf_trim_start s : jstr_wf s → jstr_wf (trim_start s).
Proof. intros H. destruct (trim_start_app s) as (w & E & _). rewrite E in H. by apply jstr_wf_app in H as [_ ?]. Qed.

Lemma jstr_wf_rev s : jstr_wf s → jstr_wf (rev s).
Proof. apply List.Forall_rev. Qed.

Lemma jstr_wf_trim s : jstr_wf s → jstr_wf (trim s).
Proof. intros H. unfold trim, trim_end. by apply jstr_wf_rev, jstr_wf_trim_start, jstr_wf_rev, jstr_wf_trim_start. Qed.

(** A literal of the source is well formed; checked by computation. *)
Definition units_ok (s : jstr) : bool := forallb (λ c, (0 <=? c) && (c <? 65536)) s.
Lemma units_ok_wf s : units_ok s = true → jstr_wf s.
Proof.
  unfold units_ok, jstr_wf. rewrite forallb_forall, Forall_forall. intros H c Hc.
  specialize (H c). rewrite <- list_elem_of_In in H. specialize (H Hc). boolify. done.
Qed.

Lemma ascii_ok s : forallb (λ c, (0 <=? c) && (c <? 128)) s = true → Forall is_ascii s.
Proof.
  rewrite forallb_forall, Forall_forall. intros H c Hc. specialize (H c).
  rewrite <- list_elem_of_In in H. specialize (H Hc). boolify. done.
Qed.

Ltac solve_wf := by apply units_ok_wf.

#[export] Hint Resolve jstr_wf_trim : js.
#[export] Hint Extern 1 (jstr_wf (u _)) => solve_wf : js.

(** The same for the keys of an object. *)
Definition key_beforeb (k k' : jstr) : bool :=
  negb (k =s k') &&
  match array_index k, array_index k' with
  | Some i, Some j => i <? j
  | None, Some _ => false
  | _, None => true
  end.
Fixpoint keys_okb (ks : list jstr) : bool :=
  match ks with [] => true | k :: ks => forallb (key_beforeb k) ks && keys_okb ks end.

Lemma keys_okb_ok o : keys_okb (obj_keys o) = true → obj_ok o.
Proof.
  unfold obj_ok. induction (obj_keys o) as [|k ks IH]; simpl; [constructor|].
  intros [Hk Hks]%andb_true_iff. constructor; [by apply IH|].
  rewrite forallb_forall in Hk. apply Forall_forall. intros k' Hin%list_elem_of_In.
  specialize (Hk k' Hin). unfold key_beforeb in Hk. boolify. split; [done|].
  destruct (array_index k), (array_index k'); boolify; done.
Qed.

Ltac solve_keys := by apply keys_okb_ok.

(** ** Building and reading objects *)

Lemma obj_add_fresh o k v : array_index k = None → obj_add o k v = o ++ [(k, v)].
Proof.
  intros Hk. induction o as [|[k' v'] o IH]; simpl; [done|]. rewrite Hk. by rewrite IH.
Qed.

Lemma obj_set_fresh o k v :
  array_index k = None → obj_get o k = None → obj_set o k v = o ++ [(k, v)].
Proof.
  intros Hk Ho. unfold obj_set, obj_has. rewrite Ho, bool_decide_eq_false_2 by by intros [? ?].
  by apply obj_add_fresh.
Qed.

Lemma obj_get_app o p k :
  obj_get (o ++ p) k = match obj_get o k with Some v => Some v | None => obj_get p k end.
Proof. induction o as [|[k' v'] o IH]; simpl; [done|]. by case_bool_decide. Qed.

Lemma get_norm o k :
  obj_ok o →
  get (json_norm (VObj o)) k =
  Ok (match obj_get o k with
      | Some v => if unserializable v then proto_get k else json_norm v
      | None => proto_get k
      end).
Proof.
  intros Ho. rewrite json_norm_obj. simpl. rewrite obj_get_norm by done.
  destruct (obj_get o k) as [v|]; [|done]. by destruct (unserializable v).
Qed.
