(* ===== verification/Browser.v ===== *)
(** * The browser around the application

    What the code reads from its surroundings: the clock, the translation
    function [t] of i18next, the engine's own error messages ([Env]), and
    [localStorage], a map from keys to strings whose [setItem] throws when the
    quota of the origin is used up. *)

From stdpp Require Import gmap.
From S2P Require Import Prelude JsString JsNumber JsValue Json.

Local Open Scope Z_scope.

Class Env := {
  (** [Date.now()] when the [n]-th id is made *)
  date_now : nat → Z;
  (** [t(key)] and [t(key, { line })]; a translation may be empty *)
  t : jstr → option Z → jstr;
  (** [error.message] of the engine's own errors *)
  engine_message : jstr;
  (** [new Date().toISOString()]; the code shows or stores it, never reads it *)
  iso_now : jstr;
  (** [error.stack] *)
  error_stack : exc → jstr;
  iso_now_wf : jstr_wf iso_now;
  (** whether [localStorage] has room for a text *)
  has_room : jstr → bool;
}.

(** The default translation, the key itself, a stopped clock and no quota. *)
#[program] Definition plain_env : Env :=
  {| date_now := λ _, 0; t := λ key _, key; engine_message := u "TypeError";
     iso_now := u "1970-01-01T00:00:00.000Z"; error_stack := λ _, []; has_room := λ _, true |}.
Next Obligation. solve_wf. Qed.

(** [error.message] *)
Definition message_of `{Env} (e : exc) : jstr :=
  match e with UserError m => m | _ => engine_message end.

(** ** localStorage *)

Abbreviation storage := (gmap jstr jstr).

Definition getItem (st : storage) (k : jstr) : val :=
  match st !! k with Some s => VStr s | None => VNull end.

Definition setItem `{Env} (k s : jstr) (st : storage) : res storage :=
  if has_room s then Ok (<[k := s]> st) else Throw (DOMException (u "QuotaExceededError")).

Definition removeItem (k : jstr) (st : storage) : storage := delete k st.
