(* ===== verification/Encoding.v ===== *)
(** * Text as bytes: UTF-8, percent encoding, base64

    What the platform offers for turning texts into bytes and bytes into texts:
    [TextEncoder], [encodeURIComponent], and [btoa] and [atob] as the HTML
    standard defines them (forgiving base64 decoding).  Bytes are integers in
    0..255; a binary string has one unit per byte. *)

From S2P Require Import Prelude JsString JsNumber JsValue Json.

Local Open Scope Z_scope.

Definition is_byte (b : Z) : Prop := 0 ≤ b < 256.
Definition bytes_ok (l : list Z) : Prop := Forall is_byte l.

(** ** UTF-8 *)

Definition utf8 (p : Z) : list Z :=
  if p <? 128 then [p]
  else if p <? 2048 then [192 + p / 64; 128 + p mod 64]
  else if p <? 65536 then [224 + p / 4096; 128 + p / 64 mod 64; 128 + p mod 64]
  else [240 + p / 262144; 128 + p / 4096 mod 64; 128 + p / 64 mod 64; 128 + p mod 64].

(** The code point of a surrogate pair *)
Definition pair_point (c d : Z) : Z := 65536 + (c - 55296) * 1024 + (d - 56320).

(** The code points of a text; an unpaired surrogate counts as U+FFFD. *)
Fixpoint code_points (s : jstr) : list Z :=
  match s with
  | [] => []
  | c :: r =>
    if is_low c then 65533 :: code_points r
    else if is_high c then
      match r with
      | d :: r' => if is_low d then pair_point c d :: code_points r' else 65533 :: code_points r
      | [] => [65533]
      end
    else c :: code_points r
  end.

(** [new TextEncoder().encode(s)], and [Buffer.from(s, 'utf-8')] *)
Definition utf8_encode (s : jstr) : list Z := flat_map utf8 (code_points s).

(** Whether all surrogates come in pairs *)
Fixpoint well_paired (s : jstr) : bool :=
  match s with
  | [] => true
  | c :: r =>
    if is_low c then false
    else if is_high c then
      match r with d :: r' => is_low d && well_paired r' | [] => false end
    else well_paired r
  end.

(** ** Percent encoding *)

Definition unreserved (c : Z) : bool :=
  is_digit c || ((65 <=? c) && (c <=? 90)) || ((97 <=? c) && (c <=? 122)) ||
  existsb (λ d, c =? d) (u "-_.!~*'()").
Definition upper_hex (n : Z) : Z := if n <? 10 then 48 + n else 55 + n.
Definition percent (b : Z) : jstr := [37; upper_hex (b / 16); upper_hex (b mod 16)].

Fixpoint encodeURIComponent (s : jstr) : res jstr :=
  match s with
  | [] => Ok []
  | c :: r =>
    if unreserved c then rmap (cons c) (encodeURIComponent r)
    else if is_low c then Throw URIError
    else if is_high c then
      match r with
      | d :: r' => if is_low d
                   then rmap (app (flat_map percent (utf8 (pair_point c d))))
                          (encodeURIComponent r')
                   else Throw URIError
      | [] => Throw URIError
      end
    else rmap (app (flat_map percent (utf8 c))) (encodeURIComponent r)
  end.

(** ** base64 *)

Definition InvalidCharacterError : exc := DOMException (u "InvalidCharacterError").

(** The alphabet, and the value of a unit of it *)
Definition sextet_unit (n : Z) : Z :=
  if n <? 26 then 65 + n else if n <? 52 then 71 + n else if n <? 62 then n - 4
  else if n =? 62 then 43 else 47.
Definition unit_sextet (c : Z) : option Z :=
  if (65 <=? c) && (c <=? 90) then Some (c - 65)
  else if (97 <=? c) && (c <=? 122) then Some (c - 71)
  else if is_digit c then Some (c + 4)
  else if c =? 43 then Some 62
  else if c =? 47 then Some 63
  else None.

(** Three bytes as four groups of six bits *)
Fixpoint sextets (l : list Z) : list Z :=
  match l with
  | [] => []
  | [a] => [a / 4; a mod 4 * 16]
  | [a; b] => [a / 4; a mod 4 * 16 + b / 16; b mod 16 * 4]
  | a :: b :: c :: r =>
    [a / 4; a mod 4 * 16 + b / 16; b mod 16 * 4 + c / 64; c mod 64] ++ sextets r
  end.

Fixpoint octets (l : list Z) : list Z :=
  match l with
  | a :: b :: c :: d :: r => [a * 4 + b / 16; b mod 16 * 16 + c / 4; c mod 4 * 64 + d] ++ octets r
  | [a; b; c] => [a * 4 + b / 16; b mod 16 * 16 + c / 4]
  | [a; b] => [a * 4 + b / 16]
  | _ => []
  end.

(** The padding that completes a text of [n] units to groups of four *)
Definition pad (n : nat) : nat := ((4 - n mod 4) mod 4)%nat.
Definition padding (n : nat) : jstr := replicate (pad n) 61.

Definition btoa (s : jstr) : res jstr :=
  if forallb (λ c, c <? 256) s then
    let t := map sextet_unit (sextets s) in Ok (t ++ padding (length t))
  else Throw InvalidCharacterError.

Definition is_ascii_ws (c : Z) : bool := existsb (λ d, c =? d) [9; 10; 12; 13; 32].
Definition strip_padding (t : jstr) : jstr :=
  if (length t mod 4 =? 0)%nat then
    match rev t with 61 :: 61 :: r => rev r | 61 :: r => rev r | _ => t end
  else t.

Definition atob (s : jstr) : res jstr :=
  let t := strip_padding (List.filter (λ c, negb (is_ascii_ws c)) s) in
  if (length t mod 4 =? 1)%nat then Throw InvalidCharacterError
  else match mapM unit_sextet t with
       | Some l => Ok (octets l)
       | None => Throw InvalidCharacterError
       end.

Example btoa_1 : btoa (u "light work.") = Ok (u "bGlnaHQgd29yay4=").
Proof. vm_compute. reflexivity. Qed.
Example atob_1 : atob (u " bGln aHQgd29y ay4 ") = Ok (u "light work.").
Proof. vm_compute. reflexivity. Qed.
Example utf8_1 : utf8_encode (u "aé模") = [97; 195; 169; 230; 168; 161].
Proof. vm_compute. reflexivity. Qed.

(** ** Decoding inverts encoding *)

Ltac divmod := Z.div_mod_to_equations; lia.

(** Induction by groups of three *)
Lemma triples_ind (P : list Z → Prop) :
  P [] → (∀ a, P [a]) → (∀ a b, P [a; b]) → (∀ a b c r, P r → P (a :: b :: c :: r)) → ∀ l, P l.
Proof.
  intros H0 H1 H2 H3. fix IH 1. intros [|a [|b [|c r]]]; [done|by apply H1|by apply H2|].
  by apply H3.
Qed.

Lemma bytes_ok_cons b l : bytes_ok (b :: l) ↔ is_byte b ∧ bytes_ok l.
Proof. apply list.Forall_cons. Qed.

Lemma octets_sextets l : bytes_ok l → octets (sextets l) = l.
Proof.
  induction l as [|a|a b|a b c r IH] using triples_ind; intros Hl;
    repeat apply bytes_ok_cons in Hl as [? Hl]; unfold is_byte in *; simpl;
    repeat (apply (f_equal2 cons); [divmod|]); auto.
Qed.

Definition is_sextet (n : Z) : Prop := 0 ≤ n < 64.

Lemma sextets_range l : bytes_ok l → Forall is_sextet (sextets l).
Proof.
  induction l as [|a|a b|a b c r IH] using triples_ind; intros Hl;
    repeat apply bytes_ok_cons in Hl as [? Hl]; unfold is_byte in *; simpl;
    repeat (apply Forall_cons_2; [unfold is_sextet; divmod|]); auto.
Qed.

(** The groups of six bits of [n] bytes *)
Lemma sextets_length l : length (sextets l) = ((4 * length l + 2) / 3)%nat.
Proof.
  induction l as [|a|a b|a b c r IH] using triples_ind; [done..|].
  cbn [sextets app length]. rewrite IH.
  replace (4 * S (S (S (length r))) + 2)%nat with (4 * length r + 2 + 4 * 3)%nat by lia.
  rewrite Nat.div_add by lia. lia.
Qed.

Lemma sextets_length_mod l : (length (sextets l) mod 4 ≠ 1)%nat.
Proof.
  induction l as [|a|a b|a b c r IH] using triples_ind; [done..|].
  cbn [sextets app length]. replace (S (S (S (S (length (sextets r))))))
    with (length (sextets r) + 1 * 4)%nat by lia.
  by rewrite Nat.Div0.mod_add.
Qed.

Lemma unit_sextet_unit n : is_sextet n → unit_sextet (sextet_unit n) = Some n.
Proof.
  intros Hn. unfold is_sextet, unit_sextet, sextet_unit, is_digit in *.
  repeat (case_match; boolify; try lia); f_equal; lia.
Qed.

(** The units of the alphabet: letters, digits, plus and slash *)
Definition in_alphabet (c : Z) : bool := bool_decide (is_Some (unit_sextet c)).

Lemma alphabet_unit n : is_sextet n → in_alphabet (sextet_unit n) = true.
Proof. intros Hn. apply bool_decide_eq_true. rewrite unit_sextet_unit by done. by eexists. Qed.

Lemma alphabet_not c : in_alphabet c = true → c ≠ 61 ∧ is_ascii_ws c = false.
Proof.
  intros Hc%bool_decide_eq_true. split; [by intros ->; destruct Hc|].
  destruct (is_ascii_ws c) eqn:E; [|done]. unfold is_ascii_ws in E.
  apply existsb_exists in E as (d & Hd & ->%Z.eqb_eq).
  repeat destruct Hd as [<-|Hd]; by destruct Hc.
Qed.

Lemma mapM_sextets l : Forall is_sextet l → mapM unit_sextet (map sextet_unit l) = Some l.
Proof.
  induction 1 as [|n l Hn _ IH]; [done|]. simpl. rewrite unit_sextet_unit by done. simpl.
  by rewrite IH.
Qed.

Lemma strip_padding_pad t :
  Forall (λ c, c ≠ 61) t → (length t mod 4 ≠ 1)%nat → strip_padding (t ++ padding (length t)) = t.
Proof.
  intros Ht Hl. assert (Hn : ∀ r, rev t ≠ 61 :: r).
  { intros r Hr. apply (f_equal (@rev Z)) in Hr. rewrite rev_involutive in Hr. rewrite Hr in Ht.
    simpl in Ht. apply Forall_app in Ht as [_ Ht]. by inversion Ht. }
  unfold strip_padding, padding, pad. pose proof (Nat.mod_upper_bound (length t) 4).
  rewrite length_app, length_replicate, rev_app_distr.
  assert (((length t + (4 - length t mod 4) mod 4) mod 4 = 0)%nat) as ->.
  { rewrite Nat.Div0.add_mod_idemp_r. pose proof (Nat.div_mod_eq (length t) 4).
    replace (length t + (4 - length t mod 4))%nat with ((length t / 4 + 1) * 4)%nat by lia.
    apply Nat.Div0.mod_mul. }
  destruct (length t mod 4)%nat as [|[|[|[|]]]] eqn:E; simpl; [|lia| | |lia].
  - rewrite app_nil_r. destruct (rev t) as [|c r]; [done|]. specialize (Hn r).
    destruct (Z.eq_dec c 61) as [->|Hc]; [done|]. repeat (case_match; try done); congruence.
  - apply rev_involutive.
  - rewrite rev_involutive. destruct (rev t) as [|c r]; [done|]. specialize (Hn r).
    repeat (case_match; try done); congruence.
Qed.

Lemma atob_padded l :
  Forall is_sextet l → (length l mod 4 ≠ 1)%nat →
  atob (map sextet_unit l ++ padding (length l)) = Ok (octets l).
Proof.
  intros Hl Hlen. unfold atob.
  assert (Ha : Forall (λ c, in_alphabet c = true) (map sextet_unit l)).
  { apply Forall_map_2. eapply list.Forall_impl; [exact Hl|]. apply alphabet_unit. }
  rewrite filter_all.
  2:{ apply Forall_app. split.
      - eapply list.Forall_impl; [exact Ha|]. intros c Hc%alphabet_not. by destruct Hc as [_ ->].
      - by apply Forall_replicate. }
  rewrite <- (length_map sextet_unit l) in Hlen |- *.
  rewrite strip_padding_pad; [|eapply list.Forall_impl; [exact Ha|]; by intros c [? _]%alphabet_not|done].
  rewrite mapM_sextets by done. by apply Nat.eqb_neq in Hlen as ->.
Qed.

Lemma btoa_bytes l :
  bytes_ok l → btoa l = Ok (map sextet_unit (sextets l) ++ padding (length (sextets l))).
Proof.
  intros Hl. unfold btoa. rewrite length_map.
  assert (forallb (λ c, c <? 256) l = true) as ->; [|done].
  apply forallb_forall. intros c Hc. apply Z.ltb_lt.
  apply (proj1 (list.Forall_forall _ _) Hl c). by apply list_elem_of_In.
Qed.

Lemma atob_btoa l t : bytes_ok l → btoa l = Ok t → atob t = Ok l.
Proof.
  intros Hl. rewrite btoa_bytes by done. intros [= <-].
  rewrite atob_padded by auto using sextets_range, sextets_length_mod.
  by rewrite octets_sextets.
Qed.

(** ** UTF-8 keeps the text *)

(** The code points of texts *)
Definition is_point (p : Z) : Prop := 0 ≤ p < 1114112.

Lemma utf8_bytes p : is_point p → bytes_ok (utf8 p).
Proof.
  unfold is_point, utf8. intros Hp.
  repeat case_match; boolify; repeat (apply Forall_cons_2; [unfold is_byte; divmod|]);
    apply Forall_nil_2.
Qed.

Lemma is_low_spec c : is_low c = true ↔ 56320 ≤ c ≤ 57343.
Proof. unfold is_low. rewrite andb_true_iff, !Z.leb_le. lia. Qed.
Lemma is_high_spec c : is_high c = true ↔ 55296 ≤ c ≤ 56319.
Proof. unfold is_high. rewrite andb_true_iff, !Z.leb_le. lia. Qed.

Lemma pair_point_range c d :
  is_high c = true → is_low d = true → 65536 ≤ pair_point c d < 1114112.
Proof. rewrite is_high_spec, is_low_spec. unfold pair_point. lia. Qed.

(** A surrogate that is not part of a pair, in front of [r] *)
Definition lone (c : Z) (r : jstr) : Prop :=
  is_low c = true ∨
  is_low c = false ∧ is_high c = true ∧ match r with d :: _ => is_low d | [] => false end = false.

(** Induction on a text by its code points *)
Lemma points_ind (P : jstr → Prop) :
  P [] →
  (∀ c d r, is_low c = false → is_high c = true → is_low d = true → P r → P (c :: d :: r)) →
  (∀ c r, is_low c = false → is_high c = false → P r → P (c :: r)) →
  (∀ c r, lone c r → P r → P (c :: r)) → ∀ s, P s.
Proof.
  intros H0 H2 H1 H3 s. cut (P s ∧ ∀ c, P (c :: s)); [tauto|].
  assert (Hstep : ∀ c r, P r → (match r with d :: _ => is_low d | [] => false end = true →
                                is_high c = true → is_low c = false → P (c :: r)) → P (c :: r)).
  { intros c r Hr Hp. destruct (is_low c) eqn:El; [apply H3; [by left|done]|].
    destruct (is_high c) eqn:Eh; [|by apply H1]. destruct (match r with d :: _ => _ | [] => _ end) eqn:E.
    - by apply Hp.
    - apply H3; [by right|done]. }
  induction s as [|d r [IH1 IH2]]; split; auto; intros c; apply Hstep; auto; try done.
Qed.

Lemma code_points_pair c d r :
  is_low c = false → is_high c = true → is_low d = true →
  code_points (c :: d :: r) = pair_point c d :: code_points r.
Proof. intros Hl Hh Hd. simpl. by rewrite Hl, Hh, Hd. Qed.
Lemma code_points_plain c r :
  is_low c = false → is_high c = false → code_points (c :: r) = c :: code_points r.
Proof. intros Hl Hh. simpl. by rewrite Hl, Hh. Qed.
Lemma code_points_lone c r : lone c r → code_points (c :: r) = 65533 :: code_points r.
Proof.
  intros [Hl|(Hl & Hh & Hd)]; simpl; rewrite Hl; [done|]. rewrite Hh.
  destruct r as [|d r]; [done|]. by rewrite Hd.
Qed.

Lemma lone_paired c r : lone c r → well_paired (c :: r) = false.
Proof.
  intros [Hl|(Hl & Hh & Hd)]; simpl; rewrite Hl; [done|]. rewrite Hh.
  destruct r as [|d r]; [done|]. by rewrite Hd.
Qed.

Lemma code_points_range s : jstr_wf s → Forall is_point (code_points s).
Proof.
  induction s as [|c d r Hl Hh Hd IH|c r Hl Hh IH|c r Hn IH] using points_ind; intros Hs.
  - apply Forall_nil_2.
  - rewrite code_points_pair by done. apply jstr_wf_cons in Hs as [_ [_ Hr]%jstr_wf_cons].
    apply Forall_cons_2; [|by apply IH]. pose proof (pair_point_range c d Hh Hd). unfold is_point. lia.
  - rewrite code_points_plain by done. apply jstr_wf_cons in Hs as [Hc Hr].
    apply Forall_cons_2; [|by apply IH]. unfold is_point, is_unit in *. lia.
  - rewrite code_points_lone by done. apply jstr_wf_cons in Hs as [_ Hr].
    apply Forall_cons_2; [|by apply IH]. unfold is_point. lia.
Qed.

Lemma utf8_encode_bytes s : jstr_wf s → bytes_ok (utf8_encode s).
Proof.
  intros Hs%code_points_range. unfold utf8_encode, bytes_ok.
  induction Hs as [|p l Hp _ IH]; [apply Forall_nil_2|]. simpl.
  apply Forall_app. split; [by apply utf8_bytes|done].
Qed.

Lemma utf16_of_utf8_point p l :
  is_point p → utf16_of_utf8 (utf8 p ++ l) = utf16_encode p ++ utf16_of_utf8 l.
Proof.
  unfold is_point, utf8. intros Hp. destruct (Z.ltb_spec p 128) as [H1|H1].
  { unfold utf16_encode. rewrite (proj2 (Z.ltb_lt p 65536)) by lia. cbn [app utf16_of_utf8].
    by rewrite (proj2 (Z.ltb_lt p 128)). }
  destruct (Z.ltb_spec p 2048) as [H2|H2].
  { unfold utf16_encode. rewrite (proj2 (Z.ltb_lt p 65536)) by lia. cbn [app utf16_of_utf8].
    rewrite (proj2 (Z.ltb_ge _ 128)), (proj2 (Z.ltb_lt _ 224)) by divmod.
    apply (f_equal2 cons); [divmod|done]. }
  destruct (Z.ltb_spec p 65536) as [H3|H3].
  { unfold utf16_encode. rewrite (proj2 (Z.ltb_lt p 65536)) by lia. cbn [app utf16_of_utf8].
    rewrite (proj2 (Z.ltb_ge _ 128)), (proj2 (Z.ltb_ge _ 224)), (proj2 (Z.ltb_lt _ 240)) by divmod.
    apply (f_equal2 cons); [divmod|done]. }
  cbn [app utf16_of_utf8].
  rewrite (proj2 (Z.ltb_ge _ 128)), (proj2 (Z.ltb_ge _ 224)), (proj2 (Z.ltb_ge _ 240)) by divmod.
  apply (f_equal2 app); [f_equal; divmod|done].
Qed.

(** The text is read back from its bytes, if all its surrogates are paired. *)
Lemma utf16_of_utf8_encode s :
  jstr_wf s → well_paired s = true → utf16_of_utf8 (utf8_encode s) = s.
Proof.
  unfold utf8_encode.
  induction s as [|c d r Hl Hh Hd IH|c r Hl Hh IH|c r Hn IH] using points_ind; intros Hs Hp.
  - done.
  - rewrite code_points_pair by done. cbn [flat_map].
    pose proof (pair_point_range c d Hh Hd) as Hr.
    rewrite utf16_of_utf8_point by (unfold is_point; lia).
    apply jstr_wf_cons in Hs as [_ [_ Hs]%jstr_wf_cons]. simpl in Hp. rewrite Hl, Hh, Hd in Hp.
    rewrite IH by done. unfold utf16_encode. rewrite (proj2 (Z.ltb_ge _ 65536)) by lia.
    apply is_high_spec in Hh. apply is_low_spec in Hd. unfold pair_point. cbn [app].
    repeat (apply (f_equal2 cons); [divmod|]). done.
  - rewrite code_points_plain by done. cbn [flat_map]. apply jstr_wf_cons in Hs as [Hc Hs].
    unfold is_unit in Hc. rewrite utf16_of_utf8_point by (unfold is_point; lia).
    simpl in Hp. rewrite Hl, Hh in Hp. rewrite IH by done. unfold utf16_encode.
    by rewrite (proj2 (Z.ltb_lt _ 65536)) by lia.
  - by rewrite lone_paired in Hp.
Qed.

(** ** What [atob] returns *)

Lemma quads_ind (P : list Z → Prop) :
  P [] → (∀ a, P [a]) → (∀ a b, P [a; b]) → (∀ a b c, P [a; b; c]) →
  (∀ a b c d r, P r → P (a :: b :: c :: d :: r)) → ∀ l, P l.
Proof.
  intros H0 H1 H2 H3 H4. fix IH 1. intros [|a [|b [|c [|d r]]]]; [exact H0|apply H1|apply H2|apply H3|apply H4, IH].
Qed.

Lemma octets_bytes l : Forall is_sextet l → bytes_ok (octets l).
Proof.
  unfold bytes_ok.
  induction l as [|a|a b|a b c|a b c d r IH] using quads_ind; intros Hl;
    repeat match goal with H : Forall _ (_ :: _) |- _ => inversion_clear H end;
    unfold is_sextet in *; simpl;
    repeat (apply Forall_cons_2; [unfold is_byte; divmod|]); auto using Forall_nil_2.
Qed.

Lemma unit_sextet_range c n : unit_sextet c = Some n → is_sextet n.
Proof.
  unfold unit_sextet, is_sextet, is_digit. intros H. repeat (case_match; boolify); simplify_eq; lia.
Qed.

Lemma strip_padding_length t : (length (strip_padding t) ≤ length t)%nat.
Proof.
  unfold strip_padding. case_match; [|done]. pose proof (length_rev t) as Hr.
  destruct (rev t) as [|c [|d r]]; simpl in Hr; repeat case_match; simplify_eq;
    rewrite ?length_rev; simpl; lia.
Qed.

Lemma atob_bytes s l : atob s = Ok l → bytes_ok l ∧ (4 * length l ≤ 3 * length s)%nat.
Proof.
  unfold atob. set (t := strip_padding _). case_match; [done|].
  destruct (mapM unit_sextet t) as [ns|] eqn:E; [|done]. intros [= <-].
  apply mapM_Some in E. split.
  - apply octets_bytes. clear -E. induction E as [|c n t ns Hc _ IH]; [apply Forall_nil_2|].
    apply Forall_cons_2; [by eapply unit_sextet_range|done].
  - apply Forall2_length in E.
    assert (length t ≤ length s)%nat.
    { trans (length (List.filter (λ c, negb (is_ascii_ws c)) s)); [|apply List.filter_length_le].
      apply strip_padding_length. }
    assert (4 * length (octets ns) ≤ 3 * length ns)%nat; [|lia].
    clear. induction ns as [|a|a b|a b c|a b c d r IH] using quads_ind; simpl; lia.
Qed.
