(* ===== verification/StatusCodeRules.v ===== *)
(** * HTTP status code rules

    [web/src/helpers/statusCodeRules.js]: the text of an automatic-disable or
    retry rule (["429, 500-503"]) is parsed into ranges of status codes, the
    ranges are merged, and the rule is printed back in normal form.

    Codes are read with [parseInt], so they are binary64 numbers until they
    have passed the range test; from then on they are integers in [100, 599]
    and are kept as [Z]. *)

From S2P Require Import Prelude JsString JsNumber JsValue.

Local Open Scope Z_scope.

Record range := { start : Z; stop : Z }.

#[export] Instance range_eq_dec : EqDecision range.
Proof. solve_decision. Defined.

Record rules := {
  ok : bool;
  ranges : list range;
  tokens : list jstr;
  normalized : jstr;
  invalidTokens : list jstr;
}.

(** [/^\d+$/.test(s)] *)
Definition isNumber (s : jstr) : bool := nonempty s && forallb is_digit s.

(** The two branches of [parseToken]: a range [a-b] and a single code. *)
Definition parse_range (a b : jstr) : option range :=
  if negb (isNumber a) || negb (isNumber b) then None else
  let start := parseInt a in
  let stop := parseInt b in
  if negb (isFinite start) || negb (isFinite stop) then None else
  if ngtb start stop then None else
  if nltb start (of_Z 100) || ngtb stop (of_Z 599) then None
  else Some {| start := int_of start; stop := int_of stop |}.

Definition parse_code (cleaned : jstr) : option range :=
  if negb (isNumber cleaned) then None else
  let code := parseInt cleaned in
  if negb (isFinite code) then None else
  if nltb code (of_Z 100) || ngtb code (of_Z 599) then None
  else Some {| start := int_of code; stop := int_of code |}.

Definition parseToken (token : jstr) : option range :=
  let cleaned := remove_unit 32 (trim token) in
  if negb (nonempty cleaned) then None else
  if includes (u "-") cleaned then
    match split_on 45 cleaned with
    | [a; b] => parse_range a b
    | _ => None
    end
  else parse_code cleaned.

(** The comparator of [sort]: [compare(a, b) <= 0]. *)
Definition range_le (a b : range) : bool :=
  if start a =? start b then stop a <=? stop b else start a <=? start b.

(** The loop of [mergeRanges]; [last] is the last element of [merged], the
    elements before it are final. *)
Fixpoint merge_loop (last : range) (sorted : list range) : list range :=
  match sorted with
  | [] => [last]
  | current :: sorted =>
    if start current <=? stop last + 1
    then merge_loop {| start := start last; stop := Z.max (stop last) (stop current) |} sorted
    else last :: merge_loop current sorted
  end.

Definition mergeRanges (ranges : list range) : list range :=
  match sort_by range_le ranges with
  | [] => []
  | first :: sorted => merge_loop first sorted
  end.

Definition range_token (r : range) : jstr :=
  if start r =? stop r then decZ (start r) else decZ (start r) ++ u "-" ++ decZ (stop r).

(** The loop over the segments: valid ranges and invalid tokens, in order. *)
Definition parse_segments (segments : list jstr) : list range * list jstr :=
  foldr (λ segment acc,
    let trimmed := trim segment in
    if negb (nonempty trimmed) then acc
    else match parseToken trimmed with
         | None => (acc.1, trimmed :: acc.2)
         | Some r => (r :: acc.1, acc.2)
         end) ([], []) segments.

Definition parse_rules_text (text : jstr) : rules :=
  let raw := trim text in
  if negb (nonempty raw) then
    {| ok := true; ranges := []; tokens := []; normalized := []; invalidTokens := [] |}
  else
    let sanitized := replace_unit 65292 44 raw in
    let '(rs, invalid) := parse_segments (split_on 44 sanitized) in
    if negb (bool_decide (invalid = [])) then
      {| ok := false; ranges := []; tokens := []; normalized := raw; invalidTokens := invalid |}
    else
      let merged := mergeRanges rs in
      let tokens := map range_token merged in
      {| ok := true; ranges := merged; tokens := tokens;
         normalized := join (u ",") tokens; invalidTokens := [] |}.

(** [parseHttpStatusCodeRules(input)]: [(input ?? '').toString()] first. *)
Definition parseHttpStatusCodeRules (input : val) : res rules :=
  rmap parse_rules_text (to_str (v_coalesce input (VStr []))).

(** ** What a token denotes *)

Definition code_ok (c : Z) : Prop := 100 ≤ c ≤ 599.
Definition range_ok (r : range) : Prop := code_ok (start r) ∧ code_ok (stop r) ∧ start r ≤ stop r.
Definition covers (rs : list range) (c : Z) : Prop := ∃ r, r ∈ rs ∧ start r ≤ c ≤ stop r.

Lemma isNumber_digits s : isNumber s = true ↔ s ≠ [] ∧ Forall (λ c, is_digit c = true) s.
Proof.
  unfold isNumber, nonempty. rewrite andb_true_iff, negb_true_iff, bool_decide_eq_false.
  rewrite forallb_forall, Forall_forall. by setoid_rewrite list_elem_of_In.
Qed.

Lemma parseInt_number s : isNumber s = true → parseInt s = round_int (dval s).
Proof. intros [Hne Hd]%isNumber_digits. by apply parseInt_numeral. Qed.

Lemma isNumber_dval s : isNumber s = true → 0 ≤ dval s.
Proof. intros [_ Hd]%isNumber_digits. by apply dval_nonneg. Qed.

Lemma parseInt_code s :
  isNumber s = true → dval s ≤ 599 → parseInt s = of_Z (dval s) ∧ int_of (parseInt s) = dval s.
Proof.
  intros Hs Hle. pose proof (isNumber_dval s Hs).
  rewrite parseInt_number, round_int_small by done. split; [done|]. apply int_of_small. lia.
Qed.

Lemma parse_range_spec a b r :
  parse_range a b = Some r ↔
  isNumber a = true ∧ isNumber b = true ∧ r = {| start := dval a; stop := dval b |} ∧ range_ok r.
Proof.
  unfold parse_range, range_ok, code_ok.
  destruct (isNumber a) eqn:Ea, (isNumber b) eqn:Eb; simpl; try naive_solver.
  pose proof (isNumber_dval a Ea) as Ha. pose proof (isNumber_dval b Eb) as Hb.
  rewrite !parseInt_number by done. unfold ngtb.
  destruct (round_int_ltb (dval a) 100 Ha ltac:(done)) as [-> _].
  destruct (round_int_ltb (dval b) 599 Hb ltac:(done)) as [_ ->].
  destruct (Z.ltb_spec (dval a) 100), (Z.ltb_spec 599 (dval b)); simpl;
    try (split; [by repeat case_match|]; intros (_ & _ & -> & ?); simpl in *; lia).
  rewrite (round_int_small (dval b)) by done.
  destruct (round_int_ltb (dval a) (dval b) Ha ltac:(lia)) as [_ ->].
  rewrite (of_Z_finite (dval b)), int_of_small by lia.
  destruct (Z.ltb_spec (dval b) (dval a)).
  { split; [by repeat case_match|]. intros (_ & _ & -> & ?); simpl in *; lia. }
  rewrite round_int_small, of_Z_finite, int_of_small by lia. simpl. split.
  - intros [= <-]. simpl. split_and!; (done || lia).
  - by intros (_ & _ & -> & _).
Qed.

Lemma parse_code_spec c r :
  parse_code c = Some r ↔
  isNumber c = true ∧ r = {| start := dval c; stop := dval c |} ∧ range_ok r.
Proof.
  unfold parse_code, range_ok, code_ok. destruct (isNumber c) eqn:Ec; simpl; [|naive_solver].
  pose proof (isNumber_dval c Ec) as Hc. rewrite !parseInt_number by done. unfold ngtb.
  destruct (round_int_ltb (dval c) 100 Hc ltac:(done)) as [-> _].
  destruct (round_int_ltb (dval c) 599 Hc ltac:(done)) as [_ ->].
  destruct (Z.ltb_spec (dval c) 100), (Z.ltb_spec 599 (dval c)); simpl;
    try (split; [by repeat case_match|]; intros (_ & -> & ?); simpl in *; lia).
  rewrite round_int_small, of_Z_finite, int_of_small by lia. simpl. split.
  - intros [= <-]. simpl. split_and!; (done || lia).
  - by intros (_ & -> & _).
Qed.

Lemma digits_no_dash s : Forall (λ c, is_digit c = true) s → 45 ∉ s.
Proof. intros H Hin. rewrite Forall_forall in H. by specialize (H 45 Hin). Qed.

Lemma number_no_dash s : isNumber s = true → 45 ∉ s.
Proof. intros [_ H]%isNumber_digits. by apply digits_no_dash. Qed.

(** The text of a token without blanks, and the range it denotes. *)
Definition token_denotes (c : jstr) (r : range) : Prop :=
  (isNumber c = true ∧ r = {| start := dval c; stop := dval c |}) ∨
  (∃ a b, c = a ++ 45 :: b ∧ isNumber a = true ∧ isNumber b = true ∧
          r = {| start := dval a; stop := dval b |}).

Lemma split_dash c a b : split_on 45 c = [a; b] → c = a ++ 45 :: b.
Proof. intros H. rewrite <- (split_on_join 45 c), H. done. Qed.

Lemma includes_unit d s : includes [d] s = true ↔ d ∈ s.
Proof.
  rewrite includes_spec. split.
  - intros (a & b & ->). set_solver.
  - intros (a & b & ->)%list_elem_of_split. by exists a, b.
Qed.

Lemma parseToken_spec t r :
  parseToken t = Some r ↔ token_denotes (remove_unit 32 (trim t)) r ∧ range_ok r.
Proof.
  unfold parseToken, token_denotes. set (c := remove_unit 32 (trim t)).
  destruct (nonempty c) eqn:En; simpl.
  2: { unfold nonempty in En. boolify. rewrite En. split; [done|].
       intros [[[? _]|(a & b & ? & _)] _]; [done|by destruct a]. }
  change (u "-") with [45]. destruct (includes [45] c) eqn:Ei.
  - apply includes_unit in Ei. split.
    + destruct (split_on 45 c) as [|a [|b [|]]] eqn:Es; try done.
      intros (Ha & Hb & -> & Hr)%parse_range_spec. apply split_dash in Es. split; [|done].
      right. eauto 10.
    + intros [[[Hc _]|(a & b & Hc & Ha & Hb & ->)] Hr]; [by apply number_no_dash in Hc|].
      rewrite Hc, split_on_app, split_on_free by (by apply number_no_dash).
      by apply parse_range_spec.
  - assert (Hnd : 45 ∉ c) by (intros ?%includes_unit; congruence).
    rewrite parse_code_spec. split; [naive_solver|].
    intros [[[Hc ->]|(a & b & Hc & _)] Hr]; [done|]. rewrite Hc in Hnd. set_solver.
Qed.

Lemma parseToken_ok t r : parseToken t = Some r → range_ok r.
Proof. by intros [_ ?]%parseToken_spec. Qed.

(** ** Merging *)

(** Consecutive ranges neither overlap nor touch. *)
Definition apart (a b : range) : Prop := stop a + 1 < start b.

Lemma covers_cons r rs c : covers (r :: rs) c ↔ start r ≤ c ≤ stop r ∨ covers rs c.
Proof. unfold covers. setoid_rewrite elem_of_cons. naive_solver. Qed.

Lemma covers_nil c : ¬ covers [] c.
Proof. intros (r & ?%elem_of_nil & _); done. Qed.

#[export] Instance covers_proper : Proper (Permutation ==> eq ==> iff) covers.
Proof.
  intros l k Hp c ? <-. unfold covers.
  split; intros (r & Hr & Hc); exists r; (split; [|done]); by rewrite Hp in * || rewrite <- Hp.
Qed.

Lemma range_le_start a b : range_le a b = true → start a ≤ start b.
Proof. unfold range_le. destruct (Z.eqb_spec (start a) (start b)); [lia|]. intros; by boolify. Qed.

Lemma range_le_spec a b :
  range_le a b = true ↔ start a < start b ∨ start a = start b ∧ stop a ≤ stop b.
Proof. unfold range_le. destruct (Z.eqb_spec (start a) (start b)); rewrite Z.leb_le; lia. Qed.

Lemma range_le_total a b : range_le a b = true ∨ range_le b a = true.
Proof. rewrite !range_le_spec. lia. Qed.

Lemma range_le_trans a b c : range_le a b = true → range_le b c = true → range_le a c = true.
Proof. rewrite !range_le_spec. lia. Qed.

Abbreviation by_start := (StronglySorted (λ x y : range, start x ≤ start y)).

Lemma by_start_replace (a b : range) l : start b = start a → by_start (a :: l) → by_start (b :: l).
Proof. intros E [Hs Hf]%StronglySorted_inv. constructor; [done|]. by rewrite E. Qed.

Lemma by_start_skip a b l : by_start (a :: b :: l) → by_start (a :: l).
Proof.
  intros [[Hs _]%StronglySorted_inv [_ Hf]%list.Forall_cons]%StronglySorted_inv. by constructor.
Qed.

(** The loop covers the same codes, keeps the ranges well formed and separates
    them. *)
Lemma merge_loop_covers last l c :
  start last ≤ stop last → by_start (last :: l) → Forall (λ r, start r ≤ stop r) l →
  covers (merge_loop last l) c ↔ covers (last :: l) c.
Proof.
  revert last. induction l as [|x l IH]; intros last Hlast Hs Hl; simpl; [done|].
  apply list.Forall_cons in Hl as [Hx Hl].
  pose proof (proj2 (StronglySorted_inv Hs)) as [Hlx _]%list.Forall_cons. simpl in Hlx.
  destruct (Z.leb_spec (start x) (stop last + 1)).
  - rewrite IH; [|simpl; lia| |done].
    + rewrite !covers_cons, (assoc or). simpl. apply or_iff_compat_r. lia.
    + eapply by_start_replace; [|eapply by_start_skip; exact Hs]. done.
  - rewrite !(covers_cons last), IH; [done|done| |done]. by apply StronglySorted_inv in Hs as [? _].
Qed.

Lemma merge_loop_apart last l :
  by_start (last :: l) →
  StronglySorted apart (merge_loop last l) ∧
  Forall (λ r, start last ≤ start r) (merge_loop last l).
Proof.
  revert last. induction l as [|x l IH]; intros last Hs; simpl; [by repeat constructor|].
  pose proof (proj2 (StronglySorted_inv Hs)) as [Hlx _]%list.Forall_cons. simpl in Hlx.
  destruct (Z.leb_spec (start x) (stop last + 1)).
  - apply (IH {| start := start last; stop := _ |}).
    eapply by_start_replace; [|eapply by_start_skip; exact Hs]. done.
  - destruct (IH x) as [Hap Hst]; [by apply StronglySorted_inv in Hs as [? _]|]. split.
    + constructor; [done|]. eapply Forall_impl; [exact Hst|]. unfold apart. simpl. lia.
    + constructor; [done|]. eapply Forall_impl; [exact Hst|]. simpl. lia.
Qed.

Lemma merge_loop_ok last l :
  range_ok last → Forall range_ok l → Forall range_ok (merge_loop last l).
Proof.
  revert last. induction l as [|x l IH]; intros last Hlast Hl; simpl; [by constructor|].
  apply list.Forall_cons in Hl as [Hx Hl]. destruct (_ <=? _).
  - apply IH; [|done]. unfold range_ok, code_ok in *. simpl. lia.
  - constructor; [done|]. by apply IH.
Qed.

Lemma merge_loop_id last l : StronglySorted apart (last :: l) → merge_loop last l = last :: l.
Proof.
  revert last. induction l as [|x l IH]; intros last Hs; simpl; [done|].
  apply StronglySorted_inv in Hs as [Hs Hf]. apply list.Forall_cons in Hf as [Hx _].
  unfold apart in Hx. destruct (Z.leb_spec (start x) (stop last + 1)); [lia|]. by rewrite IH.
Qed.

Lemma sort_ranges_sorted rs : by_start (sort_by range_le rs).
Proof.
  pose proof (sort_by_sorted range_le range_le_total range_le_trans rs) as H.
  induction H as [|x l Hl IH Hx]; constructor; [done|].
  eapply Forall_impl; [exact Hx|apply range_le_start].
Qed.

Lemma mergeRanges_covers rs c : Forall range_ok rs → covers (mergeRanges rs) c ↔ covers rs c.
Proof.
  intros Hok. unfold mergeRanges. pose proof (sort_by_perm range_le rs) as Hp.
  pose proof (sort_ranges_sorted rs) as Hs. rewrite <- Hp in Hok.
  transitivity (covers (sort_by range_le rs) c); [|by rewrite Hp]. clear Hp.
  destruct (sort_by range_le rs) as [|x l]; [done|].
  apply list.Forall_cons in Hok as [Hx Hl].
  apply merge_loop_covers; [by destruct Hx as (_ & _ & ?)|done|].
  eapply Forall_impl; [exact Hl|]. by intros r (_ & _ & ?).
Qed.

Lemma mergeRanges_apart rs : StronglySorted apart (mergeRanges rs).
Proof.
  unfold mergeRanges. pose proof (sort_ranges_sorted rs) as Hs.
  destruct (sort_by range_le rs); [constructor|]. by apply merge_loop_apart.
Qed.

Lemma mergeRanges_ok rs : Forall range_ok rs → Forall range_ok (mergeRanges rs).
Proof.
  intros Hok. unfold mergeRanges. rewrite <- (sort_by_perm range_le rs) in Hok.
  destruct (sort_by range_le rs) as [|x l]; [constructor|].
  apply list.Forall_cons in Hok as [Hx Hl]. by apply merge_loop_ok.
Qed.

(** Merging ranges that are already in normal form changes nothing. *)
Lemma mergeRanges_id rs :
  Forall range_ok rs → StronglySorted apart rs → mergeRanges rs = rs.
Proof.
  intros Hok Hap. unfold mergeRanges. rewrite sort_by_id.
  - destruct rs; [done|]. by apply merge_loop_id.
  - induction Hap as [|x l Hl IH Hx]; constructor.
    + apply IH. by apply list.Forall_cons in Hok as [_ ?].
    + apply list.Forall_cons in Hok as [(_ & _ & Hxx) _].
      eapply Forall_impl; [exact Hx|]. unfold apart, range_le. intros y Hy.
      destruct (Z.eqb_spec (start x) (start y)); [lia|]. apply Z.leb_le. lia.
Qed.

(** ** The whole parser *)

(** The segments of a text that are not blank, trimmed: what the loop looks at. *)
Definition rule_segments (text : jstr) : list jstr :=
  List.filter nonempty (map trim (split_on 44 (replace_unit 65292 44 (trim text)))).

Definition rejected (t : jstr) : bool := bool_decide (parseToken t = None).

Lemma parse_segments_spec segs :
  parse_segments segs =
  (omap parseToken (List.filter nonempty (map trim segs)),
   List.filter rejected (List.filter nonempty (map trim segs))).
Proof.
  unfold parse_segments, rejected. induction segs as [|s segs IH]; simpl; [done|]. rewrite IH.
  destruct (nonempty (trim s)); simpl; [|done].
  by destruct (parseToken (trim s)).
Qed.

Lemma rule_segments_blank text : trim text = [] → rule_segments text = [].
Proof. unfold rule_segments. by intros ->. Qed.

(** One equation for both branches: an empty text has no segments. *)
Lemma parse_rules_text_eq text :
  let segs := rule_segments text in
  let invalid := List.filter rejected segs in
  let merged := mergeRanges (omap parseToken segs) in
  parse_rules_text text =
  if decide (invalid = []) then
    {| ok := true; ranges := merged; tokens := map range_token merged;
       normalized := join (u ",") (map range_token merged); invalidTokens := [] |}
  else {| ok := false; ranges := []; tokens := []; normalized := trim text;
          invalidTokens := invalid |}.
Proof.
  simpl. unfold parse_rules_text. destruct (nonempty (trim text)) eqn:E; simpl.
  - rewrite parse_segments_spec. fold (rule_segments text).
    by case_bool_decide; case_decide.
  - unfold nonempty in E. boolify. by rewrite rule_segments_blank.
Qed.

Lemma omap_parseToken_ok segs : Forall range_ok (omap parseToken segs).
Proof.
  apply Forall_forall. intros r (t & _ & Hr)%list_elem_of_omap. by apply (parseToken_ok t).
Qed.

(** ** Printing and reading back *)

Definition token_unit (c : Z) : bool := is_digit c || (c =? 45).

Lemma token_unit_spec c : token_unit c = true → is_ws c = false ∧ c ≠ 32 ∧ c ≠ 44 ∧ c ≠ 65292.
Proof.
  unfold token_unit. rewrite orb_true_iff, is_digit_spec, Z.eqb_eq. intros Hc.
  split_and!; [|lia..]. destruct Hc as [Hc| ->]; [|done]. by apply digit_not_ws, is_digit_spec.
Qed.

Lemma dec_isNumber n : 0 ≤ n → isNumber (dec n) = true ∧ dval (dec n) = n.
Proof. intros Hn. destruct (dec_numeral n Hn). by rewrite isNumber_digits. Qed.

Lemma decZ_code c : code_ok c → decZ c = dec c.
Proof. unfold code_ok, decZ. intros. destruct (Z.ltb_spec c 0); [lia|done]. Qed.

Lemma isNumber_units s : isNumber s = true → Forall (λ c, token_unit c = true) s.
Proof.
  intros [_ H]%isNumber_digits. eapply Forall_impl; [exact H|]. simpl. unfold token_unit.
  by intros c ->.
Qed.

Lemma range_token_units r :
  range_ok r → range_token r ≠ [] ∧ Forall (λ c, token_unit c = true) (range_token r).
Proof.
  intros (Hs & He & _). unfold range_token. rewrite !decZ_code by done.
  destruct (dec_isNumber (start r)) as [Ha _]; [unfold code_ok in *; lia|].
  destruct (dec_isNumber (stop r)) as [Hb _]; [unfold code_ok in *; lia|].
  split.
  - apply isNumber_digits in Ha as [Ha _]. destruct (_ =? _); [done|]. by destruct (dec (start r)).
  - apply isNumber_units in Ha, Hb. destruct (_ =? _); [done|].
    rewrite !Forall_app. split_and!; [done|by repeat constructor|done].
Qed.

Lemma remove_unit_free c s : c ∉ s → remove_unit c s = s.
Proof.
  unfold remove_unit. induction s as [|x s IH]; [done|]. rewrite not_elem_of_cons. intros [Hx Hs].
  rewrite filter_cons_True by done. by rewrite IH.
Qed.

Lemma units_free d s : token_unit d = false → Forall (λ c, token_unit c = true) s → d ∉ s.
Proof. rewrite Forall_forall. intros Hd H Hin. specialize (H d Hin). simpl in H. congruence. Qed.

Lemma units_trim s : Forall (λ c, token_unit c = true) s → trim s = s.
Proof.
  intros H. apply trim_tight, tight_forall. eapply Forall_impl; [exact H|].
  intros c Hc%token_unit_spec. by destruct Hc.
Qed.

Lemma parseToken_range_token r : range_ok r → parseToken (range_token r) = Some r.
Proof.
  intros Hr. apply parseToken_spec. split; [|done].
  destruct (range_token_units r Hr) as [_ Hu].
  rewrite units_trim, remove_unit_free by (done || by eapply units_free).
  destruct r as [a b], Hr as (Ha & Hb & Hab). unfold token_denotes, range_token. simpl in *.
  rewrite !decZ_code by done. unfold code_ok in *.
  destruct (dec_isNumber a) as [Hna Hva]; [lia|]. destruct (dec_isNumber b) as [Hnb Hvb]; [lia|].
  destruct (Z.eqb_spec a b) as [<-|]; [left|right]; [by rewrite Hva|].
  exists (dec a), (dec b). by rewrite Hva, Hvb.
Qed.

Lemma replace_unit_free a b s : a ∉ s → replace_unit a b s = s.
Proof.
  unfold replace_unit. induction s as [|x s IH]; simpl; [done|].
  rewrite not_elem_of_cons. intros [Hx Hs]. rewrite IH by done.
  by destruct (Z.eqb_spec x a); [congruence|].
Qed.

(** A comma-separated list of printed tokens. *)
Definition token_list (toks : list jstr) : Prop :=
  Forall (λ t, t ≠ [] ∧ Forall (λ c, token_unit c = true) t) toks.

Lemma token_list_join toks :
  token_list toks →
  Forall (λ c, token_unit c = true ∨ c = 44) (join [44] toks) ∧ (toks ≠ [] → join [44] toks ≠ []).
Proof.
  intros H. induction H as [|t toks [Hne Ht] Htoks [IH _]]; [done|].
  assert (Hu : Forall (λ c, token_unit c = true ∨ c = 44) t)
    by (eapply Forall_impl; [exact Ht|]; by left).
  destruct toks as [|t' toks]; [done|]. rewrite join_cons2. split.
  - rewrite !Forall_app. split_and!; [done| |done]. constructor; [by right|constructor].
  - intros _. by destruct t.
Qed.

Lemma rule_segments_join toks : token_list toks → rule_segments (join [44] toks) = toks.
Proof.
  intros H. destruct (decide (toks = [])) as [->|Hne]; [done|].
  destruct (token_list_join toks H) as [Hu _]. unfold rule_segments.
  rewrite trim_tight, replace_unit_free, split_join; [|done|..].
  - clear Hu Hne. induction H as [|t toks [Ht Hu] _ IH]; simpl; [done|].
    rewrite units_trim by done. unfold nonempty at 1. rewrite bool_decide_eq_false_2 by done.
    simpl. by rewrite IH.
  - eapply Forall_impl; [exact H|]. intros t [_ Ht]. by eapply units_free.
  - rewrite Forall_forall in Hu. intros Hin. by destruct (Hu _ Hin).
  - apply tight_forall. eapply Forall_impl; [exact Hu|].
    intros c [Hc%token_unit_spec| ->]; [by destruct Hc|done].
Qed.

Lemma omap_range_token rs : Forall range_ok rs → omap parseToken (map range_token rs) = rs.
Proof. induction 1 as [|r rs Hr _ IH]; csimpl; [done|]. by rewrite parseToken_range_token, IH. Qed.

Lemma rejected_range_token rs :
  Forall range_ok rs → List.filter rejected (map range_token rs) = [].
Proof.
  induction 1 as [|r rs Hr _ IH]; simpl; [done|]. unfold rejected at 1.
  rewrite parseToken_range_token, bool_decide_eq_false_2 by done. done.
Qed.

(** Reading a printed normal form gives the same ranges. *)
Lemma parse_normal_form rs :
  Forall range_ok rs → StronglySorted apart rs →
  parse_rules_text (join (u ",") (map range_token rs)) =
  {| ok := true; ranges := rs; tokens := map range_token rs;
     normalized := join (u ",") (map range_token rs); invalidTokens := [] |}.
Proof.
  intros Hok Hap. change (u ",") with [44]. rewrite parse_rules_text_eq. cbv zeta.
  assert (Hl : token_list (map range_token rs)).
  { apply Forall_map_2. eapply Forall_impl; [exact Hok|apply range_token_units]. }
  rewrite rule_segments_join, rejected_range_token, omap_range_token, mergeRanges_id by done.
  by rewrite decide_True.
Qed.

(** ** The contract of the component *)

(** What a text means: the codes its non-blank segments denote. *)
Definition denotes_code (text : jstr) (c : Z) : Prop :=
  ∃ t r, t ∈ rule_segments text ∧ token_denotes (remove_unit 32 t) r ∧ range_ok r ∧
         start r ≤ c ≤ stop r.

Definition segment_valid (t : jstr) : Prop :=
  ∃ r, token_denotes (remove_unit 32 t) r ∧ range_ok r.

Lemma rule_segments_trim text t : t ∈ rule_segments text → trim t = t.
Proof.
  unfold rule_segments. rewrite list_elem_of_In, filter_In, <- list_elem_of_In, list_elem_of_fmap.
  intros [(s & -> & _) _]. apply trim_idem.
Qed.

Lemma parseToken_segment text t r :
  t ∈ rule_segments text →
  parseToken t = Some r ↔ token_denotes (remove_unit 32 t) r ∧ range_ok r.
Proof. intros Ht. by rewrite parseToken_spec, (rule_segments_trim text t Ht). Qed.

Lemma rejected_segment text t :
  t ∈ rule_segments text → rejected t = true ↔ ¬ segment_valid t.
Proof.
  intros Ht. unfold rejected, segment_valid. rewrite bool_decide_eq_true.
  setoid_rewrite <- (parseToken_segment text t); [|done]. rewrite eq_None_not_Some. done.
Qed.

(** C17: A rule text is accepted exactly when each of its non-blank
    comma-separated segments is, blanks removed, a code or a range [a-b] with
    [100 <= a <= b <= 599]; otherwise the result lists exactly the offending
    segments, in the order of the text, has no ranges and keeps the trimmed
    text. *)
Theorem parse_rules_accepts text :
  (ok (parse_rules_text text) = true ↔ ∀ t, t ∈ rule_segments text → segment_valid t) ∧
  (∀ t, t ∈ invalidTokens (parse_rules_text text) ↔
        t ∈ rule_segments text ∧ ¬ segment_valid t) ∧
  invalidTokens (parse_rules_text text) `sublist_of` rule_segments text ∧
  (ok (parse_rules_text text) = false →
   ranges (parse_rules_text text) = [] ∧ normalized (parse_rules_text text) = trim text).
Proof.
  rewrite parse_rules_text_eq. cbv zeta.
  assert (Hinv : ∀ t, t ∈ List.filter rejected (rule_segments text) ↔
                      t ∈ rule_segments text ∧ ¬ segment_valid t).
  { intros t. rewrite list_elem_of_In, filter_In, <- list_elem_of_In.
    pose proof (rejected_segment text t). naive_solver. }
  pose proof (filter_sublist_of rejected (rule_segments text)) as Hsub.
  destruct (decide _) as [E|E]; simpl.
  - rewrite E in Hinv. split_and!; [|set_solver|apply sublist_nil_l|done]. split; [|done].
    intros _ t Ht. destruct (decide (parseToken t = None)) as [Hn|Hn].
    + assert (Hr : rejected t = true) by (by apply bool_decide_eq_true).
      destruct (Hinv t) as [_ Hx]. destruct (not_elem_of_nil t). apply Hx.
      split; [done|]. by apply (rejected_segment text).
    + apply not_eq_None_Some in Hn as [r Hr]. exists r. by apply (parseToken_segment text).
  - split_and!; try done. split; [done|]. intros H.
    destruct (List.filter rejected (rule_segments text)) as [|t l]; [done|].
    destruct (proj1 (Hinv t) (list_elem_of_here _ _)) as [Ht Hn]. destruct (Hn (H t Ht)).
Qed.

(** The ranges of an accepted text cover exactly the codes its segments
    denote; they are in ascending order, do not overlap or touch, and stay
    within [100, 599]. *)
Theorem parse_rules_ranges text :
  ok (parse_rules_text text) = true →
  (∀ c, covers (ranges (parse_rules_text text)) c ↔ denotes_code text c) ∧
  StronglySorted apart (ranges (parse_rules_text text)) ∧
  Forall range_ok (ranges (parse_rules_text text)).
Proof.
  rewrite parse_rules_text_eq. cbv zeta. destruct (decide _) as [E|E]; simpl; [|done]. intros _.
  pose proof (omap_parseToken_ok (rule_segments text)) as Hok.
  split_and!; [|apply mergeRanges_apart|by apply mergeRanges_ok].
  intros c. rewrite mergeRanges_covers by done. unfold covers, denotes_code. split.
  - intros (r & (t & Ht & Hr)%list_elem_of_omap & Hc).
    apply (parseToken_segment text) in Hr as [? ?]; [|done]. by exists t, r.
  - intros (t & r & Ht & Hd & Hr & Hc). exists r. split; [|done].
    apply list_elem_of_omap. exists t. split; [done|]. by apply (parseToken_segment text).
Qed.

Lemma parse_rules_ranges_witness :
  ranges (parse_rules_text (u " 503 ,429，500-502,404")) =
    [{| start := 404; stop := 404 |}; {| start := 429; stop := 429 |};
     {| start := 500; stop := 503 |}] ∧
  Forall range_ok (ranges (parse_rules_text (u " 503 ,429，500-502,404"))).
Proof.
  split; [vm_compute; reflexivity|].
  apply (parse_rules_ranges (u " 503 ,429，500-502,404")). vm_compute; reflexivity.
Defined.

(** Normalisation is idempotent: reading the normal form of an accepted
    text gives back the same result, ranges, tokens and text. *)
Theorem parse_rules_idempotent text :
  ok (parse_rules_text text) = true →
  parse_rules_text (normalized (parse_rules_text text)) = parse_rules_text text.
Proof.
  rewrite parse_rules_text_eq. cbv zeta. destruct (decide _) as [E|E]; simpl; [|done]. intros _.
  apply parse_normal_form; [|apply mergeRanges_apart].
  apply mergeRanges_ok, omap_parseToken_ok.
Qed.

Lemma parse_rules_idempotent_witness :
  normalized (parse_rules_text (u "500-502, 503,429")) = u "429,500-503" ∧
  parse_rules_text (u "429,500-503") = parse_rules_text (u "500-502, 503,429").
Proof.
  split; [vm_compute; reflexivity|].
  apply (parse_rules_idempotent (u "500-502, 503,429")). vm_compute; reflexivity.
Defined.
