(* ===== verification/StatusCodeRisk.v ===== *)
(** * Risky status code redirects

    [web/src/components/table/channels/modals/statusCodeRiskGuard.js]: before a
    channel is saved, its status code mapping (the text of a JSON object) is
    searched for entries that are not a mapping of status codes, and for
    redirects of 504 and 524 that the operator has to confirm.

    The two collectors swallow a [SyntaxError] of [JSON.parse]; the template
    literal of [collectInvalidStatusCodeEntries] may throw, so that function
    has a [res] result. *)

From S2P Require Import Prelude JsString JsNumber JsValue Json.

Local Open Scope Z_scope.

Definition NON_REDIRECTABLE_STATUS_CODES : list Z := [504; 524].

(** [/^[1-5]\d{2}$/] *)
Definition code_pattern (s : jstr) : bool :=
  match s with
  | [a; b; c] => (49 <=? a) && (a <=? 53) && is_digit b && is_digit c
  | _ => false
  end.

(** The keys come from [Object.entries], so they are strings. *)
Definition parseStatusCodeKey (rawKey : jstr) : option Z :=
  let normalized := trim rawKey in
  if negb (code_pattern normalized) then None else Some (int_of (parseInt normalized)).

Definition parseStatusCodeMappingTarget (rawValue : val) : option Z :=
  match rawValue with
  | VNum n =>
    if isInteger n then
      if ngeb n (of_Z 100) && nleb n (of_Z 599) then Some (int_of n) else None
    else None
  | VStr s =>
    let normalized := trim s in
    if negb (code_pattern normalized) then None else
    let code := parseInt normalized in
    if ngeb code (of_Z 100) && nleb code (of_Z 599) then Some (int_of code) else None
  | _ => None
  end.

(** The guards both collectors start with: the entries to look at, if any. *)
Definition mapping_entries (mapping : val) : list (jstr * val) :=
  match mapping with
  | VStr text =>
    if trim text =s [] then []
    else match JSON_parse text with
         | Throw _ => []
         | Ok parsed => if is_plain parsed then entries parsed else []
         end
  | _ => []
  end.

Fixpoint invalid_loop (es : list (jstr * val)) : res (list jstr) :=
  match es with
  | [] => Ok []
  | (rawKey, rawValue) :: es =>
    match parseStatusCodeKey rawKey, parseStatusCodeMappingTarget rawValue with
    | Some _, Some _ => invalid_loop es
    | _, _ =>
      let! shown := to_str rawValue in
      let! rest := invalid_loop es in
      Ok ((rawKey ++ u " → " ++ shown) :: rest)
    end
  end.

Definition collectInvalidStatusCodeEntries (statusCodeMappingStr : val) : res (list jstr) :=
  invalid_loop (mapping_entries statusCodeMappingStr).

(** The callback of [forEach]: what an entry pushes. *)
Definition risky_mapping (e : jstr * val) : list jstr :=
  match parseStatusCodeKey e.1, parseStatusCodeMappingTarget e.2 with
  | Some fromCode, Some toCode =>
    if negb (bool_decide (fromCode ∈ NON_REDIRECTABLE_STATUS_CODES)) then []
    else if fromCode =? toCode then []
    else [decZ fromCode ++ u " -> " ++ decZ toCode]
  | _, _ => []
  end.

Definition unit_le (s t : jstr) : bool := unit_compare s t <=? 0.

Definition collectDisallowedStatusCodeRedirects (statusCodeMappingStr : val) : list jstr :=
  sort_by unit_le (set_array (mbind risky_mapping (mapping_entries statusCodeMappingStr))).

Definition collectNewDisallowedStatusCodeRedirects (original current : val) : list jstr :=
  let currentRisky := collectDisallowedStatusCodeRedirects current in
  match currentRisky with
  | [] => []
  | _ =>
    let originalRiskySet := set_array (collectDisallowedStatusCodeRedirects original) in
    List.filter (λ mapping, negb (bool_decide (mapping ∈ originalRiskySet))) currentRisky
  end.

(** ** Codes *)

Lemma code_pattern_spec s :
  code_pattern s = true →
  s ≠ [] ∧ Forall (λ c, is_digit c = true) s ∧ 100 ≤ dval s ≤ 599.
Proof.
  destruct s as [|a [|b [|c [|]]]]; try done. unfold code_pattern. intros. boolify.
  assert (Ha : is_digit a = true) by (apply is_digit_spec; lia).
  split_and!; [done|by repeat constructor|..];
    rewrite is_digit_spec in *; unfold dval, dval_from; simpl; lia.
Qed.

Lemma code_parseInt s :
  code_pattern s = true → parseInt s = of_Z (dval s) ∧ int_of (parseInt s) = dval s.
Proof.
  intros (Hne & Hd & Hr)%code_pattern_spec.
  rewrite parseInt_numeral, round_int_small by (done || lia). split; [done|].
  apply int_of_small. lia.
Qed.

Lemma parseStatusCodeKey_spec k c :
  parseStatusCodeKey k = Some c ↔ code_pattern (trim k) = true ∧ c = dval (trim k).
Proof.
  unfold parseStatusCodeKey. destruct (code_pattern (trim k)) eqn:E; simpl; [|naive_solver].
  destruct (code_parseInt _ E) as [_ ->]. naive_solver.
Qed.

Lemma parseStatusCodeKey_range k c : parseStatusCodeKey k = Some c → 100 ≤ c ≤ 599.
Proof. intros [H ->]%parseStatusCodeKey_spec. by apply code_pattern_spec in H as (_ & _ & ?). Qed.

(** The texts of the pattern are the numerals of the codes. *)
Definition code_name (s : jstr) (n : Z) : Prop := trim s = dec n ∧ 100 ≤ n ≤ 599.

Lemma code_numerals : Forall (λ n, code_pattern (dec n) = true) (seqZ 100 500).
Proof. apply (bool_decide_unpack _). vm_compute. reflexivity. Qed.

Lemma code_pattern_dec s n : code_pattern s = true ∧ n = dval s ↔ s = dec n ∧ 100 ≤ n ≤ 599.
Proof.
  assert (Hdec : ∀ n, 100 ≤ n ≤ 599 → code_pattern (dec n) = true ∧ dval (dec n) = n).
  { intros c Hc. split; [|apply numeral_val, dec_numeral; lia].
    pose proof code_numerals as HF. rewrite list.Forall_forall in HF. apply HF, elem_of_seqZ. lia. }
  split; [|intros [-> Hn]; destruct (Hdec n Hn); by split].
  intros [Hs ->]. pose proof (code_pattern_spec s Hs) as (_ & _ & Hr). split; [|done].
  destruct (Hdec _ Hr) as [Hp Hv]. revert Hp Hv. generalize (dec (dval s)). intros t Hp Hv.
  destruct s as [|a [|b [|c [|]]]]; try done. destruct t as [|a' [|b' [|c' [|]]]]; try done.
  unfold code_pattern in *. boolify. rewrite is_digit_spec in *. unfold dval, dval_from in Hv. simpl in Hv.
  assert (a = a' ∧ b = b' ∧ c = c') as (-> & -> & ->) by lia. done.
Qed.

(** A value a status code can be mapped to: an integer of the range, or text
    of three digits. *)
Definition target_code (v : val) (c : Z) : Prop :=
  match v with
  | VNum n => to_integer n = Some c ∧ 100 ≤ c ≤ 599
  | VStr s => code_pattern (trim s) = true ∧ c = dval (trim s)
  | _ => False
  end.

Lemma parseStatusCodeMappingTarget_spec v c :
  parseStatusCodeMappingTarget v = Some c ↔ target_code v c.
Proof.
  destruct v as [| | |n|s| | |]; try done; simpl.
  - unfold isInteger, int_of. destruct (to_integer n) as [z|] eqn:E; simpl; [|naive_solver].
    destruct (nleb_integer n z 599 E ltac:(done)) as [-> _].
    destruct (nleb_integer n z 100 E ltac:(done)) as [_ ->].
    destruct (Z.leb_spec 100 z), (Z.leb_spec z 599); simpl; naive_solver lia.
  - destruct (code_pattern (trim s)) eqn:E; simpl; [|naive_solver].
    destruct (code_parseInt _ E) as [-> _]. apply code_pattern_spec in E as (_ & _ & Hr).
    assert (Hz : to_integer (of_Z (dval (trim s))) = Some (dval (trim s)))
      by (apply to_integer_of_Z; lia).
    destruct (nleb_integer _ _ 599 Hz ltac:(done)) as [-> _].
    destruct (nleb_integer _ _ 100 Hz ltac:(done)) as [_ ->]. unfold int_of. rewrite Hz. simpl.
    destruct (Z.leb_spec 100 (dval (trim s))), (Z.leb_spec (dval (trim s)) 599); simpl; [|lia..].
    naive_solver.
Qed.

(** ** The contract of the collectors *)

(** A redirect the operator has to confirm. *)
Definition risky (m : val) (f t : Z) : Prop :=
  ∃ k v, (k, v) ∈ mapping_entries m ∧ parseStatusCodeKey k = Some f ∧ target_code v t ∧
         (f = 504 ∨ f = 524) ∧ f ≠ t.

Definition redirect_text (f t : Z) : jstr := decZ f ++ u " -> " ++ decZ t.

Lemma elem_of_risky_mapping s k v :
  s ∈ risky_mapping (k, v) ↔
  ∃ f t, parseStatusCodeKey k = Some f ∧ target_code v t ∧ (f = 504 ∨ f = 524) ∧ f ≠ t ∧
         s = redirect_text f t.
Proof.
  unfold risky_mapping. simpl. setoid_rewrite <- parseStatusCodeMappingTarget_spec.
  destruct (parseStatusCodeKey k) as [f|]; [|set_solver].
  destruct (parseStatusCodeMappingTarget v) as [t|]; [|set_solver].
  unfold NON_REDIRECTABLE_STATUS_CODES. case_bool_decide as Hf; simpl.
  - destruct (Z.eqb_spec f t); [naive_solver set_solver|].
    rewrite list_elem_of_singleton. unfold redirect_text. set_solver.
  - set_solver.
Qed.

Lemma elem_of_disallowed m s :
  s ∈ collectDisallowedStatusCodeRedirects m ↔ ∃ f t, risky m f t ∧ s = redirect_text f t.
Proof.
  unfold collectDisallowedStatusCodeRedirects, risky.
  rewrite sort_by_perm, elem_of_set_array, list_elem_of_bind. split.
  - intros ([k v] & (f & t & Hs)%elem_of_risky_mapping & He). exists f, t. naive_solver.
  - intros (f & t & (k & v & He & Hr) & ->). exists (k, v). split; [|done].
    apply elem_of_risky_mapping. naive_solver.
Qed.

Lemma unit_le_total s t : unit_le s t = true ∨ unit_le t s = true.
Proof. unfold unit_le. rewrite !Z.leb_le, (unit_compare_antisym s t). lia. Qed.

Lemma unit_le_trans s t r : unit_le s t = true → unit_le t r = true → unit_le s r = true.
Proof. unfold unit_le. rewrite !Z.leb_le. apply unit_compare_trans. Qed.

(** The redirects reported for a mapping are exactly the entries that map
    504 or 524 to another status code, without repetition and in code-unit
    order; text that is not a JSON object reports nothing. *)
Theorem disallowed_redirects_exact m :
  (∀ s, s ∈ collectDisallowedStatusCodeRedirects m ↔ ∃ f t, risky m f t ∧ s = redirect_text f t) ∧
  NoDup (collectDisallowedStatusCodeRedirects m) ∧
  StronglySorted (λ s t, unit_le s t = true) (collectDisallowedStatusCodeRedirects m).
Proof.
  split_and!; [apply elem_of_disallowed| |].
  - unfold collectDisallowedStatusCodeRedirects. rewrite sort_by_perm. apply NoDup_set_array.
  - apply sort_by_sorted; [apply unit_le_total|apply unit_le_trans].
Qed.

(** Only redirects that the stored mapping does not already have need a new
    confirmation: the result is the part of the current redirects that are not
    in the original, in the same order, and saving an unchanged mapping never
    asks. *)
Theorem new_disallowed_redirects original current :
  (∀ s, s ∈ collectNewDisallowedStatusCodeRedirects original current ↔
        s ∈ collectDisallowedStatusCodeRedirects current ∧
        s ∉ collectDisallowedStatusCodeRedirects original) ∧
  collectNewDisallowedStatusCodeRedirects original current
    `sublist_of` collectDisallowedStatusCodeRedirects current ∧
  collectNewDisallowedStatusCodeRedirects current current = [].
Proof.
  assert (Hin : ∀ o s, s ∈ collectNewDisallowedStatusCodeRedirects o current ↔
     s ∈ collectDisallowedStatusCodeRedirects current ∧
     s ∉ collectDisallowedStatusCodeRedirects o).
  { intros o s. unfold collectNewDisallowedStatusCodeRedirects.
    destruct (collectDisallowedStatusCodeRedirects current); [set_solver|].
    rewrite elem_of_filter_bool, negb_true_iff, bool_decide_eq_false, elem_of_set_array. done. }
  split_and!; [apply Hin| |].
  - unfold collectNewDisallowedStatusCodeRedirects.
    destruct (collectDisallowedStatusCodeRedirects current); [done|]. apply filter_sublist_of.
  - apply elem_of_nil_inv. intros s. rewrite Hin. tauto.
Qed.

(** *** What a mapping text redirects

    Read from the object the text is the JSON of, without the collectors *)

Definition names_target (v : val) (t : Z) : Prop :=
  match v with
  | VNum n => to_integer n = Some t ∧ 100 ≤ t ≤ 599
  | VStr s => code_name s t
  | _ => False
  end.
Definition redirects (m : val) (f t : Z) : Prop :=
  ∃ text o k v, m = VStr text ∧ JSON_parse text = Ok (VObj o) ∧ (k, v) ∈ o ∧ code_name k f ∧ names_target v t.

Lemma mapping_object text o : JSON_parse text = Ok (VObj o) → mapping_entries (VStr text) = o.
Proof.
  intros Hp. cbn [mapping_entries]. rewrite Hp.
  destruct (trim text =s []) eqn:E; [|done]. apply bool_decide_eq_true in E.
  by apply JSON_parse_nonblank in Hp.
Qed.

Lemma mapping_entry m e : e ∈ mapping_entries m → ∃ text o, m = VStr text ∧ JSON_parse text = Ok (VObj o) ∧ e ∈ o.
Proof.
  destruct m as [| | | |text| | |]; cbn [mapping_entries]; try by intros ?%elem_of_nil.
  destruct (trim text =s []); [by intros ?%elem_of_nil|].
  destruct (JSON_parse text) as [v|] eqn:E; [|by intros ?%elem_of_nil].
  destruct v; cbn [is_plain entries]; try by intros ?%elem_of_nil. intros He. eauto.
Qed.

Lemma target_names v t : target_code v t ↔ names_target v t.
Proof. destruct v; try done. apply code_pattern_dec. Qed.

Lemma key_names k f : parseStatusCodeKey k = Some f ↔ code_name k f.
Proof. rewrite parseStatusCodeKey_spec. apply code_pattern_dec. Qed.

Lemma risky_redirects m f t : risky m f t ↔ redirects m f t ∧ (f = 504 ∨ f = 524) ∧ f ≠ t.
Proof.
  unfold risky, redirects. setoid_rewrite target_names. setoid_rewrite key_names. split.
  - intros (k & v & (text & o & Hm & Hp & He)%mapping_entry & Hk & Hv & Hf & Hne). split; [|done].
    by exists text, o, k, v.
  - intros [(text & o & k & v & -> & Hp & He & Hk & Hv) [Hf Hne]]. exists k, v.
    rewrite (mapping_object _ _ Hp). done.
Qed.

(** An entry the collector accepts. *)
Definition entry_valid (e : jstr * val) : Prop :=
  code_pattern (trim e.1) = true ∧ ∃ c, target_code e.2 c.

#[export] Instance entry_valid_dec e : Decision (entry_valid e).
Proof.
  destruct (code_pattern (trim e.1)) eqn:E; [|right; intros [H _]; congruence].
  destruct (parseStatusCodeMappingTarget e.2) as [c|] eqn:Ec.
  - left. split; [done|]. exists c. by apply parseStatusCodeMappingTarget_spec.
  - right. intros [_ [c Hc%parseStatusCodeMappingTarget_spec]]. congruence.
Defined.

Lemma entry_valid_parse e :
  entry_valid e ↔ is_Some (parseStatusCodeKey e.1) ∧ is_Some (parseStatusCodeMappingTarget e.2).
Proof.
  unfold entry_valid, is_Some. setoid_rewrite parseStatusCodeMappingTarget_spec.
  setoid_rewrite parseStatusCodeKey_spec. naive_solver.
Qed.

Lemma invalid_loop_step e es :
  invalid_loop (e :: es) =
  if decide (entry_valid e) then invalid_loop es
  else rbind (to_str e.2) (λ shown, rmap (cons (e.1 ++ u " → " ++ shown)) (invalid_loop es)).
Proof.
  destruct e as [k v]. destruct (decide (entry_valid (k, v))) as [H|H]; simpl.
  - apply entry_valid_parse in H as [[? Hk] [? Hv]]. simpl in *. by rewrite Hk, Hv.
  - rewrite entry_valid_parse in H. simpl in H.
    destruct (parseStatusCodeKey k), (parseStatusCodeMappingTarget v); simpl;
      [destruct H; by split; eexists|..]; by destruct (to_str v), (invalid_loop es).
Qed.

(** The invalid entries of a mapping are reported in order, one line each;
    none is reported exactly when every entry maps a status code to a status
    code. *)
Theorem invalid_entries_exact m l :
  collectInvalidStatusCodeEntries m = Ok l →
  Forall2 (λ e s, ∃ shown, to_str e.2 = Ok shown ∧ s = e.1 ++ u " → " ++ shown)
          (filter (λ e, ¬ entry_valid e) (mapping_entries m)) l ∧
  (l = [] ↔ Forall entry_valid (mapping_entries m)).
Proof.
  unfold collectInvalidStatusCodeEntries. revert l.
  induction (mapping_entries m) as [|e es IH]; intros l.
  { intros [= <-]. by repeat constructor. }
  rewrite invalid_loop_step, filter_cons, list.Forall_cons. destruct (decide (entry_valid e)).
  - rewrite decide_False by tauto. intros H. destruct (IH l H). tauto.
  - rewrite decide_True by done. destruct (to_str e.2) as [shown|] eqn:Es; simpl; [|done].
    destruct (invalid_loop es) as [l'|]; simpl; [|done]. intros [= <-].
    destruct (IH l' eq_refl) as [H2 _]. split; [|naive_solver]. constructor; eauto.
Qed.

Lemma no_invalid_entries text o k v :
  collectInvalidStatusCodeEntries (VStr text) = Ok [] → JSON_parse text = Ok (VObj o) → (k, v) ∈ o →
  (∃ f, code_name k f) ∧ ∃ t, names_target v t.
Proof.
  intros Hc Hp He. assert (HF : Forall entry_valid (mapping_entries (VStr text))).
  { revert Hc. unfold collectInvalidStatusCodeEntries. induction (mapping_entries _) as [|e es IH]; [by constructor|].
    rewrite invalid_loop_step. destruct (decide (entry_valid e)); [by constructor; auto|].
    destruct (to_str e.2); simpl; [|done]. by destruct (invalid_loop es). }
  rewrite (mapping_object _ _ Hp), list.Forall_forall in HF. destruct (HF _ He) as [Hk [t Ht]]. cbn [fst snd] in *.
  split; [|exists t; by apply target_names]. exists (dval (trim k)). by apply code_pattern_dec.
Qed.

Lemma invalid_entries_exact_witness :
  collectInvalidStatusCodeEntries (VStr (uq "{'404':'200','4xx':500,'500':'9'}")) =
    Ok [u "500 → 9"; u "4xx → 500"] ∧
  ([u "500 → 9"; u "4xx → 500"] = [] ↔
   Forall entry_valid (mapping_entries (VStr (uq "{'404':'200','4xx':500,'500':'9'}")))).
Proof.
  split; [vm_compute; reflexivity|].
  apply (invalid_entries_exact (VStr (uq "{'404':'200','4xx':500,'500':'9'}"))).
  vm_compute; reflexivity.
Defined.
