(* ===== verification/ParamOverrideData.v ===== *)
(** * Tables of the parameter override editor

    The constants of
    [web/src/components/table/channels/modals/ParamOverrideEditorModal.jsx]
    and [web/src/constants/channel-affinity-template.constants.js]: the modes
    of an operation and of a condition, which fields each mode uses, the texts
    shown for each mode, and the template library.

    The mode of an operation is always one of the values of
    [OPERATION_MODE_OPTIONS] ([normalizeOperation] replaces any other by
    ['set'], and the editor offers no other), so modes are enumerations; the
    strings are [mode_text] and [cond_mode_text]. *)

From S2P Require Import Prelude JsString JsNumber JsValue.

Local Open Scope Z_scope.

Inductive op_mode :=
| MSet | MDelete | MAppend | MPrepend | MCopy | MMove | MReplace | MRegexReplace
| MTrimPrefix | MTrimSuffix | MEnsurePrefix | MEnsureSuffix | MTrimSpace | MToLower | MToUpper
| MReturnError | MPruneObjects | MPassHeaders | MSyncFields
| MSetHeader | MDeleteHeader | MCopyHeader | MMoveHeader.

Inductive cond_mode := CFull | CPrefix | CSuffix | CContains | CGt | CGte | CLt | CLte.

Inductive logic := AND | OR.

#[export] Instance op_mode_eq_dec : EqDecision op_mode.
Proof. solve_decision. Defined.
#[export] Instance cond_mode_eq_dec : EqDecision cond_mode.
Proof. solve_decision. Defined.
#[export] Instance logic_eq_dec : EqDecision logic.
Proof. solve_decision. Defined.

Definition mode_text (m : op_mode) : jstr :=
  match m with
  | MSet => u "set"
  | MDelete => u "delete"
  | MAppend => u "append"
  | MPrepend => u "prepend"
  | MCopy => u "copy"
  | MMove => u "move"
  | MReplace => u "replace"
  | MRegexReplace => u "regex_replace"
  | MTrimPrefix => u "trim_prefix"
  | MTrimSuffix => u "trim_suffix"
  | MEnsurePrefix => u "ensure_prefix"
  | MEnsureSuffix => u "ensure_suffix"
  | MTrimSpace => u "trim_space"
  | MToLower => u "to_lower"
  | MToUpper => u "to_upper"
  | MReturnError => u "return_error"
  | MPruneObjects => u "prune_objects"
  | MPassHeaders => u "pass_headers"
  | MSyncFields => u "sync_fields"
  | MSetHeader => u "set_header"
  | MDeleteHeader => u "delete_header"
  | MCopyHeader => u "copy_header"
  | MMoveHeader => u "move_header"
  end.

Definition OPERATION_MODE_OPTIONS : list (jstr * op_mode) :=
  [(u "设置字段", MSet); (u "删除字段", MDelete); (u "追加到末尾", MAppend);
   (u "追加到开头", MPrepend); (u "复制字段", MCopy); (u "移动字段", MMove);
   (u "字符串替换", MReplace); (u "正则替换", MRegexReplace); (u "裁剪前缀", MTrimPrefix);
   (u "裁剪后缀", MTrimSuffix); (u "确保前缀", MEnsurePrefix); (u "确保后缀", MEnsureSuffix);
   (u "去掉空白", MTrimSpace); (u "转小写", MToLower); (u "转大写", MToUpper);
   (u "返回自定义错误", MReturnError); (u "清理对象项", MPruneObjects);
   (u "请求头透传", MPassHeaders); (u "字段同步", MSyncFields); (u "设置请求头", MSetHeader);
   (u "删除请求头", MDeleteHeader); (u "复制请求头", MCopyHeader); (u "移动请求头", MMoveHeader)].

Definition cond_mode_text (m : cond_mode) : jstr :=
  match m with
  | CFull => u "full"
  | CPrefix => u "prefix"
  | CSuffix => u "suffix"
  | CContains => u "contains"
  | CGt => u "gt"
  | CGte => u "gte"
  | CLt => u "lt"
  | CLte => u "lte"
  end.

Definition CONDITION_MODE_OPTIONS : list (jstr * cond_mode) :=
  [(u "完全匹配", CFull); (u "前缀匹配", CPrefix); (u "后缀匹配", CSuffix); (u "包含", CContains);
   (u "大于", CGt); (u "大于等于", CGte); (u "小于", CLt); (u "小于等于", CLte)].

Definition logic_text (l : logic) : jstr := match l with AND => u "AND" | OR => u "OR" end.

(** [OPERATION_MODE_VALUES.has(v)]: the mode a value is the text of. *)
Definition as_op_mode (v : val) : option op_mode :=
  match v with
  | VStr s => List.find (λ m, mode_text m =s s) (map snd OPERATION_MODE_OPTIONS)
  | _ => None
  end.

Definition as_cond_mode (v : val) : option cond_mode :=
  match v with
  | VStr s => List.find (λ m, cond_mode_text m =s s) (map snd CONDITION_MODE_OPTIONS)
  | _ => None
  end.

(** The entries of [MODE_META]; a missing property reads as [false]. *)
Record mode_meta := {
  m_path : bool;
  m_pathOptional : bool;
  m_value : bool;
  m_keepOrigin : bool;
  m_from : bool;
  m_to : bool;
  m_pathAlias : bool;
}.

Definition meta (path pathOptional value keepOrigin from to pathAlias : bool) : mode_meta :=
  {| m_path := path; m_pathOptional := pathOptional; m_value := value;
     m_keepOrigin := keepOrigin; m_from := from; m_to := to; m_pathAlias := pathAlias |}.

Definition MODE_META (m : op_mode) : mode_meta :=
  match m with
  (*                       path  opt   value keep  from  to    alias *)
  | MDelete        => meta true  false false false false false false
  | MSet           => meta true  false true  true  false false false
  | MAppend        => meta true  false true  true  false false false
  | MPrepend       => meta true  false true  true  false false false
  | MCopy          => meta false false false false true  true  false
  | MMove          => meta false false false false true  true  false
  | MReplace       => meta true  false false false true  false false
  | MRegexReplace  => meta true  false false false true  false false
  | MTrimPrefix    => meta true  false true  false false false false
  | MTrimSuffix    => meta true  false true  false false false false
  | MEnsurePrefix  => meta true  false true  false false false false
  | MEnsureSuffix  => meta true  false true  false false false false
  | MTrimSpace     => meta true  false false false false false false
  | MToLower       => meta true  false false false false false false
  | MToUpper       => meta true  false false false false false false
  | MReturnError   => meta false false true  false false false false
  | MPruneObjects  => meta false true  true  false false false false
  | MPassHeaders   => meta false false true  true  false false false
  | MSyncFields    => meta false false false false true  true  false
  | MSetHeader     => meta true  false true  true  false false false
  | MDeleteHeader  => meta true  false false false false false false
  | MCopyHeader    => meta false false false true  true  true  true
  | MMoveHeader    => meta false false false true  true  true  true
  end.

Definition VALUE_REQUIRED_MODES : list op_mode :=
  [MTrimPrefix; MTrimSuffix; MEnsurePrefix; MEnsureSuffix; MSetHeader; MReturnError;
   MPruneObjects; MPassHeaders].

Definition FROM_REQUIRED_MODES : list op_mode :=
  [MCopy; MMove; MReplace; MRegexReplace; MCopyHeader; MMoveHeader; MSyncFields].

Definition TO_REQUIRED_MODES : list op_mode :=
  [MCopy; MMove; MCopyHeader; MMoveHeader; MSyncFields].

(** ** Texts of the form *)

Definition getModePathLabel (mode : op_mode) : jstr :=
  match mode with
  | MSetHeader | MDeleteHeader => u "请求头名称"
  | MPruneObjects => u "目标路径（可选）"
  | _ => u "目标字段路径"
  end.

Definition getModePathPlaceholder (mode : op_mode) : jstr :=
  match mode with
  | MSetHeader => u "Authorization"
  | MDeleteHeader => u "X-Debug-Mode"
  | MPruneObjects => u "messages"
  | _ => u "temperature"
  end.

Definition getModeFromLabel (mode : op_mode) : jstr :=
  match mode with
  | MReplace => u "匹配文本"
  | MRegexReplace => u "正则表达式"
  | MCopyHeader | MMoveHeader => u "来源请求头"
  | _ => u "来源字段"
  end.

Definition getModeFromPlaceholder (mode : op_mode) : jstr :=
  match mode with
  | MReplace => u "openai/"
  | MRegexReplace => u "^gpt-"
  | MCopyHeader | MMoveHeader => u "Authorization"
  | _ => u "model"
  end.

Definition getModeToLabel (mode : op_mode) : jstr :=
  match mode with
  | MReplace | MRegexReplace => u "替换为"
  | MCopyHeader | MMoveHeader => u "目标请求头"
  | _ => u "目标字段"
  end.

Definition getModeToPlaceholder (mode : op_mode) : jstr :=
  match mode with
  | MReplace => u "（可留空）"
  | MRegexReplace => u "openai/gpt-"
  | MCopyHeader | MMoveHeader => u "X-Upstream-Auth"
  | _ => u "original_model"
  end.

Definition getModeValueLabel (mode : op_mode) : jstr :=
  match mode with
  | MSetHeader => u "请求头值（支持字符串或 JSON 映射）"
  | MPassHeaders => u "透传请求头（支持逗号分隔或 JSON 数组）"
  | MTrimPrefix | MTrimSuffix | MEnsurePrefix | MEnsureSuffix => u "前后缀文本"
  | MPruneObjects => u "清理规则（字符串或 JSON 对象）"
  | _ => u "值（支持 JSON 或普通文本）"
  end.

Definition getModeValuePlaceholder (mode : op_mode) : jstr :=
  match mode with
  | MSetHeader =>
    join [10]
      [u "纯字符串（整条覆盖）："; u "Bearer sk-xxx"; []; u "或使用 JSON 规则："; u "{";
       uq "  'files-api-2025-04-14': null,";
       uq "  'advanced-tool-use-2025-11-20': 'tool-search-tool-2025-10-19',";
       uq "  '$append': ['context-1m-2025-08-07']"; u "}"]
  | MPassHeaders => u "Authorization, X-Request-Id"
  | MTrimPrefix | MTrimSuffix | MEnsurePrefix | MEnsureSuffix => u "openai/"
  | MPruneObjects => uq "{'type':'redacted_thinking'}"
  | _ => u "0.7"
  end.

(** ** Templates *)

(** An object literal. *)
Definition lit (l : list (string * val)) : val :=
  VObj (obj_of_entries (map (λ kv, (u kv.1, kv.2)) l)).
Definition str (s : string) : val := VStr (u s).
Arguments str s%_string_scope.

Local Open Scope string_scope.

Definition LEGACY_TEMPLATE : val :=
  lit [("temperature", VNum (of_Z 0)); ("max_tokens", VNum (of_Z 1000))].

Definition cond_lit (path mode value : string) : val :=
  lit [("path", str path); ("mode", str mode); ("value", str value)].

Definition OPERATION_TEMPLATE : val :=
  lit [("operations", VArr [
    lit [("description", str "Set default temperature for openai/* models.");
         ("path", str "temperature");
         ("mode", str "set");
         ("value", VNum (Number (u "0.7")));
         ("conditions", VArr [cond_lit "model" "prefix" "openai/"]);
         ("logic", str "AND")]])].

Definition HEADER_PASSTHROUGH_TEMPLATE : val :=
  lit [("operations", VArr [
    lit [("description", str "Pass through X-Request-Id header to upstream.");
         ("mode", str "pass_headers");
         ("value", VArr [str "X-Request-Id"]);
         ("keep_origin", VBool true)]])].

Definition GEMINI_IMAGE_4K_TEMPLATE : val :=
  lit [("operations", VArr [
    lit [("description",
            str "Set imageSize to 4K when model contains gemini/image and ends with 4k.");
         ("mode", str "set");
         ("path", str "generationConfig.imageConfig.imageSize");
         ("value", str "4K");
         ("conditions", VArr [cond_lit "original_model" "contains" "gemini";
                              cond_lit "original_model" "contains" "image";
                              cond_lit "original_model" "suffix" "4k"]);
         ("logic", str "AND")]])].

Definition AWS_BEDROCK_ANTHROPIC_COMPAT_TEMPLATE : val :=
  lit [("operations", VArr [
    lit [("description",
            str "Normalize anthropic-beta header tokens for Bedrock compatibility.");
         ("mode", str "set_header");
         ("path", str "anthropic-beta");
         ("value", lit
           [("advanced-tool-use-2025-11-20", str "tool-search-tool-2025-10-19");
            ("bash_20241022", VNull);
            ("bash_20250124", VNull);
            ("code-execution-2025-08-25", VNull);
            ("compact-2026-01-12", str "compact-2026-01-12");
            ("computer-use-2025-01-24", str "computer-use-2025-01-24");
            ("computer-use-2025-11-24", str "computer-use-2025-11-24");
            ("context-1m-2025-08-07", str "context-1m-2025-08-07");
            ("context-management-2025-06-27", str "context-management-2025-06-27");
            ("effort-2025-11-24", VNull);
            ("fast-mode-2026-02-01", VNull);
            ("files-api-2025-04-14", VNull);
            ("fine-grained-tool-streaming-2025-05-14", VNull);
            ("interleaved-thinking-2025-05-14", str "interleaved-thinking-2025-05-14");
            ("mcp-client-2025-11-20", VNull);
            ("mcp-client-2025-04-04", VNull);
            ("mcp-servers-2025-12-04", VNull);
            ("output-128k-2025-02-19", VNull);
            ("structured-output-2024-03-01", VNull);
            ("prompt-caching-scope-2026-01-05", VNull);
            ("skills-2025-10-02", VNull);
            ("structured-outputs-2025-11-13", VNull);
            ("text_editor_20241022", VNull);
            ("text_editor_20250124", VNull);
            ("token-efficient-tools-2025-02-19", VNull);
            ("tool-search-tool-2025-10-19", str "tool-search-tool-2025-10-19");
            ("web-fetch-2025-09-10", VNull);
            ("web-search-2025-03-05", VNull);
            ("oauth-2025-04-20", VNull)])];
    lit [("description",
            str "Remove all tools[*].custom.input_examples before upstream relay.");
         ("mode", str "delete");
         ("path", str "tools.*.custom.input_examples")]])].

(** [channel-affinity-template.constants.js] *)
Definition buildPassHeadersTemplate (headers : list val) : val :=
  lit [("operations", VArr [
    lit [("mode", str "pass_headers"); ("value", VArr headers); ("keep_origin", VBool true)]])].

Definition CODEX_CLI_HEADER_PASSTHROUGH_HEADERS : list val :=
  [str "Originator"; str "Session_id"; str "User-Agent"; str "X-Codex-Beta-Features";
   str "X-Codex-Turn-Metadata"].

Definition CLAUDE_CLI_HEADER_PASSTHROUGH_HEADERS : list val :=
  [str "X-Stainless-Arch"; str "X-Stainless-Lang"; str "X-Stainless-Os";
   str "X-Stainless-Package-Version"; str "X-Stainless-Retry-Count"; str "X-Stainless-Runtime";
   str "X-Stainless-Runtime-Version"; str "X-Stainless-Timeout"; str "User-Agent"; str "X-App";
   str "Anthropic-Beta"; str "Anthropic-Dangerous-Direct-Browser-Access";
   str "Anthropic-Version"].

Definition CODEX_CLI_HEADER_PASSTHROUGH_TEMPLATE : val :=
  buildPassHeadersTemplate CODEX_CLI_HEADER_PASSTHROUGH_HEADERS.
Definition CLAUDE_CLI_HEADER_PASSTHROUGH_TEMPLATE : val :=
  buildPassHeadersTemplate CLAUDE_CLI_HEADER_PASSTHROUGH_HEADERS.

Inductive preset_kind := KOperations | KLegacy.

Record preset := {
  pr_group : jstr;
  pr_label : jstr;
  pr_kind : preset_kind;
  pr_payload : val;
}.

Definition mk_preset (group label : string) (kind : preset_kind) (payload : val) : preset :=
  {| pr_group := u group; pr_label := u label; pr_kind := kind; pr_payload := payload |}.

Definition TEMPLATE_PRESET_CONFIG : list (jstr * preset) :=
  [(u "operations_default",
     mk_preset "basic" "新格式模板（规则集）" KOperations OPERATION_TEMPLATE);
   (u "legacy_default",
     mk_preset "basic" "旧格式模板（JSON 对象）" KLegacy LEGACY_TEMPLATE);
   (u "pass_headers_auth",
     mk_preset "scenario" "请求头透传（X-Request-Id）" KOperations HEADER_PASSTHROUGH_TEMPLATE);
   (u "gemini_image_4k",
     mk_preset "scenario" "Gemini 图片 4K" KOperations GEMINI_IMAGE_4K_TEMPLATE);
   (u "claude_cli_headers_passthrough",
     mk_preset "scenario" "Claude CLI 请求头透传" KOperations
       CLAUDE_CLI_HEADER_PASSTHROUGH_TEMPLATE);
   (u "codex_cli_headers_passthrough",
     mk_preset "scenario" "Codex CLI 请求头透传" KOperations
       CODEX_CLI_HEADER_PASSTHROUGH_TEMPLATE);
   (u "aws_bedrock_anthropic_beta_override",
     mk_preset "scenario" "AWS Bedrock Claude 兼容模板" KOperations
       AWS_BEDROCK_ANTHROPIC_COMPAT_TEMPLATE)].

(** ** The field guide *)

Record field := { f_key : jstr; f_label : jstr; f_tip : jstr }.
Record section := { s_title : jstr; s_fields : list field }.

Definition mk_field (key label tip : string) : field :=
  {| f_key := u key; f_label := u label; f_tip := u tip |}.

Definition BUILTIN_FIELD_SECTIONS : list section :=
  [{| s_title := u "常用请求字段";
      s_fields := [mk_field "model" "模型名称" "支持多级模型名，例如 openai/gpt-4o-mini";
                   mk_field "temperature" "采样温度" "控制输出随机性";
                   mk_field "max_tokens" "最大输出 Token" "控制输出长度上限";
                   mk_field "messages.-1.content" "最后一条消息内容" "常用于重写用户输入"] |};
   {| s_title := u "上下文字段";
      s_fields := [mk_field "retry.is_retry" "是否重试" "true 表示重试请求";
                   mk_field "last_error.code" "上次错误码" "配合重试策略使用";
                   mk_field "metadata.conversation_id" "会话 ID" "可用于路由或缓存命中"] |};
   {| s_title := u "请求头映射字段";
      s_fields := [mk_field "header_override_normalized.authorization"
                     "标准化 Authorization" "统一小写后可稳定匹配";
                   mk_field "header_override_normalized.x_debug_mode"
                     "标准化 X-Debug-Mode" "适合灰度 / 调试开关判断"] |}].

(** ** The tables agree with each other *)

Lemma mode_listed m : m ∈ map snd OPERATION_MODE_OPTIONS.
Proof. rewrite list_elem_of_In. destruct m; simpl; tauto. Qed.

Lemma as_op_mode_text m : as_op_mode (VStr (mode_text m)) = Some m.
Proof. by destruct m. Qed.

Lemma as_cond_mode_text m : as_cond_mode (VStr (cond_mode_text m)) = Some m.
Proof. by destruct m. Qed.

Lemma mode_text_tight m : mode_text m ≠ [] ∧ jstr_wf (mode_text m).
Proof. destruct m; split; (done || by repeat (constructor || (simpl; lia))). Qed.
