(* ===== verification/ParamOverride.v ===== *)
(** * Parameter overrides: reading, checking and writing the rules

    The functions of
    [web/src/components/table/channels/modals/ParamOverrideEditorModal.jsx]
    outside the React component, and the component's [buildOperationsJson] and
    [buildVisualJson]: the JSON text stored with a channel becomes a list of
    editable operations ([parseInitialState]) and is written back from it.

    Rows of the form carry a local id made of [Date.now()] and a module-level
    counter.  The counter is threaded through the code that makes rows by the
    monad [ID]; it advances even when that code throws; what the clock reads is
    part of the interface [Env]. *)

From S2P Require Import Prelude JsString JsNumber JsValue Json Browser ParamOverrideData.

Local Open Scope Z_scope.

(** ** Local ids *)

Definition ID (A : Type) : Type := nat → res A * nat.

Definition iret {A} (a : A) : ID A := λ n, (Ok a, n).
Definition ilift {A} (r : res A) : ID A := λ n, (r, n).
Definition ibind {A B} (m : ID A) (f : A → ID B) : ID B := λ n,
  match m n with
  | (Ok a, n) => f a n
  | (Throw e, n) => (Throw e, n)
  end.

Notation "'let*' x ':=' m 'in' k" := (ibind m (λ x, k))
  (at level 10, x pattern, m at level 100, k at level 200) : js_scope.

(** [l.map(f)] for a callback that makes ids. *)
Fixpoint imapM {A B} (f : A → ID B) (l : list A) : ID (list B) :=
  match l with
  | [] => iret []
  | x :: l => let* y := f x in let* ys := imapM f l in iret (y :: ys)
  end.

Definition local_id (time : Z) (n : nat) : jstr :=
  u "param_override_" ++ decZ time ++ u "_" ++ dec (Z.of_nat n).

Definition nextLocalId `{Env} : ID jstr := λ n, (Ok (local_id (date_now n) n), S n).

(** [if (b) payload[k] = v;] *)
Definition set_if (b : bool) (k : jstr) (v : val) (payload : obj) : obj :=
  if b then obj_set payload k v else payload.

(** ** Rows of the form *)

(** The same shape serves for a condition and for a prune rule. *)
Record condition := {
  c_id : jstr;
  c_path : jstr;
  c_mode : cond_mode;
  c_value_text : jstr;
  c_invert : bool;
  c_pass_missing_key : bool;
}.

Record operation := {
  id : jstr;
  description : jstr;
  path : jstr;
  mode : op_mode;
  value_text : jstr;
  keep_origin : bool;
  from : jstr;
  to : jstr;
  op_logic : logic;
  conditions : list condition;
}.

#[export] Instance condition_eq_dec : EqDecision condition.
Proof. solve_decision. Defined.
#[export] Instance operation_eq_dec : EqDecision operation.
Proof. solve_decision. Defined.

(** ** Values as text *)

(** Values are JSON data or [undefined] here, so [JSON.stringify] neither
    throws nor returns [undefined]. *)
Definition toValueText (value : val) : jstr :=
  match value with
  | VUndef => []
  | VStr s => s
  | _ => stringify_text value
  end.

Definition parseLooseValue (valueText : jstr) : val :=
  if trim valueText =s [] then VStr []
  else rcatch (JSON_parse valueText) (VStr valueText).

Definition verifyJSON (str : jstr) : bool := is_ok (JSON_parse str).

(** [String(item ?? '').trim()] *)
Definition trimmed_text (item : val) : res jstr := rmap trim (to_str (v_coalesce item (VStr []))).

(** [.map((item) => String(item ?? '').trim()).filter(Boolean)] *)
Definition header_names (l : list val) : res (list jstr) :=
  rmap (List.filter nonempty) (rmapM trimmed_text l).

Definition parsePassHeaderNames (rawValue : val) : res (list jstr) :=
  match rawValue with
  | VArr l => header_names l
  | VObj o =>
    match oget o (u "headers") with
    | VArr l => header_names l
    | _ =>
      if negb (is_undef (oget o (u "header"))) then
        let! single := trimmed_text (oget o (u "header")) in
        Ok (if nonempty single then [single] else [])
      else Ok []
    end
  | VStr s => Ok (List.filter nonempty (map trim (split_on 44 s)))
  | _ => Ok []
  end.

(** ** Drafts of the structured value editors *)

Record return_error_draft := {
  d_message : jstr;
  d_statusCode : num;
  d_code : jstr;
  d_type : jstr;
  d_skipRetry : bool;
  d_simpleMode : bool;
}.

(** [Number.isInteger(n) && n >= 100 && n <= 599 ? n : 400] *)
Definition status_or_400 (n : num) : num :=
  if isInteger n && ngeb n (of_Z 100) && nleb n (of_Z 599) then n else of_Z 400.

Definition simple_error_draft (message : jstr) : return_error_draft :=
  {| d_message := message; d_statusCode := of_Z 400; d_code := []; d_type := [];
     d_skipRetry := true; d_simpleMode := true |}.

(** The object branch; [None] when the value is something else. *)
Definition error_draft_of (parsed : val) : res (option return_error_draft) :=
  match parsed with
  | VObj o =>
    let statusRaw := if negb (is_undef (oget o (u "status_code")))
                     then oget o (u "status_code") else oget o (u "status") in
    let! statusValue := to_num statusRaw in
    let! message := to_str (v_or (v_or (oget o (u "message")) (oget o (u "msg"))) (VStr [])) in
    let! code := to_str (v_or (oget o (u "code")) (VStr [])) in
    let! type := to_str (v_or (oget o (u "type")) (VStr [])) in
    Ok (Some {| d_message := trim message; d_statusCode := status_or_400 statusValue;
                d_code := trim code; d_type := trim type;
                d_skipRetry := negb (is_false (oget o (u "skip_retry")));
                d_simpleMode := false |})
  | _ => Ok None
  end.

Definition parseReturnErrorDraft (valueText : jstr) : return_error_draft :=
  let raw := trim valueText in
  if negb (nonempty raw) then simple_error_draft []
  else match rbind (JSON_parse raw) error_draft_of with
       | Ok (Some d) => d
       | _ => simple_error_draft raw
       end.

Definition buildReturnErrorValueText (draft : return_error_draft) : jstr :=
  let message := trim (d_message draft) in
  if d_simpleMode draft then message else
  let payload := obj_of_entries [(u "message", VStr message);
                                 (u "status_code", VNum (status_or_400 (d_statusCode draft)))] in
  let code := trim (d_code draft) in
  let type := trim (d_type draft) in
  let payload := set_if (nonempty code) (u "code") (VStr code) payload in
  let payload := set_if (nonempty type) (u "type") (VStr type) payload in
  let payload := set_if (negb (d_skipRetry draft)) (u "skip_retry") (VBool false) payload in
  stringify_text (VObj payload).

(** [typeof v.k === 'string' ? v.k : ''] *)
Definition text_field (v : val) (k : jstr) : res jstr :=
  rmap (λ x, match x with VStr s => s | _ => [] end) (get v k).

(** [v.k === true] *)
Definition flag_field (v : val) (k : jstr) : res bool := rmap is_true (get v k).

(** [normalizePruneRule] and [normalizeCondition], which have the same body. *)
Definition normalize_row `{Env} (rule : val) : ID condition :=
  let* id := nextLocalId in
  let* path := ilift (text_field rule (u "path")) in
  let* mode := ilift (get rule (u "mode")) in
  let* value := ilift (get rule (u "value")) in
  let* invert := ilift (flag_field rule (u "invert")) in
  let* pass_missing_key := ilift (flag_field rule (u "pass_missing_key")) in
  iret {| c_id := id; c_path := path; c_mode := default CFull (as_cond_mode mode);
          c_value_text := toValueText value; c_invert := invert;
          c_pass_missing_key := pass_missing_key |}.

Definition normalizePruneRule `{Env} : val → ID condition := normalize_row.
Definition normalizeCondition `{Env} : val → ID condition := normalize_row.
Definition createDefaultCondition `{Env} : ID condition := normalizeCondition (VObj []).

Record prune_draft := {
  p_simpleMode : bool;
  p_typeText : jstr;
  p_logic : logic;
  p_recursive : bool;
  p_rules : list condition;
}.

Definition simple_prune_draft (typeText : jstr) : prune_draft :=
  {| p_simpleMode := true; p_typeText := typeText; p_logic := AND; p_recursive := true;
     p_rules := [] |}.

(** [{ path, mode: 'full', value }] *)
Definition where_rule (kv : jstr * val) : val :=
  VObj [(u "path", VStr kv.1); (u "mode", VStr (u "full")); (u "value", kv.2)].

(** [String(v || dflt).toUpperCase() === text] *)
Definition logic_is `{Unicode} (v : val) (dflt text : jstr) : res bool :=
  rmap (λ s, toUpperCase s =s text) (to_str (v_or v (VStr dflt))).

(** The rules of [parsed.where] and of [parsed.conditions]. *)
Definition where_rules `{Env} (w : val) : ID (list condition) :=
  match w with
  | VObj w => imapM normalizePruneRule (map where_rule w)
  | _ => iret []
  end.

Definition condition_rules `{Env} (c : val) : ID (list condition) :=
  match c with
  | VArr l => imapM normalizePruneRule (List.filter (λ v, truthy v && typeof_object v) l)
  | VObj c => imapM normalizePruneRule (map where_rule c)
  | _ => iret []
  end.

(** The object branch of [parsePruneObjectsDraft]. *)
Definition prune_draft_of `{Env} `{Unicode} (o : obj) : ID prune_draft :=
  let* rules := where_rules (oget o (u "where")) in
  let* more_rules := condition_rules (oget o (u "conditions")) in
  let* typeText :=
    ilift (if is_undef (oget o (u "type")) then Ok [] else rmap trim (to_str (oget o (u "type")))) in
  let* isOr := ilift (logic_is (oget o (u "logic")) (u "AND") (u "OR")) in
  let hasAdvancedFields :=
    negb (is_undef (oget o (u "logic"))) || negb (is_undef (oget o (u "recursive")))
    || negb (is_undef (oget o (u "where"))) || negb (is_undef (oget o (u "conditions"))) in
  iret {| p_simpleMode := negb hasAdvancedFields; p_typeText := typeText;
          p_logic := if isOr then OR else AND;
          p_recursive := negb (is_false (oget o (u "recursive")));
          p_rules := rules ++ more_rules |}.

(** [try { m } catch { d }] *)
Definition icatch {A} (m : ID A) (d : A) : ID A := λ n,
  match m n with
  | (Ok a, n) => (Ok a, n)
  | (Throw _, n) => (Ok d, n)
  end.

Definition parsePruneObjectsDraft `{Env} `{Unicode} (valueText : jstr) : ID prune_draft :=
  let raw := trim valueText in
  if negb (nonempty raw) then iret (simple_prune_draft []) else
  icatch
    (let* parsed := ilift (JSON_parse raw) in
     match parsed with
     | VStr s => iret (simple_prune_draft (trim s))
     | VObj o => prune_draft_of o
     | _ => let* s := ilift (trimmed_text parsed) in iret (simple_prune_draft s)
     end)
    (simple_prune_draft raw).

Definition prune_condition (rule : condition) : val :=
  let payload := obj_of_entries [(u "path", VStr (trim (c_path rule)));
                                 (u "mode", VStr (cond_mode_text (c_mode rule)))] in
  let valueRaw := trim (c_value_text rule) in
  let payload := set_if (nonempty valueRaw) (u "value") (parseLooseValue valueRaw) payload in
  let payload := set_if (c_invert rule) (u "invert") (VBool true) payload in
  let payload := set_if (c_pass_missing_key rule) (u "pass_missing_key") (VBool true) payload in
  VObj payload.

Definition buildPruneObjectsValueText `{Unicode} (draft : prune_draft) : jstr :=
  let typeText := trim (p_typeText draft) in
  if p_simpleMode draft then typeText else
  let payload := set_if (nonempty typeText) (u "type") (VStr typeText) [] in
  let payload := set_if (toUpperCase (logic_text (p_logic draft)) =s u "OR") (u "logic") (VStr (u "OR")) payload in
  let payload := set_if (negb (p_recursive draft)) (u "recursive") (VBool false) payload in
  let conditions :=
    map prune_condition (List.filter (λ rule, nonempty (trim (c_path rule))) (p_rules draft)) in
  let payload := match conditions with
                 | [] => payload
                 | _ => obj_set payload (u "conditions") (VArr conditions)
                 end in
  if negb (truthy (oget payload (u "type"))) && negb (truthy (oget payload (u "conditions")))
  then stringify_text (VObj [(u "logic", VStr (u "AND"))])
  else stringify_text (VObj payload).

(** ** Sync endpoints *)

Inductive sync_type := SJson | SHeader.
Record sync_target := { s_type : sync_type; s_key : jstr }.

Definition parseSyncTargetSpec `{Unicode} (spec : jstr) : sync_target :=
  let raw := trim spec in
  if negb (nonempty raw) then {| s_type := SJson; s_key := [] |} else
  match index_of (u ":") raw with
  | None => {| s_type := SJson; s_key := raw |}
  | Some idx =>
    let prefix := toLowerCase (trim (take idx raw)) in
    let key := trim (drop (S idx) raw) in
    if prefix =s u "header" then {| s_type := SHeader; s_key := key |}
    else {| s_type := SJson; s_key := key |}
  end.

Definition buildSyncTargetSpec (type : sync_type) (key : jstr) : jstr :=
  let normalizedType := match type with SHeader => u "header" | SJson => u "json" end in
  let normalizedKey := trim key in
  if negb (nonempty normalizedKey) then [] else normalizedType ++ u ":" ++ normalizedKey.

(** ** Operations *)

Definition normalizeOperation `{Env} `{Unicode} (op : val) : ID operation :=
  let* id := nextLocalId in
  let* description := ilift (text_field op (u "description")) in
  let* path := ilift (text_field op (u "path")) in
  let* mode := ilift (get op (u "mode")) in
  let* value := ilift (get op (u "value")) in
  let* keep_origin := ilift (flag_field op (u "keep_origin")) in
  let* from := ilift (text_field op (u "from")) in
  let* to := ilift (text_field op (u "to")) in
  let* logic := ilift (get op (u "logic")) in
  let* isAnd := ilift (logic_is logic (u "OR") (u "AND")) in
  let* conds := ilift (get op (u "conditions")) in
  let* conditions := match conds with
                     | VArr l => imapM normalizeCondition l
                     | _ => iret []
                     end in
  iret {| id := id; description := description; path := path;
          mode := default MSet (as_op_mode mode); value_text := toValueText value;
          keep_origin := keep_origin; from := from; to := to;
          op_logic := if isAnd then AND else OR; conditions := conditions |}.

Definition createDefaultOperation `{Env} `{Unicode} : ID operation :=
  normalizeOperation (VObj [(u "mode", VStr (u "set"))]).

Inductive drop_position := Before | After.

(** The list itself is returned when nothing is to be moved. *)
Definition reorderOperations (sourceOperations : list operation) (sourceId targetId : jstr)
    (position : drop_position) : list operation :=
  if negb (nonempty sourceId) || negb (nonempty targetId) || (sourceId =s targetId)
  then sourceOperations else
  match find_index (λ item, id item =s sourceId) sourceOperations with
  | None => sourceOperations
  | Some sourceIndex =>
    match splice1 sourceIndex sourceOperations with
    | (Some moved, nextOperations) =>
      match find_index (λ item, id item =s targetId) nextOperations with
      | None => sourceOperations
      | Some insertIndex =>
        let insertIndex := match position with After => S insertIndex | Before => insertIndex end in
        splice_ins insertIndex moved nextOperations
      end
    | (None, _) => sourceOperations
    end
  end.

(** [a || b || '-'] on strings *)
Definition first_text (l : list jstr) : jstr :=
  default (u "-") (List.find nonempty l).

Definition mode_label (m : op_mode) : jstr :=
  match List.find (λ lm, bool_decide (lm.2 = m)) OPERATION_MODE_OPTIONS with
  | Some (label, _) => label
  | None => mode_text m
  end.

Definition getOperationSummary (op : operation) (index : nat) : jstr :=
  let from := trim (from op) in
  let to := trim (to op) in
  let shown := match mode op with
               | MSyncFields => first_text [from; to]
               | _ => first_text [trim (path op); from; to]
               end in
  dec (Z.of_nat index + 1) ++ u ". " ++ mode_label (mode op) ++ u " · " ++ shown.

Definition getOperationModeTagColor (mode : jstr) : jstr :=
  if includes (u "header") mode then u "cyan" else
  if includes (u "replace") mode || includes (u "trim") mode then u "violet" else
  if includes (u "copy") mode || includes (u "move") mode then u "blue" else
  if includes (u "error") mode || includes (u "prune") mode then u "red" else
  if includes (u "sync") mode then u "green" else u "grey".

(** ** The stored text as form state *)

Inductive edit_mode := EVisual | EJson.
Inductive visual_mode := VOperations | VLegacy.

Record initial_state := {
  i_editMode : edit_mode;
  i_visualMode : visual_mode;
  i_legacyValue : jstr;
  i_operations : list operation;
  i_jsonText : jstr;
  i_jsonError : jstr;
}.

Definition default_operations `{Env} `{Unicode} : ID (list operation) :=
  let* op := createDefaultOperation in iret [op].

(** [parsed && typeof parsed === 'object' && !Array.isArray(parsed) &&
    Array.isArray(parsed.operations)] *)
Definition operations_of (parsed : val) : option (list val) :=
  match parsed with
  | VObj o => match oget o (u "operations") with VArr l => Some l | _ => None end
  | _ => None
  end.

(** [ops.length > 0 ? ops.map(normalizeOperation) : [createDefaultOperation()]] *)
Definition normalize_all `{Env} `{Unicode} (ops : list val) : ID (list operation) :=
  match ops with
  | [] => default_operations
  | _ => imapM normalizeOperation ops
  end.

Definition parseInitialState `{Env} `{Unicode} (rawValue : val) : ID initial_state :=
  let text := match rawValue with VStr s => s | _ => [] end in
  let trimmed := trim text in
  if negb (nonempty trimmed) then
    let* ops := default_operations in
    iret {| i_editMode := EVisual; i_visualMode := VOperations; i_legacyValue := [];
            i_operations := ops; i_jsonText := []; i_jsonError := [] |}
  else if negb (verifyJSON trimmed) then
    let* ops := default_operations in
    iret {| i_editMode := EJson; i_visualMode := VOperations; i_legacyValue := [];
            i_operations := ops; i_jsonText := text; i_jsonError := u "JSON 格式不正确" |}
  else
    let* parsed := ilift (JSON_parse trimmed) in
    let pretty := stringify2_text parsed in
    match operations_of parsed with
    | Some ops =>
      let* ops := normalize_all ops in
      iret {| i_editMode := EVisual; i_visualMode := VOperations; i_legacyValue := [];
              i_operations := ops; i_jsonText := pretty; i_jsonError := [] |}
    | None =>
      let* ops := default_operations in
      if is_plain parsed then
        iret {| i_editMode := EVisual; i_visualMode := VLegacy; i_legacyValue := pretty;
                i_operations := ops; i_jsonText := pretty; i_jsonError := [] |}
      else
        iret {| i_editMode := EJson; i_visualMode := VOperations; i_legacyValue := [];
                i_operations := ops; i_jsonText := pretty; i_jsonError := [] |}
    end.

(** ** Writing the rules *)

Definition condition_shown (c : condition) : bool :=
  nonempty (trim (c_path c)) || nonempty (trim (c_value_text c))
  || negb (bool_decide (c_mode c = CFull)) || c_invert c || c_pass_missing_key c.

Definition isOperationBlank (op : operation) : bool :=
  let hasCondition := existsb condition_shown (conditions op) in
  bool_decide (mode op = MSet) && negb (nonempty (trim (path op)))
  && negb (nonempty (trim (from op))) && negb (nonempty (trim (to op)))
  && (trim (value_text op) =s []) && negb (keep_origin op) && negb hasCondition.

(** [None] is the [null] that [filter(Boolean)] drops. *)
Definition buildConditionPayload (c : condition) : option val :=
  let path := trim (c_path c) in
  if negb (nonempty path) then None else
  let payload := obj_of_entries [(u "path", VStr path);
                                 (u "mode", VStr (cond_mode_text (c_mode c)));
                                 (u "value", parseLooseValue (c_value_text c))] in
  let payload := set_if (c_invert c) (u "invert") (VBool true) payload in
  let payload := set_if (c_pass_missing_key c) (u "pass_missing_key") (VBool true) payload in
  Some (VObj payload).

(** The complaints of [validateOperations], by the text given to [t]. *)
Inductive issue :=
| NoPath | NoFrom | NoTo | NoValue | NoMessage | NoPruneValue | NoPruneRule
| NoHeaderNames | BadHeaders.

Definition issue_key (i : issue) : jstr :=
  match i with
  | NoPath => u "第 {{line}} 条操作缺少目标路径"
  | NoFrom => u "第 {{line}} 条操作缺少来源字段"
  | NoTo => u "第 {{line}} 条操作缺少目标字段"
  | NoValue => u "第 {{line}} 条操作缺少值"
  | NoMessage => u "第 {{line}} 条 return_error 需要 message 字段"
  | NoPruneValue => u "第 {{line}} 条 prune_objects 缺少条件"
  | NoPruneRule => u "第 {{line}} 条 prune_objects 需要至少一个匹配条件"
  | NoHeaderNames => u "第 {{line}} 条请求头透传缺少请求头名称"
  | BadHeaders => u "第 {{line}} 条请求头透传格式无效"
  end.

#[export] Instance issue_eq_dec : EqDecision issue.
Proof. solve_decision. Defined.

(** The [return_error] block: an object needs a message.  An exception inside
    the [try] counts as no complaint. *)
Definition check_return_error (value_text : jstr) : option issue :=
  let raw := trim value_text in
  if negb (nonempty raw) then Some NoValue else
  match JSON_parse raw with
  | Ok (VObj o) =>
    match to_str (v_or (oget o (u "message")) (VStr [])) with
    | Ok message => if negb (nonempty (trim message)) then Some NoMessage else None
    | Throw _ => None
    end
  | _ => None
  end.

(** [v && typeof v === 'object' && !Array.isArray(v) && Object.keys(v).length > 0] *)
Definition nonempty_object (v : val) : bool :=
  match v with VObj (_ :: _) => true | _ => false end.

Definition check_prune_objects (value_text : jstr) : option issue :=
  let raw := trim value_text in
  if negb (nonempty raw) then Some NoPruneValue else
  match JSON_parse raw with
  | Ok (VObj o) =>
    let type := oget o (u "type") in
    let where_ := oget o (u "where") in
    let conditions := oget o (u "conditions") in
    match (if is_undef type then Ok [] else rmap trim (to_str type)) with
    | Throw _ => None
    | Ok typeText =>
      let hasType := negb (is_undef type) && nonempty typeText in
      let hasConditionsArray := match conditions with VArr (_ :: _) => true | _ => false end in
      if negb hasType && negb (nonempty_object where_) && negb hasConditionsArray
         && negb (nonempty_object conditions)
      then Some NoPruneRule else None
    end
  | _ => None
  end.

Definition check_pass_headers (value_text : jstr) : res (option issue) :=
  let raw := trim value_text in
  if negb (nonempty raw) then Ok (Some NoHeaderNames) else
  let! headers := parsePassHeaderNames (parseLooseValue raw) in
  Ok (match headers with [] => Some BadHeaders | _ => None end).

(** The body of the loop of [validateOperations]. *)
Definition check_operation (op : operation) : res (option issue) :=
  let mode := mode op in
  let meta := MODE_META mode in
  let pathValue := trim (path op) in
  let fromValue := trim (from op) in
  let toValue := trim (to op) in
  if m_path meta && negb (nonempty pathValue) then Ok (Some NoPath) else
  if bool_decide (mode ∈ FROM_REQUIRED_MODES) && negb (nonempty fromValue)
     && negb (m_pathAlias meta && nonempty pathValue) then Ok (Some NoFrom) else
  if bool_decide (mode ∈ TO_REQUIRED_MODES) && negb (nonempty toValue)
     && negb (m_pathAlias meta && nonempty pathValue) then Ok (Some NoTo) else
  if m_from meta && negb (nonempty fromValue) then Ok (Some NoFrom) else
  if m_to meta && negb (nonempty toValue) then Ok (Some NoTo) else
  if bool_decide (mode ∈ VALUE_REQUIRED_MODES) && (trim (value_text op) =s [])
  then Ok (Some NoValue) else
  match mode with
  | MReturnError => Ok (check_return_error (value_text op))
  | MPruneObjects => Ok (check_prune_objects (value_text op))
  | MPassHeaders => check_pass_headers (value_text op)
  | _ => Ok None
  end.

Fixpoint validate_from (i : nat) (operations : list operation) : res (option (nat * issue)) :=
  match operations with
  | [] => Ok None
  | op :: operations =>
    let! found := check_operation op in
    match found with
    | Some issue => Ok (Some (S i, issue))
    | None => validate_from (S i) operations
    end
  end.

Definition validateOperations `{Env} (operations : list operation) : res jstr :=
  let! found := validate_from 0 operations in
  Ok (match found with
      | Some (line, issue) => t (issue_key issue) (Some (Z.of_nat line))
      | None => []
      end).

(** The callback that builds the stored form of an operation. *)
Definition operation_payload (op : operation) : val :=
  let meta := MODE_META (mode op) in
  let descriptionValue := trim (description op) in
  let pathValue := trim (path op) in
  let fromValue := trim (from op) in
  let toValue := trim (to op) in
  let payload := obj_of_entries [(u "mode", VStr (mode_text (mode op)))] in
  let payload := set_if (nonempty descriptionValue) (u "description") (VStr descriptionValue) payload in
  let payload := set_if (m_path meta) (u "path") (VStr pathValue) payload in
  let payload := set_if (m_pathOptional meta && nonempty pathValue) (u "path") (VStr pathValue) payload in
  let payload := set_if (m_value meta) (u "value") (parseLooseValue (value_text op)) payload in
  let payload := set_if (m_keepOrigin meta && keep_origin op) (u "keep_origin") (VBool true) payload in
  let payload := set_if (m_from meta) (u "from") (VStr fromValue) payload in
  let payload := set_if (negb (m_to meta) && nonempty (trim (to op))) (u "to") (VStr toValue) payload in
  let payload := set_if (m_to meta) (u "to") (VStr toValue) payload in
  let payload :=
    if m_pathAlias meta then
      let payload := set_if (negb (truthy (oget payload (u "from"))) && nonempty pathValue)
                            (u "from") (VStr pathValue) payload in
      set_if (negb (truthy (oget payload (u "to"))) && nonempty pathValue)
             (u "to") (VStr pathValue) payload
    else payload in
  let conditions := omap buildConditionPayload (conditions op) in
  let payload := match conditions with
                 | [] => payload
                 | _ => obj_set (obj_set payload (u "conditions") (VArr conditions))
                                (u "logic") (VStr (logic_text (op_logic op)))
                 end in
  VObj payload.

Definition operations_text (ops : list operation) : jstr :=
  stringify2_text (VObj [(u "operations", VArr (map operation_payload ops))]).

Definition buildOperationsJson `{Env} (sourceOperations : list operation) (validate : bool)
    : res jstr :=
  let filteredOps := List.filter (λ item, negb (isOperationBlank item)) sourceOperations in
  match filteredOps with
  | [] => Ok []
  | _ =>
    let! message := if validate then validateOperations filteredOps else Ok [] in
    if nonempty message then Throw (UserError message) else Ok (operations_text filteredOps)
  end.

Definition buildVisualJson `{Env} (visualMode : visual_mode) (legacyValue : jstr)
    (operations : list operation) : res jstr :=
  match visualMode with
  | VLegacy =>
    let trimmed := trim legacyValue in
    if negb (nonempty trimmed) then Ok [] else
    if negb (verifyJSON trimmed)
    then Throw (UserError (t (u "参数覆盖必须是合法的 JSON 格式！") None)) else
    let! parsed := JSON_parse trimmed in
    if negb (is_plain parsed)
    then Throw (UserError (t (u "旧格式必须是 JSON 对象") None))
    else Ok (stringify2_text parsed)
  | VOperations => buildOperationsJson operations true
  end.

(** ** What a complete operation is *)

Definition filled (s : jstr) : Prop := trim s ≠ [].

Lemma filled_nonempty s : nonempty (trim s) = true ↔ filled s.
Proof. unfold nonempty, filled. rewrite negb_true_iff, bool_decide_eq_false. done. Qed.

Lemma not_filled s : nonempty (trim s) = false ↔ ¬ filled s.
Proof. rewrite <- filled_nonempty. by destruct (nonempty (trim s)). Qed.

(** A [return_error] value that is a JSON object names a message. *)
Definition error_value_ok (s : jstr) : Prop :=
  ∀ o m, JSON_parse (trim s) = Ok (VObj o) →
         to_str (v_or (oget o (u "message")) (VStr [])) = Ok m → filled m.

(** A [prune_objects] value that is a JSON object says what to prune. *)
Definition prune_value_ok (s : jstr) : Prop :=
  ∀ o, JSON_parse (trim s) = Ok (VObj o) →
       (oget o (u "type") ≠ VUndef ∧
        ∀ ty, to_str (oget o (u "type")) = Ok ty → filled ty) ∨
       nonempty_object (oget o (u "where")) = true ∨
       nonempty_object (oget o (u "conditions")) = true ∨
       ∃ c cs, oget o (u "conditions") = VArr (c :: cs).

(** A [pass_headers] value names at least one header. *)
Definition headers_value_ok (s : jstr) : Prop :=
  ∃ h hs, parsePassHeaderNames (parseLooseValue (trim s)) = Ok (h :: hs).

(** Every field the mode uses is filled in, and a structured value makes
    sense. *)
Record op_complete (op : operation) : Prop := {
  complete_path : m_path (MODE_META (mode op)) = true → filled (path op);
  complete_from : m_from (MODE_META (mode op)) = true → filled (from op);
  complete_to : m_to (MODE_META (mode op)) = true → filled (to op);
  complete_value : mode op ∈ VALUE_REQUIRED_MODES → filled (value_text op);
  complete_error : mode op = MReturnError → error_value_ok (value_text op);
  complete_prune : mode op = MPruneObjects → prune_value_ok (value_text op);
  complete_headers : mode op = MPassHeaders → headers_value_ok (value_text op);
}.

Lemma check_return_error_ok s :
  filled s → check_return_error s = None ↔ error_value_ok s.
Proof.
  intros Hs%filled_nonempty. unfold check_return_error, error_value_ok. rewrite Hs. simpl.
  destruct (JSON_parse (trim s)) as [[| | | | | |o|]|]; simpl; try naive_solver.
  destruct (to_str _) as [m|] eqn:E; [|split; [|done]; intros _ o' m [= <-] ?; congruence].
  destruct (nonempty (trim m)) eqn:Em; simpl.
  - apply filled_nonempty in Em. split; [|done]. intros _ o' m' [= <-] Hm. congruence.
  - apply not_filled in Em. split; [done|]. intros H. by destruct (Em (H o m eq_refl E)).
Qed.

Lemma check_prune_objects_ok s :
  filled s → check_prune_objects s = None ↔ prune_value_ok s.
Proof.
  intros Hs%filled_nonempty. unfold check_prune_objects, prune_value_ok. rewrite Hs. simpl.
  destruct (JSON_parse (trim s)) as [[| | | | | |o|]|]; simpl; try naive_solver.
  set (ty := oget o (u "type")). set (wh := oget o (u "where")). set (cs := oget o (u "conditions")).
  transitivity ((ty ≠ VUndef ∧ ∀ x, to_str ty = Ok x → filled x) ∨
    nonempty_object wh = true ∨ nonempty_object cs = true ∨ ∃ c l, cs = VArr (c :: l));
    [|split; [intros H o' [= <-]; exact H|intros H; by apply H]].
  assert (Hcs : (match cs with VArr (_ :: _) => true | _ => false end) = true ↔
                ∃ c l, cs = VArr (c :: l)).
  { split; [|by intros (c & l & ->)]. destruct cs as [| | | | |[|c l]| |]; try done. eauto. }
  rewrite <- Hcs. generalize (nonempty_object wh), (nonempty_object cs).
  generalize (match cs with VArr (_ :: _) => true | _ => false end).
  intros b1 b2 b3. clear -ty.
  assert (Hty : match (if is_undef ty then Ok [] else rmap trim (to_str ty)) with
                | Throw _ => ty ≠ VUndef ∧ ∀ x, to_str ty = Ok x → filled x
                | Ok x => negb (is_undef ty) && nonempty x = true ↔
                          ty ≠ VUndef ∧ ∀ x, to_str ty = Ok x → filled x
                end).
  { destruct (is_undef ty) eqn:Eu; [destruct ty; try done; simpl; by split; [|intros [? _]]|].
    assert (ty ≠ VUndef) by (by intros ->).
    destruct (to_str ty) as [x|] eqn:Et; simpl; [|naive_solver].
    rewrite filled_nonempty. naive_solver. }
  destruct (if is_undef ty then _ else _) as [x|]; [|naive_solver].
  destruct (negb (is_undef ty) && nonempty x), b1, b2, b3; simpl; naive_solver.
Qed.

Lemma check_pass_headers_ok s :
  filled s → check_pass_headers s = Ok None ↔ headers_value_ok s.
Proof.
  intros Hs%filled_nonempty. unfold check_pass_headers, headers_value_ok. rewrite Hs. simpl.
  destruct (parsePassHeaderNames _) as [[|h hs]|]; simpl; naive_solver.
Qed.

(** The tests on [FROM_REQUIRED_MODES] and [TO_REQUIRED_MODES], with their
    exemption for [pathAlias], are subsumed by those on the table. *)
Lemma required_subsumed m :
  (m ∈ FROM_REQUIRED_MODES ↔ m_from (MODE_META m) = true) ∧
  (m ∈ TO_REQUIRED_MODES ↔ m_to (MODE_META m) = true).
Proof.
  unfold FROM_REQUIRED_MODES, TO_REQUIRED_MODES. rewrite !list_elem_of_In.
  destruct m; simpl; intuition congruence.
Qed.

Lemma guard_ok (b : bool) (i : issue) (r : res (option issue)) :
  (if b then Ok (Some i) else r) = Ok None ↔ b = false ∧ r = Ok None.
Proof. destruct b; naive_solver. Qed.

Lemma guard_filled (b : bool) s :
  b && negb (nonempty (trim s)) = false ↔ (b = true → filled s).
Proof. rewrite <- filled_nonempty. destruct b, (nonempty (trim s)); naive_solver. Qed.

Lemma structured_check_ok op :
  (mode op ∈ VALUE_REQUIRED_MODES → filled (value_text op)) →
  match mode op with
  | MReturnError => Ok (check_return_error (value_text op))
  | MPruneObjects => Ok (check_prune_objects (value_text op))
  | MPassHeaders => check_pass_headers (value_text op)
  | _ => Ok None
  end = Ok None ↔
  (mode op = MReturnError → error_value_ok (value_text op)) ∧
  (mode op = MPruneObjects → prune_value_ok (value_text op)) ∧
  (mode op = MPassHeaders → headers_value_ok (value_text op)).
Proof.
  intros Hv. unfold VALUE_REQUIRED_MODES in Hv. rewrite list_elem_of_In in Hv.
  destruct (mode op); try (split; [intros _; split_and!; discriminate|done]);
    specialize (Hv ltac:(simpl; tauto)).
  - rewrite <- check_return_error_ok by done.
    split; [intros [= ->]; split_and!; congruence|intros (E & _ & _); by rewrite E].
  - rewrite <- check_prune_objects_ok by done.
    split; [intros [= ->]; split_and!; congruence|intros (_ & E & _); by rewrite E].
  - rewrite <- check_pass_headers_ok by done.
    split; [intros ->; split_and!; congruence|intros (_ & _ & E); by rewrite E].
Qed.

Lemma check_operation_ok op : check_operation op = Ok None ↔ op_complete op.
Proof.
  destruct (required_subsumed (mode op)) as [HF HT]. unfold check_operation. cbv zeta.
  rewrite !guard_ok, !guard_filled.
  assert (Hv : bool_decide (mode op ∈ VALUE_REQUIRED_MODES) && (trim (value_text op) =s []) = false
               ↔ (mode op ∈ VALUE_REQUIRED_MODES → filled (value_text op))).
  { unfold filled. do 2 case_bool_decide; simpl; naive_solver. }
  rewrite Hv. split.
  - intros (Hp & _ & _ & Hf & Ht & Hval & Hs). apply structured_check_ok in Hs; [|done].
    destruct Hs as (? & ? & ?). by split.
  - intros [Hp Hf Ht Hval He Hpr Hh].
    assert (HF' : bool_decide (mode op ∈ FROM_REQUIRED_MODES) && negb (nonempty (trim (from op))) = false).
    { apply guard_filled. rewrite bool_decide_eq_true, HF. done. }
    assert (HT' : bool_decide (mode op ∈ TO_REQUIRED_MODES) && negb (nonempty (trim (to op))) = false).
    { apply guard_filled. rewrite bool_decide_eq_true, HT. done. }
    split_and!; try done; [by rewrite HF'|by rewrite HT'|]. by apply structured_check_ok.
Qed.

Lemma validate_from_None i ops : validate_from i ops = Ok None ↔ Forall op_complete ops.
Proof.
  revert i. induction ops as [|op ops IH]; intros i; cbn [validate_from]; [by split|].
  rewrite list.Forall_cons, <- check_operation_ok, <- (IH (S i)).
  destruct (check_operation op) as [[|]|]; simpl; naive_solver.
Qed.

Lemma validate_from_Some i ops line iss :
  validate_from i ops = Ok (Some (line, iss)) →
  ∃ j op, ops !! j = Some op ∧ check_operation op = Ok (Some iss) ∧ line = S (i + j) ∧
          Forall op_complete (take j ops).
Proof.
  revert i. induction ops as [|op ops IH]; intros i; cbn [validate_from]; [done|].
  destruct (check_operation op) as [[iss'|]|] eqn:E; simpl; [|intros H|done].
  - intros [= <- ->]. exists 0%nat, op. split_and!; [done|done|lia|constructor].
  - destruct (IH (S i) H) as (j & op' & Hj & Hc & -> & Ht). exists (S j), op'.
    split_and!; [done|done|lia|]. constructor; [by apply check_operation_ok|done].
Qed.

(** The nine complaints have translations that are not empty: an empty message would count as
    acceptance. *)
Definition issues_translated `{Env} : Prop := ∀ iss line, t (issue_key iss) (Some line) ≠ [].

Lemma validateOperations_complete `{Env} ops : Forall op_complete ops → validateOperations ops = Ok [].
Proof. intros Hc. apply (validate_from_None 0) in Hc. unfold validateOperations. by rewrite Hc. Qed.
Lemma validateOperations_nil `{Env} ops :
  issues_translated → validateOperations ops = Ok [] ↔ Forall op_complete ops.
Proof.
  intros Htr. split; [|apply validateOperations_complete]. rewrite <- (validate_from_None 0). unfold validateOperations.
  destruct (validate_from 0 ops) as [[[line iss]|]|] eqn:E; simpl; [|done|done].
  intros [= Ht]. exfalso. revert Ht. apply Htr.
Qed.

(** C24: Validation accepts a list of operations exactly when every operation has
    the fields its mode uses filled in and, for the structured modes, a value
    that makes sense.  The complaints must have translations that are not empty, as they
    have in every locale of the program. *)
Theorem validateOperations_accepts `{Env} ops :
  issues_translated → validateOperations ops = Ok [] ↔ Forall op_complete ops.
Proof. apply validateOperations_nil. Qed.

(** A complaint of the validation is about the first operation that is not
    complete, and names its line. *)
Theorem validateOperations_first_error `{Env} ops msg :
  validateOperations ops = Ok msg → msg ≠ [] →
  ∃ j op iss, ops !! j = Some op ∧ ¬ op_complete op ∧ Forall op_complete (take j ops) ∧
              check_operation op = Ok (Some iss) ∧
              msg = t (issue_key iss) (Some (Z.of_nat j + 1)).
Proof.
  unfold validateOperations. destruct (validate_from 0 ops) as [[[line iss]|]|] eqn:E; simpl;
    [|by intros [= <-]|done].
  intros [= <-] _. apply validate_from_Some in E as (j & op & Hj & Hc & -> & Ht).
  exists j, op, iss. split_and!; try done.
  - rewrite <- check_operation_ok. congruence.
  - do 2 f_equal. lia.
Qed.

(** Although the modes with [pathAlias] are exempted from the first test on
    the source field when the path is given, a blank source is always rejected
    for them: the exemption has no effect. *)
Theorem path_alias_exemption_dead op :
  m_pathAlias (MODE_META (mode op)) = true → ¬ filled (from op) →
  check_operation op = Ok (Some NoFrom).
Proof.
  intros Hm Hf%not_filled. unfold check_operation.
  destruct (mode op); simpl in Hm; try done; cbn -[trim nonempty]; rewrite Hf;
    destruct (nonempty (trim (path op))), (nonempty (trim (to op))); reflexivity.
Qed.

(** ** Moving operations *)

Lemma splice1_find (ops : list operation) src i :
  find_index (λ item, id item =s src) ops = Some i → NoDup (map id ops) →
  ∃ moved, id moved = src ∧ ops !! i = Some moved ∧
           take i ops ++ drop (S i) ops = List.filter (λ item, negb (id item =s src)) ops.
Proof.
  revert i. induction ops as [|op ops IH]; intros i; cbn [find_index]; [done|].
  rewrite map_cons, NoDup_cons. intros Hi [Hnin Hnd]. cbn [List.filter].
  destruct (bool_decide (id op = src)) eqn:E; boolify.
  - injection Hi as <-. exists op. split_and!; [done..|]. simpl. symmetry. apply filter_all.
    apply Forall_forall. intros x Hx. apply negb_true_iff, bool_decide_eq_false. intros Hid.
    apply Hnin. rewrite E, <- Hid. apply list_elem_of_fmap. eauto.
  - apply fmap_Some in Hi as (j & Hj & ->). destruct (IH j Hj Hnd) as (moved & Hm & Hl & Heq).
    exists moved. split_and!; [done..|]. simpl. by rewrite <- Heq.
Qed.

(** Moving an operation takes it out of the list and puts it next to the
    target, on the side asked for; the other operations keep their order. *)
Theorem reorderOperations_moves ops src dst pos :
  NoDup (map id ops) → src ≠ [] → dst ≠ [] → src ≠ dst →
  src ∈ map id ops → dst ∈ map id ops →
  ∃ moved target l1 l2,
    id moved = src ∧ id target = dst ∧ moved ∈ ops ∧
    List.filter (λ item, negb (id item =s src)) ops = l1 ++ target :: l2 ∧
    reorderOperations ops src dst pos =
    l1 ++ match pos with Before => [moved; target] | After => [target; moved] end ++ l2.
Proof.
  intros Hnd Hs Hd Hne Hsrc Hdst. unfold reorderOperations, nonempty.
  rewrite !bool_decide_eq_false_2 by done. cbn [negb orb].
  apply list_elem_of_fmap in Hsrc as (s & -> & Hs_in). apply list_elem_of_fmap in Hdst as (d & -> & Hd_in).
  destruct (find_index_is_Some (λ item, id item =s id s) ops s Hs_in) as [i Hi];
    [by apply bool_decide_eq_true|].
  rewrite Hi. destruct (splice1_find ops (id s) i Hi Hnd) as (moved & Hm & Hl & Heq).
  unfold splice1. rewrite Hl, Heq. set (rest := List.filter _ ops).
  destruct (find_index_is_Some (λ item, id item =s id d) rest d) as [k Hk];
    [apply elem_of_filter_bool; split; [done|]; by apply negb_true_iff, bool_decide_eq_false
    |by apply bool_decide_eq_true|].
  rewrite Hk. apply find_index_Some in Hk as (target & Ht & Hid & _). boolify.
  exists moved, target, (take k rest), (drop (S k) rest).
  split_and!; [done|done|by eapply list_elem_of_lookup_2|by rewrite take_drop_middle|].
  unfold splice_ins. destruct pos.
  - rewrite (drop_S rest target k) by done. done.
  - rewrite (take_S_r rest k target) by done. by rewrite <- app_assoc.
Qed.

Lemma reorderOperations_perm ops src dst pos : reorderOperations ops src dst pos ≡ₚ ops.
Proof.
  unfold reorderOperations. case_match; [done|]. case_match eqn:Ei; [|done].
  destruct (splice1 _ ops) as [[moved|] rest] eqn:Es; [|done]. case_match; [|done].
  rewrite splice_ins_perm. symmetry. by eapply splice1_perm.
Qed.

(** ** Sync endpoints *)

Lemma lower_ascii `{Unicode} (s : jstr) :
  forallb (λ c, (0 <=? c) && (c <? 128)) s = true → toLowerCase s = map lower_unit s.
Proof.
  intros Hs. apply toLowerCase_ascii. rewrite Forall_forall. rewrite forallb_forall in Hs.
  intros c Hc%list_elem_of_In. specialize (Hs c Hc). boolify. done.
Qed.

(** Reading back a sync endpoint gives its type and its trimmed key; with a
    blank key nothing is written, so the type falls back to the request body. *)
Theorem sync_target_roundtrip `{Unicode} ty key :
  parseSyncTargetSpec (buildSyncTargetSpec ty key) =
  if decide (filled key) then {| s_type := ty; s_key := trim key |}
  else {| s_type := SJson; s_key := [] |}.
Proof.
  unfold buildSyncTargetSpec. destruct (decide (filled key)) as [Hk|Hk].
  - rewrite (proj2 (filled_nonempty key) Hk). cbn [negb].
    set (pre := match ty with SHeader => u "header" | SJson => u "json" end).
    assert (Hpre : (58 ∉ pre) ∧ trim pre = pre ∧ toLowerCase pre = pre ∧ ∃ c r, pre = c :: r ∧ is_ws c = false).
    { destruct ty; subst pre; (split_and!; [|done|by rewrite lower_ascii|by eexists _, _]);
        apply (bool_decide_eq_true_1 (58 ∉ _)); reflexivity. }
    destruct Hpre as (Hc & Htrim & Hlow & c & r & Hcr & Hws). change (u ":") with [58].
    assert (Ht : trim (pre ++ [58] ++ trim key) = pre ++ [58] ++ trim key).
    { apply trim_tight. rewrite app_assoc. apply tight_app; [by rewrite Hcr|done| |apply tight_trim].
      rewrite Hcr. by intros ? ? [= <- _]. }
    unfold parseSyncTargetSpec. rewrite Ht. unfold nonempty. rewrite bool_decide_eq_false_2 by (by rewrite Hcr).
    cbn [negb]. change ([58] ++ trim key) with (58 :: trim key). change (u ":") with [58].
    rewrite index_of_unit, take_app_length, Htrim, Hlow by done.
    replace (drop (S (length pre)) (pre ++ 58 :: trim key)) with (trim key)
      by (by rewrite <- Nat.add_1_r, drop_app_add).
    rewrite trim_idem. by destruct ty.
  - rewrite (proj2 (not_filled key) Hk). done.
Qed.

(** ** The theorems at concrete inputs *)

Definition row (i : jstr) (m : op_mode) (p f : jstr) : operation :=
  {| id := i; description := []; path := p; mode := m; value_text := u "1"; keep_origin := false;
     from := f; to := []; op_logic := OR; conditions := [] |}.

Lemma validateOperations_accepts_witness :
  @validateOperations plain_env [row (u "a") MSet (u "model") []] = Ok [] ∧
  Forall op_complete [row (u "a") MSet (u "model") []].
Proof.
  split; [vm_compute; reflexivity|].
  apply (@validateOperations_accepts plain_env); [by intros [] line|vm_compute; reflexivity].
Defined.

Lemma validateOperations_first_error_witness :
  ∃ j op iss, [row (u "a") MSet (u "x") []; row (u "b") MDelete [] []] !! j = Some op ∧
    check_operation op = Ok (Some iss) ∧ ¬ op_complete op.
Proof.
  destruct (@validateOperations_first_error plain_env
    [row (u "a") MSet (u "x") []; row (u "b") MDelete [] []] (issue_key NoPath))
    as (j & op & iss & Hj & Hn & _ & Hc & _); [vm_compute; reflexivity|vm_compute; discriminate|].
  exists j, op, iss. split; [exact Hj|]. split; [exact Hc|exact Hn].
Defined.

Lemma path_alias_exemption_dead_witness :
  check_operation (row (u "a") MCopyHeader (u "X-Id") []) = Ok (Some NoFrom).
Proof.
  apply (path_alias_exemption_dead (row (u "a") MCopyHeader (u "X-Id") [])); [reflexivity|].
  intros Hf. apply Hf. reflexivity.
Defined.

Lemma reorderOperations_moves_witness :
  ∃ moved target l1 l2,
    id moved = u "c" ∧ id target = u "a" ∧
    reorderOperations [row (u "a") MSet [] []; row (u "b") MSet [] []; row (u "c") MSet [] []]
      (u "c") (u "a") After = l1 ++ [target; moved] ++ l2.
Proof.
  destruct (reorderOperations_moves
    [row (u "a") MSet [] []; row (u "b") MSet [] []; row (u "c") MSet [] []] (u "c") (u "a") After)
    as (moved & target & l1 & l2 & Hm & Ht & _ & _ & Hr).
  - apply (bool_decide_eq_true_1 (NoDup _)). vm_compute. reflexivity.
  - vm_compute. discriminate.
  - vm_compute. discriminate.
  - vm_compute. discriminate.
  - apply (bool_decide_eq_true_1 (_ ∈ _)). vm_compute. reflexivity.
  - apply (bool_decide_eq_true_1 (_ ∈ _)). vm_compute. reflexivity.
  - exists moved, target, l1, l2. split; [exact Hm|]. split; [exact Ht|exact Hr].
Defined.

Lemma sync_target_roundtrip_witness :
  @parseSyncTargetSpec ascii_unicode (buildSyncTargetSpec SHeader (u " session_id ")) =
    {| s_type := SHeader; s_key := u "session_id" |} ∧
  @parseSyncTargetSpec ascii_unicode (buildSyncTargetSpec SHeader []) = {| s_type := SJson; s_key := [] |}.
Proof.
  split.
  - rewrite (@sync_target_roundtrip ascii_unicode SHeader (u " session_id ")). vm_compute. reflexivity.
  - rewrite (@sync_target_roundtrip ascii_unicode SHeader []). vm_compute. reflexivity.
Defined.

(** ** Opening malformed operations *)

Lemma imapM_null `{Env} `{Unicode} l n :
  VNull ∈ l → ∃ e n', imapM normalizeOperation l n = (Throw e, n').
Proof.
  revert n. induction l as [|v l IH]; intros n Hin; [by apply elem_of_nil in Hin|].
  apply elem_of_cons in Hin as [<-|Hin]; [by eexists _, _|]. cbn [imapM]. unfold ibind.
  destruct (normalizeOperation v n) as [[op|e] n1]; [|eauto].
  destruct (IH n1 Hin) as (e & n' & ->). eauto.
Qed.

(** A stored rule list with a [null] entry makes opening the editor throw
    instead of falling back to the JSON view: [parseInitialState] does not
    check the entries. *)
Theorem null_operation_throws `{Env} `{Unicode} text v ops n :
  JSON_parse (trim text) = Ok v → operations_of v = Some ops → VNull ∈ ops →
  ∃ e n', parseInitialState (VStr text) n = (Throw e, n').
Proof.
  intros Hj Hops Hin. pose proof (JSON_parse_nonblank _ _ Hj) as Hb. rewrite trim_idem in Hb.
  unfold parseInitialState, nonempty, verifyJSON. rewrite Hj, bool_decide_eq_false_2 by done.
  cbn [negb is_ok]. unfold ilift, ibind at 1. rewrite Hops. unfold normalize_all.
  destruct ops as [|op ops]; [by apply elem_of_nil in Hin|].
  destruct (imapM_null (op :: ops) n Hin) as (e & n' & E). unfold ibind at 1. rewrite E. eauto.
Qed.

Lemma null_operation_throws_witness :
  ∃ e n', @parseInitialState plain_env ascii_unicode (VStr (uq "{'operations':[null]}")) 0%nat
            = (Throw e, n').
Proof.
  apply (@null_operation_throws plain_env ascii_unicode (uq "{'operations':[null]}")
    (VObj [(u "operations", VArr [VNull])]) [VNull]); [vm_compute; reflexivity..|].
  apply list_elem_of_here.
Defined.
