(* ===== verification/ParamOverrideSave.v ===== *)
(** * Saving and reopening parameter overrides

    What [buildOperationsJson] writes and what [parseInitialState] makes of it:
    the stored object of every row, the rows that come back, and when saving
    again writes the same text. *)

From S2P Require Import Prelude JsString JsNumber JsValue Json Browser ParamOverrideData ParamOverride.

Local Open Scope Z_scope.

(** ** Values stay well formed *)

Lemma parseLooseValue_wf s : jstr_wf s → val_wf (parseLooseValue s).
Proof.
  intros H. unfold parseLooseValue, rcatch. case_bool_decide; [repeat constructor|].
  destruct (JSON_parse s) eqn:E; [by eapply JSON_parse_wf|by constructor].
Qed.

Lemma parseLooseValue_kept s : unserializable (parseLooseValue s) = false.
Proof.
  unfold parseLooseValue, rcatch. case_bool_decide; [done|].
  destruct (JSON_parse s) as [v|] eqn:E; [|done]. by eapply JSON_parse_kept.
Qed.

(** ** Building objects *)

(** An optional property of an object. *)
Definition opt (b : bool) (k : jstr) (v : val) : obj := if b then [(k, v)] else [].

Lemma set_if_fresh b k v o :
  array_index k = None → obj_get o k = None → set_if b k v o = o ++ opt b k v.
Proof.
  intros Hk Ho. destruct b; simpl; [by apply obj_set_fresh|by rewrite app_nil_r].
Qed.

Lemma obj_ok_set_if b k v o : obj_ok o → obj_ok (set_if b k v o).
Proof. destruct b; simpl; auto with js. Qed.
#[export] Hint Resolve obj_ok_set_if : js.

(** ** The stored form of a condition *)

Definition cond_fields (c : condition) : obj :=
  [(u "path", VStr (trim (c_path c))); (u "mode", VStr (cond_mode_text (c_mode c)));
   (u "value", parseLooseValue (c_value_text c))]
  ++ opt (c_invert c) (u "invert") (VBool true)
  ++ opt (c_pass_missing_key c) (u "pass_missing_key") (VBool true).

Lemma buildConditionPayload_fields c :
  buildConditionPayload c =
  if nonempty (trim (c_path c)) then Some (VObj (cond_fields c)) else None.
Proof.
  unfold buildConditionPayload, cond_fields. destruct (nonempty (trim (c_path c))); [|done].
  simpl. by destruct (c_invert c), (c_pass_missing_key c).
Qed.

Lemma cond_fields_ok c : obj_ok (cond_fields c).
Proof.
  replace (cond_fields c) with
    (set_if (c_pass_missing_key c) (u "pass_missing_key") (VBool true)
      (set_if (c_invert c) (u "invert") (VBool true)
        (obj_of_entries [(u "path", VStr (trim (c_path c)));
                         (u "mode", VStr (cond_mode_text (c_mode c)));
                         (u "value", parseLooseValue (c_value_text c))]))); [auto with js|].
  unfold cond_fields. by destruct (c_invert c), (c_pass_missing_key c).
Qed.

(** The row a stored condition comes back as, up to its id. *)
Definition reread (s : jstr) : jstr := toValueText (json_norm (parseLooseValue s)).

Definition saved_condition (c : condition) : condition :=
  {| c_id := []; c_path := trim (c_path c); c_mode := c_mode c;
     c_value_text := reread (c_value_text c); c_invert := c_invert c;
     c_pass_missing_key := c_pass_missing_key c |}.

Definition with_c_id (i : jstr) (c : condition) : condition :=
  {| c_id := i; c_path := c_path c; c_mode := c_mode c; c_value_text := c_value_text c;
     c_invert := c_invert c; c_pass_missing_key := c_pass_missing_key c |}.

Definition erase_c (c : condition) : condition := with_c_id [] c.

Lemma cond_fields_get c :
  obj_get (cond_fields c) (u "path") = Some (VStr (trim (c_path c))) ∧
  obj_get (cond_fields c) (u "mode") = Some (VStr (cond_mode_text (c_mode c))) ∧
  obj_get (cond_fields c) (u "value") = Some (parseLooseValue (c_value_text c)) ∧
  obj_get (cond_fields c) (u "invert") = (if c_invert c then Some (VBool true) else None) ∧
  obj_get (cond_fields c) (u "pass_missing_key") =
    (if c_pass_missing_key c then Some (VBool true) else None).
Proof. unfold cond_fields. by destruct (c_invert c), (c_pass_missing_key c). Qed.

Lemma normalize_saved_condition `{Env} c n :
  normalizeCondition (json_norm (VObj (cond_fields c))) n =
  (Ok (with_c_id (local_id (date_now n) n) (saved_condition c)), S n).
Proof.
  destruct (cond_fields_get c) as (Hp & Hm & Hv & Hi & Hk).
  unfold normalizeCondition, normalize_row, ibind, nextLocalId, ilift, text_field, flag_field.
  rewrite !get_norm by apply cond_fields_ok. rewrite Hp, Hm, Hv, Hi, Hk, parseLooseValue_kept.
  simpl json_norm. simpl rmap. cbn [unserializable]. rewrite as_cond_mode_text.
  unfold with_c_id, saved_condition, reread. simpl.
  by destruct (c_invert c), (c_pass_missing_key c).
Qed.

(** ** The stored form of an operation *)

(** With [pathAlias], an empty [from] or [to] is filled from the path. *)
Definition alias (m : op_mode) (path s : jstr) : jstr :=
  if m_pathAlias (MODE_META m) && negb (nonempty s) && nonempty path then path else s.

Definition stored_conditions (op : operation) : list val := omap buildConditionPayload (conditions op).

Definition cond_part (l : list val) (lg : logic) : obj :=
  match l with
  | [] => []
  | _ => [(u "conditions", VArr l); (u "logic", VStr (logic_text lg))]
  end.

Definition base_fields (m : op_mode) (d p f t : jstr) (v : val) (ko : bool) : obj :=
  let meta := MODE_META m in
  [(u "mode", VStr (mode_text m))]
  ++ opt (nonempty d) (u "description") (VStr d)
  ++ opt (m_path meta || m_pathOptional meta && nonempty p) (u "path") (VStr p)
  ++ opt (m_value meta) (u "value") v
  ++ opt (m_keepOrigin meta && ko) (u "keep_origin") (VBool true)
  ++ opt (m_from meta) (u "from") (VStr (alias m p f))
  ++ opt (m_to meta || nonempty t) (u "to") (VStr (alias m p t)).

Definition op_fields (op : operation) : obj :=
  base_fields (mode op) (trim (description op)) (trim (path op)) (trim (from op)) (trim (to op))
    (parseLooseValue (value_text op)) (keep_origin op)
  ++ cond_part (stored_conditions op) (op_logic op).

Lemma set_if_or b1 b2 k v o :
  b1 && b2 = false → set_if b2 k v (set_if b1 k v o) = set_if (b1 || b2) k v o.
Proof. by destruct b1, b2. Qed.

Lemma obj_get_opt b k v k' : k ≠ k' → obj_get (opt b k v) k' = None.
Proof. intros. destruct b; simpl; [|done]. by rewrite bool_decide_eq_false_2. Qed.

Lemma obj_get_opt_same b k v : obj_get (opt b k v) k = if b then Some v else None.
Proof. destruct b; simpl; [|done]. by rewrite bool_decide_eq_true_2. Qed.

Lemma obj_set_present o p k v w :
  obj_get o k = None → obj_set (o ++ (k, v) :: p) k w = o ++ (k, w) :: p.
Proof.
  intros Ho. unfold obj_set, obj_has. rewrite obj_get_app, Ho. simpl.
  rewrite (bool_decide_eq_true_2 (k = k)) by done. rewrite bool_decide_eq_true_2 by eauto.
  induction o as [|[k' v'] o IH]; simpl in *; [by rewrite bool_decide_eq_true_2|].
  case_bool_decide; [done|]. by rewrite IH.
Qed.

Lemma set_if_present b o p k v w :
  obj_get o k = None → set_if b k w (o ++ (k, v) :: p) = o ++ (k, if b then w else v) :: p.
Proof. intros. destruct b; simpl; [by apply obj_set_present|done]. Qed.

Ltac get_opt_step :=
  match goal with
  | |- context [obj_get (opt ?b ?k ?v) ?k'] =>
    first [rewrite (obj_get_opt_same b k v)
          |rewrite (obj_get_opt b k v k') by (vm_compute; congruence)]
  end.

Ltac no_key := rewrite ?obj_get_app, ?obj_get_opt by (vm_compute; congruence); reflexivity.

Lemma meta_facts m :
  m_path (MODE_META m) && m_pathOptional (MODE_META m) = false ∧
  (m_pathAlias (MODE_META m) = true → m_from (MODE_META m) = true ∧ m_to (MODE_META m) = true).
Proof. by destruct m. Qed.

(** The optional fields up to [keep_origin]. *)
Lemma payload_head m d p v ko :
  let meta := MODE_META m in
  set_if (m_keepOrigin meta && ko) (u "keep_origin") (VBool true)
   (set_if (m_value meta) (u "value") v
    (set_if (m_pathOptional meta && nonempty p) (u "path") (VStr p)
     (set_if (m_path meta) (u "path") (VStr p)
      (set_if (nonempty d) (u "description") (VStr d)
       (obj_of_entries [(u "mode", VStr (mode_text m))]))))) =
  [(u "mode", VStr (mode_text m))]
  ++ opt (nonempty d) (u "description") (VStr d)
  ++ opt (m_path meta || m_pathOptional meta && nonempty p) (u "path") (VStr p)
  ++ opt (m_value meta) (u "value") v
  ++ opt (m_keepOrigin meta && ko) (u "keep_origin") (VBool true).
Proof.
  destruct (meta_facts m) as [Hp _]. intros meta. fold meta in Hp.
  change (obj_of_entries [(u "mode", VStr (mode_text m))]) with [(u "mode", VStr (mode_text m))].
  rewrite set_if_or by (destruct (m_path meta); [simpl in Hp; by rewrite Hp|done]).
  rewrite (set_if_fresh (nonempty d)); [|reflexivity|no_key].
  rewrite (set_if_fresh (_ || _)); [|reflexivity|no_key].
  rewrite (set_if_fresh (m_value _)); [|reflexivity|no_key].
  rewrite (set_if_fresh (m_keepOrigin _ && _)); [|reflexivity|no_key].
  by rewrite <- !app_assoc.
Qed.

Lemma alias_text (m : op_mode) (p s : jstr) :
  m_pathAlias (MODE_META m) = true →
  (if negb (truthy (VStr s)) && nonempty p then VStr p else VStr s) = VStr (alias m p s).
Proof. intros Hm. unfold alias. rewrite Hm. simpl. by destruct (negb (nonempty s) && nonempty p). Qed.

(** The endpoints, with the fields before them fixed. *)
Lemma payload_tail m p f t (o : obj) :
  let meta := MODE_META m in
  obj_get o (u "from") = None → obj_get o (u "to") = None →
  (let payload :=
     set_if (m_to meta) (u "to") (VStr t)
       (set_if (negb (m_to meta) && nonempty t) (u "to") (VStr t)
         (set_if (m_from meta) (u "from") (VStr f) o)) in
   if m_pathAlias meta then
     let payload := set_if (negb (truthy (oget payload (u "from"))) && nonempty p)
                           (u "from") (VStr p) payload in
     set_if (negb (truthy (oget payload (u "to"))) && nonempty p) (u "to") (VStr p) payload
   else payload) =
  o ++ opt (m_from meta) (u "from") (VStr (alias m p f))
    ++ opt (m_to meta || nonempty t) (u "to") (VStr (alias m p t)).
Proof.
  intros meta Hf Ht. destruct (meta_facts m) as [_ Ha]. fold meta in Ha. cbv zeta.
  assert (Hto : ∀ b, obj_get (o ++ opt b (u "from") (VStr f)) (u "to") = None).
  { intros b. rewrite obj_get_app, Ht. by destruct b. }
  rewrite set_if_or by (by destruct (m_to meta), (nonempty t)).
  rewrite (set_if_fresh (m_from meta)) by done.
  rewrite (set_if_fresh (_ || _)); [|done|apply Hto].
  destruct (m_pathAlias meta) eqn:E.
  - destruct (Ha eq_refl) as [-> ->]. cbn [opt negb orb andb]. rewrite <- !app_assoc.
    cbn [app]. unfold oget. rewrite obj_get_app, Hf.
    change (obj_get ((u "from", ?x) :: _) (u "from")) with (Some x). cbn [from_option Datatypes.id].
    rewrite set_if_present by done. rewrite (alias_text m) by done.
    rewrite (obj_get_app o), Ht.
    change (obj_get ((u "from", _) :: (u "to", ?x) :: _) (u "to")) with (Some x). cbn [from_option Datatypes.id].
    rewrite (cons_middle _ o), app_assoc, set_if_present, (alias_text m) by (done || (rewrite obj_get_app, Ht; reflexivity)).
    by rewrite <- app_assoc.
  - replace (negb (m_to meta) && nonempty t || m_to meta) with (m_to meta || nonempty t)
      by (by destruct (m_to meta), (nonempty t)).
    unfold alias. fold meta. rewrite E. simpl. by rewrite <- app_assoc.
Qed.

Lemma operation_payload_fields op : operation_payload op = VObj (op_fields op).
Proof.
  unfold operation_payload, op_fields, base_fields. cbv zeta.
  rewrite payload_head, payload_tail by no_key. fold (stored_conditions op).
  rewrite <- !app_assoc. unfold cond_part.
  destruct (stored_conditions op) as [|c l]; [by rewrite app_nil_r|]. f_equal.
  rewrite (obj_set_fresh _ (u "conditions")); [|done|no_key].
  rewrite obj_set_fresh; [|done|no_key]. by rewrite <- !app_assoc.
Qed.

Lemma op_fields_ok op : obj_ok (op_fields op).
Proof.
  assert (H : VObj (op_fields op) = VObj (op_fields op)) by done.
  rewrite <- operation_payload_fields in H at 1. unfold operation_payload in H. cbv zeta in H.
  injection H as <-. destruct (omap _ _); destruct (m_pathAlias _); auto 20 with js.
Qed.

(** Reading the stored form back, property by property. *)
Lemma op_fields_get op :
  let m := mode op in
  let meta := MODE_META m in
  let p := trim (path op) in
  obj_get (op_fields op) (u "mode") = Some (VStr (mode_text m)) ∧
  obj_get (op_fields op) (u "description") =
    (if nonempty (trim (description op)) then Some (VStr (trim (description op))) else None) ∧
  obj_get (op_fields op) (u "path") =
    (if m_path meta || m_pathOptional meta && nonempty p then Some (VStr p) else None) ∧
  obj_get (op_fields op) (u "value") =
    (if m_value meta then Some (parseLooseValue (value_text op)) else None) ∧
  obj_get (op_fields op) (u "keep_origin") =
    (if m_keepOrigin meta && keep_origin op then Some (VBool true) else None) ∧
  obj_get (op_fields op) (u "from") =
    (if m_from meta then Some (VStr (alias m p (trim (from op)))) else None) ∧
  obj_get (op_fields op) (u "to") =
    (if m_to meta || nonempty (trim (to op)) then Some (VStr (alias m p (trim (to op)))) else None) ∧
  obj_get (op_fields op) (u "conditions") =
    (match stored_conditions op with [] => None | l => Some (VArr l) end) ∧
  obj_get (op_fields op) (u "logic") =
    (match stored_conditions op with [] => None | _ => Some (VStr (logic_text (op_logic op))) end).
Proof.
  unfold op_fields, base_fields, cond_part. cbv zeta.
  split_and!; rewrite !obj_get_app; repeat get_opt_step; simpl;
    destruct (stored_conditions op);
    try match goal with |- context [if ?b then Some _ else None] => destruct b end; reflexivity.
Qed.

(** The conditions that are stored, as rows. *)
Definition stored_rows (op : operation) : list condition :=
  List.filter (λ c, nonempty (trim (c_path c))) (conditions op).

Lemma stored_conditions_rows op : stored_conditions op = map (λ c, VObj (cond_fields c)) (stored_rows op).
Proof.
  unfold stored_conditions, stored_rows. induction (conditions op) as [|c l IH]; csimpl; [done|].
  rewrite buildConditionPayload_fields, IH. by destruct (nonempty (trim (c_path c))).
Qed.

(** The row a stored operation comes back as, up to its id. *)
Definition saved_operation (op : operation) : operation :=
  let m := mode op in
  let meta := MODE_META m in
  let p := trim (path op) in
  {| id := [];
     description := trim (description op);
     path := if m_path meta || m_pathOptional meta then p else [];
     mode := m;
     value_text := if m_value meta then reread (value_text op) else [];
     keep_origin := m_keepOrigin meta && keep_origin op;
     from := if m_from meta then alias m p (trim (from op)) else [];
     to := alias m p (trim (to op));
     op_logic := match stored_rows op with [] => OR | _ => op_logic op end;
     conditions := map saved_condition (stored_rows op) |}.

Definition erase (op : operation) : operation :=
  {| id := []; description := description op; path := path op; mode := mode op;
     value_text := value_text op; keep_origin := keep_origin op; from := from op; to := to op;
     op_logic := op_logic op; conditions := map erase_c (conditions op) |}.

Lemma imapM_saved_conditions `{Env} l n :
  ∃ rows, imapM normalizeCondition (map (λ c, json_norm (VObj (cond_fields c))) l) n
            = (Ok rows, (n + length l)%nat) ∧
          map erase_c rows = map saved_condition l.
Proof.
  revert n. induction l as [|c l IH]; intros n; cbn [imapM map length].
  { exists []. by rewrite Nat.add_0_r. }
  unfold ibind at 1. rewrite normalize_saved_condition.
  destruct (IH (S n)) as (rows & Hr & He). unfold ibind. rewrite Hr.
  eexists. split; [by rewrite <- Nat.add_succ_comm|]. simpl. by rewrite He.
Qed.

Lemma toUpperCase_logic `{Unicode} l : toUpperCase (logic_text l) = logic_text l.
Proof. rewrite toUpperCase_ascii; [by destruct l|]. by destruct l; apply ascii_ok. Qed.

(** [normalizeOperation] in terms of what it reads. *)
Lemma normalizeOperation_reads `{Env} `{Unicode} v n d p mv vv ko f tt lg isAnd cv rows n' :
  text_field v (u "description") = Ok d → text_field v (u "path") = Ok p →
  get v (u "mode") = Ok mv → get v (u "value") = Ok vv →
  flag_field v (u "keep_origin") = Ok ko → text_field v (u "from") = Ok f →
  text_field v (u "to") = Ok tt → get v (u "logic") = Ok lg →
  logic_is lg (u "OR") (u "AND") = Ok isAnd → get v (u "conditions") = Ok cv →
  match cv with VArr l => imapM normalizeCondition l | _ => iret [] end (S n) = (Ok rows, n') →
  normalizeOperation v n =
  (Ok {| id := local_id (date_now n) n; description := d; path := p;
         mode := default MSet (as_op_mode mv); value_text := toValueText vv; keep_origin := ko;
         from := f; to := tt; op_logic := if isAnd then AND else OR; conditions := rows |}, n').
Proof.
  intros Hd Hp Hm Hv Hk Hf Ht Hl Ha Hc Hr. unfold normalizeOperation, nextLocalId, ilift, ibind.
  by rewrite Hd, Hp, Hm, Hv, Hk, Hf, Ht, Hl, Ha, Hc, Hr.
Qed.

Lemma text_field_norm o k (b : bool) s :
  obj_ok o → proto_get k = VUndef → obj_get o k = (if b then Some (VStr s) else None) →
  text_field (json_norm (VObj o)) k = Ok (if b then s else []).
Proof. intros Ho Hk Hg. unfold text_field. rewrite get_norm, Hg by done. destruct b; [done|]. by rewrite Hk. Qed.

Lemma flag_field_norm o k (b : bool) :
  obj_ok o → proto_get k = VUndef → obj_get o k = (if b then Some (VBool true) else None) →
  flag_field (json_norm (VObj o)) k = Ok b.
Proof. intros Ho Hk Hg. unfold flag_field. rewrite get_norm, Hg by done. destruct b; [done|]. by rewrite Hk. Qed.

Lemma if_same_nil (b : bool) (s : jstr) : (b = false → s = []) → (if b then s else []) = s.
Proof. destruct b; [done|]. intros H. by rewrite H. Qed.

Lemma nonempty_false s : nonempty s = false → s = [].
Proof. unfold nonempty. intros. by boolify. Qed.

Lemma alias_nil m p s : m_to (MODE_META m) = false → alias m p s = s.
Proof. unfold alias. by destruct m. Qed.

(** A missing logic reads as [OR], a stored one as itself. *)
Lemma logic_is_text `{Unicode} v l b :
  b = bool_decide (l = AND) → v = VUndef ∧ l = OR ∨ v = VStr (logic_text l) →
  logic_is v (u "OR") (u "AND") = Ok b.
Proof.
  intros -> Hv. unfold logic_is, v_or.
  replace (to_str _) with (Ok (logic_text l)) by (destruct Hv as [[-> ->]| ->]; [done|by destruct l]).
  simpl. rewrite toUpperCase_logic. by destruct l.
Qed.

(** A stored operation comes back as the same row, values reread. *)
Lemma normalize_saved_operation `{Env} `{Unicode} op n :
  ∃ row n', normalizeOperation (json_norm (operation_payload op)) n = (Ok row, n') ∧
            erase row = saved_operation op.
Proof.
  rewrite operation_payload_fields. pose proof (op_fields_ok op) as Hok.
  destruct (op_fields_get op) as (Hm & Hd & Hp & Hv & Hk & Hf & Ht & Hc & Hl). cbv zeta in *.
  rewrite stored_conditions_rows in Hc, Hl.
  destruct (imapM_saved_conditions (stored_rows op) (S n)) as (rows & Hrows & He).
  eexists _, (S n + length (stored_rows op))%nat. split.
  - eapply normalizeOperation_reads;
      [by eapply text_field_norm|by eapply text_field_norm|by rewrite get_norm, Hm|by rewrite get_norm, Hv
      |by eapply flag_field_norm|by eapply text_field_norm|by eapply text_field_norm
      |by rewrite get_norm, Hl| |by rewrite get_norm, Hc|].
    + instantiate (1 := match stored_rows op with [] => false | _ => bool_decide (op_logic op = AND) end).
      destruct (stored_rows op); cbn [map].
      * apply (logic_is_text VUndef OR); [done|]. by left.
      * apply (logic_is_text _ (op_logic op)); [by destruct (op_logic op)|]. by right.
    + destruct (stored_rows op) as [|c l]; cbn [map]; [done|]. cbn [unserializable json_norm].
      rewrite map_cons, map_map. exact Hrows.
  - unfold erase, saved_operation. cbn [description path mode value_text keep_origin from to
      op_logic conditions]. cbn [unserializable json_norm]. rewrite He, as_op_mode_text. cbn [from_option Datatypes.id].
    f_equal.
    + apply if_same_nil, nonempty_false.
    + destruct (m_path _), (m_pathOptional _); simpl; try done.
      destruct (nonempty (trim (path op))) eqn:E; [done|]. symmetry. by apply nonempty_false.
    + destruct (m_value _); [|done]. unfold reread. by rewrite parseLooseValue_kept.
    + apply if_same_nil. intros [Hto E]%orb_false_iff. rewrite alias_nil by done. by apply nonempty_false.
    + by destruct (stored_rows op), (op_logic op).
Qed.

(** ** Value texts that survive being saved and reopened *)

(** Plain text (not a quoted JSON string), or the JSON text of something other
    than a string that JSON writes without loss. *)
Definition text_stable (s : jstr) : Prop :=
  match parseLooseValue s with
  | VStr x => x = s
  | v => json_norm v = v
  end.

Lemma parseLoose_inv s :
  (parseLooseValue s = VStr [] ∧ trim s = []) ∨
  (trim s ≠ [] ∧ JSON_parse s = Ok (parseLooseValue s)) ∨
  (trim s ≠ [] ∧ parseLooseValue s = VStr s ∧ ∃ e, JSON_parse s = Throw e).
Proof.
  unfold parseLooseValue, rcatch. case_bool_decide; [by left|right].
  destruct (JSON_parse s) eqn:E; [left|right]; eauto.
Qed.

(** The two ways of being stable. *)
Lemma text_stable_cases s :
  jstr_wf s → text_stable s →
  (reread s = s ∧ parseLooseValue s = VStr s) ∨
  (∃ v, JSON_parse s = Ok v ∧ parseLooseValue s = v ∧ JSON_parse (reread s) = Ok v ∧
        tight (reread s) ∧ trim (reread s) ≠ []).
Proof.
  intros Hwf Hst. unfold text_stable in Hst. unfold reread. pose proof (parseLooseValue_wf s Hwf) as Hv.
  destruct (parseLoose_inv s) as [[Hp Hb]|[[Hb Hp]|(Hb & Hp & _)]].
  - left. rewrite Hp in *. by subst s.
  - pose proof (parseLooseValue_kept s) as Hk.
    destruct (decide (is_str (parseLooseValue s) = true)) as [Hs|Hs].
    { left. destruct (parseLooseValue s); try done. by subst. }
    right. exists (parseLooseValue s). split; [done|]. split; [done|].
    assert (Hn : json_norm (parseLooseValue s) = parseLooseValue s)
      by (destruct (parseLooseValue s); done).
    assert (Ht : toValueText (parseLooseValue s) = stringify_text (parseLooseValue s))
      by (destruct (parseLooseValue s); done).
    rewrite Hn, Ht. unfold stringify_text, stringify.
    rewrite ser_serializable by done. cbn [from_option Datatypes.id].
    assert (Hser : ser [] [] (parseLooseValue s) = Some (ser_text [] [] (parseLooseValue s)))
      by (by apply ser_serializable).
    assert (Hj : JSON_parse (ser_text [] [] (parseLooseValue s)) = Ok (parseLooseValue s)).
    { rewrite <- Hn at 2. eapply JSON_parse_ser; [constructor|done|done]. }
    split_and!; [done|by eapply ser_tight|by eapply JSON_parse_nonblank].
  - left. by rewrite Hp.
Qed.

Lemma parseLoose_reread s :
  jstr_wf s → text_stable s → parseLooseValue (reread s) = parseLooseValue s.
Proof.
  intros Hwf Hst. destruct (text_stable_cases s Hwf Hst) as [[-> _]|(v & _ & -> & Hj & _ & Hb)]; [done|].
  unfold parseLooseValue. rewrite bool_decide_eq_false_2 by done. by rewrite Hj.
Qed.

Lemma reread_blank s : jstr_wf s → text_stable s → trim (reread s) = [] ↔ trim s = [].
Proof.
  intros Hwf Hst. destruct (text_stable_cases s Hwf Hst) as [[-> _]|(v & Hs & _ & _ & _ & Hb)]; [done|].
  apply JSON_parse_nonblank in Hs. naive_solver.
Qed.

(** ** Rows that survive *)

Definition cond_wf (c : condition) : Prop := jstr_wf (c_path c) ∧ jstr_wf (c_value_text c).

Definition op_wf (op : operation) : Prop :=
  jstr_wf (description op) ∧ jstr_wf (path op) ∧ jstr_wf (value_text op) ∧ jstr_wf (from op) ∧
  jstr_wf (to op) ∧ Forall cond_wf (conditions op).

(** The modes whose value [validateOperations] parses, after trimming it. *)
Definition structured (m : op_mode) : bool :=
  match m with MReturnError | MPruneObjects | MPassHeaders => true | _ => false end.

Definition op_stable (op : operation) : Prop :=
  (m_value (MODE_META (mode op)) = true → text_stable (value_text op)) ∧
  (structured (mode op) = true → tight (value_text op)) ∧
  Forall (λ c, text_stable (c_value_text c)) (stored_rows op).

Lemma cond_fields_saved c :
  cond_wf c → text_stable (c_value_text c) → cond_fields (saved_condition c) = cond_fields c.
Proof.
  intros [_ Hv] Hst. unfold cond_fields, saved_condition. simpl.
  by rewrite trim_idem, parseLoose_reread.
Qed.

Lemma stored_rows_saved op : stored_rows (saved_operation op) = map saved_condition (stored_rows op).
Proof.
  unfold stored_rows at 1. simpl. apply filter_all, Forall_map_2, Forall_forall.
  intros c [_ Hc]%elem_of_filter_bool. simpl. by rewrite trim_idem.
Qed.

Lemma alias_trim m p s : trim (alias m (trim p) (trim s)) = alias m (trim p) (trim s).
Proof. unfold alias. case_match; apply trim_idem. Qed.

Lemma alias_again m p q s :
  (q = p ∨ q = []) → alias m q (alias m p s) = alias m p s.
Proof.
  intros Hq. unfold alias. destruct (m_pathAlias _), (nonempty s) eqn:Es, (nonempty p) eqn:Ep;
    simpl; rewrite ?Es, ?Ep; simpl; try done; destruct Hq as [-> | ->]; simpl; by rewrite ?Ep.
Qed.

Lemma nonempty_alias m p s : nonempty s = true → nonempty (alias m p s) = true.
Proof. unfold alias. intros H. by rewrite H, andb_false_r. Qed.

Lemma stored_rows_wf op : op_wf op → Forall cond_wf (stored_rows op).
Proof.
  intros (_ & _ & _ & _ & _ & H). rewrite Forall_forall in *.
  intros c [Hc _]%elem_of_filter_bool. auto.
Qed.

(** What is stored for a row is what is stored for the row it comes back as. *)
Lemma payload_saved op :
  op_wf op → op_stable op → operation_payload (saved_operation op) = operation_payload op.
Proof.
  intros Hwf (Hv & _ & Hc). rewrite !operation_payload_fields. unfold op_fields. do 2 f_equal.
  - unfold base_fields, saved_operation; cbn [mode description path value_text keep_origin from to].
    set (m := mode op) in *. rewrite !trim_idem.
    assert (Hm : m_pathAlias (MODE_META m) = true → m_path (MODE_META m) || m_pathOptional (MODE_META m) = false)
      by (by destruct m).
    set (q := trim (if m_path (MODE_META m) || m_pathOptional (MODE_META m) then trim (path op) else [])).
    assert (Hq : q = trim (path op) ∨ q = [])
      by (subst q; destruct (_ || _); [left; apply trim_idem|by right]).
    assert (Hqp : m_path (MODE_META m) || m_pathOptional (MODE_META m) = true → q = trim (path op))
      by (intros E; subst q; rewrite E; apply trim_idem).
    do 2 f_equal. f_equal.
    { destruct (m_path (MODE_META m)), (m_pathOptional (MODE_META m)); simpl in *; try done;
        by rewrite Hqp. }
    f_equal.
    { destruct (m_value (MODE_META m)); [|done]. simpl. rewrite parseLoose_reread; auto.
      by destruct Hwf as (_ & _ & ? & _). }
    f_equal; [by destruct (m_keepOrigin _), (keep_origin op)|].
    f_equal.
    { destruct (m_from (MODE_META m)); [|done]. simpl. by rewrite alias_trim, alias_again. }
    rewrite alias_trim, alias_again by done. destruct (m_to (MODE_META m)) eqn:Hto; [done|].
    by rewrite alias_nil.
  - rewrite !stored_conditions_rows, stored_rows_saved, map_map. unfold saved_operation. simpl.
    destruct (stored_rows op) as [|c l] eqn:E; [done|].
    pose proof (stored_rows_wf op Hwf) as Hw. rewrite E in Hw. f_equal.
    apply map_ext_in. intros x Hx%list_elem_of_In. f_equal. rewrite Forall_forall in *.
    apply cond_fields_saved; auto.
Qed.

(** ** Completeness survives *)

Lemma structured_value_saved op :
  op_wf op → op_stable op → m_value (MODE_META (mode op)) = true → structured (mode op) = true →
  reread (value_text op) = value_text op ∨
  ∃ v, JSON_parse (trim (value_text op)) = Ok v ∧ JSON_parse (trim (reread (value_text op))) = Ok v ∧
       parseLooseValue (trim (reread (value_text op))) = parseLooseValue (trim (value_text op)).
Proof.
  intros (_ & _ & Hw & _) (Hst & Htight & _) Hv Hs. specialize (Hst Hv). specialize (Htight Hs).
  destruct (text_stable_cases _ Hw Hst) as [[? _]|(v & Hj & Hl & Hr & Ht & _)]; [by left|right].
  exists v. rewrite !(trim_tight (value_text op)) by done. rewrite !(trim_tight (reread _)) by done.
  split_and!; [done..|]. by rewrite parseLoose_reread.
Qed.

Lemma complete_saved op :
  op_wf op → op_stable op → op_complete op → op_complete (saved_operation op).
Proof.
  intros Hwf Hst [Hp Hf Ht Hv He Hpr Hh].
  assert (Hval : m_value (MODE_META (mode op)) = true → filled (value_text op) → filled (reread (value_text op))).
  { intros Hm Hfi Hb. destruct Hwf as (_ & _ & Hw & _), Hst as (Hs & _).
    apply Hfi. by apply (reread_blank (value_text op) Hw (Hs Hm)). }
  assert (Hreq : mode op ∈ VALUE_REQUIRED_MODES → m_value (MODE_META (mode op)) = true).
  { unfold VALUE_REQUIRED_MODES. rewrite list_elem_of_In. by destruct (mode op); simpl; intuition. }
  pose proof (structured_value_saved op Hwf Hst) as Hsv. unfold filled in *.
  split; cbn [saved_operation mode path from to value_text]; unfold filled.
  - intros E. rewrite E. cbn [orb]. rewrite trim_idem. by apply Hp.
  - intros E. rewrite E, alias_trim. apply filled_nonempty in Hf; [|done].
    apply nonempty_alias with (m := mode op) (p := trim (path op)) in Hf. intros Hn. by rewrite Hn in Hf.
  - intros E. rewrite alias_trim. apply filled_nonempty in Ht; [|done].
    apply nonempty_alias with (m := mode op) (p := trim (path op)) in Ht. intros Hn. by rewrite Hn in Ht.
  - intros E. rewrite Hreq by done. auto.
  - intros E. rewrite E in *. simpl. destruct (Hsv eq_refl eq_refl) as [->|(v & H1 & H2 & _)]; [by apply He|].
    intros o m. rewrite H2. intros Hv'. apply (He eq_refl o m). congruence.
  - intros E. rewrite E in *. simpl. destruct (Hsv eq_refl eq_refl) as [->|(v & H1 & H2 & _)]; [by apply Hpr|].
    intros o. rewrite H2. intros Hv'. apply (Hpr eq_refl o). congruence.
  - intros E. rewrite E in *. simpl. destruct (Hsv eq_refl eq_refl) as [->|(v & _ & _ & H3)]; [by apply Hh|].
    unfold headers_value_ok. rewrite H3. by apply Hh.
Qed.

(** A complete operation is not a blank row. *)
Lemma complete_not_blank op : op_complete op → isOperationBlank op = false.
Proof.
  intros [Hp _ _ _ _ _ _]. unfold isOperationBlank. case_bool_decide as Hm; [|done].
  rewrite Hm in Hp. rewrite (proj2 (filled_nonempty (path op)) (Hp eq_refl)). done.
Qed.

(** Nothing depends on the ids. *)
Lemma erase_complete op : op_complete (erase op) ↔ op_complete op.
Proof. by split; intros [? ? ? ? ? ? ?]; split. Qed.

Lemma erase_payload op : operation_payload (erase op) = operation_payload op.
Proof.
  unfold operation_payload. simpl.
  assert (H : omap buildConditionPayload (map erase_c (conditions op)) =
              omap buildConditionPayload (conditions op)).
  { induction (conditions op) as [|c l IH]; csimpl; [done|].
    change (buildConditionPayload (erase_c c)) with (buildConditionPayload c). by rewrite IH. }
  by rewrite H.
Qed.

(** ** The text that is stored *)

Lemma Forall_opt (P : jstr * val → Prop) b k v : (b = true → P (k, v)) → Forall P (opt b k v).
Proof. destruct b; simpl; [|constructor]. intros H. constructor; auto. Qed.

Lemma cond_fields_wf c : cond_wf c → val_wf (VObj (cond_fields c)).
Proof.
  intros [Hp Hv]. constructor; [apply cond_fields_ok|]. unfold cond_fields. rewrite Forall_app.
  split; [rewrite !list.Forall_cons; cbn [fst snd]; split_and!; try solve_wf|].
  - constructor. by apply jstr_wf_trim.
  - constructor. by destruct (c_mode c); apply units_ok_wf.
  - by apply parseLooseValue_wf.
  - constructor.
  - rewrite Forall_app. split; apply Forall_opt; intros _; (split; simpl; [solve_wf|constructor]).
Qed.

Lemma alias_wf m p s : jstr_wf p → jstr_wf s → jstr_wf (alias m p s).
Proof. unfold alias. by case_match. Qed.

Lemma payload_wf op : op_wf op → val_wf (operation_payload op).
Proof.
  intros Hwf. pose proof (stored_rows_wf op Hwf) as Hrows.
  destruct Hwf as (Hd & Hp & Hv & Hf & Ht & _).
  rewrite operation_payload_fields. constructor; [apply op_fields_ok|].
  unfold op_fields, base_fields. rewrite !Forall_app. split_and!.
  - constructor; [|constructor]. split; simpl; [solve_wf|]. constructor. apply mode_text_tight.
  - apply Forall_opt. intros _. split; simpl; [solve_wf|]. constructor. by apply jstr_wf_trim.
  - apply Forall_opt. intros _. split; simpl; [solve_wf|]. constructor. by apply jstr_wf_trim.
  - apply Forall_opt. intros _. split; simpl; [solve_wf|]. by apply parseLooseValue_wf.
  - apply Forall_opt. intros _. split; simpl; [solve_wf|]. constructor.
  - apply Forall_opt. intros _. split; simpl; [solve_wf|]. constructor.
    apply alias_wf; by apply jstr_wf_trim.
  - apply Forall_opt. intros _. split; simpl; [solve_wf|]. constructor.
    apply alias_wf; by apply jstr_wf_trim.
  - unfold cond_part. rewrite stored_conditions_rows. destruct (map _ _) as [|c l] eqn:E; [constructor|].
    rewrite !list.Forall_cons; cbn [fst snd]; split_and!; try solve_wf; [| |constructor].
    + constructor. rewrite <- E. apply Forall_map_2. eapply Forall_impl; [exact Hrows|].
      intros c'. apply cond_fields_wf.
    + constructor. by destruct (op_logic op); apply units_ok_wf.
Qed.

Definition stored_object (ops : list operation) : val :=
  VObj [(u "operations", VArr (map operation_payload ops))].

Lemma stored_object_wf ops : Forall op_wf ops → val_wf (stored_object ops).
Proof.
  intros H. constructor; [repeat constructor|]. constructor; [|constructor]. split; [solve_wf|].
  constructor. apply Forall_map_2. eapply Forall_impl; [exact H|apply payload_wf].
Qed.

Lemma operations_text_eq ops : operations_text ops = ser_text indent2 [] (stored_object ops).
Proof. done. Qed.

Lemma operations_text_reads ops :
  Forall op_wf ops →
  JSON_parse (operations_text ops) = Ok (json_norm (stored_object ops)) ∧
  trim (operations_text ops) = operations_text ops ∧ operations_text ops ≠ [] ∧
  stringify2_text (json_norm (stored_object ops)) = operations_text ops.
Proof.
  intros H. pose proof (stored_object_wf ops H) as Hwf.
  assert (Hs : ser indent2 [] (stored_object ops) = Some (operations_text ops)) by done.
  destruct (ser_obj_tight _ _ _ _ Hs) as [Ht Hne]. split_and!.
  - by eapply JSON_parse_ser; [apply indent2_ws| |].
  - by apply trim_tight.
  - done.
  - unfold stringify2_text, stringify2. rewrite ser_serializable by apply json_norm_kept.
    cbn [from_option Datatypes.id]. by rewrite ser_text_norm.
Qed.

(** ** Saving and reopening *)

Definition live (ops : list operation) : list operation :=
  List.filter (λ item, negb (isOperationBlank item)) ops.

(** A saved, non-empty text is the text of complete operations. *)
Lemma build_saved `{Env} ops text :
  buildOperationsJson ops true = Ok text → text ≠ [] →
  live ops ≠ [] ∧ (issues_translated → Forall op_complete (live ops)) ∧ text = operations_text (live ops).
Proof.
  unfold buildOperationsJson. fold (live ops). destruct (live ops) as [|op l]; [by intros [= <-]|].
  destruct (validateOperations (op :: l)) as [msg|] eqn:E; cbn [rbind]; [|done].
  destruct (nonempty msg) eqn:En; [done|]. apply nonempty_false in En as ->.
  intros [= <-] _. split; [done|]. split; [|done]. intros Htr. by apply validateOperations_nil in E.
Qed.

Lemma build_complete `{Env} ops :
  ops ≠ [] → Forall op_complete ops → buildOperationsJson ops true = Ok (operations_text ops).
Proof.
  intros Hne Hc. unfold buildOperationsJson. rewrite filter_all.
  - destruct ops as [|op l]; [done|]. apply validateOperations_complete in Hc. by rewrite Hc.
  - eapply Forall_impl; [exact Hc|]. intros op Hop%complete_not_blank. by rewrite Hop.
Qed.

Lemma imapM_saved_operations `{Env} `{Unicode} ops n :
  ∃ rows n', imapM normalizeOperation (map (λ op, json_norm (operation_payload op)) ops) n
               = (Ok rows, n') ∧
             map erase rows = map saved_operation ops.
Proof.
  revert n. induction ops as [|op ops IH]; intros n; cbn [imapM map]; [by exists [], n|].
  destruct (normalize_saved_operation op n) as (row & n1 & Hr & He).
  destruct (IH n1) as (rows & n2 & Hrs & Hes). unfold ibind. rewrite Hr, Hrs.
  eexists _, n2. split; [done|]. simpl. by rewrite He, Hes.
Qed.

Lemma reopen_text `{Env} `{Unicode} ops n :
  Forall op_wf ops → ops ≠ [] →
  ∃ st n', parseInitialState (VStr (operations_text ops)) n = (Ok st, n') ∧
    i_editMode st = EVisual ∧ i_visualMode st = VOperations ∧
    i_jsonText st = operations_text ops ∧ map erase (i_operations st) = map saved_operation ops.
Proof.
  intros Hwf Hne. destruct (operations_text_reads ops Hwf) as (Hj & Ht & Hn & Hs).
  unfold parseInitialState, nonempty, verifyJSON. rewrite Ht, Hj, bool_decide_eq_false_2 by done.
  cbn [negb is_ok]. unfold ilift, ibind at 1. rewrite Hs.
  assert (Hops : operations_of (json_norm (stored_object ops)) =
                 Some (map (λ op, json_norm (operation_payload op)) ops)).
  { unfold stored_object. rewrite json_norm_obj. simpl. by rewrite map_map. }
  rewrite Hops. destruct (imapM_saved_operations ops n) as (rows & n' & Hr & He).
  unfold normalize_all, ibind. destruct ops as [|op ops]; [done|]. cbn [map] in *. rewrite Hr.
  by eexists _, n'.
Qed.

(** C1: Reopening a saved list of operations shows, up to the local ids, the
    operations that were saved: the non-blank ones, in order, with trimmed
    texts, the fields their mode does not use cleared, the conditions without
    a path dropped and every value read again from its stored form. *)
Theorem reopen_saved `{Env} `{Unicode} ops text n :
  Forall op_wf ops → buildOperationsJson ops true = Ok text → text ≠ [] →
  ∃ st n', parseInitialState (VStr text) n = (Ok st, n') ∧
    i_editMode st = EVisual ∧ i_visualMode st = VOperations ∧ i_jsonText st = text ∧
    map erase (i_operations st) = map saved_operation (live ops).
Proof.
  intros Hwf Hb Hne. destruct (build_saved ops text Hb Hne) as (Hl & _ & ->).
  apply reopen_text; [|done]. rewrite Forall_forall in *.
  intros op [Hop _]%elem_of_filter_bool. auto.
Qed.

(** Saving what was reopened writes the same text, provided the value texts
    are plain text or JSON of something other than a string. *)
Theorem save_reopen_save `{Env} `{Unicode} ops text n :
  issues_translated → Forall op_wf ops → Forall op_stable (live ops) →
  buildOperationsJson ops true = Ok text → text ≠ [] →
  ∃ st n', parseInitialState (VStr text) n = (Ok st, n') ∧
    buildVisualJson (i_visualMode st) (i_legacyValue st) (i_operations st) = Ok text.
Proof.
  intros Htr Hwf Hst Hb Hne. destruct (build_saved ops text Hb Hne) as (Hl & Hc & ->). specialize (Hc Htr).
  assert (Hwl : Forall op_wf (live ops)).
  { rewrite Forall_forall in *. intros op [Hop _]%elem_of_filter_bool. auto. }
  destruct (reopen_text (live ops) n Hwl Hl) as (st & n' & Hp & _ & Hv & _ & He).
  exists st, n'. split; [done|]. rewrite Hv. simpl.
  assert (Hne' : i_operations st ≠ []).
  { intros E. rewrite E in He. by destruct (live ops). }
  assert (Hc' : Forall op_complete (i_operations st)).
  { assert (H' : Forall op_complete (map erase (i_operations st))).
    { rewrite He. apply Forall_map_2. rewrite Forall_forall in *. intros op Hop.
      apply complete_saved; auto. }
    rewrite List.Forall_map in H'. eapply Forall_impl; [exact H'|]. intros op. apply erase_complete. }
  rewrite build_complete by done. f_equal. unfold operations_text. do 5 f_equal.
  transitivity (map operation_payload (map erase (i_operations st))).
  { rewrite map_map. apply map_ext. intros. by rewrite erase_payload. }
  rewrite He, map_map. apply map_ext_in. intros op Hop%list_elem_of_In.
  rewrite Forall_forall in *. apply payload_saved; auto.
Qed.

(** A row to evaluate the theorems on. *)
Definition sample_op : operation :=
  {| id := u "a"; description := u " warm "; path := u "temperature"; mode := MSet;
     value_text := u "0.7"; keep_origin := true; from := []; to := []; op_logic := AND;
     conditions := [{| c_id := u "b"; c_path := u "model "; c_mode := CPrefix;
                       c_value_text := u "openai/"; c_invert := false;
                       c_pass_missing_key := true |}] |}.

Lemma sample_wf : Forall op_wf [sample_op].
Proof.
  constructor; [|constructor]. unfold op_wf, cond_wf.
  split_and!; [by apply units_ok_wf..|]. constructor; [|constructor]. split; by apply units_ok_wf.
Qed.

Lemma reopen_saved_witness :
  ∃ text st n',
    @buildOperationsJson plain_env [sample_op] true = Ok text ∧
    @parseInitialState plain_env ascii_unicode (VStr text) 7%nat = (Ok st, n') ∧
    map erase (i_operations st) = map saved_operation (live [sample_op]).
Proof.
  destruct (@reopen_saved plain_env ascii_unicode [sample_op] (operations_text [sample_op]) 7%nat)
    as (st & n' & Hp & _ & _ & _ & He);
    [exact sample_wf|vm_compute; reflexivity|vm_compute; discriminate|].
  exists (operations_text [sample_op]), st, n'. split; [vm_compute; reflexivity|]. by split.
Defined.

Lemma save_reopen_save_witness :
  ∃ st n',
    @parseInitialState plain_env ascii_unicode (VStr (operations_text [sample_op])) 0%nat = (Ok st, n') ∧
    @buildVisualJson plain_env (i_visualMode st) (i_legacyValue st) (i_operations st)
      = Ok (operations_text [sample_op]).
Proof.
  apply (@save_reopen_save plain_env ascii_unicode [sample_op] (operations_text [sample_op]) 0%nat);
    [by intros [] line|exact sample_wf| |vm_compute; reflexivity|vm_compute; discriminate].
  change (live [sample_op]) with [sample_op]. constructor; [|constructor].
  split; [intros _; vm_compute; reflexivity|]. split; [done|].
  constructor; [vm_compute; reflexivity|constructor].
Defined.

(** The proviso is needed: a value that is a quoted JSON string whose content
    is itself JSON text comes back as that JSON value.  The string ["123"] is
    shown as 123 when the rule is reopened (or duplicated) and stored as a
    number when it is saved again. *)
Theorem quoted_value_changes s x v :
  parseLooseValue s = VStr x → JSON_parse x = Ok v →
  parseLooseValue (reread s) = v ∧ (is_str v = false → parseLooseValue (reread s) ≠ parseLooseValue s).
Proof.
  intros Hs Hx. unfold reread. rewrite Hs. cbn [json_norm toValueText].
  assert (Hl : parseLooseValue x = v).
  { unfold parseLooseValue. rewrite bool_decide_eq_false_2 by (by eapply JSON_parse_nonblank). by rewrite Hx. }
  split; [done|]. rewrite Hl. intros Hv ->. done.
Qed.

Lemma quoted_value_changes_witness :
  parseLooseValue (uq "'123'") = VStr (u "123") ∧
  parseLooseValue (reread (uq "'123'")) = VNum (of_Z 123).
Proof.
  split; [vm_compute; reflexivity|].
  apply (quoted_value_changes (uq "'123'") (u "123") (VNum (of_Z 123))); vm_compute; reflexivity.
Defined.
