(* ===== verification/ParamOverrideEditor.v ===== *)
(** * The parameter override editor as a state machine

    The React component of
    [web/src/components/table/channels/modals/ParamOverrideEditorModal.jsx]:
    its [useState] cells are the record [editor], every handler is a function
    on it, and [step] applies the handler of an [action] and then the two
    effects that keep the selection and the template choice valid.

    React runs the handlers of one user event before the next and renders in
    between, so a handler sees the state left by the previous one.  A state
    updater passed to [setOperations] runs either at once or at the next
    render; that matters only for [duplicateOperation], which reads a variable
    the updater assigns, and is its parameter [eager].

    What a handler shows or reports to its parent is the list of [event]s. *)

From S2P Require Import Prelude JsString JsNumber JsValue Json Browser ParamOverrideData ParamOverride ParamOverrideSave.

Local Open Scope Z_scope.

Inductive guide_target := GPath | GFrom | GTo.

Record form := mk_form {
  editMode : edit_mode;
  visualMode : visual_mode;
  legacyValue : jstr;
  operations : list operation;
  jsonText : jstr;
  jsonError : jstr;
  operationSearch : jstr;
  selectedOperationId : jstr;
  expandedConditionMap : gmap jstr (list jstr);
}.

Record drag := mk_drag {
  draggedOperationId : jstr;
  dragOverOperationId : jstr;
  dragOverPosition : drop_position;
}.

Record template_choice := mk_template { templateGroupKey : jstr; templatePresetKey : jstr }.

Record field_guide := mk_guide {
  headerValueExampleVisible : bool;
  fieldGuideVisible : bool;
  fieldGuideTarget : guide_target;
  fieldGuideKeyword : jstr;
}.

Record editor := mk_editor {
  fm : form;
  dg : drag;
  tp : template_choice;
  gd : field_guide;
}.

Inductive event :=
| ShowError (message : jstr)
| ShowSuccess (message : jstr)
| OnSave (text : jstr)
| Uncaught (e : exc).

(** ** Setters *)

Definition with_form (f : form → form) (e : editor) : editor := mk_editor (f (fm e)) (dg e) (tp e) (gd e).

Definition setEditMode (x : edit_mode) (f : form) : form :=
  mk_form x (visualMode f) (legacyValue f) (operations f) (jsonText f) (jsonError f)
    (operationSearch f) (selectedOperationId f) (expandedConditionMap f).
Definition setVisualMode (x : visual_mode) (f : form) : form :=
  mk_form (editMode f) x (legacyValue f) (operations f) (jsonText f) (jsonError f)
    (operationSearch f) (selectedOperationId f) (expandedConditionMap f).
Definition setLegacyValue (x : jstr) (f : form) : form :=
  mk_form (editMode f) (visualMode f) x (operations f) (jsonText f) (jsonError f)
    (operationSearch f) (selectedOperationId f) (expandedConditionMap f).
Definition setOperations (x : list operation) (f : form) : form :=
  mk_form (editMode f) (visualMode f) (legacyValue f) x (jsonText f) (jsonError f)
    (operationSearch f) (selectedOperationId f) (expandedConditionMap f).
Definition setJsonText (x : jstr) (f : form) : form :=
  mk_form (editMode f) (visualMode f) (legacyValue f) (operations f) x (jsonError f)
    (operationSearch f) (selectedOperationId f) (expandedConditionMap f).
Definition setJsonError (x : jstr) (f : form) : form :=
  mk_form (editMode f) (visualMode f) (legacyValue f) (operations f) (jsonText f) x
    (operationSearch f) (selectedOperationId f) (expandedConditionMap f).
Definition setOperationSearch (x : jstr) (f : form) : form :=
  mk_form (editMode f) (visualMode f) (legacyValue f) (operations f) (jsonText f) (jsonError f)
    x (selectedOperationId f) (expandedConditionMap f).
Definition setSelectedOperationId (x : jstr) (f : form) : form :=
  mk_form (editMode f) (visualMode f) (legacyValue f) (operations f) (jsonText f) (jsonError f)
    (operationSearch f) x (expandedConditionMap f).
Definition setExpandedConditionMap (x : gmap jstr (list jstr)) (f : form) : form :=
  mk_form (editMode f) (visualMode f) (legacyValue f) (operations f) (jsonText f) (jsonError f)
    (operationSearch f) (selectedOperationId f) x.

Definition set_drag (x : drag) (e : editor) : editor := mk_editor (fm e) x (tp e) (gd e).
Definition set_template (x : template_choice) (e : editor) : editor := mk_editor (fm e) (dg e) x (gd e).
Definition set_guide (x : field_guide) (e : editor) : editor := mk_editor (fm e) (dg e) (tp e) x.

Definition no_drag : drag := mk_drag [] [] Before.
Definition basic_template (preset : jstr) : template_choice := mk_template (u "basic") preset.

(** [list[0]?.id || ''] *)
Definition first_id (ops : list operation) : jstr :=
  match ops with [] => [] | op :: _ => id op end.

(** ** Handlers

    A handler takes the state and the id counter and gives the new state, the
    new counter and the events. *)

Definition outcome : Type := editor * nat * list event.
Definition handler : Type := editor → nat → outcome.

Section handlers.
Context `{Env} `{Unicode}.

(** Runs id-making code; an exception leaves the state alone. *)
Definition with_ids {A} (m : ID A) (k : A → handler) : handler := λ e n,
  match m n with
  | (Ok a, n) => k a e n
  | (Throw x, n) => (e, n, [Uncaught x])
  end.

Definition done_with (e : editor) (n : nat) : outcome := (e, n, []).

Definition message_of (x : exc) : jstr :=
  match x with UserError m => m | _ => engine_message end.

(** The effect on [visible] and [value]. *)
Definition open_editor (value : val) : handler :=
  with_ids (parseInitialState value) (λ st e n,
    let f := mk_form (i_editMode st) (i_visualMode st) (i_legacyValue st) (i_operations st)
               (i_jsonText st) (i_jsonError st) [] (first_id (i_operations st)) ∅ in
    let preset := match i_visualMode st with
                  | VLegacy => u "legacy_default"
                  | VOperations => u "operations_default"
                  end in
    done_with (mk_editor f no_drag (basic_template preset) (mk_guide false false GPath [])) n).

(** The effect that keeps the selection on an existing operation. *)
Definition select_effect (f : form) : form :=
  match operations f with
  | [] => setSelectedOperationId [] f
  | op :: _ =>
    if existsb (λ item, id item =s selectedOperationId f) (operations f) then f
    else setSelectedOperationId (id op) f
  end.

Definition templatePresetOptions (group : jstr) : list (jstr * preset) :=
  List.filter (λ kc, pr_group kc.2 =s group) TEMPLATE_PRESET_CONFIG.

(** The effect that keeps the preset within the chosen group. *)
Definition preset_effect (c : template_choice) : template_choice :=
  match templatePresetOptions (templateGroupKey c) with
  | [] => c
  | ((first, _) :: _) as options =>
    if existsb (λ kc, kc.1 =s templatePresetKey c) options then c
    else mk_template (templateGroupKey c) first
  end.

Definition settle (e : editor) : editor :=
  mk_editor (select_effect (fm e)) (dg e) (preset_effect (tp e)) (gd e).

(** Derived values of the render. *)
Definition operationCount (f : form) : nat := length (live (operations f)).

Definition searchable (op : operation) : jstr :=
  toLowerCase (join (u " ") (List.filter nonempty
    [description op; mode_text (mode op); path op; from op; to op; value_text op])).

Definition filteredOperations (f : form) : list operation :=
  let keyword := toLowerCase (trim (operationSearch f)) in
  if negb (nonempty keyword) then operations f
  else List.filter (λ op, includes keyword (searchable op)) (operations f).

Definition selectedOperation (f : form) : option operation :=
  List.find (λ op, id op =s selectedOperationId f) (operations f).

Definition find_operation (f : form) (operationId : jstr) : option operation :=
  List.find (λ item, id item =s operationId) (operations f).

(** [counts]: an insertion-ordered map, the mode texts are not array indices. *)
Fixpoint count_mode (m : op_mode) (acc : list (op_mode * Z)) : list (op_mode * Z) :=
  match acc with
  | [] => [(m, 1)]
  | (m', k) :: acc => if bool_decide (m' = m) then (m', k + 1) :: acc else (m', k) :: count_mode m acc
  end.
Definition topOperationModes (f : form) : list (op_mode * Z) :=
  let counts := fold_left (λ acc op, count_mode (mode op) acc) (operations f) [] in
  take 4 (sort_by (λ a b, b.2 <=? a.2) counts).

(** ** Switching between the views *)

Definition switchToJsonMode : handler := λ e n,
  let f := fm e in
  match editMode f with
  | EJson => done_with e n
  | EVisual =>
    match buildVisualJson (visualMode f) (legacyValue f) (operations f) with
    | Ok text =>
      done_with (with_form (setEditMode EJson ∘ setJsonError [] ∘ setJsonText text) e) n
    | Throw x =>
      let message := message_of x in
      let error := if nonempty message then message else t (u "参数配置有误") None in
      match (match visualMode f with
             | VLegacy => Ok (legacyValue f)
             | VOperations => buildOperationsJson (operations f) false
             end) with
      | Ok text =>
        (with_form (setEditMode EJson ∘ setJsonError error ∘ setJsonText text) e, n,
         [ShowError message])
      | Throw y => (e, n, [ShowError message; Uncaught y])
      end
    end
  end.

(** The form set to one blank operation. *)
Definition blank_form (vm : visual_mode) (legacy : jstr) (fallback : operation) (f : form) : form :=
  setSelectedOperationId (id fallback) (setOperations [fallback]
    (setLegacyValue legacy (setVisualMode vm f))).

Definition switchToVisualMode : handler := λ e n,
  let f := fm e in
  match editMode f with
  | EVisual => done_with e n
  | EJson =>
    let trimmed := trim (jsonText f) in
    if negb (nonempty trimmed) then
      with_ids createDefaultOperation (λ fallback e n,
        done_with (with_form (setEditMode EVisual ∘ setJsonError [] ∘
                              blank_form VOperations [] fallback) e) n) e n
    else match JSON_parse trimmed with
    | Throw _ => (e, n, [ShowError (t (u "参数覆盖必须是合法的 JSON 格式！") None)])
    | Ok parsed =>
      match operations_of parsed with
      | Some ops =>
        with_ids (normalize_all ops) (λ nextOperations e n,
          done_with (set_template (basic_template (u "operations_default"))
            (with_form (setEditMode EVisual ∘ setJsonError [] ∘ setLegacyValue [] ∘
                        setSelectedOperationId (first_id nextOperations) ∘
                        setOperations nextOperations ∘ setVisualMode VOperations) e)) n) e n
      | None =>
        if is_plain parsed then
          with_ids createDefaultOperation (λ fallback e n,
            done_with (set_template (basic_template (u "legacy_default"))
              (with_form (setEditMode EVisual ∘ setJsonError [] ∘
                          blank_form VLegacy (stringify2_text parsed) fallback) e)) n) e n
        else (e, n, [ShowError (t (u "参数覆盖必须是合法的 JSON 对象") None)])
      end
    end
  end.

(** ** Templates *)

(** What filling in and appending a legacy template have in common. *)
Definition show_legacy (text : jstr) : handler :=
  with_ids createDefaultOperation (λ fallback e n,
    done_with (with_form (setEditMode EVisual ∘ setJsonError [] ∘ setJsonText text ∘
                          setExpandedConditionMap ∅ ∘ blank_form VLegacy text fallback) e) n).

Definition fillLegacyTemplate (legacyPayload : val) : handler :=
  show_legacy (stringify2_text legacyPayload).

Definition fillOperationsTemplate (operationsPayload : list val) : handler :=
  with_ids (normalize_all operationsPayload) (λ finalOperations e n,
    let text := stringify2_text (VObj [(u "operations", VArr operationsPayload)]) in
    done_with (with_form (setEditMode EVisual ∘ setJsonError [] ∘ setJsonText text ∘
                          setExpandedConditionMap ∅ ∘
                          setSelectedOperationId (first_id finalOperations) ∘
                          setOperations finalOperations ∘ setVisualMode VOperations) e) n).

(** [{ ...(legacyPayload || {}), ...parsedCurrent }] *)
Definition merge_legacy (legacyPayload : val) (current : obj) : val :=
  VObj (obj_extend (obj_of_entries (entries legacyPayload)) current).

Definition appendLegacyTemplate (legacyPayload : val) : handler := λ e n,
  let f := fm e in
  let append (current : obj) : outcome :=
    show_legacy (stringify2_text (merge_legacy legacyPayload current)) e n in
  match visualMode f with
  | VOperations => append []
  | VLegacy =>
    let trimmed := trim (legacyValue f) in
    if negb (nonempty trimmed) then append [] else
    match JSON_parse trimmed with
    | Throw _ => (e, n, [ShowError (t (u "当前旧格式 JSON 不合法，无法追加模板") None)])
    | Ok (VObj parsed) => append parsed
    | Ok _ => (e, n, [ShowError (t (u "当前旧格式不是 JSON 对象，无法追加模板") None)])
    end
  end.

Definition appendOperationsTemplate (operationsPayload : list val) : handler :=
  with_ids (imapM normalizeOperation operationsPayload) (λ appended e n,
    let f := fm e in
    let existing := match visualMode f with VOperations => live (operations f) | VLegacy => [] end in
    let nextOperations := existing ++ appended in
    done_with (with_form (setJsonText [] ∘ setEditMode EVisual ∘ setJsonError [] ∘
                          setLegacyValue [] ∘ setExpandedConditionMap ∅ ∘
                          setSelectedOperationId (first_id nextOperations) ∘
                          setOperations nextOperations ∘ setVisualMode VOperations) e) n).

Definition clearValue : handler :=
  with_ids createDefaultOperation (λ fallback e n,
    done_with (set_template (basic_template (u "operations_default"))
      (with_form (setJsonError [] ∘ setJsonText [] ∘ setExpandedConditionMap ∅ ∘
                  blank_form VOperations [] fallback) e)) n).

Definition getSelectedTemplatePreset (c : template_choice) : preset :=
  match List.find (λ kc, kc.1 =s templatePresetKey c) TEMPLATE_PRESET_CONFIG with
  | Some (_, config) => config
  | None => mk_preset "basic" "新格式模板（规则集）" KOperations OPERATION_TEMPLATE
  end.

(** [preset.payload?.operations || []] *)
Definition preset_operations (p : preset) : list val := default [] (operations_of (pr_payload p)).

Definition fillTemplateFromLibrary : handler := λ e n,
  let preset := getSelectedTemplatePreset (tp e) in
  match pr_kind preset with
  | KLegacy => fillLegacyTemplate (pr_payload preset) e n
  | KOperations => fillOperationsTemplate (preset_operations preset) e n
  end.

Definition appendTemplateFromLibrary : handler := λ e n,
  let preset := getSelectedTemplatePreset (tp e) in
  match pr_kind preset with
  | KLegacy => appendLegacyTemplate (pr_payload preset) e n
  | KOperations => appendOperationsTemplate (preset_operations preset) e n
  end.

Definition resetEditorState : handler := λ e n,
  let '(e, n, evs) := clearValue e n in (with_form (setEditMode EVisual) e, n, evs).

(** ** Editing operations *)

(** The patches the form sends: the fields it may change. *)
Record op_patch := mk_op_patch {
  pt_description : option jstr;
  pt_path : option jstr;
  pt_mode : option op_mode;
  pt_value_text : option jstr;
  pt_keep_origin : option bool;
  pt_from : option jstr;
  pt_to : option jstr;
  pt_logic : option logic;
}.

Definition apply_patch (p : op_patch) (op : operation) : operation :=
  {| id := id op;
     description := default (description op) (pt_description p);
     path := default (path op) (pt_path p);
     mode := default (mode op) (pt_mode p);
     value_text := default (value_text op) (pt_value_text p);
     keep_origin := default (keep_origin op) (pt_keep_origin p);
     from := default (from op) (pt_from p);
     to := default (to op) (pt_to p);
     op_logic := default (op_logic op) (pt_logic p);
     conditions := conditions op |}.

Definition patch_path (s : jstr) : op_patch :=
  mk_op_patch None (Some s) None None None None None None.
Definition patch_value (s : jstr) : op_patch :=
  mk_op_patch None None None (Some s) None None None None.
Definition patch_from (s : jstr) : op_patch :=
  mk_op_patch None None None None None (Some s) None None.
Definition patch_to (s : jstr) : op_patch :=
  mk_op_patch None None None None None None (Some s) None.

(** [prev.map((item) => item.id === operationId ? g(item) : item)] *)
Definition map_operation (operationId : jstr) (g : operation → operation) (ops : list operation)
    : list operation :=
  map (λ item, if id item =s operationId then g item else item) ops.

Definition updateOperation (operationId : jstr) (patch : op_patch) (e : editor) : editor :=
  with_form (λ f, setOperations (map_operation operationId (apply_patch patch) (operations f)) f) e.

Definition applyBuiltinField (fieldKey : jstr) (target : guide_target) : handler := λ e n,
  match selectedOperation (fm e) with
  | None => (e, n, [ShowError (t (u "请先选择一条规则") None)])
  | Some op =>
    let meta := MODE_META (mode op) in
    let isSync := bool_decide (mode op = MSyncFields) in
    let spec := if isSync then buildSyncTargetSpec SJson fieldKey else fieldKey in
    let refused := (e, n, [ShowError (t (u "当前规则不支持写入到该位置") None)]) in
    match target with
    | GPath =>
      if m_path meta || m_pathOptional meta || m_pathAlias meta
      then done_with (updateOperation (id op) (patch_path fieldKey) e) n else refused
    | GFrom =>
      if m_from meta || m_pathAlias meta || isSync
      then done_with (updateOperation (id op) (patch_from spec) e) n else refused
    | GTo =>
      if m_to meta || isSync
      then done_with (updateOperation (id op) (patch_to spec) e) n else refused
    end
  end.

Definition openFieldGuide (target : guide_target) : handler := λ e n,
  done_with (set_guide (mk_guide (headerValueExampleVisible (gd e)) true target
                                 (fieldGuideKeyword (gd e))) e) n.

Definition field_text (fd : field) : jstr :=
  toLowerCase (join (u " ") (List.filter nonempty [f_key fd; f_label fd; f_tip fd])).

Definition filteredFieldGuideSections (g : field_guide) : list section :=
  let keyword := toLowerCase (trim (fieldGuideKeyword g)) in
  if negb (nonempty keyword) then BUILTIN_FIELD_SECTIONS
  else List.filter (λ s, negb (bool_decide (length (s_fields s) = 0%nat)))
         (map (λ s, {| s_title := s_title s;
                       s_fields := List.filter (λ fd, includes keyword (field_text fd)) (s_fields s) |})
              BUILTIN_FIELD_SECTIONS).

Definition formatSelectedOperationValueAsJson : handler := λ e n,
  match selectedOperation (fm e) with
  | None => done_with e n
  | Some op =>
    let raw := trim (value_text op) in
    if negb (nonempty raw) then done_with e n else
    match JSON_parse raw with
    | Throw _ => (e, n, [ShowError (t (u "当前值不是合法 JSON，无法格式化") None)])
    | Ok v => (updateOperation (id op) (patch_value (stringify2_text v)) e, n,
               [ShowSuccess (t (u "JSON 已格式化") None)])
    end
  end.

(** [{ ...draft, ...draftPatch }] for the return-error form. *)
Record error_patch := mk_error_patch {
  ep_message : option jstr;
  ep_statusCode : option num;
  ep_code : option jstr;
  ep_type : option jstr;
  ep_skipRetry : option bool;
  ep_simpleMode : option bool;
}.

Definition apply_error_patch (p : error_patch) (d : return_error_draft) : return_error_draft :=
  {| d_message := default (d_message d) (ep_message p);
     d_statusCode := default (d_statusCode d) (ep_statusCode p);
     d_code := default (d_code d) (ep_code p);
     d_type := default (d_type d) (ep_type p);
     d_skipRetry := default (d_skipRetry d) (ep_skipRetry p);
     d_simpleMode := default (d_simpleMode d) (ep_simpleMode p) |}.

Definition updateReturnErrorDraft (operationId : jstr) (draftPatch : error_patch) : handler := λ e n,
  match find_operation (fm e) operationId with
  | None => done_with e n
  | Some current =>
    let nextDraft := apply_error_patch draftPatch (parseReturnErrorDraft (value_text current)) in
    done_with (updateOperation operationId (patch_value (buildReturnErrorValueText nextDraft)) e) n
  end.

(** The updater may itself make ids. *)
Definition updatePruneObjectsDraft (operationId : jstr) (updater : prune_draft → ID prune_draft)
    : handler := λ e n,
  match find_operation (fm e) operationId with
  | None => done_with e n
  | Some current =>
    with_ids (let* draft := parsePruneObjectsDraft (value_text current) in updater draft)
      (λ nextDraft e n,
        done_with (updateOperation operationId (patch_value (buildPruneObjectsValueText nextDraft)) e) n)
      e n
  end.

Definition with_rules (simple : bool) (rules : list condition) (d : prune_draft) : prune_draft :=
  {| p_simpleMode := simple; p_typeText := p_typeText d; p_logic := p_logic d;
     p_recursive := p_recursive d; p_rules := rules |}.

Definition addPruneRule (operationId : jstr) : handler :=
  updatePruneObjectsDraft operationId (λ draft,
    let* rule := normalizePruneRule (VObj []) in
    iret (with_rules false (p_rules draft ++ [rule]) draft)).

Record cond_patch := mk_cond_patch {
  cp_path : option jstr;
  cp_mode : option cond_mode;
  cp_value_text : option jstr;
  cp_invert : option bool;
  cp_pass_missing_key : option bool;
}.

Definition apply_cond_patch (p : cond_patch) (c : condition) : condition :=
  {| c_id := c_id c;
     c_path := default (c_path c) (cp_path p);
     c_mode := default (c_mode c) (cp_mode p);
     c_value_text := default (c_value_text c) (cp_value_text p);
     c_invert := default (c_invert c) (cp_invert p);
     c_pass_missing_key := default (c_pass_missing_key c) (cp_pass_missing_key p) |}.

Definition map_condition (conditionId : jstr) (patch : cond_patch) (l : list condition)
    : list condition :=
  map (λ c, if c_id c =s conditionId then apply_cond_patch patch c else c) l.

Definition drop_condition (conditionId : jstr) (l : list condition) : list condition :=
  List.filter (λ c, negb (c_id c =s conditionId)) l.

Definition updatePruneRule (operationId ruleId : jstr) (patch : cond_patch) : handler :=
  updatePruneObjectsDraft operationId (λ draft,
    iret (with_rules (p_simpleMode draft) (map_condition ruleId patch (p_rules draft)) draft)).

Definition removePruneRule (operationId ruleId : jstr) : handler :=
  updatePruneObjectsDraft operationId (λ draft,
    iret (with_rules (p_simpleMode draft) (drop_condition ruleId (p_rules draft)) draft)).

(** ** Adding, moving and removing operations *)

Definition addOperation : handler :=
  with_ids createDefaultOperation (λ created e n,
    done_with (with_form (λ f, setSelectedOperationId (id created)
                                 (setOperations (operations f ++ [created]) f)) e) n).

Definition resetOperationDragState (e : editor) : editor := set_drag no_drag e.

Definition moveOperation (sourceId targetId : jstr) (position : drop_position) (e : editor) : editor :=
  if negb (nonempty sourceId) || negb (nonempty targetId) || (sourceId =s targetId) then e
  else with_form (λ f, setSelectedOperationId sourceId
         (setOperations (reorderOperations (operations f) sourceId targetId position) f)) e.

Definition handleOperationDragStart (operationId : jstr) : handler := λ e n,
  done_with (with_form (setSelectedOperationId operationId)
    (set_drag (mk_drag operationId (dragOverOperationId (dg e)) (dragOverPosition (dg e))) e)) n.

(** The pointer position and the row's rectangle come from the browser. *)
Definition handleOperationDragOver (operationId : jstr) (clientY top height : num) : handler := λ e n,
  let dragged := draggedOperationId (dg e) in
  if negb (nonempty dragged) || (dragged =s operationId) then done_with e n else
  let position := if ngtb (nsub clientY top) (ndiv height (of_Z 2)) then After else Before in
  done_with (set_drag (mk_drag dragged operationId position) e) n.

(** [transferred] is [event.dataTransfer.getData('text/plain')]. *)
Definition handleOperationDrop (operationId transferred : jstr) : handler := λ e n,
  let dragged := draggedOperationId (dg e) in
  let sourceId := if nonempty dragged then dragged else transferred in
  let position := if dragOverOperationId (dg e) =s operationId
                  then dragOverPosition (dg e) else Before in
  done_with (resetOperationDragState (moveOperation sourceId operationId position e)) n.

Definition clone_condition (c : condition) : val :=
  VObj [(u "path", VStr (c_path c)); (u "mode", VStr (cond_mode_text (c_mode c)));
        (u "value", parseLooseValue (c_value_text c)); (u "invert", VBool (c_invert c));
        (u "pass_missing_key", VBool (c_pass_missing_key c))].

Definition clone_source (op : operation) : val :=
  VObj [(u "description", VStr (description op)); (u "path", VStr (path op));
        (u "mode", VStr (mode_text (mode op))); (u "value", parseLooseValue (value_text op));
        (u "keep_origin", VBool (keep_origin op)); (u "from", VStr (from op));
        (u "to", VStr (to op)); (u "logic", VStr (logic_text (op_logic op)));
        (u "conditions", VArr (map clone_condition (conditions op)))].

Definition duplicateOperation (eager : bool) (operationId : jstr) : handler := λ e n,
  match find_index (λ item, id item =s operationId) (operations (fm e)) with
  | None => done_with e n
  | Some index =>
    match operations (fm e) !! index with
    | None => done_with e n
    | Some source =>
      with_ids (normalizeOperation (clone_source source)) (λ cloned e n,
        let select := if eager && nonempty (id cloned)
                      then setSelectedOperationId (id cloned) else (λ f, f) in
        done_with (with_form (λ f, select
          (setOperations (splice_ins (S index) cloned (operations f)) f)) e) n) e n
    end
  end.

Definition removeOperation (operationId : jstr) : handler := λ e n,
  let forget (f : form) := setExpandedConditionMap (delete operationId (expandedConditionMap f)) f in
  if bool_decide (length (operations (fm e)) ≤ 1)%nat then
    with_ids createDefaultOperation (λ fresh e n,
      done_with (with_form (λ f, forget (setOperations [fresh] f)) e) n) e n
  else
    done_with (with_form (λ f, forget (setOperations
      (List.filter (λ item, negb (id item =s operationId)) (operations f)) f)) e) n.

(** ** Conditions *)

Definition with_conditions (g : list condition → list condition) (op : operation) : operation :=
  {| id := id op; description := description op; path := path op; mode := mode op;
     value_text := value_text op; keep_origin := keep_origin op; from := from op; to := to op;
     op_logic := op_logic op; conditions := g (conditions op) |}.

Definition expanded (f : form) (operationId : jstr) : list jstr :=
  default [] (expandedConditionMap f !! operationId).

Definition expand_with (operationId : jstr) (keys : list jstr) (f : form) : form :=
  setExpandedConditionMap (<[operationId := keys]> (expandedConditionMap f)) f.

Definition addCondition (operationId : jstr) : handler :=
  with_ids createDefaultCondition (λ created e n,
    done_with (with_form (λ f,
      expand_with operationId (expanded f operationId ++ [c_id created])
        (setOperations (map_operation operationId (with_conditions (λ l, l ++ [created]))
                          (operations f)) f)) e) n).

Definition updateCondition (operationId conditionId : jstr) (patch : cond_patch) : handler := λ e n,
  done_with (with_form (λ f, setOperations
    (map_operation operationId (with_conditions (map_condition conditionId patch)) (operations f)) f) e) n.

Definition removeCondition (operationId conditionId : jstr) : handler := λ e n,
  done_with (with_form (λ f,
    expand_with operationId (List.filter (λ i, negb (i =s conditionId)) (expanded f operationId))
      (setOperations (map_operation operationId (with_conditions (drop_condition conditionId))
                        (operations f)) f)) e) n.

Definition selectedConditionKeys (f : form) : list jstr := expanded f (selectedOperationId f).

Definition handleConditionCollapseChange (operationId : jstr) (activeKeys : list jstr) : handler := λ e n,
  done_with (with_form (expand_with operationId (List.filter nonempty activeKeys)) e) n.

Definition expandAllSelectedConditions : handler := λ e n,
  match selectedOperation (fm e) with
  | Some op =>
    if nonempty (selectedOperationId (fm e))
    then done_with (with_form (λ f, expand_with (selectedOperationId f) (map c_id (conditions op)) f) e) n
    else done_with e n
  | None => done_with e n
  end.

Definition collapseAllSelectedConditions : handler := λ e n,
  if nonempty (selectedOperationId (fm e))
  then done_with (with_form (λ f, expand_with (selectedOperationId f) [] f) e) n
  else done_with e n.

(** ** The JSON view and saving *)

Definition handleJsonChange (nextValue : jstr) : handler := λ e n,
  let trimmed := trim nextValue in
  let error := if negb (nonempty trimmed) then []
               else if negb (verifyJSON trimmed) then t (u "JSON格式错误") None else [] in
  done_with (with_form (setJsonError error ∘ setJsonText nextValue) e) n.

Definition formatJson : handler := λ e n,
  let trimmed := trim (jsonText (fm e)) in
  if negb (nonempty trimmed) then done_with e n else
  match JSON_parse trimmed with
  | Throw _ => (e, n, [ShowError (t (u "参数覆盖必须是合法的 JSON 格式！") None)])
  | Ok v => done_with (with_form (setJsonError [] ∘ setJsonText (stringify2_text v)) e) n
  end.

Definition visualValidationError (f : form) : jstr :=
  match editMode f with
  | EJson => []
  | EVisual =>
    match buildVisualJson (visualMode f) (legacyValue f) (operations f) with
    | Ok _ => []
    | Throw x => let message := message_of x in
                 if nonempty message then message else t (u "参数配置有误") None
    end
  end.

Definition save_result (f : form) : res jstr :=
  match editMode f with
  | EJson =>
    let trimmed := trim (jsonText f) in
    if negb (nonempty trimmed) then Ok [] else
    if negb (verifyJSON trimmed)
    then Throw (UserError (t (u "参数覆盖必须是合法的 JSON 格式！") None)) else
    rmap stringify2_text (JSON_parse trimmed)
  | EVisual => buildVisualJson (visualMode f) (legacyValue f) (operations f)
  end.

Definition handleSave : handler := λ e n,
  match save_result (fm e) with
  | Ok result => (e, n, [OnSave result])
  | Throw x => (e, n, [ShowError (message_of x)])
  end.

End handlers.

(** ** Everything the user can do *)

Inductive action :=
| Open (value : val)
| SwitchToJson | SwitchToVisual
| FillTemplate | AppendTemplate | Clear | Reset
| SetGroup (key : jstr) | SetPreset (key : jstr)
| Search (text : jstr) | Select (operationId : jstr)
| ApplyField (key : jstr) (target : guide_target) | OpenGuide (target : guide_target)
| UpdateOp (operationId : jstr) (patch : op_patch)
| FormatValue
| UpdateError (operationId : jstr) (patch : error_patch)
| UpdatePrune (operationId : jstr) (draft : prune_draft → prune_draft)
| AddRule (operationId : jstr)
| UpdateRule (operationId ruleId : jstr) (patch : cond_patch)
| RemoveRule (operationId ruleId : jstr)
| AddOp | DragStart (operationId : jstr)
| DragOver (operationId : jstr) (clientY top height : num)
| Drop (operationId transferred : jstr) | DragEnd
| Duplicate (eager : bool) (operationId : jstr)
| RemoveOp (operationId : jstr)
| AddCond (operationId : jstr)
| UpdateCond (operationId conditionId : jstr) (patch : cond_patch)
| RemoveCond (operationId conditionId : jstr)
| CollapseChange (operationId : jstr) (keys : list jstr)
| ExpandAll | CollapseAll
| JsonChange (text : jstr) | FormatJson
| Save.

Section machine.
Context `{Env} `{Unicode}.

Definition handle (a : action) : handler :=
  match a with
  | Open value => open_editor value
  | SwitchToJson => switchToJsonMode
  | SwitchToVisual => switchToVisualMode
  | FillTemplate => fillTemplateFromLibrary
  | AppendTemplate => appendTemplateFromLibrary
  | Clear => clearValue
  | Reset => resetEditorState
  | SetGroup key => λ e n, done_with (set_template (mk_template key (templatePresetKey (tp e))) e) n
  | SetPreset key => λ e n, done_with (set_template (mk_template (templateGroupKey (tp e)) key) e) n
  | Search text => λ e n, done_with (with_form (setOperationSearch text) e) n
  | Select operationId => λ e n, done_with (with_form (setSelectedOperationId operationId) e) n
  | ApplyField key target => applyBuiltinField key target
  | OpenGuide target => openFieldGuide target
  | UpdateOp operationId patch => λ e n, done_with (updateOperation operationId patch e) n
  | FormatValue => formatSelectedOperationValueAsJson
  | UpdateError operationId patch => updateReturnErrorDraft operationId patch
  | UpdatePrune operationId draft => updatePruneObjectsDraft operationId (λ d, iret (draft d))
  | AddRule operationId => addPruneRule operationId
  | UpdateRule operationId ruleId patch => updatePruneRule operationId ruleId patch
  | RemoveRule operationId ruleId => removePruneRule operationId ruleId
  | AddOp => addOperation
  | DragStart operationId => handleOperationDragStart operationId
  | DragOver operationId y top height => handleOperationDragOver operationId y top height
  | Drop operationId transferred => handleOperationDrop operationId transferred
  | DragEnd => λ e n, done_with (resetOperationDragState e) n
  | Duplicate eager operationId => duplicateOperation eager operationId
  | RemoveOp operationId => removeOperation operationId
  | AddCond operationId => addCondition operationId
  | UpdateCond operationId conditionId patch => updateCondition operationId conditionId patch
  | RemoveCond operationId conditionId => removeCondition operationId conditionId
  | CollapseChange operationId keys => handleConditionCollapseChange operationId keys
  | ExpandAll => expandAllSelectedConditions
  | CollapseAll => collapseAllSelectedConditions
  | JsonChange text => handleJsonChange text
  | FormatJson => formatJson
  | Save => handleSave
  end.

Definition step (a : action) : handler := λ e n,
  let '(e, n, evs) := handle a e n in (settle e, n, evs).

(** The state of the component when it is mounted. *)
Definition mounted (op : operation) : editor :=
  mk_editor (mk_form EVisual VOperations [] [op] [] [] [] [] ∅) no_drag
    (basic_template (u "operations_default")) (mk_guide false false GPath []).

(** States the editor can be in, with the value of the id counter.  Rendering
    makes ids too (the initial value of [useState] and the drafts shown are
    computed again), so the counter may advance between actions. *)
Inductive reachable : editor → nat → Prop :=
| reach_mount n op n' :
    createDefaultOperation n = (Ok op, n') → reachable (settle (mounted op)) n'
| reach_render e n n' : reachable e n → (n ≤ n')%nat → reachable e n'
| reach_step a e n e' n' evs :
    reachable e n → step a e n = (e', n', evs) → reachable e' n'.

End machine.

(** ** Ids are never reused *)

Lemma last_separator (c : Z) x y b d :
  c ∉ b → c ∉ d → x ++ c :: b = y ++ c :: d → b = d.
Proof.
  revert y. induction x as [|a x IH]; intros [|a' y] Hb Hd E; simpl in E.
  - by injection E.
  - injection E as -> ->. set_solver.
  - injection E as -> <-. set_solver.
  - injection E as -> E. by apply (IH y).
Qed.

Lemma local_id_inj t1 t2 n m : local_id t1 n = local_id t2 m → n = m.
Proof.
  unfold local_id. intros E.
  assert (E' : (u "param_override_" ++ decZ t1) ++ 95 :: dec (Z.of_nat n) =
               (u "param_override_" ++ decZ t2) ++ 95 :: dec (Z.of_nat m))
    by (rewrite <- !app_assoc; exact E). clear E.
  assert (Hd : ∀ k, (95 : Z) ∉ dec (Z.of_nat k)).
  { intros k Hin. pose proof (numeral_digits _ _ (dec_numeral (Z.of_nat k) ltac:(lia))) as Hdig.
    rewrite Forall_forall in Hdig. by specialize (Hdig _ Hin). }
  apply last_separator, dec_inj in E'; [lia..|apply Hd|apply Hd].
Qed.

Section ids.
Context `{Env} `{Unicode}.

Definition id_at (k : nat) : jstr := local_id (date_now k) k.

(** Distinct ids made by the counter values in [a, b). *)
Definition owned (a b : nat) (ids : list jstr) : Prop :=
  NoDup ids ∧ Forall (λ i, ∃ k, (a ≤ k < b)%nat ∧ i = id_at k) ids.

Lemma id_at_inj k k' : id_at k = id_at k' → k = k'.
Proof. apply local_id_inj. Qed.

Lemma owned_nil a b : owned a b [].
Proof. split; constructor. Qed.

Lemma owned_one k : owned k (S k) [id_at k].
Proof. split; [apply NoDup_singleton|]. constructor; [|constructor]. exists k. split; [lia|done]. Qed.

Lemma owned_weaken a b a' b' ids : (a' ≤ a)%nat → (b ≤ b')%nat → owned a b ids → owned a' b' ids.
Proof.
  intros Ha Hb [Hn Hf]. split; [done|]. eapply Forall_impl; [exact Hf|].
  intros i (k & Hk & ->). exists k. split; [lia|done].
Qed.

Lemma owned_app a b c l k : (a ≤ b)%nat → (b ≤ c)%nat → owned a b l → owned b c k → owned a c (l ++ k).
Proof.
  intros Hab Hbc [Hn1 Hf1] [Hn2 Hf2]. split.
  - apply NoDup_app. split_and!; [done| |done]. intros i Hi Hi'.
    rewrite Forall_forall in Hf1, Hf2. destruct (Hf1 i Hi) as (k1 & ? & ->).
    destruct (Hf2 _ Hi') as (k2 & ? & E%id_at_inj). lia.
  - apply Forall_app. split.
    + by apply (owned_weaken a b a c l); [lia..|split].
    + by apply (owned_weaken b c a c k); [lia..|split].
Qed.

Lemma owned_sublist a b l k : l `sublist_of` k → owned a b k → owned a b l.
Proof.
  intros Hs [Hn Hf]. split; [by eapply sublist_NoDup|]. rewrite Forall_forall in *. intros i Hi. apply Hf. eapply elem_of_submseteq; [exact Hi|by apply sublist_submseteq].
Qed.

#[export] Instance owned_proper a b : Proper (Permutation ==> iff) (owned a b).
Proof. intros l k Hp. unfold owned. by rewrite Hp. Qed.

Definition op_ids (op : operation) : list jstr := id op :: map c_id (conditions op).
Definition all_ids (ops : list operation) : list jstr := mbind op_ids ops.

Lemma all_ids_one op : all_ids [op] = op_ids op.
Proof. apply (app_nil_r (op_ids op)). Qed.

Lemma all_ids_app l k : all_ids (l ++ k) = all_ids l ++ all_ids k.
Proof. apply bind_app. Qed.

#[export] Instance all_ids_proper : Proper (Permutation ==> Permutation) all_ids.
Proof. intros l k Hp. unfold all_ids. by rewrite Hp. Qed.

Lemma all_ids_sublist l k : l `sublist_of` k → all_ids l `sublist_of` all_ids k.
Proof.
  induction 1 as [|x l k _ IH|x l k _ IH]; [done| |].
  - by apply (sublist_app (op_ids x) (op_ids x)).
  - by apply (sublist_inserts_l (op_ids x)).
Qed.

(** The ids made by each constructor of rows. *)
Lemma normalize_row_ids v n :
  match normalize_row v n with
  | (Ok c, n') => n' = S n ∧ c_id c = id_at n
  | (Throw _, n') => n' = S n
  end.
Proof.
  unfold normalize_row, nextLocalId, ilift, ibind.
  repeat (match goal with |- context [match ?r with Ok _ => _ | Throw _ => _ end] =>
            destruct r end; [|done]). done.
Qed.

Lemma imapM_row_ids l n :
  match imapM normalizeCondition l n with
  | (Ok rows, n') => (n ≤ n')%nat ∧ owned n n' (map c_id rows)
  | (Throw _, n') => (n ≤ n')%nat
  end.
Proof.
  revert n. induction l as [|v l IH]; intros n; cbn [imapM]; [split; [done|apply owned_nil]|].
  unfold ibind at 1. unfold normalizeCondition at 1. pose proof (normalize_row_ids v n) as Hv.
  destruct (normalize_row v n) as [[c|] n1]; [|lia]. destruct Hv as [-> Hc].
  unfold ibind. specialize (IH (S n)). destruct (imapM normalizeCondition l (S n)) as [[rows|] n2]; [|lia].
  destruct IH as [Hle Ho]. split; [lia|]. simpl. rewrite Hc.
  apply (owned_app n (S n) n2 [id_at n]); [lia|done|apply owned_one|done].
Qed.

Lemma normalizeOperation_ids v n :
  match normalizeOperation v n with
  | (Ok op, n') => (n < n')%nat ∧ owned n n' (op_ids op)
  | (Throw _, n') => (n < n')%nat
  end.
Proof.
  unfold normalizeOperation, nextLocalId, ilift. unfold ibind at 1 2 3 4 5 6 7 8 9 10 11.
  do 10 (match goal with |- context [match ?r with Ok _ => _ | Throw _ => _ end] =>
            destruct r as [?|] end; [|lia]).
  assert (Hc : ∀ (m : ID (list condition)) f,
    match m (S n) with
    | (Ok rows, n') => (S n ≤ n')%nat ∧ owned (S n) n' (map c_id rows)
    | (Throw _, n') => (S n ≤ n')%nat
    end →
    (∀ rows, op_ids (f rows) = id_at n :: map c_id rows) →
    match (let* rows := m in iret (f rows)) (S n) with
    | (Ok op, n') => (n < n')%nat ∧ owned n n' (op_ids op)
    | (Throw _, n') => (n < n')%nat
    end).
  { intros m f Hm Hf. unfold ibind. destruct (m (S n)) as [[rows|] n']; [|lia].
    destruct Hm as [Hle Ho]. split; [lia|]. rewrite Hf.
    apply (owned_app n (S n) n' [id_at n]); [lia|done|apply owned_one|done]. }
  apply Hc; [|done].
  match goal with |- match (match ?v with VArr _ => _ | _ => _ end) _ with _ => _ end =>
    destruct v as [| | | | |l| |] end;
    try (split; [done|apply owned_nil]).
  apply imapM_row_ids.
Qed.

Lemma imapM_op_ids l n :
  match imapM normalizeOperation l n with
  | (Ok ops, n') => (n ≤ n')%nat ∧ owned n n' (all_ids ops) ∧ length ops = length l
  | (Throw _, n') => (n ≤ n')%nat
  end.
Proof.
  revert n. induction l as [|v l IH]; intros n; cbn [imapM]; [split_and!; [done|apply owned_nil|done]|].
  unfold ibind at 1. pose proof (normalizeOperation_ids v n) as Hv.
  destruct (normalizeOperation v n) as [[op|] n1]; [|lia]. destruct Hv as [Hlt Ho].
  unfold ibind. specialize (IH n1). destruct (imapM normalizeOperation l n1) as [[ops|] n2]; [|lia].
  destruct IH as (Hle & Ho' & Hlen). split_and!; [lia| |by simpl; rewrite Hlen].
  by apply (owned_app n n1 n2 (op_ids op)); [lia| | |].
Qed.

(** Reading a prune draft makes ids for its rules only. *)
Lemma where_rules_ids w n :
  match where_rules w n with
  | (Ok rows, n') => (n ≤ n')%nat ∧ owned n n' (map c_id rows)
  | (Throw _, n') => (n ≤ n')%nat
  end.
Proof. destruct w; try apply imapM_row_ids; by split; [|apply owned_nil]. Qed.

Lemma condition_rules_ids c n :
  match condition_rules c n with
  | (Ok rows, n') => (n ≤ n')%nat ∧ owned n n' (map c_id rows)
  | (Throw _, n') => (n ≤ n')%nat
  end.
Proof. destruct c; try apply imapM_row_ids; by split; [|apply owned_nil]. Qed.

Lemma prune_draft_of_ids o n :
  match prune_draft_of o n with
  | (Ok d, n') => (n ≤ n')%nat ∧ owned n n' (map c_id (p_rules d))
  | (Throw _, n') => (n ≤ n')%nat
  end.
Proof.
  unfold prune_draft_of. unfold ibind at 1. pose proof (where_rules_ids (oget o (u "where")) n) as Hw.
  destruct (where_rules _ n) as [[rows|] n1]; [|done]. destruct Hw as [Hn1 Ho1].
  unfold ibind at 1. pose proof (condition_rules_ids (oget o (u "conditions")) n1) as Hc.
  destruct (condition_rules _ n1) as [[rows'|] n2]; [|lia]. destruct Hc as [Hn2 Ho2].
  unfold ilift, ibind, iret. cbv beta iota.
  do 2 (match goal with |- context [match ?r with Ok _ => _ | Throw _ => _ end] =>
          destruct r; [|lia] end).
  simpl. split; [lia|]. rewrite map_app. by apply (owned_app n n1 n2).
Qed.

Lemma parsePrune_ids s n :
  match parsePruneObjectsDraft s n with
  | (Ok d, n') => (n ≤ n')%nat ∧ owned n n' (map c_id (p_rules d))
  | (Throw _, n') => (n ≤ n')%nat
  end.
Proof.
  assert (Hsimple : ∀ x n', (n ≤ n')%nat →
    (n ≤ n')%nat ∧ owned n n' (map c_id (p_rules (simple_prune_draft x)))).
  { intros x n' Hn. split; [done|apply owned_nil]. }
  unfold parsePruneObjectsDraft. destruct (negb (nonempty (trim s))); [by apply Hsimple|].
  unfold icatch, ibind at 1, ilift. destruct (JSON_parse (trim s)) as [v|]; [|by apply Hsimple].
  destruct v as [| | | |x| |o|]; try (by apply Hsimple);
    try (unfold ibind; destruct (trimmed_text _); by apply Hsimple).
  pose proof (prune_draft_of_ids o n) as Ho. destruct (prune_draft_of o n) as [[d|] n']; [done|].
  by apply Hsimple.
Qed.

End ids.

(** ** The invariant of the editor *)

Section invariant.
Context `{Env} `{Unicode}.

(** There is always an operation to edit, and all rows have ids of their own,
    older than the counter. *)
Definition ops_ok (n : nat) (ops : list operation) : Prop := ops ≠ [] ∧ owned 0 n (all_ids ops).
Definition inv (e : editor) (n : nat) : Prop := ops_ok n (operations (fm e)).

Lemma ops_ok_weaken n n' ops : (n ≤ n')%nat → ops_ok n ops → ops_ok n' ops.
Proof. intros Hn [Hne Ho]. split; [done|]. by eapply owned_weaken; [| |exact Ho]. Qed.

Lemma ops_ok_fresh n n' ops : ops ≠ [] → owned n n' (all_ids ops) → ops_ok n' ops.
Proof. intros Hne Ho. split; [done|]. eapply owned_weaken; [|done|exact Ho]. lia. Qed.

Lemma all_ids_map g ops :
  (∀ op, op_ids (g op) = op_ids op) → all_ids (map g ops) = all_ids ops.
Proof. intros Hg. induction ops as [|op ops IH]; [done|].
  change (op_ids (g op) ++ all_ids (map g ops) = op_ids op ++ all_ids ops). by rewrite Hg, IH.
Qed.

Lemma ops_ok_map n i g ops :
  (∀ op, op_ids (g op) = op_ids op) → ops_ok n ops → ops_ok n (map_operation i g ops).
Proof.
  intros Hg [Hne Ho]. unfold map_operation. split; [by destruct ops|].
  rewrite all_ids_map; [done|]. intros op. by case_bool_decide.
Qed.

Lemma ops_ok_perm n l k : l ≡ₚ k → ops_ok n l → ops_ok n k.
Proof.
  intros Hp [Hne Ho]. split; [|by rewrite <- Hp]. intros ->. by apply Permutation_nil_r in Hp.
Qed.

Lemma ops_ok_cons n n' op ops :
  (n ≤ n')%nat → owned n n' (op_ids op) → ops_ok n ops → ops_ok n' (op :: ops).
Proof.
  intros Hn Ho [_ Hops]. split; [done|].
  assert (Hp : all_ids (op :: ops) ≡ₚ all_ids ops ++ op_ids op) by apply (Permutation_app_comm (op_ids op)).
  rewrite Hp. by apply (owned_app 0 n n'); [lia| | |].
Qed.

Lemma ids_sublist ops : map id ops `sublist_of` all_ids ops.
Proof.
  induction ops as [|op ops IH]; [done|]. csimpl. unfold all_ids. csimpl.
  apply sublist_skip. by apply sublist_inserts_l.
Qed.

Lemma ops_ok_nodup n ops : ops_ok n ops → NoDup (map id ops).
Proof. intros [_ [Hn _]]. eapply sublist_NoDup; [done|apply ids_sublist]. Qed.

(** Removing one of several operations leaves some. *)
Lemma ops_ok_remove n i ops :
  (1 < length ops)%nat → ops_ok n ops → ops_ok n (List.filter (λ item, negb (id item =s i)) ops).
Proof.
  intros Hlen Hok. pose proof (ops_ok_nodup n ops Hok) as Hnd. destruct Hok as [_ Ho].
  split; [|by eapply owned_sublist; [apply all_ids_sublist, filter_sublist_of|exact Ho]].
  destruct ops as [|a [|b ops]]; simpl in Hlen; [lia..|]. intros Hnil.
  assert (Hall : ∀ x, x ∈ a :: b :: ops → id x = i).
  { intros x Hx. destruct (decide (id x = i)) as [|Hn]; [done|].
    assert (Hin : x ∈ List.filter (λ item, negb (id item =s i)) (a :: b :: ops)).
    { apply elem_of_filter_bool. split; [done|]. by apply negb_true_iff, bool_decide_eq_false. }
    rewrite Hnil in Hin. by apply elem_of_nil in Hin. }
  rewrite !map_cons, NoDup_cons in Hnd. destruct Hnd as [Hnd _]. apply Hnd.
  rewrite (Hall a), (Hall b) by set_solver. apply list_elem_of_here.
Qed.

(** A condition is added to one operation at most. *)
Lemma all_ids_add_condition i c ops :
  NoDup (map id ops) →
  all_ids (map_operation i (with_conditions (λ l, l ++ [c])) ops) ≡ₚ all_ids ops ∨
  all_ids (map_operation i (with_conditions (λ l, l ++ [c])) ops) ≡ₚ c_id c :: all_ids ops.
Proof.
  set (g := with_conditions _).
  induction ops as [|op ops IH]; [by left|]. rewrite map_cons, NoDup_cons. intros [Hnin Hnd].
  change (all_ids (map_operation i g (op :: ops))) with
    (op_ids (if id op =s i then g op else op) ++ all_ids (map_operation i g ops)).
  change (all_ids (op :: ops)) with (op_ids op ++ all_ids ops).
  case_bool_decide as Hid.
  - right. replace (map_operation i g ops) with ops.
    + assert (Hg : op_ids (g op) ≡ₚ c_id c :: op_ids op).
      { unfold op_ids. simpl. rewrite map_app. simpl. rewrite <- Permutation_cons_append.
        apply Permutation_swap. }
      by rewrite Hg.
    + unfold map_operation. rewrite <- (map_id ops) at 1. apply map_ext_in. intros x Hx%list_elem_of_In.
      rewrite bool_decide_eq_false_2; [done|]. intros Hxi. apply Hnin. rewrite Hid, <- Hxi.
      apply list_elem_of_fmap. eauto.
  - destruct (IH Hnd) as [Hp|Hp]; [left|right]; rewrite Hp; [done|].
    symmetry. apply (Permutation_middle (op_ids op)).
Qed.

Lemma ops_ok_add_condition n i c ops :
  c_id c = id_at n → ops_ok n ops →
  ops_ok (S n) (map_operation i (with_conditions (λ l, l ++ [c])) ops).
Proof.
  intros Hc Hok. pose proof (ops_ok_nodup n ops Hok) as Hnd. destruct Hok as [Hne Ho].
  split; [by destruct ops|].
  destruct (all_ids_add_condition i c ops Hnd) as [Hp|Hp]; rewrite Hp.
  - by eapply owned_weaken; [| |exact Ho]; lia.
  - rewrite Hc. rewrite (Permutation_cons_append (all_ids ops)).
    apply (owned_app 0 n (S n)); [lia|lia|done|apply owned_one].
Qed.

Lemma op_ids_map_condition i p op : op_ids (with_conditions (map_condition i p) op) = op_ids op.
Proof.
  unfold op_ids. simpl. f_equal. unfold map_condition. rewrite map_map. apply map_ext. intros c.
  by case_bool_decide.
Qed.

Lemma ops_ok_drop_condition n i c ops :
  ops_ok n ops → ops_ok n (map_operation i (with_conditions (drop_condition c)) ops).
Proof.
  intros [Hne Ho]. split; [by destruct ops|]. eapply owned_sublist; [|exact Ho].
  clear. induction ops as [|op ops IH]; [done|].
  apply (sublist_app (op_ids (if id op =s i then with_conditions (drop_condition c) op else op))
    (op_ids op)); [|exact IH]. case_bool_decide; [|done].
  unfold op_ids. simpl. apply sublist_skip. unfold drop_condition.
  induction (conditions op) as [|x l IHl]; simpl; [done|]. case_bool_decide; simpl; by constructor.
Qed.

(** ** Every handler keeps the invariant *)

Definition good (h : handler) : Prop := ∀ e n, inv e n →
  let '(e', n', _) := h e n in inv e' n' ∧ (n ≤ n')%nat.

Lemma good_pure (g : editor → editor) :
  (∀ e n, inv e n → inv (g e) n) → good (λ e n, done_with (g e) n).
Proof. intros Hg e n He. simpl. split; [by apply Hg|done]. Qed.

Lemma good_with_ids {A} (m : ID A) (P : nat → nat → A → Prop) (k : A → handler) :
  (∀ n, match m n with
        | (Ok a, n') => (n ≤ n')%nat ∧ P n n' a
        | (Throw _, n') => (n ≤ n')%nat
        end) →
  (∀ a e n n', inv e n → (n ≤ n')%nat → P n n' a →
     let '(e', n'', _) := k a e n' in inv e' n'' ∧ (n' ≤ n'')%nat) →
  good (with_ids m k).
Proof.
  intros Hm Hk e n He. unfold with_ids. specialize (Hm n). destruct (m n) as [[a|x] n'].
  - destruct Hm as [Hn Ha]. specialize (Hk a e n n' He Hn Ha).
    destruct (k a e n') as [[e' n''] evs]. destruct Hk. split; [done|lia].
  - split; [by eapply ops_ok_weaken|done].
Qed.

(** Handlers that replace the operations by new ones. *)
Definition fresh_ops (n n' : nat) (ops : list operation) : Prop :=
  ops ≠ [] ∧ owned n n' (all_ids ops).

Lemma good_fresh (m : ID (list operation)) (g : list operation → editor → editor) :
  (∀ n, match m n with
        | (Ok ops, n') => (n ≤ n')%nat ∧ fresh_ops n n' ops
        | (Throw _, n') => (n ≤ n')%nat
        end) →
  (∀ ops e, operations (fm (g ops e)) = ops) →
  good (with_ids m (λ ops e n, done_with (g ops e) n)).
Proof.
  intros Hm Hg. apply (good_with_ids m fresh_ops); [done|]. intros ops e n n' _ Hn [Hne Ho].
  split; [|done]. unfold inv. rewrite Hg. by apply (ops_ok_fresh n).
Qed.

Lemma default_op_ids n :
  match createDefaultOperation n with
  | (Ok op, n') => (n ≤ n')%nat ∧ owned n n' (op_ids op)
  | (Throw _, n') => (n ≤ n')%nat
  end.
Proof.
  unfold createDefaultOperation. pose proof (normalizeOperation_ids (VObj [(u "mode", VStr (u "set"))]) n) as Hv.
  destruct (normalizeOperation _ n) as [[op|] n']; [|lia]. destruct Hv. split; [lia|done].
Qed.

Lemma good_default (g : operation → editor → editor) :
  (∀ op e, operations (fm (g op e)) = [op]) →
  good (with_ids createDefaultOperation (λ op e n, done_with (g op e) n)).
Proof.
  intros Hg. apply (good_with_ids _ (λ n n' op, owned n n' (op_ids op))); [apply default_op_ids|].
  intros op e n n' _ Hn Ho. split; [|done]. unfold inv. rewrite Hg. apply (ops_ok_fresh n); [done|].
  by rewrite all_ids_one.
Qed.

Lemma normalize_all_ids l n :
  match normalize_all l n with
  | (Ok ops, n') => (n ≤ n')%nat ∧ fresh_ops n n' ops
  | (Throw _, n') => (n ≤ n')%nat
  end.
Proof.
  unfold normalize_all. destruct l as [|v l].
  - unfold default_operations, ibind. pose proof (default_op_ids n) as Hd.
    destruct (createDefaultOperation n) as [[op|] n']; [|done]. destruct Hd as [Hn Ho].
    split; [done|]. split; [done|]. by rewrite all_ids_one.
  - pose proof (imapM_op_ids (v :: l) n) as Hi. destruct (imapM _ (v :: l) n) as [[ops|] n']; [|done].
    destruct Hi as (Hn & Ho & Hl). split; [done|]. split; [by intros ->|done].
Qed.

Lemma parseInitialState_ids v n :
  match parseInitialState v n with
  | (Ok st, n') => (n ≤ n')%nat ∧ fresh_ops n n' (i_operations st)
  | (Throw _, n') => (n ≤ n')%nat
  end.
Proof.
  pose proof (normalize_all_ids [] n) as Hd.
  unfold normalize_all in Hd. unfold parseInitialState, ibind, ilift.
  destruct (negb (nonempty _)).
  { destruct (default_operations n) as [[ops|] n']; simpl; done. }
  destruct (negb (verifyJSON _)).
  { destruct (default_operations n) as [[ops|] n']; simpl; done. }
  destruct (JSON_parse _) as [parsed|]; [|done].
  destruct (operations_of parsed) as [ops|].
  - pose proof (normalize_all_ids ops n) as Ho.
    destruct (normalize_all ops n) as [[ops'|] n']; simpl; done.
  - destruct (default_operations n) as [[ops|] n']; [|done]. by destruct (is_plain parsed).
Qed.

(** Changes that do not touch the operations, and patches of one of them. *)
Lemma inv_same e e' n : operations (fm e') = operations (fm e) → inv e n → inv e' n.
Proof. unfold inv. by intros ->. Qed.

Lemma good_update i p : good (λ e n, done_with (updateOperation i p e) n).
Proof. apply good_pure. intros e n He. by apply ops_ok_map. Qed.

Lemma inv_update i p e n : inv e n → inv (updateOperation i p e) n.
Proof. intros He. by apply ops_ok_map. Qed.

Ltac keep := intros e n He; split; [exact He|done].

Lemma good_open v : good (open_editor v).
Proof.
  unfold open_editor.
  apply (good_with_ids _ (λ n n' st, fresh_ops n n' (i_operations st))); [apply parseInitialState_ids|].
  intros st e n n' _ Hn [Hne Ho]. split; [|done]. by apply (ops_ok_fresh n).
Qed.

Lemma good_switchToJson : good switchToJsonMode.
Proof.
  intros e n He. unfold switchToJsonMode. destruct (editMode (fm e)); [|by split].
  destruct (buildVisualJson _ _ _); [by split|].
  match goal with |- context [match ?r with Ok _ => _ | Throw _ => _ end] => destruct r end; by split.
Qed.

Lemma good_switchToVisual : good switchToVisualMode.
Proof.
  intros e n He. unfold switchToVisualMode. destruct (editMode (fm e)); [by split|].
  destruct (negb (nonempty _)); [by apply good_default|].
  destruct (JSON_parse _) as [v|]; [|by split].
  destruct (operations_of v); [by apply good_fresh; [apply normalize_all_ids|..]|].
  destruct (is_plain v); [by apply good_default|by split].
Qed.

Lemma good_show_legacy text : good (show_legacy text).
Proof. by apply good_default. Qed.

Lemma good_appendLegacy p : good (appendLegacyTemplate p).
Proof.
  intros e n He. unfold appendLegacyTemplate.
  destruct (visualMode (fm e)); [by apply good_show_legacy|].
  destruct (negb (nonempty _)); [by apply good_show_legacy|].
  destruct (JSON_parse _) as [[| | | | | |o|]|]; try (by split). by apply good_show_legacy.
Qed.

Lemma good_appendOperations l : l ≠ [] → good (appendOperationsTemplate l).
Proof.
  intros Hl. unfold appendOperationsTemplate.
  apply (good_with_ids _ fresh_ops).
  - intros n. pose proof (imapM_op_ids l n) as Hi. destruct (imapM _ l n) as [[ops|] n']; [|done].
    destruct Hi as (Hn & Ho & Hlen). split; [done|]. split; [|done]. intros ->. by destruct l.
  - intros appended e n n' He Hn [Hne Ho]. split; [|done]. unfold inv. simpl. split.
    { intros [_ ?]%app_nil. done. }
    rewrite all_ids_app. apply (owned_app 0 n n'); [lia|done| |done].
    destruct He as [_ He]. destruct (visualMode (fm e)); [|apply owned_nil].
    by eapply owned_sublist; [apply all_ids_sublist, filter_sublist_of|exact He].
Qed.

Lemma preset_operations_ne c :
  pr_kind (getSelectedTemplatePreset c) = KOperations →
  preset_operations (getSelectedTemplatePreset c) ≠ [].
Proof.
  unfold getSelectedTemplatePreset. destruct (List.find _ _) as [[k p]|] eqn:E; [|done].
  apply List.find_some in E as [E _]. simpl in E.
  repeat (destruct E as [E|E]; [injection E as <- <-; done|]). done.
Qed.

Lemma good_clear : good clearValue.
Proof. by apply good_default. Qed.

Lemma good_reset : good resetEditorState.
Proof.
  intros e n He. unfold resetEditorState. pose proof (good_clear e n He) as Hc.
  destruct (clearValue e n) as [[e' n'] evs]. exact Hc.
Qed.

Lemma good_fill : good fillTemplateFromLibrary.
Proof.
  intros e n He. unfold fillTemplateFromLibrary. destruct (pr_kind _).
  - by apply good_fresh; [apply normalize_all_ids|..].
  - by apply good_show_legacy.
Qed.

Lemma good_append : good appendTemplateFromLibrary.
Proof.
  intros e n He. unfold appendTemplateFromLibrary. destruct (pr_kind _) eqn:E.
  - by apply good_appendOperations; [apply preset_operations_ne|].
  - by apply good_appendLegacy.
Qed.

Lemma good_applyField k tg : good (applyBuiltinField k tg).
Proof.
  intros e n He. unfold applyBuiltinField. destruct (selectedOperation _) as [op|]; [|by split].
  destruct tg; match goal with |- context [if ?b then _ else _] => destruct b end;
    (split; [|done]); (exact He || by apply inv_update).
Qed.

Lemma prune_update_good i upd :
  (∀ d n, match upd d n with (_, n') => (n ≤ n')%nat end) → good (updatePruneObjectsDraft i upd).
Proof.
  intros Hu e n He. unfold updatePruneObjectsDraft. destruct (find_operation _ i) as [o|]; [|by split].
  refine (good_with_ids _ (λ _ _ _, True) _ _ _ e n He).
  - intros k. unfold ibind. pose proof (parsePrune_ids (value_text o) k) as Hp.
    destruct (parsePruneObjectsDraft (value_text o) k) as [[d|] k1]; [|done]. destruct Hp as [Hp _].
    specialize (Hu d k1). destruct (upd d k1) as [[d'|] k2]; [split; [lia|done]|lia].
  - intros d e' k k' He' Hk _. split; [|done]. apply inv_update. by eapply ops_ok_weaken.
Qed.

Lemma good_addRule i : good (addPruneRule i).
Proof.
  apply prune_update_good. intros d n. unfold ibind, normalizePruneRule.
  pose proof (normalize_row_ids (VObj []) n) as Hr. destruct (normalize_row _ n) as [[c|] n']; simpl; lia.
Qed.

Lemma good_format : good formatSelectedOperationValueAsJson.
Proof.
  intros e n He. unfold formatSelectedOperationValueAsJson.
  destruct (selectedOperation _) as [op|]; [|by split]. destruct (negb (nonempty _)); [by split|].
  destruct (JSON_parse _); (split; [|done]); [by apply inv_update|done].
Qed.

Lemma good_updateError i p : good (updateReturnErrorDraft i p).
Proof.
  intros e n He. unfold updateReturnErrorDraft. destruct (find_operation _ i); [|by split].
  split; [|done]. by apply inv_update.
Qed.

Lemma good_addOperation : good addOperation.
Proof.
  apply (good_with_ids _ (λ n n' op, owned n n' (op_ids op))); [apply default_op_ids|].
  intros op e n n' He Hn Ho. split; [|done]. unfold inv. simpl.
  eapply ops_ok_perm; [apply Permutation_cons_append|]. by apply (ops_ok_cons n).
Qed.

Lemma inv_move s d p e n : inv e n → inv (moveOperation s d p e) n.
Proof.
  intros He. unfold moveOperation. case_match; [done|]. unfold inv. simpl.
  eapply ops_ok_perm; [symmetry; apply reorderOperations_perm|done].
Qed.

Lemma good_dragOver i y tp h : good (handleOperationDragOver i y tp h).
Proof. intros e n He. unfold handleOperationDragOver. destruct (_ || _); by split. Qed.

Lemma good_duplicate eager i : good (duplicateOperation eager i).
Proof.
  intros e n He. unfold duplicateOperation. destruct (find_index _ _) as [k|]; [|by split].
  destruct (operations (fm e) !! k) as [src|]; [|by split].
  refine (good_with_ids _ (λ n n' op, owned n n' (op_ids op)) _ _ _ e n He).
  - intros m. pose proof (normalizeOperation_ids (clone_source src) m) as Hv.
    destruct (normalizeOperation _ m) as [[op|] n']; [|lia]. destruct Hv. split; [lia|done].
  - intros op e' m m' He' Hm Ho. split; [|done].
    assert (Hok : ops_ok m' (splice_ins (S k) op (operations (fm e')))).
    { eapply ops_ok_perm; [symmetry; apply splice_ins_perm|]. by apply (ops_ok_cons m). }
    by destruct (eager && nonempty (id op)).
Qed.

Lemma good_remove i : good (removeOperation i).
Proof.
  intros e n He. unfold removeOperation. case_bool_decide as Hl; [by apply good_default|].
  split; [|done]. apply ops_ok_remove; [lia|done].
Qed.

Lemma good_addCondition i : good (addCondition i).
Proof.
  apply (good_with_ids _ (λ n n' c, n' = S n ∧ c_id c = id_at n)).
  - intros n. unfold createDefaultCondition, normalizeCondition.
    pose proof (normalize_row_ids (VObj []) n) as Hr.
    destruct (normalize_row _ n) as [[c|] n']; [destruct Hr as [-> Hc]; split; [lia|done]|lia].
  - intros c e n n' He Hn [-> Hc]. split; [|done]. by apply ops_ok_add_condition.
Qed.

Lemma good_select_all : good expandAllSelectedConditions ∧ good collapseAllSelectedConditions.
Proof.
  split; intros e n He.
  - unfold expandAllSelectedConditions. destruct (selectedOperation _); [|by split].
    destruct (nonempty _); by split.
  - unfold collapseAllSelectedConditions. destruct (nonempty _); by split.
Qed.

Lemma good_formatJson : good formatJson.
Proof.
  intros e n He. unfold formatJson. destruct (negb (nonempty _)); [by split|].
  destruct (JSON_parse _); by split.
Qed.

Lemma good_save : good handleSave.
Proof. intros e n He. unfold handleSave. destruct (save_result _); by split. Qed.

Create HintDb editor.
#[local] Hint Resolve good_open good_switchToJson good_switchToVisual good_fill good_append good_clear
  good_reset good_applyField good_update good_format good_updateError good_addRule good_addOperation
  good_dragOver good_duplicate good_remove good_addCondition good_formatJson good_save : editor.

Lemma handle_good a : good (handle a).
Proof.
  destruct a; simpl; auto with editor; try (intros e n He; by split).
  - apply prune_update_good. intros ? k. simpl. lia.
  - apply prune_update_good. intros ? k. simpl. lia.
  - apply prune_update_good. intros ? k. simpl. lia.
  - intros e n He. split; [|done]. unfold resetOperationDragState.
    eapply inv_same; [|apply inv_move, He]. done.
  - apply good_pure. intros e n He. apply ops_ok_map; [apply op_ids_map_condition|done].
  - apply good_pure. intros e n He. by apply ops_ok_drop_condition.
  - apply good_select_all.
  - apply good_select_all.
Qed.

(** After the effects, an existing operation is selected. *)
Definition selection_ok (e : editor) : Prop :=
  selectedOperationId (fm e) ∈ map id (operations (fm e)).

Lemma settle_inv e n : inv e n → inv (settle e) n ∧ selection_ok (settle e).
Proof.
  unfold inv, selection_ok, settle, select_effect. simpl. intros He.
  destruct (operations (fm e)) as [|op ops] eqn:E; [by destruct He|].
  destruct (existsb _ _) eqn:Ex; simpl; rewrite E; (split; [done|]).
  - apply existsb_exists in Ex as (x & Hx & Hid). boolify. rewrite <- Hid.
    apply list_elem_of_fmap. exists x. split; [done|]. by apply list_elem_of_In.
  - apply list_elem_of_here.
Qed.

Lemma reachable_inv e n : reachable e n → inv e n ∧ selection_ok e.
Proof.
  induction 1 as [n op n' Hd|e n n' _ [IH Hs] Hn|a e n e' n' evs _ [IH _] Hst].
  - apply settle_inv. pose proof (default_op_ids n) as Ho. rewrite Hd in Ho. destruct Ho as [_ Ho].
    apply (ops_ok_fresh n n' [op]); [done|]. by rewrite all_ids_one.
  - split; [by eapply ops_ok_weaken|done].
  - unfold step in Hst. pose proof (handle_good a e n IH) as Hg.
    destruct (handle a e n) as [[e1 n1] evs1]. simplify_eq. destruct Hg as [Hg _]. by apply settle_inv.
Qed.

(** C3: Whatever the user does, the editor always has an operation to edit and
    one of them is selected, no two rows (operations or conditions) share an
    id, and no id is one the counter could still produce. *)
Theorem editor_invariant e n :
  reachable e n →
  operations (fm e) ≠ [] ∧
  selectedOperationId (fm e) ∈ map id (operations (fm e)) ∧
  NoDup (all_ids (operations (fm e))) ∧
  (∀ k, (n ≤ k)%nat → id_at k ∉ all_ids (operations (fm e))).
Proof.
  intros Hr. destruct (reachable_inv e n Hr) as [[Hne [Hnd Hf]] Hs]. split_and!; [done..|].
  intros k Hk Hin. rewrite Forall_forall in Hf. destruct (Hf _ Hin) as (k' & Hk' & E%id_at_inj). lia.
Qed.

End invariant.

(** A sequence of actions, for evaluating the model. *)
Definition run `{Env} `{Unicode} (acts : list action) (e : editor) (n : nat) : editor * nat :=
  fold_left (λ en a, (step a en.1 en.2).1) acts (e, n).

Lemma run_reachable `{Env} `{Unicode} acts e n :
  reachable e n → reachable (run acts e n).1 (run acts e n).2.
Proof.
  unfold run. revert e n. induction acts as [|a acts IH]; intros e n Hr; simpl; [done|].
  destruct (step a e n) as [[e' n'] evs] eqn:E. apply IH. by eapply reach_step.
Qed.

Definition sample_row : operation :=
  {| id := local_id 0 0; description := []; path := []; mode := MSet; value_text := [];
     keep_origin := false; from := []; to := []; op_logic := OR; conditions := [] |}.

Definition sample_state : editor * nat :=
  @run plain_env ascii_unicode
    [AddOp; AddCond (local_id 0 1); Duplicate true (local_id 0 1); RemoveOp (local_id 0 0)]
    (settle (mounted sample_row)) 1.

Lemma editor_invariant_witness :
  @reachable plain_env ascii_unicode sample_state.1 sample_state.2 ∧
  (length (operations (fm sample_state.1)) = 2)%nat ∧
  NoDup (all_ids (operations (fm sample_state.1))).
Proof.
  assert (Hr : @reachable plain_env ascii_unicode sample_state.1 sample_state.2).
  { apply run_reachable. apply (reach_mount 0%nat). vm_compute. reflexivity. }
  split; [exact Hr|]. split; [vm_compute; reflexivity|].
  apply (@editor_invariant plain_env ascii_unicode _ _ Hr).
Defined.

(** ** What is handed to the parent *)

Section saving.
Context `{Env} `{Unicode}.

Definition form_wf (f : form) : Prop :=
  jstr_wf (jsonText f) ∧ jstr_wf (legacyValue f) ∧ Forall op_wf (operations f).

Lemma pretty_reads v :
  val_wf v → unserializable v = false →
  JSON_parse (stringify2_text v) = Ok (json_norm v) ∧
  stringify2_text (json_norm v) = stringify2_text v.
Proof.
  intros Hwf Hk. unfold stringify2_text, stringify2. rewrite !ser_serializable by (done || apply json_norm_kept).
  cbn [from_option Datatypes.id]. rewrite ser_text_norm. split; [|done].
  eapply JSON_parse_ser; [apply indent2_ws|done|by apply ser_serializable].
Qed.

Lemma parsed_pretty s v :
  jstr_wf s → JSON_parse s = Ok v →
  JSON_parse (stringify2_text v) = Ok (json_norm v) ∧
  stringify2_text (json_norm v) = stringify2_text v.
Proof. intros Hs Hv. apply pretty_reads; [by eapply JSON_parse_wf|by eapply JSON_parse_kept]. Qed.

Lemma norm_plain v : is_plain v = true → is_plain (json_norm v) = true.
Proof. by destruct v. Qed.

Definition valid_text (visual : Prop) (text : jstr) : Prop :=
  text = [] ∨ ∃ v, JSON_parse text = Ok v ∧ stringify2_text v = text ∧ (visual → is_plain v = true).

Lemma visual_text_valid vm legacy ops text :
  jstr_wf legacy → Forall op_wf ops → buildVisualJson vm legacy ops = Ok text → valid_text True text.
Proof.
  intros Hl Ho. destruct vm; cbn [buildVisualJson].
  - intros Hb. destruct (decide (text = [])) as [->|Hne]; [by left|right].
    destruct (build_saved ops text Hb Hne) as (_ & _ & ->).
    destruct (operations_text_reads (live ops)) as (Hj & _ & _ & Hs).
    { rewrite Forall_forall in *. intros op [Hop _]%elem_of_filter_bool. auto. }
    eexists. split; [exact Hj|]. split; [exact Hs|done].
  - destruct (negb (nonempty _)); [by intros [= <-]; left|].
    destruct (negb (verifyJSON _)); [done|].
    destruct (JSON_parse (trim legacy)) as [v|] eqn:Ej; cbn [rbind]; [|done].
    destruct (is_plain v) eqn:Ep; cbn [negb]; [|done]. intros [= <-]. right.
    destruct (parsed_pretty _ _ (jstr_wf_trim _ Hl) Ej) as [Hj Hs].
    exists (json_norm v). split_and!; [done..|]. intros _. by apply norm_plain.
Qed.

(** The text handed to the parent on save is empty or formatted JSON that
    reads back, and from the visual view it is a JSON object. *)
Theorem saved_text_valid e n text :
  form_wf (fm e) → OnSave text ∈ (handleSave e n).2 →
  valid_text (editMode (fm e) = EVisual) text.
Proof.
  intros (Hj & Hl & Ho) Hin. unfold handleSave in Hin.
  destruct (save_result (fm e)) as [r|] eqn:E; cbn [snd] in Hin; apply list_elem_of_singleton in Hin;
    [injection Hin as ->|done].
  unfold save_result in E. destruct (editMode (fm e)).
  - destruct (visual_text_valid _ _ _ _ Hl Ho E) as [->|(v & ? & ? & ?)]; [by left|right].
    exists v. auto.
  - destruct (negb (nonempty _)); [by injection E as <-; left|].
    destruct (negb (verifyJSON _)); [done|].
    destruct (JSON_parse (trim (jsonText (fm e)))) as [v|] eqn:Ep; cbn [rmap] in E; [|done].
    injection E as <-. right. destruct (parsed_pretty _ _ (jstr_wf_trim _ Hj) Ep) as [Hp Hs].
    exists (json_norm v). split_and!; [done..|]. done.
Qed.

(** ** The prune rule editor *)

(** Adding a prune rule never adds one: the new rule has no path, and rules
    without a path are not written, so the value is the one of the draft
    without it. *)
Theorem added_rule_is_dropped d rule n n' :
  normalizePruneRule (VObj []) n = (Ok rule, n') →
  buildPruneObjectsValueText (with_rules false (p_rules d ++ [rule]) d) =
  buildPruneObjectsValueText (with_rules false (p_rules d) d).
Proof.
  intros Hr. assert (Hp : c_path rule = []).
  { unfold normalizePruneRule, normalize_row, nextLocalId, ilift, ibind in Hr. simpl in Hr.
    by injection Hr as <- _. }
  unfold buildPruneObjectsValueText. cbn [p_simpleMode p_typeText p_logic p_recursive p_rules with_rules].
  assert (Hf : List.filter (λ rule, nonempty (trim (c_path rule))) (p_rules d ++ [rule]) =
               List.filter (λ rule, nonempty (trim (c_path rule))) (p_rules d)).
  { rewrite List.filter_app. simpl. rewrite Hp. simpl. apply app_nil_r. }
  by rewrite Hf.
Qed.

(** Editing or removing a prune rule has no effect on it: the handler reads
    the draft again, which gives its rules new ids, so no rule has the id the
    form sends, and both handlers do what writing the draft back does. *)
Theorem rule_id_never_matches opId k patch e n :
  (k < n)%nat →
  updatePruneRule opId (id_at k) patch e n = updatePruneObjectsDraft opId iret e n ∧
  removePruneRule opId (id_at k) e n = updatePruneObjectsDraft opId iret e n.
Proof.
  intros Hk. unfold updatePruneRule, removePruneRule, updatePruneObjectsDraft.
  destruct (find_operation (fm e) opId) as [op|]; [|done]. unfold with_ids, ibind.
  pose proof (parsePrune_ids (value_text op) n) as Hp.
  destruct (parsePruneObjectsDraft (value_text op) n) as [[d|] n']; [|done]. destruct Hp as [_ [_ Ho]].
  assert (Hids : Forall (λ c, c_id c ≠ id_at k) (p_rules d)).
  { rewrite Forall_forall. rewrite Forall_forall in Ho. intros c Hc E. destruct (Ho (c_id c)) as (k' & Hk' & E').
    { apply list_elem_of_fmap. eauto. }
    rewrite E in E'. apply id_at_inj in E'. lia. }
  assert (Hm : map_condition (id_at k) patch (p_rules d) = p_rules d).
  { unfold map_condition. rewrite <- (map_id (p_rules d)) at 2. apply map_ext_in.
    intros c Hc%list_elem_of_In. rewrite Forall_forall in Hids. by rewrite bool_decide_eq_false_2 by auto. }
  assert (Hd : drop_condition (id_at k) (p_rules d) = p_rules d).
  { unfold drop_condition. apply filter_all. eapply Forall_impl; [exact Hids|]. intros c Hc.
    by rewrite bool_decide_eq_false_2. }
  rewrite Hm, Hd. by destruct d.
Qed.

End saving.

(** ** The theorems at concrete inputs *)

Definition json_state : editor :=
  with_form (setEditMode EJson ∘ setJsonText (uq "{'temperature':0}")) (mounted sample_row).

Lemma saved_text_valid_witness :
  OnSave (stringify2_text (VObj [(u "temperature", VNum (of_Z 0))])) ∈
    (@handleSave plain_env json_state 0%nat).2 ∧
  valid_text (editMode (fm json_state) = EVisual)
    (stringify2_text (VObj [(u "temperature", VNum (of_Z 0))])).
Proof.
  assert (Hin : OnSave (stringify2_text (VObj [(u "temperature", VNum (of_Z 0))])) ∈
    (@handleSave plain_env json_state 0%nat).2).
  { vm_compute. apply list_elem_of_here. }
  split; [exact Hin|]. apply (@saved_text_valid plain_env json_state 0%nat); [|exact Hin].
  split; [by apply units_ok_wf|]. split; [by apply units_ok_wf|]. constructor; [|constructor].
  split_and!; try (by apply units_ok_wf). constructor.
Defined.

Definition sample_prune : prune_draft :=
  {| p_simpleMode := false; p_typeText := u "x"; p_logic := OR; p_recursive := true; p_rules := [] |}.

Definition sample_rule : condition :=
  {| c_id := local_id 0 5; c_path := []; c_mode := CFull; c_value_text := []; c_invert := false;
     c_pass_missing_key := false |}.

Lemma added_rule_is_dropped_witness :
  @buildPruneObjectsValueText ascii_unicode (with_rules false [sample_rule] sample_prune) =
  @buildPruneObjectsValueText ascii_unicode (with_rules false [] sample_prune).
Proof.
  apply (@added_rule_is_dropped plain_env ascii_unicode sample_prune sample_rule 5%nat 6%nat).
  vm_compute. reflexivity.
Defined.

Lemma rule_id_never_matches_witness :
  @removePruneRule plain_env ascii_unicode (u "a") (local_id 0 3) (mounted sample_op) 9%nat =
  @updatePruneObjectsDraft plain_env ascii_unicode (u "a") iret (mounted sample_op) 9%nat.
Proof.
  apply (@rule_id_never_matches plain_env ascii_unicode (u "a") 3%nat
    (mk_cond_patch None None None None None) (mounted sample_op) 9%nat). lia.
Defined.
