(* ===== verification/ParamOverrideDrafts.v ===== *)
(** * The structured value editors of the parameter overrides

    The [return_error] and [prune_objects] forms keep no state of their own:
    every change parses the value text into a draft, changes the draft and
    writes the text again.  What the form shows after a change is therefore
    [parse (build draft)], which is computed here. *)

From S2P Require Import Prelude JsString JsNumber JsValue Json Browser ParamOverrideData ParamOverride ParamOverrideSave ParamOverrideEditor.

Local Open Scope Z_scope.

(** ** Return errors *)

Definition error_fields (d : return_error_draft) : obj :=
  [(u "message", VStr (trim (d_message d)));
   (u "status_code", VNum (status_or_400 (d_statusCode d)))]
  ++ opt (nonempty (trim (d_code d))) (u "code") (VStr (trim (d_code d)))
  ++ opt (nonempty (trim (d_type d))) (u "type") (VStr (trim (d_type d)))
  ++ opt (negb (d_skipRetry d)) (u "skip_retry") (VBool false).

Lemma error_text d :
  d_simpleMode d = false → buildReturnErrorValueText d = stringify_text (VObj (error_fields d)).
Proof.
  intros Hs. unfold buildReturnErrorValueText. rewrite Hs. unfold error_fields. cbv zeta.
  change (obj_of_entries [(u "message", ?a); (u "status_code", ?b)]) with
    [(u "message", a); (u "status_code", b)].
  rewrite (set_if_fresh (nonempty (trim (d_code d)))); [|reflexivity|no_key].
  rewrite (set_if_fresh (nonempty (trim (d_type d)))); [|reflexivity|no_key].
  rewrite set_if_fresh; [|reflexivity|no_key]. by rewrite <- !app_assoc.
Qed.

Lemma error_fields_ok d : obj_ok (error_fields d).
Proof.
  assert (E : obj_of_entries (error_fields d) = error_fields d)
    by (unfold error_fields, opt; by destruct (nonempty (trim (d_code d))), (nonempty (trim (d_type d))),
          (d_skipRetry d)).
  rewrite <- E. apply obj_ok_of_entries.
Qed.

Lemma error_fields_get d :
  obj_get (error_fields d) (u "message") = Some (VStr (trim (d_message d))) ∧
  obj_get (error_fields d) (u "msg") = None ∧
  obj_get (error_fields d) (u "status_code") = Some (VNum (status_or_400 (d_statusCode d))) ∧
  obj_get (error_fields d) (u "code") =
    (if nonempty (trim (d_code d)) then Some (VStr (trim (d_code d))) else None) ∧
  obj_get (error_fields d) (u "type") =
    (if nonempty (trim (d_type d)) then Some (VStr (trim (d_type d))) else None) ∧
  obj_get (error_fields d) (u "skip_retry") = (if d_skipRetry d then None else Some (VBool false)).
Proof.
  unfold error_fields, opt.
  by destruct (nonempty (trim (d_code d))), (nonempty (trim (d_type d))), (d_skipRetry d).
Qed.

(** ** Status codes of the form *)

Lemma status_or_400_range n :
  ∃ z, to_integer (status_or_400 n) = Some z ∧ 100 ≤ z ≤ 599.
Proof.
  unfold status_or_400, isInteger. destruct (to_integer n) as [z|] eqn:E.
  - destruct (nleb_integer n z 100 E ltac:(done)) as [_ ->].
    destruct (nleb_integer n z 599 E ltac:(done)) as [-> _].
    rewrite bool_decide_eq_true_2 by eauto.
    destruct (Z.leb_spec 100 z), (Z.leb_spec z 599); cbn [andb]; try (by exists z);
      exists 400; (split; [by apply to_integer_of_Z|lia]).
  - rewrite bool_decide_eq_false_2 by by intros [? ?].
    exists 400. split; [by apply to_integer_of_Z|lia].
Qed.

Lemma status_or_400_fixed n z : to_integer n = Some z → 100 ≤ z ≤ 599 → status_or_400 n = n.
Proof.
  intros E Hz. unfold status_or_400, isInteger. rewrite E, bool_decide_eq_true_2 by eauto.
  destruct (nleb_integer n z 100 E ltac:(done)) as [_ ->].
  destruct (nleb_integer n z 599 E ltac:(done)) as [-> _].
  destruct (Z.leb_spec 100 z), (Z.leb_spec z 599); simpl; (done || lia).
Qed.

Lemma status_or_400_idem n : status_or_400 (status_or_400 n) = status_or_400 n.
Proof. destruct (status_or_400_range n) as (z & Hz & Hr). by eapply status_or_400_fixed. Qed.

Lemma status_or_400_data n : num_wf n → json_data (VNum (status_or_400 n)).
Proof.
  intros Hn. destruct (status_or_400_range n) as (z & Hz & Hr).
  constructor.
  - unfold status_or_400. case_match; [done|]. apply of_Z_wf.
  - by destruct (status_or_400 n).
  - destruct (status_or_400 n) as [| |[] m e]; try done. simpl.
    destruct (Z.eqb_spec m 0) as [->|]; [|done]. simpl in Hz.
    destruct (0 <=? e); simpl in Hz; injection Hz; rewrite ?Zdiv_0_l; lia.
Qed.

Lemma error_fields_data d :
  jstr_wf (d_message d) → jstr_wf (d_code d) → jstr_wf (d_type d) → num_wf (d_statusCode d) →
  json_data (VObj (error_fields d)).
Proof.
  intros Hm Hc Ht Hn. constructor; [apply error_fields_ok|]. unfold error_fields.
  rewrite !Forall_app, !list.Forall_cons. cbn [fst snd]. split_and!; try solve_wf.
  - constructor. by apply jstr_wf_trim.
  - by apply status_or_400_data.
  - constructor.
  - apply Forall_opt. intros _. split; [solve_wf|]. constructor. by apply jstr_wf_trim.
  - apply Forall_opt. intros _. split; [solve_wf|]. constructor. by apply jstr_wf_trim.
  - apply Forall_opt. intros _. split; [solve_wf|]. constructor.
Qed.

(** What the form shows after a change. *)
Definition shown_error_draft (d : return_error_draft) : return_error_draft :=
  {| d_message := trim (d_message d); d_statusCode := status_or_400 (d_statusCode d);
     d_code := trim (d_code d); d_type := trim (d_type d); d_skipRetry := d_skipRetry d;
     d_simpleMode := false |}.

Lemma or_text s : to_str (v_or (VStr s) (VStr [])) = Ok s.
Proof. unfold v_or. simpl. destruct (nonempty s) eqn:E; [done|]. by apply nonempty_false in E as ->. Qed.

Lemma opt_text (b : bool) s :
  b = nonempty s → to_str (v_or (if b then VStr s else VUndef) (VStr [])) = Ok s.
Proof. intros ->. destruct (nonempty s) eqn:E; [apply or_text|]. by apply nonempty_false in E as ->. Qed.

Lemma error_draft_of_fields d :
  error_draft_of (VObj (error_fields d)) = Ok (Some (shown_error_draft d)).
Proof.
  destruct (error_fields_get d) as (Hm & Hmsg & Hs & Hc & Ht & Hk).
  unfold error_draft_of, oget. rewrite Hm, Hmsg, Hs, Hc, Ht, Hk. cbn [from_option Datatypes.id is_undef negb].
  cbn [to_num rbind]. change (proto_get (u "msg")) with VUndef.
  assert (Hor : v_or (v_or (VStr (trim (d_message d))) VUndef) (VStr []) =
                v_or (VStr (trim (d_message d))) (VStr [])).
  { unfold v_or at 2. simpl. by destruct (nonempty (trim (d_message d))) eqn:E; [|apply nonempty_false in E as ->]. }
  rewrite Hor, or_text. cbn [rbind].
  replace (default (proto_get (u "code")) (if nonempty (trim (d_code d)) then _ else _)) with
    (if nonempty (trim (d_code d)) then VStr (trim (d_code d)) else VUndef)
    by (by destruct (nonempty (trim (d_code d)))).
  replace (default (proto_get (u "type")) (if nonempty (trim (d_type d)) then _ else _)) with
    (if nonempty (trim (d_type d)) then VStr (trim (d_type d)) else VUndef)
    by (by destruct (nonempty (trim (d_type d)))).
  rewrite !opt_text by done. cbn [rbind]. unfold shown_error_draft.
  rewrite !trim_idem, status_or_400_idem. by destruct (d_skipRetry d).
Qed.

(** In the advanced form of [return_error] a change is kept up to trimming,
    except that a status code outside [100, 599] is replaced by 400 at once:
    what is shown next is the draft with its texts trimmed. *)
Theorem return_error_roundtrip d :
  jstr_wf (d_message d) → jstr_wf (d_code d) → jstr_wf (d_type d) → num_wf (d_statusCode d) →
  d_simpleMode d = false →
  parseReturnErrorDraft (buildReturnErrorValueText d) = shown_error_draft d.
Proof.
  intros Hm Hc Ht Hn Hs. rewrite error_text by done.
  pose proof (error_fields_data d Hm Hc Ht Hn) as Hd.
  assert (Hser : ser [] [] (VObj (error_fields d)) = Some (stringify_text (VObj (error_fields d)))) by done.
  destruct (ser_obj_tight _ _ _ _ Hser) as [Htight Hne].
  unfold parseReturnErrorDraft. rewrite trim_tight by done. unfold nonempty.
  rewrite bool_decide_eq_false_2 by done. cbn [negb].
  unfold stringify_text, stringify. rewrite JSON_parse_stringify by (done || constructor).
  cbn [rbind]. by rewrite error_draft_of_fields.
Qed.

Definition sample_draft : return_error_draft :=
  {| d_message := u "no "; d_statusCode := of_Z 4; d_code := u "c"; d_type := []; d_skipRetry := false;
     d_simpleMode := false |}.

Lemma return_error_roundtrip_witness :
  d_statusCode (parseReturnErrorDraft (buildReturnErrorValueText sample_draft)) = of_Z 400 ∧
  parseReturnErrorDraft (buildReturnErrorValueText sample_draft) = shown_error_draft sample_draft.
Proof.
  split; [vm_compute; reflexivity|].
  apply (return_error_roundtrip sample_draft);
    [by apply units_ok_wf..|apply of_Z_wf|reflexivity].
Defined.

(** ** Prune rules *)

Section prune.
Context `{Env} `{Unicode}.

Definition type_only (ty : jstr) : prune_draft :=
  {| p_simpleMode := false; p_typeText := ty; p_logic := AND; p_recursive := true; p_rules := [] |}.

Lemma type_only_text ty :
  filled ty →
  buildPruneObjectsValueText (type_only ty) = stringify_text (VObj [(u "type", VStr (trim ty))]).
Proof.
  intros Hty%filled_nonempty. unfold buildPruneObjectsValueText, type_only.
  cbn [p_simpleMode p_typeText p_logic p_recursive p_rules List.filter map]. cbv zeta.
  rewrite Hty, toUpperCase_logic. cbn [set_if].
  change (logic_text AND =s u "OR") with false. cbn [set_if negb].
  change (obj_set [] (u "type") ?v) with [(u "type", v)].
  unfold oget at 1. change (obj_get [(u "type", ?v)] (u "type")) with (Some v).
  cbn [from_option Datatypes.id truthy]. by rewrite Hty.
Qed.

Lemma type_only_draft ty n :
  prune_draft_of [(u "type", VStr ty)] n = (Ok (simple_prune_draft (trim ty)), n).
Proof.
  assert (Hl : logic_is VUndef (u "AND") (u "OR") = Ok false).
  { unfold logic_is. change (to_str _) with (Ok (logic_text AND)). cbn [rmap]. by rewrite toUpperCase_logic. }
  unfold prune_draft_of, ibind, ilift.
  change (oget [(u "type", VStr ty)] (u "logic")) with VUndef. rewrite Hl. reflexivity.
Qed.

(** The advanced form cannot be opened for a prune rule that only has a
    type: the text written for it is read back as the simple form. *)
Theorem prune_advanced_reverts ty n :
  jstr_wf ty → filled ty →
  ∃ d, parsePruneObjectsDraft (buildPruneObjectsValueText (type_only ty)) n = (Ok d, n) ∧
       p_simpleMode d = true ∧ p_typeText d = trim ty.
Proof.
  intros Hwf Hty. rewrite type_only_text by done. set (o := [(u "type", VStr (trim ty))]).
  assert (Hd : json_data (VObj o)).
  { constructor; [repeat constructor|]. constructor; [|constructor]. split; [solve_wf|].
    constructor. by apply jstr_wf_trim. }
  assert (Hser : ser [] [] (VObj o) = Some (stringify_text (VObj o))) by done.
  destruct (ser_obj_tight _ _ _ _ Hser) as [Htight Hne].
  exists (simple_prune_draft (trim ty)). split; [|done].
  unfold parsePruneObjectsDraft. rewrite trim_tight by done. unfold nonempty.
  rewrite bool_decide_eq_false_2 by done. cbn [negb]. unfold icatch, ibind at 1, ilift.
  unfold stringify_text, stringify. rewrite JSON_parse_stringify by (done || constructor).
  subst o. by rewrite type_only_draft, trim_idem.
Qed.

End prune.

Lemma prune_advanced_reverts_witness :
  ∃ d, @parsePruneObjectsDraft plain_env ascii_unicode
         (@buildPruneObjectsValueText ascii_unicode (type_only (u "thinking"))) 0%nat = (Ok d, 0%nat) ∧
       p_simpleMode d = true ∧ p_typeText d = u "thinking".
Proof.
  apply (@prune_advanced_reverts plain_env ascii_unicode (u "thinking") 0%nat).
  - by apply units_ok_wf.
  - vm_compute. discriminate.
Defined.
