(* ===== verification/PricingEditor.v ===== *)
(** * The model pricing editor

    [web/src/pages/Setting/Ratio/hooks/useModelPricingEditorState.js]: the
    ratio options of the server, eight JSON objects keyed by model name, are
    shown as prices (dollars per million tokens) and the edited prices are
    turned back into ratios when they are saved.

    Prices are the strings of the input fields; the arithmetic is that of
    binary64 numbers.  Options may hold any JSON value, so reading them can
    throw ([Number(x)] of an object); the strings of the form never do.  The
    translation function [t] of i18next is a parameter. *)

From S2P Require Import Prelude JsString JsNumber JsValue Json.

Local Open Scope Z_scope.

Definition PAGE_SIZE : nat := 10.

Inductive billing := PerToken | PerRequest.

#[export] Instance billing_eq_dec : EqDecision billing.
Proof. solve_decision. Defined.

Record raw_ratios := {
  modelRatio : jstr;
  completionRatio : jstr;
  cacheRatio : jstr;
  createCacheRatio : jstr;
  imageRatio : jstr;
  audioRatio : jstr;
  audioCompletionRatio : jstr;
}.

(** The price fields of the form, by the property they edit. *)
Inductive field :=
| fixedPrice | inputPrice | completionPrice | cachePrice | createCachePrice | imagePrice
| audioInputPrice | audioOutputPrice.

#[export] Instance field_eq_dec : EqDecision field.
Proof. solve_decision. Defined.

Definition fields : list field :=
  [fixedPrice; inputPrice; completionPrice; cachePrice; createCachePrice; imagePrice;
   audioInputPrice; audioOutputPrice].

#[export] Instance field_finite : finite.Finite field.
Proof.
  refine {| finite.enum := fields |}.
  - apply (bool_decide_eq_true_1 (NoDup fields)). reflexivity.
  - intros []; apply (bool_decide_eq_true_1 (_ ∈ fields)); reflexivity.
Defined.

Record model := {
  name : jstr;
  billingMode : billing;
  price : field → jstr;
  lockedCompletionRatio : jstr;
  completionRatioLocked : bool;
  rawRatios : raw_ratios;
  hasConflict : bool;
}.

Definition set_price (f : field) (s : jstr) (p : field → jstr) : field → jstr :=
  λ g, if decide (g = f) then s else p g.

Definition with_price (p : field → jstr) (m : model) : model :=
  {| name := name m; billingMode := billingMode m; price := p;
     lockedCompletionRatio := lockedCompletionRatio m;
     completionRatioLocked := completionRatioLocked m; rawRatios := rawRatios m;
     hasConflict := hasConflict m |}.

Definition with_billing (b : billing) (m : model) : model :=
  {| name := name m; billingMode := b; price := price m;
     lockedCompletionRatio := lockedCompletionRatio m;
     completionRatioLocked := completionRatioLocked m; rawRatios := rawRatios m;
     hasConflict := hasConflict m |}.

Definition no_ratios : raw_ratios :=
  {| modelRatio := []; completionRatio := []; cacheRatio := []; createCacheRatio := [];
     imageRatio := []; audioRatio := []; audioCompletionRatio := [] |}.

Definition EMPTY_MODEL (n : jstr) : model :=
  {| name := n; billingMode := PerToken; price := λ _, []; lockedCompletionRatio := [];
     completionRatioLocked := false; rawRatios := no_ratios; hasConflict := false |}.

(** ** Numbers and texts *)

(** [NUMERIC_INPUT_REGEX]: digits, optionally followed by a point and digits, or
    a point and digits, or nothing. *)
Definition NUMERIC_INPUT_REGEX (s : jstr) : bool :=
  let '(i, r) := take_digits s in
  match r with
  | [] => true
  | c :: r => (c =? 46) && forallb is_digit r
  end.

Definition hasValue (v : val) : bool :=
  match v with
  | VStr s => nonempty s
  | VNull | VUndef => false
  | VBool b => b
  | _ => true
  end.

(** [hasValue] of a string of the form *)
Definition has (s : jstr) : bool := nonempty s.

Definition finite_or_none (n : num) : option num := if isFinite n then Some n else None.

Definition toNumberOrNull (v : val) : res (option num) :=
  if negb (hasValue v) then Ok None else rmap finite_or_none (to_num v).

Definition toNumericString (v : val) : res jstr :=
  rmap (λ n, match n with Some n => num_to_string n | None => [] end) (toNumberOrNull v).

(** [toNumberOrNull] of a string and of a number *)
Definition text_number (s : jstr) : option num :=
  if has s then finite_or_none (Number s) else None.

(** [parseFloat(num.toFixed(12)).toString()] *)
Definition format12 (n : num) : jstr := num_to_string (parseFloat (toFixed 12 n)).

(** [formatNumber] of a number and of a string *)
Definition formatNumber (n : num) : jstr :=
  match finite_or_none n with Some n => format12 n | None => [] end.
Definition formatText (s : jstr) : jstr :=
  match text_number s with Some n => format12 n | None => [] end.

(** [toNormalizedNumber] of a number and of a string *)
Definition number_of_format (s : jstr) : option num := if has s then Some (Number s) else None.
Definition toNormalizedNumber (n : num) : option num := number_of_format (formatNumber n).
Definition toNormalizedText (s : jstr) : option num := number_of_format (formatText s).

Definition parseOptionJSON (rawValue : jstr) : val :=
  if trim rawValue =s [] then VObj []
  else match JSON_parse rawValue with
       | Ok (VObj o) => VObj o
       | Ok (VArr l) => VArr l
       | _ => VObj []
       end.

Definition ratioToBasePrice (ratio : jstr) : jstr :=
  match text_number ratio with
  | None => []
  | Some n => formatNumber (nmul n (of_Z 2))
  end.

Definition normalizeCompletionRatioMeta (rawMeta : val) : res (bool * jstr) :=
  match rawMeta with
  | VObj o =>
    let! ratio := toNumericString (oget o (u "ratio")) in
    Ok (truthy (oget o (u "locked")), ratio)
  | _ => Ok (false, [])
  end.

(** ** From options to models *)

Record source_maps := {
  ModelPrice : val;
  ModelRatio : val;
  CompletionRatio : val;
  CompletionRatioMeta : val;
  CacheRatio : val;
  CreateCacheRatio : val;
  ImageRatio : val;
  AudioRatio : val;
  AudioCompletionRatio : val;
}.

(** [base !== null && hasValue(ratio) ? formatNumber(base * Number(ratio)) : ''] *)
Definition derived (base : option num) (ratio : jstr) : jstr :=
  match base with
  | Some b => if has ratio then formatNumber (nmul b (Number ratio)) else []
  | None => []
  end.

Definition ratio_list (r : raw_ratios) : list jstr :=
  [modelRatio r; completionRatio r; cacheRatio r; createCacheRatio r; imageRatio r; audioRatio r;
   audioCompletionRatio r].

(** The state of a model, once its ratios are read. *)
Definition model_of_ratios (n : jstr) (r : raw_ratios) (locked : bool) (lockedRatio fixed : jstr)
    : model :=
  let input := ratioToBasePrice (modelRatio r) in
  let inputPriceNumber := text_number input in
  let audioInput := derived inputPriceNumber (audioRatio r) in
  {| name := n;
     billingMode := if has fixed then PerRequest else PerToken;
     price := λ f, match f with
       | fixedPrice => fixed
       | inputPrice => input
       | completionPrice =>
         derived inputPriceNumber (if locked then lockedRatio else completionRatio r)
       | cachePrice => derived inputPriceNumber (cacheRatio r)
       | createCachePrice => derived inputPriceNumber (createCacheRatio r)
       | imagePrice => derived inputPriceNumber (imageRatio r)
       | audioInputPrice => audioInput
       | audioOutputPrice => derived (text_number audioInput) (audioCompletionRatio r)
       end;
     lockedCompletionRatio := lockedRatio;
     completionRatioLocked := locked;
     rawRatios := r;
     hasConflict := has fixed && existsb has (ratio_list r) |}.

Definition buildModelState (n : jstr) (maps : source_maps) : res model :=
  let read (m : val) := rbind (get m n) toNumericString in
  let! mr := read (ModelRatio maps) in
  let! cr := read (CompletionRatio maps) in
  let! meta := rbind (get (CompletionRatioMeta maps) n) normalizeCompletionRatioMeta in
  let! car := read (CacheRatio maps) in
  let! ccr := read (CreateCacheRatio maps) in
  let! ir := read (ImageRatio maps) in
  let! ar := read (AudioRatio maps) in
  let! acr := read (AudioCompletionRatio maps) in
  let! fixed := read (ModelPrice maps) in
  Ok (model_of_ratios n
        {| modelRatio := mr; completionRatio := cr; cacheRatio := car; createCacheRatio := ccr;
           imageRatio := ir; audioRatio := ar; audioCompletionRatio := acr |}
        meta.1 meta.2 fixed).

Definition isBasePricingUnset (m : model) : bool :=
  negb (has (price m fixedPrice)) && negb (has (price m inputPrice)).

(** ** Texts *)

Section texts.
(** [t(key)] and [t(key, values)] *)
Context (t : jstr → list (jstr * val) → jstr).

Definition warn_conflict : jstr := u "当前模型同时存在按次价格和倍率配置，保存时会按当前计费方式覆盖。".
Definition warn_ratios : jstr :=
  u "当前模型存在未显式设置输入倍率的扩展倍率；填写输入价格后会自动换算为价格字段。".
Definition warn_input : jstr := u "按量计费下需要先填写输入价格，才能保存其它价格项。".
Definition warn_audio : jstr := u "填写音频补全价格前，需要先填写音频输入价格。".

Definition getModelWarnings (m : option model) : list jstr :=
  match m with
  | None => []
  | Some m =>
    let hasDerivedPricing :=
      existsb (λ f, has (price m f))
        [inputPrice; completionPrice; cachePrice; createCachePrice; imagePrice; audioInputPrice;
         audioOutputPrice] in
    let r := rawRatios m in
    let perToken := bool_decide (billingMode m = PerToken) in
    (if hasConflict m then [t warn_conflict []] else []) ++
    (if negb (has (price m inputPrice)) &&
        existsb has [completionRatio r; cacheRatio r; createCacheRatio r; imageRatio r; audioRatio r;
                     audioCompletionRatio r]
     then [t warn_ratios []] else []) ++
    (if perToken && hasDerivedPricing && negb (has (price m inputPrice))
     then [t warn_input []] else []) ++
    (if perToken && has (price m audioOutputPrice) && negb (has (price m audioInputPrice))
     then [t warn_audio []] else [])
  end.

Definition extra_fields : list field :=
  [completionPrice; cachePrice; createCachePrice; imagePrice; audioInputPrice; audioOutputPrice].

Definition buildSummaryText (m : model) : jstr :=
  if bool_decide (billingMode m = PerRequest) && has (price m fixedPrice) then
    t (u "按次") [] ++ u " $" ++ price m fixedPrice ++ u " / " ++ t (u "次") []
  else if has (price m inputPrice) then
    let extraCount := Z.of_nat (length (List.filter (λ f, has (price m f)) extra_fields)) in
    let extraLabel := if 0 <? extraCount
                      then u "，" ++ t (u "额外价格项") [] ++ u " " ++ dec extraCount else [] in
    t (u "输入") [] ++ u " $" ++ price m inputPrice ++ extraLabel
  else t (u "未设置价格") [].

Definition buildOptionalFieldToggles (m : model) (f : field) : bool :=
  match f with
  | completionPrice => completionRatioLocked m || has (price m completionPrice)
  | _ => has (price m f)
  end.

(** ** Saving one model *)

(** The option keys, in the order of the result object. *)
Inductive opt_key :=
| KModelPrice | KModelRatio | KCompletionRatio | KCacheRatio | KCreateCacheRatio | KImageRatio
| KAudioRatio | KAudioCompletionRatio.

Definition opt_keys : list opt_key :=
  [KModelPrice; KModelRatio; KCompletionRatio; KCacheRatio; KCreateCacheRatio; KImageRatio;
   KAudioRatio; KAudioCompletionRatio].

Definition missing_input (m : model) : exc :=
  UserError (t (u "模型 {{name}} 缺少输入价格，无法计算补全/缓存/图片/音频价格对应的倍率")
               [(u "name", VStr (name m))]).
Definition missing_audio (m : model) : exc :=
  UserError (t (u "模型 {{name}} 缺少音频输入价格，无法计算音频补全倍率")
               [(u "name", VStr (name m))]).

(** [hasValue(s) ? toNormalizedNumber(s) : null] *)
Definition kept_ratio (s : jstr) : option num := if has s then toNormalizedText s else None.

(** The ratio of a dependent price to its base. *)
Definition ratio_of (p base : option num) : option num :=
  match p, base with
  | Some p, Some b => toNormalizedNumber (ndiv p b)
  | _, _ => None
  end.

Definition is_zero (n : num) : bool := neqb n (of_Z 0).

Definition serializeModel (m : model) : res (opt_key → option num) :=
  match billingMode m with
  | PerRequest =>
    Ok (λ k, match k with KModelPrice => kept_ratio (price m fixedPrice) | _ => None end)
  | PerToken =>
    let r := rawRatios m in
    let number f := text_number (price m f) in
    match number inputPrice with
    | None =>
      if existsb (λ f, bool_decide (is_Some (number f))) extra_fields then Throw (missing_input m)
      else Ok (λ k, match k with
        | KModelPrice => None
        | KModelRatio => kept_ratio (modelRatio r)
        | KCompletionRatio => kept_ratio (completionRatio r)
        | KCacheRatio => kept_ratio (cacheRatio r)
        | KCreateCacheRatio => kept_ratio (createCacheRatio r)
        | KImageRatio => kept_ratio (imageRatio r)
        | KAudioRatio => kept_ratio (audioRatio r)
        | KAudioCompletionRatio => kept_ratio (audioCompletionRatio r)
        end)
    | Some input =>
      let over f := ratio_of (number f) (Some input) in
      if bool_decide (is_Some (number audioOutputPrice)) &&
         match number audioInputPrice with None => true | Some a => is_zero a end
      then Throw (missing_audio m)
      else Ok (λ k, match k with
        | KModelPrice => None
        | KModelRatio => toNormalizedNumber (ndiv input (of_Z 2))
        | KCompletionRatio =>
          if completionRatioLocked m then kept_ratio (completionRatio r) else over completionPrice
        | KCacheRatio => over cachePrice
        | KCreateCacheRatio => over createCachePrice
        | KImageRatio => over imagePrice
        | KAudioRatio => over audioInputPrice
        | KAudioCompletionRatio => ratio_of (number audioOutputPrice) (number audioInputPrice)
        end)
    end
  end.

(** ** The preview *)

Definition or_empty (s : jstr) : jstr := if has s then s else t (u "空") [].

(** [p !== null ? formatNumber(p / base) : t('空')] *)
Definition preview_ratio (p base : option num) : jstr :=
  match p, base with
  | Some p, Some b => formatNumber (ndiv p b)
  | _, _ => t (u "空") []
  end.

Definition buildPreviewRows (m : option model) : list (opt_key * jstr) :=
  match m with
  | None => []
  | Some m =>
    match billingMode m with
    | PerRequest => [(KModelPrice, or_empty (price m fixedPrice))]
    | PerToken =>
      let r := rawRatios m in
      let number f := text_number (price m f) in
      match number inputPrice with
      | None =>
        [(KModelRatio, or_empty (modelRatio r)); (KCompletionRatio, or_empty (completionRatio r));
         (KCacheRatio, or_empty (cacheRatio r)); (KCreateCacheRatio, or_empty (createCacheRatio r));
         (KImageRatio, or_empty (imageRatio r)); (KAudioRatio, or_empty (audioRatio r));
         (KAudioCompletionRatio, or_empty (audioCompletionRatio r))]
      | Some input =>
        let over f := preview_ratio (number f) (Some input) in
        [(KModelRatio, formatNumber (ndiv input (of_Z 2)));
         (KCompletionRatio,
           if completionRatioLocked m
           then or_empty (lockedCompletionRatio m) ++ u " (" ++ t (u "后端固定") [] ++ u ")"
           else over completionPrice);
         (KCacheRatio, over cachePrice);
         (KCreateCacheRatio, over createCachePrice);
         (KImageRatio, over imagePrice);
         (KAudioRatio, over audioInputPrice);
         (KAudioCompletionRatio,
           match number audioInputPrice with
           | Some a => if is_zero a then t (u "空") []
                       else preview_ratio (number audioOutputPrice) (Some a)
           | None => t (u "空") []
           end)]
      end
    end
  end.

End texts.

(** ** The state of the hook *)

Inductive filter_mode := FilterAll | FilterUnset.

Record hook := mk_hook {
  models : list model;
  initialVisibleModelNames : list jstr;
  selectedModelName : jstr;
  selectedModelNames : list jstr;
  searchText : jstr;
  currentPage : nat;
  loading : bool;
  conflictOnly : bool;
  optionalFieldToggles : gmap jstr (gmap field bool);
}.

Definition initial_hook : hook := mk_hook [] [] [] [] [] 1 false false ∅.

Definition setModels (x : list model) (h : hook) : hook :=
  mk_hook x (initialVisibleModelNames h) (selectedModelName h) (selectedModelNames h) (searchText h)
    (currentPage h) (loading h) (conflictOnly h) (optionalFieldToggles h).
Definition setInitialVisibleModelNames (x : list jstr) (h : hook) : hook :=
  mk_hook (models h) x (selectedModelName h) (selectedModelNames h) (searchText h)
    (currentPage h) (loading h) (conflictOnly h) (optionalFieldToggles h).
Definition setSelectedModelName (x : jstr) (h : hook) : hook :=
  mk_hook (models h) (initialVisibleModelNames h) x (selectedModelNames h) (searchText h)
    (currentPage h) (loading h) (conflictOnly h) (optionalFieldToggles h).
Definition setSelectedModelNames (x : list jstr) (h : hook) : hook :=
  mk_hook (models h) (initialVisibleModelNames h) (selectedModelName h) x (searchText h)
    (currentPage h) (loading h) (conflictOnly h) (optionalFieldToggles h).
Definition setSearchText (x : jstr) (h : hook) : hook :=
  mk_hook (models h) (initialVisibleModelNames h) (selectedModelName h) (selectedModelNames h) x
    (currentPage h) (loading h) (conflictOnly h) (optionalFieldToggles h).
Definition setCurrentPage (x : nat) (h : hook) : hook :=
  mk_hook (models h) (initialVisibleModelNames h) (selectedModelName h) (selectedModelNames h)
    (searchText h) x (loading h) (conflictOnly h) (optionalFieldToggles h).
Definition setLoading (x : bool) (h : hook) : hook :=
  mk_hook (models h) (initialVisibleModelNames h) (selectedModelName h) (selectedModelNames h)
    (searchText h) (currentPage h) x (conflictOnly h) (optionalFieldToggles h).
Definition setConflictOnly (x : bool) (h : hook) : hook :=
  mk_hook (models h) (initialVisibleModelNames h) (selectedModelName h) (selectedModelNames h)
    (searchText h) (currentPage h) (loading h) x (optionalFieldToggles h).
Definition setOptionalFieldToggles (x : gmap jstr (gmap field bool)) (h : hook) : hook :=
  mk_hook (models h) (initialVisibleModelNames h) (selectedModelName h) (selectedModelNames h)
    (searchText h) (currentPage h) (loading h) (conflictOnly h) x.

(** The texts of the nine options. *)
Record options := {
  o_ModelPrice : jstr;
  o_ModelRatio : jstr;
  o_CompletionRatio : jstr;
  o_CompletionRatioMeta : jstr;
  o_CacheRatio : jstr;
  o_CreateCacheRatio : jstr;
  o_ImageRatio : jstr;
  o_AudioRatio : jstr;
  o_AudioCompletionRatio : jstr;
}.

Definition parse_options (o : options) : source_maps :=
  {| ModelPrice := parseOptionJSON (o_ModelPrice o);
     ModelRatio := parseOptionJSON (o_ModelRatio o);
     CompletionRatio := parseOptionJSON (o_CompletionRatio o);
     CompletionRatioMeta := parseOptionJSON (o_CompletionRatioMeta o);
     CacheRatio := parseOptionJSON (o_CacheRatio o);
     CreateCacheRatio := parseOptionJSON (o_CreateCacheRatio o);
     ImageRatio := parseOptionJSON (o_ImageRatio o);
     AudioRatio := parseOptionJSON (o_AudioRatio o);
     AudioCompletionRatio := parseOptionJSON (o_AudioCompletionRatio o) |}.

Definition model_names (candidates : list jstr) (s : source_maps) : list jstr :=
  set_array (candidates ++ keys (ModelPrice s) ++ keys (ModelRatio s) ++ keys (CompletionRatio s)
             ++ keys (CompletionRatioMeta s) ++ keys (CacheRatio s) ++ keys (CreateCacheRatio s)
             ++ keys (ImageRatio s) ++ keys (AudioRatio s) ++ keys (AudioCompletionRatio s)).

Inductive notice :=
| NError (message : jstr)
| NSuccess (message : jstr)
| NRequests (puts : list (jstr * jstr))
| NRefresh.

(** The toggles shown for a model, as a map. *)
Definition toggle_fields : list field := extra_fields.
Definition toggles_of (m : model) : gmap field bool :=
  list_to_map (map (λ f, (f, buildOptionalFieldToggles m f)) toggle_fields).

Definition unset_or_all (mode : filter_mode) (ms : list model) : list model :=
  match mode with FilterUnset => List.filter isBasePricingUnset ms | FilterAll => ms end.

Definition first_name (ms : list model) : jstr := match ms with [] => [] | m :: _ => name m end.

Definition has_model (n : jstr) (ms : list model) : bool := existsb (λ m, name m =s n) ms.

Section hook.
Context `{Unicode} (t : jstr → list (jstr * val) → jstr).

(** The effect on the options. *)
Definition load (mode : filter_mode) (candidates : list jstr) (o : options) (h : hook) : res hook :=
  let maps := parse_options o in
  let! built := rmapM (λ n, buildModelState n maps) (model_names candidates maps) in
  let nextModels := sort_by (λ a b, localeCompare (name a) (name b) <=? 0) built in
  let visible := unset_or_all mode nextModels in
  let selected := if nonempty (selectedModelName h) && has_model (selectedModelName h) nextModels
                  then selectedModelName h else first_name visible in
  Ok (setSelectedModelName selected
       (setOptionalFieldToggles (list_to_map (map (λ m, (name m, toggles_of m)) nextModels))
         (setInitialVisibleModelNames (map name visible) (setModels nextModels h)))).

Definition visibleModels (mode : filter_mode) (h : hook) : list model :=
  match mode with
  | FilterUnset => List.filter (λ m, bool_decide (name m ∈ initialVisibleModelNames h)) (models h)
  | FilterAll => models h
  end.

Definition filteredModels (mode : filter_mode) (h : hook) : list model :=
  let keyword := toLowerCase (trim (searchText h)) in
  List.filter (λ m,
    (if nonempty keyword then includes keyword (toLowerCase (name m)) else true) &&
    (if conflictOnly h then hasConflict m else true)) (visibleModels mode h).

Definition page (p : nat) (ms : list model) : list model :=
  take PAGE_SIZE (drop ((p - 1) * PAGE_SIZE) ms).
Definition pagedData (mode : filter_mode) (h : hook) : list model :=
  page (currentPage h) (filteredModels mode h).

Definition selectedModel (mode : filter_mode) (h : hook) : option model :=
  List.find (λ m, name m =s selectedModelName h) (visibleModels mode h).

(** The effect on [visibleModels]: names that are no longer shown are unticked. *)
Definition names_effect (mode : filter_mode) (h : hook) : hook :=
  setSelectedModelNames
    (List.filter (λ n, has_model n (visibleModels mode h)) (selectedModelNames h)) h.

(** The effect on [selectedModelName] and [visibleModels]. *)
Definition selected_effect (mode : filter_mode) (h : hook) : hook :=
  match visibleModels mode h with
  | [] => setSelectedModelName [] h
  | m :: _ => if has_model (selectedModelName h) (visibleModels mode h) then h
              else setSelectedModelName (name m) h
  end.

(** ** Handlers *)

Definition upsertModel (n : jstr) (updater : model → model) (h : hook) : hook :=
  setModels (map (λ m, if name m =s n then updater m else m) (models h)) h.

Definition isOptionalFieldEnabled (m : option model) (f : field) (h : hook) : bool :=
  match m with
  | None => false
  | Some m =>
    match optionalFieldToggles h !! name m ≫= (λ g, g !! f) with
    | Some b => b
    | None => buildOptionalFieldToggles m f
    end
  end.

Definition updateOptionalFieldToggle (n : jstr) (f : field) (checked : bool) (h : hook) : hook :=
  setOptionalFieldToggles
    (<[n := <[f := checked]> (default ∅ (optionalFieldToggles h !! n))]> (optionalFieldToggles h)) h.

Definition handleOptionalFieldToggle (mode : filter_mode) (f : field) (checked : bool) (h : hook) : hook :=
  match selectedModel mode h with
  | None => h
  | Some sel =>
    let h := updateOptionalFieldToggle (name sel) f checked h in
    if checked then h else
    let clear (m : model) :=
      with_price (if decide (f = audioInputPrice)
                  then set_price audioOutputPrice [] (set_price f [] (price m))
                  else set_price f [] (price m)) m in
    let h := upsertModel (name sel) clear h in
    if decide (f = audioInputPrice)
    then updateOptionalFieldToggle (name sel) audioOutputPrice false
           (updateOptionalFieldToggle (name sel) audioInputPrice false h)
    else h
  end.

(** [!hasValue(current) && hasValue(ratio) ? formatNumber(base * Number(ratio)) : current] *)
Definition fill_price (base : num) (ratio current : jstr) : jstr :=
  if negb (has current) && has ratio then formatNumber (nmul base (Number ratio)) else current.

Definition fillDerivedPricesFromBase (m : model) (nextInputPrice : jstr) : model :=
  match text_number nextInputPrice with
  | None => m
  | Some base =>
    let r := rawRatios m in
    with_price (λ f, match f with
      | completionPrice =>
        if completionRatioLocked m && has (lockedCompletionRatio m)
        then formatNumber (nmul base (Number (lockedCompletionRatio m)))
        else fill_price base (completionRatio r) (price m completionPrice)
      | cachePrice => fill_price base (cacheRatio r) (price m cachePrice)
      | createCachePrice => fill_price base (createCacheRatio r) (price m createCachePrice)
      | imagePrice => fill_price base (imageRatio r) (price m imagePrice)
      | audioInputPrice => fill_price base (audioRatio r) (price m audioInputPrice)
      | audioOutputPrice =>
        if negb (has (price m audioOutputPrice)) && has (audioRatio r) && has (audioCompletionRatio r)
        then formatNumber (nmul (nmul base (Number (audioRatio r))) (Number (audioCompletionRatio r)))
        else price m audioOutputPrice
      | _ => price m f
      end) m
  end.

Definition edit_field (f : field) (v : jstr) (m : model) : model :=
  let updated := with_price (set_price f v (price m)) m in
  if decide (f = inputPrice) then fillDerivedPricesFromBase updated v else updated.

Definition handleNumericFieldChange (mode : filter_mode) (f : field) (v : jstr) (h : hook) : hook :=
  match selectedModel mode h with
  | None => h
  | Some sel => if negb (NUMERIC_INPUT_REGEX v) then h else upsertModel (name sel) (edit_field f v) h
  end.

Definition handleBillingModeChange (mode : filter_mode) (b : billing) (h : hook) : hook :=
  match selectedModel mode h with
  | None => h
  | Some sel => upsertModel (name sel) (with_billing b) h
  end.

Definition addModel (modelName : jstr) (h : hook) : hook * bool * list notice :=
  let trimmedName := trim modelName in
  if negb (nonempty trimmedName) then (h, false, [NError (t (u "请输入模型名称") [])]) else
  if has_model trimmedName (models h) then (h, false, [NError (t (u "模型名称已存在") [])]) else
  let nextModel := EMPTY_MODEL trimmedName in
  (setCurrentPage 1 (setSelectedModelName trimmedName
    (setOptionalFieldToggles (<[trimmedName := toggles_of nextModel]> (optionalFieldToggles h))
      (setModels (nextModel :: models h) h))), true, []).

Definition deleteModel (n : jstr) (h : hook) : hook :=
  let nextModels := List.filter (λ m, negb (name m =s n)) (models h) in
  let h' := setSelectedModelNames (List.filter (λ i, negb (i =s n)) (selectedModelNames h))
              (setOptionalFieldToggles (delete n (optionalFieldToggles h)) (setModels nextModels h)) in
  if selectedModelName h =s n then setSelectedModelName (first_name nextModels) h' else h'.

(** The prices of the template model, the locked completion price recomputed. *)
Definition apply_pricing (src : model) (m : model) : model :=
  let next := with_price (price src) (with_billing (billingMode src) m) in
  if bool_decide (billingMode next = PerToken) && completionRatioLocked next
     && has (price next inputPrice) && has (lockedCompletionRatio next)
  then with_price (set_price completionPrice
         (formatNumber (nmul (Number (price next inputPrice)) (Number (lockedCompletionRatio next))))
         (price next)) next
  else next.

(** The toggles copied to a target; [locked] is whether its completion ratio
    is fixed. *)
Definition copied_toggles (src : gmap field bool) (locked : bool) : gmap field bool :=
  let on f := default false (src !! f) in
  list_to_map [(completionPrice, if locked then true else on completionPrice);
               (cachePrice, on cachePrice); (createCachePrice, on createCachePrice);
               (imagePrice, on imagePrice); (audioInputPrice, on audioInputPrice);
               (audioOutputPrice, on audioInputPrice && on audioOutputPrice)].

Definition is_locked (n : jstr) (ms : list model) : bool :=
  match List.find (λ m, name m =s n) ms with Some m => completionRatioLocked m | None => false end.

Definition applySelectedModelPricing (mode : filter_mode) (h : hook) : hook * bool * list notice :=
  match selectedModel mode h with
  | None => (h, false, [NError (t (u "请先选择一个作为模板的模型") [])])
  | Some src =>
    match selectedModelNames h with
    | [] => (h, false, [NError (t (u "请先勾选需要批量设置的模型") [])])
    | chosen =>
      let sourceToggles := default ∅ (optionalFieldToggles h !! name src) in
      let ms := map (λ m, if bool_decide (name m ∈ chosen) then apply_pricing src m else m) (models h) in
      let toggles := fold_left (λ acc n, <[n := copied_toggles sourceToggles (is_locked n (models h))]> acc)
                       chosen (optionalFieldToggles h) in
      (setOptionalFieldToggles toggles (setModels ms h), true,
       [NSuccess (t (u "已将模型 {{name}} 的价格配置批量应用到 {{count}} 个模型")
          [(u "name", VStr (name src)); (u "count", VNum (of_Z (Z.of_nat (length chosen))))])])
    end
  end.

(** ** Saving *)

Definition opt_key_text (k : opt_key) : jstr :=
  match k with
  | KModelPrice => u "ModelPrice"
  | KModelRatio => u "ModelRatio"
  | KCompletionRatio => u "CompletionRatio"
  | KCacheRatio => u "CacheRatio"
  | KCreateCacheRatio => u "CreateCacheRatio"
  | KImageRatio => u "ImageRatio"
  | KAudioRatio => u "AudioRatio"
  | KAudioCompletionRatio => u "AudioCompletionRatio"
  end.

(** [o[name] = value]: assigning a number to [__proto__] has no effect. *)
Definition obj_assign (o : obj) (k : jstr) (v : val) : obj :=
  if k =s u "__proto__" then o else obj_set o k v.

Definition store (out : opt_key → obj) (n : jstr) (s : opt_key → option num) : opt_key → obj :=
  λ k, match s k with Some x => obj_assign (out k) n (VNum x) | None => out k end.

Fixpoint collect (out : opt_key → obj) (ms : list model) : res (opt_key → obj) :=
  match ms with
  | [] => Ok out
  | m :: ms => let! s := serializeModel t m in collect (store out (name m) s) ms
  end.

Definition submit_requests (ms : list model) : res (list (jstr * jstr)) :=
  let! out := collect (λ _, []) ms in
  Ok (map (λ k, (opt_key_text k, stringify2_text (VObj (out k)))) opt_keys).

Record api_response := { r_success : bool; r_message : jstr }.

(** [responses] is what [await Promise.all(requestQueue)] gives for the queue
    and [refreshed] what [await refresh()] does. *)
Definition handleSubmit (responses : list (jstr * jstr) → res (list api_response))
    (refreshed : res unit) (error_message : exc → jstr) (h : hook) : hook * list notice :=
  let failed (x : exc) := let m := error_message x in
    NError (if nonempty m then m else t (u "保存失败，请重试") []) in
  let notices :=
    match submit_requests (models h) with
    | Throw x => [failed x]
    | Ok puts =>
      NRequests puts ::
      match responses puts with
      | Throw x => [failed x]
      | Ok rs =>
        match List.find (λ r, negb (r_success r)) rs with
        | Some r =>
          [failed (UserError (if nonempty (r_message r) then r_message r else t (u "保存失败，请重试") []))]
        | None =>
          NSuccess (t (u "保存成功") []) :: NRefresh ::
          match refreshed with Ok _ => [] | Throw x => [failed x] end
        end
      end
    end in
  (setLoading false h, notices).

End hook.

(** ** The preview shows what is saved *)

Section saved.
Context (t : jstr → list (jstr * val) → jstr).

Definition shows (x : option num) (text : jstr) : Prop :=
  match x with
  | Some x => x = Number text
  | None => text = [] ∨ text = t (u "空") []
  end.

Lemma shows_format n : shows (toNormalizedNumber n) (formatNumber n).
Proof.
  unfold toNormalizedNumber, number_of_format, shows, has.
  destruct (nonempty (formatNumber n)) eqn:E; [done|]. left. unfold nonempty in E. by boolify.
Qed.

Lemma shows_ratio p b : shows (ratio_of p b) (preview_ratio t p b).
Proof. unfold ratio_of, preview_ratio. destruct p, b; [apply shows_format|by right..]. Qed.

(** For a model billed per token with an input price, every row of the
    preview shows the number that saving stores under its key, and is empty or
    the placeholder exactly where nothing is stored; the completion ratio of a
    model whose ratio is fixed by the backend is the only exception. *)
Theorem preview_is_what_is_saved m s k text :
  billingMode m = PerToken → is_Some (text_number (price m inputPrice)) →
  serializeModel t m = Ok s → (k, text) ∈ buildPreviewRows t (Some m) →
  completionRatioLocked m = true ∧ k = KCompletionRatio ∨ shows (s k) text.
Proof.
  intros Hb [input Hi] Hs Hin. unfold serializeModel, buildPreviewRows in *. rewrite Hb, Hi in *.
  destruct (bool_decide _ && _) eqn:Ea; [done|]. injection Hs as <-.
  rewrite list_elem_of_In in Hin. simpl in Hin.
  destruct Hin as [E|[E|[E|[E|[E|[E|[E|[]]]]]]]]; injection E as <- <-.
  - right. apply shows_format.
  - destruct (completionRatioLocked m); [by left|right]. apply shows_ratio.
  - right. apply shows_ratio.
  - right. apply shows_ratio.
  - right. apply shows_ratio.
  - right. apply shows_ratio.
  - right. destruct (text_number (price m audioInputPrice)) as [a|] eqn:Eai.
    + destruct (is_zero a) eqn:Ez; [|apply shows_ratio].
      rewrite andb_true_r in Ea. boolify. apply eq_None_not_Some in Ea. rewrite Ea. by right.
    + destruct (text_number (price m audioOutputPrice)); by right.
Qed.

(** ** What is stored *)

Lemma obj_get_assign o k v k' :
  k ≠ u "__proto__" → obj_get (obj_assign o k v) k' = if decide (k = k') then Some v else obj_get o k'.
Proof. intros Hk. unfold obj_assign. rewrite bool_decide_eq_false_2 by done. apply obj_get_set. Qed.

Lemma store_get out n s k n' :
  n ≠ u "__proto__" →
  obj_get (store out n s k) n' =
  match s k with
  | Some x => if decide (n = n') then Some (VNum x) else obj_get (out k) n'
  | None => obj_get (out k) n'
  end.
Proof. intros Hn. unfold store. destruct (s k); [by apply obj_get_assign|done]. Qed.

Lemma collect_get out ms res_ :
  collect t out ms = Ok res_ → NoDup (map name ms) → u "__proto__" ∉ map name ms →
  (∀ k n, n ∉ map name ms → obj_get (res_ k) n = obj_get (out k) n) ∧
  (∀ m, m ∈ ms → (∀ k, obj_get (out k) (name m) = None) →
     ∃ s, serializeModel t m = Ok s ∧ ∀ k, obj_get (res_ k) (name m) = VNum <$> s k).
Proof.
  revert out. induction ms as [|m ms IH]; intros out; simpl.
  { intros [= <-] _ _. split; [done|]. intros m Hm. by apply elem_of_nil in Hm. }
  rewrite NoDup_cons, not_elem_of_cons. intros Hc [Hnin Hnd] [Hp Hps].
  destruct (serializeModel t m) as [s|] eqn:Es; simpl in Hc; [|done].
  destruct (IH _ Hc Hnd Hps) as [Hother Hmem]. split.
  - intros k n Hn. rewrite not_elem_of_cons in Hn. destruct Hn as [Hn Hn'].
    rewrite Hother, store_get by done. destruct (s k); [|done]. by rewrite decide_False.
  - intros m' Hm' Hout. apply elem_of_cons in Hm' as [->|Hm'].
    + exists s. split; [done|]. intros k. rewrite Hother, store_get by done.
      destruct (s k); [by rewrite decide_True|by apply Hout].
    + apply Hmem; [done|]. intros k. rewrite store_get by done.
      assert (Hne : name m ≠ name m').
      { intros E. apply Hnin. rewrite E. apply list_elem_of_fmap. eauto. }
      destruct (s k); [by rewrite decide_False|done].
Qed.

(** Saving stores, under every option key and for every model, exactly the
    number serialized for it, and nothing for other names. *)
Theorem saved_options_exact ms out :
  collect t (λ _, []) ms = Ok out → NoDup (map name ms) → u "__proto__" ∉ map name ms →
  (∀ m, m ∈ ms → ∃ s, serializeModel t m = Ok s ∧ ∀ k, obj_get (out k) (name m) = VNum <$> s k) ∧
  (∀ k n, n ∉ map name ms → obj_get (out k) n = None).
Proof.
  intros Hc Hnd Hp. destruct (collect_get _ _ _ Hc Hnd Hp) as [Hother Hmem]. split.
  - intros m Hm. by apply Hmem.
  - intros k n Hn. by rewrite Hother.
Qed.

Lemma number_of_format_wf s x : number_of_format s = Some x → num_wf x.
Proof. unfold number_of_format. destruct (has s); [|done]. intros [= <-]. apply Number_wf. Qed.

Lemma kept_ratio_wf s x : kept_ratio s = Some x → num_wf x.
Proof. unfold kept_ratio. destruct (has s); [apply number_of_format_wf|done]. Qed.

Lemma ratio_of_wf p b x : ratio_of p b = Some x → num_wf x.
Proof. unfold ratio_of. destruct p, b; [apply number_of_format_wf|done..]. Qed.

Lemma serialized_wf m s k x : serializeModel t m = Ok s → s k = Some x → num_wf x.
Proof.
  unfold serializeModel. destruct (billingMode m).
  - destruct (text_number (price m inputPrice)) as [input|].
    + destruct (_ && _); [done|]. intros [= <-].
      destruct k; try apply ratio_of_wf; [done|apply number_of_format_wf|].
      destruct (completionRatioLocked m); [apply kept_ratio_wf|apply ratio_of_wf].
    + destruct (existsb _ _); [done|]. intros [= <-]. by destruct k; try apply kept_ratio_wf.
  - intros [= <-]. by destruct k; try apply kept_ratio_wf.
Qed.

Lemma collect_wf out ms res_ :
  collect t out ms = Ok res_ → Forall (λ m, jstr_wf (name m)) ms →
  (∀ k, val_wf (VObj (out k))) → ∀ k, val_wf (VObj (res_ k)).
Proof.
  intros Hc Hn. revert out Hc. induction Hn as [|m ms Hm Hn IH]; intros out; simpl; [by intros [= <-]|].
  destruct (serializeModel t m) as [s|] eqn:Es; simpl; [|done]. intros Hc Hout.
  apply (IH _ Hc). intros k. unfold store. destruct (s k) as [x|] eqn:Ek; [|done].
  unfold obj_assign. case_bool_decide; [done|].
  specialize (Hout k). inversion Hout as [| | | | | |? Hok Ho|]; subst.
  constructor; [by apply obj_ok_set|]. apply obj_set_Forall; [done|].
  split; [done|]. constructor. by eapply serialized_wf.
Qed.

Lemma parseOptionJSON_stringify o :
  val_wf (VObj o) → parseOptionJSON (stringify2_text (VObj o)) = json_norm (VObj o).
Proof.
  intros Hwf. assert (Hp : JSON_parse (stringify2_text (VObj o)) = Ok (json_norm (VObj o))).
  { eapply JSON_parse_ser; [apply indent2_ws|done|]. unfold stringify2_text, stringify2.
    by rewrite ser_serializable. }
  unfold parseOptionJSON. rewrite bool_decide_eq_false_2 by (by eapply JSON_parse_nonblank).
  rewrite Hp. by rewrite json_norm_obj.
Qed.

(** What the editor reads for a stored number, and for a missing one. *)
Definition read_text (x : option num) : jstr :=
  match x ≫= finite_or_none with Some x => num_to_string x | None => [] end.

Lemma read_stored o n x :
  obj_ok o → n ≠ u "__proto__" → obj_get o n = VNum <$> x →
  rbind (get (json_norm (VObj o)) n) toNumericString = Ok (read_text x).
Proof.
  intros Hok Hn Hg. rewrite json_norm_obj. simpl. rewrite obj_get_norm, Hg by done.
  destruct x as [x|]; simpl.
  - unfold toNumericString, toNumberOrNull, read_text, finite_or_none. simpl.
    destruct (isFinite x) eqn:Hf; [|done].
    destruct (neg_zero x) eqn:Hz; simpl; unfold finite_or_none; [|by rewrite ?Hf].
    destruct x as [| |[] m e]; try done. simpl in Hz. boolify. by subst.
  - unfold proto_get. rewrite (bool_decide_eq_false_2 (n = _)) by done. by case_bool_decide.
Qed.

(** C6: What is saved is what is loaded again: the text stored under every
    option key is JSON from which the editor reads, for every model, exactly
    the number that was serialized for it, and nothing where none was. *)
Theorem reload_reads_saved ms puts m :
  submit_requests t ms = Ok puts → NoDup (map name ms) → u "__proto__" ∉ map name ms →
  Forall (λ m, jstr_wf (name m)) ms → m ∈ ms →
  ∃ s, serializeModel t m = Ok s ∧
  ∀ k, ∃ text, (opt_key_text k, text) ∈ puts ∧
    rbind (get (parseOptionJSON text) (name m)) toNumericString = Ok (read_text (s k)).
Proof.
  unfold submit_requests. destruct (collect t (λ _, []) ms) as [out|] eqn:Ec; cbn [rbind]; [|done].
  intros Hputs Hnd Hp Hwf Hm. injection Hputs as <-.
  destruct (collect_get _ _ _ Ec Hnd Hp) as [_ Hmem]. destruct (Hmem m Hm) as (s & Hs & Hg); [done|].
  exists s. split; [done|]. intros k. exists (stringify2_text (VObj (out k))). split.
  { apply (list_elem_of_fmap (λ k, (opt_key_text k, stringify2_text (VObj (out k)))) opt_keys).
    exists k. split; [done|]. apply list_elem_of_In. clear. destruct k; simpl; tauto. }
  assert (Hv : val_wf (VObj (out k))).
  { eapply collect_wf; [exact Ec|done|]. intros ?. by repeat constructor. }
  rewrite parseOptionJSON_stringify by done.
  apply read_stored; [by inversion Hv| |apply Hg].
  intros E. apply Hp. rewrite <- E. apply list_elem_of_fmap. eauto.
Qed.

Lemma collect_throw out ms m e :
  m ∈ ms → serializeModel t m = Throw e → ∃ e', collect t out ms = Throw e'.
Proof.
  revert out. induction ms as [|m' ms IH]; intros out Hm He; [by apply elem_of_nil in Hm|]. simpl.
  apply elem_of_cons in Hm as [<-|Hm]; [rewrite He; simpl; eauto|].
  destruct (serializeModel t m'); simpl; [by apply IH|eauto].
Qed.

(** If one model cannot be saved, nothing is: no request is sent. *)
Theorem submit_all_or_nothing responses refreshed msg h m e :
  m ∈ models h → serializeModel t m = Throw e →
  ∃ text, (handleSubmit t responses refreshed msg h).2 = [NError text].
Proof.
  intros Hm He. unfold handleSubmit, submit_requests.
  destruct (collect_throw (λ _, []) (models h) m e Hm He) as [e' ->]. simpl. eauto.
Qed.

(** C25: A model is refused exactly when it is billed per token and has a
    dependent price but no input price, or an audio output price without a
    non-zero audio input price. *)
Theorem serialize_refuses m :
  is_ok (serializeModel t m) = false ↔
  billingMode m = PerToken ∧
  ((text_number (price m inputPrice) = None ∧
    ∃ f, f ∈ extra_fields ∧ is_Some (text_number (price m f))) ∨
   (is_Some (text_number (price m inputPrice)) ∧ is_Some (text_number (price m audioOutputPrice)) ∧
    ∀ a, text_number (price m audioInputPrice) = Some a → is_zero a = true)).
Proof.
  unfold serializeModel. destruct (billingMode m); [|split; [done|by intros [? _]]].
  destruct (text_number (price m inputPrice)) as [input|].
  - set (za := match text_number (price m audioInputPrice) with None => true | Some a => is_zero a end).
    assert (Ha : za = true ↔ ∀ a, text_number (price m audioInputPrice) = Some a → is_zero a = true).
    { subst za. destruct (text_number (price m audioInputPrice)) as [a|]; [|done].
      split; [by intros ? ? [= <-]|]. eauto. }
    rewrite <- Ha. clearbody za. clear Ha.
    destruct (bool_decide (is_Some (text_number (price m audioOutputPrice)))) eqn:Ho, za; boolify;
      cbn [andb is_ok].
    + split; [|done]. intros _. split; [done|]. right. eauto.
    + split; [done|]. by intros [_ [[? _]|(_ & _ & ?)]].
    + split; [done|]. by intros [_ [[? _]|(_ & ? & _)]].
    + split; [done|]. by intros [_ [[? _]|(_ & ? & _)]].
  - assert (Hx : existsb (λ f, bool_decide (is_Some (text_number (price m f)))) extra_fields = true ↔
                 ∃ f, f ∈ extra_fields ∧ is_Some (text_number (price m f))).
    { rewrite existsb_exists. setoid_rewrite list_elem_of_In. by setoid_rewrite bool_decide_eq_true. }
    rewrite <- Hx. clear Hx. destruct (existsb _ extra_fields); cbn [is_ok].
    + split; [|done]. intros _. split; [done|]. by left.
    + split; [done|]. intros [_ [[_ ?]|[[? ?] _]]]; done.
Qed.

(** With an input price of zero the other prices are lost: their ratios are
    not finite, so saving stores nothing for them. *)
Theorem zero_input_price_drops m s b :
  billingMode m = PerToken → text_number (price m inputPrice) = Some b → is_zero b = true →
  serializeModel t m = Ok s →
  s KCacheRatio = None ∧ s KCreateCacheRatio = None ∧ s KImageRatio = None ∧ s KAudioRatio = None ∧
  (completionRatioLocked m = false → s KCompletionRatio = None).
Proof.
  intros Hb Hi Hz Hs. unfold serializeModel in Hs. rewrite Hb, Hi in Hs.
  destruct (bool_decide _ && _); [done|]. injection Hs as <-.
  assert (Hr : ∀ p, ratio_of p (Some b) = None).
  { intros [p|]; [|done]. simpl. unfold toNormalizedNumber, formatNumber.
    assert (Hd : finite_or_none (ndiv p b) = None).
    { unfold is_zero, neqb in Hz. boolify. destruct b as [|sb|sb mb eb]; [done|by destruct sb|].
      assert (mb = 0) as ->.
      { destruct (Z.eq_dec mb 0) as [|Hne]; [done|]. exfalso. by apply (fin_nonzero sb mb eb). }
      destruct p as [|sp|sp mp ep]; simpl; [done|done|]. by destruct (mp =? 0). }
    by rewrite Hd. }
  split_and!; try apply Hr. intros ->. apply Hr.
Qed.

End saved.

(** ** The hook as a state machine *)

Inductive pricing_action :=
| PLoad (o : options)
| PSelect (n : jstr) | PSelectNames (ns : list jstr)
| PSearch (s : jstr) | PConflict (b : bool) | PPage (p : nat)
| PToggle (f : field) (checked : bool)
| PNumeric (f : field) (v : jstr)
| PBilling (b : billing)
| PAdd (n : jstr) | PDelete (n : jstr) | PApply
| PSubmit (responses : list (jstr * jstr) → res (list api_response)) (refreshed : res unit).

Section pricing_machine.
Context `{Unicode} (t : jstr → list (jstr * val) → jstr) (error_message : exc → jstr).
Context (mode : filter_mode) (candidates : list jstr).

(** A change of the search or of the conflict filter goes back to page one.  An
    option that makes loading throw takes the component down; no state is
    reached from there. *)
Definition pricing_handle (a : pricing_action) (h : hook) : hook :=
  match a with
  | PLoad o => match load mode candidates o h with Ok h' => h' | Throw _ => h end
  | PSelect n => setSelectedModelName n h
  | PSelectNames ns => setSelectedModelNames ns h
  | PSearch s => if searchText h =s s then h else setCurrentPage 1 (setSearchText s h)
  | PConflict b => if eqb (conflictOnly h) b then h else setCurrentPage 1 (setConflictOnly b h)
  | PPage p => setCurrentPage p h
  | PToggle f checked => handleOptionalFieldToggle mode f checked h
  | PNumeric f v => handleNumericFieldChange mode f v h
  | PBilling b => handleBillingModeChange mode b h
  | PAdd n => (addModel t n h).1.1
  | PDelete n => deleteModel n h
  | PApply => (applySelectedModelPricing t mode h).1.1
  | PSubmit responses refreshed => (handleSubmit t responses refreshed error_message h).1
  end.

(** The actions that may change [visibleModels]. *)
Definition changes_models (a : pricing_action) : bool :=
  match a with
  | PLoad _ | PToggle _ _ | PNumeric _ _ | PBilling _ | PAdd _ | PDelete _ | PApply => true
  | _ => false
  end.

(** A handler, then the effects of the render that follows. *)
Definition pricing_step (a : pricing_action) (h : hook) : hook :=
  let h' := pricing_handle a h in
  selected_effect mode (if changes_models a then names_effect mode h' else h').

(** The rows of the table, which the operator ticks, are visible models. *)
Definition offered (a : pricing_action) (h : hook) : Prop :=
  match a with
  | PSelectNames ns => Forall (λ n, n ∈ map name (visibleModels mode h)) ns
  | _ => True
  end.

Inductive pricing_reachable : hook → Prop :=
| preach_init : pricing_reachable (selected_effect mode initial_hook)
| preach_step a h : pricing_reachable h → offered a h → pricing_reachable (pricing_step a h).

Definition names_unique (h : hook) : Prop := NoDup (map name (models h)).

Lemma upsert_names n g h :
  (∀ m, name (g m) = name m) → map name (models (upsertModel n g h)) = map name (models h).
Proof.
  intros Hg. simpl. rewrite map_map. apply map_ext. intros m. case_bool_decide; [apply Hg|done].
Qed.

Lemma edit_field_name f v m : name (edit_field f v m) = name m.
Proof.
  unfold edit_field, fillDerivedPricesFromBase. case_decide; [|done]. by destruct (text_number v).
Qed.

Lemma apply_pricing_name src m : name (apply_pricing src m) = name m.
Proof. unfold apply_pricing. by case_match. Qed.

Lemma toggle_models f checked h :
  map name (models (handleOptionalFieldToggle mode f checked h)) = map name (models h).
Proof.
  unfold handleOptionalFieldToggle. destruct (selectedModel mode h); [|done].
  destruct checked; [done|].
  case_decide; simpl; rewrite map_map; apply map_ext; intros x; by case_bool_decide.
Qed.

Lemma has_model_spec n ms : has_model n ms = true ↔ n ∈ map name ms.
Proof.
  unfold has_model. rewrite existsb_exists, list_elem_of_fmap. split.
  - intros (m & Hm%list_elem_of_In & Hn). boolify. eauto.
  - intros (m & -> & Hm). exists m. rewrite <- list_elem_of_In. split; [done|]. by apply bool_decide_eq_true.
Qed.

Lemma buildModelState_name n maps m : buildModelState n maps = Ok m → name m = n.
Proof.
  unfold buildModelState.
  repeat match goal with
  | |- rbind ?r _ = _ → _ => destruct r; simpl; [|done]
  end. by intros [= <-].
Qed.

Lemma load_names o h h' :
  load mode candidates o h = Ok h' →
  map name (models h') ≡ₚ model_names candidates (parse_options o) ∧
  StronglySorted (λ a b, localeCompare (name a) (name b) ≤ 0) (models h').
Proof.
  unfold load. destruct (rmapM _ _) as [built|] eqn:E; cbn [rbind]; [|done]. intros [= <-]. split.
  - simpl. rewrite (Permutation_map name (sort_by_perm _ built)).
    assert (Hb : map name built = model_names candidates (parse_options o)); [|by rewrite Hb].
    revert built E. generalize (model_names candidates (parse_options o)). intros ns.
    induction ns as [|n ns IH]; intros built; simpl; [by intros [= <-]|].
    destruct (buildModelState n _) as [m|] eqn:Em; simpl; [|done].
    destruct (rmapM _ ns) as [ms|]; simpl; [|done]. intros [= <-]. simpl.
    by rewrite (buildModelState_name _ _ _ Em), IH.
  - apply locale_sorted.
Qed.

Lemma handle_unique a h : names_unique h → names_unique (pricing_handle a h).
Proof.
  unfold names_unique. intros Hu. destruct a; simpl; try done.
  - destruct (load mode candidates o h) as [h'|] eqn:E; [|done].
    apply load_names in E as [-> _]. apply NoDup_set_array.
  - by case_bool_decide.
  - by destruct (eqb _ _).
  - by rewrite toggle_models.
  - unfold handleNumericFieldChange. destruct (selectedModel mode h); [|done].
    destruct (negb _); [done|]. rewrite upsert_names; [done|]. intros. apply edit_field_name.
  - unfold handleBillingModeChange. destruct (selectedModel mode h); [|done]. by rewrite upsert_names.
  - unfold addModel. destruct (negb _); [done|]. destruct (has_model _ _) eqn:E; [done|].
    simpl. apply NoDup_cons. split; [|done]. intros Hin. apply has_model_spec in Hin. congruence.
  - unfold deleteModel. assert (Hd : NoDup (map name (List.filter (λ m, negb (name m =s n)) (models h)))).
    { eapply sublist_NoDup; [exact Hu|]. apply sublist_map, filter_sublist_of. }
    by case_bool_decide.
  - unfold applySelectedModelPricing. destruct (selectedModel mode h) as [src|]; [|done].
    destruct (selectedModelNames h); [done|]. simpl. rewrite map_map.
    erewrite map_ext; [exact Hu|]. intros m. simpl. case_bool_decide; [apply apply_pricing_name|done].
Qed.

Lemma selected_effect_models h :
  models (selected_effect mode h) = models h ∧
  visibleModels mode (selected_effect mode h) = visibleModels mode h ∧
  selectedModelNames (selected_effect mode h) = selectedModelNames h.
Proof. unfold selected_effect. destruct (visibleModels mode h) eqn:E; [done|]. by case_match. Qed.

(** The selection refers to models that are shown. *)
Definition names_valid (h : hook) : Prop :=
  Forall (λ n, n ∈ map name (visibleModels mode h)) (selectedModelNames h).
Definition selection_valid (h : hook) : Prop :=
  (visibleModels mode h = [] ∧ selectedModelName h = [] ∨
   selectedModelName h ∈ map name (visibleModels mode h)) ∧ names_valid h.

Lemma names_effect_valid h : names_valid (names_effect mode h).
Proof. apply Forall_forall. intros n [_ Hn]%elem_of_filter_bool. by apply has_model_spec. Qed.

Lemma selected_effect_valid h : names_valid h → selection_valid (selected_effect mode h).
Proof.
  intros Hn. destruct (selected_effect_models h) as (_ & Hv & Hs). split.
  - rewrite Hv. clear Hn Hv Hs. unfold selected_effect.
    destruct (visibleModels mode h) as [|m ms]; [by left|right].
    destruct (has_model (selectedModelName h) (m :: ms)) eqn:E.
    + by apply has_model_spec.
    + apply list_elem_of_here.
  - unfold names_valid. by rewrite Hv, Hs.
Qed.

Lemma handle_names_valid a h :
  offered a h → names_valid h → changes_models a = false → names_valid (pricing_handle a h).
Proof.
  intros Ho Hn Hc. destruct a; try done; unfold pricing_handle.
  - by case_bool_decide.
  - by destruct (eqb _ _).
Qed.

(** Whatever the operator does, no two models of the pricing editor have the
    same name, and the selected model and the ticked models are models that
    are shown. *)
Theorem pricing_invariant h :
  pricing_reachable h → NoDup (map name (models h)) ∧ selection_valid h.
Proof.
  induction 1 as [|a h _ [IH [_ Hn]] Ho].
  - destruct (selected_effect_models initial_hook) as [-> _].
    split; [constructor|]. apply selected_effect_valid. constructor.
  - unfold pricing_step. set (h' := if changes_models a then _ else _).
    assert (Hm : models h' = models (pricing_handle a h)) by (subst h'; by destruct (changes_models a)).
    destruct (selected_effect_models h') as [-> _]. rewrite Hm.
    split; [by apply handle_unique|]. apply selected_effect_valid. subst h'.
    destruct (changes_models a) eqn:E; [apply names_effect_valid|by apply handle_names_valid].
Qed.

(** Loading the options gives one model per candidate and per key of the
    nine options, in the order of [localeCompare]. *)
Theorem load_complete o h h' :
  load mode candidates o h = Ok h' →
  (∀ n, n ∈ map name (models h') ↔ n ∈ model_names candidates (parse_options o)) ∧
  NoDup (map name (models h')) ∧
  StronglySorted (λ a b, localeCompare (name a) (name b) ≤ 0) (models h').
Proof.
  intros Hl%load_names. destruct Hl as [Hp Hs]. split_and!; [|rewrite Hp; apply NoDup_set_array|done].
  intros n. by rewrite Hp.
Qed.

End pricing_machine.

(** ** Editing *)

Section editing.
Context `{Unicode} (mode : filter_mode).

(** Finding a model after an update that keeps the names. *)
Lemma find_map_names n (g : model → model) ms :
  (∀ m, name (g m) = name m) →
  List.find (λ m, name m =s n) (map g ms) = g <$> List.find (λ m, name m =s n) ms.
Proof.
  intros Hg. induction ms as [|m ms IH]; simpl; [done|]. rewrite Hg. by case_bool_decide.
Qed.

Lemma visible_map (g : model → model) h ms' :
  (∀ m, name (g m) = name m) → ms' = map g (models h) →
  visibleModels mode (setModels ms' h) = map g (visibleModels mode h).
Proof.
  intros Hg ->. unfold visibleModels. destruct mode; [done|]. simpl.
  generalize (models h). intros ms. induction ms as [|m ms IH]; simpl; [done|].
  rewrite Hg. case_bool_decide; simpl; by rewrite IH.
Qed.

(** The selected model after an update of it. *)
Lemma selected_upsert g h sel :
  (∀ m, name (g m) = name m) → selectedModel mode h = Some sel →
  selectedModel mode (upsertModel (name sel) g h) = Some (g sel).
Proof.
  intros Hg Hs. unfold selectedModel, upsertModel in *.
  rewrite (visible_map (λ m, if name m =s name sel then g m else m)); [| |done].
  2: { intros m. case_bool_decide; [apply Hg|done]. }
  change (selectedModelName (setModels _ h)) with (selectedModelName h).
  rewrite find_map_names by (intros m; case_bool_decide; [apply Hg|done]).
  rewrite Hs. simpl. by rewrite bool_decide_eq_true_2.
Qed.

Lemma selected_toggle n f b h :
  selectedModel mode (updateOptionalFieldToggle n f b h) = selectedModel mode h.
Proof. unfold selectedModel, visibleModels. by destruct mode. Qed.

Lemma toggle_get n f b h g :
  (optionalFieldToggles (updateOptionalFieldToggle n f b h) !! n ≫= (λ x, x !! g)) =
  if decide (f = g) then Some b else optionalFieldToggles h !! n ≫= (λ x, x !! g).
Proof.
  simpl. rewrite lookup_insert_eq. simpl. destruct (decide (f = g)) as [<-|Hne].
  - by rewrite lookup_insert_eq.
  - rewrite lookup_insert_ne by done. by destruct (optionalFieldToggles h !! n).
Qed.

Definition cleared (f g : field) : Prop := g = f ∨ f = audioInputPrice ∧ g = audioOutputPrice.

(** Switching an optional price off empties and disables it in the selected
    model, the audio output price too when the audio input price is switched
    off, and leaves its other prices as they are. *)
Theorem toggle_off_clears f h sel :
  selectedModel mode h = Some sel →
  let h' := handleOptionalFieldToggle mode f false h in
  ∃ sel', selectedModel mode h' = Some sel' ∧ name sel' = name sel ∧
    (∀ g, cleared f g → price sel' g = [] ∧ isOptionalFieldEnabled (Some sel') g h' = false) ∧
    (∀ g, ¬ cleared f g → price sel' g = price sel g).
Proof.
  intros Hs h'. unfold h', handleOptionalFieldToggle. rewrite Hs. unfold cleared.
  set (h1 := updateOptionalFieldToggle (name sel) f false h).
  assert (Hs1 : selectedModel mode h1 = Some sel) by (unfold h1; by rewrite selected_toggle).
  destruct (decide (f = audioInputPrice)) as [->|Hf].
  - eexists. split; [rewrite !selected_toggle; by apply selected_upsert|]. split; [done|]. split.
    + intros g Hg. unfold isOptionalFieldEnabled. rewrite toggle_get. split.
      * simpl. unfold set_price. destruct Hg as [->|[_ ->]]; [|done]. by rewrite decide_False.
      * rewrite toggle_get. destruct Hg as [->|[_ ->]]; done.
    + intros g Hg. simpl. unfold set_price. rewrite !decide_False; [done|naive_solver..].
  - eexists. split; [by apply selected_upsert|]. split; [done|]. split.
    + intros g [->|[-> _]]; [|done]. split; [simpl; unfold set_price; by rewrite decide_True|].
      unfold isOptionalFieldEnabled, h1.
      change (optionalFieldToggles (upsertModel _ _ ?x)) with (optionalFieldToggles x).
      rewrite toggle_get. by rewrite decide_True.
    + intros g Hg. simpl. unfold set_price. rewrite decide_False; [done|naive_solver].
Qed.

(** The first input price typed decides the derived prices: a later value of
    the field does not change a price that the first one filled in. *)
Theorem first_keystroke_decides v w b m :
  text_number v = Some b → has (price m cachePrice) = false → has (cacheRatio (rawRatios m)) = true →
  has (formatNumber (nmul b (Number (cacheRatio (rawRatios m))))) = true →
  price (edit_field inputPrice w (edit_field inputPrice v m)) cachePrice =
  formatNumber (nmul b (Number (cacheRatio (rawRatios m)))).
Proof.
  intros Hv Hp Hr Hf.
  assert (E : price (edit_field inputPrice v m) cachePrice =
              formatNumber (nmul b (Number (cacheRatio (rawRatios m))))).
  { unfold edit_field. rewrite decide_True by done. unfold fillDerivedPricesFromBase.
    rewrite Hv. cbn [price with_price rawRatios]. unfold fill_price.
    change (set_price inputPrice v (price m) cachePrice) with (price m cachePrice).
    by rewrite Hp, Hr. }
  revert E. generalize (edit_field inputPrice v m). intros m1 E.
  unfold edit_field. rewrite decide_True by done. unfold fillDerivedPricesFromBase.
  destruct (text_number w); [|exact E]. cbn [price with_price rawRatios]. unfold fill_price.
  change (set_price inputPrice w (price m1) cachePrice) with (price m1 cachePrice).
  by rewrite E, Hf.
Qed.

(** Two models are saved alike: both are refused, or the same number is stored
    for both under every key. *)
Definition saved_alike (t : jstr → list (jstr * val) → jstr) (a b : model) : Prop :=
  match serializeModel t a, serializeModel t b with
  | Ok s, Ok s' => ∀ k, s k = s' k
  | Throw _, Throw _ => True
  | _, _ => False
  end.

Lemma apply_pricing_alike t src m :
  completionRatioLocked src = false → completionRatioLocked m = false →
  billingMode src = PerRequest ∨ is_Some (text_number (price src inputPrice)) →
  saved_alike t src (apply_pricing src m).
Proof.
  intros Hs Hm Hb.
  assert (Ha : apply_pricing src m = with_price (price src) (with_billing (billingMode src) m)).
  { unfold apply_pricing. simpl. by rewrite Hm, andb_false_r. }
  rewrite Ha. unfold saved_alike, serializeModel. simpl. rewrite Hs, Hm.
  destruct (billingMode src); [|done]. destruct Hb as [Hb|[b Hb]]; [done|]. rewrite Hb.
  by destruct (_ && _).
Qed.

(** After the prices of the selected model have been applied to the ticked
    ones, every ticked model is saved exactly like the selected one, when that
    is billed per request or has an input price and no completion ratio is
    fixed by the backend; models that are not ticked stay as they are. *)
Theorem applied_models_saved_alike t h src :
  selectedModel mode h = Some src → selectedModelNames h ≠ [] → completionRatioLocked src = false →
  billingMode src = PerRequest ∨ is_Some (text_number (price src inputPrice)) →
  let h' := (applySelectedModelPricing t mode h).1.1 in
  map name (models h') = map name (models h) ∧
  (∀ m', m' ∈ models h' → name m' ∈ selectedModelNames h → completionRatioLocked m' = false →
         saved_alike t src m') ∧
  (∀ m', m' ∈ models h' → name m' ∉ selectedModelNames h → m' ∈ models h).
Proof.
  intros Hsel Hne Hl Hb h'. unfold h', applySelectedModelPricing. rewrite Hsel.
  destruct (selectedModelNames h) as [|c cs] eqn:Ec; [done|]. rewrite <- Ec. cbn [fst].
  change (models (setOptionalFieldToggles _ (setModels ?l _))) with l.
  set (g := λ m, if bool_decide (name m ∈ selectedModelNames h) then apply_pricing src m else m).
  assert (Hg : ∀ m, name (g m) = name m)
    by (intros m; unfold g; case_bool_decide; [apply apply_pricing_name|done]).
  split_and!.
  - rewrite map_map. by apply map_ext.
  - intros m' (m & -> & Hm)%list_elem_of_fmap. rewrite Hg. intros Hin. unfold g.
    rewrite bool_decide_eq_true_2 by done. intros Hlm. apply apply_pricing_alike; [done| |done].
    revert Hlm. unfold apply_pricing. by case_match.
  - intros m' (m & -> & Hm)%list_elem_of_fmap. rewrite Hg. intros Hin. unfold g.
    by rewrite bool_decide_eq_false_2.
Qed.

(** The pages of the table. *)
Definition page_count (ms : list model) : nat := (length ms + PAGE_SIZE - 1) / PAGE_SIZE.

Lemma pages_from k i ms :
  (length ms ≤ (i + k) * PAGE_SIZE)%nat →
  concat (map (λ p, page p ms) (seq (S i) k)) = drop (i * PAGE_SIZE) ms.
Proof.
  revert i. induction k as [|k IH]; intros i Hl; simpl.
  - symmetry. apply drop_ge. by rewrite Nat.add_0_r in Hl.
  - rewrite IH by (by rewrite Nat.add_succ_comm). unfold page. rewrite Nat.sub_succ, Nat.sub_0_r.
    rewrite <- (take_drop PAGE_SIZE (drop (i * PAGE_SIZE) ms)) at 2. f_equal.
    rewrite drop_drop. f_equal. lia.
Qed.

(** The pages of the table, one after the other, are exactly the models that
    match the search, each once and in their order. *)
Theorem pages_are_the_table ms :
  concat (map (λ p, page p ms) (seq 1 (page_count ms))) = ms.
Proof.
  rewrite (pages_from (page_count ms) 0); [done|]. simpl. unfold page_count, PAGE_SIZE.
  pose proof (Nat.div_mod (length ms + 10 - 1) 10). pose proof (Nat.mod_upper_bound (length ms + 10 - 1) 10).
  lia.
Qed.

End editing.

(** ** Witnesses *)

Definition no_t (key : jstr) (_ : list (jstr * val)) : jstr := key.

(** A per-token model: input 2.5, completion 10, cached input 1.25. *)
Definition sample : model :=
  with_price (λ f, match f with
    | inputPrice => u "2.5" | completionPrice => u "10" | cachePrice => u "1.25" | _ => []
    end) (EMPTY_MODEL (u "gpt-4o")).

(** A part of a result, found by evaluation. *)
Lemma part_of_result {A B} (f : A → B) (r : res A) b : rmap f r = Ok b → ∃ x, r = Ok x ∧ f x = b.
Proof. destruct r; simpl; [intros [= <-]; eauto|done]. Qed.

Lemma preview_is_what_is_saved_witness :
  ∃ s, serializeModel no_t sample = Ok s ∧ s KCompletionRatio = Some (of_Z 4) ∧
  buildPreviewRows no_t (Some sample) !! 1%nat = Some (KCompletionRatio, u "4") ∧
  (completionRatioLocked sample = true ∧ KCompletionRatio = KCompletionRatio ∨
   shows no_t (s KCompletionRatio) (u "4")).
Proof.
  destruct (part_of_result (λ s, s KCompletionRatio) (serializeModel no_t sample) (Some (of_Z 4)))
    as (s & Es & Hk); [vm_compute; reflexivity|].
  exists s. split; [exact Es|]. split; [exact Hk|]. split; [vm_compute; reflexivity|].
  apply (preview_is_what_is_saved no_t sample s KCompletionRatio (u "4")).
  - reflexivity.
  - vm_compute. eauto.
  - exact Es.
  - apply list_elem_of_In. vm_compute. tauto.
Defined.

Lemma saved_options_exact_witness :
  ∃ out s, collect no_t (λ _, []) [sample] = Ok out ∧ serializeModel no_t sample = Ok s ∧
  ∀ k, obj_get (out k) (u "gpt-4o") = VNum <$> s k.
Proof.
  destruct (part_of_result (λ _, tt) (collect no_t (λ _, []) [sample]) tt) as (out & E & _);
    [vm_compute; reflexivity|].
  destruct (saved_options_exact no_t [sample] out E) as [Hm _].
  - apply NoDup_singleton.
  - apply (bool_decide_eq_true_1 (u "__proto__" ∉ map name [sample])). vm_compute. reflexivity.
  - destruct (Hm sample) as (s & Hs & Hg); [by left|]. exists out, s. split; [done|]. split; [done|].
    exact Hg.
Defined.

Lemma reload_reads_saved_witness :
  ∃ puts s, submit_requests no_t [sample] = Ok puts ∧ serializeModel no_t sample = Ok s ∧
  read_text (s KModelRatio) = u "1.25" ∧
  ∀ k, ∃ text, (opt_key_text k, text) ∈ puts ∧
    rbind (get (parseOptionJSON text) (u "gpt-4o")) toNumericString = Ok (read_text (s k)).
Proof.
  destruct (part_of_result (λ _, tt) (submit_requests no_t [sample]) tt) as (puts & E & _);
    [vm_compute; reflexivity|].
  destruct (reload_reads_saved no_t [sample] puts sample E) as (s & Hs & Hr).
  - apply NoDup_singleton.
  - apply (bool_decide_eq_true_1 (u "__proto__" ∉ map name [sample])). vm_compute. reflexivity.
  - repeat constructor; unfold is_unit; lia.
  - by left.
  - exists puts, s. split; [done|]. split; [done|]. split; [|exact Hr].
    destruct (part_of_result (λ s, read_text (s KModelRatio)) (serializeModel no_t sample) (u "1.25"))
      as (s' & Hs' & <-); [vm_compute; reflexivity|]. congruence.
Defined.

(** A dependent price without an input price. *)
Definition incomplete : model := with_price (set_price inputPrice [] (price sample)) sample.
Definition hook_of (ms : list model) : hook :=
  mk_hook ms (map name ms) (first_name ms) [] [] 1 false false ∅.

Lemma submit_all_or_nothing_witness :
  ∃ text, (handleSubmit no_t (λ _, Ok []) (Ok tt) (λ _, []) (hook_of [sample; incomplete])).2 =
          [NError text].
Proof.
  apply (submit_all_or_nothing no_t _ _ _ (hook_of [sample; incomplete]) incomplete
           (missing_input no_t incomplete)).
  - by right; left.
  - vm_compute. reflexivity.
Defined.

Definition zero_input : model := with_price (set_price inputPrice (u "0") (price sample)) sample.

Lemma zero_input_price_drops_witness :
  ∃ s, serializeModel no_t zero_input = Ok s ∧ text_number (price zero_input cachePrice) = Some (Number (u "1.25")) ∧
       s KCacheRatio = None.
Proof.
  destruct (part_of_result (λ _, tt) (serializeModel no_t zero_input) tt) as (s & E & _);
    [vm_compute; reflexivity|].
  exists s. split; [done|]. split; [vm_compute; reflexivity|].
  apply (zero_input_price_drops no_t zero_input s nzero).
  - reflexivity.
  - vm_compute. reflexivity.
  - vm_compute. reflexivity.
  - exact E.
Defined.

Definition sample_options : options :=
  {| o_ModelPrice := uq "{'dall-e-3':0.04}"; o_ModelRatio := uq "{'gpt-4o':1.25}";
     o_CompletionRatio := uq "{'gpt-4o':4}"; o_CompletionRatioMeta := []; o_CacheRatio := [];
     o_CreateCacheRatio := []; o_ImageRatio := []; o_AudioRatio := []; o_AudioCompletionRatio := [] |}.

Lemma load_complete_witness :
  ∃ h, @load ascii_unicode FilterAll [u "a"] sample_options initial_hook = Ok h ∧
       map name (models h) = [u "a"; u "dall-e-3"; u "gpt-4o"] ∧ NoDup (map name (models h)).
Proof.
  assert (Hn : rmap (λ h, map name (models h))
                 (@load ascii_unicode FilterAll [u "a"] sample_options initial_hook) =
               Ok [u "a"; u "dall-e-3"; u "gpt-4o"]) by (vm_compute; reflexivity).
  destruct (@load ascii_unicode FilterAll [u "a"] sample_options initial_hook) as [h|] eqn:E; [|done].
  exists h. split; [done|]. split; [by injection Hn|].
  apply (@load_complete ascii_unicode FilterAll [u "a"] sample_options initial_hook h E).
Defined.

Lemma pricing_invariant_witness :
  let h := @pricing_step ascii_unicode no_t (λ _, []) FilterAll [] (PAdd (u "m"))
             (selected_effect FilterAll initial_hook) in
  map name (models h) = [u "m"] ∧ selectedModelName h = u "m" ∧
  NoDup (map name (models h)) ∧ selection_valid FilterAll h.
Proof.
  intros h. split; [vm_compute; reflexivity|]. split; [vm_compute; reflexivity|].
  apply (@pricing_invariant ascii_unicode no_t (λ _, []) FilterAll []).
  apply preach_step; [apply preach_init|done].
Defined.

Lemma toggle_off_clears_witness :
  ∃ sel', selectedModel FilterAll (handleOptionalFieldToggle FilterAll cachePrice false (hook_of [sample])) =
            Some sel' ∧ price sel' cachePrice = [] ∧ price sel' completionPrice = u "10".
Proof.
  destruct (toggle_off_clears FilterAll cachePrice (hook_of [sample]) sample)
    as (sel' & Hs & _ & Hc & Hk); [vm_compute; reflexivity|].
  exists sel'. split; [exact Hs|]. split.
  - apply Hc. by left.
  - rewrite Hk; [reflexivity|]. by intros [?|[? _]].
Defined.

(** A template and a model with a price of its own. *)
Definition two_models : hook :=
  mk_hook [sample; with_price (λ _, u "7") (EMPTY_MODEL (u "m"))] [u "gpt-4o"; u "m"] (u "gpt-4o") [u "m"]
    [] 1 false false ∅.

Lemma applied_models_saved_alike_witness :
  ∃ m', models (applySelectedModelPricing no_t FilterAll two_models).1.1 !! 1%nat = Some m' ∧
        name m' = u "m" ∧ price m' inputPrice = u "2.5" ∧ saved_alike no_t sample m'.
Proof.
  destruct (applied_models_saved_alike FilterAll no_t two_models sample) as (_ & Ha & _);
    [vm_compute; reflexivity|done|reflexivity|right; vm_compute; eauto|].
  destruct (models (applySelectedModelPricing no_t FilterAll two_models).1.1 !! 1%nat) as [m'|] eqn:E;
    [|discriminate E].
  exists m'. split; [done|]. assert (Hm : m' = apply_pricing sample (with_price (λ _, u "7") (EMPTY_MODEL (u "m"))))
    by (injection E as <-; reflexivity).
  split; [by rewrite Hm|]. split; [by rewrite Hm|]. apply Ha; [by eapply list_elem_of_lookup_2| |by rewrite Hm].
  rewrite Hm. apply list_elem_of_here.
Defined.

(** Typing 12 with a stored cache ratio of 0.5: the price is that of 1. *)
Definition ratios_only : model :=
  {| name := u "m"; billingMode := PerToken; price := λ _, []; lockedCompletionRatio := [];
     completionRatioLocked := false;
     rawRatios := {| modelRatio := []; completionRatio := []; cacheRatio := u "0.5";
       createCacheRatio := []; imageRatio := []; audioRatio := []; audioCompletionRatio := [] |};
     hasConflict := false |}.

Lemma first_keystroke_decides_witness :
  price (edit_field inputPrice (u "12") (edit_field inputPrice (u "1") ratios_only)) cachePrice =
    u "0.5" ∧
  price (edit_field inputPrice (u "12") ratios_only) cachePrice = u "6".
Proof.
  split; [|vm_compute; reflexivity].
  rewrite (first_keystroke_decides (u "1") (u "12") (of_Z 1) ratios_only); vm_compute; reflexivity.
Defined.
