(* ===== verification/VerifierUrl.v ===== *)
(** * The model verifier: formats and endpoints

    [web/src/pages/Verifier/verifierEngine.js], lines 54-105: which of the
    three protocols a URL and a model name stand for, and the endpoint that a
    base URL, however it is spelled, resolves to.

    The replacements are by regular expressions anchored at the end of the
    text: each cuts the text at its first suffix that the expression matches in
    full ([cut]).  The flag [i] concerns ASCII letters only, since no other
    character has an ASCII letter as its upper case in such an expression. *)

From S2P Require Import Prelude JsString JsNumber JsValue Json Encoding.

Local Open Scope Z_scope.

Inductive format := Openai | Anthropic | Google | NoFormat.

#[export] Instance format_eq_dec : EqDecision format.
Proof. solve_decision. Defined.

Section detect.
Context `{Unicode}.

Definition contains_any (s : jstr) (l : list jstr) : bool := existsb (λ p, includes p s) l.
Definition prefix_any (s : jstr) (l : list jstr) : bool := existsb (λ p, starts_with p s) l.

Definition google_marks : list jstr :=
  map u ["generativelanguage.googleapis.com"; ":generatecontent"; "/v1beta/models"].
Definition anthropic_marks : list jstr := map u ["/v1/messages"; "api.anthropic.com"].
Definition openai_marks : list jstr :=
  map u ["/v1/chat/completions"; "/chat/completions"; "api.openai.com"; "api.x.ai"; "openrouter.ai"].

Definition detectFormat (rawUrl model : jstr) : format :=
  let url := toLowerCase (trim rawUrl) in
  let m := toLowerCase (trim model) in
  if contains_any url google_marks then Google else
  if contains_any url anthropic_marks then Anthropic else
  if contains_any url openai_marks then Openai else
  if starts_with (u "claude") m then Anthropic else
  if prefix_any m (map u ["gpt"; "o1"; "o3"; "o4"]) then Openai else
  if starts_with (u "grok") m then Openai else
  if starts_with (u "gemini") m then Openai else Openai.

End detect.

(** ** Endpoints *)

(** [s.replace(/p$/, '')] *)
Fixpoint cut (p : jstr → bool) (s : jstr) : jstr :=
  if p s then [] else match s with [] => [] | c :: r => c :: cut p r end.

Definition lower (s : jstr) : jstr := map lower_unit s.

(** [/lit\/?$/i] for a literal in lower case *)
Definition lit_end (lit s : jstr) : bool := (lower s =s lit) || (lower s =s lit ++ [47]).

(** [/\/+$/] *)
Definition slashes (s : jstr) : bool := nonempty s && forallb (λ c, c =? 47) s.

(** [/\/v1beta\/models\/[^/]+:generateContent\/?$/i] *)
Definition models_prefix : jstr := u "/v1beta/models/".
Definition generate_end (s : jstr) : bool :=
  starts_with models_prefix (lower s) &&
  let r := drop (length models_prefix) s in
  existsb (λ i, forallb (λ c, negb (c =? 47)) (take i r) && lit_end (u ":generatecontent") (drop i r))
    (seq 1 (length r)).

Definition endings : list (jstr → bool) :=
  [lit_end (u "/v1/chat/completions");
   lit_end (u "/chat/completions");
   λ s, lit_end (u "/v1/message") s || lit_end (u "/v1/messages") s;
   generate_end;
   lit_end (u "/v1beta");
   lit_end (u "/v1");
   slashes].

Definition strip_endings (s : jstr) : jstr := fold_left (λ s p, cut p s) endings s.

Definition trimmed_url (rawUrl : jstr) : jstr := cut slashes (trim rawUrl).

Definition endpoint_at (base model : jstr) (f : format) : res jstr :=
  match f with
  | Anthropic => Ok (base ++ u "/v1/messages")
  | Google => rmap (λ m, base ++ u "/v1beta/models/" ++ m ++ u ":generateContent")
                (encodeURIComponent model)
  | _ => Ok (base ++ u "/v1/chat/completions")
  end.

Definition resolveEndpoint (rawUrl model : jstr) (f : format) : res jstr :=
  let trimmed := trimmed_url rawUrl in
  if negb (nonempty trimmed) then Ok [] else endpoint_at (strip_endings trimmed) model f.

Example resolve_1 :
  resolveEndpoint (u " https://x.io/V1/chat/completions// ") (u "m") Anthropic =
  Ok (u "https://x.io/v1/messages").
Proof. vm_compute. reflexivity. Qed.
Example resolve_2 :
  resolveEndpoint (u "https://x.io/v1beta/models/gem:generateContent") (u "模 型") Google =
  Ok (u "https://x.io/v1beta/models/%E6%A8%A1%20%E5%9E%8B:generateContent").
Proof. vm_compute. reflexivity. Qed.

(** ** What [cut] does *)

(** No non-empty suffix of [s] matches. *)
Definition never (p : jstr → bool) (s : jstr) : Prop := ∀ y x, s = y ++ x → x ≠ [] → p x = false.

(** No suffix of [base ++ suf] that starts within [base] matches. *)
Definition never_before (p : jstr → bool) (base suf : jstr) : Prop :=
  ∀ y x, base = y ++ x → x ≠ [] → p (x ++ suf) = false.

Lemma cut_never p s : never p s → cut p s = s.
Proof.
  induction s as [|c s IH]; intros Hn; simpl; [by destruct (p [])|].
  rewrite (Hn [] (c :: s)) by done. f_equal. apply IH. intros y x -> Hx. by apply (Hn (c :: y) x).
Qed.

Lemma cut_fixed p s : cut p s = s → never p s.
Proof.
  induction s as [|c s IH]; simpl; intros Hc y x Hs Hx.
  - by destruct y, x.
  - destruct (p (c :: s)) eqn:E; [done|]. injection Hc as Hc.
    destruct y as [|a y]; simpl in Hs; [by rewrite <- Hs|]. injection Hs as <- ->. by apply (IH Hc y x).
Qed.

Lemma cut_at p base suf :
  never_before p base suf → p suf = true → cut p (base ++ suf) = base.
Proof.
  induction base as [|c base IH]; intros Hn Hp; simpl; [by destruct suf; simpl; rewrite Hp|].
  rewrite (Hn [] (c :: base) eq_refl ltac:(done) : p (c :: base ++ suf) = false).
  f_equal. apply IH; [|done].
  intros y x -> Hx. by apply (Hn (c :: y) x).
Qed.

Lemma never_app p base suf : never_before p base suf → never p suf → never p (base ++ suf).
Proof.
  intros Hb Hs y x Heq Hx. apply app_eq_app in Heq as (l & [[-> ->]|[-> ->]]).
  - destruct l as [|c l]; [by apply (Hs [] suf)|]. by apply (Hb y (c :: l)).
  - by apply (Hs l x).
Qed.

(** ** The base of a spelled URL *)

(** A base URL that none of the expressions changes. *)
Record clean (base : jstr) : Prop := {
  clean_ne : base ≠ [];
  clean_tight : tight base;
  clean_fixed : Forall (λ p, never p base) endings;
}.

Definition clean_b (base : jstr) : bool :=
  nonempty base && (trim base =s base) && forallb (λ p, cut p base =s base) endings.

Lemma clean_b_spec base : clean_b base = true → clean base.
Proof.
  unfold clean_b, nonempty. intros. boolify. split; [done|by apply trim_fixed_iff|].
  apply Forall_forall. intros p Hp.
  match goal with H : forallb _ _ = true |- _ => rewrite forallb_forall in H; specialize (H p) end.
  apply cut_fixed, (bool_decide_eq_true_1 _). match goal with H : _ → _ |- _ => apply H end.
  by apply list_elem_of_In.
Qed.

(** The endings under which a base URL is known. *)
Inductive spelling : jstr → Prop :=
| sp_base : spelling []
| sp_chat s : lower s = u "/v1/chat/completions" → spelling s
| sp_chat' s : lower s = u "/chat/completions" → spelling s
| sp_messages s : lower s = u "/v1/messages" → spelling s
| sp_message s : lower s = u "/v1/message" → spelling s
| sp_beta s : lower s = u "/v1beta" → spelling s
| sp_v1 s : lower s = u "/v1" → spelling s
| sp_generate p m g :
    lower p = models_prefix → m ≠ [] → Forall (λ c, c ≠ 47) m → lower g = u ":generatecontent" →
    spelling (p ++ m ++ g).

Lemma lower_app a b : lower (a ++ b) = lower a ++ lower b.
Proof. apply map_app. Qed.

(** The last character decides most mismatches. *)
Lemma last_app_ne {A} (a b : list A) : b ≠ [] → last (a ++ b) = last b.
Proof. intros Hb. destruct (exists_last Hb) as (b' & x & ->). by rewrite app_assoc, !last_snoc. Qed.

Lemma lower_nil s : lower s = [] → s = [].
Proof. by destruct s. Qed.

Lemma lit_end_exact lit s :
  last (lower s) ≠ Some 47 → lit_end lit s = true → lower s = lit.
Proof.
  unfold lit_end. intros Hl H. apply orb_true_iff in H as [H|H]; boolify; [done|].
  rewrite H, last_snoc in Hl. done.
Qed.

(** A literal does not match beyond [suf] when it does not end with [suf]. *)
Lemma lit_before lit base suf :
  last (lower suf) ≠ Some 47 → suf ≠ [] →
  (∀ x, lit = lower x ++ lower suf → x ≠ [] → ∀ y, base ≠ y ++ x) →
  never_before (lit_end lit) base suf.
Proof.
  intros Hl Hs Hno y x Hb Hx. destruct (lit_end lit (x ++ suf)) eqn:E; [|done]. exfalso.
  apply lit_end_exact in E.
  - rewrite lower_app in E. by apply (Hno x (eq_sym E) Hx y).
  - rewrite lower_app, last_app_ne; [done|]. by intros ?%lower_nil.
Qed.

Lemma lit_before_self lit base suf :
  last (lower suf) ≠ Some 47 → suf ≠ [] → lower suf = lit → never_before (lit_end lit) base suf.
Proof.
  intros Hl Hs <-. apply lit_before; [done..|]. intros x E Hx. exfalso. apply Hx, lower_nil.
  by apply (app_inv_tail (lower suf)).
Qed.

Lemma lit_before_other lit base suf :
  last (lower suf) ≠ Some 47 → suf ≠ [] → starts_with (rev (lower suf)) (rev lit) = false →
  never_before (lit_end lit) base suf.
Proof.
  intros Hl Hs Hno. apply lit_before; [done..|]. intros x -> Hx. exfalso.
  by rewrite rev_app_distr, starts_with_app in Hno.
Qed.

(** Mismatch by the last character. *)
Lemma never_by_last p s c :
  (∀ x, p x = true → last (lower x) ≠ Some c) → last (lower s) = Some c → never p s.
Proof.
  intros Hp Hl y x -> Hx. destruct (p x) eqn:E; [|done]. exfalso. apply (Hp x E).
  rewrite lower_app, last_app_ne in Hl; [done|]. by intros ?%lower_nil.
Qed.

Lemma lit_end_last lit x c :
  lit_end lit x = true → c ≠ 47 → last lit ≠ Some c → last (lower x) ≠ Some c.
Proof.
  unfold lit_end. intros H Hc Hl. apply orb_true_iff in H as [H|H]; boolify; rewrite H; [done|].
  rewrite last_snoc. congruence.
Qed.

Lemma generate_end_inv s :
  generate_end s = true →
  ∃ a m g, s = a ++ m ++ g ∧ lower a = models_prefix ∧ m ≠ [] ∧ Forall (λ c, c ≠ 47) m ∧
           lit_end (u ":generatecontent") g = true.
Proof.
  unfold generate_end. intros H. apply andb_true_iff in H as [Hp H].
  apply existsb_exists in H as (i & Hi & H). apply in_seq in Hi. boolify.
  set (n := length models_prefix) in *.
  exists (take n s), (take i (drop n s)), (drop i (drop n s)).
  split_and!; [by rewrite !take_drop| | | |done].
  - unfold lower. rewrite <- firstn_map. fold (lower s). clear -Hp. subst n. revert Hp.
    generalize (lower s). generalize models_prefix. intros p.
    induction p as [|c p IH]; intros [|d s']; simpl; try done. intros. boolify. subst. by rewrite IH.
  - intros E. apply (f_equal length) in E. rewrite length_take in E. simpl in E. lia.
  - apply Forall_forall. intros c Hc.
    match goal with H : forallb _ _ = true |- _ => rewrite forallb_forall in H; specialize (H c) end.
    apply list_elem_of_In in Hc. match goal with H : _ → _ |- _ => apply H in Hc end. by boolify.
Qed.

Lemma generate_end_intro p m g :
  lower p = models_prefix → m ≠ [] → Forall (λ c, c ≠ 47) m → lower g = u ":generatecontent" →
  generate_end (p ++ m ++ g) = true.
Proof.
  intros Hp Hm Hs Hg. unfold generate_end.
  assert (Hl : length p = length models_prefix) by (rewrite <- Hp; unfold lower; by rewrite length_map).
  rewrite lower_app, Hp, starts_with_app, andb_true_l, <- Hl, drop_app_length.
  cbv zeta.
  apply existsb_exists. exists (length m). split.
  - apply in_seq. rewrite length_app. assert (length m ≠ 0%nat) by (by destruct m). lia.
  - rewrite take_app_length, drop_app_length. apply andb_true_iff. split.
    + apply forallb_forall. intros c Hc%list_elem_of_In. rewrite Forall_forall in Hs.
      apply negb_true_iff, Z.eqb_neq. by apply Hs.
    + unfold lit_end. apply orb_true_iff. left. by apply bool_decide_eq_true.
Qed.

Lemma generate_end_last x c :
  generate_end x = true → c ≠ 47 → c ≠ 116 → last (lower x) ≠ Some c.
Proof.
  intros (a & m & g & -> & _ & _ & _ & Hg)%generate_end_inv Hc Hct.
  rewrite !lower_app, app_assoc, last_app_ne.
  - eapply lit_end_last; [done..|]. intros Hq. vm_compute in Hq. congruence.
  - intros ->%lower_nil. by vm_compute in Hg.
Qed.

(** The slashes of a text. *)
Definition slash_count (s : jstr) : nat := length (List.filter (λ c, c =? 47) s).

Lemma slash_count_app a b : slash_count (a ++ b) = (slash_count a + slash_count b)%nat.
Proof. unfold slash_count. by rewrite List.filter_app, length_app. Qed.

Lemma lower_unit_slash c : (lower_unit c =? 47) = (c =? 47).
Proof.
  unfold lower_unit. destruct ((65 <=? c) && (c <=? 90)) eqn:E; [|done]. boolify.
  apply eq_true_iff_eq. rewrite !Z.eqb_eq. lia.
Qed.

Lemma slash_count_lower s : slash_count (lower s) = slash_count s.
Proof.
  unfold slash_count. induction s as [|c s IH]; simpl; [done|]. rewrite lower_unit_slash.
  destruct (c =? 47); simpl; by rewrite IH.
Qed.

Lemma slash_count_free s : Forall (λ c, c ≠ 47) s → slash_count s = 0%nat.
Proof.
  intros H. unfold slash_count. rewrite filter_none; [done|].
  eapply Forall_impl; [exact H|]. intros c Hc. by apply Z.eqb_neq.
Qed.

Lemma generate_before base p m g :
  lower p = models_prefix → Forall (λ c, c ≠ 47) m → lower g = u ":generatecontent" →
  never_before generate_end base (p ++ m ++ g).
Proof.
  intros Hp Hs Hg y x _ Hx. destruct (generate_end (x ++ p ++ m ++ g)) eqn:E; [|done]. exfalso.
  apply generate_end_inv in E as (a & m' & g' & Heq & Ha & Hm' & Hs' & Hg').
  assert (Hlast : lower g' = u ":generatecontent").
  { apply lit_end_exact; [|done]. intros Hl.
    assert (Hall : last (lower (x ++ p ++ m ++ g)) = Some 47).
    { rewrite Heq, app_assoc, lower_app, last_app_ne; [done|]. intros E. by rewrite E in Hl. }
    rewrite !app_assoc, lower_app, Hg in Hall. rewrite last_app_ne in Hall by done. done. }
  assert (Hc : slash_count (x ++ p ++ m ++ g) = slash_count (a ++ m' ++ g')) by (by rewrite Heq).
  rewrite !slash_count_app, (slash_count_free m), (slash_count_free m') in Hc by done.
  rewrite <- (slash_count_lower p), <- (slash_count_lower a), <- (slash_count_lower g),
    <- (slash_count_lower g'), Hp, Ha, Hg, Hlast in Hc.
  destruct x as [|c x]; [done|]. destruct a as [|c' a]; [done|]. injection Heq as <- _.
  injection Ha as Hc' _.
  assert (Hc47 : (c =? 47) = true) by (rewrite <- lower_unit_slash, Hc'; done).
  unfold slash_count in Hc at 1. simpl in Hc. rewrite Hc47 in Hc. simpl in Hc. lia.
Qed.

Lemma fold_cut_never ps s : Forall (λ p, never p s) ps → fold_left (λ s p, cut p s) ps s = s.
Proof. induction 1 as [|p ps Hp _ IH]; simpl; [done|]. by rewrite cut_never. Qed.

(** The expressions before the [i]-th leave the text alone, and the [i]-th cuts
    it at the base. *)
Lemma strip_at i p base suf :
  clean base → endings !! i = Some p → Forall (λ q, never q (base ++ suf)) (take i endings) →
  never_before p base suf → p suf = true → strip_endings (base ++ suf) = base.
Proof.
  intros Hc Hi Hf Hb Hp. unfold strip_endings.
  rewrite <- (take_drop_middle endings i p Hi) at 1. rewrite fold_left_app, (fold_cut_never (take i endings)) by done.
  cbn [fold_left]. rewrite cut_at by done. apply fold_cut_never, Forall_drop, (clean_fixed _ Hc).
Qed.

Lemma clean_never i p base : clean base → endings !! i = Some p → never p base.
Proof. intros Hc Hi. pose proof (clean_fixed _ Hc) as Hf. rewrite Forall_lookup in Hf. eauto. Qed.

(** The three endings in [s] whose last character does not tell them apart. *)
Lemma chat_not_v1 base suf :
  clean base → lower suf = u "/chat/completions" → never (lit_end (u "/v1/chat/completions")) (base ++ suf).
Proof.
  intros Hc Hs. assert (Hne : suf ≠ []) by (by intros ->). apply never_app.
  - apply lit_before; [by rewrite Hs|done|]. intros x E Hx y Hy.
    rewrite Hs in E. change (u "/v1/chat/completions") with (u "/v1" ++ u "/chat/completions") in E.
    apply app_inv_tail in E. pose proof (clean_never 5 _ base Hc eq_refl y x Hy Hx) as Hn.
    unfold lit_end in Hn. rewrite <- E in Hn. vm_compute in Hn. done.
  - intros y x -> Hx. destruct (lit_end _ x) eqn:E; [|done]. apply lit_end_exact in E.
    + apply (f_equal length) in Hs. apply (f_equal length) in E. unfold lower in *.
      rewrite length_map in *. rewrite length_app in Hs.
      assert (length x = 20%nat) by exact E. assert ((length y + length x = 17)%nat) by exact Hs. lia.
    + assert (Hl : last (lower (y ++ x)) = Some 115) by (by rewrite Hs).
      rewrite lower_app, last_app_ne in Hl by (by intros ?%lower_nil). congruence.
Qed.

Lemma messages_not_chat base suf lit :
  lower suf = u "/v1/messages" → lit = u "/v1/chat/completions" ∨ lit = u "/chat/completions" →
  never (lit_end lit) (base ++ suf).
Proof.
  intros Hs Hlit. assert (Hne : suf ≠ []) by (by intros ->). apply never_app.
  - apply lit_before_other; rewrite ?Hs; [done|done|]. by destruct Hlit as [->| ->].
  - intros y x -> Hx. destruct (lit_end lit x) eqn:E; [|done]. apply lit_end_exact in E.
    + apply (f_equal length) in Hs. apply (f_equal length) in E. unfold lower in *.
      rewrite length_map in *. rewrite length_app in Hs. assert ((length y + length x = 12)%nat) by exact Hs.
      destruct Hlit as [->| ->];
        [assert (length x = 20%nat) by exact E|assert (length x = 17%nat) by exact E]; lia.
    + assert (Hl : last (lower (y ++ x)) = Some 115) by (by rewrite Hs).
      rewrite lower_app, last_app_ne in Hl by (by intros ?%lower_nil). congruence.
Qed.

Lemma last_of base suf c : last (lower suf) = Some c → last (lower (base ++ suf)) = Some c.
Proof.
  intros H. rewrite lower_app, last_app_ne; [done|]. intros E. by rewrite E in H.
Qed.

Lemma never_lit base suf lit c :
  last (lower suf) = Some c → c ≠ 47 → last lit ≠ Some c → never (lit_end lit) (base ++ suf).
Proof.
  intros Hl Hc Hlit. eapply never_by_last; [|by apply last_of].
  intros x Hx. by eapply lit_end_last.
Qed.

Lemma never_or p q s : never p s → never q s → never (λ x, p x || q x) s.
Proof. intros Hp Hq y x Hs Hx. by rewrite (Hp y x), (Hq y x). Qed.

Lemma never_generate base suf c :
  last (lower suf) = Some c → c ≠ 47 → c ≠ 116 → never generate_end (base ++ suf).
Proof.
  intros Hl Hc Hct. eapply never_by_last; [|by apply last_of].
  intros x Hx. by apply generate_end_last.
Qed.

Lemma lit_end_refl lit s : lower s = lit → lit_end lit s = true.
Proof. intros <-. unfold lit_end. apply orb_true_iff. left. by apply bool_decide_eq_true. Qed.

Lemma never_before_or p q base suf :
  never_before p base suf → never_before q base suf → never_before (λ x, p x || q x) base suf.
Proof. intros Hp Hq y x Hs Hx. by rewrite (Hp y x), (Hq y x). Qed.

(** One goal per earlier expression. *)
Ltac each := repeat first [apply Forall_nil_2|apply Forall_cons_2].

(** Whatever the ending, what is left is the base. *)
Lemma strip_spelling base suf : clean base → spelling suf → strip_endings (base ++ suf) = base.
Proof.
  intros Hc Hs.
  assert (Hne : ∀ s l, lower s = l → l ≠ [] → s ≠ []) by (intros s l <- Hl ->; done).
  destruct Hs as [|s Hs|s Hs|s Hs|s Hs|s Hs|s Hs|p m g Hp Hm Hf Hg].
  - rewrite app_nil_r. apply fold_cut_never, Hc.
  - eapply (strip_at 0); [done|reflexivity|constructor| |by apply lit_end_refl].
    apply lit_before_self; [by rewrite Hs|by eapply Hne|done].
  - eapply (strip_at 1); [done|reflexivity| | |by apply lit_end_refl].
    + each. by apply chat_not_v1.
    + apply lit_before_self; [by rewrite Hs|by eapply Hne|done].
  - eapply (strip_at 2); [done|reflexivity| | |].
    + each; (apply messages_not_chat; [done|]); tauto.
    + apply never_before_or; [apply lit_before_other|apply lit_before_self];
        rewrite ?Hs; first [done|by eapply Hne].
    + cbv beta. rewrite (lit_end_refl (u "/v1/messages")) by done. apply orb_true_r.
  - eapply (strip_at 2); [done|reflexivity| | |].
    + each; (eapply never_lit; [by rewrite Hs|done|done]).
    + apply never_before_or; [apply lit_before_self|apply lit_before_other];
        rewrite ?Hs; first [done|by eapply Hne].
    + cbv beta. by rewrite (lit_end_refl (u "/v1/message")).
  - eapply (strip_at 4); [done|reflexivity| | |by apply lit_end_refl].
    + each;
        first [eapply never_lit; [by rewrite Hs|done|done]
              |eapply never_generate; [by rewrite Hs|done|done]
              |apply never_or; (eapply never_lit; [by rewrite Hs|done|done])].
    + apply lit_before_self; [by rewrite Hs|by eapply Hne|done].
  - eapply (strip_at 5); [done|reflexivity| | |by apply lit_end_refl].
    + each;
        first [eapply never_lit; [by rewrite Hs|done|done]
              |eapply never_generate; [by rewrite Hs|done|done]
              |apply never_or; (eapply never_lit; [by rewrite Hs|done|done])].
    + apply lit_before_self; [by rewrite Hs|by eapply Hne|done].
  - assert (Hl : last (lower (p ++ m ++ g)) = Some 116).
    { rewrite app_assoc, lower_app, Hg, last_app_ne by done. done. }
    eapply (strip_at 3); [done|reflexivity| |by apply generate_before|by apply generate_end_intro].
    each; first [eapply never_lit; [exact Hl|done|done]
                 |apply never_or; (eapply never_lit; [exact Hl|done|done])].
Qed.

(** ** The resolved endpoint *)

Definition text_end (s : jstr) : Prop := ∃ r c, s = r ++ [c] ∧ c ≠ 47 ∧ is_ws c = false.

Lemma text_end_app a s : text_end s → text_end (a ++ s).
Proof. intros (r & c & -> & Hc). exists (a ++ r), c. by rewrite app_assoc. Qed.

Lemma lower_last_end s c :
  last (lower s) = Some c → c = 115 ∨ c = 101 ∨ c = 97 ∨ c = 49 ∨ c = 116 → text_end s.
Proof.
  intros Hl Hc. assert (Hne : s ≠ []) by (by intros ->).
  destruct (exists_last Hne) as (r & d & ->). rewrite lower_app in Hl. simpl in Hl.
  rewrite last_snoc in Hl. injection Hl as Hl. exists r, d. split; [done|].
  unfold lower_unit in Hl. destruct ((65 <=? d) && (d <=? 90)) eqn:E.
  - boolify. assert (d = 83 ∨ d = 69 ∨ d = 65 ∨ d = 84) as [->|[->|[->| ->]]] by lia; by split.
  - subst d. destruct Hc as [->|[->|[->|[->| ->]]]]; by split.
Qed.

Lemma clean_end base : clean base → text_end base.
Proof.
  intros Hc. destruct (exists_last (clean_ne _ Hc)) as (r & d & ->). exists r, d. split; [done|]. split.
  - intros ->. pose proof (clean_never 6 _ _ Hc eq_refl r [47] eq_refl) as H. by discriminate H.
  - by apply (proj2 (clean_tight _ Hc) d r).
Qed.

Lemma spelling_end base suf : clean base → spelling suf → text_end (base ++ suf).
Proof.
  intros Hc Hs.
  destruct Hs as [|s Hs|s Hs|s Hs|s Hs|s Hs|s Hs|p m g _ _ _ Hs];
    [rewrite app_nil_r; by apply clean_end|apply text_end_app..].
  1-6: eapply lower_last_end; [by rewrite Hs|tauto].
  do 2 apply text_end_app. eapply lower_last_end; [by rewrite Hs|tauto].
Qed.

Lemma cut_slashes s k : text_end s → cut slashes (s ++ replicate k 47) = s.
Proof.
  intros (r & c & -> & Hc & _).
  assert (Hb : ∀ suf, never_before slashes (r ++ [c]) suf).
  { intros suf y x Hx Hne. destruct (exists_last Hne) as (x' & d & ->).
    rewrite app_assoc in Hx. apply app_inj_tail in Hx as [_ <-].
    unfold slashes. apply andb_false_iff. right. rewrite !forallb_app. simpl.
    apply Z.eqb_neq in Hc. rewrite Hc. by rewrite andb_false_r. }
  destruct k as [|k].
  - rewrite app_nil_r. apply cut_never. intros y x Hx Hne. rewrite <- (app_nil_r x). by apply (Hb [] y x).
  - apply cut_at; [apply Hb|]. unfold slashes. simpl. by induction k.
Qed.

Lemma tight_spelled base suf k :
  clean base → text_end (base ++ suf) → tight (base ++ suf ++ replicate k 47).
Proof.
  intros Hc (r & d & Hs & _ & Hd). rewrite app_assoc, Hs. split.
  - intros c r' E. pose proof (clean_ne _ Hc) as Hne. destruct base as [|a base]; [done|].
    apply (proj1 (clean_tight _ Hc) c base). rewrite <- Hs in E. simpl in E. by injection E as -> _.
  - intros c r' E. destruct k as [|k].
    + rewrite app_nil_r in E. by apply app_inj_tail in E as [_ <-].
    + rewrite replicate_S_end, app_assoc in E. by apply app_inj_tail in E as [_ <-].
Qed.

Lemma resolve_spelling base suf k model f :
  clean base → spelling suf →
  resolveEndpoint (base ++ suf ++ replicate k 47) model f = endpoint_at base model f.
Proof.
  intros Hc Hs. pose proof (spelling_end _ _ Hc Hs) as He. unfold resolveEndpoint, trimmed_url.
  rewrite trim_tight by (by apply tight_spelled). rewrite app_assoc, cut_slashes by done.
  rewrite strip_spelling by done. pose proof (clean_ne _ Hc). by destruct base.
Qed.

(** However the operator spells it, with or without a version, with a known
    endpoint path in any letter case and with trailing slashes, a base URL
    resolves to the same endpoint, the one of the chosen format at that base. *)
Theorem endpoint_spellings base suf k model f :
  clean base → spelling suf →
  resolveEndpoint (base ++ suf ++ replicate k 47) model f = endpoint_at base model f.
Proof. apply resolve_spelling. Qed.

(** The endpoint of a base URL, used as a base URL itself, resolves to
    itself, for the OpenAI and the Anthropic format. *)
Theorem endpoint_idempotent base model f :
  clean base → f ≠ Google →
  ∃ e, resolveEndpoint base model f = Ok e ∧ resolveEndpoint e model f = Ok e.
Proof.
  intros Hc Hf.
  assert (H0 : resolveEndpoint base model f = endpoint_at base model f).
  { pose proof (resolve_spelling base [] 0 model f Hc sp_base) as H. simpl in H.
    by rewrite app_nil_r in H. }
  rewrite H0.
  assert (H1 : ∀ s, spelling s → resolveEndpoint (base ++ s) model f = endpoint_at base model f).
  { intros s Hs. pose proof (resolve_spelling base s 0 model f Hc Hs) as H. simpl in H.
    by rewrite app_nil_r in H. }
  destruct f; [| |done|]; (eexists; split; [reflexivity|]); apply H1; by constructor.
Qed.

Definition sample_base : jstr := u "https://relay.example.com/api".

Lemma endpoint_spellings_witness :
  resolveEndpoint (sample_base ++ u "/V1/Messages" ++ replicate 2 47) (u "gpt-4o") Openai =
  Ok (u "https://relay.example.com/api/v1/chat/completions").
Proof.
  rewrite (endpoint_spellings sample_base (u "/V1/Messages") 2 (u "gpt-4o") Openai).
  - vm_compute. reflexivity.
  - apply clean_b_spec. vm_compute. reflexivity.
  - apply sp_messages. vm_compute. reflexivity.
Defined.

Lemma endpoint_idempotent_witness :
  ∃ e, resolveEndpoint sample_base (u "claude") Anthropic = Ok e ∧
       resolveEndpoint e (u "claude") Anthropic = Ok e.
Proof.
  apply (endpoint_idempotent sample_base (u "claude") Anthropic).
  - apply clean_b_spec. vm_compute. reflexivity.
  - discriminate.
Defined.
