(* ===== verification/Verifier.v ===== *)
(** * The model verifier: probes, checks and the score

    [web/src/pages/Verifier/verifierEngine.js]: one or two chat requests to the
    service under test, retried twice when the first answer is empty, and a
    score computed from the answers.

    The network is the parameter [Net]: what the service answers to a request,
    given the requests sent before.  A computation of the engine is a function
    of the requests sent so far ([IO]), so that the theorems can speak of the
    requests that were sent.  A response body that is read as a stream is the
    list of texts that the decoder gives, and how reading ended. *)

From S2P Require Import Prelude JsString JsNumber JsValue Json VerifierUrl.

Local Open Scope Z_scope.

Definition SYMBOL_PROMPT : jstr :=
  u "请直接输出一个中文右双引号字符 ”,只输出这一个字符,不要解释,不要其它任何内容。".
Definition TARIFF_PROMPT : jstr :=
  uq "不允许联网搜索。请回答:2025年3月4日特朗普把对华关税提到了多少?如果不确定就直接回答'不知道',不要编造数字。".
Definition PROBE_SYSTEM : jstr :=
  u "You are a verification probe target. Reply with ONLY the exact characters or text the user requests. No explanation, no preamble, no markdown, no code fences. Output nothing else.".
Definition PROBE_MAX_TOKENS : Z := 8192.

(** ** Patterns *)

Inductive item := RChar (c : Z) | ROpt (c : Z) | RSpaces | RSpaces1.

(** Does the pattern match at the start of the text? *)
Fixpoint match_here (p : list item) (s : jstr) : bool :=
  match p with
  | [] => true
  | RChar c :: p => match s with d :: s => (lower_unit d =? c) && match_here p s | [] => false end
  | ROpt c :: p =>
    match s with d :: s => (lower_unit d =? c) && match_here p s | [] => false end || match_here p s
  | RSpaces :: p =>
    (fix star (s : jstr) : bool :=
       match_here p s || match s with d :: s => is_ws d && star s | [] => false end) s
  | RSpaces1 :: p =>
    match s with
    | [] => false
    | d :: s =>
      is_ws d &&
      (fix star (s : jstr) : bool :=
         match_here p s || match s with d :: s => is_ws d && star s | [] => false end) s
    end
  end.

(** [p.test(s)] *)
Fixpoint test (p : list item) (s : jstr) : bool :=
  match_here p s || match s with [] => false | _ :: s => test p s end.

Definition lit (s : string) : list item := map RChar (u s).

Definition UNKNOWN_PATTERNS : list (list item) :=
  [lit "不知道"; lit "不清楚"; lit "不确定"; lit "无法确定"; lit "无法回答";
   lit "i" ++ [RSpaces] ++ lit "don" ++ [ROpt 39] ++ lit "t" ++ [RSpaces] ++ lit "know";
   lit "not" ++ [RSpaces] ++ lit "sure";
   lit "can't" ++ [RSpaces] ++ lit "tell"].

Definition REFUSAL_PATTERNS : list (list item) :=
  [lit "cannot" ++ [RSpaces1] ++ lit "discuss";
   lit "can" ++ [ROpt 39] ++ lit "t" ++ [RSpaces1] ++ lit "discuss";
   lit "cannot" ++ [RSpaces1] ++ lit "provide";
   lit "can" ++ [ROpt 39] ++ lit "t" ++ [RSpaces1] ++ lit "provide";
   lit "cannot" ++ [RSpaces1] ++ lit "answer";
   lit "can" ++ [ROpt 39] ++ lit "t" ++ [RSpaces1] ++ lit "answer";
   lit "无法讨论"; lit "拒绝回答"].

(** ** The network *)

Record request := {
  rq_method : jstr;
  rq_url : jstr;
  rq_headers : list (jstr * jstr);
  rq_body : option jstr;
}.

Record response := {
  resp_ok : bool;
  resp_status : Z;
  resp_text : res jstr;
  resp_body : option (list jstr * res unit);
  resp_elapsed : num;
}.

Inductive reply := NetFailed (message : jstr) | Replied (r : response).

Class Net := {
  respond : list request → request → reply;
  random : num;
  now_iso : jstr;
}.

Definition IO (A : Type) : Type := list request → res A * list request.

Definition iret {A} (a : A) : IO A := λ log, (Ok a, log).
Definition ithrow {A} (e : exc) : IO A := λ log, (Throw e, log).
Definition ilift {A} (r : res A) : IO A := λ log, (r, log).
Definition ibind {A B} (m : IO A) (f : A → IO B) : IO B :=
  λ log, let '(r, log) := m log in
         match r with Ok a => f a log | Throw e => (Throw e, log) end.
(** [try { m } catch { d }] *)
Definition icatch {A} (m : IO A) (d : A) : IO A :=
  λ log, let '(r, log) := m log in (Ok (rcatch r d), log).

Notation "'let*' x ':=' m 'in' k" := (ibind m (λ x, k))
  (at level 10, x pattern, m at level 100, k at level 200) : js_scope.

Definition fetch `{Net} (r : request) : IO reply := λ log, (Ok (respond log r), log ++ [r]).

(** ** Values *)

(** The text of a non-empty string, [None] for anything else. *)
Definition some_text (v : val) : option jstr :=
  match v with VStr s => if nonempty s then Some s else None | _ => None end.
Definition texts (l : list val) : list jstr := omap some_text l.

Record hints := {
  hasModel : bool;
  hasRole : bool;
  hasContentArray : bool;
  hasUsage : bool;
  hasStopReason : bool;
}.

Record probe := {
  prompt : jstr;
  responseText : jstr;
  payload : val;
  latencyMs : num;
  inputTokens : val;
  outputTokens : val;
  totalTokens : val;
  tps : num;
  parseOk : bool;
  protocolHints : hints;
}.

(** [outputTokens && latencyMs > 0 ? Number((outputTokens / (latencyMs / 1000)).toFixed(1)) : 0] *)
Definition tokens_per_second (out : val) (latency : num) : res num :=
  if truthy out && ngtb latency (of_Z 0) then
    let! n := to_num out in Ok (Number (toFixed 1 (ndiv n (ndiv latency (of_Z 1000)))))
  else Ok nzero.

Definition null_if_undef (v : val) : val := v_coalesce v VNull.
Definition str_or_null (v : val) : bool := is_str v || is_null v.

Section engine.
Context `{Unicode, Net} (t : jstr → jstr).

Definition err {A} (key : string) : IO A := ithrow (UserError (t (u key))).

(** ** Requests *)

Definition message (role content : jstr) : val :=
  VObj [(u "role", VStr role); (u "content", VStr content)].
Definition or_empty_mark (s : jstr) : jstr := if nonempty s then s else u "(empty)".

(** The conversation: the prompt, after the first question and its answer in
    the second stage. *)
Definition turns {A} (mk : jstr → jstr → A) (assistant : jstr) (prompt : jstr) (previous : option jstr)
    : list A :=
  match previous with
  | Some p => [mk (u "user") SYMBOL_PROMPT; mk assistant (or_empty_mark p); mk (u "user") prompt]
  | None => [mk (u "user") prompt]
  end.

Definition openai_messages (prompt : jstr) (previous : option jstr) : val :=
  VArr (message (u "system") PROBE_SYSTEM :: turns message (u "assistant") prompt previous).

Definition google_message (role text : jstr) : val :=
  VObj [(u "role", VStr role); (u "parts", VArr [VObj [(u "text", VStr text)]])].

Definition is_reasoning (model : jstr) : bool :=
  let m := toLowerCase model in
  prefix_any m (map u ["o1"; "o3"; "o4"; "gpt-5"]) || contains_any m (map u ["thinking"; "reasoning"]).

Definition int (n : Z) : val := VNum (of_Z n).

(** How a probe is retried. *)
Inductive retry := NoRetry | RetryHigh | RetryStream.

Definition openai_body (model prompt : jstr) (previous : option jstr) (stream : bool) (r : retry) : val :=
  VObj ([(u "model", VStr model); (u "messages", openai_messages prompt previous);
         (u "stream", VBool stream)] ++
        if is_reasoning model then
          [(u "max_completion_tokens",
             int (match r with RetryHigh | RetryStream => 65536 | NoRetry => 32768 end));
           (u "reasoning_effort", VStr (match r with RetryHigh => u "high" | _ => u "low" end))]
        else [(u "max_tokens", int PROBE_MAX_TOKENS)]).

Definition anthropic_body (model prompt : jstr) (previous : option jstr) : val :=
  VObj [(u "model", VStr model);
        (u "messages", VArr (turns message (u "assistant") prompt previous));
        (u "max_tokens", int PROBE_MAX_TOKENS); (u "stream", VBool false);
        (u "system", VStr PROBE_SYSTEM)].

Definition google_body (prompt : jstr) (previous : option jstr) : val :=
  VObj [(u "contents", VArr (turns google_message (u "model") prompt previous));
        (u "systemInstruction", VObj [(u "parts", VArr [VObj [(u "text", VStr PROBE_SYSTEM)]])]);
        (u "generationConfig", VObj [(u "maxOutputTokens", int PROBE_MAX_TOKENS)])].

Definition json_type : jstr * jstr := (u "content-type", u "application/json").

Definition probe_headers (apiKey : jstr) (f : format) : list (jstr * jstr) :=
  match f with
  | Anthropic =>
    [json_type; (u "anthropic-version", u "2023-06-01"); (u "anthropic-beta", u "context-1m-2025-08-07");
     (u "anthropic-dangerous-direct-browser-access", u "true"); (u "x-api-key", apiKey)]
  | Google => [json_type; (u "x-goog-api-key", apiKey)]
  | _ => [json_type; (u "authorization", u "Bearer " ++ apiKey)]
  end.

Definition post (url : jstr) (headers : list (jstr * jstr)) (body : val) : request :=
  {| rq_method := u "POST"; rq_url := url; rq_headers := headers; rq_body := Some (stringify_text body) |}.

Definition http_error (status : Z) (n : nat) (detail : jstr) : exc :=
  UserError (u "HTTP " ++ decZ status ++ u ": " ++ take n detail).

(** [fetch] with the network error reported to the operator *)
Definition fetch_or_fail (r : request) (prefix : jstr) : IO response :=
  let* a := fetch r in
  match a with
  | NetFailed m => ithrow (UserError (prefix ++ u ": " ++ m))
  | Replied resp => iret resp
  end.

(** ** The stream *)

Record stream := {
  contentAcc : jstr;
  reasoningAcc : jstr;
  lastChunk : val;
  modelField : val;
  s_inputTokens : val;
  s_outputTokens : val;
  s_totalTokens : val;
  s_hasRole : bool;
  s_hasStopReason : bool;
}.

Definition stream0 : stream :=
  {| contentAcc := []; reasoningAcc := []; lastChunk := VNull; modelField := VNull;
     s_inputTokens := VNull; s_outputTokens := VNull; s_totalTokens := VNull;
     s_hasRole := false; s_hasStopReason := false |}.

Definition text_of (v : val) : jstr := match v with VStr s => s | _ => [] end.
Definition str_or (v d : val) : val := if is_str v then v else d.
Definition num_or (v d : val) : val := if is_num v then v else d.

Definition chunk_event (j : val) (s : stream) : stream :=
  let choice := get_opt (get_opt j (u "choices")) (u "0") in
  let delta := v_or (v_or (get_opt choice (u "delta")) (get_opt choice (u "message"))) (VObj []) in
  let content := get_opt delta (u "content") in
  let usage := get_opt j (u "usage") in
  let count k d := if truthy usage then num_or (get_opt usage (u k)) d else d in
  {| contentAcc := contentAcc s ++
       match content with
       | VArr l => concat (map (λ it, if truthy it then text_of (get_opt it (u "text")) else []) l)
       | _ => text_of content
       end;
     reasoningAcc := reasoningAcc s ++ text_of (get_opt delta (u "reasoning_content"))
                       ++ text_of (get_opt delta (u "reasoning"));
     lastChunk := j;
     modelField := str_or (get_opt j (u "model")) (modelField s);
     s_inputTokens := count "prompt_tokens" (s_inputTokens s);
     s_outputTokens := count "completion_tokens" (s_outputTokens s);
     s_totalTokens := count "total_tokens" (s_totalTokens s);
     s_hasRole := s_hasRole s || is_str (get_opt delta (u "role"));
     s_hasStopReason := s_hasStopReason s || str_or_null (get_opt choice (u "finish_reason")) |}.

Definition stream_line (s : stream) (rawLine : jstr) : stream :=
  let line := trim rawLine in
  if negb (nonempty line) || negb (starts_with (u "data:") line) then s else
  let data := trim (drop 5 line) in
  if data =s u "[DONE]" then s else
  match JSON_parse data with Ok j => chunk_event j s | Throw _ => s end.

(** One read: the buffer and the chunk are split into lines, of which the last
    stays in the buffer. *)
Definition stream_read (st : stream * jstr) (chunk : jstr) : stream * jstr :=
  let '(s, buffer) := st in
  let lines := split_on 10 (buffer ++ chunk) in
  (fold_left stream_line (removelast lines) s, List.last lines []).

Definition stream_all (chunks : list jstr) : stream := (fold_left stream_read chunks (stream0, [])).1.

Definition stream_payload (s : stream) : val :=
  VObj [(u "__cyStreamMode", VBool true); (u "model", modelField s);
        (u "content_accumulated", VStr (contentAcc s));
        (u "reasoning_accumulated", VStr (reasoningAcc s)); (u "last_chunk", lastChunk s);
        (u "usage", VObj [(u "prompt_tokens", s_inputTokens s);
                          (u "completion_tokens", s_outputTokens s);
                          (u "total_tokens", s_totalTokens s)])].

Definition stream_probe (p : jstr) (s : stream) (latency : num) : res probe :=
  let text := if nonempty (contentAcc s) then contentAcc s else reasoningAcc s in
  let! rate := tokens_per_second (s_outputTokens s) latency in
  Ok {| prompt := p; responseText := trim text; payload := stream_payload s; latencyMs := latency;
        inputTokens := s_inputTokens s; outputTokens := s_outputTokens s;
        totalTokens := s_totalTokens s; tps := rate; parseOk := true;
        protocolHints :=
          {| hasModel := truthy (modelField s); hasRole := s_hasRole s; hasContentArray := true;
             hasUsage := negb (is_null (s_inputTokens s)) || negb (is_null (s_outputTokens s));
             hasStopReason := s_hasStopReason s |} |}.

Definition sendOpenAIStreamProbe (baseUrl apiKey model p : jstr) (previous : option jstr) : IO probe :=
  let* endpoint := ilift (resolveEndpoint baseUrl model Openai) in
  if negb (nonempty endpoint) then err "verifier.verifierError.endpointEmpty" else
  let* resp := fetch_or_fail
    (post endpoint [json_type; (u "accept", u "text/event-stream");
                    (u "authorization", u "Bearer " ++ apiKey)]
       (openai_body model p previous true RetryStream))
    (t (u "verifier.verifierError.networkFailed")) in
  if negb (resp_ok resp) then ithrow (http_error (resp_status resp) 280 (rcatch (resp_text resp) [])) else
  match resp_body resp with
  | None => err "verifier.verifierError.networkFailed"
  | Some (chunks, ended) =>
    let* _ := ilift ended in
    ilift (stream_probe p (stream_all chunks) (math_round (resp_elapsed resp)))
  end.

(** ** Reading an answer *)

Record extracted := {
  x_text : jstr;
  x_payload : val;
  x_in : val;
  x_out : val;
  x_total : val;
  x_hints : hints;
}.

Definition anthropic_block (b : val) : list jstr :=
  if truthy b && typeof_object b then
    take 1 (texts [get_opt b (u "text"); get_opt b (u "thinking"); get_opt b (u "content")])
  else [].

Definition extract_anthropic (p : val) : res extracted :=
  let! content := get p (u "content") in
  let blocks := match content with VArr l => l | _ => [] end in
  let text := trim (join [10] (flat_map anthropic_block blocks)) in
  let text := if nonempty text then text else trim (text_of (get_opt p (u "completion"))) in
  let usage := get_opt p (u "usage") in
  let inp := null_if_undef (get_opt usage (u "input_tokens")) in
  let out := null_if_undef (get_opt usage (u "output_tokens")) in
  let! total := if is_nullish inp || is_nullish out then Ok VNull else js_add inp out in
  Ok {| x_text := text; x_payload := p; x_in := inp; x_out := out; x_total := total;
        x_hints := {| hasModel := is_str (get_opt p (u "model")); hasRole := is_str (get_opt p (u "role"));
                      hasContentArray := is_arr content;
                      hasUsage := truthy usage && typeof_object usage;
                      hasStopReason := str_or_null (get_opt p (u "stop_reason")) |} |}.

(** [parts.filter] of a value that has no such method throws. *)
Definition google_parts (first : val) : res (list val) :=
  match v_or (get_opt (get_opt first (u "content")) (u "parts")) (VArr []) with
  | VArr l => Ok l
  | _ => Throw TypeError
  end.

Definition extract_google (p : val) : res extracted :=
  let cands := match get_opt p (u "candidates") with VArr l => l | _ => [] end in
  let first := default VUndef (cands !! 0%nat) in
  let! parts := google_parts first in
  let text := trim (join [10] (map (λ q, text_of (get_opt q (u "text")))
                (List.filter (λ q, truthy q && is_str (get_opt q (u "text"))) parts))) in
  let usage := get_opt p (u "usageMetadata") in
  Ok {| x_text := text; x_payload := p;
        x_in := null_if_undef (get_opt usage (u "promptTokenCount"));
        x_out := null_if_undef (get_opt usage (u "candidatesTokenCount"));
        x_total := null_if_undef (get_opt usage (u "totalTokenCount"));
        x_hints := {| hasModel := truthy (get_opt p (u "modelVersion")) || (0 <? Z.of_nat (length cands));
                      hasRole := is_str (get_opt (get_opt first (u "content")) (u "role"));
                      hasContentArray := true;
                      hasUsage := truthy usage;
                      hasStopReason := is_str (get_opt first (u "finishReason")) |} |}.

(** The fields an OpenAI-compatible service may answer in, in the order they
    are read. *)
Definition openai_content (msg : val) : list jstr :=
  match get_opt msg (u "content") with
  | VArr l => flat_map (λ it, if truthy it then texts [get_opt it (u "text")] else []) l
  | v => texts [v]
  end.
Definition openai_reasoning (msg : val) : list jstr :=
  texts [get_opt msg (u "reasoning_content"); get_opt msg (u "reasoning")] ++
  match get_opt msg (u "reasoning_details") with
  | VArr l => flat_map (λ it, if truthy it then texts [get_opt it (u "text"); get_opt it (u "summary")]
                              else []) l
  | _ => []
  end.
Definition openai_parts (choice msg : val) : list jstr :=
  match openai_content msg ++ openai_reasoning msg with
  | [] => match get_opt choice (u "text") with VStr s => [s] | _ => [] end
  | parts => parts
  end.

Definition mark_empty (p : val) : val :=
  match p with VObj o => VObj (obj_set o (u "__cyEmptyReasoning") (VBool true)) | _ => p end.

Definition extract_openai (p : val) : extracted :=
  let choice := get_opt (get_opt p (u "choices")) (u "0") in
  let msg := v_or (get_opt choice (u "message")) (VObj []) in
  let text := trim (join [10] (openai_parts choice msg)) in
  let usage := get_opt p (u "usage") in
  let empty :=
    negb (nonempty text) &&
    match get_opt (get_opt usage (u "completion_tokens_details")) (u "reasoning_tokens") with
    | VNum n => ngtb n (of_Z 0)
    | _ => false
    end in
  {| x_text := text; x_payload := if empty then mark_empty p else p;
     x_in := null_if_undef (get_opt usage (u "prompt_tokens"));
     x_out := null_if_undef (get_opt usage (u "completion_tokens"));
     x_total := null_if_undef (get_opt usage (u "total_tokens"));
     x_hints := {| hasModel := is_str (get_opt p (u "model"));
                   hasRole := is_str (get_opt (get_opt choice (u "message")) (u "role"));
                   hasContentArray := is_arr (get_opt p (u "choices"));
                   hasUsage := truthy usage && typeof_object usage;
                   hasStopReason := str_or_null (get_opt choice (u "finish_reason")) |} |}.

Definition extract (f : format) (p : val) : res extracted :=
  match f with
  | Anthropic => extract_anthropic p
  | Google => extract_google p
  | _ => Ok (extract_openai p)
  end.

(** The detail of an error response: the first truthy of the given values, the
    raw text when there is none or it is not JSON. *)
Definition error_detail (fields : val → list val) (rawText : jstr) : val :=
  match JSON_parse rawText with
  | Ok j => fold_right v_or (VStr rawText) (fields j)
  | Throw _ => VStr rawText
  end.

Definition probe_error_fields (j : val) : list val :=
  let e := get_opt j (u "error") in
  [get_opt e (u "message"); get_opt e (u "detail"); get_opt j (u "message")].

Definition is_openai (f : format) : bool := bool_decide (f = Openai ∨ f = NoFormat).

Definition sendProbe (baseUrl apiKey model : jstr) (f : format) (p : jstr) (previous : option jstr)
    (r : retry) : IO probe :=
  let* endpoint := ilift (resolveEndpoint baseUrl model f) in
  if negb (nonempty endpoint) then err "verifier.verifierError.endpointEmpty" else
  if is_openai f && match r with RetryStream => true | _ => false end
  then sendOpenAIStreamProbe baseUrl apiKey model p previous else
  let body := match f with
              | Anthropic => anthropic_body model p previous
              | Google => google_body p previous
              | _ => openai_body model p previous false r
              end in
  let* resp := fetch_or_fail (post endpoint (probe_headers apiKey f) body)
                 (t (u "verifier.verifierError.networkFailed")) in
  let latency := math_round (resp_elapsed resp) in
  let* rawText := ilift (resp_text resp) in
  if negb (resp_ok resp) then
    let* detail := ilift (to_str (error_detail probe_error_fields rawText)) in
    ithrow (http_error (resp_status resp) 280 detail)
  else
  match JSON_parse rawText with
  | Throw _ => err "verifier.verifierError.invalidJson"
  | Ok pl =>
    let* x := ilift (extract f pl) in
    let* rate := ilift (tokens_per_second (x_out x) latency) in
    iret {| prompt := p; responseText := x_text x; payload := x_payload x; latencyMs := latency;
            inputTokens := x_in x; outputTokens := x_out x; totalTokens := x_total x; tps := rate;
            parseOk := true; protocolHints := x_hints x |}
  end.

(** ** Checks *)

Inductive status := Pass | Warning | Failed.

(** [Math.round(weight * 0.5)] of an integer weight *)
Definition statusToScore (s : status) (weight : Z) : Z :=
  match s with Pass => weight | Warning => (weight + 1) / 2 | Failed => 0 end.

Definition isUnknownResponse (text : jstr) : bool :=
  let n := trim text in
  negb (nonempty n) ||
  (Z.of_nat (length (List.filter (λ c, negb (is_ws c)) n)) <? 4) ||
  existsb (λ p, test p n) UNKNOWN_PATTERNS ||
  existsb (λ p, test p n) REFUSAL_PATTERNS.

Definition isTariffAnswerValid (text : jstr) : bool := isUnknownResponse text.

Record check := { key : jstr; check_name : jstr; check_status : status; detail : jstr }.

Definition hint_bits (h : hints) : list bool :=
  [hasModel h; hasRole h; hasContentArray h; hasUsage h; hasStopReason h].

Definition protocol_status (stage1 : probe) (stage2 : option probe) : status :=
  let bits := hint_bits (protocolHints stage1) ++
              match stage2 with Some s => hint_bits (protocolHints s) | None => [] end in
  let protocolBits := Z.of_nat (length (List.filter (λ b : bool, b) bits)) in
  if 8 <=? protocolBits then Pass else if 5 <=? protocolBits then Warning else Failed.

Definition response_status (stage1 : probe) (stage2 : option probe) : status :=
  match stage2 with
  | Some s => if parseOk stage1 && parseOk s then Pass else Failed
  | None => if parseOk stage1 then Warning else Failed
  end.

Definition pass_if (b : bool) : status := if b then Pass else Failed.

Definition mk_check (k : string) (s : status) (pass warn fail : string) : check :=
  {| key := u k; check_name := t (u "verifier.check." ++ u k); check_status := s;
     detail := t (u "verifier.check." ++
                  match s with Pass => u pass | Warning => u warn | Failed => u fail end) |}.

Definition buildChecks (stage1 : probe) (stage2 : option probe) (stage1Pass stage2Pass : bool)
    : list check * Z :=
  let protocolStatus := protocol_status stage1 stage2 in
  let responseStructureStatus := response_status stage1 stage2 in
  let knowledgeCutoffStatus := if stage1Pass then pass_if stage2Pass else Failed in
  let identityStatus := pass_if stage1Pass in
  let checks :=
    [mk_check "identity" identityStatus "identityPass" "identityFail" "identityFail";
     mk_check "knowledge" knowledgeCutoffStatus "knowledgePass" "knowledgeFail" "knowledgeFail";
     mk_check "protocol" protocolStatus "protocolPass" "protocolWarn" "protocolFail";
     mk_check "response" responseStructureStatus "responsePass" "responseWarn" "responseFail"] in
  let weighted := statusToScore identityStatus 45 + statusToScore knowledgeCutoffStatus 35 +
                  statusToScore protocolStatus 12 + statusToScore responseStructureStatus 8 in
  let weighted := if negb stage1Pass then Z.min weighted 35
                  else if negb stage2Pass then Z.min weighted 70 else weighted in
  (checks, Z.max 0 (Z.min 100 weighted)).

(** ** The entry point *)

Record verdict := {
  v_id : jstr;
  score : Z;
  checks : list check;
  latency : num;
  v_tps : num;
  v_inputTokens : val;
  v_outputTokens : val;
  stage1Reply : jstr;
  stage2Reply : option jstr;
  stage1Raw : val;
  stage2Raw : val;
  v_format : format;
  v_model : jstr;
  v_endpoint : jstr;
  timestamp : jstr;
}.

Definition or_zero (v : val) : val := v_coalesce v (int 0).

(** The first stage with its two retries. *)
Definition first_stage (baseUrl apiKey model : jstr) (f : format) : IO probe :=
  let send r := sendProbe baseUrl apiKey model f SYMBOL_PROMPT None r in
  let* stage1 := send NoRetry in
  let* stage1 :=
    if negb (nonempty (responseText stage1)) &&
       truthy (get_opt (payload stage1) (u "__cyEmptyReasoning"))
    then send RetryHigh else iret stage1 in
  let* stage1 :=
    if negb (nonempty (responseText stage1)) && is_openai f
    then icatch (send RetryStream) stage1 else iret stage1 in
  if negb (nonempty (responseText stage1)) then err "verifier.verifierError.emptyReasoning"
  else iret stage1.

Definition closing_quote : jstr := u "”".

Definition finish (baseUrl model : jstr) (f : format) (stage1 : probe) (stage2 : option probe)
    (stage1Pass stage2Pass : bool) : res verdict :=
  let '(cs, sc) := buildChecks stage1 stage2 stage1Pass stage2Pass in
  let of2 {A} (g : probe → A) (d : A) := match stage2 with Some s => g s | None => d end in
  let! inp := js_add (or_zero (inputTokens stage1)) (or_zero (of2 inputTokens VUndef)) in
  let! out := js_add (or_zero (outputTokens stage1)) (or_zero (of2 outputTokens VUndef)) in
  Ok {| v_id := 35 :: num_to_string (math_floor (nadd (of_Z 100000) (nmul random (of_Z 900000))));
        score := sc; checks := cs;
        latency := match stage2 with
                   | Some s => math_round (ndiv (nadd (latencyMs stage1) (latencyMs s)) (of_Z 2))
                   | None => latencyMs stage1
                   end;
        v_tps := match stage2 with
                 | Some s => Number (toFixed 1 (ndiv (nadd (tps stage1) (tps s)) (of_Z 2)))
                 | None => tps stage1
                 end;
        v_inputTokens := inp; v_outputTokens := out; stage1Reply := responseText stage1;
        stage2Reply := match stage2 with
                       | Some s => if nonempty (responseText s) then Some (responseText s) else None
                       | None => None
                       end;
        stage1Raw := payload stage1;
        stage2Raw := match stage2 with Some s => v_or (payload s) VNull | None => VNull end;
        v_format := f; v_model := model; v_endpoint := baseUrl; timestamp := now_iso |}.

Definition runVerification (baseUrl apiKey model : jstr) (f : format) : IO verdict :=
  let* stage1 := first_stage baseUrl apiKey model f in
  let stage1Pass := includes closing_quote (responseText stage1) in
  if stage1Pass then
    let* stage2 := sendProbe baseUrl apiKey model f TARIFF_PROMPT (Some (responseText stage1)) NoRetry in
    ilift (finish baseUrl model f stage1 (Some stage2) true (isTariffAnswerValid (responseText stage2)))
  else ilift (finish baseUrl model f stage1 None false false).

(** ** Model discovery *)

Definition models_request (trimmed apiKey : jstr) (f : format) : request :=
  let base := strip_endings trimmed in
  let get_ path headers :=
    {| rq_method := u "GET"; rq_url := base ++ u path; rq_headers := headers; rq_body := None |} in
  match f with
  | Google => get_ "/v1beta/models" [(u "x-goog-api-key", apiKey)]
  | Anthropic => get_ "/v1/models" [(u "x-api-key", apiKey); (u "anthropic-version", u "2023-06-01");
                                    (u "anthropic-dangerous-direct-browser-access", u "true")]
  | _ => get_ "/v1/models" [(u "authorization", u "Bearer " ++ apiKey)]
  end.

(** [s.replace(/^models\//, '')] *)
Definition drop_models (s : jstr) : jstr :=
  if starts_with (u "models/") s then drop 7 s else s.

Definition model_ids (f : format) (p : val) : list jstr :=
  let arr k := match get_opt p (u k) with VArr l => l | _ => [] end in
  match f with
  | Google => List.filter nonempty
                (omap (λ m, match get_opt m (u "name") with VStr s => Some (drop_models s) | _ => None end)
                   (arr "models"))
  | _ => List.filter nonempty
           (omap (λ m, match get_opt m (u "id") with VStr s => Some s | _ => None end) (arr "data"))
  end.

Definition models_error_fields (j : val) : list val :=
  [get_opt (get_opt j (u "error")) (u "message"); get_opt j (u "message")].

Definition sort_ids (l : list jstr) : list jstr := sort_by (λ a b, localeCompare a b <=? 0) (set_array l).

Definition fetchAvailableModels (baseUrl apiKey : jstr) (f : format) : IO (list jstr) :=
  let trimmed := trimmed_url baseUrl in
  if negb (nonempty trimmed) then ithrow (UserError (u "API endpoint is empty")) else
  if negb (nonempty apiKey) then ithrow (UserError (u "API key is empty")) else
  let* resp := fetch_or_fail (models_request trimmed apiKey f) (u "Network") in
  let* rawText := ilift (resp_text resp) in
  if negb (resp_ok resp) then
    let* detail := ilift (to_str (error_detail models_error_fields rawText)) in
    ithrow (http_error (resp_status resp) 200 detail)
  else
  match JSON_parse rawText with
  | Throw _ => ithrow (UserError (u "Response is not JSON"))
  | Ok p => iret (sort_ids (model_ids f p))
  end.

End engine.

(** ** The stream does not depend on how it is cut into chunks *)

Lemma split_on_step c x s :
  split_on c (x :: s) =
  if x =? c then [] :: split_on c s
  else (x :: List.hd [] (split_on c s)) :: List.tl (split_on c s).
Proof.
  simpl. destruct (x =? c); [done|]. pose proof (split_on_ne c s). by destruct (split_on c s).
Qed.

Lemma split_on_append c a b :
  split_on c (a ++ b) = removelast (split_on c a) ++ split_on c (List.last (split_on c a) [] ++ b).
Proof.
  induction a as [|x a IH]; [done|]. cbn [app]. rewrite !split_on_step, IH.
  pose proof (split_on_ne c a) as Hne. destruct (split_on c a) as [|seg segs]; [done|].
  destruct (x =? c) eqn:E; [done|]. destruct segs as [|s2 segs]; [|done].
  simpl. rewrite E. pose proof (split_on_ne c (seg ++ b)). by destruct (split_on c (seg ++ b)).
Qed.

(** The state after the chunks: the complete lines are processed, the last one
    waits in the buffer. *)
Lemma stream_fold cs s b :
  10 ∉ b →
  fold_left stream_read cs (s, b) =
  (fold_left stream_line (removelast (split_on 10 (b ++ concat cs))) s,
   List.last (split_on 10 (b ++ concat cs)) []).
Proof.
  revert s b. induction cs as [|c cs IH]; intros s b Hb; simpl.
  - rewrite app_nil_r, split_on_free by done. done.
  - assert (Hl : 10 ∉ List.last (split_on 10 (b ++ c)) []).
    { assert (Hf : Forall (λ x, 10 ∉ x) (split_on 10 (b ++ c))).
      { generalize (b ++ c). intros l. induction l as [|x l IHl]; simpl; [repeat constructor; set_solver|].
        destruct (Z.eqb_spec x 10); [constructor; [set_solver|done]|].
        destruct IHl as [|seg segs Hseg Hsegs]; constructor; [set_solver|set_solver|set_solver|done]. }
      pose proof (split_on_ne 10 (b ++ c)) as Hne. destruct (exists_last Hne) as (l & x & E).
      rewrite E, List.last_last. rewrite E, Forall_app in Hf. destruct Hf as [_ Hf].
      by apply Forall_inv in Hf. }
    rewrite IH by done. rewrite app_assoc, (split_on_append 10 (b ++ c) (concat cs)).
    pose proof (split_on_ne 10 (List.last (split_on 10 (b ++ c)) [] ++ concat cs)) as Hne.
    rewrite List.removelast_app by done. rewrite fold_left_app. f_equal.
    destruct (exists_last Hne) as (l & x & ->). by rewrite app_assoc, !List.last_last.
Qed.

(** C26: The result of reading a stream depends on the text only, not on how the
    network cut it into chunks: it is that of processing, one after the other,
    the lines of the whole text that are complete. *)
Theorem stream_is_lines cs :
  stream_all cs = fold_left stream_line (removelast (split_on 10 (concat cs))) stream0.
Proof. unfold stream_all. rewrite stream_fold by set_solver. done. Qed.

(** ** Answers *)

Lemma blank_join l :
  Forall (λ c, is_ws c = true) (join [10] l) ↔ Forall (λ s, trim s = []) l.
Proof.
  induction l as [|x [|y l] IH]; [done| |].
  - simpl. rewrite list.Forall_singleton. symmetry. apply trim_nil.
  - change (join [10] (x :: y :: l)) with (x ++ [10] ++ join [10] (y :: l)).
    rewrite !Forall_app, list.Forall_singleton, IH, (list.Forall_cons _ x), trim_nil. naive_solver.
Qed.

(** An OpenAI-compatible answer counts as empty exactly when every field a
    text can be in, the content, the reasoning fields and the legacy text, is
    missing or blank. *)
Theorem openai_text_empty p :
  let choice := get_opt (get_opt p (u "choices")) (u "0") in
  x_text (extract_openai p) = [] ↔
  Forall (λ s, trim s = []) (openai_parts choice (v_or (get_opt choice (u "message")) (VObj []))).
Proof. simpl. rewrite trim_nil. apply blank_join. Qed.

(** *** What an answer says

    The readings of an answer that the verdict is compared with: an admission
    is one of these phrases anywhere in it, in any case of its letters; a claim
    has at least four characters that are not blank, and neither a Latin letter
    nor one of the three characters that begin a Chinese refusal. *)
Definition admissions : list jstr :=
  [u "不知道"; u "不清楚"; u "不确定"; u "无法确定"; u "无法回答"; u "无法讨论"; u "拒绝回答";
   u "i don't know"; u "i dont know"; u "not sure"; u "can't tell"; u "cannot discuss";
   u "can't discuss"; u "cannot provide"; u "can't provide"; u "cannot answer"; u "can't answer"].
Definition admits (text : jstr) : bool :=
  existsb (λ p, includes p (map lower_unit text)) admissions.

Definition latin (c : Z) : bool := (97 <=? lower_unit c) && (lower_unit c <=? 122).
Definition claims (text : jstr) : bool :=
  (4 <=? length (List.filter (λ c, negb (is_ws c)) text))%nat &&
  forallb (λ c, negb (latin c) && negb (bool_decide (c ∈ u "不无拒"))) text.

Lemma lower_ws c : is_ws (lower_unit c) = is_ws c.
Proof. unfold lower_unit. destruct (_ && _) eqn:E; [|done]. unfold is_ws. lia. Qed.

Lemma lower_unit_idem c : lower_unit (lower_unit c) = lower_unit c.
Proof.
  unfold lower_unit. destruct ((65 <=? c) && (c <=? 90)) eqn:E; [|by rewrite E].
  destruct ((65 <=? c + 32) && _) eqn:E'; lia.
Qed.

Lemma match_lower p s : match_here p (map lower_unit s) = match_here p s.
Proof.
  revert s. induction p as [|[c|c| |] p IH]; intros s; [done|..].
  - destruct s as [|d s]; [done|]. cbn [map match_here]. by rewrite lower_unit_idem, IH.
  - cbn [match_here]. rewrite IH. destruct s as [|d s]; [done|]. cbn [map]. by rewrite lower_unit_idem, IH.
  - cbn [match_here]. induction s as [|d s IHs]; [done|].
    cbn [map]. rewrite <- IHs, lower_ws. f_equal. apply (IH (d :: s)).
  - cbn [match_here]. destruct s as [|d s]; [done|]. cbn [map]. rewrite lower_ws. f_equal.
    induction s as [|d' s IHs]; [done|].
    cbn [map]. rewrite <- IHs, lower_ws. f_equal. apply (IH (d' :: s)).
Qed.

Lemma test_lower p s : test p (map lower_unit s) = test p s.
Proof.
  induction s as [|d s IH]; [done|]. pose proof (match_lower p (d :: s)) as Hm. cbn [map] in Hm.
  cbn [map test]. by rewrite IH, Hm.
Qed.

Lemma test_app p a s : match_here p s = true → test p (a ++ s) = true.
Proof.
  intros Hm. induction a as [|c a IH]; simpl; [destruct s; cbn [test]; by rewrite Hm|].
  rewrite IH. apply orb_true_r.
Qed.

Lemma trim_start_map f s : (∀ c, is_ws (f c) = is_ws c) → trim_start (map f s) = map f (trim_start s).
Proof. intros Hf. induction s as [|c s IH]; simpl; [done|]. rewrite Hf. by destruct (is_ws c). Qed.

Lemma trim_map f s : (∀ c, is_ws (f c) = is_ws c) → trim (map f s) = map f (trim s).
Proof.
  intros Hf. unfold trim, trim_end. by rewrite trim_start_map, <- map_rev, trim_start_map, map_rev.
Qed.

Lemma trim_start_keeps a x r : is_ws x = false → ∃ a', trim_start (a ++ x :: r) = a' ++ x :: r.
Proof.
  intros Hx. induction a as [|c a [a' IH]]; simpl; [rewrite Hx; by exists []|].
  destruct (is_ws c); [by exists a'|by exists (c :: a)].
Qed.

(** Trimming keeps a phrase that neither begins nor ends with a blank. *)
Lemma trim_includes x m y s :
  is_ws x = false → is_ws y = false →
  includes (x :: m ++ [y]) s = true → includes (x :: m ++ [y]) (trim s) = true.
Proof.
  intros Hx Hy (a & b & ->)%includes_spec. apply includes_spec. unfold trim, trim_end.
  change ((x :: m ++ [y]) ++ b) with (x :: (m ++ [y]) ++ b).
  destruct (trim_start_keeps a x ((m ++ [y]) ++ b) Hx) as [a' ->].
  assert (Hr : rev (a' ++ x :: (m ++ [y]) ++ b) = rev b ++ y :: (rev m ++ [x] ++ rev a')).
  { rewrite rev_app_distr. cbn [rev]. rewrite !rev_app_distr. cbn [rev app]. by rewrite <- !app_assoc. }
  rewrite Hr. destruct (trim_start_keeps (rev b) y (rev m ++ [x] ++ rev a') Hy) as [b' ->].
  exists a', (rev b'). rewrite rev_app_distr. cbn [rev].
  rewrite !rev_app_distr, !rev_involutive. cbn [rev app]. by rewrite <- !app_assoc.
Qed.

(** Every phrase is matched by a pattern, whatever follows it. *)
Lemma admissions_match :
  Forall (λ p, (∃ x m y, p = x :: m ++ [y] ∧ is_ws x = false ∧ is_ws y = false) ∧
    ∃ q, q ∈ UNKNOWN_PATTERNS ++ REFUSAL_PATTERNS ∧ ∀ r, match_here q (p ++ r) = true) admissions.
Proof.
  assert (Hends : Forall (λ p, ∃ x m y, p = x :: m ++ [y] ∧ is_ws x = false ∧ is_ws y = false) admissions).
  { repeat first [apply Forall_nil_2|apply Forall_cons_2];
      match goal with |- ∃ x m y, ?p = _ ∧ _ =>
        let p' := eval vm_compute in p in
        exists (hd 0 p'), (removelast (tl p')), (List.last p' 0) end; by vm_compute. }
  apply Forall_and. split; [exact Hends|].
  repeat first [apply Forall_nil_2|apply Forall_cons_2].
  all: let go n := (exists (nth n (UNKNOWN_PATTERNS ++ REFUSAL_PATTERNS) []);
                    split; [apply list_elem_of_In, nth_In; vm_compute; lia|intros r; vm_compute; reflexivity]) in
       first [go 0%nat|go 1%nat|go 2%nat|go 3%nat|go 4%nat|go 5%nat|go 6%nat|go 7%nat|go 8%nat|go 9%nat
             |go 10%nat|go 11%nat|go 12%nat|go 13%nat|go 14%nat|go 15%nat].
Qed.

Lemma unknown_by_pattern text q :
  q ∈ UNKNOWN_PATTERNS ++ REFUSAL_PATTERNS → test q (trim text) = true → isTariffAnswerValid text = true.
Proof.
  intros Hq Ht. unfold isTariffAnswerValid, isUnknownResponse.
  assert (He : existsb (λ p, test p (trim text)) (UNKNOWN_PATTERNS ++ REFUSAL_PATTERNS) = true).
  { apply existsb_exists. exists q. split; [by apply list_elem_of_In|done]. }
  rewrite existsb_app in He. rewrite <- orb_assoc, He. apply orb_true_r.
Qed.

Lemma admission_valid text : admits text = true → isTariffAnswerValid text = true.
Proof.
  intros (p & Hp & Hin)%existsb_exists. apply list_elem_of_In in Hp.
  pose proof admissions_match as Ha. rewrite list.Forall_forall in Ha.
  destruct (Ha _ Hp) as [(x & m & y & -> & Hx & Hy) (q & Hq & Hm)].
  apply (trim_includes x m y _ Hx Hy) in Hin. rewrite trim_map in Hin by apply lower_ws.
  apply includes_spec in Hin as (a & b & Hab). apply (unknown_by_pattern text q Hq).
  rewrite <- test_lower, Hab. apply test_app, Hm.
Qed.

Lemma nonblank_trim_start s :
  List.filter (λ c, negb (is_ws c)) (trim_start s) = List.filter (λ c, negb (is_ws c)) s.
Proof. induction s as [|c s IH]; simpl; [done|]. destruct (is_ws c) eqn:E; simpl; [done|by rewrite E]. Qed.

Lemma nonblank_trim s :
  length (List.filter (λ c, negb (is_ws c)) (trim s)) = length (List.filter (λ c, negb (is_ws c)) s).
Proof.
  unfold trim, trim_end. rewrite List.filter_rev, length_rev, nonblank_trim_start, List.filter_rev, length_rev.
  by rewrite nonblank_trim_start.
Qed.

(** Every pattern begins with a letter or with one of three characters. *)
Lemma patterns_begin :
  Forall (λ q, ∃ c r, q = RChar c :: r ∧ (97 <=? c) && (c <=? 122) || bool_decide (c ∈ u "不无拒") = true)
    (UNKNOWN_PATTERNS ++ REFUSAL_PATTERNS).
Proof.
  repeat first [apply Forall_nil_2|apply Forall_cons_2]; by eexists _, _.
Qed.

Lemma claim_no_match text q :
  forallb (λ c, negb (latin c) && negb (bool_decide (c ∈ u "不无拒"))) text = true →
  q ∈ UNKNOWN_PATTERNS ++ REFUSAL_PATTERNS → test q text = false.
Proof.
  intros Ht Hq. pose proof patterns_begin as Hb. rewrite list.Forall_forall in Hb.
  destruct (Hb _ Hq) as (c & r & -> & Hc). induction text as [|d text IH]; [done|].
  cbn [forallb] in Ht. apply andb_true_iff in Ht as [Hd Ht]. cbn [test]. rewrite (IH Ht), orb_false_r.
  cbn [match_here]. destruct (lower_unit d =? c) eqn:E; [|done].
  apply Z.eqb_eq in E as <-. exfalso. unfold latin in Hd.
  destruct ((97 <=? lower_unit d) && (lower_unit d <=? 122)) eqn:El; [done|]. cbn [orb negb andb] in Hc, Hd.
  unfold lower_unit in Hc, El. destruct ((65 <=? d) && (d <=? 90)) eqn:Eu; [lia|].
  rewrite Hc in Hd. done.
Qed.

Lemma trim_forallb f s : forallb f s = true → forallb f (trim s) = true.
Proof.
  assert (Hs : ∀ s, forallb f s = true → forallb f (trim_start s) = true).
  { induction s0 as [|c s0 IH]; simpl; [done|]. intros Hf. destruct (is_ws c); [|done].
    by apply IH; apply andb_true_iff in Hf as [_ ?]. }
  intros Hf%Hs. unfold trim, trim_end. rewrite !forallb_forall in *. intros x Hx%in_rev.
  assert (Hr : forallb f (rev (trim_start s)) = true).
  { apply forallb_forall. intros y Hy%in_rev. by apply Hf. }
  apply Hs in Hr. rewrite forallb_forall in Hr. by apply Hr.
Qed.

Lemma claim_invalid text : claims text = true → isTariffAnswerValid text = false.
Proof.
  intros [Hl Hf]%andb_true_iff. apply Nat.leb_le in Hl. rewrite <- nonblank_trim in Hl.
  unfold isTariffAnswerValid, isUnknownResponse. apply trim_forallb in Hf. rewrite <- !orb_assoc, <- existsb_app.
  assert (He : existsb (λ p, test p (trim text)) (UNKNOWN_PATTERNS ++ REFUSAL_PATTERNS) = false).
  { apply not_true_iff_false. intros (q & Hq & Ht)%existsb_exists. apply list_elem_of_In in Hq.
    by rewrite claim_no_match in Ht. }
  rewrite He. destruct (Z.ltb_spec (Z.of_nat (length (List.filter (λ c, negb (is_ws c)) (trim text)))) 4); [lia|].
  by destruct (trim text).
Qed.

(** Every answer with fewer than four characters that are not white space
    passes the knowledge check, a bare percentage among them. *)
Theorem short_answer_passes text :
  (length (List.filter (λ c, negb (is_ws c)) (trim text)) < 4)%nat → isTariffAnswerValid text = true.
Proof.
  intros Hl. unfold isTariffAnswerValid, isUnknownResponse.
  assert (Hlt : (Z.of_nat (length (List.filter (λ c, negb (is_ws c)) (trim text))) <? 4) = true)
    by (apply Z.ltb_lt; lia).
  rewrite Hlt. by destruct (negb (nonempty (trim text))).
Qed.

Lemma short_answer_passes_witness : isTariffAnswerValid (u " 20% ") = true.
Proof. apply (short_answer_passes (u " 20% ")). vm_compute. lia. Defined.

(** ** What a run does

    [runs P n Q m]: the computation [m] sends at most [n] requests, all of them
    satisfying [P], and a result it returns satisfies [Q]. *)

Definition runs {A} (P : request → Prop) (n : nat) (Q : A → Prop) (m : IO A) : Prop :=
  ∀ log, ∃ sent, (m log).2 = log ++ sent ∧ (length sent ≤ n)%nat ∧ Forall P sent ∧
                 ∀ a, (m log).1 = Ok a → Q a.

Section runs.
Context (P : request → Prop).

Lemma runs_ret {A} (Q : A → Prop) a : Q a → runs P 0 Q (iret a).
Proof. intros HQ log. exists []. rewrite app_nil_r. split_and!; [done..|]. by intros ? [= <-]. Qed.

Lemma runs_throw {A} (Q : A → Prop) n e : runs P n Q (ithrow e).
Proof. intros log. exists []. rewrite app_nil_r. split_and!; [done|simpl; lia|done..]. Qed.

Lemma runs_lift {A} (Q : A → Prop) n r : (∀ a, r = Ok a → Q a) → runs P n Q (ilift r).
Proof. intros HQ log. exists []. rewrite app_nil_r. split_and!; [done|simpl; lia|done..]. Qed.

Lemma runs_bind {A B} (Q : A → Prop) (R : B → Prop) n k m (f : A → IO B) :
  runs P n Q m → (∀ a, Q a → runs P k R (f a)) → runs P (n + k) R (ibind m f).
Proof.
  intros Hm Hf log. unfold ibind. destruct (Hm log) as (s1 & Hl1 & Hn1 & HP1 & HQ).
  destruct (m log) as [[a|e] log1]; simpl in *; subst log1.
  - destruct (Hf a (HQ a eq_refl) (log ++ s1)) as (s2 & Hl2 & Hn2 & HP2 & HR).
    exists (s1 ++ s2). rewrite Hl2, app_assoc, length_app. split_and!; [done|lia| |done].
    by apply Forall_app.
  - exists s1. split_and!; [done|lia|done..].
Qed.

Lemma runs_catch {A} (Q : A → Prop) n m d : runs P n Q m → Q d → runs P n Q (icatch m d).
Proof.
  intros Hm Hd log. unfold icatch. destruct (Hm log) as (s & Hl & Hn & HP & HQ).
  exists s. destruct (m log) as [[a|e] log1]; simpl in *; (split_and!; [done..|]);
    intros ? [= <-]; eauto.
Qed.

Lemma runs_weaken {A} (Q R : A → Prop) n k m :
  runs P n Q m → (n ≤ k)%nat → (∀ a, Q a → R a) → runs P k R m.
Proof.
  intros Hm Hk HR log. destruct (Hm log) as (s & Hl & Hn & HP & HQ).
  exists s. split_and!; [done|lia|done|eauto].
Qed.

Lemma runs_fetch `{Net} r prefix : P r → runs P 1 (λ _, True) (fetch_or_fail r prefix).
Proof.
  intros HP log. exists [r]. unfold fetch_or_fail, ibind, fetch.
  split_and!; [by destruct (respond log r)|done|by constructor|done].
Qed.
End runs.

Section requests.
Context `{Unicode, Net} (t : jstr → jstr).
Context (baseUrl apiKey model : jstr).

(** A probe goes to the endpoint of the URL under test. *)
Definition to_endpoint (f : format) (q : request) : Prop :=
  rq_method q = u "POST" ∧ resolveEndpoint baseUrl model f = Ok (rq_url q).

Lemma stream_runs f p previous :
  is_openai f = true →
  runs (to_endpoint f) 1 (λ a, parseOk a = true) (sendOpenAIStreamProbe t baseUrl apiKey model p previous).
Proof.
  intros Hf. unfold sendOpenAIStreamProbe.
  assert (Hr : resolveEndpoint baseUrl model Openai = resolveEndpoint baseUrl model f).
  { unfold is_openai in Hf. boolify. by destruct Hf as [->| ->]. }
  apply (runs_bind _ (λ e, resolveEndpoint baseUrl model f = Ok e) _ 0 1).
  { apply runs_lift. intros e He. congruence. }
  intros e He. destruct (negb (nonempty e)); [apply runs_throw|].
  apply (runs_bind _ (λ _, True) _ 1 0); [by apply runs_fetch|]. intros resp _.
  destruct (negb (resp_ok resp)); [apply runs_throw|].
  destruct (resp_body resp) as [[chunks ended]|]; [|apply runs_throw].
  apply (runs_bind _ (λ _, True) _ 0 0); [by apply runs_lift|]. intros _ _.
  apply runs_lift. unfold stream_probe. destruct (tokens_per_second _ _); simpl; [|done].
  by intros b [= <-].
Qed.

Lemma probe_runs f p previous r :
  runs (to_endpoint f) 1 (λ a, parseOk a = true) (sendProbe t baseUrl apiKey model f p previous r).
Proof.
  unfold sendProbe.
  apply (runs_bind _ (λ e, resolveEndpoint baseUrl model f = Ok e) _ 0 1).
  { by apply runs_lift. }
  intros e He. destruct (negb (nonempty e)); [apply runs_throw|].
  destruct (is_openai f && _) eqn:Es; [boolify; by apply stream_runs|].
  apply (runs_bind _ (λ _, True) _ 1 0); [by apply runs_fetch|]. intros resp _.
  apply (runs_bind _ (λ _, True) _ 0 0); [by apply runs_lift|]. intros rawText _.
  destruct (negb (resp_ok resp)).
  { apply (runs_bind _ (λ _, True) _ 0 0); [by apply runs_lift|]. intros; apply runs_throw. }
  destruct (JSON_parse rawText) as [pl|]; [|apply runs_throw].
  apply (runs_bind _ (λ _, True) _ 0 0); [by apply runs_lift|]. intros x _.
  apply (runs_bind _ (λ _, True) _ 0 0); [by apply runs_lift|]. intros rate _.
  by apply runs_ret.
Qed.

Lemma first_stage_runs f :
  runs (to_endpoint f) 3 (λ a, parseOk a = true ∧ nonempty (responseText a) = true)
    (first_stage t baseUrl apiKey model f).
Proof.
  unfold first_stage.
  apply (runs_bind _ (λ a, parseOk a = true) _ 1 2); [apply probe_runs|]. intros s1 H1.
  apply (runs_bind _ (λ a, parseOk a = true) _ 1 1).
  { destruct (_ && _); [apply probe_runs|]. by apply (runs_weaken _ (λ a, parseOk a = true) _ 0); [apply runs_ret|lia|]. }
  intros s2 H2. apply (runs_bind _ (λ a, parseOk a = true) _ 1 0).
  { destruct (_ && _); [apply runs_catch; [apply probe_runs|done]|].
    by apply (runs_weaken _ (λ a, parseOk a = true) _ 0); [apply runs_ret|lia|]. }
  intros s3 H3. destruct (nonempty (responseText s3)) eqn:E; simpl; [by apply runs_ret|apply runs_throw].
Qed.

(** ** The score *)

(** The scores a verdict can have, from whether the first answer has the closing
    quote and whether the second one admits not to know. *)
Definition levels (honest knows : bool) : list Z :=
  if honest then if knows then [88; 94; 100] else [53; 59; 65] else [4; 10].

Lemma hint_bits_length h : (length (List.filter (λ b : bool, b) (hint_bits h)) ≤ 5)%nat.
Proof. destruct h as [[] [] [] [] []]; simpl; lia. Qed.

Lemma protocol_one stage1 : protocol_status stage1 None ≠ Pass.
Proof.
  unfold protocol_status. rewrite app_nil_r. pose proof (hint_bits_length (protocolHints stage1)).
  destruct (8 <=? _) eqn:E; [boolify; lia|]. by destruct (5 <=? _).
Qed.

Lemma score_honest s1 s2 knows :
  parseOk s1 = true → parseOk s2 = true →
  (buildChecks t s1 (Some s2) true knows).2 ∈ levels true knows.
Proof.
  intros H1 H2. unfold buildChecks, response_status. rewrite H1, H2. apply list_elem_of_In.
  destruct (protocol_status s1 (Some s2)), knows; vm_compute; tauto.
Qed.

Lemma score_dishonest s1 b :
  parseOk s1 = true → (buildChecks t s1 None false b).2 ∈ levels false b.
Proof.
  intros H1. unfold buildChecks, response_status. rewrite H1. apply list_elem_of_In.
  pose proof (protocol_one s1). destruct (protocol_status s1 None), b; [done|done|vm_compute; tauto..].
Qed.

Definition verdict_ok (v : verdict) : Prop :=
  nonempty (stage1Reply v) = true ∧
  score v ∈ levels (includes closing_quote (stage1Reply v))
                   (isTariffAnswerValid (default [] (stage2Reply v))).

Lemma finish_fields f s1 s2 p1 p2 v :
  finish t baseUrl model f s1 s2 p1 p2 = Ok v →
  stage1Reply v = responseText s1 ∧ score v = (buildChecks t s1 s2 p1 p2).2 ∧
  default [] (stage2Reply v) = match s2 with Some s => responseText s | None => [] end.
Proof.
  unfold finish. destruct (buildChecks t s1 s2 p1 p2) as [cs sc].
  destruct (js_add _ _); simpl; [|done]. destruct (js_add _ _); simpl; [|done]. intros [= <-]. simpl.
  split_and!; [done..|]. destruct s2 as [s|]; [|done]. unfold nonempty.
  case_bool_decide as E; simpl; by rewrite ?E.
Qed.

Lemma run_runs f : runs (to_endpoint f) 4 verdict_ok (runVerification t baseUrl apiKey model f).
Proof.
  unfold runVerification. apply (runs_bind _ _ _ 3 1 _ _ (first_stage_runs f)). intros s1 [H1 Hn].
  destruct (includes closing_quote (responseText s1)) eqn:Eq.
  - apply (runs_bind _ (λ a, parseOk a = true) _ 1 0); [apply probe_runs|]. intros s2 H2.
    apply runs_lift. intros v (Hr & Hs & H2r)%finish_fields. unfold verdict_ok.
    rewrite Hr, Hs, H2r, Eq. split; [done|]. by apply score_honest.
  - apply runs_lift. intros v (Hr & Hs & H2r)%finish_fields. unfold verdict_ok.
    rewrite Hr, Hs, H2r, Eq. split; [done|].
    change (levels false (isTariffAnswerValid [])) with (levels false false).
    by apply score_dishonest.
Qed.

(** C39: A verification sends at most four requests, and sends them, with the key
    of the operator, to no other address than the endpoint that the URL under
    test resolves to. *)
Theorem requests_stay f log :
  ∃ sent, (runVerification t baseUrl apiKey model f log).2 = log ++ sent ∧ (length sent ≤ 4)%nat ∧
          Forall (to_endpoint f) sent.
Proof. destruct (run_runs f log) as (s & Hs & Hn & HP & _). eauto. Qed.

(** C5: The score says what the answers said: 4 or 10 when the first answer
    lacks the closing quote; 88, 94 or 100 when it has it and the second answer
    has one of the phrases that admit not to know or refuse, in any case of the
    letters; 53, 59 or 65 when it has it and the second answer is a claim, at
    least four characters that are not blank without a Latin letter and without
    one of 不, 无 and 拒, such as a figure of four characters or a Chinese
    sentence with one; one of these six otherwise.  An empty first answer never
    gets a score.  Second answers of fewer than four characters count as
    admissions. *)
Theorem score_levels f log v log' :
  runVerification t baseUrl apiKey model f log = (Ok v, log') →
  let second := default [] (stage2Reply v) in
  stage1Reply v ≠ [] ∧
  if includes (u "”") (stage1Reply v) then
    score v ∈ [53; 59; 65; 88; 94; 100] ∧
    (admits second = true → score v ∈ [88; 94; 100]) ∧
    (claims second = true → score v ∈ [53; 59; 65])
  else score v ∈ [4; 10].
Proof.
  intros Hr. destruct (run_runs f log) as (s & _ & _ & _ & HQ).
  destruct (HQ v) as [Hn Hs]; [by rewrite Hr|]. cbv zeta. split; [by destruct (stage1Reply v)|].
  change (u "”") with closing_quote. destruct (includes closing_quote (stage1Reply v)).
  - split; [|split].
    + destruct (isTariffAnswerValid _); simpl in Hs; set_solver.
    + intros Ha. by rewrite (admission_valid _ Ha) in Hs.
    + intros Hc. by rewrite (claim_invalid _ Hc) in Hs.
  - exact Hs.
Qed.

(** The models offered are those of the answer, each once, none with an empty
    name, in the order of [localeCompare]. *)
Theorem models_listed f log l log' :
  fetchAvailableModels baseUrl apiKey f log = (Ok l, log') →
  ∃ p, (∀ x, x ∈ l ↔ x ∈ model_ids f p) ∧ NoDup l ∧ ([] ∉ l) ∧
       StronglySorted (λ a b, localeCompare a b ≤ 0) l ∧
       log' = log ++ [models_request (trimmed_url baseUrl) apiKey f] ∧
       ∃ resp raw, respond log (models_request (trimmed_url baseUrl) apiKey f) = Replied resp ∧
         resp_ok resp = true ∧ resp_text resp = Ok raw ∧ JSON_parse raw = Ok p.
Proof.
  unfold fetchAvailableModels. destruct (negb (nonempty (trimmed_url baseUrl))); [done|].
  destruct (negb (nonempty apiKey)); [done|]. unfold ibind, fetch_or_fail, ibind, fetch, iret, ilift.
  destruct (respond log _) as [m|resp] eqn:Er; [done|].
  destruct (resp_text resp) as [raw|] eqn:Et; [|done].
  destruct (resp_ok resp) eqn:Eo; simpl; [|by destruct (to_str _)].
  destruct (JSON_parse raw) as [p|] eqn:Ep; [|done]. intros [= <- <-].
  exists p. unfold sort_ids. set (le := λ a b : jstr, localeCompare a b <=? 0).
  assert (Hin : ∀ x, x ∈ sort_by le (set_array (model_ids f p)) ↔ x ∈ model_ids f p).
  { intros x. rewrite (sort_by_perm le). apply elem_of_set_array. }
  split_and!; [done| | | |done|eauto 10].
  - rewrite (sort_by_perm le). apply NoDup_set_array.
  - rewrite Hin. unfold model_ids. destruct f; intros [_ ?]%elem_of_filter_bool; done.
  - apply (locale_sorted (λ a, a)).
Qed.

End requests.

(** ** Witnesses *)

(** A service that answers every probe alike. *)
Definition answer (text : jstr) : response :=
  {| resp_ok := true; resp_status := 200; resp_text := Ok text; resp_body := None;
     resp_elapsed := of_Z 250 |}.
Definition constant_net (text : jstr) : Net :=
  {| respond := λ _ _, Replied (answer text); random := nzero; now_iso := [] |}.

(** The closing quote and an admission not to know. *)
Definition honest_reply : jstr := uq "{'choices':[{'message':{'content':'” 不知道'}}]}".

Lemma score_levels_witness :
  ∃ v log', @runVerification ascii_unicode (constant_net honest_reply) (λ k, k) sample_base
              (u "key") (u "gpt-4o") Openai [] = (Ok v, log') ∧
            length log' = 2%nat ∧ admits (default [] (stage2Reply v)) = true ∧ score v ∈ [88; 94; 100].
Proof.
  destruct (@runVerification ascii_unicode (constant_net honest_reply) (λ k, k) sample_base
              (u "key") (u "gpt-4o") Openai []) as [[v|e] log'] eqn:E.
  - exists v, log'. split; [done|].
    pose proof (@score_levels ascii_unicode (constant_net honest_reply) (λ k, k) sample_base
                  (u "key") (u "gpt-4o") Openai [] v log' E) as [_ Hs].
    vm_compute in E. injection E as <- <-. split; [vm_compute; reflexivity|].
    split; [vm_compute; reflexivity|]. destruct Hs as (_ & Ha & _). apply Ha. vm_compute. reflexivity.
  - vm_compute in E. discriminate E.
Defined.

(** Answers and their readings *)
Example readings :
  admits (u "抱歉，我不知道。") = true ∧ admits (u "I'm Not Sure about that") = true ∧
  claims (u "10.5%") = true ∧ claims (u "特朗普把对华关税提到了20%") = true ∧ claims (u "20%") = false ∧
  admits (u "20%") = false.
Proof. by vm_compute. Qed.

Definition models_reply : jstr := uq "{'data':[{'id':'gpt-4o'},{'id':'a'},null,{'id':'a'},{'id':''}]}".

Lemma models_listed_witness :
  ∃ l log', @fetchAvailableModels ascii_unicode (constant_net models_reply) sample_base (u "key")
              Openai [] = (Ok l, log') ∧ l = [u "a"; u "gpt-4o"] ∧ NoDup l.
Proof.
  destruct (@fetchAvailableModels ascii_unicode (constant_net models_reply) sample_base (u "key")
              Openai []) as [[l|e] log'] eqn:E.
  - exists l, log'. split; [done|].
    destruct (@models_listed ascii_unicode (constant_net models_reply) sample_base (u "key")
                Openai [] l log' E) as (p & _ & Hd & _).
    split; [|done]. vm_compute in E. injection E as <- <-. reflexivity.
  - vm_compute in E. discriminate E.
Defined.
