(* ===== verification/ThinkTags.v ===== *)
(** * Think tags

    Models sometimes write their reasoning into the reply, between [<think>]
    and [</think>].  The playground takes it out in three places, modelled
    here: [processThinkTags] and [processIncompleteThinkTags] of
    [web/src/helpers/utils.jsx], which settle a finished or stopped message,
    and the body of [MessageContent] of
    [web/src/components/playground/MessageContent.jsx], which decides on every
    rendering what is shown as the reply and what as the reasoning.

    The regular expression [/<think>([\s\S]*?)<\/think>/g] matches from an
    opening tag to the first closing tag after it; the loop over its matches
    is [think_loop], whose fuel, the length of the text, is never used up
    ([think_loop_fuel]). *)

From S2P Require Import Prelude JsString JsNumber JsValue.

Local Open Scope Z_scope.

Definition think_open : jstr := u "<think>".
Definition think_close : jstr := u "</think>".
(** The separator between thoughts: two newlines, three dashes, two newlines *)
Definition think_sep : jstr := [10; 10] ++ u "---" ++ [10; 10].

(** One match of the expression: what is before it, the group, what is after. *)
Definition exec_think (s : jstr) : option (jstr * jstr * jstr) :=
  match index_of think_open s with
  | None => None
  | Some i =>
    let rest := drop (i + length think_open) s in
    match index_of think_close rest with
    | None => None
    | Some j => Some (take i s, take j rest, drop (j + length think_close) rest)
    end
  end.

(** The [while] loop: [replyParts] and [thoughts]. *)
Fixpoint think_loop_go (fuel : nat) (s : jstr) : list jstr * list jstr :=
  match fuel with
  | O => ([s], [])
  | S fuel =>
    match exec_think s with
    | None => ([s], [])
    | Some (before, thought, after) =>
      let '(parts, thoughts) := think_loop_go fuel after in
      (before :: parts, thought :: thoughts)
    end
  end.
Definition think_loop (s : jstr) : list jstr * list jstr := think_loop_go (length s) s.

(** [s.replace(/<\/?think>/g, '')]; [skip] counts the units of a tag still to
    be dropped. *)
Fixpoint remove_tags_go (skip : nat) (s : jstr) : jstr :=
  match s with
  | [] => []
  | c :: s' =>
    match skip with
    | S k => remove_tags_go k s'
    | O =>
      if starts_with think_open s then remove_tags_go (length think_open - 1) s'
      else if starts_with think_close s then remove_tags_go (length think_close - 1) s'
      else c :: remove_tags_go 0 s'
    end
  end.
Definition remove_tags (s : jstr) : jstr := remove_tags_go 0 s.

(** A parameter with the default [''] *)
Definition or_empty (v : val) : val := if is_undef v then VStr [] else v.

(** [`${reasoning}\n\n---\n\n${thought}`] *)
Definition append_thought (reasoning : val) (thought : jstr) : res val :=
  rmap (λ r, VStr (r ++ think_sep ++ thought)) (to_str reasoning).

Definition strip_think (s : jstr) (reasoning : val) : res (val * val) :=
  let '(replyParts, thoughts) := think_loop s in
  let processedContent := trim (remove_tags (concat replyParts)) in
  let thoughtsStr := join think_sep thoughts in
  let! processedReasoning :=
    if truthy reasoning && nonempty thoughtsStr then append_thought reasoning thoughtsStr
    else Ok (v_or reasoning (VStr thoughtsStr)) in
  Ok (VStr processedContent, processedReasoning).

(** Strings and arrays have a method [includes], only strings have
    [substring]; anything else that is truthy has neither. *)
Definition processThinkTags (content reasoning0 : val) : res (val * val) :=
  let reasoning := or_empty reasoning0 in
  if negb (truthy content) then Ok (content, reasoning)
  else match content with
  | VStr s =>
    if includes think_open s then strip_think s reasoning else Ok (content, reasoning)
  | VArr l =>
    if existsb (λ x, is_text x think_open) l then Throw TypeError else Ok (content, reasoning)
  | _ => Throw TypeError
  end.

Definition processIncompleteThinkTags (content reasoning0 : val) : res (val * val) :=
  let reasoning := or_empty reasoning0 in
  if negb (truthy content) then Ok (VStr [], reasoning)
  else match content with
  | VStr s =>
    match last_index_of think_open s with
    | None => processThinkTags content reasoning
    | Some lastOpenThinkIndex =>
      let fragmentAfterLastOpen := drop lastOpenThinkIndex s in
      if includes think_close fragmentAfterLastOpen
      then processThinkTags content reasoning
      else
        let unclosedThought := trim (drop (length think_open) fragmentAfterLastOpen) in
        let! processedReasoning :=
          if nonempty unclosedThought then
            if truthy reasoning then append_thought reasoning unclosedThought
            else Ok (VStr unclosedThought)
          else Ok reasoning in
        processThinkTags (VStr (take lastOpenThinkIndex s)) processedReasoning
    end
  | VArr _ => processThinkTags content reasoning
  | _ => Throw TypeError
  end.

(** ** What a message shows *)

(** [content.find((item) => item.type === 'text')] *)
Fixpoint find_text_item (l : list val) : res val :=
  match l with
  | [] => Ok VUndef
  | item :: l =>
    let! ty := get item (u "type") in
    if is_text ty (u "text") then Ok item else find_text_item l
  end.

(** The text of the first text item, if it is a non-empty string *)
Definition item_text (item : val) : option jstr :=
  match get_opt item (u "text") with
  | VStr s => if nonempty s then Some s else None
  | _ => None
  end.

(** The [getTextContent] inside [MessageContent] *)
Definition shown_text (content : val) : res jstr :=
  match content with
  | VArr l => rmap (λ item, default [] (item_text item)) (find_text_item l)
  | VStr s => Ok s
  | _ => Ok []
  end.

(** [combined += sep + thought], or the thought alone *)
Definition combine_thought (combined : val) (thought : jstr) : res val :=
  if truthy combined then append_thought combined thought else Ok (VStr thought).

Definition add_source (source : val) (plus name : jstr) : val :=
  match source with VStr s => VStr (s ++ plus ++ name) | _ => VStr name end.

Inductive view :=
| ErrorView (text : jstr)
| BodyView (thinking source : val) (reply : jstr).

(** The block that extracts paired tags: what is left of the text, the
    combined reasoning and its source *)
Definition show_paired (base : jstr) (combined source : val) : res (jstr * val * val) :=
  if includes think_open base then
    let '(replyParts, thoughts) := think_loop base in
    let! combined' :=
      if (0 <? Z.of_nat (length thoughts)) then combine_thought combined (join think_sep thoughts)
      else Ok combined in
    let source' :=
      if (0 <? Z.of_nat (length thoughts)) then add_source source (u " & ") (u "<think> tags")
      else source in
    Ok (concat replyParts, combined', source')
  else Ok (base, combined, source).

(** The block for a tag that is still open while the reply is arriving *)
Definition show_unclosed (base : jstr) (combined source : val) : res (jstr * val * val) :=
  match last_index_of think_open base with
  | None => Ok (base, combined, source)
  | Some i =>
    let fragment := drop i base in
    if includes think_close fragment then Ok (base, combined, source)
    else
      let unclosedThought := trim (drop (length think_open) fragment) in
      if nonempty unclosedThought then
        let! combined' := combine_thought combined unclosedThought in
        Ok (take i base, combined', add_source source (u " + ") (u "streaming <think>"))
      else Ok (take i base, combined, source)
  end.

(** What the component shows of a message; [error_text] is
    [t('请求发生错误')]. *)
Definition MessageContent (error_text : jstr) (message : val) : res view :=
  let! status := get message (u "status") in
  let! content := get message (u "content") in
  let! role := get message (u "role") in
  let! reasoningContent := get message (u "reasoningContent") in
  let isThinkingStatus := is_text status (u "loading") || is_text status (u "incomplete") in
  if is_text status (u "error") then
    match content with
    | VArr l => rmap (λ item, ErrorView (default error_text (item_text item))) (find_text_item l)
    | VStr s => Ok (ErrorView s)
    | _ => Ok (ErrorView error_text)
    end
  else
    let! text := shown_text content in
    if is_text role (u "assistant") then
      let combined := if truthy reasoningContent then reasoningContent else VStr [] in
      let source := if truthy reasoningContent then VStr (u "reasoningContent") else VNull in
      let! (base, combined, source) := show_paired text combined source in
      let! (base, combined, source) :=
        if isThinkingStatus then show_unclosed base combined source
        else Ok (base, combined, source) in
      Ok (BodyView (v_or combined VNull) source (trim (remove_tags base)))
    else Ok (BodyView VNull VNull text).

(** ** The loop ends by itself *)

Lemma exec_think_shrinks s a th b :
  exec_think s = Some (a, th, b) → (length b < length s)%nat.
Proof.
  unfold exec_think. destruct (index_of think_open s) as [i|] eqn:Ei; [|done].
  destruct (index_of think_close _) as [j|] eqn:Ej; [|done]. intros [= <- <- <-].
  apply index_of_Some in Ei as (x & y & -> & <-). rewrite !length_drop, !length_app. simpl. lia.
Qed.

(** More fuel than the length of the text changes nothing. *)
Lemma think_loop_fuel f s : (length s ≤ f)%nat → think_loop_go f s = think_loop s.
Proof.
  unfold think_loop. remember (length s) as n eqn:Hn. revert f s Hn.
  induction (lt_wf n) as [n _ IH]. intros f s -> Hf.
  destruct s as [|c s]; [by destruct f|]. simpl in Hf. destruct f as [|f]; [lia|].
  cbn [think_loop_go length].
  destruct (exec_think (c :: s)) as [[[a th] b]|] eqn:E; [|done].
  apply exec_think_shrinks in E. simpl in E.
  rewrite (IH (length b) ltac:(simpl; lia) f b eq_refl) by lia.
  by rewrite (IH (length b) ltac:(simpl; lia) (length s) b eq_refl) by lia.
Qed.

Lemma think_loop_eq s :
  think_loop s =
  match exec_think s with
  | None => ([s], [])
  | Some (before, thought, after) =>
    let '(parts, thoughts) := think_loop after in (before :: parts, thought :: thoughts)
  end.
Proof.
  rewrite <- (think_loop_fuel (S (length s))) by lia. cbn [think_loop_go].
  destruct (exec_think s) as [[[a th] b]|] eqn:E; [|done].
  apply exec_think_shrinks in E. by rewrite think_loop_fuel by lia.
Qed.

(** ** Searching for a pattern whose first unit occurs nowhere else in it *)

Section unbordered.
Context (c : Z) (q : jstr) (Hc : c ∉ q).

Lemma index_of_skip w b :
  c ∉ w → index_of (c :: q) (w ++ b) = Nat.add (length w) <$> index_of (c :: q) b.
Proof.
  induction w as [|x w IH]; intros Hw; simpl; [by destruct (index_of _ b)|].
  rewrite not_elem_of_cons in Hw. destruct Hw as [Hx Hw].
  destruct (Z.eqb_spec c x); [done|]. simpl. rewrite IH by done.
  by destruct (index_of _ b).
Qed.

Lemma index_of_prefix p s : starts_with p s = true → index_of p s = Some 0%nat.
Proof. intros H. destruct s; cbn [index_of]; by rewrite H. Qed.

(** A match across the boundary of [a] would need the first unit twice. *)
Lemma index_of_first a b :
  index_of (c :: q) a = None → index_of (c :: q) (a ++ (c :: q) ++ b) = Some (length a).
Proof.
  induction a as [|x a IH]; intros Ha.
  { apply index_of_prefix, (starts_with_app (c :: q) b). }
  cbn [index_of] in Ha. destruct (starts_with (c :: q) (x :: a)) eqn:E0; [done|].
  destruct (index_of (c :: q) a) eqn:Ea; [done|]. cbn [app index_of].
  destruct (starts_with (c :: q) (x :: a ++ (c :: q) ++ b)) eqn:E.
  2:{ cbn [app] in E, IH. rewrite E, IH by done. done. }
  exfalso. apply starts_with_spec in E as [r Hr].
  change (x :: a ++ (c :: q) ++ b) with ((x :: a) ++ (c :: q) ++ b) in Hr.
  apply app_eq_app in Hr as [l [[Hl _]|[Hl Hr]]].
  - rewrite Hl, starts_with_app in E0. done.
  - destruct l as [|y l].
    + rewrite app_nil_r in Hl. rewrite <- Hl in E0.
      rewrite <- (app_nil_r (c :: q)) in E0 at 2. by rewrite starts_with_app in E0.
    + simplify_eq/=. apply Hc. set_solver.
Qed.

Lemma last_index_of_None s : index_of (c :: q) s = None → last_index_of (c :: q) s = None.
Proof.
  induction s as [|x s IH]; [done|]. cbn [index_of last_index_of].
  destruct (starts_with (c :: q) (x :: s)); [done|].
  intros H. rewrite IH; [done|]. by destruct (index_of _ s).
Qed.

Lemma last_index_of_app a s i :
  last_index_of (c :: q) s = Some i → last_index_of (c :: q) (a ++ s) = Some (length a + i)%nat.
Proof. intros H. induction a as [|x a IH]; [done|]. cbn [app last_index_of]. by rewrite IH. Qed.

Lemma last_index_of_last a b :
  index_of (c :: q) b = None → last_index_of (c :: q) (a ++ (c :: q) ++ b) = Some (length a).
Proof.
  intros Hb. rewrite (last_index_of_app _ _ 0); [f_equal; lia|].
  cbn [app last_index_of]. rewrite last_index_of_None.
  - change (c :: q ++ b) with ((c :: q) ++ b). by rewrite starts_with_app.
  - rewrite index_of_skip by done. by rewrite Hb.
Qed.

(** The last occurrence starts before a text that has none. *)
Lemma last_index_of_before z y i :
  index_of (c :: q) y = None → last_index_of (c :: q) (z ++ y) = Some i → (i < length z)%nat.
Proof.
  intros Hy. revert i. induction z as [|x z IH]; intros i.
  { cbn [app]. by rewrite last_index_of_None. }
  cbn [app last_index_of length]. destruct (last_index_of (c :: q) (z ++ y)) as [j|].
  - intros [= <-]. specialize (IH j eq_refl). lia.
  - destruct (starts_with _ _); [|done]. intros [= <-]. lia.
Qed.
End unbordered.

Definition has_open (s : jstr) : bool := includes think_open s.
Definition has_close (s : jstr) : bool := includes think_close s.

Lemma includes_false p s : includes p s = false ↔ index_of p s = None.
Proof. unfold includes. rewrite bool_decide_eq_false. by rewrite <- eq_None_not_Some. Qed.

Lemma open_unbordered : 60 ∉ drop 1 think_open.
Proof. by apply (bool_decide_unpack _). Qed.
Lemma close_unbordered : 60 ∉ drop 1 think_close.
Proof. by apply (bool_decide_unpack _). Qed.

Lemma first_open a b : has_open a = false → index_of think_open (a ++ think_open ++ b) = Some (length a).
Proof. intros H%includes_false. exact (index_of_first 60 _ open_unbordered a b H). Qed.
Lemma first_close a b :
  has_close a = false → index_of think_close (a ++ think_close ++ b) = Some (length a).
Proof. intros H%includes_false. exact (index_of_first 60 _ close_unbordered a b H). Qed.
Lemma last_open a b :
  has_open b = false → last_index_of think_open (a ++ think_open ++ b) = Some (length a).
Proof. intros H%includes_false. exact (last_index_of_last 60 _ open_unbordered a b H). Qed.
Lemma no_last_open s : has_open s = false → last_index_of think_open s = None.
Proof. intros H%includes_false. exact (last_index_of_None 60 _ s H). Qed.

Lemma no_open_after_close s : has_open s = false → index_of think_open (think_close ++ s) = None.
Proof.
  intros H%includes_false. change (think_close ++ s) with (60 :: drop 1 think_close ++ s).
  cbn [index_of]. change (starts_with think_open (60 :: drop 1 think_close ++ s)) with false.
  cbn iota. change think_open with (60 :: drop 1 think_open) at 1.
  rewrite index_of_skip by exact close_unbordered.
  change (60 :: drop 1 think_open) with think_open. by rewrite H.
Qed.

Lemma no_close_after_open s :
  has_close s = false → includes think_close (think_open ++ s) = false.
Proof.
  intros H%includes_false. apply includes_false.
  change (think_open ++ s) with (60 :: drop 1 think_open ++ s). cbn [index_of].
  change (starts_with think_close (60 :: drop 1 think_open ++ s)) with false. cbn iota.
  change think_close with (60 :: drop 1 think_close) at 1.
  rewrite index_of_skip by exact open_unbordered.
  change (60 :: drop 1 think_close) with think_close. by rewrite H.
Qed.

(** Text without tags is left as it is. *)
Lemma remove_tags_id s : has_open s = false → has_close s = false → remove_tags s = s.
Proof.
  unfold has_open, has_close, remove_tags. rewrite !includes_false.
  induction s as [|c s IH]; [done|]. cbn [index_of remove_tags_go].
  destruct (starts_with think_open (c :: s)); [done|].
  destruct (starts_with think_close (c :: s)); [done|]. intros Ho Hcl.
  f_equal. apply IH; [by destruct (index_of think_open s)|by destruct (index_of think_close s)].
Qed.

(** ** Replies with thoughts in them *)

(** A reply written as text, then any number of thoughts, each followed by
    more text. *)
Definition tagged (t0 : jstr) (ps : list (jstr * jstr)) : jstr :=
  t0 ++ concat (map (λ p, think_open ++ p.1 ++ think_close ++ p.2) ps).

(** The text of the reply and the thoughts in it *)
Definition visible (t0 : jstr) (ps : list (jstr * jstr)) : jstr := t0 ++ concat (map snd ps).
Definition thoughts_of (ps : list (jstr * jstr)) : jstr := join think_sep (map fst ps).

(** Text has no opening tag, a thought has no closing one. *)
Definition separated (t0 : jstr) (ps : list (jstr * jstr)) : Prop :=
  has_open t0 = false ∧ Forall (λ p, has_close p.1 = false ∧ has_open p.2 = false) ps.

(** No tag arises where the texts around the thoughts meet. *)
Definition clean (s : jstr) : Prop := has_open s = false ∧ has_close s = false.

Lemma exec_think_first a th b :
  has_open a = false → has_close th = false →
  exec_think (a ++ think_open ++ th ++ think_close ++ b) = Some (a, th, b).
Proof.
  intros Ha Hth. unfold exec_think. rewrite first_open by done.
  rewrite <- length_app, (app_assoc a think_open), drop_app_length.
  rewrite first_close by done. rewrite <- length_app, (app_assoc th think_close), drop_app_length.
  by rewrite <- !app_assoc, !take_app_length.
Qed.

Lemma exec_think_none s : has_open s = false → exec_think s = None.
Proof. intros H%includes_false. unfold exec_think. by rewrite H. Qed.

Lemma exec_think_unclosed a b : has_open a = false → has_close b = false →
  exec_think (a ++ think_open ++ b) = None.
Proof.
  intros Ha Hb%includes_false. unfold exec_think. rewrite first_open by done.
  by rewrite <- length_app, (app_assoc a think_open), drop_app_length, Hb.
Qed.

(** The loop takes the thoughts out and stops at the first text that has no
    complete thought. *)
Lemma think_loop_tagged t0 ps tail :
  separated t0 ps → (∀ a, has_open a = false → exec_think (a ++ tail) = None) →
  (think_loop (tagged t0 ps ++ tail)).2 = map fst ps ∧
  concat (think_loop (tagged t0 ps ++ tail)).1 = visible t0 ps ++ tail.
Proof.
  intros [H0 Hps] Htail. unfold tagged, visible. revert t0 H0.
  induction Hps as [|[th t1] ps [Hth Ht1] _ IH]; intros t0 H0; cbn [map concat fst snd].
  - rewrite app_nil_r, think_loop_eq, Htail by done. simpl. by rewrite app_nil_r.
  - rewrite think_loop_eq. rewrite <- !app_assoc.
    rewrite exec_think_first by done. rewrite app_assoc.
    destruct (IH t1 Ht1) as [IH2 IH1]. destruct (think_loop _) as [parts ths]. simpl in *.
    rewrite IH2, IH1. split; [done|]. by rewrite <- !app_assoc.
Qed.

Lemma tagged_has_open t0 p ps tail : has_open (tagged t0 (p :: ps) ++ tail) = true.
Proof.
  apply includes_spec. unfold tagged. cbn [map concat fst snd]. rewrite <- !app_assoc. eauto.
Qed.

Lemma has_open_app_r a b : has_open b = true → has_open (a ++ b) = true.
Proof.
  unfold has_open. rewrite !includes_spec. intros (x & y & ->). exists (a ++ x), y.
  by rewrite <- app_assoc.
Qed.

Lemma truthy_open s : has_open s = true → truthy (VStr s) = true.
Proof. by destruct s. Qed.

(** What [processThinkTags] puts into the reasoning *)
Definition merged (reasoning : val) (thoughts : jstr) : res val :=
  if truthy reasoning && nonempty thoughts then append_thought reasoning thoughts
  else Ok (v_or reasoning (VStr thoughts)).

Lemma strip_think_tagged t0 ps reasoning :
  separated t0 ps → clean (visible t0 ps) →
  strip_think (tagged t0 ps) reasoning =
  rmap (pair (VStr (trim (visible t0 ps)))) (merged reasoning (thoughts_of ps)).
Proof.
  intros Hsep [Ho Hcl]. unfold strip_think.
  pose proof (think_loop_tagged t0 ps [] Hsep) as H. rewrite !app_nil_r in H.
  destruct H as [H2 H1]. { intros a Ha. rewrite app_nil_r. by apply exec_think_none. }
  destruct (think_loop (tagged t0 ps)) as [parts ths]. simpl in H1, H2. subst ths.
  rewrite H1, remove_tags_id by done. unfold merged, thoughts_of.
  destruct (truthy reasoning && _); [|done]. by destruct (append_thought _ _).
Qed.

(** settling a finished reply takes out exactly the thoughts: the content
    that remains is the text around them, trimmed, and the thoughts are
    appended to the reasoning in the order in which they were written. *)
Theorem think_tags_extracted t0 p ps reasoning :
  separated t0 (p :: ps) → clean (visible t0 (p :: ps)) → is_undef reasoning = false →
  processThinkTags (VStr (tagged t0 (p :: ps))) reasoning =
  rmap (pair (VStr (trim (visible t0 (p :: ps))))) (merged reasoning (thoughts_of (p :: ps))).
Proof.
  intros Hsep Hcl Hr. unfold processThinkTags, or_empty. rewrite Hr.
  pose proof (tagged_has_open t0 p ps []) as Ho. rewrite app_nil_r in Ho.
  rewrite truthy_open by done. simpl. unfold has_open in Ho. rewrite Ho.
  by apply strip_think_tagged.
Qed.

(** ** Replies that are still arriving *)

(** The reasoning as its non-empty sections *)
Definition sections (l : list jstr) : jstr := join think_sep (List.filter nonempty l).

Lemma nonempty_cons c s : nonempty (c :: s) = true.
Proof. done. Qed.

Lemma sections_nest a b c : sections [sections [a; b]; c] = sections [a; b; c].
Proof.
  unfold sections. destruct a as [|x a], b as [|y b], c as [|z c]; try done;
    cbn [List.filter]; rewrite ?nonempty_cons; cbn [join app];
    rewrite ?nonempty_cons; cbn [join app]; by rewrite <- ?app_assoc.
Qed.

Lemma sections_nil_r s : sections [s; []] = s.
Proof. by destruct s. Qed.

Lemma append_thought_str r th : append_thought (VStr r) th = Ok (VStr (r ++ think_sep ++ th)).
Proof. done. Qed.

Lemma merged_str r th : merged (VStr r) th = Ok (VStr (sections [r; th])).
Proof. by destruct r, th. Qed.

Lemma combine_str r th :
  th ≠ [] → combine_thought (VStr r) th = Ok (VStr (sections [r; th])).
Proof. by destruct r, th. Qed.

Lemma trim_infix s : ∃ a b, s = a ++ trim s ++ b.
Proof.
  destruct (trim_start_app s) as (w & Hs & _).
  destruct (trim_start_app (rev (trim_start s))) as (w' & Hr & _).
  exists w, (rev w'). unfold trim, trim_end.
  rewrite Hs at 1. f_equal. rewrite <- rev_app_distr, <- Hr. by rewrite rev_involutive.
Qed.

Lemma includes_trim p s : includes p s = false → includes p (trim s) = false.
Proof.
  intros H. apply not_true_is_false. intros (a & b & Hab)%includes_spec.
  destruct (trim_infix s) as (x & y & Hs). rewrite Hab in Hs.
  apply not_true_iff_false in H. apply H, includes_spec. exists (x ++ a), (b ++ y).
  by rewrite Hs, <- !app_assoc.
Qed.

Lemma clean_trim s : clean s → clean (trim s).
Proof. intros [? ?]. split; by apply includes_trim. Qed.

(** The part of a reply that follows its last complete thought: nothing, or a
    thought that is still open *)
Definition open_tail (un : option jstr) : jstr :=
  match un with None => [] | Some th => think_open ++ th end.
Definition open_thought (un : option jstr) : jstr := trim (default [] un).
Definition unfinished (un : option jstr) : Prop :=
  match un with None => True | Some th => clean th end.

Lemma exec_think_tail a un :
  has_open a = false → unfinished un → exec_think (a ++ open_tail un) = None.
Proof.
  intros Ha Hun. destruct un as [th|]; simpl.
  - apply exec_think_unclosed; [done|]. apply Hun.
  - rewrite app_nil_r. by apply exec_think_none.
Qed.

(** Settling text that consists of complete thoughts only *)
Lemma process_closed t0 ps r :
  separated t0 ps → clean (visible t0 ps) →
  ∃ s, processThinkTags (VStr (tagged t0 ps)) (VStr r) =
         Ok (VStr s, VStr (sections [r; thoughts_of ps])) ∧
       trim s = trim (visible t0 ps) ∧ clean s.
Proof.
  intros Hsep Hcl. destruct ps as [|p ps].
  - exists t0. unfold tagged, visible in *. simpl in *. rewrite app_nil_r in *.
    unfold processThinkTags. destruct Hcl as [Ho ?]. unfold has_open in Ho. rewrite Ho.
    by destruct r, t0.
  - exists (trim (visible t0 (p :: ps))). rewrite trim_idem.
    split_and!; [|done|by apply clean_trim].
    unfold processThinkTags. pose proof (tagged_has_open t0 p ps []) as Ho.
    rewrite app_nil_r in Ho. rewrite truthy_open by done. cbn [negb or_empty is_undef].
    unfold has_open in Ho. rewrite Ho. rewrite strip_think_tagged by done. by rewrite merged_str.
Qed.

Lemma tagged_close_suffix t0 ps i :
  separated t0 ps → last_index_of think_open (tagged t0 ps) = Some i →
  includes think_close (drop i (tagged t0 ps)) = true.
Proof.
  intros [H0 Hps]. destruct ps as [|p ps _] using rev_ind.
  { unfold tagged. simpl. rewrite app_nil_r, no_last_open by done. done. }
  apply Forall_app in Hps as [_ Hp]. apply list.Forall_singleton in Hp as [Hc Ho].
  unfold tagged. rewrite map_app, concat_app, app_assoc. cbn [map concat]. rewrite app_nil_r.
  set (a := t0 ++ _). intros Hi.
  apply includes_spec. exists (drop i (a ++ think_open ++ p.1)), p.2.
  rewrite <- drop_app_le; [by rewrite <- !app_assoc|].
  replace (a ++ think_open ++ p.1 ++ think_close ++ p.2)
    with ((a ++ think_open ++ p.1) ++ think_close ++ p.2) in Hi by by rewrite <- !app_assoc.
  apply Nat.lt_le_incl. eapply last_index_of_before; [|exact Hi]. by apply no_open_after_close.
Qed.

(** Settling a reply that was cut off: the open thought goes to the reasoning,
    in front of the complete ones. *)
Lemma process_cut_off t0 ps un r :
  separated t0 ps → clean (visible t0 ps) → unfinished un →
  ∃ s, processIncompleteThinkTags (VStr (tagged t0 ps ++ open_tail un)) (VStr r) =
         Ok (VStr s, VStr (sections [r; open_thought un; thoughts_of ps])) ∧
       trim s = trim (visible t0 ps) ∧ clean s.
Proof.
  intros Hsep Hcl Hun. rewrite <- sections_nest. destruct un as [th|]; cbn [open_tail].
  - destruct (process_closed t0 ps (sections [r; trim th]) Hsep Hcl) as (s & Hs & Htr & Hc).
    exists s. split; [|done]. change (open_thought (Some th)) with (trim th). rewrite <- Hs.
    unfold processIncompleteThinkTags.
    rewrite truthy_open; [|apply has_open_app_r, includes_spec; exists [], th; done].
    cbn [negb or_empty is_undef]. rewrite last_open by apply Hun.
    rewrite drop_app_length, take_app_length.
    rewrite no_close_after_open by apply Hun. rewrite drop_app_length. by destruct (trim th), r.
  - rewrite app_nil_r. replace (sections [r; open_thought None]) with r by by destruct r.
    destruct (process_closed t0 ps r Hsep Hcl) as (s & Hs & Htr & Hc).
    destruct (truthy (VStr (tagged t0 ps))) eqn:Et.
    + exists s. split; [|done]. rewrite <- Hs. unfold processIncompleteThinkTags. rewrite Et.
      cbn [negb or_empty is_undef]. destruct (last_index_of _ _) as [i|] eqn:Ei; [|done].
      by rewrite (tagged_close_suffix t0 ps i Hsep Ei).
    + exists []. destruct (tagged t0 ps) eqn:E; [|done].
      assert (ps = [] ∧ t0 = []) as [-> ->].
      { unfold tagged in E. apply app_nil in E as [-> E]. by destruct ps. }
      by destruct r.
Qed.

(** Complete thoughts are taken out of what is shown. *)
Lemma show_paired_tagged t0 ps un r src :
  separated t0 ps → unfinished un → thoughts_of ps ≠ [] ∨ ps = [] →
  ∃ src', show_paired (tagged t0 ps ++ open_tail un) (VStr r) src =
    Ok (visible t0 ps ++ open_tail un, VStr (sections [r; thoughts_of ps]), src').
Proof.
  intros Hsep Hun Hth. destruct (think_loop_tagged t0 ps (open_tail un) Hsep) as [H2 H1].
  { intros a Ha. by apply exec_think_tail. }
  unfold show_paired. destruct (includes _ _) eqn:Ei.
  - destruct (think_loop _) as [parts ths]. simpl in H1, H2. subst ths. rewrite H1.
    destruct ps as [|p ps]; [|destruct Hth as [Hth|]; [|done]].
    + simpl. exists src. by destruct r.
    + cbn [map length]. replace (0 <? Z.of_nat (S _)) with true by (symmetry; apply Z.ltb_lt; lia).
      change (join think_sep (p.1 :: map fst ps)) with (thoughts_of (p :: ps)).
      rewrite combine_str by done. simpl. eauto.
  - destruct ps as [|p ps]; [|by rewrite (tagged_has_open t0 p ps) in Ei].
    exists src. by destruct r.
Qed.

(** What is shown while the reply is arriving: the thoughts in the order in
    which they were written. *)
Lemma show_arriving t0 ps un r src :
  separated t0 ps → clean (visible t0 ps) → unfinished un →
  thoughts_of ps ≠ [] ∨ ps = [] →
  ∃ src',
    (let! (base, combined, source) :=
       show_paired (tagged t0 ps ++ open_tail un) (VStr r) src in
     show_unclosed base combined source) =
    Ok (visible t0 ps, VStr (sections [r; thoughts_of ps; open_thought un]), src').
Proof.
  intros Hsep Hcl Hun Hth. rewrite <- sections_nest.
  destruct (show_paired_tagged t0 ps un r src Hsep Hun Hth) as [src1 ->].
  cbn [rbind]. unfold show_unclosed. destruct un as [th|]; cbn [open_tail].
  - rewrite last_open by apply Hun. rewrite drop_app_length, take_app_length.
    rewrite no_close_after_open, drop_app_length by apply Hun.
    change (open_thought (Some th)) with (trim th).
    destruct (trim th) as [|x w] eqn:Et.
    + exists src1. by rewrite sections_nil_r.
    + rewrite nonempty_cons, combine_str by done. cbn [rbind]. eauto.
  - rewrite app_nil_r, no_last_open by apply Hcl. exists src1. by rewrite sections_nil_r.
Qed.

(** On strings neither function throws. *)
Lemma process_strings s r :
  ∃ s' r', processThinkTags (VStr s) (VStr r) = Ok (VStr s', VStr r').
Proof.
  unfold processThinkTags. cbn [or_empty is_undef]. destruct (negb _); [eauto|].
  destruct (includes _ _); [|eauto]. unfold strip_think. destruct (think_loop s) as [parts ths].
  destruct (_ && _); [eauto|]. unfold v_or. destruct (truthy _); eauto.
Qed.

Lemma process_incomplete_strings s r :
  ∃ s' r', processIncompleteThinkTags (VStr s) (VStr r) = Ok (VStr s', VStr r').
Proof.
  unfold processIncompleteThinkTags. cbn [or_empty is_undef]. destruct (negb _); [eauto|].
  destruct (last_index_of _ _); [|apply process_strings].
  destruct (includes _ _); [apply process_strings|].
  destruct (nonempty _); [destruct (truthy _)|]; apply process_strings.
Qed.

(** ** An example *)

Lemma sample_pieces :
  separated (u "Well. ") [(u "hm", u "Yes. "); (u "ok", u "No.")] ∧
  clean (visible (u "Well. ") [(u "hm", u "Yes. "); (u "ok", u "No.")]).
Proof. by repeat constructor. Qed.

Lemma think_tags_extracted_witness :
  separated (u "Well. ") [(u "hm", u "Yes. "); (u "ok", u "No.")] ∧
  processThinkTags (VStr (u "Well. <think>hm</think>Yes. <think>ok</think>No.")) (VStr []) =
  Ok (VStr (u "Well. Yes. No."), VStr (u "hm" ++ think_sep ++ u "ok")).
Proof.
  destruct sample_pieces as [H1 H2]. split; [exact H1|].
  exact (think_tags_extracted (u "Well. ") (u "hm", u "Yes. ") [(u "ok", u "No.")] (VStr [])
           H1 H2 eq_refl).
Defined.

(** The removal of tags is one pass: tags that are cut up by other tags are
    put together and stay in the reply. *)
Theorem tags_put_together :
  processThinkTags (VStr (u "<think>a</think><thi</think>nk>b")) (VStr []) =
  Ok (VStr (u "<think>b"), VStr (u "a")).
Proof. vm_compute. reflexivity. Qed.
