(* ===== verification/PlaygroundMessages.v ===== *)
(** * Messages of the playground

    The message helpers of [web/src/helpers/utils.jsx] (lines 413-582), the
    request bodies and option lists of [web/src/helpers/api.js] (lines
    112-228), the constants of [web/src/constants/playground.constants.js] and
    the storage of [web/src/components/playground/configStorage.js].

    A message is an object, usually one made by [createMessage]; it may also
    come from a stored or imported file, so the functions take any value and
    throw where the code would.  The counter of [generateMessageId] is a module
    variable that starts at 4 whenever the page is loaded. *)

From stdpp Require Import gmap.
From S2P Require Import Prelude JsString JsNumber JsValue Json Browser ThinkTags.

Local Open Scope Z_scope.

(** ** Constants *)

Definition LOADING : jstr := u "loading".
Definition INCOMPLETE : jstr := u "incomplete".
Definition COMPLETE : jstr := u "complete".
Definition ERROR : jstr := u "error".

Definition USER : jstr := u "user".
Definition ASSISTANT : jstr := u "assistant".
Definition SYSTEM : jstr := u "system".

Definition CONFIG_KEY : jstr := u "playground_config".
Definition MESSAGES_KEY : jstr := u "playground_messages".

Definition str (s : jstr) : val := VStr s.
Definition int (z : Z) : val := VNum (of_Z z).

Definition default_inputs : obj :=
  [(u "model", str (u "gpt-4o")); (u "group", str []);
   (u "temperature", VNum (Number (u "0.7"))); (u "top_p", int 1); (u "max_tokens", int 4096);
   (u "frequency_penalty", int 0); (u "presence_penalty", int 0); (u "seed", VNull);
   (u "stream", VBool true); (u "imageEnabled", VBool false);
   (u "imageUrls", VArr [str []])].

Definition default_parameterEnabled : obj :=
  [(u "temperature", VBool true); (u "top_p", VBool true); (u "max_tokens", VBool false);
   (u "frequency_penalty", VBool true); (u "presence_penalty", VBool true);
   (u "seed", VBool false)].

Record config := {
  c_inputs : obj;
  c_parameterEnabled : obj;
  c_showDebugPanel : val;
  c_customRequestMode : val;
  c_customRequestBody : val;
}.

Definition DEFAULT_CONFIG : config := {|
  c_inputs := default_inputs;
  c_parameterEnabled := default_parameterEnabled;
  c_showDebugPanel := VBool false;
  c_customRequestMode := VBool false;
  c_customRequestBody := str [];
|}.

(** [a && b] *)
Definition v_and (a b : val) : val := if truthy a then b else a.

(** [{ ...v }] *)
Definition spread (v : val) : obj := entries v.

(** ** Message helpers *)

Section messages.
Context `{Env}.

Definition getDefaultMessages : list val :=
  [VObj [(u "role", str USER); (u "id", str (u "2")); (u "createAt", int 1715676751919);
         (u "content", str (t (u "默认用户消息") None))];
   VObj [(u "role", str ASSISTANT); (u "id", str (u "3")); (u "createAt", int 1715676751919);
         (u "content", str (t (u "默认助手消息") None)); (u "reasoningContent", str []);
         (u "isReasoningExpanded", VBool false)]].

(** [let messageId = 4] *)
Definition first_messageId : nat := 4.

Definition generateMessageId (n : nat) : jstr * nat := (dec (Z.of_nat n), S n).

Definition createMessage (role : jstr) (content : val) (options : obj) (n : nat) : val * nat :=
  let '(id, n') := generateMessageId n in
  (VObj (obj_extend (obj_of_entries
     [(u "role", str role); (u "content", content);
      (u "createAt", VNum (of_Z (date_now n))); (u "id", str id)]) options), n').

Definition createLoadingAssistantMessage (n : nat) : val * nat :=
  createMessage ASSISTANT (str [])
    [(u "reasoningContent", str []); (u "isReasoningExpanded", VBool true);
     (u "isThinkingComplete", VBool false); (u "hasAutoCollapsed", VBool false);
     (u "status", str LOADING)] n.

Definition getTextContent (m : val) : res val :=
  if negb (truthy m) then Ok (str []) else
  let! content := get m (u "content") in
  if negb (truthy content) then Ok (str []) else
  match content with
  | VArr l => rmap (λ item, v_or (get_opt item (u "text")) (str [])) (find_text_item l)
  | VStr _ => Ok content
  | _ => Ok (str [])
  end.

(** [url.trim()]: only strings have it. *)
Definition v_trim (v : val) : res jstr :=
  match v with VStr s => Ok (trim s) | _ => Throw TypeError end.

(** [v.filter(p)] with a callback that may throw: only arrays have it. *)
Definition v_filter (p : val → res bool) (v : val) : res (list val) :=
  match v with VArr l => rfilter p l | _ => Throw TypeError end.

Definition nonblank_url (url : val) : res bool := rmap nonempty (v_trim url).

Definition image_item (url : jstr) : val :=
  VObj [(u "type", str (u "image_url")); (u "image_url", VObj [(u "url", str url)])].

Definition buildMessageContent (textContent imageUrls0 imageEnabled : val) : res val :=
  let imageUrls := if is_undef imageUrls0 then VArr [] else imageUrls0 in
  let no_images :=
    negb (truthy imageUrls) || strict_eq (get_opt imageUrls (u "length")) (int 0) in
  if negb (truthy textContent) && no_images then Ok (str []) else
  let! validImageUrls :=
    v_filter (λ url, if truthy url then nonblank_url url else Ok false) imageUrls in
  if truthy imageEnabled && (0 <? Z.of_nat (length validImageUrls)) then
    let! images := rmapM (λ url, rmap image_item (v_trim url)) validImageUrls in
    Ok (VArr (VObj [(u "type", str (u "text")); (u "text", v_or textContent (str []))] :: images))
  else Ok (v_or textContent (str [])).

(** [message.content.some((item) => item.type === 'image_url')] *)
Fixpoint some_image (l : list val) : res bool :=
  match l with
  | [] => Ok false
  | item :: l =>
    let! ty := get item (u "type") in
    if is_text ty (u "image_url") then Ok true else some_image l
  end.
Definition hasImageContent (m : val) : res bool :=
  if negb (truthy m) then Ok false else
  let! content := get m (u "content") in
  match content with VArr l => some_image l | _ => Ok false end.

Definition formatMessageForAPI (m : val) : res val :=
  if negb (truthy m) then Ok VNull else
  let! role := get m (u "role") in
  let! content := get m (u "content") in
  Ok (VObj [(u "role", role); (u "content", content)]).

Definition isValidMessage (m : val) : res bool :=
  if negb (truthy m) then Ok false else
  let! role := get m (u "role") in
  if negb (truthy role) then Ok false else
  let! content := get m (u "content") in
  Ok (truthy content || is_text content []).

(** The last message with a role, from the end *)
Fixpoint last_with_role (role : jstr) (rev_messages : list val) : res val :=
  match rev_messages with
  | [] => Ok VNull
  | m :: l =>
    let! r := get m (u "role") in
    if is_text r role then Ok m else last_with_role role l
  end.
Definition getLastUserMessage (messages : val) : res val :=
  match messages with VArr l => last_with_role USER (rev l) | _ => Ok VNull end.
Definition getLastAssistantMessage (messages : val) : res val :=
  match messages with VArr l => last_with_role ASSISTANT (rev l) | _ => Ok VNull end.

(** ** Request bodies *)

Definition parameterMappings : list (jstr * jstr) :=
  map (λ k, (u k, u k))
    ["temperature"; "top_p"; "max_tokens"; "frequency_penalty"; "presence_penalty"; "seed"].

Definition add_parameter (inputs parameterEnabled : obj) (payload : obj) (kp : jstr * jstr) : obj :=
  let '(key, param) := kp in
  let enabled := oget parameterEnabled key in
  let value := oget inputs param in
  if truthy enabled && negb (is_nullish value) then obj_set payload param value else payload.

Definition buildApiPayload (messages : list val) (systemPrompt : val)
    (inputs parameterEnabled : obj) : res val :=
  let! valid := rfilter isValidMessage messages in
  let! formatted := rmapM formatMessageForAPI valid in
  let processedMessages := List.filter truthy formatted in
  let! prompt := if truthy systemPrompt then v_trim systemPrompt else Ok [] in
  let processedMessages :=
    if nonempty prompt
    then VObj [(u "role", str SYSTEM); (u "content", str prompt)] :: processedMessages
    else processedMessages in
  let payload :=
    [(u "model", oget inputs (u "model")); (u "group", oget inputs (u "group"));
     (u "messages", VArr processedMessages); (u "stream", oget inputs (u "stream"))] in
  Ok (VObj (fold_left (add_parameter inputs parameterEnabled) parameterMappings payload)).

(** [handleApiError(error, response)]; a response is its status and text. *)
Definition handleApiError (e : exc) (response : option (val * val)) : obj :=
  let msg := message_of e in
  let errorInfo :=
    [(u "error", str (if nonempty msg then msg else u "未知错误"));
     (u "timestamp", str iso_now); (u "stack", str (error_stack e))] in
  let errorInfo :=
    match response with
    | Some (status, statusText) =>
      obj_set (obj_set errorInfo (u "status") status) (u "statusText") statusText
    | None => errorInfo
    end in
  if includes (u "HTTP error") msg
  then obj_set errorInfo (u "details") (str (u "服务器返回了错误状态码"))
  else if includes (u "Failed to fetch") msg
  then obj_set errorInfo (u "details") (str (u "网络连接失败或服务器无响应"))
  else errorInfo.

(** ** Option lists *)

Definition model_option (model : val) : val := VObj [(u "label", model); (u "value", model)].

Definition processModelsData (data currentModel : val) : res (list val * val) :=
  match data with
  | VArr models =>
    let modelOptions := map model_option models in
    let hasCurrentModel := existsb (λ m, strict_eq m currentModel) models in
    let selectedModel :=
      if hasCurrentModel && (0 <? Z.of_nat (length modelOptions)) then currentModel
      else match models with m :: _ => m | [] => VUndef end in
    Ok (modelOptions, selectedModel)
  | _ => Throw TypeError
  end.

(** [info.desc.length > 20 ? info.desc.substring(0, 20) + '...' : info.desc] *)
Definition short_desc (desc : val) : res val :=
  let! len := get desc (u "length") in
  let! n := to_num len in
  if ngtb n (of_Z 20) then
    match desc with
    | VStr s => Ok (str (take 20 s ++ u "..."))
    | _ => Throw TypeError
    end
  else Ok desc.

Definition group_option (gi : jstr * val) : res (jstr * val) :=
  let '(group, info) := gi in
  let! desc := get info (u "desc") in
  let! label := short_desc desc in
  let! ratio := get info (u "ratio") in
  Ok (group, VObj [(u "label", label); (u "value", str group); (u "ratio", ratio);
                   (u "fullLabel", desc)]).

Definition user_group_option : jstr * val :=
  ([], VObj [(u "label", str (u "用户分组")); (u "value", str []); (u "ratio", int 1)]).

(** Options are kept with their group, the value of the option. *)
Definition processGroupsData (data userGroup : val) : res (list (jstr * val)) :=
  if is_nullish data then Throw TypeError else
  let! groupOptions := rmapM group_option (entries data) in
  match groupOptions with
  | [] => Ok [user_group_option]
  | _ =>
    if truthy userGroup then
      match find_index (λ g, strict_eq (str g.1) userGroup) groupOptions with
      | Some i =>
        match splice1 i groupOptions with
        | (Some g, rest) => Ok (g :: rest)
        | (None, rest) => Ok rest
        end
      | None => Ok groupOptions
      end
    else Ok groupOptions
  end.

(** ** Storage *)

(** [try { localStorage.setItem(k, s) } catch { }] *)
Definition try_setItem (k s : jstr) (st : storage) : storage := rcatch (setItem k s st) st.

Definition config_obj (c : config) : obj :=
  [(u "inputs", VObj (c_inputs c)); (u "parameterEnabled", VObj (c_parameterEnabled c));
   (u "showDebugPanel", c_showDebugPanel c); (u "customRequestMode", c_customRequestMode c);
   (u "customRequestBody", c_customRequestBody c)].

Definition saveConfig (c : config) (st : storage) : storage :=
  let configToSave := obj_set (config_obj c) (u "timestamp") (str iso_now) in
  try_setItem CONFIG_KEY (stringify_text (VObj configToSave)) st.

Definition saveMessages (messages : val) (st : storage) : storage :=
  let messagesToSave := [(u "messages", messages); (u "timestamp", str iso_now)] in
  try_setItem MESSAGES_KEY (stringify_text (VObj messagesToSave)) st.

Definition merge_config (parsedConfig : val) : res config :=
  let! inputs := get parsedConfig (u "inputs") in
  let! enabled := get parsedConfig (u "parameterEnabled") in
  let! panel := get parsedConfig (u "showDebugPanel") in
  let! mode := get parsedConfig (u "customRequestMode") in
  let! body := get parsedConfig (u "customRequestBody") in
  Ok {| c_inputs := obj_extend default_inputs (spread inputs);
        c_parameterEnabled := obj_extend default_parameterEnabled (spread enabled);
        c_showDebugPanel := v_or panel (c_showDebugPanel DEFAULT_CONFIG);
        c_customRequestMode := v_or mode (c_customRequestMode DEFAULT_CONFIG);
        c_customRequestBody := v_or body (c_customRequestBody DEFAULT_CONFIG) |}.

Definition loadConfig (st : storage) : config :=
  match getItem st CONFIG_KEY with
  | VStr s =>
    if nonempty s then rcatch (let! parsed := JSON_parse s in merge_config parsed) DEFAULT_CONFIG
    else DEFAULT_CONFIG
  | _ => DEFAULT_CONFIG
  end.

(** A field of the stored object, [null] when there is none or it is falsy *)
Definition stored_field (st : storage) (key field : jstr) : val :=
  match getItem st key with
  | VStr s =>
    if nonempty s then
      rcatch (let! parsed := JSON_parse s in
              let! v := get parsed field in
              Ok (v_or v VNull)) VNull
    else VNull
  | _ => VNull
  end.

Definition loadMessages (st : storage) : val := stored_field st MESSAGES_KEY (u "messages").

Definition clearConfig (st : storage) : storage :=
  removeItem MESSAGES_KEY (removeItem CONFIG_KEY st).
Definition clearMessages (st : storage) : storage := removeItem MESSAGES_KEY st.
Definition hasStoredConfig (st : storage) : bool := negb (is_null (getItem st CONFIG_KEY)).
Definition getConfigTimestamp (st : storage) : val := stored_field st CONFIG_KEY (u "timestamp").

(** The text of the file that [exportConfig] offers for download *)
Definition exportConfig (c : config) (messages : val) (st : storage) : jstr :=
  stringify2_text (VObj (obj_extend (config_obj c)
    [(u "messages", if truthy messages then messages else loadMessages st);
     (u "exportTime", str iso_now); (u "version", str (u "1.0"))])).

(** [importConfig(file)] once the text of the file is read *)
Definition importConfig (text : jstr) (st : storage) : res val * storage :=
  let parsed :=
    let! c := JSON_parse text in
    let! inputs := get c (u "inputs") in
    if negb (truthy inputs) then Ok None else
    let! enabled := get c (u "parameterEnabled") in
    if negb (truthy enabled) then Ok None else
    let! messages := get c (u "messages") in
    Ok (Some (c, messages)) in
  match parsed with
  | Ok (Some (c, messages)) =>
    (Ok c, if is_arr messages then saveMessages messages st else st)
  | Ok None => (Throw (UserError (u "配置文件格式无效")), st)
  | Throw e => (Throw (UserError (u "解析配置文件失败: " ++ message_of e)), st)
  end.

(** ** Changes of the configuration ([usePlaygroundState]) *)

Definition handleInputChange (name : jstr) (value : val) (c : config) : config :=
  {| c_inputs := obj_set (c_inputs c) name value; c_parameterEnabled := c_parameterEnabled c;
     c_showDebugPanel := c_showDebugPanel c; c_customRequestMode := c_customRequestMode c;
     c_customRequestBody := c_customRequestBody c |}.

Definition handleParameterToggle (name : jstr) (c : config) : config :=
  {| c_inputs := c_inputs c;
     c_parameterEnabled :=
       obj_set (c_parameterEnabled c) name
         (VBool (negb (truthy (oget (c_parameterEnabled c) name))));
     c_showDebugPanel := c_showDebugPanel c; c_customRequestMode := c_customRequestMode c;
     c_customRequestBody := c_customRequestBody c |}.

Definition is_bool (v : val) : bool := match v with VBool _ => true | _ => false end.

Definition handleConfigImport (imported : val) (c : config) (messages : list val)
    : res (config * list val) :=
  let! inputs := get imported (u "inputs") in
  let! enabled := get imported (u "parameterEnabled") in
  let! panel := get imported (u "showDebugPanel") in
  let! mode := get imported (u "customRequestMode") in
  let! body := get imported (u "customRequestBody") in
  let! msgs := get imported (u "messages") in
  Ok ({| c_inputs := if truthy inputs then obj_extend (c_inputs c) (spread inputs) else c_inputs c;
         c_parameterEnabled :=
           if truthy enabled then obj_extend (c_parameterEnabled c) (spread enabled)
           else c_parameterEnabled c;
         c_showDebugPanel := if is_bool panel then panel else c_showDebugPanel c;
         c_customRequestMode := if truthy mode then mode else c_customRequestMode c;
         c_customRequestBody := if truthy body then body else c_customRequestBody c |},
      match msgs with VArr l => l | _ => messages end).

(** ** Loading of models and groups ([useDataLoader])

    [reply] is what the request gives: the body of the answer, or an
    exception.  [showError], which both branches for failures call, is not
    imported by the file: the call throws a [ReferenceError]. *)

Definition show_error {A} : res A := Throw ReferenceError.
Definition report_error {A} (r : res A) : res A :=
  match r with Ok a => Ok a | Throw _ => show_error end.

Definition loadModels (reply : res val) (c : config) : res (list val * config) :=
  report_error
    (let! body := reply in
     let! success := get body (u "success") in
     let! data := get body (u "data") in
     if truthy success then
       let model := oget (c_inputs c) (u "model") in
       let! (modelOptions, selectedModel) := processModelsData data model in
       Ok (modelOptions,
           if strict_eq selectedModel model then c
           else handleInputChange (u "model") selectedModel c)
     else show_error).

(** [JSON.parse(localStorage.getItem('user'))] *)
Definition stored_user (st : storage) : res val :=
  match getItem st (u "user") with VStr s => JSON_parse s | _ => Ok VNull end.

Definition loadGroups (reply : res val) (userState : val) (st : storage) (c : config)
    : res (list (jstr * val) * config) :=
  report_error
    (let! body := reply in
     let! success := get body (u "success") in
     let! data := get body (u "data") in
     if truthy success then
       let own := get_opt (get_opt userState (u "user")) (u "group") in
       let! userGroup :=
         if truthy own then Ok own
         else rmap (λ user, get_opt user (u "group")) (stored_user st) in
       let! groupOptions := processGroupsData data userGroup in
       let hasCurrentGroup :=
         existsb (λ g, strict_eq (str g.1) (oget (c_inputs c) (u "group"))) groupOptions in
       Ok (groupOptions,
           if hasCurrentGroup then c
           else handleInputChange (u "group")
                  (str (match groupOptions with g :: _ => g.1 | [] => [] end)) c)
     else show_error).
End messages.

(** ** Request bodies carry the conversation *)

(** The object is a literal of the source: its keys are in order and well
    formed, what remains are the values. *)
Ltac solve_values :=
  repeat first [apply Forall_nil_2|apply Forall_cons_2; [split; [solve_wf|cbn [snd]]|]].
Ltac solve_fields := constructor; [solve_keys|]; solve_values.

Section facts.
Context `{Env}.

(** Messages are objects. *)
Definition plain_messages (ms : list val) : Prop := Forall (λ m, is_plain m = true) ms.

(** What the API receives of a message, and which messages it receives *)
Definition api_message (m : val) : val :=
  VObj [(u "role", get_opt m (u "role")); (u "content", get_opt m (u "content"))].
Definition sendable (m : val) : bool :=
  truthy (get_opt m (u "role")) &&
  (truthy (get_opt m (u "content")) || is_text (get_opt m (u "content")) []).
Definition prompt_val (prompt : option jstr) : val :=
  match prompt with Some s => str s | None => VNull end.
Definition system_message (prompt : option jstr) : list val :=
  match prompt with
  | Some s => if nonempty (trim s)
              then [VObj [(u "role", str SYSTEM); (u "content", str (trim s))]] else []
  | None => []
  end.

Lemma isValidMessage_plain m : is_plain m = true → isValidMessage m = Ok (sendable m).
Proof.
  destruct m as [| | | | | |o|]; try done. intros _. unfold isValidMessage, sendable, get_opt.
  cbn [truthy negb get rbind]. by destruct (truthy _).
Qed.

Lemma formatted_messages ms :
  plain_messages ms →
  (let! valid := rfilter isValidMessage ms in rmapM formatMessageForAPI valid) =
  Ok (map api_message (List.filter sendable ms)).
Proof.
  intros Hms. rewrite (rfilter_ok _ sendable).
  - simpl. apply rmapM_ok. apply Forall_forall. intros m [Hm _]%elem_of_filter_bool.
    unfold plain_messages in Hms. rewrite Forall_forall in Hms. specialize (Hms m Hm).
    by destruct m.
  - eapply Forall_impl; [exact Hms|]. intros m. apply isValidMessage_plain.
Qed.

(** One parameter is written if it is switched on and has a value. *)
Definition parameter_value (inputs enabled : obj) (k : jstr) : option val :=
  if truthy (oget enabled k) && negb (is_nullish (oget inputs k))
  then Some (oget inputs k) else None.

Lemma get_add_parameters inputs enabled ks p k :
  NoDup ks →
  obj_get (fold_left (add_parameter inputs enabled) (map (λ k, (k, k)) ks) p) k =
  if decide (k ∈ ks)
  then match parameter_value inputs enabled k with Some v => Some v | None => obj_get p k end
  else obj_get p k.
Proof.
  intros Hnd. revert p. induction Hnd as [|k0 ks Hk0 Hnd IH]; intros p; [done|].
  cbn [map fold_left]. rewrite IH. unfold add_parameter, parameter_value.
  destruct (decide (k ∈ ks)) as [Hin|Hin].
  - rewrite decide_True by set_solver. assert (k0 ≠ k) by (intros ->; done).
    destruct (_ && _); [done|]. destruct (_ && _); [|done]. rewrite obj_get_set.
    by rewrite decide_False.
  - destruct (decide (k = k0)) as [->|Hne].
    + rewrite decide_True by set_solver. destruct (_ && _); [|done].
      rewrite obj_get_set. by rewrite decide_True.
    + rewrite (decide_False (P := k ∈ k0 :: ks)) by set_solver.
      destruct (_ && _); [|done]. rewrite obj_get_set. by rewrite decide_False.
Qed.

(** The parameters of a chat completion that the page offers *)
Definition parameter_names : list jstr :=
  [u "temperature"; u "top_p"; u "max_tokens"; u "frequency_penalty"; u "presence_penalty"; u "seed"].

Lemma parameterMappings_names : parameterMappings = map (λ k, (k, k)) parameter_names.
Proof. done. Qed.

Lemma parameter_names_NoDup : NoDup parameter_names.
Proof. by apply (bool_decide_unpack _). Qed.

(** C22: the request body carries, besides the model, the group and the stream
    flag, exactly the role and the content of every sendable message in order,
    after the system prompt when there is one, and exactly those of the six
    parameters temperature, top_p, max_tokens, frequency_penalty,
    presence_penalty and seed that are switched on and have a value. *)
Theorem payload_exact ms prompt inputs enabled :
  plain_messages ms →
  ∃ p, buildApiPayload ms (prompt_val prompt) inputs enabled = Ok (VObj p) ∧
    obj_get p (u "messages") =
      Some (VArr (system_message prompt ++ map api_message (List.filter sendable ms))) ∧
    obj_get p (u "model") = Some (oget inputs (u "model")) ∧
    obj_get p (u "group") = Some (oget inputs (u "group")) ∧
    obj_get p (u "stream") = Some (oget inputs (u "stream")) ∧
    ∀ k, k ∉ [u "messages"; u "model"; u "group"; u "stream"] →
      obj_get p k =
      if decide (k ∈ parameter_names) then parameter_value inputs enabled k else None.
Proof.
  intros Hms. pose proof (formatted_messages ms Hms) as Hf. unfold buildApiPayload.
  destruct (rfilter isValidMessage ms) as [valid|]; simpl in Hf; [|done].
  cbn [rbind]. rewrite Hf. cbn [rbind].
  assert (Hall : List.filter truthy (map api_message (List.filter sendable ms)) =
                 map api_message (List.filter sendable ms)).
  { apply filter_all, Forall_map_2, Forall_forall. done. }
  rewrite Hall.
  assert (Hp : (let! s := if truthy (prompt_val prompt)
                          then v_trim (prompt_val prompt) else Ok [] in
                Ok (if nonempty s
                    then VObj [(u "role", str SYSTEM); (u "content", str s)]
                           :: map api_message (List.filter sendable ms)
                    else map api_message (List.filter sendable ms))) =
               Ok (system_message prompt ++ map api_message (List.filter sendable ms))).
  { destruct prompt as [s|]; [|done]. cbn [prompt_val].
    destruct (truthy (str s)) eqn:E; cbn [v_trim str rbind system_message].
    - by destruct (nonempty (trim s)).
    - by destruct s. }
  destruct (if truthy _ then _ else _) as [s|]; cbn [rbind] in Hp |- *; [|done].
  injection Hp as ->. eexists. split; [done|].
  rewrite parameterMappings_names.
  setoid_rewrite (get_add_parameters _ _ _ _ _ parameter_names_NoDup).
  split_and!; [done..|]. intros k Hk.
  assert (Hbase : ∀ a b c d, obj_get [(u "model", a); (u "group", b); (u "messages", c);
                                      (u "stream", d)] k = None).
  { intros a b c d. apply obj_get_keys. cbn [obj_keys map fst]. set_solver. }
  rewrite Hbase. case_decide; [|done]. by destruct (parameter_value _ _ _).
Qed.

(** ** Stored and exported data *)

Lemma ser_obj_parse gap o :
  all_ws gap → val_wf (VObj o) →
  JSON_parse (default [] (ser gap [] (VObj o))) = Ok (json_norm (VObj o)).
Proof.
  intros Hg Hwf. eapply JSON_parse_ser; [exact Hg|exact Hwf|].
  rewrite ser_serializable by done. done.
Qed.

Lemma ser_obj_nonempty gap o : nonempty (default [] (ser gap [] (VObj o))) = true.
Proof.
  destruct (ser gap [] (VObj o)) as [s|] eqn:E; [|by rewrite ser_serializable in E].
  apply ser_obj_tight in E as [_ Hne]. by destruct s.
Qed.

Lemma getItem_saved k s st : has_room s = true → getItem (try_setItem k s st) k = VStr s.
Proof.
  intros Hs. unfold getItem, try_setItem, setItem. rewrite Hs. simpl. by rewrite lookup_insert_eq.
Qed.

Lemma getItem_other k k' s st : k ≠ k' → getItem (try_setItem k s st) k' = getItem st k'.
Proof.
  intros Hk. unfold getItem, try_setItem, setItem. destruct (has_room s); [|done]. simpl.
  by rewrite lookup_insert_ne.
Qed.

(** The text [saveMessages] writes *)
Definition messages_text (ms : list val) : jstr :=
  stringify_text (VObj [(u "messages", VArr ms); (u "timestamp", str iso_now)]).

Lemma iso_data : json_data (str iso_now).
Proof. constructor. apply iso_now_wf. Qed.

Lemma load_saved ms st :
  val_wf (VArr ms) → has_room (messages_text ms) = true →
  loadMessages (saveMessages (VArr ms) st) = json_norm (VArr ms).
Proof.
  intros Hwf Hroom. unfold loadMessages, stored_field, saveMessages.
  rewrite getItem_saved by exact Hroom. unfold stringify_text, stringify. rewrite ser_obj_nonempty.
  rewrite ser_obj_parse; [|constructor|].
  2:{ solve_fields; [exact Hwf|]. constructor. apply iso_now_wf. }
  cbn [rbind]. rewrite get_norm by solve_keys. done.
Qed.

(** A configuration as the settings panel produces it: data that JSON can
    express, with all the known fields in their order. *)
Record config_ok (c : config) : Prop := {
  co_inputs : json_data (VObj (c_inputs c));
  co_enabled : json_data (VObj (c_parameterEnabled c));
  co_inputs_keys : obj_keys default_inputs `prefix_of` obj_keys (c_inputs c);
  co_enabled_keys :
    obj_keys default_parameterEnabled `prefix_of` obj_keys (c_parameterEnabled c);
  co_panel : ∃ b, c_showDebugPanel c = VBool b;
  co_mode : ∃ b, c_customRequestMode c = VBool b;
  co_body : ∃ s, c_customRequestBody c = str s ∧ jstr_wf s;
}.

(** Spreading an object over one with a prefix of its keys gives the object. *)
Lemma obj_extend_over d p :
  obj_ok p → obj_keys d `prefix_of` obj_keys p → obj_extend d p = p.
Proof.
  intros Hp Hd. enough (Hgen : ∀ a, obj_ok (a ++ p) → obj_extend (a ++ d) p = a ++ p).
  { exact (Hgen [] Hp). }
  clear Hp. revert p Hd. induction d as [|[k v] d IH]; intros p Hd a Ha.
  { rewrite app_nil_r. by apply obj_extend_sorted. }
  destruct p as [|[k' v'] p]; [by apply prefix_nil_not in Hd|].
  apply prefix_cons_inv_1 in Hd as Hk. apply prefix_cons_inv_2 in Hd. simpl in Hk. subst k'.
  unfold obj_extend in *. simpl.
  assert (Hset : obj_set (a ++ (k, v) :: d) k v' = (a ++ [(k, v')]) ++ d).
  { assert (Hka : obj_get a k = None).
    { apply obj_get_keys. intros Hin. unfold obj_ok, obj_keys in Ha. rewrite map_app in Ha.
      destruct (StronglySorted_app_1_elem_of _ _ _ k k Ha Hin) as [? _]; [|done]; simpl; set_solver. }
    unfold obj_set, obj_has. rewrite obj_get_app, Hka. simpl. rewrite (bool_decide_eq_true_2 (k = k)) by done.
    rewrite bool_decide_eq_true_2 by eauto. clear -Hka.
    induction a as [|[k1 v1] a IHa]; simpl; [by rewrite bool_decide_eq_true_2|].
    simpl in Hka. destruct (bool_decide (k1 = k)); [done|]. by rewrite IHa. }
  rewrite Hset. rewrite (IH p Hd (a ++ [(k, v')])); [by rewrite <- app_assoc|].
  by rewrite <- app_assoc.
Qed.

Lemma config_data c : config_ok c → json_data (VObj (config_obj c)).
Proof.
  intros [Hi He _ _ [b Hb] [m Hm] (s & Hs & Hwf)]. unfold config_obj. rewrite Hb, Hm, Hs.
  solve_fields; try done; by constructor.
Qed.

Lemma config_extend_data c o :
  config_ok c → obj_ok (config_obj c ++ o) → Forall (λ kv, jstr_wf kv.1 ∧ json_data kv.2) o →
  json_data (VObj (config_obj c ++ o)).
Proof.
  intros Hc Hok Ho. apply config_data in Hc. inversion_clear Hc as [| | | | |? ? Hf].
  constructor; [done|]. by apply Forall_app.
Qed.

Lemma merge_config_ok c o :
  config_ok c → merge_config (VObj (config_obj c ++ o)) = Ok c.
Proof.
  intros [Hi He Hki Hke [b Hb] [m Hm] (s & Hs & Hwf)]. unfold merge_config.
  destruct c as [i e p md body]. simpl in *. subst.
  inversion_clear Hi. inversion_clear He. rewrite !obj_extend_over by done.
  by destruct b, m, s.
Qed.

Definition config_text (c : config) : jstr :=
  stringify_text (VObj (config_obj c ++ [(u "timestamp", str iso_now)])).

Lemma saveConfig_text c st : saveConfig c st = try_setItem CONFIG_KEY (config_text c) st.
Proof. done. Qed.

(** the configuration survives a reload: [loadConfig] after [saveConfig]
    gives back every field, whatever is saved of the messages in between. *)
Theorem saved_config_loads c ms st :
  config_ok c → has_room (config_text c) = true →
  loadConfig (saveMessages ms (saveConfig c st)) = c.
Proof.
  intros Hc Hroom. unfold loadConfig, saveMessages.
  rewrite getItem_other by (by vm_compute). rewrite saveConfig_text, getItem_saved by done.
  unfold config_text at 1. unfold stringify_text, stringify. rewrite ser_obj_nonempty.
  unfold config_text, stringify_text, stringify.
  rewrite JSON_parse_stringify; [|constructor|].
  - cbn [rbind]. by rewrite merge_config_ok.
  - apply config_extend_data; [done|solve_keys|]. solve_values. apply iso_data.
Qed.

(** The object in an exported file *)
Definition exported (c : config) (ms : list val) : obj :=
  config_obj c ++ [(u "messages", VArr ms); (u "exportTime", str iso_now);
                   (u "version", str (u "1.0"))].

Lemma exported_data c ms : config_ok c → json_data (VArr ms) → json_data (VObj (exported c ms)).
Proof.
  intros Hc Hms. apply config_extend_data; [done|solve_keys|].
  solve_values; [done|apply iso_data|]. constructor. solve_wf.
Qed.

(** importing an exported file restores the exported configuration and
    conversation in a session that is not in custom mode, and stores the
    conversation. *)
Theorem export_import c ms c0 ms0 st st0 :
  config_ok c → json_data (VArr ms) →
  obj_keys (c_inputs c0) `prefix_of` obj_keys (c_inputs c) →
  obj_keys (c_parameterEnabled c0) `prefix_of` obj_keys (c_parameterEnabled c) →
  c_customRequestMode c0 = VBool false → c_customRequestBody c0 = str [] →
  ∃ v, importConfig (exportConfig c (VArr ms) st) st0 = (Ok v, saveMessages (VArr ms) st0) ∧
       handleConfigImport v c0 ms0 = Ok (c, ms).
Proof.
  intros Hc Hms Hki Hke Hm0 Hb0. exists (VObj (exported c ms)).
  assert (Hx : exportConfig c (VArr ms) st = stringify2_text (VObj (exported c ms))) by done.
  rewrite Hx. unfold importConfig, stringify2_text, stringify2.
  rewrite JSON_parse_stringify; [|apply indent2_ws|by apply exported_data].
  split; [done|]. destruct Hc as [Hi He _ _ [b Hb] [m Hm] (s & Hs & Hwf)].
  destruct c as [i e p md body], c0 as [i0 e0 p0 m0 b0]. simpl in *. subst.
  unfold handleConfigImport. inversion_clear Hi. inversion_clear He.
  simpl. rewrite !obj_extend_over by done. by destruct m, s.
Qed.

(** ** Loaded options *)

Lemma group_option_name gi g : group_option gi = Ok g → g.1 = gi.1.
Proof.
  destruct gi as [k info]. unfold group_option.
  destruct (get info (u "desc")); simpl; [|done]. destruct (short_desc _); simpl; [|done].
  destruct (get info (u "ratio")); simpl; [|done]. by intros [= <-].
Qed.

Lemma group_options_names l gs : rmapM group_option l = Ok gs → map fst gs = map fst l.
Proof.
  revert gs. induction l as [|x l IH]; simpl; intros gs Hgs; [by simplify_eq|].
  destruct (group_option x) eqn:E; simpl in Hgs; [|done].
  destruct (rmapM group_option l) eqn:El; simpl in Hgs; [|done]. simplify_eq. simpl.
  by rewrite (group_option_name _ _ E), (IH _ eq_refl).
Qed.

Lemma strict_eq_str s v : strict_eq (str s) v = true ↔ v = str s.
Proof.
  unfold str, strict_eq. destruct v; try (by split). rewrite bool_decide_eq_true. naive_solver.
Qed.

(** the groups offered are the groups of the answer, each once, with the
    user's own group first; when there is none, one entry stands for it. *)
Theorem groups_offered data userGroup gs :
  processGroupsData data userGroup = Ok gs →
  gs ≠ [] ∧ (entries data ≠ [] → map fst gs ≡ₚ map fst (entries data)) ∧
  (∀ g, userGroup = str g → g ≠ [] → g ∈ map fst (entries data) → head (map fst gs) = Some g).
Proof.
  unfold processGroupsData. destruct (is_nullish data); [done|].
  destruct (rmapM group_option (entries data)) as [os|] eqn:E; cbn [rbind]; [|done].
  pose proof (group_options_names _ _ E) as Hn. destruct os as [|o os].
  { intros [= <-]. apply rmapM_length in E. destruct (entries data); [|done].
    split_and!; [done|done|]. intros g _ _ Hg. simpl in Hg. set_solver. }
  destruct (truthy userGroup) eqn:Eu.
  2:{ intros [= <-]. split_and!; [done|by rewrite Hn|]. intros g -> Hne _. by destruct g. }
  destruct (find_index _ (o :: os)) as [i|] eqn:Ei.
  - apply find_index_Some in Ei as (x & Hx & Hp & _).
    destruct (splice1 i (o :: os)) as [[g|] rest] eqn:Es.
    2:{ unfold splice1 in Es. rewrite Hx in Es. done. }
    intros [= <-]. pose proof (splice1_perm _ _ _ _ Es) as Hperm.
    split_and!; [done| |].
    + intros _. rewrite <- Hn. by rewrite Hperm.
    + intros g' -> _ _. unfold splice1 in Es. rewrite Hx in Es. simplify_eq.
      apply strict_eq_str in Hp. by injection Hp as ->.
  - intros [= <-]. split_and!; [done|by rewrite Hn|]. intros g -> _ Hg. exfalso.
    rewrite <- Hn in Hg. apply list_elem_of_fmap in Hg as (y & -> & Hy).
    apply find_index_None in Ei. rewrite Forall_forall in Ei. specialize (Ei y Hy).
    apply not_true_iff_false in Ei. by apply Ei, strict_eq_str.
Qed.

(** after the models are loaded, the selected model is one of those offered,
    the current one when it is among them. *)
Theorem selected_model_offered names body c opts c' :
  names ≠ [] → get body (u "data") = Ok (VArr (map str names)) →
  loadModels (Ok body) c = Ok (opts, c') →
  opts = map model_option (map str names) ∧
  ∃ m, m ∈ names ∧ oget (c_inputs c') (u "model") = str m ∧
       (∀ m0, oget (c_inputs c) (u "model") = str m0 → m0 ∈ names → m = m0).
Proof.
  intros Hne Hd. unfold loadModels. cbn [rbind]. destruct (get body (u "success")); [|done].
  cbn [rbind]. rewrite Hd. cbn [rbind]. destruct (truthy a); [|done].
  unfold processModelsData. rewrite length_map, length_map.
  replace (0 <? Z.of_nat (length names)) with true by (destruct names; done).
  rewrite andb_true_r. cbn [rbind report_error].
  destruct (existsb _ (map str names)) eqn:Ex.
  - apply existsb_exists in Ex as (x & Hx & Heq). apply in_map_iff in Hx as (m & <- & Hm).
    apply strict_eq_str in Heq. rewrite Heq.
    rewrite (proj2 (strict_eq_str m _) eq_refl). intros [= <- <-]. split; [done|].
    exists m. rewrite Heq. split_and!; [by apply list_elem_of_In|done|].
    intros m0 [= ->] _. done.
  - destruct names as [|m names]; [done|]. cbn [map]. intros Heq.
    apply Ok_inj in Heq. apply pair_eq in Heq as [<- Hc']. split; [done|].
    exists m. assert (Hcur : ∀ m0, oget (c_inputs c) (u "model") = str m0 → m0 ∉ m :: names).
    { intros m0 Hm0 Hin. rewrite Hm0 in Ex.
      apply not_true_iff_false in Ex. apply Ex. apply existsb_exists. exists (str m0).
      split; [by apply in_map, list_elem_of_In|]. by apply strict_eq_str. }
    split; [set_solver|]. split; [|intros m0 Hm0 Hin; by apply Hcur in Hm0].
    destruct (strict_eq (str m) _) eqn:E; subst c'.
    + apply strict_eq_str in E. apply Hcur in E. set_solver.
    + unfold oget. cbn [handleInputChange c_inputs]. rewrite obj_get_set. by rewrite decide_True.
Qed.

(** A failed request is not reported: the reporting itself throws. *)
Theorem load_error_unreported e c us st :
  loadModels (Throw e) c = Throw ReferenceError ∧
  loadGroups (Throw e) us st c = Throw ReferenceError.
Proof. done. Qed.
End facts.

(** ** Examples *)

Definition sample_message : val := VObj [(u "role", str USER); (u "content", str (u "hi"))].

Lemma payload_exact_witness :
  plain_messages [sample_message; VObj []] ∧
  ∃ p, buildApiPayload [sample_message; VObj []] (prompt_val (Some (u " be brief "))) default_inputs
         default_parameterEnabled = Ok (VObj p) ∧
    obj_get p (u "messages") =
      Some (VArr (system_message (Some (u " be brief ")) ++
                  map api_message (List.filter sendable [sample_message; VObj []]))) ∧
    obj_get p (u "model") = Some (oget default_inputs (u "model")) ∧
    obj_get p (u "group") = Some (oget default_inputs (u "group")) ∧
    obj_get p (u "stream") = Some (oget default_inputs (u "stream")) ∧
    ∀ k, k ∉ [u "messages"; u "model"; u "group"; u "stream"] →
      obj_get p k = if decide (k ∈ parameter_names)
                    then parameter_value default_inputs default_parameterEnabled k else None.
Proof.
  assert (Hm : plain_messages [sample_message; VObj []]) by by repeat constructor.
  split; [exact Hm|].
  exact (payload_exact [sample_message; VObj []] (Some (u " be brief ")) default_inputs
           default_parameterEnabled Hm).
Defined.

Lemma default_config_ok : config_ok DEFAULT_CONFIG.
Proof.
  split; try by eexists.
  - solve_fields; repeat constructor; try solve_wf; by vm_compute.
  - solve_fields; repeat constructor.
  - eexists. split; [done|]. constructor.
Qed.

Lemma saved_config_loads_witness :
  config_ok DEFAULT_CONFIG ∧
  @loadConfig (@saveMessages plain_env VNull (@saveConfig plain_env DEFAULT_CONFIG ∅)) =
  DEFAULT_CONFIG.
Proof.
  split; [exact default_config_ok|].
  exact (@saved_config_loads plain_env DEFAULT_CONFIG VNull ∅ default_config_ok eq_refl).
Defined.

Lemma export_import_witness :
  ∃ v, @importConfig plain_env (@exportConfig plain_env DEFAULT_CONFIG (VArr []) ∅) ∅ =
         (Ok v, @saveMessages plain_env (VArr []) ∅) ∧
       handleConfigImport v DEFAULT_CONFIG [VNull] = Ok (DEFAULT_CONFIG, []).
Proof.
  exact (@export_import plain_env DEFAULT_CONFIG [] DEFAULT_CONFIG [VNull] ∅ ∅ default_config_ok
           ltac:(by repeat constructor) ltac:(done) ltac:(done) eq_refl eq_refl).
Defined.

Definition sample_groups : val :=
  VObj [(u "default", VObj [(u "desc", str (u "all")); (u "ratio", int 1)]);
        (u "vip", VObj [(u "desc", str (u "paying")); (u "ratio", int 2)])].

Lemma groups_offered_witness :
  ∃ gs, processGroupsData sample_groups (str (u "vip")) = Ok gs ∧
    gs ≠ [] ∧ (entries sample_groups ≠ [] → map fst gs ≡ₚ map fst (entries sample_groups)) ∧
    (∀ g, str (u "vip") = str g → g ≠ [] → g ∈ map fst (entries sample_groups) →
          head (map fst gs) = Some g).
Proof.
  eexists. assert (Hg : processGroupsData sample_groups (str (u "vip")) =
    Ok (rcatch (processGroupsData sample_groups (str (u "vip"))) [])) by (vm_compute; reflexivity).
  split; [exact Hg|]. exact (groups_offered sample_groups (str (u "vip")) _ Hg).
Defined.

Definition sample_models : val :=
  VObj [(u "success", VBool true); (u "data", VArr (map str [u "a"; u "b"]))].

Lemma selected_model_offered_witness :
  ∃ opts c', loadModels (Ok sample_models) DEFAULT_CONFIG = Ok (opts, c') ∧
    opts = map model_option (map str [u "a"; u "b"]) ∧
    ∃ m, m ∈ [u "a"; u "b"] ∧ oget (c_inputs c') (u "model") = str m ∧
      (∀ m0, oget (c_inputs DEFAULT_CONFIG) (u "model") = str m0 → m0 ∈ [u "a"; u "b"] → m = m0).
Proof.
  eexists _, _. assert (Hl : loadModels (Ok sample_models) DEFAULT_CONFIG =
    Ok (rcatch (loadModels (Ok sample_models) DEFAULT_CONFIG) ([], DEFAULT_CONFIG)))
    by (vm_compute; reflexivity).
  rewrite (surjective_pairing (rcatch _ _)) in Hl. split; [exact Hl|].
  exact (selected_model_offered [u "a"; u "b"] sample_models DEFAULT_CONFIG _ _
           ltac:(done) eq_refl Hl).
Defined.

(** Importing cannot switch the custom mode off. *)
Theorem import_keeps_custom_mode c ms c0 ms0 c' ms' :
  c_customRequestMode c = VBool false →
  handleConfigImport (VObj (@exported plain_env c ms)) c0 ms0 = Ok (c', ms') →
  c_customRequestMode c' = c_customRequestMode c0.
Proof.
  intros Hm. destruct c as [i e p md b]. simpl in Hm. subst md. intros Hi.
  unfold handleConfigImport in Hi. cbn [get rbind] in Hi.
  apply Ok_inj in Hi. apply pair_eq in Hi as [<- _]. done.
Qed.
