(* ===== verification/Playground.v ===== *)
(** * The playground: conversation, streaming and message actions

    The state of [web/src/pages/Playground/index.jsx] and of the hooks under
    [web/src/hooks/playground] as a state machine: sending a message, the
    events of the server-sent stream, the answer to a request without
    streaming, stopping, regenerating, deleting, editing and toggling
    messages, and mounting the page from [localStorage].

    A React state updater that throws does so while the page renders, outside
    the [try] blocks of the handlers; a step then has no next state ([Throw]).
    Timers are tasks that run in any order ([run_task]).  The handlers read
    the configuration from the state; in the code a timer keeps the one of the
    rendering that set it.

    [msg === targetMessage] compares references: the position at which the
    object is still in the list, if it is, is an argument ([ref]) of the
    operations that search for it. *)

From stdpp Require Import gmap.
From S2P Require Import Prelude JsString JsNumber JsValue Json Browser ThinkTags PlaygroundMessages.

Local Open Scope Z_scope.

(** ** State *)

(** The variables of one call of [handleSSE] *)
Record conn := {
  responseData : jstr;
  hasReceivedFirstResponse : bool;
  isStreamComplete : bool;
}.
Definition conn0 : conn :=
  {| responseData := []; hasReceivedFirstResponse := false; isStreamComplete := false |}.

Inductive task :=
| TSave (messages : list val)
| TSend (content : val)
| TDisableImages
| TRegenerate (messages : list val)
| TDefaultMessages.

(** [editingMessageId], [editValue], and the open dialog of [handleEditSave]:
    the edited list and the position of the edited message *)
Record editing := {
  editingMessageId : val;
  editValue : val;
  confirm : option (list val * nat);
}.
Definition not_editing : editing :=
  {| editingMessageId := VNull; editValue := str []; confirm := None |}.

Record pg := {
  message : list val;
  cfg : config;
  debugData : obj;
  activeDebugTab : jstr;
  conns : list conn;
  sseSourceRef : option nat;
  edit : editing;
  messageId : nat;
  local : storage;
  tasks : list task;
}.

Definition set_message (l : list val) (s : pg) : pg :=
  {| message := l; cfg := cfg s; debugData := debugData s; activeDebugTab := activeDebugTab s;
     conns := conns s; sseSourceRef := sseSourceRef s; edit := edit s; messageId := messageId s;
     local := local s; tasks := tasks s |}.
Definition set_cfg (c : config) (s : pg) : pg :=
  {| message := message s; cfg := c; debugData := debugData s; activeDebugTab := activeDebugTab s;
     conns := conns s; sseSourceRef := sseSourceRef s; edit := edit s; messageId := messageId s;
     local := local s; tasks := tasks s |}.
(** [setDebugData((prev) => ({ ...prev, ...fields }))] and [setActiveDebugTab(tab)] *)
Definition set_debug (fields : obj) (s : pg) : pg :=
  {| message := message s; cfg := cfg s; debugData := obj_extend (debugData s) fields;
     activeDebugTab := activeDebugTab s; conns := conns s; sseSourceRef := sseSourceRef s;
     edit := edit s; messageId := messageId s; local := local s; tasks := tasks s |}.
Definition set_tab (tab : jstr) (s : pg) : pg :=
  {| message := message s; cfg := cfg s; debugData := debugData s; activeDebugTab := tab;
     conns := conns s; sseSourceRef := sseSourceRef s; edit := edit s; messageId := messageId s;
     local := local s; tasks := tasks s |}.
Definition set_conns (cs : list conn) (s : pg) : pg :=
  {| message := message s; cfg := cfg s; debugData := debugData s; activeDebugTab := activeDebugTab s;
     conns := cs; sseSourceRef := sseSourceRef s; edit := edit s; messageId := messageId s;
     local := local s; tasks := tasks s |}.
Definition set_source (r : option nat) (s : pg) : pg :=
  {| message := message s; cfg := cfg s; debugData := debugData s; activeDebugTab := activeDebugTab s;
     conns := conns s; sseSourceRef := r; edit := edit s; messageId := messageId s;
     local := local s; tasks := tasks s |}.
Definition set_edit (e : editing) (s : pg) : pg :=
  {| message := message s; cfg := cfg s; debugData := debugData s; activeDebugTab := activeDebugTab s;
     conns := conns s; sseSourceRef := sseSourceRef s; edit := e; messageId := messageId s;
     local := local s; tasks := tasks s |}.
Definition set_messageId (n : nat) (s : pg) : pg :=
  {| message := message s; cfg := cfg s; debugData := debugData s; activeDebugTab := activeDebugTab s;
     conns := conns s; sseSourceRef := sseSourceRef s; edit := edit s; messageId := n;
     local := local s; tasks := tasks s |}.
Definition set_local (l : storage) (s : pg) : pg :=
  {| message := message s; cfg := cfg s; debugData := debugData s; activeDebugTab := activeDebugTab s;
     conns := conns s; sseSourceRef := sseSourceRef s; edit := edit s; messageId := messageId s;
     local := l; tasks := tasks s |}.
Definition set_tasks (ts : list task) (s : pg) : pg :=
  {| message := message s; cfg := cfg s; debugData := debugData s; activeDebugTab := activeDebugTab s;
     conns := conns s; sseSourceRef := sseSourceRef s; edit := edit s; messageId := messageId s;
     local := local s; tasks := ts |}.
Definition later (x : task) (s : pg) : pg := set_tasks (tasks s ++ [x]) s.

Definition PREVIEW : jstr := u "preview".
Definition REQUEST : jstr := u "request".
Definition RESPONSE : jstr := u "response".

(** ** Updaters of the message list *)

Definition last_message (l : list val) : val := List.last l VUndef.
Definition replace_last (l : list val) (m : val) : list val := removelast l ++ [m].

(** [{ ...message, ...fields }] *)
Definition with_fields (m : val) (fields : obj) : val := VObj (obj_extend (spread m) fields).

Definition generating (status : val) : bool := is_text status LOADING || is_text status INCOMPLETE.
Definition settled (status : val) : bool := is_text status COMPLETE || is_text status ERROR.

(** [isThinkingComplete = true] is the default of the second parameter. *)
Definition applyAutoCollapseLogic (m isThinkingComplete0 : val) : res obj :=
  let isThinkingComplete := if is_undef isThinkingComplete0 then VBool true else isThinkingComplete0 in
  let! hasAutoCollapsed := get m (u "hasAutoCollapsed") in
  let! isReasoningExpanded := get m (u "isReasoningExpanded") in
  let shouldAutoCollapse := v_and isThinkingComplete (VBool (negb (truthy hasAutoCollapsed))) in
  Ok [(u "isThinkingComplete", isThinkingComplete);
      (u "hasAutoCollapsed", v_or shouldAutoCollapse hasAutoCollapsed);
      (u "isReasoningExpanded",
        if truthy shouldAutoCollapse then VBool false else isReasoningExpanded)].

(** [s.match(/tag/g)]: the number of matches *)
Fixpoint count_matches (tag : jstr) (skip : nat) (s : jstr) : nat :=
  match s with
  | [] => 0
  | _ :: s' =>
    match skip with
    | S k => count_matches tag k s'
    | O => if starts_with tag s then S (count_matches tag (length tag - 1) s')
           else count_matches tag 0 s'
    end
  end.

(** [newContent.includes('</think>')] and the comparison of the counts *)
Definition tags_closed (newContent : val) : res bool :=
  match newContent with
  | VStr s =>
    let opened := count_matches think_open 0 s in
    let closed := count_matches think_close 0 s in
    Ok (includes think_close s && (0 <? Z.of_nat opened) && (0 <? Z.of_nat closed)
        && (Z.of_nat opened <=? Z.of_nat closed))
  | _ => Throw TypeError
  end.

Inductive chunk := CReasoning (text : val) | CContent (text : val).

Definition stream_reasoning (m text : val) : res val :=
  let! reasoning := get m (u "reasoningContent") in
  let! newReasoning := js_add (v_or reasoning (str [])) text in
  Ok (with_fields m [(u "reasoningContent", newReasoning); (u "status", str INCOMPLETE);
                     (u "isThinkingComplete", VBool false)]).

Definition stream_content (m text : val) : res val :=
  let! content := get m (u "content") in
  let! reasoning := get m (u "reasoningContent") in
  let! thinkingComplete := get m (u "isThinkingComplete") in
  let! expanded := get m (u "isReasoningExpanded") in
  let! newContent := js_add (v_or content (str [])) text in
  let! closed := if truthy expanded then tags_closed newContent else Ok false in
  let thinkingCompleteFromTags := if closed : bool then VBool true else thinkingComplete in
  let isThinkingComplete :=
    v_or (v_and reasoning (VBool (negb (truthy thinkingComplete)))) thinkingCompleteFromTags in
  let! collapse := applyAutoCollapseLogic m isThinkingComplete in
  Ok (with_fields m ([(u "content", newContent); (u "status", str INCOMPLETE)] ++ collapse)).

(** The updater of [streamMessageUpdate] *)
Definition stream_update (c : chunk) (prev : list val) : res (list val) :=
  let m := last_message prev in
  if negb (truthy m) then Ok prev else
  let! role := get m (u "role") in
  if negb (is_text role ASSISTANT) then Ok prev else
  let! status := get m (u "status") in
  if generating status then
    let! m' := match c with
               | CReasoning text => stream_reasoning m text
               | CContent text => stream_content m text
               end in
    Ok (replace_last prev m')
  else Ok prev.

(** The updater of [completeMessage]: the list, and whether it is saved *)
Definition complete_update (status : jstr) (prev : list val) : res (list val * bool) :=
  let m := last_message prev in
  let! old := get m (u "status") in
  if settled old then Ok (prev, false) else
  let! collapse := applyAutoCollapseLogic m (VBool true) in
  Ok (replace_last prev (with_fields m ((u "status", str status) :: collapse)),
      (status =s COMPLETE) || (status =s ERROR)).

(** The updater of [onStopGenerator] *)
Definition stop_update (prev : list val) : res (list val * bool) :=
  match prev with
  | [] => Ok (prev, false)
  | _ =>
    let m := last_message prev in
    let! status := get m (u "status") in
    if generating status then
      let! content := get m (u "content") in
      let! reasoning := get m (u "reasoningContent") in
      let! (content', reasoning') :=
        processIncompleteThinkTags (v_or content (str [])) (v_or reasoning (str [])) in
      let! collapse := applyAutoCollapseLogic m (VBool true) in
      Ok (replace_last prev (with_fields m
            ([(u "status", str COMPLETE); (u "reasoningContent", v_or reasoning' VNull);
              (u "content", content')] ++ collapse)), true)
    else Ok (prev, false)
  end.

(** The updaters of [handleNonStreamRequest]: only a message that is still
    loading takes the answer. *)
Definition finish_loading (fields : obj) (prev : list val) : res (list val) :=
  let m := last_message prev in
  if is_text (get_opt m (u "status")) LOADING then
    let! collapse := applyAutoCollapseLogic m (VBool true) in
    Ok (replace_last prev (with_fields m (fields ++ collapse)))
  else Ok prev.

Section playground.
Context `{Env}.

(** ** Requests *)

Definition streamMessageUpdate (c : chunk) (s : pg) : res pg :=
  rmap (λ l, set_message l s) (stream_update c (message s)).

Definition saved_update (r : res (list val * bool)) (s : pg) : res pg :=
  let! (l, save) := r in
  Ok (if save : bool then later (TSave l) (set_message l s) else set_message l s).

Definition completeMessage (status : jstr) (s : pg) : res pg :=
  saved_update (complete_update status (message s)) s.

(** [[...(prev.sseMessages || []), data]] *)
Definition add_sse_message (data : jstr) (s : pg) : val :=
  match oget (debugData s) (u "sseMessages") with
  | VArr l => VArr (l ++ [str data])
  | _ => VArr [str data]
  end.

Definition update_conn (i : nat) (c : conn) (s : pg) : pg := set_conns (<[i := c]> (conns s)) s.

(** The message that ends a failed stream *)
Definition fail_stream (text : jstr) (s : pg) : res pg :=
  let! s := streamMessageUpdate (CContent (str text)) s in
  completeMessage ERROR s.

(** [payload.choices?.[0]?.delta], and the chunks in it *)
Definition delta_of (payload : val) : res val :=
  let! choices := get payload (u "choices") in
  Ok (get_opt (get_opt choices (u "0")) (u "delta")).

Definition chunks_of (delta : val) : list chunk :=
  if truthy delta then
    let reasoning_content := get_opt delta (u "reasoning_content") in
    let reasoning := get_opt delta (u "reasoning") in
    let content := get_opt delta (u "content") in
    (if truthy reasoning_content then [CReasoning reasoning_content] else []) ++
    (if truthy reasoning then [CReasoning reasoning] else []) ++
    (if truthy content then [CContent content] else [])
  else [].

Fixpoint stream_chunks (cs : list chunk) (s : pg) : res pg :=
  match cs with
  | [] => Ok s
  | c :: cs => let! s := streamMessageUpdate c s in stream_chunks cs s
  end.

Definition DONE : jstr := u "[DONE]".

(** The [catch] block of the message listener *)
Definition bad_event (e : exc) (c : conn) (data : jstr) (s : pg) : res pg :=
  let errorInfo := u "解析错误: " ++ message_of e in
  let s := set_debug [(u "response", str (responseData c ++ [10; 10] ++ u "Error: " ++ errorInfo));
                      (u "sseMessages", add_sse_message data s);
                      (u "isStreaming", VBool false)] s in
  fail_stream (t (u "解析响应数据时发生错误") None) (set_tab RESPONSE s).

(** The listener for [message] events of connection [i] *)
Definition on_message (i : nat) (data : jstr) (s : pg) : res pg :=
  match conns s !! i with
  | None => Ok s
  | Some c =>
    if data =s DONE then
      let s := update_conn i {| responseData := responseData c;
                                hasReceivedFirstResponse := hasReceivedFirstResponse c;
                                isStreamComplete := true |} s in
      let s := set_debug [(u "response", str (responseData c));
                          (u "sseMessages", add_sse_message DONE s);
                          (u "isStreaming", VBool false)] (set_source None s) in
      completeMessage COMPLETE s
    else match JSON_parse data with
    | Throw e => bad_event e c data s
    | Ok payload =>
      let c' := {| responseData := responseData c ++ data ++ [10];
                   hasReceivedFirstResponse := true;
                   isStreamComplete := isStreamComplete c |} in
      let s := update_conn i c' s in
      let s := if hasReceivedFirstResponse c then s else set_tab RESPONSE s in
      let s := set_debug [(u "sseMessages", add_sse_message data s)] s in
      match delta_of payload with
      | Throw e => bad_event e c' data s
      | Ok delta => stream_chunks (chunks_of delta) s
      end
    end
  end.

(** [JSON.stringify(errorInfo, null, 2)] *)
Definition error_text (info : obj) : jstr := stringify2_text (VObj info).

(** The listener for [error] events; [readyState] is that of the source. *)
Definition on_error (i : nat) (e_data : option jstr) (readyState : Z) (s : pg) : res pg :=
  match conns s !! i with
  | None => Ok s
  | Some c =>
    if negb (isStreamComplete c) && negb (readyState =? 2) then
      let errorMessage :=
        match e_data with
        | Some d => if nonempty d then d else t (u "请求发生错误") None
        | None => t (u "请求发生错误") None
        end in
      let errorInfo :=
        obj_set (handleApiError (UserError errorMessage) None) (u "readyState") (int readyState) in
      let s := set_debug [(u "response", str (responseData c ++ [10; 10] ++ u "SSE Error:" ++ [10]
                                              ++ error_text errorInfo))] s in
      rmap (set_source None) (fail_stream errorMessage (set_tab RESPONSE s))
    else Ok s
  end.

(** The listener for [readystatechange] events; [status] is the HTTP status of
    the source, [None] while it has none. *)
Definition on_readystatechange (i : nat) (e_readyState : Z) (status : option Z) (readyState : Z)
    (s : pg) : res pg :=
  match conns s !! i, status with
  | Some c, Some status =>
    if (2 <=? e_readyState) && negb (status =? 200) && negb (isStreamComplete c) then
      let errorInfo :=
        obj_set (obj_set (handleApiError (UserError (u "HTTP状态错误")) None)
                   (u "status") (int status)) (u "readyState") (int readyState) in
      let s := set_debug [(u "response", str (responseData c ++ [10; 10] ++ u "HTTP Error:" ++ [10]
                                              ++ error_text errorInfo))] s in
      fail_stream (t (u "连接已断开") None) (set_tab RESPONSE s)
    else Ok s
  | _, _ => Ok s
  end.

(** [handleSSE]; [start_error] is what [source.stream()] throws, if it does. *)
Definition handleSSE (payload : val) (start_error : option exc) (s : pg) : res pg :=
  let s := set_debug [(u "request", payload); (u "timestamp", str iso_now); (u "response", VNull);
                      (u "sseMessages", VArr []); (u "isStreaming", VBool true)] s in
  let s := set_tab REQUEST s in
  let s := set_source (Some (length (conns s))) (set_conns (conns s ++ [conn0]) s) in
  match start_error with
  | None => Ok s
  | Some e =>
    let s := set_debug [(u "response", str (u "Stream启动失败:" ++ [10] ++
                                            error_text (handleApiError e None)))] s in
    fail_stream (t (u "建立连接时发生错误") None) (set_tab RESPONSE s)
  end.

(** What becomes of a request without streaming *)
Inductive answer :=
| Failed (e : exc)
| HttpError (status : Z) (statusText : jstr) (body : res jstr)
| Answer (json : res val).

Definition start_request (payload : val) (s : pg) : pg :=
  set_tab REQUEST
    (set_debug [(u "request", payload); (u "timestamp", str iso_now); (u "response", VNull);
                (u "sseMessages", VNull); (u "isStreaming", VBool false)] s).

(** The [catch] block *)
Definition request_failed (e : exc) (s : pg) : res pg :=
  let s := set_debug [(u "response", str (error_text (handleApiError e None)))] s in
  let s := set_tab RESPONSE s in
  rmap (λ l, set_message l s)
    (finish_loading [(u "content", str (t (u "请求发生错误: ") None ++ message_of e));
                     (u "status", str ERROR)] (message s)).

Definition answer_fields (data : val) : res (option obj) :=
  let! choices := get data (u "choices") in
  let choice := get_opt choices (u "0") in
  if truthy choice then
    let msg := get_opt choice (u "message") in
    let content := v_or (get_opt msg (u "content")) (str []) in
    let reasoning := v_or (v_or (get_opt msg (u "reasoning_content")) (get_opt msg (u "reasoning")))
                          (str []) in
    let! (content', reasoning') := processThinkTags content reasoning in
    Ok (Some [(u "content", content'); (u "reasoningContent", reasoning');
              (u "status", str COMPLETE)])
  else Ok None.

(** The rest of [handleNonStreamRequest], once the request has ended *)
Definition request_ended (a : answer) (s : pg) : res pg :=
  match a with
  | Failed e => request_failed e s
  | HttpError status statusText body =>
    let errorBody := rcatch body (u "无法读取错误响应体") in
    let e := UserError (u "HTTP error! status: " ++ decZ status ++ u ", body: " ++ errorBody) in
    let s := set_debug [(u "response", str (error_text
                (handleApiError e (Some (int status, str statusText)))))] s in
    request_failed e (set_tab RESPONSE s)
  | Answer (Throw e) => request_failed e s
  | Answer (Ok data) =>
    let s := set_tab RESPONSE (set_debug [(u "response", str (stringify2_text data))] s) in
    match answer_fields data with
    | Throw e => request_failed e s
    | Ok None => Ok s
    | Ok (Some fields) => rmap (λ l, set_message l s) (finish_loading fields (message s))
    end
  end.

Definition sendRequest (payload isStream : val) (start_error : option exc) (s : pg) : res pg :=
  if truthy isStream then handleSSE payload start_error s else Ok (start_request payload s).

Definition onStopGenerator (s : pg) : res pg :=
  saved_update (stop_update (message s)) (set_source None s).

(** ** Sending *)

Definition new_message (role : jstr) (content : val) (s : pg) : val * pg :=
  let '(m, n) := createMessage role content [] (messageId s) in (m, set_messageId n s).
Definition new_loading_message (s : pg) : val * pg :=
  let '(m, n) := createLoadingAssistantMessage (messageId s) in (m, set_messageId n s).

(** [onMessageSend(content)].  In custom mode the request is the custom body;
    a body that does not parse is reported and nothing is sent. *)
Definition onMessageSend (content : val) (start_error : option exc) (s : pg) : res pg :=
  let '(userMessage, s) := new_message USER content s in
  let '(loadingMessage, s) := new_loading_message s in
  let c := cfg s in
  if truthy (c_customRequestMode c) && truthy (c_customRequestBody c) then
    match (let! body := to_str (c_customRequestBody c) in JSON_parse body) with
    | Throw _ => Ok s
    | Ok customPayload =>
      let newMessages := message s ++ [userMessage; loadingMessage] in
      let! stream := get customPayload (u "stream") in
      let s := set_message newMessages s in
      let! s := sendRequest customPayload (VBool (negb (is_false stream))) start_error s in
      Ok (later (TSave newMessages) s)
    end
  else
    let imageEnabled := oget (c_inputs c) (u "imageEnabled") in
    let! validImageUrls := v_filter nonblank_url (oget (c_inputs c) (u "imageUrls")) in
    let! messageContent := buildMessageContent content (VArr validImageUrls) imageEnabled in
    let '(userMessageWithImages, s) := new_message USER messageContent s in
    let newMessages := message s ++ [userMessageWithImages] in
    let! payload := buildApiPayload newMessages VNull (c_inputs c) (c_parameterEnabled c) in
    let messagesWithLoading := newMessages ++ [loadingMessage] in
    let s := set_message messagesWithLoading s in
    let! s := sendRequest payload (oget (c_inputs c) (u "stream")) start_error s in
    let s := if truthy imageEnabled then later TDisableImages s else s in
    Ok (later (TSave messagesWithLoading) s).

(** [constructPreviewPayload]: the body that would be sent, for the debug panel *)
Definition preview_images (inputs : obj) (m : val) : res val :=
  if truthy (oget inputs (u "imageEnabled")) && truthy (oget inputs (u "imageUrls")) then
    let! validImageUrls := v_filter nonblank_url (oget inputs (u "imageUrls")) in
    if 0 <? Z.of_nat (length validImageUrls) then
      let! text := getTextContent m in
      let! content :=
        buildMessageContent (v_or text (str (u "示例消息"))) (VArr validImageUrls) (VBool true) in
      Ok (with_fields m [(u "content", content)])
    else Ok m
  else Ok m.

(** [messages.every((msg) => msg.role !== MESSAGE_ROLES.USER)] *)
Fixpoint no_user (l : list val) : res bool :=
  match l with
  | [] => Ok true
  | m :: l =>
    let! role := get m (u "role") in
    if is_text role USER then Ok false else no_user l
  end.

(** The images go to the last user message. *)
Fixpoint preview_messages (inputs : obj) (rev_messages : list val) : res (list val) :=
  match rev_messages with
  | [] => Ok []
  | m :: l =>
    let! role := get m (u "role") in
    if is_text role USER then rmap (λ m', m' :: l) (preview_images inputs m)
    else rmap (cons m) (preview_messages inputs l)
  end.

Definition constructPreviewPayload (s : pg) : val :=
  let c := cfg s in
  let default_preview :=
    rcatch (let! none := no_user (message s) in
            let! ms := if none : bool then Ok (message s)
                       else rmap (@rev val) (preview_messages (c_inputs c) (rev (message s))) in
            buildApiPayload ms VNull (c_inputs c) (c_parameterEnabled c)) VNull in
  match c_customRequestBody c with
  | VStr body =>
    if truthy (c_customRequestMode c) && nonempty (trim body)
    then rcatch (JSON_parse body) default_preview
    else default_preview
  | v => if truthy (c_customRequestMode c) && truthy v then VNull else default_preview
  end.

(** ** Actions on a message *)

Fixpoint rfind_index (p : val → res bool) (l : list val) : res (option nat) :=
  match l with
  | [] => Ok None
  | x :: l =>
    let! b := p x in
    if b : bool then Ok (Some 0%nat) else rmap (fmap S) (rfind_index p l)
  end.

Definition same_id (id m : val) : res bool := rmap (λ i, strict_eq i id) (get m (u "id")).

(** By reference, and failing that by id *)
Definition find_message (ref : option nat) (id : val) (l : list val) : res (option nat) :=
  match ref with Some i => Ok (Some i) | None => rfind_index (same_id id) l end.

(** The position of the last user message before position [n] *)
Fixpoint user_before (l : list val) (n : nat) : res (option nat) :=
  match n with
  | O => Ok None
  | S k =>
    let! role := get (default VUndef (l !! k)) (u "role") in
    if is_text role USER then Ok (Some k) else user_before l k
  end.

(** The updater of [handleMessageReset]: the list, and the text to send again *)
Definition reset_update (ref : option nat) (target : val) (prev : list val)
    : res (list val * option val) :=
  let! id := get target (u "id") in
  let! role := get target (u "role") in
  let! found := find_message ref id prev in
  match found with
  | None => Ok (prev, None)
  | Some messageIndex =>
    if is_text role USER then
      let! contentToSend := getTextContent target in
      Ok (take messageIndex prev, Some contentToSend)
    else if is_text role ASSISTANT || is_text role SYSTEM then
      let! before := user_before prev messageIndex in
      match before with
      | Some userMessageIndex =>
        let! contentToSend := getTextContent (default VUndef (prev !! userMessageIndex)) in
        Ok (take userMessageIndex prev, Some contentToSend)
      | None => Ok (prev, None)
      end
    else Ok (prev, None)
  end.

Definition handleMessageReset (ref : option nat) (target : val) (s : pg) : res pg :=
  let! (l, content) := reset_update ref target (message s) in
  let s := set_message l s in
  Ok (match content with Some c => later (TSend c) s | None => s end).

Definition without_id (id : val) (l : list val) : res (list val) :=
  rfilter (λ m, rmap negb (same_id id m)) l.

(** The updater of [handleMessageDelete], after the dialog is confirmed *)
Definition delete_update (ref : option nat) (target : val) (prev : list val)
    : res (list val * bool) :=
  let! id := get target (u "id") in
  let! role := get target (u "role") in
  let! found := find_message ref id prev in
  match found with
  | None => Ok (prev, false)
  | Some messageIndex =>
    if is_text role USER && (Z.of_nat messageIndex <? Z.of_nat (length prev) - 1) then
      let! nextRole := get (default VUndef (prev !! S messageIndex)) (u "role") in
      if is_text nextRole ASSISTANT
      then Ok (take messageIndex prev ++ drop (messageIndex + 2) prev, true)
      else rmap (λ l, (l, true)) (without_id id prev)
    else rmap (λ l, (l, true)) (without_id id prev)
  end.

Definition handleMessageDelete (ref : option nat) (target : val) (s : pg) : res pg :=
  saved_update (delete_update ref target (message s)) s.

(** The updater of [handleRoleToggle] *)
Definition toggle_role (id : val) (newRole : jstr) (m : val) : res val :=
  let! same := same_id id m in
  let! role := get m (u "role") in
  Ok (if same && (is_text role ASSISTANT || is_text role SYSTEM)
      then with_fields m [(u "role", str newRole)] else m).

Definition handleRoleToggle (target : val) (s : pg) : res pg :=
  let! role := get target (u "role") in
  if is_text role ASSISTANT || is_text role SYSTEM then
    let newRole := if is_text role ASSISTANT then SYSTEM else ASSISTANT in
    let! id := get target (u "id") in
    saved_update (rmap (λ l, (l, true)) (rmapM (toggle_role id newRole) (message s))) s
  else Ok s.

Definition toggle_reasoning (id m : val) : res val :=
  let! same := same_id id m in
  let! role := get m (u "role") in
  let! expanded := get m (u "isReasoningExpanded") in
  Ok (if same && is_text role ASSISTANT
      then with_fields m [(u "isReasoningExpanded", VBool (negb (truthy expanded)))] else m).

Definition toggleReasoningExpansion (id : val) (s : pg) : res pg :=
  rmap (λ l, set_message l s) (rmapM (toggle_reasoning id) (message s)).

Definition handleClearMessages (s : pg) : pg := later (TSave []) (set_message [] s).

(** ** Editing *)

Definition handleMessageEdit (target : val) (s : pg) : res pg :=
  let! text := getTextContent target in
  let! id := get target (u "id") in
  Ok (set_edit {| editingMessageId := id; editValue := text; confirm := confirm (edit s) |} s).

Definition setEditValue (x : jstr) (s : pg) : pg :=
  set_edit {| editingMessageId := editingMessageId (edit s); editValue := str x;
              confirm := confirm (edit s) |} s.

Definition handleEditCancel (s : pg) : pg :=
  set_edit {| editingMessageId := VNull; editValue := str []; confirm := confirm (edit s) |} s.

(** The content of the edited message: the text items of an array, or the text *)
Definition edit_item (text : jstr) (item : val) : res val :=
  let! ty := get item (u "type") in
  Ok (if is_text ty (u "text") then with_fields item [(u "text", str text)] else item).
Definition edited_content (text : jstr) (content : val) : res val :=
  match content with
  | VArr items => rmap VArr (rmapM (edit_item text) items)
  | _ => Ok (str text)
  end.
Definition edit_message (id newContent m : val) : res val :=
  let! same := same_id id m in
  Ok (if same : bool then with_fields m [(u "content", newContent)] else m).

(** The updater of [handleEditSave]: the edited list, and the position of a
    user message that has a reply, for which a dialog asks what to do *)
Definition edit_update (ref : option nat) (id : val) (text : jstr) (prev : list val)
    : res (list val * option nat) :=
  let! found := find_message ref id prev in
  let target := match found with Some i => default VUndef (prev !! i) | None => VUndef end in
  let i := default 0%nat found in
  let! content := get target (u "content") in
  let! newContent := edited_content text content in
  let! updatedMessages := rmapM (edit_message id newContent) prev in
  let! role := get target (u "role") in
  if is_text role USER && (Z.of_nat i <? Z.of_nat (length prev) - 1) then
    let! nextRole := get (default VUndef (prev !! S i)) (u "role") in
    Ok (updatedMessages, if is_text nextRole ASSISTANT then Some i else None)
  else Ok (updatedMessages, None).

Definition handleEditSave (ref : option nat) (s : pg) : res pg :=
  let id := editingMessageId (edit s) in
  if negb (truthy id) then Ok s else
  let! text := v_trim (editValue (edit s)) in
  if negb (nonempty text) then Ok s else
  let! (l, dialog) := edit_update ref id text (message s) in
  let closed c := set_edit {| editingMessageId := VNull; editValue := str []; confirm := c |} in
  Ok (match dialog with
      | Some i => closed (Some (l, i)) s
      | None => closed (confirm (edit s)) (later (TSave l) (set_message l s))
      end).

(** The two buttons of the dialog *)
Definition close_dialog (s : pg) : pg :=
  set_edit {| editingMessageId := editingMessageId (edit s); editValue := editValue (edit s);
              confirm := None |} s.
Definition confirm_regenerate (s : pg) : pg :=
  match confirm (edit s) with
  | Some (l, i) =>
    let messagesUntilUser := take (S i) l in
    later (TRegenerate messagesUntilUser)
      (later (TSave messagesUntilUser) (set_message messagesUntilUser (close_dialog s)))
  | None => s
  end.
Definition confirm_save_only (s : pg) : pg :=
  match confirm (edit s) with
  | Some (l, _) => later (TSave l) (set_message l (close_dialog s))
  | None => s
  end.

(** ** Timers *)

Definition run_task (x : task) (start_error : option exc) (s : pg) : res pg :=
  match x with
  | TSave l => Ok (set_local (saveMessages (VArr l) (local s)) s)
  | TSend content => onMessageSend content start_error s
  | TDisableImages => Ok (set_cfg (handleInputChange (u "imageEnabled") (VBool false) (cfg s)) s)
  | TRegenerate l =>
    let! payload := buildApiPayload l VNull (c_inputs (cfg s)) (c_parameterEnabled (cfg s)) in
    let '(m, s) := new_loading_message s in
    let s := set_message (message s ++ [m]) s in
    sendRequest payload (oget (c_inputs (cfg s)) (u "stream")) start_error s
  | TDefaultMessages => Ok (set_message getDefaultMessages s)
  end.

(** [handleConfigReset({ resetMessages })] *)
Definition handleConfigReset (resetMessages : bool) (s : pg) : pg :=
  let s := set_cfg DEFAULT_CONFIG s in
  if resetMessages then later TDefaultMessages (set_message [] s) else s.

(** [saveConfig] of the current configuration, after the debounce *)
Definition save_config (s : pg) : pg := set_local (saveConfig (cfg s) (local s)) s.

(** ** Opening the page *)

Definition old_greetings : list jstr :=
  [u "你好，请问有什么可以帮助您的吗？"; u "你好！很高兴见到你。有什么我可以帮助你的吗？"].

(** The stored messages, without the default conversation of old versions *)
Definition initialMessages (st : storage) : res (val * storage) :=
  let loaded := loadMessages st in
  match loaded with
  | VArr [a; b] =>
    let! ida := get a (u "id") in
    if negb (is_text ida (u "2")) then Ok (loaded, st) else
    let! idb := get b (u "id") in
    if negb (is_text idb (u "3")) then Ok (loaded, st) else
    let! ca := get a (u "content") in
    let! cb := get b (u "content") in
    if is_text ca (u "你好") || existsb (is_text cb) old_greetings
    then Ok (VNull, removeItem MESSAGES_KEY st) else Ok (loaded, st)
  | _ => Ok (loaded, st)
  end.

(** The effect that repairs a reply that was still arriving when the page was
    left *)
Definition repair (s : pg) : res pg :=
  match message s with
  | [] => Ok s
  | _ =>
    let m := last_message (message s) in
    let! status := get m (u "status") in
    if generating status then
      let! content := get m (u "content") in
      let! reasoning := get m (u "reasoningContent") in
      let! (content', reasoning') :=
        processIncompleteThinkTags (v_or content (str [])) (v_or reasoning (str [])) in
      let fixed := with_fields m [(u "status", str COMPLETE); (u "content", content');
                                  (u "reasoningContent", v_or reasoning' VNull);
                                  (u "isThinkingComplete", VBool true)] in
      let l := replace_last (message s) fixed in
      Ok (later (TSave l) (set_message l s))
    else Ok s
  end.

(** The first rendering; [n] is the counter of the module, 4 after a reload.
    What [saveMessages] stores is an array; other stored values, which no
    component can show, are left out. *)
Definition mount (n : nat) (st : storage) : res pg :=
  let c := loadConfig st in
  let! (stored, st) := initialMessages st in
  let! messages :=
    match stored with VArr l => Ok l | VNull => Ok getDefaultMessages | _ => Throw TypeError end in
  repair
    {| message := messages; cfg := c;
       debugData := [(u "request", VNull); (u "response", VNull); (u "timestamp", VNull);
                     (u "previewRequest", VNull); (u "previewTimestamp", VNull)];
       activeDebugTab := PREVIEW; conns := []; sseSourceRef := None; edit := not_editing;
       messageId := n; local := st; tasks := [] |}.

(** ** The session *)

Inductive event :=
| ESend (content : jstr) (start_error : option exc)
| EStop
| EMessage (i : nat) (data : jstr)
| EError (i : nat) (data : option jstr) (readyState : Z)
| EReadyState (i : nat) (e_readyState : Z) (status : option Z) (readyState : Z)
| EAnswer (a : answer)
| EReset (ref : option nat) (target : val)
| EDelete (ref : option nat) (target : val)
| EToggleRole (target : val)
| EToggleReasoning (id : val)
| EClear
| EEdit (target : val)
| EEditValue (x : jstr)
| EEditSave (ref : option nat)
| EEditCancel
| ERegenerate
| ESaveOnly
| EInput (name : jstr) (value : val)
| EToggleParameter (name : jstr)
| EResetConfig (resetMessages : bool)
| ESaveConfig
| ETask (k : nat) (start_error : option exc).

Definition step (e : event) (s : pg) : res pg :=
  match e with
  | ESend content err => onMessageSend (str content) err s
  | EStop => onStopGenerator s
  | EMessage i data => on_message i data s
  | EError i data ready => on_error i data ready s
  | EReadyState i er status ready => on_readystatechange i er status ready s
  | EAnswer a => request_ended a s
  | EReset ref target => handleMessageReset ref target s
  | EDelete ref target => handleMessageDelete ref target s
  | EToggleRole target => handleRoleToggle target s
  | EToggleReasoning id => toggleReasoningExpansion id s
  | EClear => Ok (handleClearMessages s)
  | EEdit target => handleMessageEdit target s
  | EEditValue x => Ok (setEditValue x s)
  | EEditSave ref => handleEditSave ref s
  | EEditCancel => Ok (handleEditCancel s)
  | ERegenerate => Ok (confirm_regenerate s)
  | ESaveOnly => Ok (confirm_save_only s)
  | EInput name value => Ok (set_cfg (handleInputChange name value (cfg s)) s)
  | EToggleParameter name => Ok (set_cfg (handleParameterToggle name (cfg s)) s)
  | EResetConfig b => Ok (handleConfigReset b s)
  | ESaveConfig => Ok (save_config s)
  | ETask k err =>
    match tasks s !! k with
    | Some x => run_task x err (set_tasks (take k (tasks s) ++ drop (S k) (tasks s)) s)
    | None => Ok s
    end
  end.

Fixpoint run (es : list event) (s : pg) : res pg :=
  match es with
  | [] => Ok s
  | e :: es => let! s := step e s in run es s
  end.
End playground.
