(* ===== verification/PlaygroundSession.v ===== *)
(** * The playground keeps its conversation in order

    Invariants of the session of [Playground.v]: ids of messages are distinct
    and below the counter, roles and statuses are the ones the interface
    knows, also in the lists that timers and the open dialog hold; and what
    follows from them for deleting and regenerating a message. *)

From stdpp Require Import gmap.
From S2P Require Import Prelude JsString JsNumber JsValue Json Browser ThinkTags PlaygroundMessages Playground.

Local Open Scope Z_scope.

(** ** Well-formed messages *)

Definition role_ok (v : val) : Prop := v ∈ [str USER; str ASSISTANT; str SYSTEM].
Definition status_ok (v : val) : Prop :=
  v ∈ [str LOADING; str INCOMPLETE; str COMPLETE; str ERROR].

Definition field_ok (k : jstr) (v : val) : Prop :=
  (k = u "role" → role_ok v) ∧ (k = u "status" → status_ok v).

(** An object with an id made by the counter, a role, and a status if any *)
Definition msg_ok (n : nat) (m : val) : Prop :=
  ∃ o, m = VObj o ∧
    (∃ k : nat, obj_get o (u "id") = Some (str (dec (Z.of_nat k))) ∧ (k < n)%nat) ∧
    is_Some (obj_get o (u "role")) ∧
    ∀ k v, obj_get o k = Some v → field_ok k v.

Definition id_of (m : val) : val := get_opt m (u "id").

Definition list_ok (n : nat) (l : list val) : Prop :=
  Forall (msg_ok n) l ∧ NoDup (map id_of l).

Definition task_ok (n : nat) (x : task) : Prop :=
  match x with TSave l | TRegenerate l => list_ok n l | _ => True end.

Record inv (s : pg) : Prop := {
  inv_messages : list_ok (messageId s) (message s);
  inv_tasks : Forall (task_ok (messageId s)) (tasks s);
  inv_confirm : ∀ l i, confirm (edit s) = Some (l, i) → list_ok (messageId s) l;
  inv_counter : (first_messageId ≤ messageId s)%nat;
}.

(** ** Objects *)

Lemma obj_get_extend o p k :
  obj_get (obj_extend o p) k =
  match obj_get (rev p) k with Some v => Some v | None => obj_get o k end.
Proof.
  revert o. induction p as [|[k1 v1] p IH]; intros o; [done|].
  unfold obj_extend in *. cbn [fold_left rev]. rewrite IH, obj_get_app, obj_get_set. simpl.
  destruct (obj_get (rev p) k); [done|].
  destruct (decide (k1 = k)) as [->|]; [by rewrite bool_decide_eq_true_2|].
  by rewrite bool_decide_eq_false_2.
Qed.

Definition fields_ok (p : obj) : Prop :=
  Forall (λ kv, kv.1 ≠ u "id" ∧ field_ok kv.1 kv.2) p.

Lemma fields_ok_get p k v :
  fields_ok p → obj_get (rev p) k = Some v → k ≠ u "id" ∧ field_ok k v.
Proof.
  intros Hp Hg. apply List.Forall_rev in Hp. induction Hp as [|[k1 v1] q H1 _ IH]; [done|].
  simpl in Hg. case_bool_decide; [by simplify_eq|by apply IH].
Qed.

Lemma msg_ok_fields n m p :
  msg_ok n m → fields_ok p → msg_ok n (with_fields m p) ∧ id_of (with_fields m p) = id_of m.
Proof.
  intros (o & -> & (k & Hk & Hlt) & [r Hr] & Hf) Hp.
  assert (Hid : obj_get (rev p) (u "id") = None).
  { destruct (obj_get (rev p) (u "id")) eqn:E; [|done]. by apply fields_ok_get in E as [? _]. }
  unfold with_fields, spread, id_of. cbn [entries get_opt get]. unfold get_opt. cbn [get].
  rewrite obj_get_extend, Hid. split; [|done].
  eexists. split; [done|]. split_and!.
  - exists k. by rewrite obj_get_extend, Hid.
  - rewrite obj_get_extend. destruct (obj_get (rev p) (u "role")); eauto.
  - intros k' v. rewrite obj_get_extend. destruct (obj_get (rev p) k') eqn:E; [|apply Hf].
    intros [= <-]. by eapply fields_ok_get.
Qed.

Lemma msg_ok_mono n n' m : (n ≤ n')%nat → msg_ok n m → msg_ok n' m.
Proof.
  intros Hle (o & -> & (k & Hk & Hlt) & Hr). exists o. split; [done|]. split; [|done].
  exists k. split; [done|lia].
Qed.

(** ** Well-formed lists *)

Lemma list_ok_nil n : list_ok n [].
Proof. split; constructor. Qed.

Lemma list_ok_mono n n' l : (n ≤ n')%nat → list_ok n l → list_ok n' l.
Proof.
  intros Hle [Hf Hnd]. split; [|done]. eapply Forall_impl; [exact Hf|].
  intros m. by apply msg_ok_mono.
Qed.

Lemma list_ok_sublist n l l' : l' `sublist_of` l → list_ok n l → list_ok n l'.
Proof.
  intros Hs [Hf Hnd]. split.
  - rewrite Forall_forall in *. intros m Hm. apply Hf. by eapply elem_of_sublist.
  - eapply sublist_NoDup; [exact Hnd|]. by apply sublist_map.
Qed.

(** Messages replaced one by one under the same ids *)
Lemma list_ok_map n l l' :
  Forall2 (λ m m', msg_ok n m → msg_ok n m' ∧ id_of m' = id_of m) l l' →
  list_ok n l → list_ok n l'.
Proof.
  intros H2 [Hf Hnd].
  assert (Hboth : Forall (msg_ok n) l' ∧ map id_of l' = map id_of l).
  { clear Hnd. induction H2 as [|m m' l l' Hm _ IH]; [done|].
    apply list.Forall_cons in Hf as [Hmo Hf]. destruct (Hm Hmo) as [Ho Hid].
    destruct (IH Hf) as [IHf IHid]. simpl. rewrite Hid, IHid. by split; [constructor|]. }
  destruct Hboth as [Hf' Hids]. split; [done|]. by rewrite Hids.
Qed.

Lemma last_split (l : list val) : l = [] ∨ l = removelast l ++ [last_message l].
Proof.
  destruct l as [|x l]; [by left|]. right. unfold last_message.
  by apply app_removelast_last.
Qed.

Lemma list_ok_last n l :
  list_ok n l → l ≠ [] → msg_ok n (last_message l).
Proof.
  intros [Hf _] Hne. destruct (last_split l) as [->|Hl]; [done|]. rewrite Hl in Hf.
  apply Forall_app in Hf as [_ Hf]. by inversion_clear Hf.
Qed.

Lemma list_ok_replace_last n l m :
  list_ok n l → l ≠ [] → msg_ok n m → id_of m = id_of (last_message l) →
  list_ok n (replace_last l m).
Proof.
  intros Hl Hne Hm Hid. unfold replace_last. destruct (last_split l) as [->|Hs]; [done|].
  rewrite Hs in Hl. eapply list_ok_map; [|exact Hl]. apply Forall2_app.
  - clear. induction (removelast l) as [|x k IH]; constructor; [by split|done].
  - repeat constructor; [done|]. exact Hid.
Qed.

Lemma list_ok_add_fields n l p :
  list_ok n l → l ≠ [] → fields_ok p →
  list_ok n (replace_last l (with_fields (last_message l) p)).
Proof.
  intros Hl Hne Hp. pose proof (list_ok_last _ _ Hl Hne) as Hm.
  destruct (msg_ok_fields _ _ p Hm Hp) as [? ?]. by apply list_ok_replace_last.
Qed.

(** A message with the next id can be added. *)
Lemma list_ok_snoc n k l m :
  list_ok n l → (n ≤ k)%nat → msg_ok (S k) m → id_of m = str (dec (Z.of_nat k)) →
  list_ok (S k) (l ++ [m]).
Proof.
  intros [Hf Hnd] Hle Hm Hid. split.
  - apply Forall_app. split; [|by repeat constructor]. eapply Forall_impl; [exact Hf|].
    intros x. apply msg_ok_mono. lia.
  - rewrite map_app. apply NoDup_app. split_and!; [done| |simpl; apply NoDup_singleton].
    intros x Hx. simpl. rewrite list_elem_of_singleton, Hid. intros ->.
    apply list_elem_of_fmap in Hx as (m' & Hm' & Hin).
    rewrite Forall_forall in Hf. destruct (Hf m' Hin) as (o & -> & (j & Hj & Hlt) & _).
    unfold id_of, get_opt in Hm'. cbn [get] in Hm'. rewrite Hj in Hm'. simpl in Hm'.
    injection Hm' as Hm'. apply dec_inj in Hm'; lia.
Qed.

(** ** The operations *)

Lemma status_ok_in s : s ∈ [LOADING; INCOMPLETE; COMPLETE; ERROR] → status_ok (str s).
Proof. unfold status_ok. set_solver. Qed.

(** Fields other than the role, the status and the id are free. *)
Lemma fields_ok_free k v p :
  k ∉ [u "id"; u "role"; u "status"] → fields_ok p → fields_ok ((k, v) :: p).
Proof.
  intros Hk Hp. constructor; [|done]. simpl. split; [set_solver|]. split; intros ->; set_solver.
Qed.

Lemma fields_ok_status s p :
  s ∈ [LOADING; INCOMPLETE; COMPLETE; ERROR] → fields_ok p →
  fields_ok ((u "status", str s) :: p).
Proof.
  intros Hs Hp. constructor; [|done]. simpl. split; [by vm_compute|].
  split; [|intros _; by apply status_ok_in]. intros Heq. vm_compute in Heq. congruence.
Qed.

Lemma fields_ok_role r p :
  r ∈ [USER; ASSISTANT; SYSTEM] → fields_ok p → fields_ok ((u "role", str r) :: p).
Proof.
  intros Hr Hp. constructor; [|done]. simpl. split; [by vm_compute|].
  split; [intros _; unfold role_ok; set_solver|]. intros Heq. vm_compute in Heq. congruence.
Qed.

Lemma fields_ok_nil : fields_ok [].
Proof. constructor. Qed.

Lemma fields_ok_app p q : fields_ok p → fields_ok q → fields_ok (p ++ q).
Proof. intros Hp Hq. by apply Forall_app. Qed.

(** The keys and statuses are literals: membership is decided. *)
Ltac fields :=
  repeat first
    [apply fields_ok_nil
    |apply fields_ok_app
    |apply fields_ok_status; [apply (bool_decide_unpack _); by vm_compute|]
    |apply fields_ok_free; [apply (bool_decide_unpack _); by vm_compute|]].

Lemma collapse_fields m itc p : applyAutoCollapseLogic m itc = Ok p → fields_ok p.
Proof.
  unfold applyAutoCollapseLogic. destruct (get m _); simpl; [|done].
  destruct (get m _); simpl; [|done]. intros [= <-]. fields.
Qed.

Lemma get_status_ne l st : get (last_message l) (u "status") = Ok st → l ≠ [].
Proof. by destruct l. Qed.

Lemma stream_reasoning_fields m text m' :
  stream_reasoning m text = Ok m' → ∃ p, m' = with_fields m p ∧ fields_ok p.
Proof.
  unfold stream_reasoning. destruct (get m _); simpl; [|done].
  destruct (js_add _ _); simpl; [|done]. intros [= <-]. eexists. split; [done|]. fields.
Qed.

Lemma stream_content_fields m text m' :
  stream_content m text = Ok m' → ∃ p, m' = with_fields m p ∧ fields_ok p.
Proof.
  unfold stream_content. do 4 (destruct (get m _); cbn [rbind]; [|done]).
  destruct (js_add _ _); cbn [rbind]; [|done].
  destruct (if truthy _ then _ else _); cbn [rbind]; [|done].
  destruct (applyAutoCollapseLogic _ _) eqn:E; cbn [rbind]; [|done].
  intros [= <-]. eexists. split; [done|]. cbn [app]. apply collapse_fields in E. fields. done.
Qed.

Lemma stream_update_ok n c l l' : list_ok n l → stream_update c l = Ok l' → list_ok n l'.
Proof.
  intros Hl. unfold stream_update. destruct (truthy (last_message l)) eqn:Et; simpl; [|congruence].
  assert (Hne : l ≠ []) by by destruct l.
  destruct (get _ (u "role")); cbn [rbind]; [|done]. destruct (negb _); [congruence|].
  destruct (get _ (u "status")); cbn [rbind]; [|done]. destruct (generating _); [|congruence].
  destruct c as [x|x].
  - destruct (stream_reasoning _ x) eqn:E; cbn [rbind]; [|done]. intros [= <-].
    apply stream_reasoning_fields in E as (p & -> & Hp). by apply list_ok_add_fields.
  - destruct (stream_content _ x) eqn:E; cbn [rbind]; [|done]. intros [= <-].
    apply stream_content_fields in E as (p & -> & Hp). by apply list_ok_add_fields.
Qed.

Lemma complete_update_ok n status l l' b :
  status ∈ [COMPLETE; ERROR] → list_ok n l → complete_update status l = Ok (l', b) → list_ok n l'.
Proof.
  intros Hst Hl. unfold complete_update. destruct (get _ (u "status")) eqn:Es; cbn [rbind]; [|done].
  apply get_status_ne in Es. destruct (settled _); [congruence|].
  destruct (applyAutoCollapseLogic _ _) eqn:E; cbn [rbind]; [|done]. intros [= <- _].
  apply list_ok_add_fields; [done..|]. apply fields_ok_status; [set_solver|].
  by eapply collapse_fields.
Qed.

Lemma stop_update_ok n l l' b : list_ok n l → stop_update l = Ok (l', b) → list_ok n l'.
Proof.
  intros Hl. unfold stop_update. destruct l as [|x l0]; [congruence|].
  remember (x :: l0) as l. assert (Hne : l ≠ []) by by subst. clear Heql.
  destruct (get _ (u "status")); cbn [rbind]; [|done]. destruct (generating _); [|congruence].
  destruct (get _ (u "content")); cbn [rbind]; [|done].
  destruct (get _ (u "reasoningContent")); cbn [rbind]; [|done].
  destruct (processIncompleteThinkTags _ _) as [[c r]|]; cbn [rbind]; [|done].
  destruct (applyAutoCollapseLogic _ _) eqn:E; cbn [rbind]; [|done]. intros [= <- _].
  apply list_ok_add_fields; [done..|]. cbn [app]. apply collapse_fields in E. fields. done.
Qed.

Lemma finish_loading_ok n fs l l' :
  fields_ok fs → list_ok n l → finish_loading fs l = Ok l' → list_ok n l'.
Proof.
  intros Hfs Hl. unfold finish_loading. destruct (is_text _ LOADING) eqn:Es; [|congruence].
  assert (Hne : l ≠ []) by by destruct l.
  destruct (applyAutoCollapseLogic _ _) eqn:E; cbn [rbind]; [|done]. intros [= <-].
  apply list_ok_add_fields; [done..|]. apply fields_ok_app; [done|]. by eapply collapse_fields.
Qed.

Lemma answer_fields_ok d fs : answer_fields d = Ok (Some fs) → fields_ok fs.
Proof.
  unfold answer_fields. destruct (get d _); cbn [rbind]; [|done]. destruct (truthy _); [|done].
  destruct (processThinkTags _ _) as [[c r]|]; cbn [rbind]; [|done]. intros [= <-]. fields.
Qed.

(** ** The state *)

(** The parts of the state the invariant speaks of *)
Definition same_core (s s' : pg) : Prop :=
  message s' = message s ∧ tasks s' = tasks s ∧ confirm (edit s') = confirm (edit s) ∧
  messageId s' = messageId s.

Lemma inv_same_core s s' : same_core s s' → inv s → inv s'.
Proof.
  intros (Hm & Ht & Hc & Hn) [Im It Ic In].
  split; rewrite ?Hm, ?Ht, ?Hn; [done..| |done]. rewrite Hc. exact Ic.
Qed.

Lemma inv_set_message l s : list_ok (messageId s) l → inv s → inv (set_message l s).
Proof. intros Hl [Im It Ic In]. by split. Qed.

Lemma inv_later x s : task_ok (messageId s) x → inv s → inv (later x s).
Proof.
  intros Hx [Im It Ic In]. split; [done| |done|done]. simpl. apply Forall_app.
  split; [done|]. by repeat constructor.
Qed.

Lemma task_ok_mono n n' x : (n ≤ n')%nat → task_ok n x → task_ok n' x.
Proof. intros Hle. destruct x; simpl; try done; by apply list_ok_mono. Qed.

Lemma inv_set_messageId n s : (messageId s ≤ n)%nat → inv s → inv (set_messageId n s).
Proof.
  intros Hle [Im It Ic In]. split; simpl.
  - by eapply list_ok_mono.
  - eapply Forall_impl; [exact It|]. intros x. by apply task_ok_mono.
  - intros l i Hc. eapply list_ok_mono; [exact Hle|]. by eapply Ic.
  - lia.
Qed.

Lemma inv_set_edit e s :
  (∀ l i, confirm e = Some (l, i) → list_ok (messageId s) l) → inv s → inv (set_edit e s).
Proof. intros He [Im It Ic In]. by split. Qed.

Lemma inv_tasks_sub ts s : (∀ x, x ∈ ts → x ∈ tasks s) → inv s → inv (set_tasks ts s).
Proof.
  intros Hts [Im It Ic In]. split; [done| |done|done]. simpl. rewrite Forall_forall in *. auto.
Qed.

Section preservation.
Context `{Env}.

Lemma inv_saved_update r s s' :
  (∀ l b, r = Ok (l, b) → list_ok (messageId s) l) → inv s →
  saved_update r s = Ok s' → inv s'.
Proof.
  intros Hr Hi. unfold saved_update. destruct r as [[l b]|]; cbn [rbind]; [|done].
  specialize (Hr l b eq_refl). intros [= <-]. destruct b; [|by apply inv_set_message].
  apply inv_later; [done|]. by apply inv_set_message.
Qed.

Lemma inv_stream c s s' : inv s → streamMessageUpdate c s = Ok s' → inv s'.
Proof.
  intros Hi. unfold streamMessageUpdate. destruct (stream_update _ _) eqn:E; simpl; [|done].
  intros [= <-]. apply inv_set_message; [|done]. eapply stream_update_ok; [|exact E]. apply Hi.
Qed.

Lemma inv_complete status s s' :
  status ∈ [COMPLETE; ERROR] → inv s → completeMessage status s = Ok s' → inv s'.
Proof.
  intros Hst Hi. apply inv_saved_update; [|done]. intros l b. apply complete_update_ok; [done|].
  apply Hi.
Qed.

Lemma inv_fail_stream text s s' : inv s → fail_stream text s = Ok s' → inv s'.
Proof.
  intros Hi. unfold fail_stream. destruct (streamMessageUpdate _ _) eqn:E; cbn [rbind]; [|done].
  apply inv_complete; [set_solver|]. by eapply inv_stream.
Qed.

Lemma inv_stream_chunks cs s s' : inv s → stream_chunks cs s = Ok s' → inv s'.
Proof.
  revert s. induction cs as [|c cs IH]; simpl; intros s Hi; [congruence|].
  destruct (streamMessageUpdate c s) eqn:E; simpl; [|done]. apply IH. by eapply inv_stream.
Qed.

Lemma inv_bad_event e c data s s' : inv s → bad_event e c data s = Ok s' → inv s'.
Proof. intros Hi. apply inv_fail_stream. by apply (inv_same_core s). Qed.

Lemma inv_on_message i data s s' : inv s → on_message i data s = Ok s' → inv s'.
Proof.
  intros Hi. unfold on_message. destruct (conns s !! i) as [c|]; [|congruence].
  destruct (bool_decide (data = DONE)).
  { apply inv_complete; [set_solver|]. by apply (inv_same_core s). }
  destruct (JSON_parse data); [|by apply inv_bad_event].
  destruct (delta_of _); [apply inv_stream_chunks|apply inv_bad_event];
    apply (inv_same_core s); try done; by destruct (hasReceivedFirstResponse c).
Qed.

Lemma inv_on_error i d r s s' : inv s → on_error i d r s = Ok s' → inv s'.
Proof.
  intros Hi. unfold on_error. destruct (conns s !! i) as [c|]; [|congruence].
  destruct (_ && _); [|congruence]. destruct (fail_stream _ _) eqn:E; simpl; [|done].
  intros [= <-]. apply inv_fail_stream in E; [|by apply (inv_same_core s)].
  by eapply (inv_same_core a).
Qed.

Lemma inv_on_readystatechange i r st r' s s' :
  inv s → on_readystatechange i r st r' s = Ok s' → inv s'.
Proof.
  intros Hi. unfold on_readystatechange.
  destruct (conns s !! i) as [c|], st as [st|]; try congruence.
  destruct (_ && _); [|congruence]. apply inv_fail_stream. by apply (inv_same_core s).
Qed.

Lemma inv_handleSSE p err s s' : inv s → handleSSE p err s = Ok s' → inv s'.
Proof.
  intros Hi. unfold handleSSE. destruct err as [e|].
  - apply inv_fail_stream. by apply (inv_same_core s).
  - intros [= <-]. by apply (inv_same_core s).
Qed.

Lemma inv_sendRequest p st err s s' : inv s → sendRequest p st err s = Ok s' → inv s'.
Proof.
  intros Hi. unfold sendRequest. destruct (truthy st); [by apply inv_handleSSE|].
  intros [= <-]. by apply (inv_same_core s).
Qed.

Lemma inv_finish fs s s' :
  fields_ok fs → inv s → rmap (λ l, set_message l s) (finish_loading fs (message s)) = Ok s' →
  inv s'.
Proof.
  intros Hfs Hi. destruct (finish_loading _ _) eqn:E; simpl; [|done]. intros [= <-].
  apply inv_set_message; [|done]. eapply finish_loading_ok; [done| |done]. apply Hi.
Qed.

Lemma inv_request_failed e s s' : inv s → request_failed e s = Ok s' → inv s'.
Proof. intros Hi. apply inv_finish; [fields|]. by apply (inv_same_core s). Qed.

Lemma inv_request_ended a s s' : inv s → request_ended a s = Ok s' → inv s'.
Proof.
  intros Hi. destruct a as [e|c x b|[d|e]]; cbn [request_ended]; try by apply inv_request_failed.
  - apply inv_request_failed. by apply (inv_same_core s).
  - destruct (answer_fields d) as [[fs|]|e] eqn:E.
    + apply inv_finish; [by eapply answer_fields_ok|]. by apply (inv_same_core s).
    + intros [= <-]. by apply (inv_same_core s).
    + apply inv_request_failed. by apply (inv_same_core s).
Qed.

Lemma inv_stop s s' : inv s → onStopGenerator s = Ok s' → inv s'.
Proof.
  intros Hi. apply inv_saved_update; [|by apply (inv_same_core s)].
  intros l b. apply stop_update_ok. apply Hi.
Qed.

(** New messages take the next ids. *)
Lemma createMessage_ok role content p n :
  role ∈ [USER; ASSISTANT; SYSTEM] → fields_ok p →
  msg_ok (S n) (createMessage role content p n).1 ∧
  id_of (createMessage role content p n).1 = str (dec (Z.of_nat n)).
Proof.
  intros Hr Hp. unfold createMessage. cbn [generateMessageId fst].
  set (o := obj_of_entries _).
  assert (Ho : msg_ok (S n) (VObj o)).
  { exists o. split; [done|]. split_and!.
    - exists n. split; [done|lia].
    - by exists (str role).
    - intros k v Hk. subst o. unfold obj_of_entries in Hk. rewrite obj_get_extend in Hk.
      destruct (obj_get (rev _) k) eqn:E; [|done]. simplify_eq.
      split; intros ->; [|by vm_compute in E].
      assert (v = str role) as -> by (by vm_compute in E; simplify_eq).
      unfold role_ok. set_solver. }
  destruct (msg_ok_fields _ _ p Ho Hp) as [H1 H2]. split; [exact H1|]. exact H2.
Qed.

Lemma loading_ok n :
  msg_ok (S n) (createLoadingAssistantMessage n).1 ∧
  id_of (createLoadingAssistantMessage n).1 = str (dec (Z.of_nat n)).
Proof. apply createMessage_ok; [set_solver|]. fields. Qed.

Lemma new_message_eq role content s :
  new_message role content s =
  ((createMessage role content [] (messageId s)).1, set_messageId (S (messageId s)) s).
Proof. done. Qed.

Lemma new_loading_message_eq s :
  new_loading_message s =
  ((createLoadingAssistantMessage (messageId s)).1, set_messageId (S (messageId s)) s).
Proof. done. Qed.

Lemma list_ok_perm n l l' : l ≡ₚ l' → list_ok n l → list_ok n l'.
Proof.
  intros Hp [Hf Hnd]. split; [by rewrite <- Hp|]. by rewrite <- Hp.
Qed.

Lemma list_ok_two n k l a b :
  list_ok n l → (n ≤ k)%nat →
  msg_ok (S k) a → id_of a = str (dec (Z.of_nat k)) →
  msg_ok (S (S k)) b → id_of b = str (dec (Z.of_nat (S k))) →
  list_ok (S (S k)) (l ++ [a; b]) ∧ list_ok (S (S k)) ((l ++ [b]) ++ [a]).
Proof.
  intros Hl Hle Ha Hia Hb Hib. assert (Hab : list_ok (S (S k)) (l ++ [a; b])).
  - replace (l ++ [a; b]) with ((l ++ [a]) ++ [b]) by by rewrite <- app_assoc.
    eapply list_ok_snoc; [by eapply list_ok_snoc|reflexivity|done..].
  - split; [done|]. eapply list_ok_perm; [|exact Hab].
    rewrite <- app_assoc. apply Permutation_app_head, Permutation_swap.
Qed.

(** A user message and a reply to come, with two successive ids *)
Lemma list_ok_turn n k l content :
  list_ok n l → (n ≤ k)%nat →
  list_ok (S (S k)) (l ++ [(createMessage USER content [] k).1;
                           (createLoadingAssistantMessage (S k)).1]) ∧
  list_ok (S (S k)) ((l ++ [(createMessage USER content [] (S k)).1])
                      ++ [(createLoadingAssistantMessage k).1]).
Proof.
  intros Hl Hle.
  destruct (createMessage_ok USER content [] k ltac:(set_solver) fields_ok_nil) as [H1 H2].
  destruct (createMessage_ok USER content [] (S k) ltac:(set_solver) fields_ok_nil) as [H3 H4].
  destruct (loading_ok k) as [L1 L2], (loading_ok (S k)) as [L3 L4].
  split; [exact (proj1 (list_ok_two n k l _ _ Hl Hle H1 H2 L3 L4))|].
  exact (proj2 (list_ok_two n k l _ _ Hl Hle L1 L2 H3 H4)).
Qed.

(** Requests do not create messages. *)
Lemma fail_stream_counter text s s' : fail_stream text s = Ok s' → messageId s' = messageId s.
Proof.
  unfold fail_stream, streamMessageUpdate. destruct (stream_update _ _) as [l|]; simpl; [|done].
  unfold completeMessage, saved_update. destruct (complete_update _ _) as [[l' b]|]; simpl; [|done].
  intros [= <-]. by destruct b.
Qed.

Lemma sendRequest_counter p st err s s' :
  sendRequest p st err s = Ok s' → messageId s' = messageId s.
Proof.
  unfold sendRequest, handleSSE. destruct (truthy st); [|by intros [= <-]].
  destruct err; [|by intros [= <-]]. by intros ->%fail_stream_counter.
Qed.

Lemma inv_request_saved l p st err s s' x :
  inv s → list_ok (messageId s) l → sendRequest p st err (set_message l s) = Ok s' →
  task_ok (messageId s) x → inv (later x s').
Proof.
  intros Hi Hl Hs Hx. apply inv_later.
  - by rewrite (sendRequest_counter _ _ _ _ _ Hs).
  - eapply inv_sendRequest; [|exact Hs]. by apply inv_set_message.
Qed.

Lemma inv_onMessageSend content err s s' : inv s → onMessageSend content err s = Ok s' → inv s'.
Proof.
  intros Hi. unfold onMessageSend. rewrite new_message_eq, new_loading_message_eq.
  set (s2 := set_messageId _ (set_messageId _ s)). cbn [messageId set_messageId].
  assert (Hi2 : inv s2) by by do 2 (apply inv_set_messageId; [simpl; lia|]).
  destruct (_ && _).
  - destruct (rbind (to_str _) _) as [body|]; [|congruence].
    destruct (get body _); cbn [rbind]; [|done].
    set (l := message s2 ++ _).
    assert (Hl : list_ok (messageId s2) l) by by eapply list_ok_turn; [apply Hi|].
    destruct (sendRequest _ _ _ _) eqn:E; cbn [rbind]; [|done]. intros [= <-].
    by eapply inv_request_saved.
  - destruct (v_filter _ _); cbn [rbind]; [|done].
    destruct (buildMessageContent _ _ _) as [mc|]; cbn [rbind]; [|done].
    rewrite new_message_eq. set (s3 := set_messageId _ s2).
    assert (Hi3 : inv s3) by by apply inv_set_messageId; [simpl; lia|].
    destruct (buildApiPayload _ _ _ _); cbn [rbind]; [|done].
    set (l := (message s3 ++ _) ++ _).
    assert (Hl : list_ok (messageId s3) l).
    { eapply (list_ok_turn (messageId s) (S (messageId s))); [apply Hi|lia]. }
    destruct (sendRequest _ _ _ _) as [s4|] eqn:E; cbn [rbind]; [|done]. intros [= <-].
    assert (H4 : messageId s4 = messageId s3) by by apply sendRequest_counter in E.
    assert (Hi4 : inv s4) by (eapply inv_sendRequest; [|exact E]; by apply inv_set_message).
    apply inv_later; destruct (truthy _); simpl; rewrite ?H4; try done. by apply inv_later.
Qed.

Lemma reset_update_sub ref target l l' c :
  reset_update ref target l = Ok (l', c) → l' `sublist_of` l.
Proof.
  unfold reset_update. destruct (get target _); cbn [rbind]; [|done].
  destruct (get target _); cbn [rbind]; [|done].
  destruct (find_message _ _ _) as [[i|]|]; cbn [rbind]; [|by intros [= <- _]|done].
  destruct (is_text _ USER).
  { destruct (getTextContent _); cbn [rbind]; [|done]. intros [= <- _]. apply sublist_take. }
  destruct (_ || _); [|by intros [= <- _]].
  destruct (user_before _ _) as [[j|]|]; cbn [rbind]; [|by intros [= <- _]|done].
  destruct (getTextContent _); cbn [rbind]; [|done]. intros [= <- _]. apply sublist_take.
Qed.

Lemma rfilter_sub {A} (p : A → res bool) l l' : rfilter p l = Ok l' → l' `sublist_of` l.
Proof.
  revert l'. induction l as [|x l IH]; simpl; intros l' Hl; [by simplify_eq|].
  destruct (p x) as [b|]; simpl in Hl; [|done]. destruct (rfilter p l); simpl in Hl; [|done].
  simplify_eq. destruct b; constructor; by apply IH.
Qed.

Lemma sublist_cut {A} i k (l : list A) : (i ≤ k)%nat → take i l ++ drop k l `sublist_of` l.
Proof.
  intros Hik. rewrite <- (take_drop i l) at 3. apply sublist_app; [done|].
  replace k with (i + (k - i))%nat by lia. rewrite <- drop_drop. apply sublist_drop.
Qed.

Lemma delete_update_sub ref target l l' b :
  delete_update ref target l = Ok (l', b) → l' `sublist_of` l.
Proof.
  unfold delete_update. destruct (get target _) as [id|]; cbn [rbind]; [|done].
  destruct (get target _); cbn [rbind]; [|done].
  assert (Hw : ∀ l' b, rmap (λ l, (l, true)) (without_id id l) = Ok (l', b) → l' `sublist_of` l).
  { intros l1 b1. destruct (without_id id l) eqn:E; simpl; [|done]. intros [= <- _].
    by eapply rfilter_sub. }
  destruct (find_message _ _ _) as [[i|]|]; cbn [rbind]; [|by intros [= <- _]|done].
  destruct (_ && _); [|apply Hw].
  destruct (get _ (u "role")); cbn [rbind]; [|done]. destruct (is_text _ _); [|apply Hw].
  intros [= <- _]. apply sublist_cut. lia.
Qed.

Lemma inv_sub l s : l `sublist_of` message s → inv s → list_ok (messageId s) l.
Proof. intros Hs Hi. eapply list_ok_sublist; [exact Hs|]. apply Hi. Qed.

Lemma inv_reset ref target s s' : inv s → handleMessageReset ref target s = Ok s' → inv s'.
Proof.
  intros Hi. unfold handleMessageReset. destruct (reset_update _ _ _) as [[l c]|] eqn:E; simpl; [|done].
  apply reset_update_sub in E. intros [= <-].
  destruct c; [apply inv_later; [done|]|]; apply inv_set_message; try done; by apply inv_sub.
Qed.

Lemma inv_delete ref target s s' : inv s → handleMessageDelete ref target s = Ok s' → inv s'.
Proof.
  intros Hi. apply inv_saved_update; [|done]. intros l b E%delete_update_sub. by apply inv_sub.
Qed.

(** Changes of single messages *)
Definition changes (n : nat) (m m' : val) : Prop :=
  msg_ok n m → msg_ok n m' ∧ id_of m' = id_of m.

Lemma changes_fields n (b : bool) m p : fields_ok p → changes n m (if b then with_fields m p else m).
Proof. intros Hp Hm. destruct b; [by apply msg_ok_fields|done]. Qed.

Lemma inv_map f s l :
  (∀ m m', f m = Ok m' → changes (messageId s) m m') → inv s → rmapM f (message s) = Ok l →
  list_ok (messageId s) l.
Proof.
  intros Hf Hi Hl. eapply list_ok_map; [|apply Hi]. eapply rmapM_Forall2; [|exact Hl]. exact Hf.
Qed.

Lemma toggle_role_changes n id r m m' :
  r ∈ [USER; ASSISTANT; SYSTEM] → toggle_role id r m = Ok m' → changes n m m'.
Proof.
  intros Hr. unfold toggle_role. destruct (same_id id m); cbn [rbind]; [|done].
  destruct (get m _); cbn [rbind]; [|done]. intros [= <-]. apply changes_fields.
  by apply fields_ok_role; [|constructor].
Qed.

Lemma toggle_reasoning_changes n id m m' : toggle_reasoning id m = Ok m' → changes n m m'.
Proof.
  unfold toggle_reasoning. destruct (same_id id m); cbn [rbind]; [|done].
  do 2 (destruct (get m _); cbn [rbind]; [|done]). intros [= <-]. apply changes_fields. fields.
Qed.

Lemma edit_message_changes n id c m m' : edit_message id c m = Ok m' → changes n m m'.
Proof.
  unfold edit_message. destruct (same_id id m); cbn [rbind]; [|done]. intros [= <-].
  apply changes_fields. fields.
Qed.

Lemma inv_toggle_role target s s' : inv s → handleRoleToggle target s = Ok s' → inv s'.
Proof.
  intros Hi. unfold handleRoleToggle. destruct (get target _); cbn [rbind]; [|done].
  destruct (_ || _); [|congruence]. destruct (get target _); cbn [rbind]; [|done].
  apply inv_saved_update; [|done]. intros l b. destruct (rmapM _ _) eqn:E; simpl; [|done].
  intros [= <- _]. eapply inv_map; [|done|exact E]. intros m m'. apply toggle_role_changes.
  case_match; set_solver.
Qed.

Lemma inv_toggle_reasoning id s s' : inv s → toggleReasoningExpansion id s = Ok s' → inv s'.
Proof.
  intros Hi. unfold toggleReasoningExpansion. destruct (rmapM _ _) eqn:E; simpl; [|done].
  intros [= <-]. apply inv_set_message; [|done]. eapply inv_map; [|done|exact E].
  intros m m'. apply toggle_reasoning_changes.
Qed.

Lemma edit_update_ok ref id text s l d :
  inv s → edit_update ref id text (message s) = Ok (l, d) → list_ok (messageId s) l.
Proof.
  intros Hi. unfold edit_update. destruct (find_message _ _ _); cbn [rbind]; [|done].
  destruct (get _ (u "content")); cbn [rbind]; [|done].
  destruct (edited_content _ _) as [nc|]; cbn [rbind]; [|done].
  destruct (rmapM _ _) eqn:E; cbn [rbind]; [|done].
  assert (Hl : list_ok (messageId s) a1).
  { eapply inv_map; [|done|exact E]. intros m m'. apply edit_message_changes. }
  destruct (get _ (u "role")); cbn [rbind]; [|done]. destruct (_ && _); [|by intros [= <- _]].
  destruct (get _ (u "role")); cbn [rbind]; [|done]. by intros [= <- _].
Qed.

Lemma inv_edit_save ref s s' : inv s → handleEditSave ref s = Ok s' → inv s'.
Proof.
  intros Hi. unfold handleEditSave. destruct (negb _); [congruence|].
  destruct (v_trim _) as [text|]; cbn [rbind]; [|done]. destruct (negb _); [congruence|].
  destruct (edit_update _ _ _ _) as [[l d]|] eqn:E; cbn [rbind]; [|done].
  apply edit_update_ok in E; [|done]. intros [= <-]. destruct d as [i|].
  - apply inv_set_edit; [|done]. simpl. by intros ? ? [= <- <-].
  - apply inv_set_edit; [simpl; apply Hi|]. apply inv_later; [done|]. by apply inv_set_message.
Qed.

Lemma inv_edit_frame e s : confirm e = confirm (edit s) → inv s → inv (set_edit e s).
Proof. intros He Hi. apply inv_set_edit; [|done]. rewrite He. apply Hi. Qed.

Lemma inv_close_dialog s : inv s → inv (close_dialog s).
Proof. intros Hi. by apply inv_set_edit. Qed.

Lemma inv_regenerate s : inv s → inv (confirm_regenerate s).
Proof.
  intros Hi. unfold confirm_regenerate. destruct (confirm (edit s)) as [[l i]|] eqn:E; [|done].
  assert (Hl : list_ok (messageId s) (take (S i) l)).
  { eapply list_ok_sublist; [apply sublist_take|]. by eapply inv_confirm. }
  apply inv_later; [done|]. apply inv_later; [done|]. apply inv_set_message; [done|].
  by apply inv_close_dialog.
Qed.

Lemma inv_save_only s : inv s → inv (confirm_save_only s).
Proof.
  intros Hi. unfold confirm_save_only. destruct (confirm (edit s)) as [[l i]|] eqn:E; [|done].
  apply (inv_confirm _ Hi) in E. apply inv_later; [done|]. apply inv_set_message; [done|].
  by apply inv_close_dialog.
Qed.

(** ** Timers and the whole session *)

Lemma fields_typed (o : obj) :
  Forall (λ kv, field_ok kv.1 kv.2) o → ∀ k v, obj_get o k = Some v → field_ok k v.
Proof.
  induction 1 as [|[k1 v1] o H1 _ IH]; intros k v Hk; [done|]. simpl in Hk.
  case_bool_decide; [by simplify_eq|by apply IH].
Qed.

Lemma field_ok_free k v : k ∉ [u "role"; u "status"] → field_ok k v.
Proof. intros Hk. split; intros ->; set_solver. Qed.

Lemma field_ok_role r : r ∈ [USER; ASSISTANT; SYSTEM] → field_ok (u "role") (str r).
Proof.
  intros Hr. split; [intros _; unfold role_ok; set_solver|]. intros Hk. vm_compute in Hk. congruence.
Qed.

Lemma default_messages_ok n : (first_messageId ≤ n)%nat → list_ok n getDefaultMessages.
Proof.
  intros Hn. eapply (list_ok_mono first_messageId); [exact Hn|]. split.
  - repeat first [apply Forall_nil_2|apply Forall_cons_2]; (eexists; split; [done|]; split_and!).
    2, 5: by eexists.
    + exists 2%nat. split; [done|unfold first_messageId; lia].
    + apply fields_typed. cbn [fst snd].
      repeat first [apply Forall_nil_2|apply Forall_cons_2];
        first [apply field_ok_role; set_solver|apply field_ok_free; apply (bool_decide_unpack _); by vm_compute].
    + exists 3%nat. split; [done|unfold first_messageId; lia].
    + apply fields_typed. cbn [fst snd].
      repeat first [apply Forall_nil_2|apply Forall_cons_2];
        first [apply field_ok_role; set_solver|apply field_ok_free; apply (bool_decide_unpack _); by vm_compute].
  - cbn [getDefaultMessages map]. apply NoDup_cons. split; [|apply NoDup_singleton].
    rewrite list_elem_of_singleton. by vm_compute.
Qed.

Lemma inv_run_task x err s s' : task_ok (messageId s) x → inv s → run_task x err s = Ok s' → inv s'.
Proof.
  intros Hx Hi. destruct x as [l|c| |l|]; cbn [run_task].
  - intros [= <-]. by apply (inv_same_core s).
  - by apply inv_onMessageSend.
  - intros [= <-]. by apply (inv_same_core s).
  - destruct (buildApiPayload _ _ _ _); cbn [rbind]; [|done]. rewrite new_loading_message_eq.
    destruct (loading_ok (messageId s)) as [L1 L2].
    apply inv_sendRequest. apply inv_set_message; [|apply inv_set_messageId; [lia|done]].
    eapply list_ok_snoc; [apply Hi|reflexivity|exact L1|exact L2].
  - intros [= <-]. apply inv_set_message; [|done]. apply default_messages_ok. apply Hi.
Qed.

Lemma inv_step e s s' : inv s → step e s = Ok s' → inv s'.
Proof.
  intros Hi. destruct e; cbn [step].
  - by apply inv_onMessageSend.
  - by apply inv_stop.
  - by apply inv_on_message.
  - by apply inv_on_error.
  - by apply inv_on_readystatechange.
  - by apply inv_request_ended.
  - by apply inv_reset.
  - by apply inv_delete.
  - by apply inv_toggle_role.
  - by apply inv_toggle_reasoning.
  - intros [= <-]. apply inv_later; [apply list_ok_nil|]. apply inv_set_message; [apply list_ok_nil|done].
  - unfold handleMessageEdit. destruct (getTextContent _); cbn [rbind]; [|done].
    destruct (get _ _); cbn [rbind]; [|done]. intros [= <-]. by apply inv_edit_frame.
  - intros [= <-]. by apply inv_edit_frame.
  - by apply inv_edit_save.
  - intros [= <-]. by apply inv_edit_frame.
  - intros [= <-]. by apply inv_regenerate.
  - intros [= <-]. by apply inv_save_only.
  - intros [= <-]. by apply (inv_same_core s).
  - intros [= <-]. by apply (inv_same_core s).
  - intros [= <-]. unfold handleConfigReset. destruct resetMessages; [|by apply (inv_same_core s)].
    apply inv_later; [done|]. apply inv_set_message; [apply list_ok_nil|by apply (inv_same_core s)].
  - intros [= <-]. by apply (inv_same_core s).
  - destruct (tasks s !! k) as [x|] eqn:Ex; [|congruence]. apply inv_run_task.
    + apply inv_tasks in Hi. rewrite Forall_forall in Hi. eapply Hi, list_elem_of_lookup_2, Ex.
    + apply inv_tasks_sub; [|done]. intros y. rewrite elem_of_app.
      intros [Hy|Hy]; [by eapply elem_of_take in Hy as (? & ? & _); eapply list_elem_of_lookup_2|].
      by eapply elem_of_sublist, sublist_drop.
Qed.

(** ** Sessions

    A session begins when the page is opened, with any counter: the module
    keeps it while the user visits other pages.  The conversation comes from
    the storage, or is the default one.  Besides the events of the page, an
    imported file or the custom request body may replace the conversation and
    the configuration at any time.  The code does not check what comes from
    outside: the conversations brought in are taken to be well formed, that is,
    objects with known roles and statuses and distinct ids that the counter has
    passed. *)
Inductive reachable : pg → Prop :=
| reach_mount n st s :
    (first_messageId ≤ n)%nat →
    (∀ l st', initialMessages st = Ok (VArr l, st') → list_ok n l) →
    mount n st = Ok s → reachable s
| reach_step e s s' : reachable s → step e s = Ok s' → reachable s'
| reach_outside c l s :
    reachable s → list_ok (messageId s) l → reachable (set_cfg c (set_message l s)).

Lemma inv_repair s s' : inv s → repair s = Ok s' → inv s'.
Proof.
  intros Hi. unfold repair. destruct (message s) as [|m0 l0] eqn:El; [congruence|]. rewrite <- El.
  assert (Hne : message s ≠ []) by (by rewrite El).
  destruct (get (last_message (message s)) (u "status")) as [status|]; cbn [rbind]; [|done].
  destruct (generating status); [|congruence].
  destruct (get (last_message (message s)) (u "content")); cbn [rbind]; [|done].
  destruct (get (last_message (message s)) (u "reasoningContent")); cbn [rbind]; [|done].
  destruct (processIncompleteThinkTags _ _) as [[c r]|]; cbn [rbind]; [|done]. intros [= <-].
  match goal with |- inv (later (TSave ?l) _) => assert (Hl : list_ok (messageId s) l) end.
  { apply list_ok_add_fields; [apply Hi|done|]. fields. }
  apply inv_later; [exact Hl|]. by apply inv_set_message.
Qed.

Lemma inv_mount n st s :
  (first_messageId ≤ n)%nat → (∀ l st', initialMessages st = Ok (VArr l, st') → list_ok n l) →
  mount n st = Ok s → inv s.
Proof.
  intros Hn Hst. unfold mount. destruct (initialMessages st) as [[stored st']|]; cbn [rbind]; [|done].
  assert (Hgo : ∀ l, list_ok n l → ∀ c d tab, inv
    {| message := l; cfg := c; debugData := d; activeDebugTab := tab; conns := [];
       sseSourceRef := None; edit := not_editing; messageId := n; local := st'; tasks := [] |}).
  { intros l Hl c d tab. by split. }
  destruct stored; cbn [rbind]; try done; apply inv_repair, Hgo.
  - by apply default_messages_ok.
  - by eapply Hst.
Qed.

Lemma session_reachable_inv s : reachable s → inv s.
Proof.
  induction 1 as [n st s Hn Hst Hm|e s s' _ IH Hs|c l s _ IH Hl].
  - by eapply inv_mount.
  - by eapply inv_step.
  - by apply (inv_same_core (set_message l s)), inv_set_message.
Qed.

(** C4: in every state of a session the ids of the messages are distinct and
    below the counter that makes them, every message is an object whose role
    is user, assistant or system and whose status, if it has one, is loading,
    incomplete, complete or error; the same holds of the lists that pending
    saves, the open dialog and a pending regeneration hold.  A session starts
    from a stored conversation, a default one or none, with any counter, and
    goes on by the events of the page and by conversations brought in from
    outside; that those from the storage, a file or the custom body are well
    formed for the counter is a condition of a session, not something the code
    checks. *)
Theorem session_invariant s : reachable s → inv s.
Proof. apply session_reachable_inv. Qed.

(** ** Deleting a message *)

Lemma msg_ok_id n m : msg_ok n m → ∃ i, get m (u "id") = Ok (str i) ∧ id_of m = str i.
Proof.
  intros (o & -> & (k & Hk & _) & _). exists (dec (Z.of_nat k)).
  unfold id_of, get_opt. cbn [get]. by rewrite Hk.
Qed.

Lemma msg_ok_role n m : msg_ok n m → ∃ r, get m (u "role") = Ok (str r) ∧ r ∈ [USER; ASSISTANT; SYSTEM].
Proof.
  intros (o & -> & _ & [r Hr] & Hf). destruct (Hf _ _ Hr) as [Hok _]. specialize (Hok eq_refl).
  cbn [get]. rewrite Hr. simpl. unfold role_ok in Hok. rewrite !elem_of_cons in Hok.
  destruct Hok as [->|[->|[->|Hok]]]; [eexists; split; [done|set_solver]..|set_solver].
Qed.

Lemma get_opt_ok m k v : get m k = Ok v → get_opt m k = v.
Proof. unfold get_opt. by intros ->. Qed.

Lemma same_id_ok n m id : msg_ok n m → same_id id m = Ok (strict_eq (id_of m) id).
Proof. intros (i & Hi & Hid)%msg_ok_id. unfold same_id. by rewrite Hi, Hid. Qed.

Lemma strict_eq_ids n m m' :
  msg_ok n m → strict_eq (id_of m) (id_of m') = true ↔ id_of m' = id_of m.
Proof. intros (i & _ & ->)%msg_ok_id. apply strict_eq_str. Qed.

Lemma filter_id l i m n :
  list_ok n l → l !! i = Some m →
  List.filter (λ x, negb (strict_eq (id_of x) (id_of m))) l = take i l ++ drop (S i) l.
Proof.
  intros [Hf Hnd] Hi. rewrite Forall_forall in Hf.
  assert (Hm : msg_ok n m) by by eapply Hf, list_elem_of_lookup_2.
  rewrite <- (take_drop_middle l i m Hi) in Hnd. rewrite map_app in Hnd. simpl in Hnd.
  apply NoDup_app in Hnd as (_ & Hd & Hnd). apply NoDup_cons in Hnd as [Hd' _].
  rewrite <- (take_drop_middle l i m Hi) at 1. rewrite List.filter_app. simpl.
  rewrite (proj2 (strict_eq_ids n m m Hm) eq_refl). cbn [negb app].
  assert (Hother : ∀ x, x ∈ l → id_of x ≠ id_of m →
    negb (strict_eq (id_of x) (id_of m)) = true).
  { intros x Hx Hne. apply negb_true_iff, not_true_iff_false.
    rewrite (strict_eq_ids n) by auto. congruence. }
  f_equal; apply filter_all, Forall_forall; intros x Hx; apply Hother.
  - eapply elem_of_sublist; [exact Hx|apply sublist_take].
  - intros Heq. apply (Hd (id_of x)); [by apply list_elem_of_fmap_2|]. rewrite Heq. set_solver.
  - eapply elem_of_sublist; [exact Hx|apply sublist_drop].
  - intros Heq. apply Hd'. rewrite <- Heq. by apply list_elem_of_fmap_2.
Qed.

Lemma without_id_ok n l i m :
  list_ok n l → l !! i = Some m → without_id (id_of m) l = Ok (take i l ++ drop (S i) l).
Proof.
  intros Hl Hi. unfold without_id.
  rewrite (rfilter_ok _ (λ x, negb (strict_eq (id_of x) (id_of m)))).
  - by rewrite (filter_id l i m n).
  - destruct Hl as [Hf _]. eapply Forall_impl; [exact Hf|]. intros x Hx.
    by rewrite (same_id_ok n x _ Hx).
Qed.

(** Deleting a question deletes its answer, too. *)
Definition deleted_count (l : list val) (i : nat) (m : val) : nat :=
  if is_text (get_opt m (u "role")) USER
     && is_text (get_opt (default VUndef (l !! S i)) (u "role")) ASSISTANT
  then 2 else 1.

(** confirming the deletion of a message removes that message, and the
    reply that follows it when it is a question, and nothing else; the list
    that remains is saved. *)
Theorem delete_removes s i m :
  reachable s → message s !! i = Some m →
  let l := take i (message s) ++ drop (i + deleted_count (message s) i m) (message s) in
  handleMessageDelete (Some i) m s = Ok (later (TSave l) (set_message l s)).
Proof.
  intros Hr Hi l. pose proof (inv_messages _ (session_reachable_inv _ Hr)) as Hl.
  assert (Hm : msg_ok (messageId s) m).
  { destruct Hl as [Hf _]. rewrite Forall_forall in Hf. by eapply Hf, list_elem_of_lookup_2. }
  destruct (msg_ok_id _ _ Hm) as (mid & Hid & Hio). destruct (msg_ok_role _ _ Hm) as (r & Hrole & _).
  assert (Hone : rmap (λ l, (l, true)) (without_id (str mid) (message s)) =
    Ok (take i (message s) ++ drop (i + 1) (message s), true)).
  { rewrite <- Hio, (without_id_ok (messageId s) _ i) by done. simpl. by rewrite Nat.add_1_r. }
  unfold handleMessageDelete, saved_update, delete_update. rewrite Hid, Hrole.
  cbn [rbind find_message]. subst l. unfold deleted_count. rewrite (get_opt_ok _ _ _ Hrole).
  destruct (is_text (str r) USER); cbn [andb]; [|by rewrite Hone].
  destruct (Z.ltb_spec (Z.of_nat i) (Z.of_nat (length (message s)) - 1)) as [Hlt|Hge].
  - destruct (lookup_lt_is_Some_2 (message s) (S i)) as [nx Hnx]; [lia|]. rewrite Hnx.
    assert (Hmx : msg_ok (messageId s) nx).
    { destruct Hl as [Hf _]. rewrite Forall_forall in Hf. by eapply Hf, list_elem_of_lookup_2. }
    destruct (msg_ok_role _ _ Hmx) as (r2 & Hr2 & _).
    change (default VUndef (Some nx)) with nx. rewrite (get_opt_ok _ _ _ Hr2), Hr2. cbn [rbind].
    destruct (is_text (str r2) ASSISTANT); [done|by rewrite Hone].
  - rewrite (lookup_ge_None_2 (message s) (S i)) by lia. by rewrite Hone.
Qed.

(** ** Regenerating an answer *)

Lemma list_ok_lookup n l i m : list_ok n l → l !! i = Some m → msg_ok n m.
Proof.
  intros [Hf _] Hi. rewrite Forall_forall in Hf. by eapply Hf, list_elem_of_lookup_2.
Qed.

Definition is_user (m : val) : bool := is_text (get_opt m (u "role")) USER.

(** [j] is the last position before [n] with a user message. *)
Definition last_user (l : list val) (n j : nat) : Prop :=
  (j < n)%nat ∧ (∃ m, l !! j = Some m ∧ is_user m = true) ∧
  ∀ k m, (j < k < n)%nat → l !! k = Some m → is_user m = false.

Lemma user_before_spec c l n :
  list_ok c l → (n ≤ length l)%nat →
  (∃ j, user_before l n = Ok (Some j) ∧ last_user l n j) ∨
  (user_before l n = Ok None ∧ ∀ k m, (k < n)%nat → l !! k = Some m → is_user m = false).
Proof.
  intros Hl. induction n as [|n IH]; intros Hn; [right; split; [done|lia]|].
  destruct (lookup_lt_is_Some_2 l n) as [m Hm]; [lia|].
  destruct (msg_ok_role c m) as (r & Hr & _); [by eapply list_ok_lookup|].
  assert (Hu : is_user m = is_text (str r) USER) by by unfold is_user, get_opt; rewrite Hr.
  cbn [user_before]. rewrite Hm. change (default VUndef (Some m)) with m. rewrite Hr. cbn [rbind].
  destruct (is_text (str r) USER).
  { left. exists n. split; [done|]. split; [lia|]. split; [eauto|lia]. }
  assert (Hlast : ∀ k x, (k < S n)%nat → (n ≤ k)%nat → l !! k = Some x → is_user x = false).
  { intros k x ? ? Hx. assert (k = n) as -> by lia. by simplify_eq. }
  destruct IH as [(j & Hj & Hlt & Hex & Hno)|[Hj Hno]]; [lia| |]; rewrite Hj.
  - left. exists j. split; [done|]. split; [lia|]. split; [done|]. intros k x Hk Hx.
    destruct (decide (k < n)%nat); [eapply Hno; [|done]; lia|eapply Hlast; [..|done]; lia].
  - right. split; [done|]. intros k x Hk Hx.
    destruct (decide (k < n)%nat); [by eapply Hno|eapply Hlast; [..|done]; lia].
Qed.

(** retrying a message cuts the conversation back to just before the last
    user message up to it, itself when it is one, and sends that message's
    text again; without such a message nothing changes. *)
Theorem retry_replays s i m :
  reachable s → message s !! i = Some m →
  (∃ j um, last_user (message s) (S i) j ∧ message s !! j = Some um ∧
     handleMessageReset (Some i) m s =
     rmap (λ text, later (TSend text) (set_message (take j (message s)) s)) (getTextContent um)) ∨
  (∀ k x, (k ≤ i)%nat → message s !! k = Some x → is_user x = false) ∧
  handleMessageReset (Some i) m s = Ok (set_message (message s) s).
Proof.
  intros Hr Hi. pose proof (inv_messages _ (session_reachable_inv _ Hr)) as Hl.
  pose proof (list_ok_lookup _ _ _ _ Hl Hi) as Hm.
  destruct (msg_ok_id _ _ Hm) as (id & Hid & _). destruct (msg_ok_role _ _ Hm) as (r & Hrole & Hrs).
  assert (Hu : is_user m = is_text (str r) USER) by by unfold is_user, get_opt; rewrite Hrole.
  unfold handleMessageReset, reset_update. rewrite Hid, Hrole. cbn [rbind find_message].
  destruct (is_text (str r) USER) eqn:Eu.
  { left. exists i, m. split; [|split; [done|by destruct (getTextContent m)]].
    split; [lia|]. split; [eauto|lia]. }
  assert (Hra : is_text (str r) ASSISTANT || is_text (str r) SYSTEM = true).
  { rewrite !elem_of_cons in Hrs. destruct Hrs as [->|[->|[->|Hrs]]]; [done..|set_solver]. }
  rewrite Hra.
  destruct (user_before_spec _ (message s) i Hl) as [(j & Hj & Hlt & (um & Hum & Hu1) & Hno)|[Hj Hno]].
  { apply lookup_lt_Some in Hi. lia. }
  - left. exists j, um. rewrite Hj. cbn [rbind]. rewrite Hum.
    change (default VUndef (Some um)) with um. split; [|split; [done|by destruct (getTextContent um)]].
    split; [lia|]. split; [eauto|]. intros k x Hk Hx.
    destruct (decide (k = i)) as [->|]; [by simplify_eq|]. eapply Hno; [|done]. lia.
  - right. rewrite Hj. split; [|done]. intros k x Hk Hx.
    destruct (decide (k = i)) as [->|]; [by simplify_eq|]. eapply Hno; [|done]. lia.
Qed.
End preservation.

(** ** A session to evaluate *)

Definition blank_page : pg :=
  {| message := []; cfg := DEFAULT_CONFIG; debugData := []; activeDebugTab := PREVIEW; conns := [];
     sseSourceRef := None; edit := not_editing; messageId := 0; local := ∅; tasks := [] |}.
Definition page (r : res pg) : pg := rcatch r blank_page.

(** The page after it is opened for the first time, and after one question *)
Definition opened : pg := page (@mount plain_env first_messageId ∅).
Definition asked : pg := page (@run plain_env [ESend (u "hi") None] opened).

Lemma opened_ok : @mount plain_env first_messageId ∅ = Ok opened.
Proof. vm_compute. reflexivity. Qed.

Lemma opened_reachable : @reachable plain_env opened.
Proof.
  eapply (@reach_mount plain_env first_messageId ∅); [done| |apply opened_ok]. intros l st' Hl. vm_compute in Hl. done.
Qed.

Lemma asked_ok : @step plain_env (ESend (u "hi") None) opened = Ok asked.
Proof. vm_compute. reflexivity. Qed.

Lemma asked_reachable : @reachable plain_env asked.
Proof. eapply (@reach_step plain_env); [apply opened_reachable|apply asked_ok]. Qed.

Example asked_messages :
  map id_of (message asked) = map (λ k, str (dec k)) [2; 3; 6; 5] ∧
  tasks asked = [TSave (message asked)] ∧ messageId asked = 7%nat.
Proof. by vm_compute. Qed.

Lemma session_invariant_witness : @reachable plain_env asked ∧ inv asked.
Proof.
  split; [exact asked_reachable|]. exact (@session_invariant plain_env asked asked_reachable).
Defined.

Definition question : val := default VUndef (message asked !! 2%nat).
Definition answer0 : val := default VUndef (message asked !! 1%nat).

Lemma question_at : message asked !! 2%nat = Some question.
Proof. vm_compute. reflexivity. Qed.
Lemma answer0_at : message asked !! 1%nat = Some answer0.
Proof. vm_compute. reflexivity. Qed.

Lemma delete_removes_witness :
  message asked !! 2%nat = Some question ∧
  let l := take 2 (message asked) ++ drop (2 + deleted_count (message asked) 2 question) (message asked) in
  handleMessageDelete (Some 2%nat) question asked = Ok (later (TSave l) (set_message l asked)) ∧
  l = take 2 (message asked).
Proof.
  split; [exact question_at|]. split.
  - exact (@delete_removes plain_env asked 2%nat question asked_reachable question_at).
  - vm_compute. reflexivity.
Defined.

Lemma retry_replays_witness :
  message asked !! 1%nat = Some answer0 ∧
  ((∃ j um, last_user (message asked) 2 j ∧ message asked !! j = Some um ∧
     handleMessageReset (Some 1%nat) answer0 asked =
     rmap (λ text, later (TSend text) (set_message (take j (message asked)) asked))
          (getTextContent um)) ∨
   (∀ k x, (k ≤ 1)%nat → message asked !! k = Some x → is_user x = false) ∧
   handleMessageReset (Some 1%nat) answer0 asked = Ok (set_message (message asked) asked)).
Proof.
  split; [exact answer0_at|].
  exact (@retry_replays plain_env asked 1%nat answer0 asked_reachable answer0_at).
Defined.
