(* ===== verification/PlaygroundStream.v ===== *)
(** * Streaming in the playground refines a simple reply

    An abstract reply is two growing texts and a phase.  The listeners of
    [handleSSE], with their parsing, tabs, debug data and collapse flags,
    refine it: every event of a connection acts on the last message as the
    events it stands for act on the abstract reply, and leaves the other
    messages alone.  Further theorems: every end of a stream settles the reply
    and saves it, nothing that arrives later changes it, and stopping keeps
    what the page shows. *)

From stdpp Require Import gmap.
From S2P Require Import Prelude JsString JsNumber JsValue Json Browser ThinkTags PlaygroundMessages Playground PlaygroundSession.

Local Open Scope Z_scope.

(** ** The abstract reply *)

Inductive phase := Arriving | Finished | Broken.
#[export] Instance phase_eq_dec : EqDecision phase.
Proof. solve_decision. Defined.

Record reply := { r_content : jstr; r_reasoning : jstr; r_phase : phase }.

Inductive act := AText (s : jstr) | AThought (s : jstr) | ADone | AFail (note : jstr).

Definition spec_step (r : reply) (a : act) : reply :=
  match r_phase r with
  | Arriving =>
    match a with
    | AText s =>
      {| r_content := r_content r ++ s; r_reasoning := r_reasoning r; r_phase := Arriving |}
    | AThought s =>
      {| r_content := r_content r; r_reasoning := r_reasoning r ++ s; r_phase := Arriving |}
    | ADone =>
      {| r_content := r_content r; r_reasoning := r_reasoning r; r_phase := Finished |}
    | AFail note =>
      {| r_content := r_content r ++ note; r_reasoning := r_reasoning r; r_phase := Broken |}
    end
  | _ => r
  end.
Definition spec_run (r : reply) (l : list act) : reply := fold_left spec_step l r.

(** ** The message stands for the reply *)

Definition phase_of (status : jstr) : option phase :=
  if status =s LOADING then Some Arriving
  else if status =s INCOMPLETE then Some Arriving
  else if status =s COMPLETE then Some Finished
  else if status =s ERROR then Some Broken
  else None.

Definition stands_for (m : val) (r : reply) : Prop :=
  ∃ o, m = VObj o ∧
    obj_get o (u "role") = Some (str ASSISTANT) ∧
    obj_get o (u "content") = Some (str (r_content r)) ∧
    obj_get o (u "reasoningContent") = Some (str (r_reasoning r)) ∧
    ∃ st, obj_get o (u "status") = Some (str st) ∧ phase_of st = Some (r_phase r).

(** The conversation ends with a message that stands for the reply. *)
Definition replying (l : list val) (r : reply) : Prop :=
  l ≠ [] ∧ stands_for (last_message l) r.

(** The same conversation, but for its last message *)
Definition same_before (l l' : list val) : Prop := removelast l' = removelast l.

Lemma replace_last_last l m : last_message (replace_last l m) = m.
Proof. unfold last_message, replace_last. apply last_last. Qed.

Lemma replace_last_before l m : same_before l (replace_last l m).
Proof. unfold same_before, replace_last. apply removelast_last. Qed.

Lemma replace_last_ne l m : replace_last l m ≠ [].
Proof. unfold replace_last. by destruct (removelast l). Qed.

Lemma phase_generating st p :
  phase_of st = Some p → generating (str st) = bool_decide (p = Arriving) ∧
                         settled (str st) = bool_decide (p ≠ Arriving).
Proof.
  unfold phase_of. repeat case_bool_decide; intros [= <-]; subst; done.
Qed.

(** Adding fields to a message that stands for a reply *)
Lemma stands_for_fields m r r' p :
  stands_for m r → obj_get (rev p) (u "role") = None →
  (∀ v, obj_get (rev p) (u "content") = Some v → v = str (r_content r')) →
  (obj_get (rev p) (u "content") = None → r_content r' = r_content r) →
  (∀ v, obj_get (rev p) (u "reasoningContent") = Some v → v = str (r_reasoning r')) →
  (obj_get (rev p) (u "reasoningContent") = None → r_reasoning r' = r_reasoning r) →
  (∃ st, obj_get (rev p) (u "status") = Some (str st) ∧ phase_of st = Some (r_phase r')) →
  stands_for (with_fields m p) r'.
Proof.
  intros (o & -> & Hro & Hc & Hre & _) Hp1 Hp2 Hp3 Hp4 Hp5 (st & Hst & Hph).
  eexists. split; [done|]. cbn [spread entries]. rewrite !obj_get_extend, Hp1, Hst.
  split; [done|]. split; [|split; [|eauto]].
  - destruct (obj_get (rev p) (u "content")); [by rewrite (Hp2 _ eq_refl)|]. by rewrite Hp3.
  - destruct (obj_get (rev p) (u "reasoningContent")); [by rewrite (Hp4 _ eq_refl)|]. by rewrite Hp5.
Qed.

Lemma js_add_str s v : js_add (str s) v = rmap (λ x, str (s ++ x)) (to_str v).
Proof.
  unfold js_add, str. cbn [to_primitive rbind].
  assert (Hp : ∀ x, rmap VStr x = to_primitive v → to_str v = x →
    (let! b := to_primitive v in
     if is_str (VStr s) || is_str b then let! s1 := Ok s in let! s2 := to_str b in Ok (VStr (s1 ++ s2))
     else let! y := to_num (VStr s) in let! z := to_num b in Ok (VNum (nadd y z))) =
    rmap (λ x, VStr (s ++ x)) (to_str v)).
  { intros x Hx ->. rewrite <- Hx. by destruct x. }
  destruct v; try done; by eapply Hp.
Qed.

(** ** One chunk of the stream *)

Definition chunk_act (c : chunk) : res act :=
  match c with
  | CReasoning v => rmap AThought (to_str v)
  | CContent v => rmap AText (to_str v)
  end.

Lemma collapse_ok o itc :
  ∃ p, applyAutoCollapseLogic (VObj o) itc = Ok p ∧
    Forall (λ kv, kv.1 ∉ [u "role"; u "content"; u "reasoningContent"; u "status"]) p.
Proof.
  unfold applyAutoCollapseLogic. cbn [get rbind]. eexists. split; [done|].
  repeat first [apply Forall_nil_2|apply Forall_cons_2]; apply (bool_decide_unpack _); by vm_compute.
Qed.

Lemma obj_get_other p k :
  Forall (λ kv, kv.1 ≠ k) p → obj_get (rev p) k = None.
Proof.
  intros Hp. apply obj_get_keys. unfold obj_keys. intros Hin.
  apply list_elem_of_fmap in Hin as ([k' v] & -> & Hin).
  apply List.Forall_rev in Hp. rewrite Forall_forall in Hp. by apply (Hp _ Hin).
Qed.

Lemma collapse_get p q k :
  Forall (λ kv, kv.1 ∉ [u "role"; u "content"; u "reasoningContent"; u "status"]) p →
  k ∈ [u "role"; u "content"; u "reasoningContent"; u "status"] →
  obj_get (rev (q ++ p)) k = obj_get (rev q) k.
Proof.
  intros Hp Hk. rewrite rev_app_distr, obj_get_app, obj_get_other; [done|].
  eapply Forall_impl; [exact Hp|]. intros kv Hn Heq. cbv beta in *. by rewrite <- Heq in Hk.
Qed.

Lemma v_or_str s : v_or (str s) (str []) = str s.
Proof. by destruct s. Qed.

Lemma get_field o k v : obj_get o k = Some v → get (VObj o) k = Ok v.
Proof. cbn [get]. by intros ->. Qed.

(** The reply after a chunk, when it is still arriving *)
Lemma stream_reasoning_refines o r s v :
  stands_for (VObj o) r → r_phase r = Arriving → to_str v = Ok s →
  ∃ m', stream_reasoning (VObj o) v = Ok m' ∧ stands_for m' (spec_step r (AThought s)).
Proof.
  intros Hs Hp Hv. pose proof Hs as (o' & [= <-] & Hro & Hc & Hre & _).
  unfold stream_reasoning. rewrite (get_field _ _ _ Hre). cbn [rbind].
  rewrite v_or_str, js_add_str, Hv. cbn [rmap rbind]. eexists. split; [done|].
  unfold spec_step. rewrite Hp. apply (stands_for_fields _ r); try done.
  - intros v0 Hv0. change (Some (str (r_reasoning r ++ s)) = Some v0) in Hv0.
    cbn [r_content r_reasoning]. congruence.
  - by exists INCOMPLETE.
Qed.

Lemma stream_content_refines o r s v :
  stands_for (VObj o) r → r_phase r = Arriving → to_str v = Ok s →
  ∃ m', stream_content (VObj o) v = Ok m' ∧ stands_for m' (spec_step r (AText s)).
Proof.
  intros Hs Hp Hv. pose proof Hs as (o' & [= <-] & Hro & Hc & Hre & _).
  unfold stream_content. rewrite (get_field _ _ _ Hc), (get_field _ _ _ Hre). cbn [rbind].
  destruct (get (VObj o) (u "isThinkingComplete")) as [tc|] eqn:E1; [|done].
  destruct (get (VObj o) (u "isReasoningExpanded")) as [ex|] eqn:E2; [|done]. cbn [rbind].
  rewrite v_or_str, js_add_str, Hv. cbn [rmap rbind].
  assert (Ht : ∃ b : bool, (if truthy ex then tags_closed (str (r_content r ++ s)) else Ok false) = Ok b).
  { destruct (truthy ex); unfold tags_closed, str; eauto. }
  destruct Ht as [b ->]. cbn [rbind].
  match goal with |- context [applyAutoCollapseLogic _ ?x] =>
    destruct (collapse_ok o x) as (p & -> & Hfree) end.
  cbn [rbind]. eexists. split; [done|]. unfold spec_step. rewrite Hp.
  apply (stands_for_fields _ r); [done|..]; rewrite collapse_get by (done || set_solver); try done.
  - intros v0 Hv0. change (Some (str (r_content r ++ s)) = Some v0) in Hv0.
    cbn [r_content r_reasoning]. congruence.
  - by exists INCOMPLETE.
Qed.

(** A chunk is appended to the text it belongs to. *)
Lemma stream_update_refines c a l r :
  replying l r → chunk_act c = Ok a →
  ∃ l', stream_update c l = Ok l' ∧ replying l' (spec_step r a) ∧ same_before l l'.
Proof.
  intros [Hne Hs] Ha. pose proof Hs as (o & Hm & Hro & _ & _ & st & Hst & Hph).
  destruct (phase_generating _ _ Hph) as [Hg _].
  unfold stream_update. rewrite Hm in *. cbn [truthy negb].
  rewrite (get_field _ _ _ Hro), (get_field _ _ _ Hst). cbn [rbind].
  change (is_text (str ASSISTANT) ASSISTANT) with true. cbn [negb]. rewrite Hg.
  destruct (decide (r_phase r = Arriving)) as [Hp|Hp].
  - rewrite bool_decide_eq_true_2 by done.
    assert (Hnew : ∃ m', match c with CReasoning x => stream_reasoning (VObj o) x
                         | CContent x => stream_content (VObj o) x end = Ok m' ∧
                         stands_for m' (spec_step r a)).
    { destruct c as [v|v]; simpl in Ha; destruct (to_str v) as [s|] eqn:Ev; simplify_eq/=;
        [by apply stream_reasoning_refines|by apply stream_content_refines]. }
    destruct Hnew as (m' & -> & Hm'). cbn [rbind]. eexists. split; [done|].
    split; [split; [apply replace_last_ne|by rewrite replace_last_last]|apply replace_last_before].
  - rewrite bool_decide_eq_false_2 by done. exists l. split; [done|]. split; [|done].
    assert (Hr : spec_step r a = r) by (unfold spec_step; by destruct (r_phase r)).
    rewrite Hr. split; [done|]. by rewrite Hm.
Qed.

Lemma complete_update_refines status l r :
  status ∈ [COMPLETE; ERROR] → replying l r →
  ∃ l' b, complete_update status l = Ok (l', b) ∧ same_before l l' ∧
    if decide (r_phase r = Arriving)
    then b = true ∧ ∃ ph, phase_of status = Some ph ∧
         replying l' {| r_content := r_content r; r_reasoning := r_reasoning r; r_phase := ph |}
    else b = false ∧ l' = l.
Proof.
  intros Hstat [Hne Hs]. pose proof Hs as (o & Hm & Hro & _ & _ & st & Hst & Hph).
  destruct (phase_generating _ _ Hph) as [_ Hset].
  unfold complete_update. rewrite Hm in *. rewrite (get_field _ _ _ Hst). cbn [rbind]. rewrite Hset.
  destruct (decide (r_phase r = Arriving)) as [Hp|Hp].
  - rewrite bool_decide_eq_false_2 by tauto.
    destruct (collapse_ok o (VBool true)) as (p & -> & Hfree). cbn [rbind].
    eexists _, _. split; [done|]. split; [apply replace_last_before|]. split.
    { rewrite !elem_of_cons in Hstat. destruct Hstat as [->|[->|Hstat]]; [done..|set_solver]. }
    assert (Hph' : ∃ ph, phase_of status = Some ph).
    { rewrite !elem_of_cons in Hstat. destruct Hstat as [->|[->|Hstat]]; [by eexists..|set_solver]. }
    destruct Hph' as [ph Hph']. exists ph. split; [done|].
    split; [apply replace_last_ne|rewrite replace_last_last].
    change ((u "status", str status) :: p) with ([(u "status", str status)] ++ p).
    apply (stands_for_fields _ r); [done|..]; rewrite collapse_get by (done || set_solver); try done.
    by exists status.
  - rewrite bool_decide_eq_true_2 by done. by exists l, false.
Qed.

(** ** The events of a connection *)

Section events.
Context `{Env}.

Definition network (e : event) : bool :=
  match e with EMessage _ _ | EError _ _ _ | EReadyState _ _ _ _ => true | _ => false end.

Definition error_note (data : option jstr) : jstr :=
  match data with
  | Some d => if nonempty d then d else t (u "请求发生错误") None
  | None => t (u "请求发生错误") None
  end.

(** ** What the network says

    The reading of a trace knows the number of connections and which of them
    have delivered their end mark; it never looks at the page. *)

Definition parse_note : jstr := t (u "解析响应数据时发生错误") None.
Definition status_note : jstr := t (u "连接已断开") None.

(** A part of a delta is text of the reply when it is there and not empty. *)
Definition part (delta : val) (k : jstr) (a : jstr → act) : res (list act) :=
  let v := get_opt delta k in
  if truthy v then rmap (λ s, [a s]) (to_str v) else Ok [].

(** A delta of a chat completion: first the thoughts, then the text *)
Definition delta_says (delta : val) : res (list act) :=
  let! thought := part delta (u "reasoning_content") AThought in
  let! thought' := part delta (u "reasoning") AThought in
  let! text := part delta (u "content") AText in
  Ok (thought ++ thought' ++ text).

Definition payload_says (payload : val) : res (list act) :=
  if is_nullish payload then Ok [AFail parse_note]
  else delta_says (get_opt (get_opt (get_opt payload (u "choices")) (u "0")) (u "delta")).

Definition data_says (data : jstr) : res (list act) :=
  if data =s u "[DONE]" then Ok [ADone]
  else match JSON_parse data with
       | Throw _ => Ok [AFail parse_note]
       | Ok payload => payload_says payload
       end.

Definition event_says (n : nat) (ended : list nat) (e : event) : res (list act) :=
  match e with
  | EMessage i data => if bool_decide (i < n)%nat then data_says data else Ok []
  | EError i data readyState =>
    if bool_decide ((i < n)%nat ∧ (i ∉ ended) ∧ readyState ≠ 2) then Ok [AFail (error_note data)] else Ok []
  | EReadyState i ready (Some status) _ =>
    if bool_decide ((i < n)%nat ∧ (i ∉ ended) ∧ 2 <= ready ∧ status ≠ 200) then Ok [AFail status_note]
    else Ok []
  | _ => Ok []
  end.

(** The connections that have delivered their end mark *)
Definition ended_after (ended : list nat) (e : event) : list nat :=
  match e with
  | EMessage i data => if data =s u "[DONE]" then i :: ended else ended
  | _ => ended
  end.

Fixpoint says (n : nat) (ended : list nat) (es : list event) : res (list act) :=
  match es with
  | [] => Ok []
  | e :: es =>
    let! acts := event_says n ended e in
    let! more := says n (ended_after ended e) es in
    Ok (acts ++ more)
  end.

(** The connections of the page marked as complete are the given ones. *)
Definition marked (ended : list nat) (cs : list conn) : Prop :=
  ∀ i c, cs !! i = Some c → isStreamComplete c = bool_decide (i ∈ ended).

Lemma get_ok_opt v k x : get v k = Ok x → is_nullish v = false ∧ get_opt v k = x.
Proof. unfold get_opt. destruct v; by intros [= <-]. Qed.

Lemma part_chunk delta k (c : val → chunk) (a : jstr → act) :
  (∀ v, chunk_act (c v) = rmap a (to_str v)) →
  part delta k a = rmapM chunk_act (if truthy (get_opt delta k) then [c (get_opt delta k)] else []).
Proof.
  intros Hc. unfold part. destruct (truthy _); [|done]. simpl. rewrite Hc. by destruct (to_str _).
Qed.

Lemma falsy_no_field v k :
  truthy v = false → k ∈ [u "reasoning_content"; u "reasoning"; u "content"] →
  truthy (get_opt v k) = false.
Proof.
  intros Hv Hk. rewrite !elem_of_cons, elem_of_nil in Hk.
  destruct v as [| |b|n|[|c s]| | |]; try done; by destruct Hk as [->|[->|[->|[]]]].
Qed.

Lemma delta_chunks delta : delta_says delta = rmapM chunk_act (chunks_of delta).
Proof.
  unfold delta_says, chunks_of.
  rewrite (part_chunk _ (u "reasoning_content") CReasoning AThought),
    (part_chunk _ (u "reasoning") CReasoning AThought), (part_chunk _ _ CContent AText) by done.
  destruct (truthy delta) eqn:Ed.
  - rewrite !rmapM_app. destruct (rmapM _ _); cbn [rbind]; [|done].
    destruct (rmapM _ _); cbn [rbind]; [|done]. by destruct (rmapM _ _).
  - by rewrite !falsy_no_field by (done || set_solver).
Qed.

Lemma payload_chunks payload :
  payload_says payload = match delta_of payload with
                         | Ok delta => rmapM chunk_act (chunks_of delta)
                         | Throw _ => Ok [AFail parse_note]
                         end.
Proof.
  unfold delta_of, payload_says. destruct (get payload (u "choices")) as [cs|] eqn:Ec; cbn [rbind].
  - destruct (get_ok_opt _ _ _ Ec) as [-> ->]. apply delta_chunks.
  - by destruct payload.
Qed.

(** The state goes on as the reply does. *)
Definition goes_on (s s' : pg) (r : reply) : Prop :=
  replying (message s') r ∧ same_before (message s) (message s').

Lemma same_before_trans l1 l2 l3 : same_before l1 l2 → same_before l2 l3 → same_before l1 l3.
Proof. unfold same_before. congruence. Qed.

Lemma streamMessageUpdate_refines c a s r :
  replying (message s) r → chunk_act c = Ok a →
  ∃ s', streamMessageUpdate c s = Ok s' ∧ goes_on s s' (spec_step r a).
Proof.
  intros Hr Ha. destruct (stream_update_refines c a _ _ Hr Ha) as (l' & Hl & Hr' & Hb).
  unfold streamMessageUpdate. rewrite Hl. simpl. eexists. split; [done|]. by split.
Qed.

Lemma stream_chunks_refines cs acts s r :
  replying (message s) r → rmapM chunk_act cs = Ok acts →
  ∃ s', stream_chunks cs s = Ok s' ∧ goes_on s s' (spec_run r acts).
Proof.
  revert acts s r. induction cs as [|c cs IH]; simpl; intros acts s r Hr Ha.
  { simplify_eq. exists s. split; [done|]. by split. }
  destruct (chunk_act c) as [a|] eqn:Ec; simpl in Ha; [|done].
  destruct (rmapM chunk_act cs) as [acts'|] eqn:Ecs; simpl in Ha; [|done]. simplify_eq.
  destruct (streamMessageUpdate_refines c a s r Hr Ec) as (s1 & -> & Hr1 & Hb1). simpl.
  destruct (IH acts' s1 _ Hr1 eq_refl) as (s2 & -> & Hr2 & Hb2). exists s2. split; [done|].
  split; [done|]. by eapply same_before_trans.
Qed.

(** Completing settles a reply that is arriving, saves the list, and leaves any
    other reply alone. *)
Lemma completeMessage_refines status a ph s r :
  status ∈ [COMPLETE; ERROR] → phase_of status = Some ph → ph ≠ Arriving →
  (r_phase r = Arriving → spec_step r a =
     {| r_content := r_content r; r_reasoning := r_reasoning r; r_phase := ph |}) →
  replying (message s) r →
  ∃ s', completeMessage status s = Ok s' ∧ goes_on s s' (spec_step r a) ∧
    tasks s' = if decide (r_phase r = Arriving) then tasks s ++ [TSave (message s')] else tasks s.
Proof.
  intros Hst Hph Hne Hspec Hr.
  destruct (complete_update_refines status _ _ Hst Hr) as (l' & b & Hl & Hb & Hc).
  unfold completeMessage, saved_update. rewrite Hl. cbn [rbind].
  destruct (decide (r_phase r = Arriving)) as [Hp|Hp].
  - destruct Hc as [-> (ph' & Hph' & Hr')]. assert (ph' = ph) as -> by congruence.
    eexists. split; [done|]. split; [|done]. split; [|done]. by rewrite Hspec.
  - destruct Hc as [-> ->]. eexists. split; [done|]. split; [|done]. split; [|done].
    assert (spec_step r a = r) as -> by (unfold spec_step; by destruct (r_phase r)). done.
Qed.

Lemma fail_stream_refines text s r :
  replying (message s) r →
  ∃ s', fail_stream text s = Ok s' ∧ goes_on s s' (spec_step r (AFail text)) ∧
    tasks s' = if decide (r_phase r = Arriving) then tasks s ++ [TSave (message s')] else tasks s.
Proof.
  intros Hr. unfold fail_stream.
  destruct (streamMessageUpdate_refines (CContent (str text)) (AText text) s r Hr eq_refl)
    as (s1 & Hs1 & Hr1 & Hb1). rewrite Hs1. cbn [rbind].
  assert (Ht : tasks s1 = tasks s).
  { unfold streamMessageUpdate in Hs1. destruct (stream_update _ _); simplify_eq/=. done. }
  destruct (completeMessage_refines ERROR (AFail []) Broken s1 (spec_step r (AText text)))
    as (s2 & -> & [Hr2 Hb2] & Ht2); [set_solver|done..| |done|].
  - intros Hp. unfold spec_step at 1. rewrite Hp. by rewrite app_nil_r.
  - exists s2. split; [done|]. rewrite <- Ht. unfold spec_step in *.
    destruct (r_phase r) eqn:Ep; cbn [r_phase] in *; rewrite ?Ep in *.
    + rewrite app_nil_r in Hr2. split; [|done]. split; [done|by eapply same_before_trans].
    + split; [|done]. split; [done|by eapply same_before_trans].
    + split; [|done]. split; [done|by eapply same_before_trans].
Qed.

(** Only the messages matter for a reply. *)
Lemma goes_on_from s0 s s' r : message s = message s0 → goes_on s s' r → goes_on s0 s' r.
Proof. unfold goes_on. by intros ->. Qed.

Lemma in_range {A} (l : list A) i : bool_decide (i < length l)%nat = match l !! i with Some _ => true | None => false end.
Proof.
  destruct (l !! i) eqn:E; [apply bool_decide_eq_true_2|apply bool_decide_eq_false_2].
  - by eapply lookup_lt_Some.
  - apply lookup_ge_None in E. lia.
Qed.

Lemma on_message_refines i data s r ended acts :
  replying (message s) r → event_says (length (conns s)) ended (EMessage i data) = Ok acts →
  ∃ s', on_message i data s = Ok s' ∧ goes_on s s' (spec_run r acts).
Proof.
  intros Hr. cbn [event_says]. rewrite in_range. unfold on_message, data_says.
  destruct (conns s !! i) as [c|].
  2:{ intros [= <-]. exists s. split; [done|]. by split. }
  change (u "[DONE]") with DONE. destruct (bool_decide (data = DONE)).
  { intros [= <-].
    match goal with |- context [completeMessage COMPLETE ?x] =>
      destruct (completeMessage_refines COMPLETE ADone Finished x r) as (s' & Hs' & Hg & _) end;
      [set_solver|done..| |exact Hr|].
    - intros Hp. unfold spec_step. by rewrite Hp.
    - exists s'. split; [exact Hs'|exact Hg]. }
  assert (Hbad : ∀ e c' s1, message s1 = message s →
    ∃ s', bad_event e c' data s1 = Ok s' ∧ goes_on s s' (spec_step r (AFail parse_note))).
  { intros e c' s1 Hs1. unfold bad_event, parse_note.
    match goal with |- context [fail_stream ?x ?y] =>
      destruct (fail_stream_refines x y r) as (s' & Hs' & Hg & _) end; [simpl; by rewrite Hs1|].
    exists s'. split; [exact Hs'|]. eapply goes_on_from; [|exact Hg]. done. }
  destruct (JSON_parse data) as [payload|e]; cbn [rbind].
  2:{ intros [= <-]. by apply Hbad. }
  match goal with |- context [stream_chunks _ ?x] => set (s1 := x) end.
  assert (Hs1 : message s1 = message s) by (subst s1; by destruct (hasReceivedFirstResponse c)).
  rewrite payload_chunks. destruct (delta_of payload) as [delta|e].
  - intros Ha. destruct (stream_chunks_refines (chunks_of delta) acts s1 r) as (s' & Hs' & Hg);
      [by rewrite Hs1|done|]. exists s'. split; [done|]. by eapply goes_on_from.
  - intros [= <-]. by apply Hbad.
Qed.

(** The guard of the error listeners, from the marks *)
Lemma guard_marked ended (cs : list conn) i (P : Prop) `{!Decision P} :
  marked ended cs →
  bool_decide ((i < length cs)%nat ∧ (i ∉ ended) ∧ P) =
  match cs !! i with Some c => negb (isStreamComplete c) && bool_decide P | None => false end.
Proof.
  intros Hm. destruct (cs !! i) as [c|] eqn:E.
  - rewrite (Hm _ _ E). apply lookup_lt_Some in E. repeat case_bool_decide; tauto.
  - apply bool_decide_eq_false_2. apply lookup_ge_None in E. lia.
Qed.

Lemma on_error_refines i data ready s r ended acts :
  replying (message s) r → marked ended (conns s) →
  event_says (length (conns s)) ended (EError i data ready) = Ok acts →
  ∃ s', on_error i data ready s = Ok s' ∧ goes_on s s' (spec_run r acts).
Proof.
  intros Hr Hm. cbn [event_says]. rewrite guard_marked by done. unfold on_error.
  assert (Hb : bool_decide (ready ≠ 2) = negb (ready =? 2)) by (case_bool_decide; lia). rewrite Hb.
  destruct (conns s !! i) as [c|];
    [destruct (_ && _)|]; intros [= <-]; try (exists s; split; [done|by split]).
  match goal with |- context [fail_stream ?x ?y] =>
    destruct (fail_stream_refines x y r Hr) as (s' & -> & Hg & _) end.
  simpl. eexists. split; [done|]. exact Hg.
Qed.

Lemma on_readystatechange_refines i e st ready s r ended acts :
  replying (message s) r → marked ended (conns s) →
  event_says (length (conns s)) ended (EReadyState i e st ready) = Ok acts →
  ∃ s', on_readystatechange i e st ready s = Ok s' ∧ goes_on s s' (spec_run r acts).
Proof.
  intros Hr Hm. cbn [event_says]. unfold on_readystatechange. destruct st as [st|].
  2:{ intros [= <-]. exists s. split; [by destruct (conns s !! i)|by split]. }
  rewrite guard_marked by done.
  assert (Hb : bool_decide (2 <= e ∧ st ≠ 200) = (2 <=? e) && negb (st =? 200)) by (case_bool_decide; lia).
  rewrite Hb. destruct (conns s !! i) as [c|];
    [rewrite (andb_comm (negb (isStreamComplete c))); destruct (_ && negb (isStreamComplete c))|];
    intros [= <-]; try (exists s; split; [done|by split]).
  match goal with |- context [fail_stream ?x ?y] =>
    destruct (fail_stream_refines x y r Hr) as (s' & Hs' & Hg & _) end.
  exists s'. split; [exact Hs'|exact Hg].
Qed.

Lemma network_refines e s r ended acts :
  network e = true → replying (message s) r → marked ended (conns s) →
  event_says (length (conns s)) ended e = Ok acts →
  ∃ s', step e s = Ok s' ∧ goes_on s s' (spec_run r acts).
Proof.
  destruct e; try done; intros _ Hr Hm.
  - by apply on_message_refines.
  - by apply on_error_refines.
  - by apply on_readystatechange_refines.
Qed.

(** *** The marks along a run *)

Lemma fail_stream_conns text s s' : fail_stream text s = Ok s' → conns s' = conns s.
Proof.
  unfold fail_stream, streamMessageUpdate. destruct (stream_update _ _) as [l|]; simpl; [|done].
  unfold completeMessage, saved_update. destruct (complete_update _ _) as [[l' b]|]; simpl; [|done].
  intros [= <-]. by destruct b.
Qed.

Lemma stream_chunks_conns cs s s' : stream_chunks cs s = Ok s' → conns s' = conns s.
Proof.
  revert s. induction cs as [|c cs IH]; simpl; intros s; [congruence|].
  unfold streamMessageUpdate at 1. destruct (stream_update _ _) as [l|]; simpl; [|done].
  by intros ->%IH.
Qed.

Definition marks (cs : list conn) : list bool := isStreamComplete <$> cs.

Lemma marks_same cs i c c' :
  cs !! i = Some c → isStreamComplete c' = isStreamComplete c → marks (<[i := c']> cs) = marks cs.
Proof.
  intros Hi Hc. unfold marks. rewrite list_fmap_insert, Hc. apply list_insert_id.
  by rewrite list_lookup_fmap, Hi.
Qed.

(** Only the end mark of a connection marks it. *)
Lemma network_marks e s s' :
  network e = true → step e s = Ok s' →
  marks (conns s') = match e with
                     | EMessage i data => if data =s u "[DONE]" then <[i := true]> (marks (conns s))
                                          else marks (conns s)
                     | _ => marks (conns s)
                     end.
Proof.
  destruct e; try done; intros _; cbn [step].
  - unfold on_message. change (u "[DONE]") with DONE. destruct (conns s !! i) as [c|] eqn:Ec.
    2:{ intros [= <-]. destruct (bool_decide _); [|done]. rewrite list_insert_ge; [done|].
        unfold marks. rewrite length_fmap. by apply lookup_ge_None. }
    destruct (bool_decide _).
    { unfold completeMessage, saved_update. destruct (complete_update _ _) as [[l b]|]; simpl; [|done].
      intros [= <-]. destruct b; simpl; unfold marks; by rewrite list_fmap_insert. }
    destruct (JSON_parse data); [|by intros ->%fail_stream_conns].
    destruct (delta_of _).
    + intros ->%stream_chunks_conns.
      destruct (hasReceivedFirstResponse c); by apply (marks_same _ _ c).
    + intros ->%fail_stream_conns.
      destruct (hasReceivedFirstResponse c); by apply (marks_same _ _ c).
  - unfold on_error. destruct (conns s !! i) as [c|]; [|congruence]. destruct (_ && _); [|congruence].
    destruct (fail_stream _ _) eqn:E; simpl; [|done]. intros [= <-]. simpl.
    by apply fail_stream_conns in E as ->.
  - unfold on_readystatechange. destruct (conns s !! i) as [c|], status as [st|]; try congruence.
    destruct (_ && _); [|congruence]. by intros ->%fail_stream_conns.
Qed.

Lemma network_conns e s s' :
  network e = true → step e s = Ok s' → length (conns s') = length (conns s).
Proof.
  intros He Hs. pose proof (network_marks _ _ _ He Hs) as Hm. apply (f_equal length) in Hm.
  unfold marks in Hm. rewrite !length_fmap in Hm. rewrite Hm. destruct e; try done.
  - destruct (bool_decide _); by rewrite ?length_insert, length_fmap.
  - apply length_fmap.
  - apply length_fmap.
Qed.

Lemma marked_marks ended cs :
  marked ended cs ↔ ∀ i b, marks cs !! i = Some b → b = bool_decide (i ∈ ended).
Proof.
  unfold marked, marks. split.
  - intros Hm i b Hb. apply list_lookup_fmap_Some in Hb as (c & -> & Hc). by apply Hm.
  - intros Hm i c Hc. apply Hm. by rewrite list_lookup_fmap, Hc.
Qed.

Lemma network_marked e s s' ended :
  network e = true → step e s = Ok s' → marked ended (conns s) →
  marked (ended_after ended e) (conns s').
Proof.
  rewrite !marked_marks. intros He Hs Hm i b. rewrite (network_marks _ _ _ He Hs).
  destruct e as [| |j data| | | | | | | | | | | | | | | | | | |]; try done; cbn [ended_after];
    try apply Hm.
  destruct (bool_decide (data = u "[DONE]")); [|apply Hm].
  intros [(<- & <- & _)|[Hne Hb]]%list_lookup_insert_Some.
  - symmetry. apply bool_decide_eq_true_2. set_solver.
  - rewrite (Hm _ _ Hb). apply bool_decide_ext. set_solver.
Qed.

Lemma run_refines es s r ended acts :
  Forall (λ e, network e = true) es → replying (message s) r → marked ended (conns s) →
  says (length (conns s)) ended es = Ok acts →
  ∃ s', run es s = Ok s' ∧ goes_on s s' (spec_run r acts).
Proof.
  intros Hes. revert s r ended acts. induction Hes as [|e es He _ IH]; simpl; intros s r ended acts Hr Hm Ha.
  { simplify_eq. exists s. split; [done|]. by split. }
  destruct (event_says _ ended e) as [a|] eqn:Em; simpl in Ha; [|done].
  destruct (network_refines e s r ended a He Hr Hm Em) as (s1 & Hs1 & Hr1 & Hb1).
  rewrite Hs1. simpl. rewrite <- (network_conns _ _ _ He Hs1) in Ha.
  destruct (says _ _ es) as [more|] eqn:Et; simplify_eq/=.
  destruct (IH s1 _ _ more Hr1 (network_marked _ _ _ _ He Hs1 Hm) Et) as (s2 & -> & Hr2 & Hb2).
  exists s2. split; [done|].
  split; [|by eapply same_before_trans]. unfold spec_run in *. by rewrite fold_left_app.
Qed.

(** C2: the streaming code refines the abstract reply: whatever events the
    connections deliver, in any order and interleaving, no listener throws,
    the last message goes on standing for the reply that the abstract machine
    computes from what the events say, and no other message changes.  What the
    events say is read from the trace alone, from the number of connections
    and the connections that have delivered their end mark: data carries the
    end mark, the parts of a delta or nothing readable; an error of a
    connection that has not ended (unless it is reported closed) and an HTTP
    status other than 200 break the reply. *)
Theorem stream_refines es s r ended acts :
  Forall (λ e, network e = true) es → replying (message s) r → marked ended (conns s) →
  says (length (conns s)) ended es = Ok acts →
  ∃ s', run es s = Ok s' ∧ replying (message s') (spec_run r acts) ∧
        same_before (message s) (message s').
Proof. apply run_refines. Qed.

(** ** A whole stream *)

(** The texts and the thoughts among the chunks *)
Definition texts_of (l : list act) : jstr :=
  concat (map (λ a, match a with AText s => s | _ => [] end) l).
Definition thoughts_in (l : list act) : jstr :=
  concat (map (λ a, match a with AThought s => s | _ => [] end) l).
Definition is_chunk (a : act) : bool := match a with AText _ | AThought _ => true | _ => false end.

Lemma spec_run_chunks r l :
  r_phase r = Arriving → Forall (λ a, is_chunk a = true) l →
  spec_run r l = {| r_content := r_content r ++ texts_of l;
                    r_reasoning := r_reasoning r ++ thoughts_in l; r_phase := Arriving |}.
Proof.
  intros Hp Hl. revert r Hp. induction Hl as [|a l Ha _ IH]; intros r Hp.
  { unfold texts_of, thoughts_in. simpl. rewrite !app_nil_r. by destruct r; simpl in *; subst. }
  unfold spec_run in *. simpl. rewrite IH; unfold spec_step; rewrite Hp; destruct a; try done;
    unfold texts_of, thoughts_in; simpl; by rewrite <- ?app_assoc.
Qed.

(** Connections are never forgotten. *)
Lemma run_conns es s s' :
  Forall (λ e, network e = true) es → run es s = Ok s' → length (conns s') = length (conns s).
Proof.
  intros Hes. revert s. induction Hes as [|e es He _ IH]; simpl; intros s; [congruence|].
  destruct (step e s) as [s1|] eqn:E; simpl; [|done]. intros ->%IH. by eapply network_conns.
Qed.

Lemma run_app es es' s : run (es ++ es') s = let! s' := run es s in run es' s'.
Proof. revert s. induction es as [|e es IH]; simpl; intros s; [done|]. by destruct (step e s); simpl. Qed.

(** a stream that delivers chunks and then ends leaves a complete message
    whose content is the concatenation of the text chunks and whose reasoning
    is the concatenation of the reasoning chunks, leaves the other messages
    alone and schedules saving the conversation. *)
Theorem streamed_reply es i s r ended acts :
  Forall (λ e, network e = true) es → replying (message s) r → r_phase r = Arriving →
  marked ended (conns s) → (i < length (conns s))%nat →
  says (length (conns s)) ended es = Ok acts → Forall (λ a, is_chunk a = true) acts →
  ∃ s', run (es ++ [EMessage i DONE]) s = Ok s' ∧
    replying (message s') {| r_content := r_content r ++ texts_of acts;
                             r_reasoning := r_reasoning r ++ thoughts_in acts;
                             r_phase := Finished |} ∧
    same_before (message s) (message s') ∧ TSave (message s') ∈ tasks s'.
Proof.
  intros Hes Hr Hp Hm Hi Ha Hc.
  destruct (run_refines es s r ended acts Hes Hr Hm Ha) as (s1 & Hs1 & Hr1 & Hb1).
  rewrite spec_run_chunks in Hr1 by done. rewrite run_app, Hs1. cbn [rbind run step].
  rewrite <- (run_conns _ _ _ Hes Hs1) in Hi. destruct (lookup_lt_is_Some_2 _ _ Hi) as [c Hci].
  unfold on_message. rewrite Hci. rewrite bool_decide_eq_true_2 by done.
  set (r1 := {| r_content := _; r_reasoning := _; r_phase := Arriving |}) in Hr1.
  match goal with |- context [completeMessage COMPLETE ?x] =>
    destruct (completeMessage_refines COMPLETE ADone Finished x r1)
      as (s2 & -> & [Hr2 Hb2] & Ht2); [set_solver|done..|] end.
  exists s2. split; [done|]. split; [exact Hr2|]. split; [by eapply same_before_trans|].
  rewrite Ht2. rewrite decide_True by done. set_solver.
Qed.

(** ** Stopping, and what comes too late *)

(** The last message is complete or failed. *)
Definition at_rest (l : list val) : Prop :=
  ∃ o st, last_message l = VObj o ∧ obj_get o (u "status") = Some (str st) ∧
          settled (str st) = true.

Lemma settled_not_generating st : settled (str st) = true → generating (str st) = false.
Proof.
  unfold settled, generating. cbn [is_text str]. intros Hs.
  apply orb_true_iff in Hs as [Hs|Hs]; apply bool_decide_eq_true in Hs as ->; done.
Qed.

Lemma late_stream c l : at_rest l → stream_update c l = Ok l.
Proof.
  intros (o & st & Hm & Hst & Hs). unfold stream_update. rewrite Hm. cbn [truthy negb].
  destruct (get (VObj o) (u "role")) as [role|] eqn:Er; [|done]. cbn [rbind].
  destruct (negb _); [done|]. rewrite (get_field _ _ _ Hst). cbn [rbind].
  by rewrite settled_not_generating.
Qed.

Lemma late_complete status l : at_rest l → complete_update status l = Ok (l, false).
Proof.
  intros (o & st & Hm & Hst & Hs). unfold complete_update. rewrite Hm, (get_field _ _ _ Hst).
  cbn [rbind]. by rewrite Hs.
Qed.

Lemma late_finish fs l : at_rest l → finish_loading fs l = Ok l.
Proof.
  intros (o & st & Hm & Hst & Hs). unfold finish_loading. rewrite Hm.
  rewrite (get_opt_ok _ _ _ (get_field _ _ _ Hst)).
  apply settled_not_generating in Hs. unfold generating in Hs. apply orb_false_iff in Hs as [-> _].
  done.
Qed.

Definition late (e : event) : bool := network e || match e with EAnswer _ => true | _ => false end.

Lemma late_fail text s : at_rest (message s) → fail_stream text s = Ok s.
Proof.
  intros Hr. unfold fail_stream, streamMessageUpdate, completeMessage. rewrite late_stream by done.
  simpl. rewrite late_complete by done. simpl. by destruct s.
Qed.

Lemma late_chunks cs s : at_rest (message s) → stream_chunks cs s = Ok s.
Proof.
  intros Hr. induction cs as [|c cs IH]; [done|]. simpl. unfold streamMessageUpdate.
  rewrite late_stream by done. simpl. by destruct s.
Qed.

(** An event of a connection or the answer to a request does not change a
    conversation that is at rest. *)
Lemma late_step e s :
  at_rest (message s) → late e = true → ∃ s', step e s = Ok s' ∧ message s' = message s.
Proof.
  intros Hr. destruct e; try done; intros _; cbn [step].
  - unfold on_message. destruct (conns s !! i) as [c|]; [|eauto]. destruct (bool_decide _).
    { unfold completeMessage. rewrite late_complete by done. simpl. eauto. }
    destruct (JSON_parse data); [|unfold bad_event; rewrite late_fail by done; eauto].
    destruct (delta_of _); [rewrite late_chunks|unfold bad_event; rewrite late_fail];
      destruct (hasReceivedFirstResponse c); simpl; eauto.
  - unfold on_error. destruct (conns s !! i) as [c|]; [|eauto]. destruct (_ && _); [|eauto].
    rewrite late_fail by done. simpl. eauto.
  - unfold on_readystatechange. destruct (conns s !! i) as [c|], status as [st|]; eauto.
    destruct (_ && _); [|eauto]. rewrite late_fail by done. eauto.
  - assert (Hf : ∀ e s1, message s1 = message s →
      ∃ s', request_failed e s1 = Ok s' ∧ message s' = message s).
    { intros e s1 Hs1. unfold request_failed. simpl. rewrite Hs1, late_finish by done. simpl. eauto. }
    destruct a as [e|c x b|[d|e]]; cbn [request_ended]; try by apply Hf.
    destruct (answer_fields d) as [[fs|]|e]; [|eauto|by apply Hf].
    simpl. rewrite late_finish by done. simpl. eauto.
Qed.

Lemma late_run es s :
  at_rest (message s) → Forall (λ e, late e = true) es →
  ∃ s', run es s = Ok s' ∧ message s' = message s.
Proof.
  intros Hr Hes. revert s Hr. induction Hes as [|e es He _ IH]; simpl; intros s Hr; [eauto|].
  destruct (late_step e s Hr He) as (s1 & -> & Hm). simpl.
  destruct (IH s1) as (s2 & -> & Hm2); [by rewrite Hm|]. exists s2. split; [done|congruence].
Qed.

(** The message that stopping leaves behind *)
Lemma stop_update_ok_replying l r :
  replying l r → r_phase r = Arriving →
  ∃ o l' c' r' p, last_message l = VObj o ∧ stop_update l = Ok (l', true) ∧
    processIncompleteThinkTags (str (r_content r)) (str (r_reasoning r)) = Ok (str c', str r') ∧
    l' = replace_last l (with_fields (VObj o)
           ([(u "status", str COMPLETE); (u "reasoningContent", v_or (str r') VNull);
             (u "content", str c')] ++ p)) ∧
    Forall (λ kv, kv.1 ∉ [u "role"; u "content"; u "reasoningContent"; u "status"]) p.
Proof.
  intros [Hne (o & Hm & Hro & Hc & Hre & st & Hst & Hph)] Hp.
  destruct (phase_generating _ _ Hph) as [Hg _]. rewrite Hp in Hg.
  destruct (process_incomplete_strings (r_content r) (r_reasoning r)) as (c' & r' & Hpr).
  destruct (collapse_ok o (VBool true)) as (p & Hcol & Hfree).
  eexists o, _, c', r', p. split; [done|]. split; [|by split_and!].
  unfold stop_update. destruct l as [|x l0]; [done|]. rewrite Hm.
  rewrite (get_field _ _ _ Hst), (get_field _ _ _ Hc), (get_field _ _ _ Hre). cbn [rbind].
  rewrite Hg, bool_decide_eq_true_2 by done. rewrite !v_or_str. unfold str at 1 2. rewrite Hpr.
  cbn [rbind]. by rewrite Hcol.
Qed.

Lemma status_field o p v :
  obj_get (rev p) (u "status") = Some v →
  with_fields (VObj o) p = VObj (obj_extend o p) ∧ obj_get (obj_extend o p) (u "status") = Some v.
Proof. intros Hp. split; [done|]. by rewrite obj_get_extend, Hp. Qed.

(** C7: stopping settles a reply that is arriving and schedules saving the
    conversation; whatever the connections and requests deliver afterwards,
    in any number and order, no listener throws and the conversation stays as
    it is. *)
Theorem stop_is_final s r :
  replying (message s) r → r_phase r = Arriving →
  ∃ s', onStopGenerator s = Ok s' ∧ same_before (message s) (message s') ∧
    TSave (message s') ∈ tasks s' ∧
    ∀ es, Forall (λ e, late e = true) es →
      ∃ s'', run es s' = Ok s'' ∧ message s'' = message s'.
Proof.
  intros Hr Hp. destruct (stop_update_ok_replying _ _ Hr Hp) as (o & l' & c' & r' & p & Hm & Hs & _ & Hl & Hf).
  unfold onStopGenerator. cbn [message set_source]. rewrite Hs. simpl.
  eexists. split; [done|]. cbn [message later set_tasks set_message tasks set_source].
  split; [rewrite Hl; apply replace_last_before|]. split; [set_solver|].
  intros es Hes. apply late_run; [|done].
  cbn [message later set_tasks set_message]. rewrite Hl.
  eexists _, COMPLETE. rewrite replace_last_last.
  match goal with |- context [with_fields (VObj o) ?q] =>
    destruct (status_field o q (str COMPLETE)) as [-> Hst] end.
  - rewrite collapse_get by (done || set_solver). done.
  - split; [done|]. split; [exact Hst|done].
Qed.

(** ** What the page shows *)

(** The rendering of an assistant message whose content is a text *)
Lemma MessageContent_assistant note o c re st :
  obj_get o (u "role") = Some (str ASSISTANT) → obj_get o (u "content") = Some (str c) →
  obj_get o (u "reasoningContent") = Some re → obj_get o (u "status") = Some (str st) →
  is_text (str st) ERROR = false →
  MessageContent note (VObj o) =
  (let combined := if truthy re then re else VStr [] in
   let source := if truthy re then VStr (u "reasoningContent") else VNull in
   let! (base, combined, source) := show_paired c combined source in
   let! (base, combined, source) :=
     if generating (str st) then show_unclosed base combined source
     else Ok (base, combined, source) in
   Ok (BodyView (v_or combined VNull) source (trim (remove_tags base)))).
Proof.
  intros Hro Hc Hre Hst He. unfold MessageContent.
  rewrite (get_field _ _ _ Hst), (get_field _ _ _ Hc), (get_field _ _ _ Hro), (get_field _ _ _ Hre).
  cbn [rbind]. change (u "error") with ERROR. rewrite He. done.
Qed.

Lemma combined_str r : (if truthy (str r) then str r else VStr []) = str r.
Proof. by destruct r. Qed.

Lemma combined_or_null r :
  (if truthy (v_or (str r) VNull) then v_or (str r) VNull else VStr []) = str r.
Proof. by destruct r. Qed.

Lemma arriving_not_error st r :
  phase_of st = Some (r_phase r) → r_phase r = Arriving → is_text (str st) ERROR = false.
Proof.
  intros Hph Hp. rewrite Hp in Hph. apply not_true_iff_false. unfold str, is_text.
  rewrite bool_decide_eq_true. intros ->. by vm_compute in Hph.
Qed.

Lemma shown_arriving note m r t0 ps un :
  stands_for m r → r_phase r = Arriving → r_content r = tagged t0 ps ++ open_tail un →
  separated t0 ps → clean (visible t0 ps) → unfinished un → thoughts_of ps ≠ [] ∨ ps = [] →
  ∃ src, MessageContent note m =
    Ok (BodyView (v_or (str (sections [r_reasoning r; thoughts_of ps; open_thought un])) VNull) src
                 (trim (visible t0 ps))).
Proof.
  intros (o & -> & Hro & Hc & Hre & st & Hst & Hph) Hp Hcont Hsep Hcl Hun Hth.
  rewrite (MessageContent_assistant note o _ _ _ Hro Hc Hre Hst) by by eapply arriving_not_error.
  cbv zeta. rewrite combined_str, Hcont. destruct (phase_generating _ _ Hph) as [Hg _].
  rewrite Hg, bool_decide_eq_true_2 by done.
  match goal with |- context [show_paired _ _ ?x] =>
    destruct (show_arriving t0 ps un (r_reasoning r) x Hsep Hcl Hun Hth) as [src Hs] end.
  exists src. unfold str in *.
  destruct (show_paired _ _ _) as [[[b1 c1] s1]|]; cbn [rbind] in Hs |- *; [|done].
  rewrite Hs. cbn [rbind]. destruct Hcl as [Ho Hcc]. by rewrite remove_tags_id.
Qed.

(** stopping does not change the reply that is shown, and keeps every
    thought: what was shown of an arriving reply with complete thoughts and
    possibly an open one is shown of the stopped one, the open thought moving
    in front of the complete ones. *)
Theorem stop_keeps_reply note s r t0 ps un :
  replying (message s) r → r_phase r = Arriving → r_content r = tagged t0 ps ++ open_tail un →
  separated t0 ps → clean (visible t0 ps) → unfinished un → thoughts_of ps ≠ [] ∨ ps = [] →
  ∃ s' src src', onStopGenerator s = Ok s' ∧
    MessageContent note (last_message (message s)) =
      Ok (BodyView (v_or (str (sections [r_reasoning r; thoughts_of ps; open_thought un])) VNull)
                   src (trim (visible t0 ps))) ∧
    MessageContent note (last_message (message s')) =
      Ok (BodyView (v_or (str (sections [r_reasoning r; open_thought un; thoughts_of ps])) VNull)
                   src' (trim (visible t0 ps))).
Proof.
  intros Hr Hp Hcont Hsep Hcl Hun Hth.
  destruct (stop_update_ok_replying _ _ Hr Hp) as (o & l' & c' & r' & p & Hm & Hs & Hpr & Hl & Hf).
  destruct Hr as [Hne Hsf].
  destruct (shown_arriving note _ r t0 ps un Hsf Hp Hcont Hsep Hcl Hun Hth) as [src Hsrc].
  destruct (process_cut_off t0 ps un (r_reasoning r) Hsep Hcl Hun) as (c & Hc & Htr & Hcc & Hcd).
  rewrite Hcont in Hpr. unfold str in Hpr at 1 2. rewrite Hc in Hpr. injection Hpr as <- <-.
  unfold onStopGenerator. cbn [message set_source]. rewrite Hs. simpl.
  eexists _, src, _. split; [done|]. split; [done|].
  cbn [message later set_tasks set_message]. rewrite Hl, replace_last_last.
  destruct Hsf as (o' & Ho' & Hro & _). rewrite Hm in Ho'. injection Ho' as <-.
  unfold with_fields. cbn [spread entries].
  match goal with |- context [obj_extend o (?q ++ p)] => set (q0 := q) end.
  assert (Hget : ∀ k, k ∈ [u "role"; u "content"; u "reasoningContent"; u "status"] →
    obj_get (obj_extend o (q0 ++ p)) k =
    match obj_get (rev q0) k with Some v => Some v | None => obj_get o k end).
  { intros k Hk. by rewrite obj_get_extend, collapse_get. }
  erewrite (MessageContent_assistant note _ c _ COMPLETE);
    [|rewrite Hget by set_solver; exact Hro|rewrite Hget by set_solver; done
     |rewrite Hget by set_solver; reflexivity|rewrite Hget by set_solver; done|done].
  cbv zeta. rewrite combined_or_null. change (generating (str COMPLETE)) with false. cbn iota.
  unfold show_paired, has_open in *. rewrite Hcc. cbn [rbind].
  rewrite remove_tags_id, Htr by done. done.
Qed.

(** The rendering of a complete reply *)
Lemma shown_complete note o r t0 ps :
  obj_get o (u "role") = Some (str ASSISTANT) →
  obj_get o (u "content") = Some (str (tagged t0 ps)) →
  obj_get o (u "reasoningContent") = Some (str r) →
  obj_get o (u "status") = Some (str COMPLETE) →
  separated t0 ps → clean (visible t0 ps) → thoughts_of ps ≠ [] ∨ ps = [] →
  ∃ src, MessageContent note (VObj o) =
    Ok (BodyView (v_or (str (sections [r; thoughts_of ps])) VNull) src (trim (visible t0 ps))).
Proof.
  intros Hro Hc Hre Hst Hsep Hcl Hth.
  rewrite (MessageContent_assistant note o _ _ _ Hro Hc Hre Hst) by done.
  cbv zeta. rewrite combined_str. change (generating (str COMPLETE)) with false. cbn iota.
  match goal with |- context [show_paired _ _ ?x] =>
    destruct (show_paired_tagged t0 ps None r x Hsep I Hth) as [src Hs] end.
  cbn [open_tail] in Hs. rewrite !app_nil_r in Hs. unfold str in *. rewrite Hs. cbn [rbind].
  exists src. destruct Hcl as [Ho Hcc]. by rewrite remove_tags_id.
Qed.

(** The answer to a request without streaming *)
Definition plain_answer (content reasoning : jstr) : val :=
  VObj [(u "choices", VArr [VObj [(u "message",
    VObj [(u "content", str content); (u "reasoning_content", str reasoning)])]])].

Lemma answer_fields_plain c re :
  ∃ c' r', processThinkTags (str c) (str re) = Ok (str c', str r') ∧
    answer_fields (plain_answer c re) =
    Ok (Some [(u "content", str c'); (u "reasoningContent", str r'); (u "status", str COMPLETE)]).
Proof.
  destruct (process_strings c re) as (c' & r' & Hp). exists c', r'. split; [done|].
  unfold answer_fields. change (get (plain_answer c re) (u "choices")) with
    (Ok (VArr [VObj [(u "message",
       VObj [(u "content", str c); (u "reasoning_content", str re)])]])). cbn [rbind].
  change (get_opt (VArr [?x]) (u "0")) with x. cbn [truthy].
  change (get_opt (VObj [(u "message", ?m)]) (u "message")) with m.
  change (get_opt (VObj [(u "content", ?a); (u "reasoning_content", ?b)]) (u "content")) with a.
  change (get_opt (VObj [(u "content", ?a); (u "reasoning_content", ?b)]) (u "reasoning_content")) with b.
  change (get_opt (VObj [(u "content", ?a); (u "reasoning_content", ?b)]) (u "reasoning")) with VUndef.
  rewrite v_or_str.
  assert (Hr : v_or (v_or (str re) VUndef) (str []) = str re) by by destruct re.
  rewrite Hr. unfold str in *. by rewrite Hp.
Qed.

Lemma tagged_nil c : tagged c [] = c.
Proof. apply app_nil_r. Qed.

(** with and without streaming the same answer is shown alike: a streamed
    reply keeps its think tags and they are taken out when it is rendered, the
    answer to a plain request has them taken out when it arrives; reply and
    reasoning shown are the same. *)
Theorem answer_shown_alike note s s1 r0 re t0 ps :
  replying (message s) r0 → is_text (get_opt (last_message (message s)) (u "status")) LOADING = true →
  replying (message s1) {| r_content := tagged t0 ps; r_reasoning := re; r_phase := Finished |} →
  separated t0 ps → clean (visible t0 ps) → thoughts_of ps ≠ [] ∨ ps = [] →
  ∃ s2 thinking src1 src2,
    request_ended (Answer (Ok (plain_answer (tagged t0 ps) re))) s = Ok s2 ∧
    MessageContent note (last_message (message s1)) =
      Ok (BodyView thinking src1 (trim (visible t0 ps))) ∧
    MessageContent note (last_message (message s2)) =
      Ok (BodyView thinking src2 (trim (visible t0 ps))).
Proof.
  intros [Hne (o & Hm & Hro & _)] Hload [_ (o1 & Hm1 & Hro1 & Hc1 & Hre1 & st1 & Hst1 & Hph1)] Hsep Hcl Hth.
  assert (st1 = COMPLETE) as ->.
  { unfold phase_of in Hph1. repeat case_bool_decide; by simplify_eq. }
  destruct (shown_complete note o1 re t0 ps Hro1 Hc1 Hre1 Hst1 Hsep Hcl Hth) as [src1 Hv1].
  destruct (answer_fields_plain (tagged t0 ps) re) as (c' & r' & Hp & Hf).
  destruct (process_closed t0 ps re Hsep Hcl) as (c & Hc & Htr & Hcc).
  unfold str in Hp. rewrite Hc in Hp. injection Hp as <- <-.
  cbn [request_ended]. rewrite Hf. cbn [rmap]. unfold finish_loading.
  cbn [message set_tab set_debug]. rewrite Hload, Hm.
  destruct (collapse_ok o (VBool true)) as (p & -> & Hfree). cbn [rbind rmap].
  match goal with |- context [with_fields (VObj o) (?q ++ p)] => set (q0 := q) end.
  assert (Hget : ∀ k, k ∈ [u "role"; u "content"; u "reasoningContent"; u "status"] →
    obj_get (obj_extend o (q0 ++ p)) k =
    match obj_get (rev q0) k with Some v => Some v | None => obj_get o k end).
  { intros k Hk. by rewrite obj_get_extend, collapse_get. }
  destruct (shown_complete note (obj_extend o (q0 ++ p)) (sections [re; thoughts_of ps]) c [])
    as [src2 Hv2].
  - rewrite Hget by set_solver. exact Hro.
  - rewrite Hget, tagged_nil by set_solver. done.
  - rewrite Hget by set_solver. done.
  - rewrite Hget by set_solver. done.
  - split; [apply Hcc|constructor].
  - unfold visible. simpl. by rewrite app_nil_r.
  - by right.
  - eexists _, _, src1, src2. split; [done|]. rewrite Hm1. split; [exact Hv1|].
    cbn [message set_message]. rewrite replace_last_last. unfold with_fields. cbn [spread entries].
    rewrite Hv2. unfold visible at 1, thoughts_of at 2. cbn [map concat join]. rewrite app_nil_r, Htr.
    by rewrite sections_nil_r.
Qed.

(** ** Every end of a stream settles the reply *)

(** The ways in which a connection can end its reply, with what the reply
    becomes *)
Inductive stream_end (i : nat) : event → act → Prop :=
| end_mark : stream_end i (EMessage i (u "[DONE]")) ADone
| end_not_json data e :
    data ≠ u "[DONE]" → JSON_parse data = Throw e →
    stream_end i (EMessage i data) (AFail parse_note)
| end_null data :
    JSON_parse data = Ok VNull → stream_end i (EMessage i data) (AFail parse_note)
| end_error data readyState :
    readyState ≠ 2 → stream_end i (EError i data readyState) (AFail (error_note data))
| end_status ready status readyState :
    2 <= ready → status ≠ 200 →
    stream_end i (EReadyState i ready (Some status) readyState) (AFail status_note).

Lemma stream_end_step i e a s r :
  stream_end i e a → replying (message s) r → r_phase r = Arriving →
  (∃ c, conns s !! i = Some c ∧ isStreamComplete c = false) →
  ∃ s', step e s = Ok s' ∧ goes_on s s' (spec_step r a) ∧ tasks s' = tasks s ++ [TSave (message s')].
Proof.
  intros He Hr Hp (c & Hc & Hcomp).
  assert (Hfail : ∀ text s1, message s1 = message s → tasks s1 = tasks s →
    ∃ s', fail_stream text s1 = Ok s' ∧ goes_on s s' (spec_step r (AFail text)) ∧
          tasks s' = tasks s ++ [TSave (message s')]).
  { intros text s1 Hm Ht. rewrite <- Hm in Hr.
    destruct (fail_stream_refines text s1 r Hr) as (s' & Hs' & Hg & Ht'). exists s'.
    rewrite decide_True in Ht' by done. rewrite Ht', Ht. split; [done|].
    split; [by eapply goes_on_from|done]. }
  destruct He as [|data e Hd Hj|data Hj|data rs Hrs|ready st rs Hre Hst]; cbn [step].
  - unfold on_message. rewrite Hc. rewrite bool_decide_eq_true_2 by done.
    match goal with |- context [completeMessage COMPLETE ?x] =>
      destruct (completeMessage_refines COMPLETE ADone Finished x r) as (s' & Hs' & Hg & Ht') end;
      [set_solver|done..|intros _; unfold spec_step; by rewrite Hp|exact Hr|].
    rewrite decide_True in Ht' by done. exists s'. split; [exact Hs'|]. split; [exact Hg|exact Ht'].
  - unfold on_message. rewrite Hc, bool_decide_eq_false_2, Hj by done. by apply Hfail.
  - assert (data ≠ u "[DONE]") by (intros ->; by vm_compute in Hj).
    unfold on_message. rewrite Hc, bool_decide_eq_false_2, Hj by done. cbn [delta_of get rbind].
    apply Hfail; by destruct (hasReceivedFirstResponse c).
  - unfold on_error. rewrite Hc, Hcomp. assert ((rs =? 2) = false) as -> by lia. cbn [negb andb].
    match goal with |- context [fail_stream ?x ?y] =>
      destruct (Hfail x y eq_refl eq_refl) as (s' & -> & Hg & Ht') end.
    simpl. eexists. split; [done|]. split; [exact Hg|exact Ht'].
  - unfold on_readystatechange. rewrite Hc, Hcomp.
    assert ((2 <=? ready) = true) as -> by lia. assert ((st =? 200) = false) as -> by lia.
    by apply Hfail.
Qed.

Lemma says_ended n ended es acts :
  says n ended es = Ok acts → Forall (λ a, is_chunk a = true) acts →
  ∀ i, (i < n)%nat → i ∉ ended → i ∉ fold_left ended_after es ended.
Proof.
  revert ended acts. induction es as [|e es IH]; simpl; intros ended acts Ha Hc i Hi Hn; [done|].
  destruct (event_says n ended e) as [a|] eqn:Ee; simpl in Ha; [|done].
  destruct (says n _ es) as [more|] eqn:Em; simplify_eq/=. apply list.Forall_app in Hc as [Hc1 Hc2].
  apply (IH _ _ Em Hc2 i Hi). destruct e; try done. cbn [ended_after event_says] in *.
  unfold data_says in Ee. case_bool_decide as Hd; [|done].
  destruct (decide (i = i0)) as [<-|]; [|set_solver].
  rewrite bool_decide_eq_true_2 in Ee by done. simplify_eq. by inversion Hc1.
Qed.

Lemma run_marked es s s' ended :
  Forall (λ e, network e = true) es → run es s = Ok s' → marked ended (conns s) →
  marked (fold_left ended_after es ended) (conns s').
Proof.
  intros Hes. revert s ended. induction Hes as [|e es He _ IH]; simpl; intros s ended; [by intros [= <-]|].
  destruct (step e s) as [s1|] eqn:E; simpl; [|done]. intros Hr Hm. apply (IH s1); [done|].
  by eapply network_marked.
Qed.

(** C36: the end mark of a connection, data that is no JSON text or reads
    null, an error while the connection is not reported closed, or a finished
    HTTP exchange with a status other than 200: after any trace of chunks, in
    any interleaving, each of these settles the arriving reply, with the text
    received so far kept and the note of the failure appended, as finished or
    failed; the conversation before the reply is unchanged and the settled
    conversation is scheduled for saving.  An error whose source is reported
    closed, and an exchange that ends with status 200 and no end mark, are not
    among them. *)
Theorem stream_end_settles es i e a s r ended acts :
  Forall (λ e, network e = true) es → replying (message s) r → r_phase r = Arriving →
  marked ended (conns s) → (i < length (conns s))%nat → i ∉ ended →
  says (length (conns s)) ended es = Ok acts → Forall (λ a, is_chunk a = true) acts →
  stream_end i e a →
  ∃ s', run (es ++ [e]) s = Ok s' ∧ replying (message s') (spec_step (spec_run r acts) a) ∧
    r_phase (spec_step (spec_run r acts) a) ≠ Arriving ∧
    same_before (message s) (message s') ∧ TSave (message s') ∈ tasks s'.
Proof.
  intros Hes Hr Hp Hm Hi Hn Ha Hc He.
  destruct (run_refines es s r ended acts Hes Hr Hm Ha) as (s1 & Hs1 & Hr1 & Hb1).
  pose proof (run_marked _ _ _ _ Hes Hs1 Hm) as Hm1.
  assert (Hp1 : r_phase (spec_run r acts) = Arriving) by (by rewrite spec_run_chunks).
  assert (Hconn : ∃ c, conns s1 !! i = Some c ∧ isStreamComplete c = false).
  { pose proof Hi as Hi'. rewrite <- (run_conns _ _ _ Hes Hs1) in Hi'.
    destruct (lookup_lt_is_Some_2 _ _ Hi') as [c Hci]. exists c. split; [done|].
    rewrite (Hm1 _ _ Hci). apply bool_decide_eq_false_2. by eapply says_ended. }
  destruct (stream_end_step i e a s1 _ He Hr1 Hp1 Hconn) as (s2 & Hs2 & [Hr2 Hb2] & Ht2).
  exists s2. rewrite run_app, Hs1. cbn [rbind run]. rewrite Hs2. split; [done|]. split; [done|].
  split; [unfold spec_step; rewrite Hp1; by destruct He|]. split; [by eapply same_before_trans|].
  rewrite Ht2. set_solver.
Qed.

(** Two ends that the page does not notice: an error of a source that is
    reported closed, and an exchange that ends with status 200 without the end
    mark.  Both leave the page as it was, so an arriving reply stays so. *)
Theorem silent_ends i data ready readyState s :
  step (EError i data 2) s = Ok s ∧ step (EReadyState i ready (Some 200) readyState) s = Ok s.
Proof.
  cbn [step]. unfold on_error, on_readystatechange. split.
  - destruct (conns s !! i); [|done]. by rewrite andb_false_r.
  - destruct (conns s !! i); [|done]. by rewrite andb_false_r.
Qed.

(** An answer without streaming is not saved. *)
Theorem answers_not_saved a s s' :
  request_ended a s = Ok s' → tasks s' = tasks s ∧ local s' = local s.
Proof.
  assert (Hf : ∀ fs s1, rmap (λ l, set_message l s1) (finish_loading fs (message s1)) = Ok s' →
    tasks s' = tasks s1 ∧ local s' = local s1).
  { intros fs s1. destruct (finish_loading _ _); simpl; [|done]. by intros [= <-]. }
  unfold request_failed in *. destruct a as [e|c x b|[d|e]]; cbn [request_ended];
    try (intros Hs%Hf; exact Hs).
  destruct (answer_fields d) as [[fs|]|e]; [intros Hs%Hf; exact Hs|by intros [= <-]|intros Hs%Hf; exact Hs].
Qed.

(** An answer without a choice leaves the message loading. *)
Theorem no_choice_no_reply d s :
  answer_fields d = Ok None →
  ∃ s', request_ended (Answer (Ok d)) s = Ok s' ∧ message s' = message s.
Proof. intros Hd. cbn [request_ended]. rewrite Hd. eauto. Qed.

(** A stream that ends after the conversation was cleared throws. *)
Theorem done_after_clear_throws i s c :
  conns s !! i = Some c → on_message i DONE (handleClearMessages s) = Throw TypeError.
Proof.
  intros Hc. unfold on_message. cbn [conns handleClearMessages later set_tasks set_message].
  rewrite Hc. rewrite bool_decide_eq_true_2 by done. done.
Qed.
End events.

(** ** A stream to evaluate *)

Definition reply0 : reply := {| r_content := []; r_reasoning := []; r_phase := Arriving |}.

Definition fields_of (m : val) : obj := match m with VObj o => o | _ => [] end.

Lemma asked_replying : replying (message asked) reply0.
Proof.
  split; [by vm_compute|]. exists (fields_of (last_message (message asked))).
  split; [by vm_compute|]. split; [by vm_compute|]. split; [by vm_compute|].
  split; [by vm_compute|]. exists LOADING. split; by vm_compute.
Qed.

Definition sample_stream : list event :=
  [EMessage 0 (uq "{'choices':[{'delta':{'reasoning_content':'Hm. '}}]}");
   EMessage 0 (uq "{'choices':[{'delta':{'content':'Hel'}}]}");
   EReadyState 0 2 (Some 200) 2;
   EMessage 0 (uq "{'choices':[{'delta':{'content':'lo'}}]}")].
Definition sample_acts : list act := [AThought (u "Hm. "); AText (u "Hel"); AText (u "lo")].

Lemma sample_network : Forall (λ e, network e = true) sample_stream.
Proof. by repeat constructor. Qed.

Lemma sample_says : @says plain_env (length (conns asked)) [] sample_stream = Ok sample_acts.
Proof. vm_compute. reflexivity. Qed.

Lemma asked_marked : marked [] (conns asked).
Proof. intros [|[|i]] c; [|by vm_compute..]. intros Hc. vm_compute in Hc. by injection Hc as <-. Qed.

Lemma sample_chunks : Forall (λ a, is_chunk a = true) sample_acts.
Proof. repeat first [apply Forall_nil_2|apply Forall_cons_2]; reflexivity. Qed.

Lemma asked_connected : (0 < length (conns asked))%nat.
Proof. vm_compute. lia. Qed.

Lemma stream_refines_witness :
  marked [] (conns asked) ∧ @says plain_env (length (conns asked)) [] sample_stream = Ok sample_acts ∧
  ∃ s', @run plain_env sample_stream asked = Ok s' ∧
        replying (message s') (spec_run reply0 sample_acts) ∧
        same_before (message asked) (message s').
Proof.
  split; [exact asked_marked|]. split; [exact sample_says|].
  exact (@stream_refines plain_env sample_stream asked reply0 [] sample_acts
           sample_network asked_replying asked_marked sample_says).
Defined.

Lemma streamed_reply_witness :
  (0 < length (conns asked))%nat ∧
  ∃ s', @run plain_env (sample_stream ++ [EMessage 0 DONE]) asked = Ok s' ∧
    replying (message s') {| r_content := u "Hello"; r_reasoning := u "Hm. "; r_phase := Finished |} ∧
    same_before (message asked) (message s') ∧ TSave (message s') ∈ tasks s'.
Proof.
  split; [exact asked_connected|].
  exact (@streamed_reply plain_env sample_stream 0%nat asked reply0 [] sample_acts sample_network
           asked_replying eq_refl asked_marked asked_connected sample_says sample_chunks).
Defined.

Lemma stop_is_final_witness :
  replying (message asked) reply0 ∧
  ∃ s', onStopGenerator asked = Ok s' ∧ same_before (message asked) (message s') ∧
    TSave (message s') ∈ tasks s' ∧
    ∀ es, Forall (λ e, late e = true) es → ∃ s'', @run plain_env es s' = Ok s'' ∧ message s'' = message s'.
Proof.
  split; [exact asked_replying|].
  exact (@stop_is_final plain_env asked reply0 asked_replying eq_refl).
Defined.

(** A reply with a complete and an open thought *)
Definition think_stream : list event :=
  [EMessage 0 (uq "{'choices':[{'delta':{'content':'<think>a</think>x<think>b'}}]}")].
Definition think_reply : reply :=
  {| r_content := u "<think>a</think>x<think>b"; r_reasoning := []; r_phase := Arriving |}.
Definition thinking_page : pg := page (@run plain_env think_stream asked).

Lemma thinking_replying : replying (message thinking_page) think_reply.
Proof.
  split; [by vm_compute|]. exists (fields_of (last_message (message thinking_page))).
  split; [by vm_compute|]. split; [by vm_compute|]. split; [by vm_compute|].
  split; [by vm_compute|]. exists INCOMPLETE. split; by vm_compute.
Qed.

Lemma think_pieces :
  separated [] [(u "a", u "x")] ∧ clean (visible [] [(u "a", u "x")]) ∧ unfinished (Some (u "b")) ∧
  thoughts_of [(u "a", u "x")] ≠ [].
Proof. split; [by repeat constructor|]. split; [by repeat constructor|]. by split; [repeat constructor|]. Qed.

Lemma stop_keeps_reply_witness :
  ∃ s' src src', onStopGenerator thinking_page = Ok s' ∧
    MessageContent [] (last_message (message thinking_page)) =
      Ok (BodyView (str (u "a" ++ think_sep ++ u "b")) src (u "x")) ∧
    MessageContent [] (last_message (message s')) =
      Ok (BodyView (str (u "b" ++ think_sep ++ u "a")) src' (u "x")).
Proof.
  destruct think_pieces as (H1 & H2 & H3 & H4).
  exact (stop_keeps_reply [] thinking_page think_reply [] [(u "a", u "x")] (Some (u "b"))
           thinking_replying eq_refl eq_refl H1 H2 H3 (or_introl H4)).
Defined.

Definition finished_page : pg :=
  page (@run plain_env (sample_stream ++ [EMessage 0 DONE]) asked).

Lemma finished_replying :
  replying (message finished_page)
    {| r_content := u "Hello"; r_reasoning := u "Hm. "; r_phase := Finished |}.
Proof.
  split; [by vm_compute|]. exists (fields_of (last_message (message finished_page))).
  split; [by vm_compute|]. split; [by vm_compute|]. split; [by vm_compute|].
  split; [by vm_compute|]. exists COMPLETE. split; by vm_compute.
Qed.

Lemma asked_loading : is_text (get_opt (last_message (message asked)) (u "status")) LOADING = true.
Proof. by vm_compute. Qed.

Lemma hello_pieces : separated (u "Hello") [] ∧ clean (visible (u "Hello") []).
Proof. by repeat constructor. Qed.

Lemma answer_shown_alike_witness :
  ∃ s2 thinking src1 src2,
    @request_ended plain_env (Answer (Ok (plain_answer (u "Hello") (u "Hm. ")))) asked = Ok s2 ∧
    MessageContent [] (last_message (message finished_page)) =
      Ok (BodyView thinking src1 (u "Hello")) ∧
    MessageContent [] (last_message (message s2)) = Ok (BodyView thinking src2 (u "Hello")).
Proof.
  destruct hello_pieces as [H1 H2].
  exact (@answer_shown_alike plain_env [] asked finished_page reply0 (u "Hm. ") (u "Hello") []
           asked_replying asked_loading finished_replying H1 H2 (or_intror eq_refl)).
Defined.

Lemma stream_end_settles_witness :
  (0 < length (conns asked))%nat ∧
  ∃ s', @run plain_env (sample_stream ++ [EMessage 0 (u "oops")]) asked = Ok s' ∧
    replying (message s') (spec_step (spec_run reply0 sample_acts) (AFail (@parse_note plain_env))) ∧
    r_phase (spec_step (spec_run reply0 sample_acts) (AFail (@parse_note plain_env))) ≠ Arriving ∧
    same_before (message asked) (message s') ∧ TSave (message s') ∈ tasks s'.
Proof.
  split; [exact asked_connected|].
  assert (He : @stream_end plain_env 0 (EMessage 0 (u "oops")) (AFail (@parse_note plain_env))).
  { eapply end_not_json; [by vm_compute|vm_compute; reflexivity]. }
  exact (@stream_end_settles plain_env sample_stream 0%nat _ _ asked reply0 [] sample_acts sample_network
           asked_replying eq_refl asked_marked asked_connected ltac:(apply not_elem_of_nil)
           sample_says sample_chunks He).
Defined.
