(* ===== verification/PlaygroundSync.v ===== *)
(** * Custom request bodies, and reopening the playground

    [web/src/hooks/playground/useSyncMessageAndCustomBody.js] keeps the custom
    request body and the conversation alike: two effects run whenever either
    changes, and hashes of what was last written keep them from answering each
    other.  The second part follows a conversation through [localStorage] and
    a reload of the page. *)

From stdpp Require Import gmap.
From S2P Require Import Prelude JsString JsNumber JsValue Json Browser ThinkTags PlaygroundMessages Playground PlaygroundSession PlaygroundStream.

Local Open Scope Z_scope.

(** ** The two effects *)

(** The refs of the hook.  The flags are set and reset within one call. *)
Record sync := {
  isUpdatingFromMessage : bool;
  isUpdatingFromCustomBody : bool;
  lastMessageHash : jstr;
  lastCustomBodyHash : jstr;
}.
Definition sync0 : sync :=
  {| isUpdatingFromMessage := false; isUpdatingFromCustomBody := false;
     lastMessageHash := []; lastCustomBodyHash := [] |}.
Definition set_hashes (mh bh : jstr) (y : sync) : sync :=
  {| isUpdatingFromMessage := false; isUpdatingFromCustomBody := false;
     lastMessageHash := mh; lastCustomBodyHash := bh |}.

Definition hash_fields (m : val) : res val :=
  let! id := get m (u "id") in
  let! role := get m (u "role") in
  let! content := get m (u "content") in
  Ok (VObj [(u "id", id); (u "role", role); (u "content", content)]).
Definition getMessageHash (ms : list val) : res jstr :=
  rmap (λ l, stringify_text (VArr l)) (rmapM hash_fields ms).

(** [JSON.parse(body || '{}')] *)
Definition parse_body (body : val) : res val :=
  let! text := to_str (v_or body (str (u "{}"))) in JSON_parse text.

Definition getCustomBodyHash (body : val) : jstr :=
  rcatch (let! text := to_str body in
          let! parsed := JSON_parse text in
          let! ms := get parsed (u "messages") in
          Ok (stringify_text (v_or ms (VArr [])))) [].

Definition body_message (m : val) : res val :=
  let! role := get m (u "role") in
  let! content := get m (u "content") in
  Ok (VObj [(u "role", role); (u "content", content)]).

Definition fallback_payload (inputs : obj) : val :=
  VObj [(u "model", v_or (oget inputs (u "model")) (str (u "gpt-4o"))); (u "messages", VArr []);
        (u "temperature", v_or (oget inputs (u "temperature")) (VNum (Number (u "0.7"))));
        (u "stream", VBool (negb (is_false (oget inputs (u "stream")))))].

(** [payload.messages = ms], in strict mode; an array takes the property but
    does not serialize it. *)
Definition put_messages (payload : val) (ms : list val) : res val :=
  match payload with
  | VObj o => Ok (VObj (obj_set o (u "messages") (VArr ms)))
  | VArr _ => Ok payload
  | _ => Throw TypeError
  end.

(** [syncMessageToCustomBody]: the new body, if it is written *)
Definition syncMessageToCustomBody (mode body : val) (ms : list val) (inputs : obj) (y : sync)
    : res (option jstr * sync) :=
  if negb (truthy mode) || isUpdatingFromCustomBody y then Ok (None, y) else
  let! hash := getMessageHash ms in
  if hash =s lastMessageHash y then Ok (None, y) else
  let payload := rcatch (parse_body body) (fallback_payload inputs) in
  let! l := rmapM body_message ms in
  let! payload := put_messages payload l in
  let newCustomBody := stringify2_text payload in
  Ok (Some newCustomBody, set_hashes hash (getCustomBodyHash (str newCustomBody)) y).

Section sync.
Context `{Env}.

(** One message of the body; [now] is [Date.now()]. *)
Definition message_of_body (now : Z) (i : nat) (m : val) : res val :=
  let! id := get m (u "id") in
  let! role := get m (u "role") in
  let! content := get m (u "content") in
  let! reasoning := get m (u "reasoningContent") in
  Ok (VObj (obj_extend
    [(u "id", v_or id (str (dec (Z.of_nat i + 1)))); (u "role", v_or role (str USER));
     (u "content", v_or content (str [])); (u "createAt", VNum (of_Z now))]
    (if is_text role ASSISTANT
     then [(u "reasoningContent", v_or reasoning (str [])); (u "isReasoningExpanded", VBool false)]
     else []))).
Fixpoint messages_of_body (now : Z) (i : nat) (l : list val) : res (list val) :=
  match l with
  | [] => Ok []
  | m :: l =>
    let! m' := message_of_body now i m in
    let! l' := messages_of_body now (S i) l in
    Ok (m' :: l')
  end.

(** [syncCustomBodyToMessage]: the new conversation, if it is written.  What
    the [try] block throws is logged. *)
Definition syncCustomBodyToMessage (mode body : val) (now : Z) (y : sync)
    : option (list val) * sync :=
  let bodyHash := getCustomBodyHash body in
  if negb (truthy mode) || isUpdatingFromMessage y || (bodyHash =s lastCustomBodyHash y)
  then (None, y)
  else match (let! payload := parse_body body in
              let! ms := get payload (u "messages") in
              match ms with
              | VArr l =>
                let! newMessages := messages_of_body now 0 l in
                let! hash := getMessageHash newMessages in
                Ok (Some (newMessages, hash))
              | _ => Ok None
              end) with
  | Ok (Some (newMessages, hash)) => (Some newMessages, set_hashes hash bodyHash y)
  | Ok None => (None, set_hashes (lastMessageHash y) (lastCustomBodyHash y) y)
  | Throw _ => (None, set_hashes (lastMessageHash y) (lastCustomBodyHash y) y)
  end.

(** ** The effects do not answer each other *)

Definition idle (y : sync) : Prop :=
  isUpdatingFromMessage y = false ∧ isUpdatingFromCustomBody y = false.

Lemma hash_plain ms : plain_messages ms → ∃ h, getMessageHash ms = Ok h.
Proof.
  intros Hms. unfold getMessageHash.
  rewrite (rmapM_ok _ (λ m, VObj [(u "id", get_opt m (u "id")); (u "role", get_opt m (u "role"));
                                  (u "content", get_opt m (u "content"))])); [by eexists|].
  eapply Forall_impl; [exact Hms|]. by intros [] Hm.
Qed.

Lemma body_messages_plain ms :
  plain_messages ms → rmapM body_message ms = Ok (map api_message ms).
Proof. intros Hms. apply rmapM_ok. eapply Forall_impl; [exact Hms|]. by intros [] Hm. Qed.

Lemma parse_body_wf body v : jstr_wf body → parse_body (str body) = Ok v → val_wf v.
Proof.
  intros Hwf. unfold parse_body. destruct body as [|c body].
  - change (v_or (str []) (str (u "{}"))) with (str (u "{}")). cbn [to_str str rbind].
    apply JSON_parse_wf. solve_wf.
  - cbn [to_str str rbind v_or truthy nonempty]. by apply JSON_parse_wf.
Qed.

Lemma obj_get_Some_elem o k v : obj_get o k = Some v → (k, v) ∈ o.
Proof.
  induction o as [|[k1 v1] o IH]; simpl; [done|].
  case_bool_decide; [intros [= <-]; subst; by left|]. right. by apply IH.
Qed.

Lemma api_message_wf m : val_wf m → is_plain m = true → val_wf (api_message m).
Proof.
  intros Hwf Hp. destruct m as [| | | | | |o|]; try done.
  inversion_clear Hwf as [| | | | | |? Hok Hf|].
  assert (Hget : ∀ k, val_wf (get_opt (VObj o) k)).
  { intros k. unfold get_opt. cbn [get]. destruct (obj_get o k) as [v|] eqn:E; simpl.
    - apply obj_get_Some_elem in E. rewrite Forall_forall in Hf. by destruct (Hf _ E).
    - unfold proto_get. repeat case_match; repeat constructor. }
  solve_fields; apply Hget.
Qed.

(** when the conversation changes in custom mode, the body is rewritten:
    it parses to the old body with [messages] replaced by the role and content
    of every message, the other fields kept, and the effect that reads the
    body back leaves the conversation alone. *)
Theorem body_follows_messages mode body o ms inputs y now :
  truthy mode = true → idle y → plain_messages ms → val_wf (VArr ms) → jstr_wf body →
  parse_body (str body) = Ok (VObj o) → getMessageHash ms ≠ Ok (lastMessageHash y) →
  ∃ b y' o',
    syncMessageToCustomBody mode (str body) ms inputs y = Ok (Some b, y') ∧
    JSON_parse b = Ok (VObj o') ∧
    obj_get o' (u "messages") = Some (json_norm (VArr (map api_message ms))) ∧
    (∀ k, k ≠ u "messages" → obj_get o' k =
       match obj_get o k with
       | Some v => if unserializable v then None else Some (json_norm v)
       | None => None
       end) ∧
    syncCustomBodyToMessage mode (str b) now y' = (None, y').
Proof.
  intros Hmode [_ Hf] Hms Hwf Hbwf Hparse Hhash.
  destruct (hash_plain ms Hms) as [h Hh].
  pose proof (parse_body_wf _ _ Hbwf Hparse) as Howf.
  set (p := obj_set o (u "messages") (VArr (map api_message ms))).
  assert (Hpwf : val_wf (VObj p)).
  { inversion_clear Howf as [| | | | | |? Hok Hfo|]. constructor; [by apply obj_ok_set|].
    apply obj_set_Forall; [done|]. split; [solve_wf|]. constructor. apply Forall_map_2.
    inversion_clear Hwf as [| | | | |? Hl| |]. unfold plain_messages in Hms.
    rewrite Forall_forall in *. intros m Hm. by apply api_message_wf; auto. }
  assert (Hok : obj_ok p) by by inversion_clear Hpwf.
  exists (stringify2_text (VObj p)).
  eexists _, (map (λ kv, (kv.1, json_norm kv.2)) (kept p)). split_and!.
  - unfold syncMessageToCustomBody. rewrite Hmode, Hf, Hh. cbn [negb orb rbind].
    rewrite bool_decide_eq_false_2 by congruence. rewrite Hparse. cbn [rcatch].
    rewrite body_messages_plain by done. reflexivity.
  - unfold stringify2_text, stringify2. rewrite ser_obj_parse; [|apply indent2_ws|done].
    by rewrite json_norm_obj.
  - rewrite obj_get_norm by done. unfold p. rewrite obj_get_set, decide_True by done. done.
  - intros k Hk. rewrite obj_get_norm by done. unfold p. rewrite obj_get_set, decide_False by done. done.
  - unfold syncCustomBodyToMessage. cbn [set_hashes isUpdatingFromMessage lastCustomBodyHash].
    rewrite (bool_decide_eq_true_2 (_ = _)) by done. by rewrite orb_true_r.
Qed.

(** ** The conversation read back from a body *)

Lemma message_of_body_fields now i m :
  is_plain m = true →
  ∃ m', message_of_body now i m = Ok m' ∧ is_plain m' = true ∧
    get_opt m' (u "role") = v_or (get_opt m (u "role")) (str USER) ∧
    get_opt m' (u "content") = v_or (get_opt m (u "content")) (str []) ∧
    id_of m' = v_or (id_of m) (str (dec (Z.of_nat i + 1))).
Proof.
  destruct m as [| | | | | |o|]; try done. intros _. eexists. split; [done|].
  split; [done|]. unfold id_of. set (role := get_opt (VObj o) (u "role")).
  change (default (proto_get (u "role")) (obj_get o (u "role"))) with role.
  unfold get_opt at 1 3 5. cbn [get]. by destruct (is_text role ASSISTANT).
Qed.

Lemma messages_of_body_fields now i l :
  plain_messages l →
  ∃ l', messages_of_body now i l = Ok l' ∧ plain_messages l' ∧ length l' = length l ∧
    ∀ j m, l !! j = Some m → ∃ m', l' !! j = Some m' ∧
      get_opt m' (u "role") = v_or (get_opt m (u "role")) (str USER) ∧
      get_opt m' (u "content") = v_or (get_opt m (u "content")) (str []) ∧
      id_of m' = v_or (id_of m) (str (dec (Z.of_nat (i + j) + 1))).
Proof.
  intros Hl. revert i. induction Hl as [|m l Hm _ IH]; intros i.
  { exists []. split; [done|]. split; [constructor|]. done. }
  destruct (message_of_body_fields now i m Hm) as (m' & Hm' & Hp & Hf).
  destruct (IH (S i)) as (l' & Hl' & Hpl & Hlen & Hall).
  exists (m' :: l'). simpl. rewrite Hm'. cbn [rbind]. rewrite Hl'. split; [done|].
  split; [by constructor|]. split; [by rewrite Hlen|]. intros [|j] x Hx; simpl in Hx.
  - simplify_eq. exists m'. split; [done|]. by rewrite Nat.add_0_r.
  - destruct (Hall j x Hx) as (x' & ? & ? & ? & Hid). exists x'. split_and!; try done.
    by replace (i + S j)%nat with (S i + j)%nat by lia.
Qed.

(** when the body is edited in custom mode, the conversation is rewritten:
    one message for each message of the body, with its role, content and id
    or their defaults, and the effect that writes the body leaves it alone. *)
Theorem messages_follow_body mode body o l inputs y now :
  truthy mode = true → idle y → plain_messages l →
  parse_body body = Ok (VObj o) → obj_get o (u "messages") = Some (VArr l) →
  getCustomBodyHash body ≠ lastCustomBodyHash y →
  ∃ ms y',
    syncCustomBodyToMessage mode body now y = (Some ms, y') ∧ length ms = length l ∧
    (∀ j m, l !! j = Some m → ∃ m', ms !! j = Some m' ∧
      get_opt m' (u "role") = v_or (get_opt m (u "role")) (str USER) ∧
      get_opt m' (u "content") = v_or (get_opt m (u "content")) (str []) ∧
      id_of m' = v_or (id_of m) (str (dec (Z.of_nat j + 1)))) ∧
    syncMessageToCustomBody mode body ms inputs y' = Ok (None, y').
Proof.
  intros Hmode [Hfm _] Hl Hparse Hms Hhash.
  destruct (messages_of_body_fields now 0 l Hl) as (ms & Hb & Hp & Hlen & Hall).
  destruct (hash_plain ms Hp) as [h Hh].
  exists ms. eexists. split_and!; [|done|exact Hall|].
  - unfold syncCustomBodyToMessage. rewrite Hmode, Hfm. cbn [negb orb].
    rewrite bool_decide_eq_false_2 by done. rewrite Hparse. cbn [rbind].
    rewrite (get_field _ _ _ Hms). cbn [rbind]. rewrite Hb. cbn [rbind]. rewrite Hh. reflexivity.
  - unfold syncMessageToCustomBody. rewrite Hmode. cbn [negb orb set_hashes isUpdatingFromCustomBody].
    rewrite Hh. cbn [rbind lastMessageHash set_hashes]. by rewrite bool_decide_eq_true_2.
Qed.

(** ** Reopening the page *)

Lemma last_message_map f l : l ≠ [] → last_message (map f l) = f (last_message l).
Proof.
  intros Hne. destruct (last_split l) as [->|Hl]; [done|]. rewrite Hl at 1.
  rewrite map_app. apply last_last.
Qed.

Lemma at_rest_ne l : at_rest l → l ≠ [].
Proof. intros (o & st & Hm & _) ->. done. Qed.

Lemma at_rest_norm l : val_wf (VArr l) → at_rest l → at_rest (map json_norm l).
Proof.
  intros Hwf Hr. pose proof (at_rest_ne l Hr) as Hne. destruct Hr as (o & st & Hm & Hst & Hs).
  inversion_clear Hwf as [| | | | |? Hl| |].
  assert (Ho : val_wf (VObj o)).
  { destruct (last_split l) as [->|Hlast]; [done|]. rewrite Hm in Hlast. rewrite Hlast in Hl.
    apply Forall_app in Hl as [_ Hl]. by inversion_clear Hl. }
  inversion_clear Ho as [| | | | | |? Hok _|].
  exists (map (λ kv, (kv.1, json_norm kv.2)) (kept o)), st.
  split; [by rewrite last_message_map, Hm, json_norm_obj|]. by rewrite obj_get_norm, Hst.
Qed.

Lemma repair_at_rest s : at_rest (message s) → repair s = Ok s.
Proof.
  intros Hr. pose proof (at_rest_ne _ Hr) as Hne. destruct Hr as (o & st & Hm & Hst & Hs).
  unfold repair. destruct (message s) as [|x l] eqn:El; [done|]. rewrite <- El in *.
  rewrite Hm, (get_field _ _ _ Hst). cbn [rbind]. by rewrite settled_not_generating.
Qed.

Lemma initialMessages_other st l :
  loadMessages st = VArr l → length l ≠ 2%nat → initialMessages st = Ok (VArr l, st).
Proof.
  intros Hl Hlen. unfold initialMessages. rewrite Hl. by destruct l as [|a [|b [|c l]]].
Qed.

(** The page that opens after [ms] was saved *)
Definition reopened (n : nat) (ms : list val) (st : storage) : res pg :=
  mount n (saveMessages (VArr ms) st).

(** a settled conversation that was saved comes back when the page is
    opened again, message by message and up to what JSON cannot express, and
    nothing is repaired or saved. *)
Theorem reload_restores n ms st :
  at_rest ms → val_wf (VArr ms) → has_room (messages_text ms) = true → length ms ≠ 2%nat →
  ∃ s, reopened n ms st = Ok s ∧ message s = map json_norm ms ∧ tasks s = [].
Proof.
  intros Hr Hwf Hroom Hlen.
  assert (Hload : loadMessages (saveMessages (VArr ms) st) = VArr (map json_norm ms)).
  { by apply load_saved. }
  unfold reopened, mount. rewrite (initialMessages_other _ _ Hload) by by rewrite length_map.
  cbn [rbind]. rewrite repair_at_rest by by apply at_rest_norm.
  eexists. split; [done|]. done.
Qed.

(** whatever was stored, no reply is left arriving when the page has
    opened. *)
Theorem reopen_settles n st s :
  mount n st = Ok s → generating (get_opt (last_message (message s)) (u "status")) = false.
Proof.
  unfold mount. destruct (initialMessages st) as [[stored st']|]; cbn [rbind]; [|done].
  destruct (match stored with VArr l => _ | VNull => _ | _ => _ end) as [ms|]; cbn [rbind]; [|done].
  unfold repair. cbn [message]. destruct ms as [|x l]; [by intros [= <-]|].
  remember (x :: l) as ms. clear Heqms.
  destruct (get _ (u "status")) as [status|] eqn:Es; cbn [rbind]; [|done].
  destruct (generating status) eqn:Eg.
  - destruct (get _ (u "content")); cbn [rbind]; [|done].
    destruct (get _ (u "reasoningContent")); cbn [rbind]; [|done].
    destruct (processIncompleteThinkTags _ _) as [[c r]|]; cbn [rbind]; [|done].
    intros [= <-]. cbn [message later set_tasks set_message]. rewrite replace_last_last.
    unfold with_fields, get_opt. cbn [get]. by rewrite obj_get_extend.
  - intros [= <-]. cbn [message]. by rewrite (get_opt_ok _ _ _ Es).
Qed.

(** What of a message is shown and sent is the same. *)
Definition same_reply (m m' : val) : Prop :=
  ∀ k, k ∈ [u "role"; u "content"; u "reasoningContent"; u "status"] →
    get_opt m k = get_opt m' k.

(** leaving the page while a reply is arriving settles it as stopping does:
    the repair on reopening and [onStopGenerator] give the last message the
    same content, reasoning and status and leave the others alone. *)
Theorem repair_like_stop s r :
  replying (message s) r → r_phase r = Arriving →
  ∃ s1 s2, repair s = Ok s1 ∧ onStopGenerator s = Ok s2 ∧
    same_before (message s) (message s1) ∧ same_before (message s) (message s2) ∧
    same_reply (last_message (message s1)) (last_message (message s2)).
Proof.
  intros Hr Hp.
  destruct (stop_update_ok_replying _ _ Hr Hp) as (o & l' & c' & r' & p & Hm & Hs & Hpr & Hl & Hf).
  destruct Hr as [Hne (o' & Hm' & Hro & Hc & Hre & st & Hst & Hph)].
  rewrite Hm in Hm'. injection Hm' as <-. destruct (phase_generating _ _ Hph) as [Hg _].
  rewrite Hp in Hg.
  unfold repair, onStopGenerator. cbn [message set_source]. rewrite Hs.
  destruct (message s) as [|x l] eqn:El; [done|]. rewrite <- El in *.
  rewrite Hm, (get_field _ _ _ Hst). cbn [rbind]. rewrite Hg, bool_decide_eq_true_2 by done.
  rewrite (get_field _ _ _ Hc), (get_field _ _ _ Hre). cbn [rbind].
  rewrite !v_or_str, Hpr. cbn [rbind]. eexists _, _. split; [done|]. split; [done|].
  cbn [message later set_tasks set_message]. rewrite Hl.
  split; [apply replace_last_before|]. split; [apply replace_last_before|].
  intros k Hk. rewrite !replace_last_last. unfold with_fields, get_opt. cbn [get spread entries].
  rewrite !obj_get_extend, collapse_get by done.
  rewrite !elem_of_cons in Hk. by destruct Hk as [->|[->|[->|[->|Hk%elem_of_nil]]]].
Qed.
End sync.

(** ** Examples *)

Definition body0 : jstr := uq "{'model':'m','messages':[]}".
Definition body_obj : obj := [(u "model", str (u "m")); (u "messages", VArr [])].
Definition greeting : val := VObj [(u "id", str (u "2")); (u "role", str USER); (u "content", str (u "hi"))].

Lemma greeting_wf : val_wf (VArr [greeting]).
Proof.
  constructor. apply Forall_cons_2; [|apply Forall_nil_2]. solve_fields; constructor; solve_wf.
Qed.

Lemma body_follows_messages_witness :
  parse_body (str body0) = Ok (VObj body_obj) ∧
  ∃ b y' o',
    syncMessageToCustomBody (VBool true) (str body0) [greeting] default_inputs sync0 = Ok (Some b, y') ∧
    JSON_parse b = Ok (VObj o') ∧
    obj_get o' (u "messages") = Some (json_norm (VArr [api_message greeting])) ∧
    (∀ k, k ≠ u "messages" → obj_get o' k =
       match obj_get body_obj k with
       | Some v => if unserializable v then None else Some (json_norm v)
       | None => None
       end) ∧
    syncCustomBodyToMessage (VBool true) (str b) 0 y' = (None, y').
Proof.
  assert (Hp : parse_body (str body0) = Ok (VObj body_obj)) by (vm_compute; reflexivity).
  split; [exact Hp|].
  exact (body_follows_messages (VBool true) body0 body_obj [greeting] default_inputs sync0 0
           eq_refl (conj eq_refl eq_refl) ltac:(by repeat constructor) greeting_wf ltac:(solve_wf)
           Hp ltac:(by vm_compute)).
Defined.

Definition body1 : val := str (uq "{'messages':[{'role':'user','content':'hi'}]}").
Definition body1_messages : list val :=
  [VObj [(u "role", str USER); (u "content", str (u "hi"))]].

Lemma messages_follow_body_witness :
  parse_body body1 = Ok (VObj [(u "messages", VArr body1_messages)]) ∧
  ∃ ms y',
    syncCustomBodyToMessage (VBool true) body1 0 sync0 = (Some ms, y') ∧
    length ms = length body1_messages ∧
    (∀ j m, body1_messages !! j = Some m → ∃ m', ms !! j = Some m' ∧
      get_opt m' (u "role") = v_or (get_opt m (u "role")) (str USER) ∧
      get_opt m' (u "content") = v_or (get_opt m (u "content")) (str []) ∧
      id_of m' = v_or (id_of m) (str (dec (Z.of_nat j + 1)))) ∧
    syncMessageToCustomBody (VBool true) body1 ms default_inputs y' = Ok (None, y').
Proof.
  assert (Hp : parse_body body1 = Ok (VObj [(u "messages", VArr body1_messages)]))
    by (vm_compute; reflexivity).
  split; [exact Hp|].
  exact (messages_follow_body (VBool true) body1 _ body1_messages default_inputs sync0 0
           eq_refl (conj eq_refl eq_refl) ltac:(by repeat constructor) Hp eq_refl ltac:(by vm_compute)).
Defined.

Definition told : val :=
  VObj [(u "id", str (u "2")); (u "role", str ASSISTANT); (u "content", str (u "hi"));
        (u "status", str COMPLETE)].

Lemma told_wf : val_wf (VArr [told]).
Proof.
  constructor. apply Forall_cons_2; [|apply Forall_nil_2]. solve_fields; constructor; solve_wf.
Qed.

Lemma reload_restores_witness :
  ∃ s, @reopened plain_env 4%nat [told] ∅ = Ok s ∧
       message s = [told] ∧ tasks s = [].
Proof.
  exact (@reload_restores plain_env 4%nat [told] ∅
           ltac:(by eexists _, COMPLETE) told_wf eq_refl ltac:(by vm_compute)).
Defined.

Lemma reopen_settles_witness :
  @mount plain_env first_messageId ∅ = Ok opened ∧
  generating (get_opt (last_message (message opened)) (u "status")) = false.
Proof.
  split; [exact opened_ok|]. exact (@reopen_settles plain_env first_messageId ∅ opened opened_ok).
Defined.

Lemma repair_like_stop_witness :
  replying (message thinking_page) think_reply ∧
  ∃ s1 s2, repair thinking_page = Ok s1 ∧ onStopGenerator thinking_page = Ok s2 ∧
    same_before (message thinking_page) (message s1) ∧
    same_before (message thinking_page) (message s2) ∧
    same_reply (last_message (message s1)) (last_message (message s2)).
Proof.
  split; [exact thinking_replying|].
  exact (repair_like_stop thinking_page think_reply thinking_replying eq_refl).
Defined.

(** The counter starts again at 4 when the page is reloaded, while the stored
    messages keep their ids: after a question, a reload and another question
    two messages share each of two ids, and deleting the second reply deletes
    the first one with it. *)
Definition asked_again : pg :=
  page (let! s := @run plain_env [ETask 0 None] asked in
        let! s := @mount plain_env first_messageId (local s) in
        @run plain_env [ESend (u "hi") None] s).

Theorem reload_reuses_ids :
  map id_of (message asked_again) = map (λ k, str (dec k)) [2; 3; 6; 5; 6; 5] ∧
  map id_of (message (page (handleMessageDelete (Some 5%nat)
    (last_message (message asked_again)) asked_again))) = map (λ k, str (dec k)) [2; 3; 6; 6].
Proof. split; vm_compute; reflexivity. Qed.

(** A reply that was read from a custom body takes the ids 1, 2, 3, ...; from
    the fourth message on they are ids the counter gives out again. *)
Theorem body_ids_collide now m :
  is_plain m = true → truthy (id_of m) = false →
  ∃ m', message_of_body now 3 m = Ok m' ∧
        id_of m' = id_of (@createMessage plain_env USER (str []) [] first_messageId).1.
Proof.
  intros Hp Hid. destruct (message_of_body_fields now 3 m Hp) as (m' & Hm' & _ & _ & _ & Hi).
  exists m'. split; [done|]. rewrite Hi. unfold v_or. rewrite Hid. vm_compute. reflexivity.
Qed.

Lemma edit_update_gone id text l :
  rfind_index (same_id id) l = Ok None → edit_update None id text l = Throw TypeError.
Proof. intros Hf. unfold edit_update. cbn [find_message]. by rewrite Hf. Qed.

Lemma find_gone id l :
  Forall (λ m, get m (u "id") ≠ Ok (str id) ∧ is_plain m = true) l →
  rfind_index (same_id (str id)) l = Ok None.
Proof.
  induction 1 as [|m l [Hm Hp] _ IH]; [done|]. cbn [rfind_index].
  destruct m as [| | | | | |o|]; try done. unfold same_id at 1. cbn [get rmap rbind] in *.
  destruct (strict_eq _ _) eqn:E; [|by rewrite IH]. exfalso. apply Hm. f_equal.
  destruct (default _ _); unfold strict_eq, str in *; try done.
  apply bool_decide_eq_true in E as ->. done.
Qed.

(** Saving an edit of a message that is gone throws. *)
Theorem edit_of_gone_message_throws s id text :
  editingMessageId (edit s) = str id → id ≠ [] → editValue (edit s) = str text → trim text ≠ [] →
  Forall (λ m, get m (u "id") ≠ Ok (str id) ∧ is_plain m = true) (message s) →
  handleEditSave None s = Throw TypeError.
Proof.
  intros Hid Hne Htext Htr Hms. unfold handleEditSave. rewrite Hid, Htext.
  replace (truthy (str id)) with true by by destruct id. cbn [negb v_trim str rbind].
  replace (nonempty (trim text)) with true by by destruct (trim text). cbn [negb].
  by rewrite edit_update_gone by by apply find_gone.
Qed.
