(* ===== verification/Passkey.v ===== *)
(** * Binary data in texts (helpers/base64.js, helpers/passkey.js)

    [encodeToBase64] for texts, the conversions between [ArrayBuffer]s and
    unpadded base64url texts, and the two directions of a passkey ceremony: the
    options of the server are prepared for the browser, the credential of the
    browser is written for the server.  A buffer is the list of its bytes. *)

From S2P Require Import Prelude JsString JsNumber JsValue Json Encoding.

Local Open Scope Z_scope.

(** ** helpers/base64.js *)

(** [s.replace(/%([0-9A-F]{2})/g, (_, hex) => String.fromCharCode(parseInt(hex, 16)))] *)
Definition upper_hex_val (c : Z) : option Z :=
  if is_digit c then Some (c - 48) else if (65 <=? c) && (c <=? 70) then Some (c - 55) else None.
Fixpoint replace_percents (s : jstr) : jstr :=
  match s with
  | [] => []
  | c :: r =>
    match r with
    | a :: r1 =>
      match r1 with
      | b :: r2 =>
        match upper_hex_val a, upper_hex_val b with
        | Some x, Some y =>
          if c =? 37 then 16 * x + y :: replace_percents r2 else c :: replace_percents r
        | _, _ => c :: replace_percents r
        end
      | [] => c :: replace_percents r
      end
    | [] => [c]
    end
  end.

(** [toBinaryString(text)]; [textEncoder]: whether the platform has
    [TextEncoder]. *)
Definition toBinaryString (textEncoder : bool) (text : jstr) : res jstr :=
  if textEncoder then Ok (utf8_encode text) else rmap replace_percents (encodeURIComponent text).

(** Where the code runs: a browser, or outside of one with [Buffer], with
    [globalThis.btoa], or with neither *)
Inductive platform := Window | WithBuffer | WithBtoa | Bare.
#[export] Instance platform_eq_dec : EqDecision platform.
Proof. solve_decision. Defined.

Definition encodeToBase64 (pf : platform) (textEncoder : bool) (value : val) : res jstr :=
  let! input := if is_nullish value then Ok [] else to_str value in
  match pf with
  | WithBuffer => btoa (utf8_encode input)
  | Window | WithBtoa => let! binary := toBinaryString textEncoder input in btoa binary
  | Bare => Throw (UserError (u "Base64 encoding is unavailable in the current environment"))
  end.

(** ** Buffers as base64url *)

(** The units that complete [base64url] to groups of four.  Of the values that
    are not empty, numbers and [true] have no [length], and the text of an
    object is refused by [atob] with any padding. *)
Definition missing (base64url : val) : jstr :=
  match base64url with
  | VStr s => padding (length s)
  | VArr l => padding (length l)
  | _ => []
  end.

Definition base64UrlToBuffer (base64url : val) : res (list Z) :=
  if negb (truthy base64url) then Ok [] else
  let! padded := js_add base64url (VStr (missing base64url)) in
  let! s := to_str padded in
  atob (replace_unit 95 47 (replace_unit 45 43 s)).

(** [s.replace(/=+$/g, '')] *)
Fixpoint drop_equals (s : jstr) : jstr :=
  match s with c :: r => if c =? 61 then drop_equals r else s | [] => [] end.
Definition strip_equals (s : jstr) : jstr := rev (drop_equals (rev s)).

(** [None] is a buffer that is missing. *)
Definition bufferToBase64Url (buffer : option (list Z)) : res jstr :=
  match buffer with
  | None => Ok []
  | Some bytes =>
    let! t := btoa bytes in
    Ok (strip_equals (replace_unit 47 95 (replace_unit 43 45 t)))
  end.

(** ** Options of the server for the browser *)

(** Objects some of whose fields hold buffers *)
Inductive bval :=
| BVal (v : val)
| BBuf (bytes : list Z)
| BObj (fields : list (jstr * bval))
| BArr (l : list bval).
Abbreviation bobj := (list (jstr * bval)).

(** [{...v}] *)
Definition bspread (v : val) : bobj := map (λ kv, (kv.1, BVal kv.2)) (entries v).
Fixpoint bset (o : bobj) (k : jstr) (v : bval) : bobj :=
  match o with
  | [] => [(k, v)]
  | (k', v') :: o => if k =s k' then (k, v) :: o else (k', v') :: bset o k v
  end.
Definition bdel (o : bobj) (k : jstr) : bobj := List.filter (λ kv, negb (k =s kv.1)) o.
Fixpoint bget (o : bobj) (k : jstr) : option bval :=
  match o with [] => None | (k', v) :: o => if k =s k' then Some v else bget o k end.

Definition options_of (payload : val) : val :=
  v_or (get_opt payload (u "publicKey"))
    (v_or (get_opt payload (u "PublicKey"))
       (v_or (get_opt payload (u "response")) (get_opt payload (u "Response")))).

(** [{...item, id: base64UrlToBuffer(item.id)}] *)
Definition descriptor (item : val) : res bval :=
  let! id := get item (u "id") in
  let! buffer := base64UrlToBuffer id in
  Ok (BObj (bset (bspread item) (u "id") (BBuf buffer))).

(** Credentials, when [options] lists some under [key] *)
Definition with_credentials (options : val) (key : jstr) (publicKey : bobj) : res bobj :=
  let! listed := get options key in
  match listed with
  | VArr l => let! items := rmapM descriptor l in Ok (bset publicKey key (BArr items))
  | _ => Ok publicKey
  end.

Definition prepareCredentialCreationOptions (payload : val) : res bobj :=
  let options := options_of payload in
  if negb (truthy options) then Throw (UserError (u "无法从服务端响应中解析 Passkey 注册参数")) else
  let! challenge := get options (u "challenge") in
  let! challenge := base64UrlToBuffer challenge in
  let! user := get options (u "user") in
  let! id := base64UrlToBuffer (get_opt user (u "id")) in
  let publicKey :=
    bset (bset (bspread options) (u "challenge") (BBuf challenge))
      (u "user") (BObj (bset (bspread user) (u "id") (BBuf id))) in
  let! publicKey := with_credentials options (u "excludeCredentials") publicKey in
  let! formats := get options (u "attestationFormats") in
  Ok (match formats with
      | VArr [] => bdel publicKey (u "attestationFormats")
      | _ => publicKey
      end).

Definition prepareCredentialRequestOptions (payload : val) : res bobj :=
  let options := options_of payload in
  if negb (truthy options) then Throw (UserError (u "无法从服务端响应中解析 Passkey 登录参数")) else
  let! challenge := get options (u "challenge") in
  let! challenge := base64UrlToBuffer challenge in
  with_credentials options (u "allowCredentials")
    (bset (bspread options) (u "challenge") (BBuf challenge)).

(** ** Credentials of the browser for the server *)

(** What the browser returns; a buffer it does not set is [None].  [transports]
    is the result of [getTransports], if there is one, [extensions] that of
    [getClientExtensionResults], [VUndef] without it. *)
Record registration := {
  g_id : val;
  g_rawId : option (list Z);
  g_type : val;
  g_authenticatorAttachment : val;
  g_attestationObject : option (list Z);
  g_clientDataJSON : option (list Z);
  g_transports : option val;
  g_extensions : val;
}.

Definition buildRegistrationResult (credential : option registration) : res val :=
  match credential with
  | None => Ok VNull
  | Some c =>
    let! rawId := bufferToBase64Url (g_rawId c) in
    let! attestationObject := bufferToBase64Url (g_attestationObject c) in
    let! clientDataJSON := bufferToBase64Url (g_clientDataJSON c) in
    Ok (VObj [(u "id", g_id c); (u "rawId", VStr rawId); (u "type", g_type c);
              (u "authenticatorAttachment", g_authenticatorAttachment c);
              (u "response", VObj [(u "attestationObject", VStr attestationObject);
                                   (u "clientDataJSON", VStr clientDataJSON);
                                   (u "transports", default VUndef (g_transports c))]);
              (u "clientExtensionResults", v_coalesce (g_extensions c) (VObj []))])
  end.

Record assertion := {
  a_id : val;
  a_rawId : option (list Z);
  a_type : val;
  a_authenticatorAttachment : val;
  a_authenticatorData : option (list Z);
  a_clientDataJSON : option (list Z);
  a_signature : option (list Z);
  a_userHandle : option (list Z);
  a_extensions : val;
}.

Definition buildAssertionResult (credential : option assertion) : res val :=
  match credential with
  | None => Ok VNull
  | Some a =>
    let! rawId := bufferToBase64Url (a_rawId a) in
    let! authenticatorData := bufferToBase64Url (a_authenticatorData a) in
    let! clientDataJSON := bufferToBase64Url (a_clientDataJSON a) in
    let! signature := bufferToBase64Url (a_signature a) in
    let! userHandle := match a_userHandle a with
                       | Some h => rmap VStr (bufferToBase64Url (Some h))
                       | None => Ok VNull
                       end in
    Ok (VObj [(u "id", a_id a); (u "rawId", VStr rawId); (u "type", a_type a);
              (u "authenticatorAttachment", a_authenticatorAttachment a);
              (u "response", VObj [(u "authenticatorData", VStr authenticatorData);
                                   (u "clientDataJSON", VStr clientDataJSON);
                                   (u "signature", VStr signature);
                                   (u "userHandle", userHandle)]);
              (u "clientExtensionResults", v_coalesce (a_extensions a) (VObj []))])
  end.

(** [isPasskeySupported]: whether the browser has [PublicKeyCredential], and what
    its two tests answer, [None] where it lacks them *)
Definition isPasskeySupported (has : bool) (conditional platform : option (res val)) : val :=
  if negb has then VBool false
  else if match conditional with Some (Ok available) => truthy available | _ => false end
  then VBool true
  else match platform with
       | Some (Ok answer) => answer
       | Some (Throw _) => VBool false
       | None => VBool true
       end.

Example base64url_1 : bufferToBase64Url (Some [255; 239; 190; 251]) = Ok (u "_----w").
Proof. vm_compute. reflexivity. Qed.

(** ** Bytes survive *)

Definition to_url (s : jstr) : jstr := replace_unit 47 95 (replace_unit 43 45 s).
Definition of_url (s : jstr) : jstr := replace_unit 95 47 (replace_unit 45 43 s).

(** Letters, digits, hyphen and low line *)
Definition is_url_unit (c : Z) : bool :=
  is_digit c || ((65 <=? c) && (c <=? 90)) || ((97 <=? c) && (c <=? 122)) || (c =? 45) || (c =? 95).

Lemma alphabet_cases c :
  in_alphabet c = true →
  is_digit c || ((65 <=? c) && (c <=? 90)) || ((97 <=? c) && (c <=? 122)) || (c =? 43) || (c =? 47) = true.
Proof.
  unfold in_alphabet, unit_sextet. intros Hc%bool_decide_eq_true.
  repeat (case_match; [by rewrite ?orb_true_r|]). by destruct Hc.
Qed.

Lemma url_unit c :
  in_alphabet c = true →
  let d := if (if c =? 43 then 45 else c) =? 47 then 95 else if c =? 43 then 45 else c in
  is_url_unit d = true ∧ (if (if d =? 45 then 43 else d) =? 95 then 47 else if d =? 45 then 43 else d) = c.
Proof.
  intros Hc%alphabet_cases. cbn zeta.
  destruct (decide (c = 43)) as [E|H1]; [by subst|].
  destruct (decide (c = 47)) as [E|H2]; [by subst|]. rewrite (proj2 (Z.eqb_neq c 43)), (proj2 (Z.eqb_neq c 47)) by done.
  unfold is_digit in Hc.
  assert (c ≠ 45 ∧ c ≠ 95) as [H3 H4] by lia. split.
  - unfold is_url_unit, is_digit. apply orb_true_intro. left. apply orb_true_intro. left. lia.
  - by rewrite (proj2 (Z.eqb_neq c 45)), (proj2 (Z.eqb_neq c 95)) by done.
Qed.

Lemma to_url_units s : Forall (λ c, in_alphabet c = true) s → forallb is_url_unit (to_url s) = true.
Proof.
  unfold to_url, replace_unit. rewrite map_map.
  induction 1 as [|c s Hc _ IH]; [done|]. simpl. by rewrite (proj1 (url_unit c Hc)), IH.
Qed.

Lemma of_to_url s : Forall (λ c, in_alphabet c = true) s → of_url (to_url s) = s.
Proof.
  unfold of_url, to_url, replace_unit. rewrite !map_map.
  induction 1 as [|c s Hc _ IH]; [done|]. simpl. by rewrite (proj2 (url_unit c Hc)), IH.
Qed.

Lemma of_url_app s s' : of_url (s ++ s') = of_url s ++ of_url s'.
Proof. unfold of_url, replace_unit. by rewrite !map_app. Qed.
Lemma to_url_app s s' : to_url (s ++ s') = to_url s ++ to_url s'.
Proof. unfold to_url, replace_unit. by rewrite !map_app. Qed.
Lemma of_url_padding n : of_url (padding n) = padding n.
Proof. unfold of_url, replace_unit, padding. induction (pad n) as [|k IH]; [done|]. simpl. by rewrite IH. Qed.

Lemma drop_equals_replicate n s : drop_equals (replicate n 61 ++ s) = drop_equals s.
Proof. induction n as [|n IH]; [done|]. simpl. apply IH. Qed.
Lemma replicate_rev {A} n (x : A) : rev (replicate n x) = replicate n x.
Proof.
  induction n as [|n IH]; [done|]. simpl. rewrite IH. by rewrite <- replicate_cons_app.
Qed.

Lemma strip_equals_padding s n : forallb is_url_unit s = true → strip_equals (s ++ replicate n 61) = s.
Proof.
  intros Hs. unfold strip_equals. rewrite rev_app_distr, replicate_rev, drop_equals_replicate.
  rewrite <- (rev_involutive s) at 2. f_equal.
  assert (Hr : forallb is_url_unit (rev s) = true).
  { apply forallb_forall. intros c Hc%in_rev. by apply (proj1 (forallb_forall _ _) Hs). }
  destruct (rev s) as [|c r]; [done|]. simpl in *. apply andb_true_iff in Hr as [Hc _].
  destruct (Z.eqb_spec c 61) as [->|_]; [|done]. discriminate.
Qed.

(** The text of a buffer *)
Definition url_text (bytes : list Z) : jstr := to_url (map sextet_unit (sextets bytes)).

Lemma sextet_units_alphabet l :
  bytes_ok l → Forall (λ c, in_alphabet c = true) (map sextet_unit (sextets l)).
Proof.
  intros Hl%sextets_range. apply Forall_map_2. eapply list.Forall_impl; [exact Hl|].
  apply alphabet_unit.
Qed.

Lemma bufferToBase64Url_text l : bytes_ok l → bufferToBase64Url (Some l) = Ok (url_text l).
Proof.
  intros Hl. unfold bufferToBase64Url. rewrite btoa_bytes by done. cbn [rbind]. f_equal.
  fold (to_url (map sextet_unit (sextets l) ++ padding (length (sextets l)))). rewrite to_url_app.
  assert (to_url (padding (length (sextets l))) = padding (length (sextets l))) as ->.
  { unfold to_url, replace_unit, padding. induction (pad _) as [|k IH]; [done|]. simpl. by rewrite IH. }
  apply strip_equals_padding. by apply to_url_units, sextet_units_alphabet.
Qed.

Lemma url_text_length l : length (url_text l) = length (sextets l).
Proof. unfold url_text, to_url, replace_unit. by rewrite !length_map. Qed.

Lemma base64UrlToBuffer_text l : bytes_ok l → base64UrlToBuffer (VStr (url_text l)) = Ok l.
Proof.
  intros Hl. unfold base64UrlToBuffer. destruct (truthy (VStr (url_text l))) eqn:E; cbn [negb].
  - cbn [missing js_add to_primitive is_str orb to_str rbind]. rewrite url_text_length.
    fold (of_url (url_text l ++ padding (length (sextets l)))). rewrite of_url_app, of_url_padding.
    unfold url_text. rewrite of_to_url by by apply sextet_units_alphabet.
    rewrite atob_padded by auto using sextets_range, sextets_length_mod.
    by rewrite octets_sextets.
  - destruct l as [|a [|b [|c r]]]; [done|..]; discriminate.
Qed.

(** ** Texts survive, on every platform *)

Lemma upper_hex_val_digit n : 0 ≤ n < 16 → upper_hex_val (upper_hex n) = Some n.
Proof.
  intros Hn. unfold upper_hex, upper_hex_val, is_digit.
  repeat (case_match; boolify; try lia); f_equal; lia.
Qed.

Lemma replace_percents_byte b r :
  is_byte b → replace_percents (percent b ++ r) = b :: replace_percents r.
Proof.
  intros Hb. unfold is_byte in Hb. unfold percent. cbn [app replace_percents].
  rewrite !upper_hex_val_digit by divmod. cbn [Z.eqb Pos.eqb]. apply (f_equal2 cons); [divmod|done].
Qed.

Lemma replace_percents_bytes l r :
  bytes_ok l → replace_percents (flat_map percent l ++ r) = l ++ replace_percents r.
Proof.
  induction 1 as [|b l Hb _ IH]; [done|]. cbn [flat_map app]. rewrite <- app_assoc.
  by rewrite replace_percents_byte, IH.
Qed.

Lemma replace_percents_other c r : c ≠ 37 → replace_percents (c :: r) = c :: replace_percents r.
Proof.
  intros Hc%Z.eqb_neq. cbn [replace_percents]. destruct r as [|a [|b r]]; [done..|].
  rewrite Hc. by destruct (upper_hex_val a), (upper_hex_val b).
Qed.

Lemma unreserved_plain c :
  unreserved c = true → 0 ≤ c < 128 ∧ c ≠ 37.
Proof.
  unfold unreserved, is_digit. rewrite !orb_true_iff. intros [[[H|H]|H]|H]; [lia..|].
  apply existsb_exists in H as (d & Hd & ->%Z.eqb_eq). vm_compute in Hd.
  repeat destruct Hd as [<-|Hd]; [lia..|done].
Qed.

Lemma encodeURIComponent_spec s :
  jstr_wf s →
  rmap replace_percents (encodeURIComponent s) =
    if well_paired s then Ok (utf8_encode s) else Throw URIError.
Proof.
  unfold utf8_encode.
  induction s as [|c d r Hl Hh Hd IH|c r Hl Hh IH|c r Hn IH] using points_ind; intros Hs.
  - done.
  - rewrite code_points_pair by done. apply jstr_wf_cons in Hs as [_ [_ Hs]%jstr_wf_cons].
    cbn [encodeURIComponent well_paired flat_map]. rewrite Hl, Hh, Hd. cbn [andb].
    destruct (unreserved c) eqn:Eu.
    { apply unreserved_plain in Eu. apply is_high_spec in Hh. lia. }
    specialize (IH Hs). destruct (encodeURIComponent r) as [e|e]; cbn [rmap] in *.
    + pose proof (pair_point_range c d Hh Hd).
      rewrite replace_percents_bytes by (apply utf8_bytes; unfold is_point; lia).
      destruct (well_paired r); [|done]. by injection IH as ->.
    + by destruct (well_paired r).
  - rewrite code_points_plain by done. apply jstr_wf_cons in Hs as [Hc Hs].
    cbn [encodeURIComponent well_paired flat_map]. rewrite Hl, Hh.
    specialize (IH Hs). destruct (unreserved c) eqn:Eu.
    + apply unreserved_plain in Eu as [Hu Hne].
      assert (utf8 c = [c]) as -> by (unfold utf8; by rewrite (proj2 (Z.ltb_lt c 128)) by lia).
      destruct (encodeURIComponent r) as [e|e]; cbn [rmap] in *; [|by destruct (well_paired r)].
      rewrite replace_percents_other by done. destruct (well_paired r); [|done].
      by injection IH as ->.
    + destruct (encodeURIComponent r) as [e|e]; cbn [rmap] in *; [|by destruct (well_paired r)].
      rewrite replace_percents_bytes by (apply utf8_bytes; unfold is_point, is_unit in *; lia).
      destruct (well_paired r); [|done]. by injection IH as ->.
  - rewrite lone_paired by done. cbn [encodeURIComponent].
    assert (unreserved c = false) as ->.
    { destruct (unreserved c) eqn:Eu; [|done]. apply unreserved_plain in Eu.
      destruct Hn as [Hl%is_low_spec|(_ & Hh%is_high_spec & _)]; lia. }
    destruct Hn as [Hl|(Hl & Hh & Hd)]; rewrite Hl; [done|]. rewrite Hh.
    destruct r as [|d r]; [done|]. by rewrite Hd.
Qed.

(** The fallback of [toBinaryString], through [encodeURIComponent], gives the
    bytes that [TextEncoder] gives, and throws for a text with an unpaired
    surrogate. *)
Lemma toBinaryString_spec te s :
  jstr_wf s →
  toBinaryString te s = if te || well_paired s then Ok (utf8_encode s) else Throw URIError.
Proof.
  intros Hs. unfold toBinaryString. destruct te; [done|]. by apply encodeURIComponent_spec.
Qed.

(** ** The theorems *)

(** a buffer is read back unchanged from its base64url text. *)
Theorem base64url_roundtrip bytes :
  bytes_ok bytes →
  ∃ t, bufferToBase64Url (Some bytes) = Ok t ∧ base64UrlToBuffer (VStr t) = Ok bytes.
Proof.
  intros Hb. exists (url_text bytes).
  split; [by apply bufferToBase64Url_text|by apply base64UrlToBuffer_text].
Qed.

(** C37: the text of a buffer has letters, digits, hyphens and low lines only, four
    units for three bytes; and whatever value the server sends where a text is
    expected, decoding it gives bytes or throws. *)
Theorem base64url_types bytes t v l :
  bytes_ok bytes → bufferToBase64Url (Some bytes) = Ok t → base64UrlToBuffer v = Ok l →
  forallb is_url_unit t = true ∧ length t = ((4 * length bytes + 2) / 3)%nat ∧ bytes_ok l.
Proof.
  intros Hb Ht Hl. rewrite bufferToBase64Url_text in Ht by done. injection Ht as <-.
  split; [by apply to_url_units, sextet_units_alphabet|].
  split; [by rewrite url_text_length, sextets_length|].
  unfold base64UrlToBuffer in Hl. destruct (truthy v); cbn [negb] in Hl.
  - destruct (js_add _ _) as [p|]; cbn [rbind] in Hl; [|done].
    destruct (to_str p) as [s|]; cbn [rbind] in Hl; [|done]. by apply atob_bytes in Hl as [Hl _].
  - injection Hl as <-. apply Forall_nil_2.
Qed.

(** on all platforms that can encode, the base64 text of a text is the same:
    that of its UTF-8 bytes, from which the text can be read back if its
    surrogates are paired; with an unpaired surrogate a platform without
    [TextEncoder] and [Buffer] throws a [URIError]. *)
Theorem base64_on_all_platforms pf te s :
  pf ≠ Bare → jstr_wf s →
  if te || bool_decide (pf = WithBuffer) || well_paired s
  then ∃ t, encodeToBase64 pf te (VStr s) = Ok t ∧
            encodeToBase64 Window true (VStr s) = Ok t ∧ atob t = Ok (utf8_encode s) ∧
            (well_paired s = true → utf16_of_utf8 (utf8_encode s) = s)
  else encodeToBase64 pf te (VStr s) = Throw URIError.
Proof.
  intros Hpf Hs. pose proof (utf8_encode_bytes s Hs) as Hb.
  unfold encodeToBase64. cbn [is_nullish is_undef is_null orb to_str rbind].
  rewrite !toBinaryString_spec by done. cbn [orb rbind].
  pose proof (btoa_bytes _ Hb) as Ht.
  pose proof (atob_btoa _ _ Hb Ht) as Ha.
  pose proof (utf16_of_utf8_encode s Hs) as Hu.
  assert (Hok : ∃ t, btoa (utf8_encode s) = Ok t ∧ btoa (utf8_encode s) = Ok t ∧
                     atob t = Ok (utf8_encode s) ∧
                     (well_paired s = true → utf16_of_utf8 (utf8_encode s) = s)) by eauto 10.
  destruct pf; [|by rewrite orb_true_r| |done].
  all: rewrite bool_decide_eq_false_2, orb_false_r by done.
  all: by destruct (te || well_paired s).
Qed.

(** ** A ceremony *)

Lemma bget_bset o k v k' : bget (bset o k v) k' = if k' =s k then Some v else bget o k'.
Proof.
  induction o as [|[k1 v1] o IH]; simpl; [by case_match|].
  destruct (k =s k1) eqn:E; boolify; subst; simpl.
  - by destruct (k' =s k1).
  - rewrite IH. destruct (k' =s k1) eqn:E1; [|done]. boolify. subst.
    by rewrite bool_decide_eq_false_2.
Qed.

Lemma bget_spread o k : bget (bspread (VObj o)) k = BVal <$> obj_get o k.
Proof.
  unfold bspread. cbn [entries]. induction o as [|[k1 v1] o IH]; [done|]. simpl.
  rewrite IH. by repeat case_match; boolify; subst.
Qed.

Definition buffer_ok (b : option (list Z)) : Prop := bytes_ok (default [] b).

Lemma encoded_buffer b : buffer_ok b → bufferToBase64Url b = Ok (url_text (default [] b)).
Proof. destruct b as [l|]; intros Hb; [by apply bufferToBase64Url_text|done]. Qed.

(** A field of a result, and the text of an optional buffer in it *)
Definition field (result : val) (path : list jstr) : val := fold_left get_opt path result.
Definition buffer_text (b : option (list Z)) : val := VStr (url_text (default [] b)).

(** *** Credentials

    The server lists credentials, each an object whose id is the text of its
    bytes; the browser receives as many, in the same order, each with the bytes
    as its id and all other fields unchanged. *)

Definition lists (v : option val) (creds : list (obj * list Z)) : Prop :=
  v = Some (VArr (map (λ d, VObj d.1) creds)) ∧
  Forall (λ d, bytes_ok d.2 ∧ obj_get d.1 (u "id") = Some (VStr (url_text d.2))) creds.

Definition with_bytes (o : obj) (k : jstr) (bytes : list Z) (v : bval) : Prop :=
  ∃ f, v = BObj f ∧ bget f k = Some (BBuf bytes) ∧ ∀ k', k' ≠ k → bget f k' = BVal <$> obj_get o k'.

Definition receives (v : option bval) (creds : list (obj * list Z)) : Prop :=
  ∃ items, v = Some (BArr items) ∧ Forall2 (λ d, with_bytes d.1 (u "id") d.2) creds items.

Lemma with_bytes_set o k bytes : with_bytes o k bytes (BObj (bset (bspread (VObj o)) k (BBuf bytes))).
Proof.
  eexists. split; [done|]. split; [by rewrite bget_bset, bool_decide_eq_true_2|].
  intros k' Hk. by rewrite bget_bset, bool_decide_eq_false_2, bget_spread.
Qed.

Lemma descriptors creds :
  Forall (λ d, bytes_ok d.2 ∧ obj_get d.1 (u "id") = Some (VStr (url_text d.2))) creds →
  ∃ items, rmapM descriptor (map (λ d, VObj d.1) creds) = Ok items ∧
    Forall2 (λ d, with_bytes d.1 (u "id") d.2) creds items.
Proof.
  induction 1 as [|[d bytes] creds [Hb Hid] _ (items & IH & HI)]; [by exists []|]. cbn [fst snd] in *.
  assert (Hd : descriptor (VObj d) = Ok (BObj (bset (bspread (VObj d)) (u "id") (BBuf bytes)))).
  { unfold descriptor. cbn [get]. rewrite Hid. cbn [default from_option Datatypes.id rbind].
    by rewrite base64UrlToBuffer_text. }
  eexists. cbn [map rmapM fst]. rewrite Hd. cbn [rbind]. rewrite IH. cbn [rbind]. split; [done|].
  constructor; [apply with_bytes_set|done].
Qed.

(** With a list of credentials, or with none. *)
Definition maybe_lists (v : option val) (creds : option (list (obj * list Z))) : Prop :=
  match creds with Some l => lists v l | None => v = None ∨ v = Some VNull end.
Definition maybe_receives (v : option bval) (given : option val) (creds : option (list (obj * list Z))) : Prop :=
  match creds with Some l => receives v l | None => v = BVal <$> given end.

Lemma credentials_received o key creds pk :
  maybe_lists (obj_get o key) creds → proto_get key = VUndef → bget pk key = BVal <$> obj_get o key →
  ∃ pk', with_credentials (VObj o) key pk = Ok pk' ∧
    maybe_receives (bget pk' key) (obj_get o key) creds ∧ ∀ k, k ≠ key → bget pk' k = bget pk k.
Proof.
  intros Hl Hproto Hk. unfold with_credentials. cbn [get rbind]. destruct creds as [creds|]; cbn [maybe_lists] in Hl.
  - destruct Hl as [-> HF]. destruct (descriptors _ HF) as (items & Hi & HI).
    cbn [default from_option Datatypes.id]. rewrite Hi. cbn [rbind]. eexists. split; [done|].
    split; [|intros k Hne; by rewrite bget_bset, bool_decide_eq_false_2].
    exists items. by rewrite bget_bset, bool_decide_eq_true_2.
  - exists pk. split; [|by rewrite Hk]. rewrite Hproto. by destruct Hl as [->| ->].
Qed.

(** The names the server may use for the options *)
Lemma options_named name o :
  name ∈ [u "publicKey"; u "PublicKey"; u "response"; u "Response"] →
  options_of (VObj [(name, VObj o)]) = VObj o.
Proof.
  intros Hname. repeat apply elem_of_cons in Hname as [->|Hname]; [reflexivity..|]. by apply elem_of_nil in Hname.
Qed.

Lemma get_text o k bytes :
  obj_get o k = Some (VStr (url_text bytes)) → get (VObj o) k = Ok (VStr (url_text bytes)).
Proof. unfold get. by intros ->. Qed.

(** C23: in a login ceremony no byte is lost in either direction.  The challenge
    and the ids of the allowed credentials that the server writes, under any of
    the names it may use for the options, with or without a list of
    credentials, reach the browser as their bytes, the credentials in their
    order and with their other fields, next to all other options; and the
    result that is sent back has, in the field of each buffer the authenticator
    produced, the base64url text of its bytes. *)
Theorem ceremony_keeps_bytes name o challenge creds a :
  name ∈ [u "publicKey"; u "PublicKey"; u "response"; u "Response"] →
  bytes_ok challenge → obj_get o (u "challenge") = Some (VStr (url_text challenge)) →
  maybe_lists (obj_get o (u "allowCredentials")) creds →
  buffer_ok (a_rawId a) → buffer_ok (a_authenticatorData a) → buffer_ok (a_clientDataJSON a) →
  buffer_ok (a_signature a) → buffer_ok (a_userHandle a) →
  ∃ pk result,
    prepareCredentialRequestOptions (VObj [(name, VObj o)]) = Ok pk ∧
    bget pk (u "challenge") = Some (BBuf challenge) ∧
    maybe_receives (bget pk (u "allowCredentials")) (obj_get o (u "allowCredentials")) creds ∧
    (∀ k, k ∉ [u "challenge"; u "allowCredentials"] → bget pk k = BVal <$> obj_get o k) ∧
    buildAssertionResult (Some a) = Ok result ∧
    field result [u "rawId"] = buffer_text (a_rawId a) ∧
    field result [u "response"; u "authenticatorData"] = buffer_text (a_authenticatorData a) ∧
    field result [u "response"; u "clientDataJSON"] = buffer_text (a_clientDataJSON a) ∧
    field result [u "response"; u "signature"] = buffer_text (a_signature a) ∧
    field result [u "response"; u "userHandle"] =
      match a_userHandle a with Some h => VStr (url_text h) | None => VNull end.
Proof.
  intros Hname Hc Hch Hcr H1 H2 H3 H4 H5.
  apply encoded_buffer in H1, H2, H3, H4.
  assert (E5 : match a_userHandle a with
               | Some h => rmap VStr (bufferToBase64Url (Some h))
               | None => Ok VNull
               end = Ok (match a_userHandle a with Some h => VStr (url_text h) | None => VNull end)).
  { destruct (a_userHandle a) as [h|]; [|done]. by rewrite bufferToBase64Url_text. }
  destruct (credentials_received o (u "allowCredentials") creds
              (bset (bspread (VObj o)) (u "challenge") (BBuf challenge)) Hcr)
    as (pk & Hpk & Hr & Ho); [reflexivity| |].
  { by rewrite bget_bset, bool_decide_eq_false_2, bget_spread. }
  exists pk. eexists. split.
  { unfold prepareCredentialRequestOptions. rewrite options_named by done. cbn [truthy negb].
    rewrite (get_text _ _ _ Hch). cbn [rbind]. rewrite base64UrlToBuffer_text by done. exact Hpk. }
  split; [rewrite Ho by done; by rewrite bget_bset, bool_decide_eq_true_2|]. split; [exact Hr|].
  split.
  { intros k [Hk1 [Hk2 _]%not_elem_of_cons]%not_elem_of_cons. rewrite Ho by done.
    by rewrite bget_bset, bool_decide_eq_false_2, bget_spread. }
  unfold buildAssertionResult. rewrite H1, H2, H3, H4. cbn [rbind]. rewrite E5. cbn [rbind].
  split; [reflexivity|]. by repeat split.
Qed.

Lemma bget_bdel o k k' : k' ≠ k → bget (bdel o k) k' = bget o k'.
Proof.
  intros Hne. unfold bdel. induction o as [|[k1 v1] o IH]; simpl; [done|].
  destruct (k =s k1) eqn:E; simpl; rewrite IH; [|done]. boolify. subst. by rewrite bool_decide_eq_false_2.
Qed.

(** C31: in a registration no byte is lost in either direction.  The challenge,
    the id of the user and the ids of the credentials to exclude reach the
    browser as their bytes, with the other fields of the user and of the
    credentials and with all other options, an empty list of attestation
    formats apart; and the result that is sent back has the base64url texts of
    the bytes the authenticator produced. *)
Theorem registration_keeps_bytes name o w challenge uid creds c :
  name ∈ [u "publicKey"; u "PublicKey"; u "response"; u "Response"] →
  bytes_ok challenge → obj_get o (u "challenge") = Some (VStr (url_text challenge)) →
  bytes_ok uid → obj_get o (u "user") = Some (VObj w) → obj_get w (u "id") = Some (VStr (url_text uid)) →
  maybe_lists (obj_get o (u "excludeCredentials")) creds →
  buffer_ok (g_rawId c) → buffer_ok (g_attestationObject c) → buffer_ok (g_clientDataJSON c) →
  ∃ pk user result,
    prepareCredentialCreationOptions (VObj [(name, VObj o)]) = Ok pk ∧
    bget pk (u "challenge") = Some (BBuf challenge) ∧
    bget pk (u "user") = Some user ∧ with_bytes w (u "id") uid user ∧
    maybe_receives (bget pk (u "excludeCredentials")) (obj_get o (u "excludeCredentials")) creds ∧
    (∀ k, k ∉ [u "challenge"; u "user"; u "excludeCredentials"; u "attestationFormats"] →
       bget pk k = BVal <$> obj_get o k) ∧
    (oget o (u "attestationFormats") ≠ VArr [] →
       bget pk (u "attestationFormats") = BVal <$> obj_get o (u "attestationFormats")) ∧
    buildRegistrationResult (Some c) = Ok result ∧
    field result [u "rawId"] = buffer_text (g_rawId c) ∧
    field result [u "response"; u "attestationObject"] = buffer_text (g_attestationObject c) ∧
    field result [u "response"; u "clientDataJSON"] = buffer_text (g_clientDataJSON c).
Proof.
  intros Hname Hc Hch Hu Huser Hid Hcr H1 H2 H3. apply encoded_buffer in H1, H2, H3.
  set (user := BObj (bset (bspread (VObj w)) (u "id") (BBuf uid))).
  set (base := bset (bset (bspread (VObj o)) (u "challenge") (BBuf challenge)) (u "user") user).
  assert (Hbase : ∀ k, k ∉ [u "challenge"; u "user"] → bget base k = BVal <$> obj_get o k).
  { intros k [Hk1 [Hk2 _]%not_elem_of_cons]%not_elem_of_cons. subst base.
    by rewrite !bget_bset, !bool_decide_eq_false_2, bget_spread. }
  destruct (credentials_received o (u "excludeCredentials") creds base Hcr)
    as (pk & Hpk & Hr & Ho); [reflexivity|by apply Hbase; apply (bool_decide_unpack _); vm_compute|].
  set (pk' := match oget o (u "attestationFormats") with VArr [] => bdel pk (u "attestationFormats") | _ => pk end).
  assert (Hpk' : ∀ k, k ≠ u "attestationFormats" → bget pk' k = bget pk k).
  { intros k Hk. subst pk'. destruct (oget _ _) as [| | | | |[]| |]; try done. by apply bget_bdel. }
  exists pk', user. eexists. split.
  { unfold prepareCredentialCreationOptions. rewrite options_named by done. cbn [truthy negb].
    rewrite (get_text _ _ _ Hch). cbn [rbind]. rewrite base64UrlToBuffer_text by done. cbn [rbind].
    assert (get (VObj o) (u "user") = Ok (VObj w)) as -> by (unfold get; by rewrite Huser). cbn [rbind].
    assert (get_opt (VObj w) (u "id") = VStr (url_text uid)) as -> by (unfold get_opt, get; by rewrite Hid).
    rewrite base64UrlToBuffer_text by done. cbn [rbind]. fold user. fold base. rewrite Hpk. cbn [rbind]. reflexivity. }
  rewrite !Hpk' by done. rewrite !(Ho (u "challenge")), !(Ho (u "user")) by done.
  split; [subst base; rewrite !bget_bset; reflexivity|].
  split; [subst base; rewrite bget_bset; reflexivity|]. split; [apply with_bytes_set|].
  split; [exact Hr|]. split.
  { intros k Hk. rewrite !not_elem_of_cons in Hk. destruct Hk as (Hk1 & Hk2 & Hk3 & Hk4 & _).
    rewrite Hpk', Ho by done. apply Hbase. rewrite !not_elem_of_cons.
    split; [done|]. split; [done|apply not_elem_of_nil]. }
  split.
  { intros Hne. subst pk'. destruct (oget _ _) as [| | | | |[]| |]; try done;
      (rewrite Ho by done; apply Hbase; by apply (bool_decide_unpack _); vm_compute). }
  unfold buildRegistrationResult. rewrite H1, H2, H3. cbn [rbind]. split; [reflexivity|]. by repeat split.
Qed.

(** ** Examples *)

Lemma sample_bytes : bytes_ok [0; 255; 62].
Proof. repeat (apply Forall_cons_2; [unfold is_byte; lia|]). apply Forall_nil_2. Qed.

Lemma base64url_roundtrip_witness :
  bytes_ok [0; 255; 62] ∧
  ∃ t, bufferToBase64Url (Some [0; 255; 62]) = Ok t ∧ base64UrlToBuffer (VStr t) = Ok [0; 255; 62].
Proof. split; [exact sample_bytes|]. exact (base64url_roundtrip [0; 255; 62] sample_bytes). Defined.

Lemma sample_decoded : base64UrlToBuffer (VStr (u "AP8-")) = Ok [0; 255; 62].
Proof. vm_compute. reflexivity. Qed.
Lemma sample_encoded : bufferToBase64Url (Some [0; 255; 62]) = Ok (u "AP8-").
Proof. vm_compute. reflexivity. Qed.

Lemma base64url_types_witness :
  forallb is_url_unit (u "AP8-") = true ∧ length (u "AP8-") = 4%nat ∧ bytes_ok [0; 255; 62].
Proof.
  exact (base64url_types [0; 255; 62] (u "AP8-") (VStr (u "AP8-")) [0; 255; 62]
           sample_bytes sample_encoded sample_decoded).
Defined.

Lemma base64_on_all_platforms_witness :
  ∃ t, encodeToBase64 WithBtoa false (VStr (u "ok é")) = Ok t ∧
       encodeToBase64 Window true (VStr (u "ok é")) = Ok t ∧
       atob t = Ok (utf8_encode (u "ok é")) ∧
       (well_paired (u "ok é") = true → utf16_of_utf8 (utf8_encode (u "ok é")) = u "ok é").
Proof.
  exact (base64_on_all_platforms WithBtoa false (u "ok é") ltac:(done) ltac:(solve_wf)).
Defined.

Definition sample_credential : obj := [(u "type", VStr (u "public-key")); (u "id", VStr (url_text [62; 7]))].
Definition sample_options : obj :=
  [(u "challenge", VStr (url_text [0; 255; 62])); (u "rpId", VStr (u "x.io"));
   (u "allowCredentials", VArr [VObj sample_credential])].
Definition sample_assertion : assertion :=
  {| a_id := VStr (u "AP8-"); a_rawId := Some [0; 255; 62]; a_type := VStr (u "public-key");
     a_authenticatorAttachment := VNull; a_authenticatorData := Some [0; 255; 62];
     a_clientDataJSON := Some [0; 255; 62]; a_signature := Some [0; 255; 62];
     a_userHandle := None; a_extensions := VUndef |}.

Lemma sample_listed : lists (Some (VArr [VObj sample_credential])) [(sample_credential, [62; 7])].
Proof.
  split; [done|]. apply Forall_cons_2; [|apply Forall_nil_2]. split; [|reflexivity].
  repeat (apply Forall_cons_2; [unfold is_byte; lia|]). apply Forall_nil_2.
Qed.

Lemma ceremony_keeps_bytes_witness :
  ∃ pk result,
    prepareCredentialRequestOptions (VObj [(u "Response", VObj sample_options)]) = Ok pk ∧
    bget pk (u "challenge") = Some (BBuf [0; 255; 62]) ∧
    receives (bget pk (u "allowCredentials")) [(sample_credential, [62; 7])] ∧
    buildAssertionResult (Some sample_assertion) = Ok result ∧
    field result [u "response"; u "userHandle"] = VNull.
Proof.
  destruct (ceremony_keeps_bytes (u "Response") sample_options [0; 255; 62] (Some [(sample_credential, [62; 7])])
              sample_assertion ltac:(do 3 right; by left) sample_bytes eq_refl sample_listed sample_bytes sample_bytes
              sample_bytes sample_bytes (Forall_nil_2 _))
    as (pk & result & Hp & Hc & Hr & _ & Hb & _ & _ & _ & _ & Hu).
  exists pk, result. split; [exact Hp|]. split; [exact Hc|]. split; [exact Hr|]. split; [exact Hb|exact Hu].
Defined.

Definition sample_user : obj := [(u "name", VStr (u "ann")); (u "id", VStr (url_text [0; 255; 62]))].
Definition sample_creation : obj :=
  [(u "challenge", VStr (url_text [0; 255; 62])); (u "user", VObj sample_user);
   (u "excludeCredentials", VArr [VObj sample_credential]); (u "attestationFormats", VArr [])].
Definition sample_registration : registration :=
  {| g_id := VStr (u "AP8-"); g_rawId := Some [0; 255; 62]; g_type := VStr (u "public-key");
     g_authenticatorAttachment := VNull; g_attestationObject := Some [0; 255; 62];
     g_clientDataJSON := Some [0; 255; 62]; g_transports := None; g_extensions := VUndef |}.

Lemma registration_keeps_bytes_witness :
  ∃ pk user result,
    prepareCredentialCreationOptions (VObj [(u "publicKey", VObj sample_creation)]) = Ok pk ∧
    bget pk (u "user") = Some user ∧ with_bytes sample_user (u "id") [0; 255; 62] user ∧
    receives (bget pk (u "excludeCredentials")) [(sample_credential, [62; 7])] ∧
    buildRegistrationResult (Some sample_registration) = Ok result ∧
    field result [u "rawId"] = VStr (url_text [0; 255; 62]).
Proof.
  destruct (registration_keeps_bytes (u "publicKey") sample_creation sample_user [0; 255; 62] [0; 255; 62]
              (Some [(sample_credential, [62; 7])]) sample_registration ltac:(by left) sample_bytes eq_refl
              sample_bytes eq_refl eq_refl sample_listed sample_bytes sample_bytes sample_bytes)
    as (pk & user & result & Hp & _ & Hu & Hw & Hr & _ & _ & Hb & Hf & _).
  exists pk, user, result. split; [exact Hp|]. split; [exact Hu|]. split; [exact Hw|]. split; [exact Hr|].
  split; [exact Hb|exact Hf].
Defined.
