(* ===== verification/Tokens.v ===== *)
(** * Keys of tokens and connection strings (helpers/token.js)

    The server shows the key of a token only on request.  [api] stands for the
    HTTP client: the body of the answer to a request for a path, or an
    exception.  A connection string carries a key and the address of the server
    through the clipboard. *)

From S2P Require Import Prelude JsString JsNumber JsValue Json Browser.

Local Open Scope Z_scope.

Section api.
Context (api : jstr → res val).

Definition key_path (tokenId : jstr) : jstr := u "/api/token/" ++ tokenId ++ u "/key".
Definition list_path : jstr := u "/api/token/?p=1&size=10".

Definition fetchTokenKey (tokenId : val) : res val :=
  let! id := to_str tokenId in
  let! body := api (key_path id) in
  let body := v_or body (VObj []) in
  let! success := get body (u "success") in
  let! data := get body (u "data") in
  let! message := get body (u "message") in
  if negb (truthy success) || negb (truthy (get_opt data (u "key"))) then
    let! text := to_str (v_or message (VStr (u "Failed to fetch token key"))) in
    Throw (UserError text)
  else get data (u "key").

(** [tokenItems.filter((token) => token.status === 1)] *)
Fixpoint active_tokens (l : list val) : res (list val) :=
  match l with
  | [] => Ok []
  | token :: l =>
    let! status := get token (u "status") in
    let! r := active_tokens l in
    Ok (if strict_eq status (VNum (of_Z 1)) then token :: r else r)
  end.

(** A settled promise that was fulfilled with a value that is not empty *)
Definition settled_key (r : res val) : list val :=
  match r with Ok key => if truthy key then [key] else [] | Throw _ => [] end.

Definition token_keys : res (list val) :=
  let! body := api list_path in
  let! success := get body (u "success") in
  let! data := get body (u "data") in
  if negb (truthy success) then Throw (UserError (u "Failed to fetch token keys")) else
  let! items := if is_arr data then Ok data
                else rmap (λ items, v_or items (VArr [])) (get data (u "items")) in
  match items with
  | VArr l =>
    let! active := active_tokens l in
    let! ids := rmapM (λ token, get token (u "id")) active in
    Ok (flat_map (λ id, settled_key (fetchTokenKey id)) ids)
  | _ => Throw TypeError
  end.

Definition fetchTokenKeys : list val := rcatch token_keys [].
End api.

(** [origin] is [window.location.origin]. *)
Definition getServerAddress (st : storage) (origin : jstr) : val :=
  let address :=
    match getItem st (u "status") with
    | VStr s =>
      if nonempty s then
        rcatch (let! status := JSON_parse s in
                let! address := get status (u "server_address") in
                Ok (v_or address (VStr []))) (VStr [])
      else VStr []
    | _ => VStr []
    end in
  if truthy address then address else VStr origin.

(** ** Connection strings *)

Definition CHANNEL_CONN_CLIPBOARD_TYPE : jstr := u "aggreapi_channel_conn".

Definition encodeChannelConnectionString (key url : val) : jstr :=
  stringify_text (VObj [(u "_type", VStr CHANNEL_CONN_CLIPBOARD_TYPE); (u "key", key); (u "url", url)]).

(** [parsed] is an object of the type of connections with two texts. *)
Definition connection_of (parsed : val) : option (jstr * jstr) :=
  if truthy parsed && typeof_object parsed && is_text (get_opt parsed (u "_type")) CHANNEL_CONN_CLIPBOARD_TYPE
  then match get_opt parsed (u "key"), get_opt parsed (u "url") with
       | VStr key, VStr url => Some (key, url)
       | _, _ => None
       end
  else None.

Definition parseChannelConnectionString (text : val) : option (jstr * jstr) :=
  match text with
  | VStr s =>
    if nonempty s then
      match JSON_parse (trim s) with Ok parsed => connection_of parsed | Throw _ => None end
    else None
  | _ => None
  end.

Example connection_1 :
  parseChannelConnectionString (VStr (u " " ++ encodeChannelConnectionString (VStr (u "sk-1")) (VStr (u "https://x.io")))) =
  Some (u "sk-1", u "https://x.io").
Proof. vm_compute. reflexivity. Qed.
Example connection_2 :
  parseChannelConnectionString (VStr (uq "{'_type':'aggreapi_channel_conn','key':1,'url':'x'}")) = None.
Proof. vm_compute. reflexivity. Qed.

(** ** Theorems *)

Definition connection (key url : jstr) : obj :=
  [(u "_type", VStr CHANNEL_CONN_CLIPBOARD_TYPE); (u "key", VStr key); (u "url", VStr url)].

(** White space around a text is what [trim] removes. *)
Definition spaces (w : jstr) : Prop := Forall (λ c, is_ws c = true) w.

Lemma trim_start_spaces w s : spaces w → trim_start (w ++ s) = trim_start s.
Proof. induction 1 as [|c w Hc _ IH]; [done|]. simpl. by rewrite Hc. Qed.

Lemma trim_spaces w s w' : spaces w → spaces w' → tight s → s ≠ [] → trim (w ++ s ++ w') = s.
Proof.
  intros Hw Hw' Hs Hne. unfold trim, trim_end. rewrite trim_start_spaces by done.
  rewrite (trim_start_fixed (s ++ w')).
  2:{ intros c r Hc. destruct s as [|c1 s1]; [done|]. simpl in Hc.
      assert (c1 = c) as <- by congruence. by apply (proj1 Hs c1 s1). }
  rewrite rev_app_distr, trim_start_spaces by by apply Forall_rev.
  rewrite trim_start_fixed; [apply rev_involutive|].
  intros c r Hr. apply (proj2 Hs c (rev r)). by rewrite <- (rev_involutive s), Hr.
Qed.

Lemma connection_data key url : jstr_wf key → jstr_wf url → json_data (VObj (connection key url)).
Proof.
  intros Hk Hu. constructor; [apply keys_okb_ok; vm_compute; reflexivity|].
  repeat first [apply Forall_nil_2|apply Forall_cons_2; [split; [solve_wf|cbn [snd]; constructor]|]];
    first [done|solve_wf].
Qed.

(** a key and an address survive the clipboard: a connection string is read
    back, with any white space around it. *)
Theorem connection_roundtrip key url w w' :
  jstr_wf key → jstr_wf url → spaces w → spaces w' →
  parseChannelConnectionString
    (VStr (w ++ encodeChannelConnectionString (VStr key) (VStr url) ++ w')) = Some (key, url).
Proof.
  intros Hk Hu Hw Hw'. unfold encodeChannelConnectionString.
  fold (connection key url). pose proof (connection_data key url Hk Hu) as Hd.
  pose proof (JSON_parse_stringify [] _ (Forall_nil_2 _) Hd) as Hp.
  unfold stringify_text, stringify. destruct (ser [] [] (VObj (connection key url))) as [s|] eqn:Es;
    [|by rewrite ser_serializable in Es].
  destruct (ser_obj_tight _ _ _ _ Es) as [Ht Hne]. cbn [default from_option id] in *.
  unfold parseChannelConnectionString.
  assert (nonempty (w ++ s ++ w') = true) as ->.
  { unfold nonempty. apply negb_true_iff, bool_decide_eq_false. by destruct w, s. }
  rewrite trim_spaces by done. rewrite Hp. reflexivity.
Qed.

(** ** Keys *)

Definition is_active (token : val) : bool := strict_eq (get_opt token (u "status")) (VNum (of_Z 1)).

Lemma active_tokens_ok l :
  Forall (λ v, is_plain v = true) l → active_tokens l = Ok (List.filter is_active l).
Proof.
  induction 1 as [|v l Hv _ IH]; [done|]. destruct v as [| | | | | |o|]; try done.
  assert (is_active (VObj o) = strict_eq (oget o (u "status")) (VNum (of_Z 1))) as Ha by reflexivity.
  cbn [active_tokens get rbind List.filter]. rewrite IH. cbn [rbind]. rewrite Ha.
  unfold oget. by destruct (strict_eq _ _).
Qed.

Lemma ids_ok l :
  Forall (λ v, is_plain v = true) l →
  rmapM (λ token, get token (u "id")) l = Ok (map (λ token, get_opt token (u "id")) l).
Proof.
  induction 1 as [|v l Hv _ IH]; [done|]. destruct v; try done. cbn [rmapM get rbind]. by rewrite IH.
Qed.

Lemma flat_map_filter {A B} (p : A → bool) (f : A → list B) l :
  flat_map f (List.filter p l) = flat_map (λ x, if p x then f x else []) l.
Proof. induction l as [|x l IH]; [done|]. simpl. destruct (p x); simpl; by rewrite IH. Qed.

Lemma fetchTokenKey_truthy api id key : fetchTokenKey api id = Ok key → truthy key = true.
Proof.
  unfold fetchTokenKey. destruct (to_str id); cbn [rbind]; [|done].
  destruct (api _) as [body|]; cbn [rbind]; [|done].
  destruct (get _ (u "success")) as [s|]; cbn [rbind]; [|done].
  destruct (get _ (u "data")) as [d|]; cbn [rbind]; [|done].
  destruct (get _ (u "message")) as [m|]; cbn [rbind]; [|done].
  destruct (truthy s), (truthy (get_opt d _)) eqn:Ek; cbn [negb orb];
    try by destruct (to_str _).
  intros Hk. unfold get_opt in Ek. by rewrite Hk in Ek.
Qed.

(** the keys returned are exactly those of the active tokens that the server
    lists and whose keys it gives out, in the order of the list: a token whose
    request fails does not keep the others from being returned. *)
Theorem token_keys_exact api body data l :
  api list_path = Ok body → get body (u "success") = Ok (VBool true) → get body (u "data") = Ok data →
  data = VArr l ∨ get_opt data (u "items") = VArr l ∧ is_arr data = false →
  Forall (λ v, is_plain v = true) l →
  fetchTokenKeys api =
    flat_map (λ token, if is_active token
                       then match fetchTokenKey api (get_opt token (u "id")) with
                            | Ok key => [key]
                            | Throw _ => []
                            end
                       else []) l.
Proof.
  intros Hb Hs Hd Hl Hp. unfold fetchTokenKeys, token_keys. rewrite Hb. cbn [rbind]. rewrite Hs, Hd.
  cbn [rbind truthy negb].
  assert ((if is_arr data then Ok data
           else rmap (λ items, v_or items (VArr [])) (get data (u "items"))) = Ok (VArr l)) as ->.
  { destruct Hl as [->|[Hi ->]]; [done|]. unfold get_opt in Hi.
    destruct (get data (u "items")) as [i|]; [|done]. by rewrite Hi. }
  cbn [rbind]. rewrite active_tokens_ok by done. cbn [rbind].
  rewrite ids_ok by (eapply List.incl_Forall; [apply List.incl_filter|done]).
  cbn [rbind rcatch]. rewrite List.flat_map_concat_map, map_map, <- List.flat_map_concat_map.
  rewrite flat_map_filter. apply List.flat_map_ext. intros token. destruct (is_active token); [|done].
  unfold settled_key. destruct (fetchTokenKey api _) as [key|] eqn:Ek; [|done].
  by rewrite (fetchTokenKey_truthy _ _ _ Ek).
Qed.

(** ** Examples *)

Lemma connection_roundtrip_witness :
  parseChannelConnectionString
    (VStr ([32] ++ encodeChannelConnectionString (VStr (u "sk-1")) (VStr (u "https://x.io")) ++ [10])) =
  Some (u "sk-1", u "https://x.io").
Proof.
  exact (connection_roundtrip (u "sk-1") (u "https://x.io") [32] [10] ltac:(solve_wf) ltac:(solve_wf)
           ltac:(by repeat constructor) ltac:(by repeat constructor)).
Defined.

(** Two active tokens, the second of which the server refuses, and one that is
    not active *)
Definition token (id status : Z) : val :=
  VObj [(u "id", VNum (of_Z id)); (u "status", VNum (of_Z status))].
Definition sample_api (path : jstr) : res val :=
  if path =s list_path then
    Ok (VObj [(u "success", VBool true);
              (u "data", VObj [(u "items", VArr [token 1 1; token 2 1; token 3 2])])])
  else if path =s key_path (u "1") then
    Ok (VObj [(u "success", VBool true); (u "data", VObj [(u "key", VStr (u "abc"))])])
  else Throw (UserError (u "403")).

Lemma sample_body :
  sample_api list_path =
  Ok (VObj [(u "success", VBool true);
            (u "data", VObj [(u "items", VArr [token 1 1; token 2 1; token 3 2])])]).
Proof. vm_compute. reflexivity. Qed.
Lemma sample_keys : fetchTokenKeys sample_api = [VStr (u "abc")].
Proof. vm_compute. reflexivity. Qed.

Lemma token_keys_exact_witness :
  [VStr (u "abc")] =
  flat_map (λ token, if is_active token
                     then match fetchTokenKey sample_api (get_opt token (u "id")) with
                          | Ok key => [key]
                          | Throw _ => []
                          end
                     else []) [token 1 1; token 2 1; token 3 2].
Proof.
  rewrite <- sample_keys at 1.
  exact (token_keys_exact sample_api _ _ [token 1 1; token 2 1; token 3 2] sample_body eq_refl eq_refl
           (or_intror (conj eq_refl eq_refl)) ltac:(by repeat constructor)).
Defined.
