(* ===== verification/UpstreamUpdates.v ===== *)
(** * Updates of the models of a channel (hooks/channels)

    [upstreamUpdateUtils.js] and [useChannelUpstreamUpdates.jsx]: the models an
    upstream service has added or dropped, the dialog in which the operator
    decides on them, and four kinds of requests, each guarded so that one of a
    kind runs at a time.  Replies and the refresh that follows them arrive in
    any order, between any clicks. *)

From S2P Require Import Prelude JsString JsNumber JsValue Json Browser.

Local Open Scope Z_scope.

(** ** upstreamUpdateUtils.js *)

(** [String(model || '').trim()] *)
Definition model_text (model : val) : res jstr := rmap trim (to_str (v_or model (VStr []))).

(** What is not an array has no callable [map]. *)
Definition normalizeModelList (models : val) : res (list jstr) :=
  match v_or models (VArr []) with
  | VArr l => rmap (λ ts, set_array (List.filter nonempty ts)) (rmapM model_text l)
  | _ => Throw TypeError
  end.

(** The object of the settings, or [null] *)
Definition parsed_settings (settings : val) : val :=
  if truthy settings && typeof_object settings then settings
  else match settings with VStr s => rcatch (JSON_parse s) VNull | _ => VNull end.

Record meta := {
  enabled : bool;
  pendingAddModels : list jstr;
  pendingRemoveModels : list jstr;
}.

Definition parseUpstreamUpdateMeta (settings : val) : res meta :=
  let parsed := parsed_settings settings in
  if negb (truthy parsed) || negb (typeof_object parsed) then
    Ok {| enabled := false; pendingAddModels := []; pendingRemoveModels := [] |}
  else
    let! check := get parsed (u "upstream_model_update_check_enabled") in
    let! detected := get parsed (u "upstream_model_update_last_detected_models") in
    let! added := normalizeModelList detected in
    let! dropped := get parsed (u "upstream_model_update_last_removed_models") in
    let! removed := normalizeModelList dropped in
    Ok {| enabled := is_true check; pendingAddModels := added; pendingRemoveModels := removed |}.

Definition getManualIgnoredModelCountFromSettings (settings : val) : res Z :=
  let parsed := parsed_settings settings in
  if negb (truthy parsed) || negb (typeof_object parsed) then Ok 0
  else
    let! ignored := get parsed (u "upstream_model_update_ignored_models") in
    rmap (λ l, Z.of_nat (length l)) (normalizeModelList ignored).

(** ** The hook *)

Inductive kind := KApply | KApplyAll | KDetect | KDetectAll.
#[export] Instance kind_eq_dec : EqDecision kind.
Proof. solve_decision. Defined.

Inductive request :=
| Apply (id : val) (add_models ignore_models remove_models : list jstr)
| ApplyAll
| Detect (id : val)
| DetectAll.

Definition kind_of (r : request) : kind :=
  match r with
  | Apply _ _ _ _ => KApply
  | ApplyAll => KApplyAll
  | Detect _ => KDetect
  | DetectAll => KDetectAll
  end.

(** A call that has not ended waits for the reply to its request, or for
    [refresh()]. *)
Inductive waiting := ForReply (r : request) | ForRefresh (r : request).
Definition wait_kind (w : waiting) : kind :=
  kind_of (match w with ForReply r => r | ForRefresh r => r end).

Inductive notice :=
| Info (text : jstr)
| Error (text : val)
| Success (key : jstr) (counts : obj).

Record hook := {
  showUpstreamUpdateModal : bool;
  upstreamUpdateChannel : val;
  upstreamUpdateAddModels : list jstr;
  upstreamUpdateRemoveModels : list jstr;
  upstreamUpdatePreferredTab : jstr;
  (** the [InFlightRef]s *)
  inFlight : kind → bool;
  (** [upstreamApplyLoading], [applyAllUpstreamUpdatesLoading] and
      [detectAllUpstreamUpdatesLoading]; [KDetect] has none *)
  loading : kind → bool;
  calls : list waiting;
  notices : list notice;
}.

Definition set_flags (k : kind) (b : bool) (h : hook) : hook :=
  {| showUpstreamUpdateModal := showUpstreamUpdateModal h;
     upstreamUpdateChannel := upstreamUpdateChannel h;
     upstreamUpdateAddModels := upstreamUpdateAddModels h;
     upstreamUpdateRemoveModels := upstreamUpdateRemoveModels h;
     upstreamUpdatePreferredTab := upstreamUpdatePreferredTab h;
     inFlight := λ k', if decide (k' = k) then b else inFlight h k';
     loading := λ k', if decide (k' = k ∧ k ≠ KDetect) then b else loading h k';
     calls := calls h; notices := notices h |}.
Definition set_calls (ws : list waiting) (h : hook) : hook :=
  {| showUpstreamUpdateModal := showUpstreamUpdateModal h;
     upstreamUpdateChannel := upstreamUpdateChannel h;
     upstreamUpdateAddModels := upstreamUpdateAddModels h;
     upstreamUpdateRemoveModels := upstreamUpdateRemoveModels h;
     upstreamUpdatePreferredTab := upstreamUpdatePreferredTab h;
     inFlight := inFlight h; loading := loading h; calls := ws; notices := notices h |}.
Definition notify (n : notice) (h : hook) : hook :=
  {| showUpstreamUpdateModal := showUpstreamUpdateModal h;
     upstreamUpdateChannel := upstreamUpdateChannel h;
     upstreamUpdateAddModels := upstreamUpdateAddModels h;
     upstreamUpdateRemoveModels := upstreamUpdateRemoveModels h;
     upstreamUpdatePreferredTab := upstreamUpdatePreferredTab h;
     inFlight := inFlight h; loading := loading h; calls := calls h;
     notices := notices h ++ [n] |}.
Definition set_modal (b : bool) (channel : val) (add rem : list jstr) (tab : jstr) (h : hook) : hook :=
  {| showUpstreamUpdateModal := b; upstreamUpdateChannel := channel;
     upstreamUpdateAddModels := add; upstreamUpdateRemoveModels := rem;
     upstreamUpdatePreferredTab := tab;
     inFlight := inFlight h; loading := loading h; calls := calls h; notices := notices h |}.

Definition ADD : jstr := u "add".
Definition REMOVE : jstr := u "remove".

Definition hook0 : hook :=
  {| showUpstreamUpdateModal := false; upstreamUpdateChannel := VNull;
     upstreamUpdateAddModels := []; upstreamUpdateRemoveModels := [];
     upstreamUpdatePreferredTab := ADD; inFlight := λ _, false; loading := λ _, false;
     calls := []; notices := [] |}.

Definition closeUpstreamUpdateModal : hook → hook := set_modal false VNull [] [] ADD.

Section hook.
Context `{Env}.

Definition openUpstreamUpdateModal (record pendingAdd pendingRemove preferredTab : val) (h : hook)
    : res hook :=
  let! add := normalizeModelList pendingAdd in
  let! rem := normalizeModelList pendingRemove in
  if negb (truthy (get_opt record (u "id"))) ||
     (bool_decide (length add = 0%nat) && bool_decide (length rem = 0%nat))
  then Ok (notify (Info (t (u "该渠道暂无可处理的上游模型更新") None)) h)
  else Ok (set_modal true record add rem (if is_text preferredTab REMOVE then REMOVE else ADD) h).

(** The texts of a kind: already running, failed *)
Definition busy_text (k : kind) : jstr :=
  match k with
  | KApply => u "正在处理，请稍候"
  | KApplyAll => u "正在批量处理，请稍候"
  | KDetect => u "正在检测，请稍候"
  | KDetectAll => u "正在批量检测，请稍候"
  end.
Definition failed_text (k : kind) : jstr :=
  match k with
  | KApply => u "操作失败"
  | KApplyAll => u "批量处理失败"
  | KDetect => u "检测失败"
  | KDetectAll => u "批量检测失败"
  end.

(** The guard of the four calls *)
Definition busy (k : kind) (h : hook) : hook := notify (Info (t (busy_text k) None)) h.

(** [showError(message || t('...'))] *)
Definition report (k : kind) (message : val) (h : hook) : hook :=
  notify (Error (v_or message (VStr (t (failed_text k) None)))) h.

(** The call ends: [finally] *)
Definition finish (k : kind) (h : hook) : hook := set_flags k false h.

(** The request that [applyUpstreamUpdates] sends *)
Definition apply_request (selectedAdd selectedRemove : val) (h : hook) : res request :=
  let! id := get (upstreamUpdateChannel h) (u "id") in
  let! add := normalizeModelList selectedAdd in
  let! rem := normalizeModelList selectedRemove in
  let ignoreModels := List.filter (λ m, negb (bool_decide (m ∈ add))) (upstreamUpdateAddModels h) in
  Ok (Apply id add ignoreModels rem).

Definition send (r : request) (h : hook) : hook := set_calls (calls h ++ [ForReply r]) h.

(** The four calls, up to the request *)
Definition applyUpstreamUpdates (selectedAdd selectedRemove : val) (h : hook) : hook :=
  if inFlight h KApply then busy KApply h else
  if negb (truthy (get_opt (upstreamUpdateChannel h) (u "id"))) then closeUpstreamUpdateModal h else
  let h := set_flags KApply true h in
  match apply_request selectedAdd selectedRemove h with
  | Ok r => send r h
  | Throw e => finish KApply (report KApply (VStr (message_of e)) h)
  end.

Definition applyAllUpstreamUpdates (h : hook) : hook :=
  if inFlight h KApplyAll then busy KApplyAll h else send ApplyAll (set_flags KApplyAll true h).

Definition detectChannelUpstreamUpdates (channel : val) (h : hook) : hook :=
  if inFlight h KDetect then busy KDetect h else
  let id := get_opt channel (u "id") in
  if negb (truthy id) then h else send (Detect id) (set_flags KDetect true h).

Definition detectAllUpstreamUpdates (h : hook) : hook :=
  if inFlight h KDetectAll then busy KDetectAll h else send DetectAll (set_flags KDetectAll true h).

(** What becomes of a request: the body of the answer, or a rejection with the
    message of the server, if it sent one, and that of the error *)
Inductive outcome := Replied (body : val) | Rejected (server_message : val) (message : jstr).

(** [x?.k || 0] and [x?.k?.length || 0] *)
Definition count (data : val) (k : jstr) : val := v_or (get_opt data k) (VNum nzero).
Definition count_of (data : val) (k : jstr) : val :=
  v_or (get_opt (get_opt data k) (u "length")) (VNum nzero).
Definition failures (data : val) : val :=
  get_opt (v_or (get_opt data (u "failed_channel_ids")) (VArr [])) (u "length").

Definition apply_notice (ignoreModels : list jstr) (data : val) : res notice :=
  let! total := getManualIgnoredModelCountFromSettings (get_opt data (u "settings")) in
  let! ignored := normalizeModelList (VArr (map VStr ignoreModels)) in
  Ok (Success (u "已处理上游模型更新：加入 {{added}} 个，删除 {{removed}} 个，本次忽略 {{ignored}} 个，当前已忽略模型 {{totalIgnored}} 个")
        [(u "added", count_of data (u "added_models"));
         (u "removed", count_of data (u "removed_models"));
         (u "ignored", VNum (of_Z (Z.of_nat (length ignored))));
         (u "totalIgnored", VNum (of_Z total))]).

Definition apply_all_notice (data : val) : notice :=
  Success (u "已批量处理上游模型更新：渠道 {{channels}} 个，加入 {{added}} 个，删除 {{removed}} 个，失败 {{fails}} 个")
    [(u "channels", count data (u "processed_channels"));
     (u "added", count data (u "added_models")); (u "removed", count data (u "removed_models"));
     (u "fails", failures data)].

Definition detect_notice (data : val) : notice :=
  Success (u "检测完成：新增 {{add}} 个，删除 {{remove}} 个")
    [(u "add", count_of data (u "add_models")); (u "remove", count_of data (u "remove_models"))].

Definition detect_all_notice (data : val) : notice :=
  Success (u "批量检测完成：渠道 {{channels}} 个，新增 {{add}} 个，删除 {{remove}} 个，失败 {{fails}} 个")
    [(u "channels", count data (u "processed_channels"));
     (u "add", count data (u "detected_add_models"));
     (u "remove", count data (u "detected_remove_models")); (u "fails", failures data)].

Definition success_notice (r : request) (data : val) : res notice :=
  match r with
  | Apply _ _ ignoreModels _ => apply_notice ignoreModels data
  | ApplyAll => Ok (apply_all_notice data)
  | Detect _ => Ok (detect_notice data)
  | DetectAll => Ok (detect_all_notice data)
  end.

(** The continuation of a call after its request, the same in all four but for
    the texts and the dialog; [None]: it has ended. *)
Definition on_reply (r : request) (o : outcome) (h : hook) : hook * option waiting :=
  let k := kind_of r in
  match o with
  | Rejected server message => (finish k (report k (v_or server (VStr message)) h), None)
  | Replied body =>
    let body := v_or body (VObj []) in
    let data := get_opt body (u "data") in
    if negb (truthy (get_opt body (u "success")))
    then (finish k (report k (get_opt body (u "message")) h), None)
    else match success_notice r data with
    | Throw e => (finish k (report k (VStr (message_of e)) h), None)
    | Ok n =>
      let h := notify n h in
      (match r with Apply _ _ _ _ => closeUpstreamUpdateModal h | _ => h end, Some (ForRefresh r))
    end
  end.

(** The continuation after [await refresh()], which may be rejected *)
Definition on_refreshed (r : request) (e : option jstr) (h : hook) : hook :=
  let k := kind_of r in
  finish k (match e with Some message => report k (VStr message) h | None => h end).

(** ** Steps *)

Inductive event :=
| EOpen (record add rem tab : val)
| EClose
| EApply (add rem : val)
| EApplyAll
| EDetect (channel : val)
| EDetectAll
| EReply (i : nat) (o : outcome)
| ERefreshed (i : nat) (e : option jstr).

Definition without (i : nat) (ws : list waiting) : list waiting := take i ws ++ drop (S i) ws.

Definition step (e : event) (h : hook) : res hook :=
  match e with
  | EOpen record add rem tab => openUpstreamUpdateModal record add rem tab h
  | EClose => Ok (closeUpstreamUpdateModal h)
  | EApply add rem => Ok (applyUpstreamUpdates add rem h)
  | EApplyAll => Ok (applyAllUpstreamUpdates h)
  | EDetect channel => Ok (detectChannelUpstreamUpdates channel h)
  | EDetectAll => Ok (detectAllUpstreamUpdates h)
  | EReply i o =>
    match calls h !! i with
    | Some (ForReply r) =>
      let '(h', w) := on_reply r o (set_calls (without i (calls h)) h) in
      Ok (set_calls (calls h' ++ match w with Some w => [w] | None => [] end) h')
    | _ => Ok h
    end
  | ERefreshed i e =>
    match calls h !! i with
    | Some (ForRefresh r) => Ok (on_refreshed r e (set_calls (without i (calls h)) h))
    | _ => Ok h
    end
  end.

Inductive reachable : hook → Prop :=
| reach_start : reachable hook0
| reach_step e h h' : reachable h → step e h = Ok h' → reachable h'.
End hook.

(** ** Lists of models *)

Lemma set_array_id {A} `{EqDecision A} (l : list A) : NoDup l → set_array l = l.
Proof.
  unfold set_array. intros Hl. cut (∀ seen, Forall (λ x, x ∉ seen) l → dedup_acc seen l = l).
  { intros Hc. apply Hc, list.Forall_forall. intros x _ Hx. by apply elem_of_nil in Hx. }
  induction Hl as [|x l Hx _ IH]; intros seen Hs; [done|]. inversion_clear Hs as [|?? Hn Hs'].
  simpl. rewrite decide_False by done. f_equal. apply IH.
  apply list.Forall_forall. intros y Hy [->|Hys]%elem_of_cons; [done|].
  by apply (proj1 (list.Forall_forall _ _) Hs' y Hy).
Qed.

Definition elements (models : val) : list val := match models with VArr l => l | _ => [] end.

Lemma model_text_tight x m : model_text x = Ok m → trim m = m.
Proof.
  unfold model_text. destruct (to_str _) as [s|]; simpl; [|done]. intros [= <-]. apply trim_idem.
Qed.

Lemma model_text_str m : trim m = m → model_text (VStr m) = Ok m.
Proof.
  intros Hm. unfold model_text, v_or. destruct m; simpl; [done|]. by rewrite Hm.
Qed.

(** a list of models is normalised to the trimmed texts of its elements, each
    once and none blank; normalising the result changes nothing. *)
Theorem normalize_models_exact models r :
  normalizeModelList models = Ok r →
  NoDup r ∧ (∀ m, m ∈ r ↔ m ≠ [] ∧ ∃ x, x ∈ elements models ∧ model_text x = Ok m) ∧
  normalizeModelList (VArr (map VStr r)) = Ok r.
Proof.
  unfold normalizeModelList. intros Hr.
  assert (Hl : ∃ ts, rmapM model_text (elements models) = Ok ts ∧ r = set_array (List.filter nonempty ts)).
  { unfold v_or in Hr. destruct (truthy models) eqn:Et.
    - destruct models; try done. cbn [elements].
      destruct (rmapM model_text l) as [ts|]; simpl in Hr; [|done]. injection Hr as <-. by exists ts.
    - exists []. simpl in Hr. injection Hr as <-. destruct models; try done. }
  destruct Hl as (ts & Hts & ->). clear Hr.
  assert (Hm : ∀ m, m ∈ set_array (List.filter nonempty ts) ↔
                    m ≠ [] ∧ ∃ x, x ∈ elements models ∧ model_text x = Ok m).
  { intros m. rewrite elem_of_set_array, elem_of_filter_bool, (rmapM_elem _ _ _ m Hts).
    unfold nonempty. rewrite negb_true_iff, bool_decide_eq_false. tauto. }
  split; [apply NoDup_set_array|]. split; [exact Hm|].
  set (r := set_array _) in *. assert (NoDup r) as Hnd by apply NoDup_set_array. clearbody r.
  assert (rmapM model_text (map VStr r) = Ok r) as Hr.
  { assert (Ht : Forall (λ m, trim m = m) r).
    { apply list.Forall_forall. intros m (_ & x & _ & Hx)%Hm. by eapply model_text_tight. }
    clear -Ht. induction Ht as [|m r Hx _ IH]; [done|]. simpl. by rewrite model_text_str, IH by done. }
  unfold v_or. cbn [truthy]. rewrite Hr. cbn [rmap]. f_equal. rewrite filter_all; [by apply set_array_id|].
  apply list.Forall_forall. intros m [Hne _]%Hm. unfold nonempty. by apply negb_true_iff, bool_decide_eq_false_2.
Qed.

(** ** One call of a kind at a time *)

Section session.
Context `{Env}.

(** The calls of kind [k] that have not ended *)
Definition running (k : kind) (ws : list waiting) : list waiting :=
  List.filter (λ w, bool_decide (wait_kind w = k)) ws.

Record inv (h : hook) : Prop := {
  inv_flight : ∀ k, length (running k (calls h)) = if inFlight h k then 1%nat else 0%nat;
  inv_loading : ∀ k, k ≠ KDetect → loading h k = inFlight h k;
  inv_models : NoDup (upstreamUpdateAddModels h) ∧ NoDup (upstreamUpdateRemoveModels h);
}.

Lemma running_app k ws ws' : running k (ws ++ ws') = running k ws ++ running k ws'.
Proof. apply List.filter_app. Qed.

Lemma running_without k i w ws :
  ws !! i = Some w →
  length (running k ws) =
    ((if decide (wait_kind w = k) then 1 else 0) + length (running k (without i ws)))%nat.
Proof.
  intros Hw. unfold without. rewrite <- (take_drop_middle ws i w Hw) at 1. rewrite !running_app, !length_app.
  simpl. case_bool_decide; case_decide; simpl; try done; lia.
Qed.

Lemma running_snoc k w ws :
  length (running k (ws ++ [w])) = (length (running k ws) + if decide (wait_kind w = k) then 1 else 0)%nat.
Proof. rewrite running_app, length_app. simpl. by case_bool_decide; case_decide. Qed.

(** Notices do not matter, and the dialog only through its lists. *)
Lemma inv_notify n h : inv h → inv (notify n h).
Proof. by intros []. Qed.
Lemma inv_modal b c add rem tab h : NoDup add → NoDup rem → inv h → inv (set_modal b c add rem tab h).
Proof. by intros ?? []. Qed.
Lemma inv_close h : inv h → inv (closeUpstreamUpdateModal h).
Proof. apply inv_modal; apply NoDup_nil_2. Qed.

(** A call that starts, and one that ends *)
Lemma inv_start r h :
  inFlight h (kind_of r) = false → inv h → inv (send r (set_flags (kind_of r) true h)).
Proof.
  intros Hf [Hi Hl Hm]. split; [|intros k Hk; simpl|done].
  - intros k. cbn [calls send set_calls set_flags inFlight]. rewrite running_snoc, Hi.
    unfold wait_kind. repeat case_decide; subst; rewrite ?Hf; first [done|lia].
  - rewrite Hl by done. repeat case_decide; subst; naive_solver.
Qed.

Lemma inv_end k h :
  length (running k (calls h)) = 0%nat →
  (∀ k', k' ≠ k → length (running k' (calls h)) = if inFlight h k' then 1%nat else 0%nat) →
  (∀ k', k' ≠ k → k' ≠ KDetect → loading h k' = inFlight h k') →
  NoDup (upstreamUpdateAddModels h) ∧ NoDup (upstreamUpdateRemoveModels h) →
  inv (finish k h).
Proof.
  intros Hk Hi Hl Hm. split; [|intros k' Hk'; simpl|done].
  - intros k'. cbn [calls finish set_flags inFlight]. case_decide; [by subst|by apply Hi].
  - repeat case_decide; [done|naive_solver|naive_solver|by apply Hl].
Qed.

(** The call at position [i] ends. *)
Lemma inv_ends i w h h' :
  inv h → calls h !! i = Some w →
  calls h' = without i (calls h) → inFlight h' = inFlight h → loading h' = loading h →
  NoDup (upstreamUpdateAddModels h') ∧ NoDup (upstreamUpdateRemoveModels h') →
  inv (finish (wait_kind w) h').
Proof.
  intros [Hi Hl Hm] Hw Hc Hf Hlo Hm'. apply inv_end; rewrite ?Hc, ?Hf, ?Hlo; [| |by intros; apply Hl|done].
  - pose proof (running_without (wait_kind w) i w _ Hw) as Hr. rewrite decide_True in Hr by done.
    rewrite Hi in Hr. case_match; lia.
  - intros k Hk. rewrite <- Hi, (running_without k i w _ Hw). by rewrite decide_False.
Qed.

(** The call at position [i] goes on waiting. *)
Lemma inv_goes_on i w w' h h' :
  inv h → calls h !! i = Some w → wait_kind w' = wait_kind w →
  calls h' = without i (calls h) → inFlight h' = inFlight h → loading h' = loading h →
  NoDup (upstreamUpdateAddModels h') ∧ NoDup (upstreamUpdateRemoveModels h') →
  inv (set_calls (calls h' ++ [w']) h').
Proof.
  intros [Hi Hl Hm] Hw Hk Hc Hf Hlo Hm'. split; [|by rewrite <- Hf, <- Hlo in Hl|done].
  intros k. cbn [calls set_calls inFlight]. rewrite running_snoc, Hc, Hf, Hk.
  rewrite <- Hi, (running_without k i w _ Hw). lia.
Qed.

Lemma normalize_NoDup v r : normalizeModelList v = Ok r → NoDup r.
Proof.
  unfold normalizeModelList. destruct (v_or v (VArr [])); try done.
  destruct (rmapM model_text l); simpl; [|done]. intros [= <-]. apply NoDup_set_array.
Qed.

Lemma set_calls_nil h : set_calls (calls h ++ []) h = h.
Proof. rewrite app_nil_r. by destruct h. Qed.

Lemma inv_open record add rem tab h h' :
  inv h → openUpstreamUpdateModal record add rem tab h = Ok h' → inv h'.
Proof.
  intros Hi. unfold openUpstreamUpdateModal.
  destruct (normalizeModelList add) as [a|] eqn:Ea; cbn [rbind]; [|done].
  destruct (normalizeModelList rem) as [r|] eqn:Er; cbn [rbind]; [|done].
  case_match; intros [= <-]; [by apply inv_notify|]. apply inv_modal; eauto using normalize_NoDup.
Qed.

Lemma inv_apply add rem h : inv h → inv (applyUpstreamUpdates add rem h).
Proof.
  intros Hi. unfold applyUpstreamUpdates. destruct (inFlight h KApply) eqn:Ef; [by apply inv_notify|].
  case_match; [by apply inv_close|].
  destruct (apply_request _ _ _) as [r|e] eqn:Er.
  - assert (kind_of r = KApply) as Hk.
    { unfold apply_request in Er. destruct (get _ _); cbn [rbind] in Er; [|done].
      destruct (normalizeModelList add); cbn [rbind] in Er; [|done].
      destruct (normalizeModelList rem); cbn [rbind] in Er; [|done]. by injection Er as <-. }
    rewrite <- Hk. apply inv_start; [by rewrite Hk|done].
  - destruct Hi as [Hi Hl Hm]. pose proof (Hi KApply) as Hn. rewrite Ef in Hn.
    apply inv_end; [done| | |done]; intros k' Hk'; simpl.
    + rewrite decide_False by done. apply Hi.
    + intros Hd. rewrite !decide_False by naive_solver. by apply Hl.
Qed.

Lemma inv_reply i r o h :
  inv h → calls h !! i = Some (ForReply r) →
  let '(h', w) := on_reply r o (set_calls (without i (calls h)) h) in
  inv (set_calls (calls h' ++ match w with Some w => [w] | None => [] end) h').
Proof.
  intros Hi Hw. unfold on_reply. destruct o as [body|server message].
  - destruct (negb _); [rewrite set_calls_nil; apply (inv_ends i (ForReply r) h); try done; apply Hi|].
    destruct (success_notice _ _) as [n|e].
    + apply (inv_goes_on i (ForReply r) (ForRefresh r) h); try done; destruct r; try done.
      all: try (split; apply NoDup_nil_2); try apply Hi.
    + rewrite set_calls_nil. apply (inv_ends i (ForReply r) h); try done; apply Hi.
  - rewrite set_calls_nil. apply (inv_ends i (ForReply r) h); try done; apply Hi.
Qed.

Lemma inv_refreshed i r e h :
  inv h → calls h !! i = Some (ForRefresh r) →
  inv (on_refreshed r e (set_calls (without i (calls h)) h)).
Proof.
  intros Hi Hw. unfold on_refreshed.
  apply (inv_ends i (ForRefresh r) h); try done; destruct e; try done; apply Hi.
Qed.

Lemma inv_hook_step e h h' : inv h → step e h = Ok h' → inv h'.
Proof.
  intros Hi. destruct e; cbn [step].
  - by apply inv_open.
  - intros [= <-]. by apply inv_close.
  - intros [= <-]. by apply inv_apply.
  - intros [= <-]. unfold applyAllUpstreamUpdates. destruct (inFlight h KApplyAll) eqn:Ef.
    + by apply inv_notify.
    + by apply (inv_start ApplyAll).
  - intros [= <-]. unfold detectChannelUpstreamUpdates. destruct (inFlight h KDetect) eqn:Ef.
    + by apply inv_notify.
    + case_match; [done|]. by apply (inv_start (Detect _)).
  - intros [= <-]. unfold detectAllUpstreamUpdates. destruct (inFlight h KDetectAll) eqn:Ef.
    + by apply inv_notify.
    + by apply (inv_start DetectAll).
  - destruct (calls h !! i) as [[r|r]|] eqn:Ew; [|by intros [= <-]..].
    pose proof (inv_reply i r o h Hi Ew) as Hr. destruct (on_reply _ _ _) as [h1 w].
    by intros [= <-].
  - destruct (calls h !! i) as [[r|r]|] eqn:Ew; [by intros [= <-]| |by intros [= <-]].
    intros [= <-]. by apply inv_refreshed.
Qed.

Lemma reachable_calls h : reachable h → inv h.
Proof.
  induction 1 as [|e h h' _ IH Hs]; [|by eapply inv_hook_step].
  split; [done|done|]. split; apply NoDup_nil_2.
Qed.

(** C18: however clicks, replies and refreshes interleave, at most one call of each
    kind is running; its guard is set exactly while it is, and so is its
    loading flag. *)
Theorem single_flight h k :
  reachable h →
  (length (running k (calls h)) ≤ 1)%nat ∧
  (inFlight h k = true ↔ running k (calls h) ≠ []) ∧
  (k ≠ KDetect → loading h k = inFlight h k).
Proof.
  intros [Hi Hl _]%reachable_calls. pose proof (Hi k) as Hk.
  destruct (running k (calls h)) as [|w ws], (inFlight h k) eqn:Ef; simpl in Hk; try lia;
    (split; [simpl; lia|]; split; [done|]); rewrite <- Ef; apply Hl.
Qed.

(** when the operator applies a selection, every model that was offered is
    decided on: it is sent as added or as ignored, never as both, nothing else
    is ignored, and no list names a model twice. *)
Theorem offered_models_decided add rem h id a ig rm :
  reachable h →
  calls (applyUpstreamUpdates add rem h) = calls h ++ [ForReply (Apply id a ig rm)] →
  NoDup a ∧ NoDup ig ∧ NoDup rm ∧
  (∀ m, m ∈ ig ↔ m ∈ upstreamUpdateAddModels h ∧ m ∉ a) ∧
  truthy id = true ∧ get_opt (upstreamUpdateChannel h) (u "id") = id.
Proof.
  intros [_ _ [Hm _]]%reachable_calls. unfold applyUpstreamUpdates.
  assert (Hne : ∀ w, calls h ≠ calls h ++ [w]).
  { intros w Hw%(f_equal length). rewrite length_app in Hw. simpl in Hw. lia. }
  destruct (inFlight h KApply); [by intros ?%Hne|].
  destruct (truthy (get_opt _ _)) eqn:Et; cbn [negb]; [|by intros ?%Hne].
  unfold apply_request. cbn [upstreamUpdateChannel set_flags upstreamUpdateAddModels].
  unfold get_opt in *. destruct (get _ (u "id")) as [id'|] eqn:Eid; [cbn [rbind]|by intros ?%Hne].
  destruct (normalizeModelList add) as [a'|] eqn:Ea; cbn [rbind]; [|by intros ?%Hne].
  destruct (normalizeModelList rem) as [r'|] eqn:Er; cbn [rbind]; [|by intros ?%Hne].
  cbn [calls send set_calls]. intros [_ Hq]%app_inj_tail_iff.
  assert (id' = id ∧ a' = a ∧ r' = rm ∧
          List.filter (λ m, negb (bool_decide (m ∈ a'))) (upstreamUpdateAddModels h) = ig)
    as (-> & -> & -> & <-) by (split_and!; congruence).
  split; [by eapply normalize_NoDup|].
  split; [by eapply sublist_NoDup; [|apply filter_sublist_of]|].
  split; [by eapply normalize_NoDup|]. split; [|done].
  intros m. rewrite elem_of_filter_bool, negb_true_iff, bool_decide_eq_false. done.
Qed.

Fixpoint run (es : list event) (h : hook) : res hook :=
  match es with
  | [] => Ok h
  | e :: es => let! h := step e h in run es h
  end.

Lemma running_lookup k ws : running k ws ≠ [] → ∃ i w, ws !! i = Some w ∧ wait_kind w = k.
Proof.
  intros Hne. destruct (running k ws) as [|w r] eqn:E; [done|].
  assert (w ∈ running k ws) as Hw by (rewrite E; apply list_elem_of_here).
  apply elem_of_filter_bool in Hw as [[i Hi]%list_elem_of_lookup Hk%bool_decide_eq_true]. eauto.
Qed.

(** Exactly the guard of [k] is released. *)
Definition releases (k : kind) (h h' : hook) : Prop :=
  inFlight h' k = false ∧ ∀ k', k' ≠ k → inFlight h' k' = inFlight h k'.

Lemma releases_finish k h h' : inFlight h' = inFlight h → releases k h (finish k h').
Proof.
  intros Hf. split; simpl; [by rewrite decide_True|]. intros k' Hk'. by rewrite decide_False, Hf.
Qed.

Lemma refreshed_releases i r e h :
  calls h !! i = Some (ForRefresh r) →
  ∃ h', step (ERefreshed i e) h = Ok h' ∧ releases (kind_of r) h h'.
Proof.
  intros Hw. cbn [step]. rewrite Hw. eexists. split; [done|]. apply releases_finish. by destruct e.
Qed.

(** After its reply a call has ended, or waits for the refresh. *)
Lemma reply_releases i r o h :
  calls h !! i = Some (ForReply r) →
  ∃ h', step (EReply i o) h = Ok h' ∧
    (releases (kind_of r) h h' ∨
     ∃ j, calls h' !! j = Some (ForRefresh r) ∧ inFlight h' = inFlight h).
Proof.
  intros Hw. cbn [step]. rewrite Hw. unfold on_reply. destruct o as [body|server message].
  - destruct (negb _).
    { eexists. split; [done|]. left. rewrite set_calls_nil. by apply releases_finish. }
    destruct (success_notice _ _) as [n|e].
    + eexists. split; [done|]. right.
      set (h1 := match r with Apply _ _ _ _ => _ | _ => _ end).
      exists (length (calls h1)). cbn [calls set_calls]. split.
      * by rewrite lookup_app_r, Nat.sub_diag by done.
      * subst h1. by destruct r.
    + eexists. split; [done|]. left. rewrite set_calls_nil. by apply releases_finish.
  - eexists. split; [done|]. left. rewrite set_calls_nil. by apply releases_finish.
Qed.

(** C28: whatever the server answers and however the refresh ends, a running call
    ends after at most these two events, which release its guard and no other:
    no error leaves a button blocked. *)
Theorem call_ends h k o e :
  reachable h → inFlight h k = true →
  ∃ es h', Forall (λ ev, ∃ i, ev = EReply i o ∨ ev = ERefreshed i e) es ∧ (length es ≤ 2)%nat ∧
    run es h = Ok h' ∧ releases k h h'.
Proof.
  intros [Hi _ _]%reachable_calls Hf. pose proof (Hi k) as Hk. rewrite Hf in Hk.
  destruct (running_lookup k (calls h)) as (i & w & Hw & <-); [by intros E; rewrite E in Hk|].
  destruct w as [r|r].
  - destruct (reply_releases i r o h Hw) as (h1 & Hs & [Hr|(j & Hj & Hf1)]).
    + exists [EReply i o], h1. split; [by repeat constructor; eauto|]. split; [simpl; lia|].
      cbn [run]. by rewrite Hs.
    + destruct (refreshed_releases j r e h1 Hj) as (h2 & Hs2 & Hr).
      exists [EReply i o; ERefreshed j e], h2. split; [by repeat constructor; eauto|].
      split; [simpl; lia|]. cbn [run]. rewrite Hs. cbn [rbind]. rewrite Hs2. split; [done|].
      unfold releases in *. by rewrite <- Hf1.
  - destruct (refreshed_releases i r e h Hw) as (h1 & Hs & Hr).
    exists [ERefreshed i e], h1. split; [by repeat constructor; eauto|]. split; [simpl; lia|].
    cbn [run]. by rewrite Hs.
Qed.

(** A reply to [applyUpstreamUpdates] closes whatever dialog is open when it
    arrives: cancelled during the request and opened for another channel, the
    dialog of that channel is closed and its selection is lost. *)
Theorem reply_closes_other_dialog i id a ig rm body h n :
  calls h !! i = Some (ForReply (Apply id a ig rm)) →
  truthy (get_opt (v_or body (VObj [])) (u "success")) = true →
  success_notice (Apply id a ig rm) (get_opt (v_or body (VObj [])) (u "data")) = Ok n →
  ∃ h', step (EReply i (Replied body)) h = Ok h' ∧ showUpstreamUpdateModal h' = false ∧
        upstreamUpdateAddModels h' = [].
Proof.
  intros Hw Hs Hn. cbn [step]. rewrite Hw. unfold on_reply. rewrite Hs, Hn. cbn [negb kind_of].
  by eexists.
Qed.
End session.

(** ** Examples *)

Definition models_val (l : list jstr) : val := VArr (map VStr l).
Definition channel_of (id : Z) : val := VObj [(u "id", VNum (of_Z id))].

(** The operator opens the dialog for two models and applies one of them. *)
Definition offered : val := models_val [u "m1"; u " m2"; u "m1"].
Definition opened_hook : hook :=
  rcatch (@step plain_env (EOpen (channel_of 7) offered VUndef VUndef) hook0) hook0.
Definition applied_hook : hook :=
  @applyUpstreamUpdates plain_env (models_val [u "m2"]) VUndef opened_hook.

Lemma normalize_models_exact_witness :
  NoDup [u "m1"; u "m2"] ∧
  normalizeModelList (VArr (map VStr [u "m1"; u "m2"])) = Ok [u "m1"; u "m2"].
Proof.
  assert (Hn : normalizeModelList offered = Ok [u "m1"; u "m2"]) by (vm_compute; reflexivity).
  destruct (normalize_models_exact offered [u "m1"; u "m2"] Hn) as (H1 & _ & H2). split; assumption.
Defined.

Lemma opened_hook_step :
  @step plain_env (EOpen (channel_of 7) offered VUndef VUndef) hook0 = Ok opened_hook.
Proof. reflexivity. Qed.
Lemma opened_hook_reachable : @reachable plain_env opened_hook.
Proof. eapply reach_step; [apply reach_start|exact opened_hook_step]. Qed.
Lemma applied_hook_reachable : @reachable plain_env applied_hook.
Proof.
  eapply (@reach_step plain_env (EApply (models_val [u "m2"]) VUndef)); [exact opened_hook_reachable|].
  reflexivity.
Qed.

Lemma single_flight_witness :
  (length (running KApply (calls applied_hook)) ≤ 1)%nat ∧
  (inFlight applied_hook KApply = true ↔ running KApply (calls applied_hook) ≠ []) ∧
  (KApply ≠ KDetect → loading applied_hook KApply = inFlight applied_hook KApply).
Proof. exact (@single_flight plain_env applied_hook KApply applied_hook_reachable). Defined.

Lemma applied_calls :
  calls (@applyUpstreamUpdates plain_env (models_val [u "m2"]) VUndef opened_hook) =
  calls opened_hook ++ [ForReply (Apply (VNum (of_Z 7)) [u "m2"] [u "m1"] [])].
Proof. vm_compute. reflexivity. Qed.

Lemma offered_models_decided_witness :
  NoDup [u "m2"] ∧ NoDup [u "m1"] ∧
  (∀ m, m ∈ [u "m1"] ↔ m ∈ upstreamUpdateAddModels opened_hook ∧ m ∉ [u "m2"]).
Proof.
  destruct (@offered_models_decided plain_env (models_val [u "m2"]) VUndef opened_hook
              (VNum (of_Z 7)) [u "m2"] [u "m1"] [] opened_hook_reachable applied_calls)
    as (H1 & H2 & _ & H3 & _).
  split; [exact H1|]. split; [exact H2|exact H3].
Defined.

Lemma applied_in_flight : inFlight applied_hook KApply = true.
Proof. vm_compute. reflexivity. Qed.

Lemma call_ends_witness :
  inFlight applied_hook KApply = true ∧
  ∃ es h', Forall (λ ev, ∃ i, ev = EReply i (Rejected VUndef (u "timeout")) ∨ ev = ERefreshed i None) es ∧
    (length es ≤ 2)%nat ∧ @run plain_env es applied_hook = Ok h' ∧ releases KApply applied_hook h'.
Proof.
  split; [exact applied_in_flight|].
  exact (@call_ends plain_env applied_hook KApply (Rejected VUndef (u "timeout")) None
           applied_hook_reachable applied_in_flight).
Defined.
