(* ===== verification/Quota.v ===== *)
(** * Quotas as amounts of money (helpers/quota.js, helpers/render.jsx)

    The server counts in quota units; the console shows and takes amounts in the
    currency the operator has chosen.  The settings are in local storage:
    [quota_per_unit], [quota_display_type], and the exchange rates inside
    [status].  Besides the two conversions the file models the quota texts of
    [render.jsx] and the two forms that edit a quota as an amount: the limit of
    a team member (pages/Team/TeamDetail.jsx) and the total of a subscription
    plan (components/table/subscriptions/modals/AddEditSubscriptionModal.jsx). *)

From Stdlib Require Import QArith Qround Qpower Lqa.
From S2P Require Import Prelude JsString JsNumber JsRounding JsValue Json Browser.

Local Open Scope Z_scope.

Definition USD : jstr := u "USD".
Definition CNY : jstr := u "CNY".
Definition CUSTOM : jstr := u "CUSTOM".
Definition TOKENS : jstr := u "TOKENS".

Definition one : num := of_Z 1.

(** [localStorage.getItem('quota_display_type') || 'USD'] *)
Definition getQuotaDisplayType (st : storage) : jstr :=
  match getItem st (u "quota_display_type") with
  | VStr s => if nonempty s then s else USD
  | _ => USD
  end.

(** [JSON.parse(statusStr)] where [status] is set; [None] where it is not, or is
    not JSON *)
Definition stored_status (st : storage) : option val :=
  match getItem st (u "status") with
  | VStr s => if nonempty s then match JSON_parse s with Ok v => Some v | Throw _ => None end else None
  | _ => None
  end.

Record currency := { c_symbol : val; c_rate : val; c_type : jstr }.

Definition getCurrencyConfig (st : storage) : currency :=
  let type := getQuotaDisplayType st in
  if type =s CNY then
    {| c_symbol := VStr (u "¥");
       c_rate := match stored_status st with
                 | Some s => v_or (get_opt s (u "usd_exchange_rate")) (VNum (of_Z 7))
                 | None => VNum one
                 end;
       c_type := type |}
  else if type =s CUSTOM then
    match stored_status st with
    | Some s =>
      {| c_symbol := v_or (get_opt s (u "custom_currency_symbol")) (VStr (u "¤"));
         c_rate := v_or (get_opt s (u "custom_currency_exchange_rate")) (VNum one); c_type := type |}
    | None => {| c_symbol := VStr (u "$"); c_rate := VNum one; c_type := type |}
    end
  else {| c_symbol := VStr (u "$"); c_rate := VNum one; c_type := type |}.

(** ** helpers/quota.js *)

Definition getQuotaPerUnit (st : storage) : num :=
  let raw := parseFloat (match getItem st (u "quota_per_unit") with
                         | VStr s => if nonempty s then s else u "1"
                         | _ => u "1"
                         end) in
  if isFinite raw && ngtb raw nzero then raw else one.

Definition quotaToDisplayAmount (st : storage) (quota : val) : res num :=
  let! q := to_num (v_or quota (VNum nzero)) in
  if negb (isFinite q) || nleb q nzero then Ok nzero else
  let c := getCurrencyConfig st in
  if c_type c =s TOKENS then Ok q else
  let usd := ndiv q (getQuotaPerUnit st) in
  if c_type c =s USD then Ok usd else
  let! rate := to_num (v_or (c_rate c) (VNum one)) in
  Ok (nmul usd rate).

Definition displayAmountToQuota (st : storage) (amount : val) : res num :=
  let! v := to_num (v_or amount (VNum nzero)) in
  if negb (isFinite v) || nleb v nzero then Ok nzero else
  let c := getCurrencyConfig st in
  if c_type c =s TOKENS then Ok (math_round v) else
  let! usd := if c_type c =s USD then Ok v
              else rmap (ndiv v) (to_num (v_or (c_rate c) (VNum one))) in
  Ok (math_round (nmul usd (getQuotaPerUnit st))).

(** ** The limit of a team member (TeamDetail.jsx) *)

(** [openQuotaModal]: the amount the dialog starts with *)
Definition opened_amount (st : storage) (currentLimitQuota : val) : res num :=
  let! limit := to_num currentLimitQuota in
  if ngtb limit nzero then quotaToDisplayAmount st currentLimitQuota else Ok nzero.

(** [handleSaveQuota]: the limit that is sent *)
Definition saved_limit (st : storage) (quotaAmount : val) : res num :=
  let! amount := to_num quotaAmount in
  if ngtb amount nzero then displayAmountToQuota st quotaAmount else Ok nzero.

(** ** The total of a subscription plan (AddEditSubscriptionModal.jsx) *)

(** [Number(quotaToDisplayAmount(p.total_amount || 0).toFixed(2))], and what
    [submit] sends for it *)
Definition form_total (st : storage) (total_amount : val) : res num :=
  rmap (λ x, Number (toFixed 2 x)) (quotaToDisplayAmount st (v_or total_amount (VNum nzero))).
Definition submitted_total (st : storage) (total : val) : res num := displayAmountToQuota st total.

(** ** Quota texts of render.jsx *)

(** [parseFloat(localStorage.getItem('quota_per_unit'))]; of [null] it reads the
    text null. *)
Definition stored_quota_per_unit (st : storage) : num :=
  parseFloat (match getItem st (u "quota_per_unit") with VStr s => s | _ => u "null" end).

Definition renderNumber (x : num) : val :=
  if ngeb x (of_Z 1000000000) then VStr (toFixed 1 (ndiv x (of_Z 1000000000)) ++ u "B")
  else if ngeb x (of_Z 1000000) then VStr (toFixed 1 (ndiv x (of_Z 1000000)) ++ u "M")
  else if ngeb x (of_Z 10000) then VStr (toFixed 1 (ndiv x (of_Z 1000)) ++ u "k")
  else VNum x.

(** The symbol of a custom currency, [¤] without one *)
Definition custom_symbol (st : storage) : val :=
  match stored_status st with
  | Some s => v_or (get_opt s (u "custom_currency_symbol")) (VStr (u "¤"))
  | None => VStr (u "¤")
  end.

Definition renderQuotaNumberWithDigit (st : storage) (x : num) (digits : Z) : res val :=
  if isNaN x then Ok (VNum nzero) else
  let type := getQuotaDisplayType st in
  let text := toFixed digits x in
  if type =s CNY then Ok (VStr (u "¥" ++ text))
  else if type =s USD then Ok (VStr (u "$" ++ text))
  else if type =s CUSTOM then js_add (custom_symbol st) (VStr text)
  else Ok (VStr text).

Definition renderUnitWithQuota (st : storage) (quota : jstr) : num :=
  nmul (stored_quota_per_unit st) (parseFloat quota).

Definition getQuotaWithUnit (st : storage) (quota : num) (digits : Z) : jstr :=
  toFixed digits (ndiv quota (stored_quota_per_unit st)).

Definition renderQuotaWithAmount (st : storage) (amount : val) : res val :=
  let type := getQuotaDisplayType st in
  if type =s TOKENS then rmap (λ s, renderNumber (renderUnitWithQuota st s)) (to_str amount) else
  let! numericAmount := to_num amount in
  let formattedAmount := if isFinite numericAmount then VStr (toFixed 2 numericAmount) else amount in
  if type =s CNY then js_add (VStr (u "¥")) formattedAmount
  else if type =s CUSTOM then js_add (custom_symbol st) formattedAmount
  else js_add (VStr (u "$")) formattedAmount.

Definition convertUSDToCurrency (st : storage) (usdAmount : num) (digits : Z) : res val :=
  let c := getCurrencyConfig st in
  let! rate := to_num (c_rate c) in
  js_add (c_symbol c) (VStr (toFixed digits (nmul usdAmount rate))).

(** The symbol and the amount [renderQuota] shows *)
Definition quota_amount (st : storage) (quota : num) : res (val * num) :=
  let type := getQuotaDisplayType st in
  let resultUSD := ndiv quota (stored_quota_per_unit st) in
  if type =s CNY then
    let usdRate := match stored_status st with
                   | Some s => v_or (get_opt s (u "usd_exchange_rate")) (VNum one)
                   | None => VNum one
                   end in
    let! rate := to_num usdRate in
    Ok (VStr (u "¥"), nmul resultUSD rate)
  else if type =s CUSTOM then
    let! rate := to_num (match stored_status st with
                         | Some s => v_or (get_opt s (u "custom_currency_exchange_rate")) (VNum one)
                         | None => VNum one
                         end) in
    Ok (custom_symbol st, nmul resultUSD rate)
  else Ok (VStr (u "$"), resultUSD).

(** [Math.pow(10, -digits)] *)
Definition least_amount (digits : Z) : num := dec_to_num false 1 (- digits).

Definition renderQuota (st : storage) (quota : num) (digits : Z) : res val :=
  if getQuotaDisplayType st =s TOKENS then Ok (renderNumber quota) else
  let! (symbol, value) := quota_amount st quota in
  let fixedResult := toFixed digits value in
  if neqb (parseFloat fixedResult) nzero && ngtb quota nzero && ngtb value nzero
  then js_add symbol (VStr (toFixed digits (least_amount digits)))
  else js_add symbol (VStr fixedResult).

(** ** An amount is read back as the quota it shows *)

(** The settings: a quota per unit and an exchange rate that are positive and
    not astronomical *)
Definition sane (st : storage) : Prop :=
  ∃ p r y, exactly p (getQuotaPerUnit st) ∧ bounded 100 p ∧
           to_num (v_or (c_rate (getCurrencyConfig st)) (VNum one)) = Ok y ∧
           exactly r y ∧ bounded 100 r.

Lemma mag_pos m e : (0 < mag m e)%Q → 0 < m.
Proof.
  intros Hm. destruct (Z.lt_ge_cases 0 m) as [|Hle]; [done|]. exfalso.
  assert (mag m e <= 0)%Q; [|lra]. unfold mag.
  assert (inject_Z m * (2 # 1) ^ e <= 0 * (2 # 1) ^ e)%Q; [|lra].
  apply Qmult_le_compat_r; [by rewrite Zle_Qle in Hle|apply Qpow_nonneg].
Qed.

(** What the guards test of such a number *)
Lemma positive_tests m e :
  (0 < mag m e)%Q →
  truthy (VNum (Fin false m e)) = true ∧ ngtb (Fin false m e) nzero = true ∧
  nleb (Fin false m e) nzero = false.
Proof.
  intros Hm. pose proof (mag_pos m e Hm).
  assert (Hc : ncompare (Fin false m e) nzero = Some Gt).
  { cbn [ncompare nzero to_q]. f_equal. apply Qgt_alt.
    assert (mag 0 emin == 0)%Q as -> by (unfold mag; change (inject_Z 0) with 0%Q; ring). done. }
  assert (Hc' : ncompare nzero (Fin false m e) = Some Lt) by (by rewrite ncompare_antisym, Hc).
  split_and!.
  - simpl. by rewrite (proj2 (Z.eqb_neq m 0)) by lia.
  - unfold ngtb, nltb. by rewrite Hc'.
  - unfold nleb, nltb, neqb. by rewrite Hc.
Qed.

Lemma approx_positive d q k x :
  0 ≤ k → (d <= 1 # 2)%Q → bounded k q → approx d q x →
  truthy (VNum x) = true ∧ ngtb x nzero = true ∧ nleb x nzero = false ∧ isFinite x = true.
Proof.
  intros Hk Hd Hb (m & e & -> & Hn). pose proof (bounded_near k d q _ Hk Hd Hb Hn) as Hb'.
  destruct (positive_tests m e (bounded_pos (k + 1) _ ltac:(lia) Hb')) as (? & ? & ?). done.
Qed.

Lemma of_Z_approx z : 0 < z < 2 ^ 53 → approx 0 (inject_Z z) (of_Z z).
Proof.
  intros Hz. destruct (of_Z_small z ltac:(lia)) as (m & e & -> & _ & Hm).
  rewrite (proj2 (Z.ltb_ge z 0)) by lia. exists m, e. split; [done|].
  rewrite Z.abs_eq in Hm by lia. unfold near. rewrite Hm. lra.
Qed.

Lemma small_bounded z k : 0 < z ≤ 2 ^ k → 0 ≤ k → bounded k (inject_Z z).
Proof.
  intros Hz Hk. split; [|rewrite <- Zle_Qle; lia].
  rewrite <- inject_Z_mult. change 1%Q with (inject_Z 1). rewrite <- Zle_Qle. nia.
Qed.

(** The error after [n] operations *)
Fixpoint error_after (n : nat) : Q := match n with O => 0 | S n => more (error_after n) end.

Lemma error_small n : (n ≤ 4)%nat → (0 <= error_after n <= 1 # 2)%Q.
Proof. intros Hn. do 5 (destruct n as [|n]; [by split|]). lia. Qed.

Lemma error_rounds z : 0 < z ≤ 2 ^ 49 → (inject_Z z * error_after 4 < 1 # 2)%Q.
Proof.
  intros Hz. assert (inject_Z z <= inject_Z (2 ^ 49))%Q by (rewrite <- Zle_Qle; lia).
  apply Qle_lt_trans with (inject_Z (2 ^ 49) * error_after 4)%Q; [|done].
  apply Qmult_le_compat_r; [done|]. by apply error_small.
Qed.

Lemma near_weaken d d' q x : (d <= d' -> 0 <= q -> near d q x -> near d' q x)%Q.
Proof.
  intros Hd Hq [H1 H2]. assert (q * d <= q * d')%Q by (rewrite !(Qmult_comm q); by apply Qmult_le_compat_r).
  split; lra.
Qed.

Lemma rounds_back n z x :
  (n ≤ 4)%nat → 0 < z ≤ 2 ^ 49 → approx (error_after n) (inject_Z z) x → math_round x = of_Z z.
Proof.
  intros Hn Hz (m & e & -> & Hx). apply (math_round_approx (error_after 4)); [lia|by apply error_rounds|].
  exists m, e. split; [done|]. apply near_weaken with (error_after n); [|change 0%Q with (inject_Z 0); rewrite <- Zle_Qle; lia|done].
  do 5 (destruct n as [|n]; [done|]). lia.
Qed.

Lemma amount_tests n q k x :
  (n ≤ 4)%nat → 0 ≤ k → bounded k q → approx (error_after n) q x →
  truthy (VNum x) = true ∧ ngtb x nzero = true ∧ nleb x nzero = false ∧ isFinite x = true.
Proof. intros Hn Hk. apply approx_positive; [done|]. by apply error_small. Qed.

Ltac side := first [done|lia|by apply error_small].

(** The amount shown for a quota, and that it is read back *)
Lemma quota_amount_back st z :
  sane st → 0 < z ≤ 2 ^ 49 →
  ∃ x, quotaToDisplayAmount st (VNum (of_Z z)) = Ok x ∧ ngtb x nzero = true ∧
       displayAmountToQuota st (VNum x) = Ok (of_Z z).
Proof.
  intros (p & r & y & Hp & Hbp & Hy & Hr & Hbr) Hz.
  assert (Ha0 : approx (error_after 0) (inject_Z z) (of_Z z)) by (apply of_Z_approx; lia).
  assert (Hbz : bounded 49 (inject_Z z)) by (apply small_bounded; lia).
  assert (Hpne : (~ p == 0)%Q) by (pose proof (bounded_pos 100 p ltac:(lia) Hbp); lra).
  assert (Hrne : (~ r == 0)%Q) by (pose proof (bounded_pos 100 r ltac:(lia) Hbr); lra).
  destruct (amount_tests 0 _ 49 _ ltac:(lia) ltac:(lia) Hbz Ha0) as (Ht & Hg & Hl & Hf).
  assert (Ha1 : approx (error_after 1) (inject_Z z / p) (ndiv (of_Z z) (getQuotaPerUnit st))).
  { apply (ndiv_approx _ _ 49 p 100); side. }
  assert (Hb1 : bounded 149 (inject_Z z / p)) by (apply (bounded_mul 49 100); side || by apply bounded_inv).
  unfold quotaToDisplayAmount. unfold v_or at 1. rewrite Ht. cbn [to_num rbind]. rewrite Hf, Hl.
  cbn [negb orb]. set (c := getCurrencyConfig st) in *.
  destruct (bool_decide_reflect (c_type c = TOKENS)) as [HT|HT].
  { exists (of_Z z). split; [done|]. split; [done|].
    unfold displayAmountToQuota, v_or at 1. rewrite Ht. cbn [to_num rbind]. rewrite Hf, Hl.
    cbn [negb orb]. fold c. rewrite bool_decide_eq_true_2 by done. f_equal.
    apply (rounds_back 0); side. }
  destruct (bool_decide_reflect (c_type c = USD)) as [HU|HU].
  { eexists. split; [done|]. set (x := ndiv _ _) in *.
    destruct (amount_tests 1 _ 149 _ ltac:(lia) ltac:(lia) Hb1 Ha1) as (Ht1 & Hg1 & Hl1 & Hf1).
    split; [done|]. unfold displayAmountToQuota, v_or at 1. rewrite Ht1. cbn [to_num rbind].
    rewrite Hf1, Hl1. cbn [negb orb]. fold c. rewrite bool_decide_eq_false_2 by done.
    rewrite bool_decide_eq_true_2 by done. cbn [rbind]. f_equal. apply (rounds_back 2); [lia|done|].
    assert (inject_Z z == inject_Z z / p * p)%Q as -> by by field.
    apply (nmul_approx _ _ 149 p 100); side. }
  rewrite Hy. cbn [rbind]. eexists. split; [done|].
  assert (Ha2 : approx (error_after 2) (inject_Z z / p * r) (nmul (ndiv (of_Z z) (getQuotaPerUnit st)) y)).
  { apply (nmul_approx _ _ 149 r 100); side. }
  assert (Hb2 : bounded 249 (inject_Z z / p * r)) by (apply (bounded_mul 149 100); side).
  set (x := nmul _ y) in *.
  destruct (amount_tests 2 _ 249 _ ltac:(lia) ltac:(lia) Hb2 Ha2) as (Ht2 & Hg2 & Hl2 & Hf2).
  split; [done|]. unfold displayAmountToQuota, v_or at 1. rewrite Ht2. cbn [to_num rbind].
  rewrite Hf2, Hl2. cbn [negb orb]. fold c. rewrite !bool_decide_eq_false_2 by done.
  rewrite Hy. cbn [rmap rbind]. f_equal. apply (rounds_back 4); [lia|done|].
  assert (inject_Z z == inject_Z z / p * r / r * p)%Q as -> by (field; split; done).
  apply (nmul_approx _ _ 349 p 100); try side.
  - apply (bounded_mul 249 100); side || by apply bounded_inv.
  - apply (ndiv_approx _ _ 249 r 100); side.
Qed.

(** C8: opening the dialog for the limit of a team member and saving it without a
    change sends the limit that was there, in every currency: the four
    roundings on the way never add up to half a unit of quota. *)
Theorem limit_unchanged st z :
  sane st → 0 ≤ z ≤ 2 ^ 49 →
  ∃ x, opened_amount st (VNum (of_Z z)) = Ok x ∧ saved_limit st (VNum x) = Ok (of_Z z).
Proof.
  intros Hs Hz. destruct (decide (z = 0)) as [->|Hne]; [by exists nzero|].
  destruct (quota_amount_back st z Hs ltac:(lia)) as (x & Hx & Hg & Hback). exists x.
  unfold opened_amount, saved_limit. cbn [to_num rbind]. rewrite Hg, Hx, Hback.
  assert (ngtb (of_Z z) nzero = true) as ->; [|done].
  change nzero with (of_Z 0). unfold ngtb. rewrite nltb_of_Z by (simpl; lia). by apply Z.ltb_lt; lia.
Qed.

(** ** Quotas are counts *)

(** A positive finite number, or one that is also infinite *)
Definition positive (x : num) : Prop := ∃ m e, x = Fin false m e ∧ 0 < m.
Definition nonneg (x : num) : Prop := x = Inf false ∨ ∃ m e, x = Fin false m e ∧ 0 ≤ m.

Lemma to_num_wf v x : val_wf v → to_num v = Ok x → num_wf x.
Proof.
  intros Hv. destruct v as [| |b|n|s|l|o|f]; cbn [to_num].
  - by intros <-%Ok_inj.
  - intros <-%Ok_inj. apply (of_Z_wf 0).
  - intros <-%Ok_inj. destruct b; [apply (of_Z_wf 1)|apply (of_Z_wf 0)].
  - intros <-%Ok_inj. by inversion_clear Hv.
  - intros <-%Ok_inj. apply Number_wf.
  - destruct (to_str _); cbn [rmap]; [|done]. intros <-%Ok_inj. apply Number_wf.
  - destruct (to_str _); cbn [rmap]; [|done]. intros <-%Ok_inj. apply Number_wf.
  - by intros <-%Ok_inj.
Qed.

Lemma mag_nonneg m e : 0 ≤ m → (0 <= mag m e)%Q.
Proof.
  intros Hm. apply Qmult_le_0_compat; [by rewrite Zle_Qle in Hm|apply Qpow_nonneg].
Qed.

Lemma positive_above x : num_wf x → isFinite x = true → nleb x nzero = false → positive x.
Proof.
  destruct x as [|s|s m e]; try done. intros [Hm _] _ Hl. unfold nleb, nltb, neqb in Hl.
  apply orb_false_iff in Hl as [Hlt%bool_decide_eq_false Heq%bool_decide_eq_false].
  cbn [ncompare nzero] in *.
  assert (Hz : (mag 0 emin == 0)%Q) by (unfold mag; change (inject_Z 0) with 0%Q; ring).
  pose proof (mag_nonneg m e ltac:(lia)) as Hmag.
  assert (Hgt : (0 < to_q s m e)%Q).
  { destruct (Qcompare_spec (to_q s m e) (to_q false 0 emin)) as [E|E|E]; [done|done|].
    unfold to_q at 1 in E. by rewrite Hz in E. }
  destruct s; unfold to_q in Hgt; [lra|]. exists m, e. split; [done|]. by apply mag_pos in Hgt.
Qed.

Lemma per_unit_positive st : positive (getQuotaPerUnit st).
Proof.
  unfold getQuotaPerUnit. set (raw := parseFloat _). destruct (isFinite raw) eqn:Ef; cbn [andb].
  - destruct (ngtb raw nzero) eqn:Eg; [|by eexists _, _].
    apply positive_above; [apply parseFloat_wf|done|].
    unfold ngtb, nltb in Eg. apply bool_decide_eq_true in Eg.
    rewrite ncompare_antisym in Eg. unfold nleb, nltb, neqb.
    destruct (ncompare raw nzero) as [[]|]; simpl in Eg; try done.
  - by eexists _, _.
Qed.

Lemma round_q_nonneg q : (0 <= q)%Q → nonneg (round_q false q).
Proof.
  intros Hq. pose proof (round_q_wf false q Hq) as Hwf. unfold round_q, round_nd in *.
  destruct (Qnum (Qred q) =? 0); [by right; eexists _, _|]. cbv zeta in *.
  match goal with |- context [let '(_, _) := ?p in _] => destruct p as [m e] end.
  destruct (emax <? e); [by left|]. right. eexists _, _. split; [done|]. destruct Hwf. lia.
Qed.

Lemma nmul_nonneg x y : nonneg x → positive y → nonneg (nmul x y).
Proof.
  intros Hx (n & f & -> & Hn). destruct Hx as [->|(m & e & -> & Hm)].
  - left. cbn [nmul]. by rewrite (proj2 (Z.eqb_neq n 0)) by lia.
  - apply round_q_nonneg, Qmult_le_0_compat; apply mag_nonneg; lia.
Qed.

Lemma ndiv_nonneg x y : positive x → positive y → nonneg (ndiv x y).
Proof.
  intros (m & e & -> & Hm) (n & f & -> & Hn). cbn [ndiv]. rewrite (proj2 (Z.eqb_neq n 0)) by lia.
  apply round_q_nonneg. apply Qmult_le_0_compat; [apply mag_nonneg; lia|].
  apply Qinv_le_0_compat, mag_nonneg. lia.
Qed.

(** A count: a non-negative integer, unless the number has overflowed *)
Definition is_count (x : num) : Prop := x = Inf false ∨ ∃ z, 0 ≤ z ∧ to_integer x = Some z.

Lemma of_Z_count z : 0 ≤ z → is_count (of_Z z).
Proof.
  intros Hz. destruct (Z.lt_ge_cases z (2 ^ 53)) as [Hlt|Hge].
  { right. exists z. split; [done|]. by apply to_integer_of_Z. }
  pose proof (of_Z_wf z) as Hwf. unfold of_Z in *. rewrite (proj2 (Z.ltb_ge z 0)), Z.abs_eq in * by done.
  destruct (round_big z Hge) as [->|(m & e & Hq & Hm)]; [by left|]. right. rewrite Hq in Hwf |- *.
  destruct Hwf as (Hm53 & _ & _).
  assert (He : 0 ≤ e).
  { apply Z.nlt_ge. intros He. assert (mag m e <= inject_Z m)%Q.
    { unfold mag. rewrite <- (Qmult_1_r (inject_Z m)) at 2. rewrite !(Qmult_comm (inject_Z m)).
      apply Qmult_le_compat_r; [|change 0%Q with (inject_Z 0); rewrite <- Zle_Qle; lia].
      replace e with (- (- e)) by lia. rewrite Qpower_opp, Qpow_pos by lia.
      pose proof (pow2_q (- e) ltac:(lia)). apply Qle_shift_inv_r; [done|].
      rewrite Qmult_1_l. change 1%Q with (inject_Z 1). rewrite <- Zle_Qle.
      pose proof (pow2_pos (- e) ltac:(lia)). lia. }
    assert (inject_Z m < inject_Z (2 ^ 53))%Q by (rewrite <- Zlt_Qlt; lia). lra. }
  exists (m * 2 ^ e). split; [pose proof (pow2_pos e He); nia|]. cbn [to_integer].
  by rewrite (proj2 (Z.leb_le 0 e)).
Qed.

Lemma math_round_count x : nonneg x → is_count (math_round x).
Proof.
  intros [->|(m & e & -> & Hm)]; [by left|]. cbn [math_round]. unfold to_q, keep_zero_sign.
  set (z := Qfloor _). assert (Hz : 0 ≤ z).
  { change 0 with (Qfloor 0). apply Qfloor_resp_le. pose proof (mag_nonneg m e Hm). lra. }
  destruct (Z.eqb_spec z 0); [right; by exists 0|]. by apply of_Z_count.
Qed.

(** whatever amount is entered, the quota that is sent is a non-negative
    integer or, beyond the range of numbers, infinite: never negative, never a
    fraction, never not a number. *)
Theorem quota_is_count st amount x rate :
  val_wf amount →
  to_num (v_or (c_rate (getCurrencyConfig st)) (VNum one)) = Ok rate → positive rate →
  displayAmountToQuota st amount = Ok x → is_count x.
Proof.
  intros Hwf Hr Hpos. unfold displayAmountToQuota.
  assert (Hwf' : val_wf (v_or amount (VNum nzero))).
  { unfold v_or. destruct (truthy amount); [done|]. constructor. apply (of_Z_wf 0). }
  destruct (to_num (v_or amount _)) as [v|] eqn:Ev; cbn [rbind]; [|done].
  pose proof (to_num_wf _ _ Hwf' Ev) as Hv.
  destruct (isFinite v) eqn:Ef; cbn [negb orb]; [|intros [= <-]; right; by exists 0].
  destruct (nleb v nzero) eqn:El; [intros [= <-]; right; by exists 0|].
  pose proof (positive_above v Hv Ef El) as Hp.
  assert (Hn : nonneg v) by (destruct Hp as (m & e & -> & ?); right; eexists _, _; split; [done|lia]).
  rewrite Hr. pose proof (per_unit_positive st) as Hu.
  destruct (bool_decide (_ = TOKENS)); [intros [= <-]; by apply math_round_count|].
  destruct (bool_decide (_ = USD)); cbn [rbind rmap]; intros [= <-];
    apply math_round_count, nmul_nonneg; auto using ndiv_nonneg.
Qed.

(** a positive quota is never shown as zero: unless the amount itself is zero,
    the text after the symbol reads as a number other than zero. *)
Theorem renderQuota_not_zero st quota digits symbol value :
  getQuotaDisplayType st ≠ TOKENS → 0 ≤ digits ≤ 20 →
  quota_amount st quota = Ok (symbol, value) → ngtb quota nzero = true → ngtb value nzero = true →
  ∃ s, renderQuota st quota digits = js_add symbol (VStr s) ∧ neqb (parseFloat s) nzero = false.
Proof.
  intros HT Hd Hv Hq Hp. unfold renderQuota. rewrite bool_decide_eq_false_2 by done.
  rewrite Hv. cbn [rbind]. rewrite Hq, Hp, !andb_true_r.
  destruct (neqb (parseFloat (toFixed digits value)) nzero) eqn:E; [|by eexists].
  eexists. split; [done|]. clear -Hd.
  assert (Hall : forallb (λ n, negb (neqb (parseFloat (toFixed (Z.of_nat n) (least_amount (Z.of_nat n)))) nzero))
                   (seq 0 21) = true) by (vm_compute; reflexivity).
  rewrite forallb_forall in Hall. specialize (Hall (Z.to_nat digits)). rewrite Z2Nat.id in Hall by lia.
  apply negb_true_iff, Hall, in_seq. lia.
Qed.

(** ** Examples *)

(** The settings of a fresh installation, and with prices in yuan *)
Definition usd_settings : storage := {[u "quota_per_unit" := u "500000"]}.
Definition cny_settings : storage :=
  <[u "quota_display_type" := CNY]>
    (<[u "status" := uq "{'usd_exchange_rate':7.3}"]> usd_settings).

(** The form for a subscription plan shows two digits after the point.  A total
    of 1000 units is shown as 0, and submitting the form without a change sends
    0, which stands for an unlimited plan; 12345 units become 10000. *)
Theorem plan_total_lost :
  (let! x := form_total usd_settings (VNum (of_Z 1000)) in submitted_total usd_settings (VNum x)) =
    Ok nzero ∧
  (let! x := form_total usd_settings (VNum (of_Z 12345)) in submitted_total usd_settings (VNum x)) =
    Ok (of_Z 10000).
Proof. split; vm_compute; reflexivity. Qed.

(** Without an exchange rate in [status] the two conversions to yuan disagree:
    the forms use 7, [renderQuota] uses 1. *)
Theorem yuan_rates_differ :
  let st := <[u "quota_display_type" := CNY]> (<[u "status" := uq "{'a':1}"]> usd_settings) in
  quotaToDisplayAmount st (VNum (of_Z 500000)) = Ok (of_Z 7) ∧
  renderQuota st (of_Z 500000) 2 = Ok (VStr (u "¥1.00")).
Proof. split; vm_compute; reflexivity. Qed.

Lemma cny_sane : sane cny_settings.
Proof.
  assert (Hp : getQuotaPerUnit cny_settings = Fin false 8589934592000000 (-34))
    by (vm_compute; reflexivity).
  assert (Hr : to_num (v_or (c_rate (getCurrencyConfig cny_settings)) (VNum one)) =
               Ok (Fin false 8219069319951155 (-50))) by (vm_compute; reflexivity).
  exists (mag 8589934592000000 (-34)), (mag 8219069319951155 (-50)), (Fin false 8219069319951155 (-50)).
  rewrite Hp, Hr.
  assert (Hx : ∀ m e, m ≠ 0 → exactly (mag m e) (Fin false m e)).
  { intros m e Hm. exists m, e. split; [reflexivity|]. split; [apply Qeq_refl|exact Hm]. }
  split; [by apply Hx|]. split; [split; vm_compute; discriminate|]. split; [reflexivity|].
  split; [by apply Hx|]. split; vm_compute; discriminate.
Qed.

Lemma limit_unchanged_witness :
  sane cny_settings ∧
  ∃ x, opened_amount cny_settings (VNum (of_Z 123456789)) = Ok x ∧
       saved_limit cny_settings (VNum x) = Ok (of_Z 123456789).
Proof.
  split; [exact cny_sane|]. exact (limit_unchanged cny_settings 123456789 cny_sane ltac:(lia)).
Defined.

Lemma rounded_quota : displayAmountToQuota usd_settings (VStr (u "1.5")) = Ok (of_Z 750000).
Proof. vm_compute. reflexivity. Qed.

Lemma quota_is_count_witness :
  displayAmountToQuota usd_settings (VStr (u "1.5")) = Ok (of_Z 750000) ∧ is_count (of_Z 750000).
Proof.
  split; [exact rounded_quota|].
  exact (quota_is_count usd_settings (VStr (u "1.5")) (of_Z 750000) one
           ltac:(constructor; solve_wf) eq_refl ltac:(by eexists _, _) rounded_quota).
Defined.

Lemma small_quota_amount :
  ∃ value, quota_amount usd_settings (of_Z 7) = Ok (VStr (u "$"), value) ∧ ngtb value nzero = true.
Proof. eexists. split; [vm_compute; reflexivity|vm_compute; reflexivity]. Qed.

Lemma renderQuota_not_zero_witness :
  ∃ s, renderQuota usd_settings (of_Z 7) 2 = js_add (VStr (u "$")) (VStr s) ∧
       neqb (parseFloat s) nzero = false.
Proof.
  destruct small_quota_amount as (value & Hv & Hp).
  exact (renderQuota_not_zero usd_settings (of_Z 7) 2 (VStr (u "$")) value
           ltac:(by vm_compute) ltac:(lia) Hv ltac:(by vm_compute) Hp).
Defined.
