(* ===== verification/ModelList.v ===== *)
(** * The list of models and its filters (hooks/model-pricing)

    The page of model prices: loading the list ([loadPricing],
    [setModelsFormat]), the filters and the search of [useModelPricingData.jsx],
    the collections from which [usePricingFilterCounts.js] counts, and the
    options with their counts in the components of
    components/table/model-pricing/filter.  A record [model] has the fields the
    server's type Pricing declares: [None] stands for a field that is left out,
    or [null] for the two lists. *)

From Stdlib Require Import Btauto.
From S2P Require Import Prelude JsString JsNumber JsValue Json Browser Quota.

Local Open Scope Z_scope.

Definition ALL : jstr := u "all".
Definition UNKNOWN : jstr := u "unknown".

(** ** Data *)

Record vendor := { v_id : Z; v_name : jstr; v_icon : option jstr; v_description : option jstr }.

Record model := {
  model_name : jstr;
  description : option jstr;
  tags : option jstr;
  vendor_id : option Z;
  quota_type : Z;
  model_ratio : num;
  model_price : num;
  completion_ratio : num;
  cache_ratio : option num;
  create_cache_ratio : option num;
  image_ratio : option num;
  audio_ratio : option num;
  audio_completion_ratio : option num;
  enable_groups : option (list jstr);
  supported_endpoint_types : option (list jstr);
  (* added by [setModelsFormat] *)
  m_key : option jstr;
  group_ratio : val;
  vendor_name : option jstr;
  vendor_icon : option jstr;
  vendor_description : option jstr;
}.

(** [a && a.p(...)] of a text that may be missing or empty *)
Definition text_test (a : option jstr) (p : jstr → bool) : bool :=
  match a with Some s => nonempty s && p s | None => false end.

Definition has_text (a : option jstr) : bool := text_test a (λ _, true).

(** The state of the hook that the filters, the list and the prices read *)
Record pricing := {
  searchValue : jstr;
  selectedGroup : jstr;
  filterGroup : jstr;
  filterQuotaType : option Z;   (* [None] is 'all' *)
  filterEndpointType : jstr;
  filterVendor : jstr;
  filterTag : jstr;
  currentPage : Z;
  p_currency : jstr;
  showWithRecharge : bool;
  tokenUnit : jstr;
  models : list model;
  vendorsMap : gmap Z vendor;
  loading : bool;
  groupRatio : val;
  usableGroup : val;
  endpointMap : val;
  autoGroups : val;
}.

Definition pricing0 : pricing :=
  {| searchValue := []; selectedGroup := ALL; filterGroup := ALL; filterQuotaType := None;
     filterEndpointType := ALL; filterVendor := ALL; filterTag := ALL; currentPage := 1;
     p_currency := USD; showWithRecharge := false; tokenUnit := u "M"; models := [];
     vendorsMap := ∅; loading := true; groupRatio := VObj []; usableGroup := VObj [];
     endpointMap := VObj []; autoGroups := VArr [] |}.

Definition set_filters (search group : jstr) (quota : option Z) (endpoint vendor tag : jstr)
    (s : pricing) : pricing :=
  {| searchValue := search; selectedGroup := selectedGroup s; filterGroup := group;
     filterQuotaType := quota; filterEndpointType := endpoint; filterVendor := vendor;
     filterTag := tag; currentPage := currentPage s; p_currency := p_currency s;
     showWithRecharge := showWithRecharge s; tokenUnit := tokenUnit s; models := models s;
     vendorsMap := vendorsMap s; loading := loading s; groupRatio := groupRatio s;
     usableGroup := usableGroup s; endpointMap := endpointMap s; autoGroups := autoGroups s |}.

Definition set_searchValue (x : jstr) (s : pricing) : pricing :=
  set_filters x (filterGroup s) (filterQuotaType s) (filterEndpointType s) (filterVendor s) (filterTag s) s.
Definition setFilterGroup (x : jstr) (s : pricing) : pricing :=
  set_filters (searchValue s) x (filterQuotaType s) (filterEndpointType s) (filterVendor s) (filterTag s) s.
Definition setFilterQuotaType (x : option Z) (s : pricing) : pricing :=
  set_filters (searchValue s) (filterGroup s) x (filterEndpointType s) (filterVendor s) (filterTag s) s.
Definition setFilterEndpointType (x : jstr) (s : pricing) : pricing :=
  set_filters (searchValue s) (filterGroup s) (filterQuotaType s) x (filterVendor s) (filterTag s) s.
Definition setFilterVendor (x : jstr) (s : pricing) : pricing :=
  set_filters (searchValue s) (filterGroup s) (filterQuotaType s) (filterEndpointType s) x (filterTag s) s.
Definition setFilterTag (x : jstr) (s : pricing) : pricing :=
  set_filters (searchValue s) (filterGroup s) (filterQuotaType s) (filterEndpointType s) (filterVendor s) x s.

Definition set_display (selected : jstr) (page : Z) (currency : jstr) (recharge : bool) (unit : jstr)
    (s : pricing) : pricing :=
  {| searchValue := searchValue s; selectedGroup := selected; filterGroup := filterGroup s;
     filterQuotaType := filterQuotaType s; filterEndpointType := filterEndpointType s;
     filterVendor := filterVendor s; filterTag := filterTag s; currentPage := page;
     p_currency := currency; showWithRecharge := recharge; tokenUnit := unit; models := models s;
     vendorsMap := vendorsMap s; loading := loading s; groupRatio := groupRatio s;
     usableGroup := usableGroup s; endpointMap := endpointMap s; autoGroups := autoGroups s |}.

Definition setSelectedGroup (x : jstr) (s : pricing) : pricing :=
  set_display x (currentPage s) (p_currency s) (showWithRecharge s) (tokenUnit s) s.

Definition set_list (ms : list model) (vm : gmap Z vendor) (busy : bool) (ratio usable endpoints autos : val)
    (s : pricing) : pricing :=
  {| searchValue := searchValue s; selectedGroup := selectedGroup s; filterGroup := filterGroup s;
     filterQuotaType := filterQuotaType s; filterEndpointType := filterEndpointType s;
     filterVendor := filterVendor s; filterTag := filterTag s; currentPage := currentPage s;
     p_currency := p_currency s; showWithRecharge := showWithRecharge s; tokenUnit := tokenUnit s;
     models := ms; vendorsMap := vm; loading := busy; groupRatio := ratio; usableGroup := usable;
     endpointMap := endpoints; autoGroups := autos |}.

Definition setLoading (b : bool) (s : pricing) : pricing :=
  set_list (models s) (vendorsMap s) b (groupRatio s) (usableGroup s) (endpointMap s) (autoGroups s) s.
Definition setModels (ms : list model) (s : pricing) : pricing :=
  set_list ms (vendorsMap s) (loading s) (groupRatio s) (usableGroup s) (endpointMap s) (autoGroups s) s.

(** ** Tags *)

(** [s.split(/[,;|]+/)]: the separator is a run of these marks. *)
Definition is_mark (c : Z) : bool := (c =? 44) || (c =? 59) || (c =? 124).
Definition starts_mark (s : jstr) : bool := match s with c :: _ => is_mark c | [] => false end.
Fixpoint split_marks (s : jstr) : list jstr :=
  match s with
  | [] => [[]]
  | x :: s' =>
    if is_mark x then (if starts_mark s' then split_marks s' else [] :: split_marks s')
    else match split_marks s' with
         | seg :: segs => (x :: seg) :: segs
         | [] => [[x]]
         end
  end.

(** [.split(/[,;|]+/).map((tag) => tag.trim())] *)
Definition pieces (s : jstr) : list jstr := map trim (split_marks s).

Section unicode.
Context `{Unicode}.

Definition normalizeTags (tags : option jstr) : list jstr :=
  List.filter nonempty (pieces (toLowerCase (default [] tags))).

(** ** The rows shown (useModelPricingData.jsx) *)

Definition tag_row (tagLower : jstr) (m : model) : bool :=
  text_test (tags m) (λ s,
    bool_decide (tagLower ∈ List.filter nonempty (pieces (toLowerCase s)))).

Definition vendor_row (filter : jstr) (m : model) : bool :=
  if filter =s UNKNOWN then negb (has_text (vendor_name m))
  else bool_decide (vendor_name m = Some filter).

Definition endpoint_row (filter : jstr) (m : model) : bool :=
  match supported_endpoint_types m with Some l => bool_decide (filter ∈ l) | None => false end.

Definition search_row (searchTerm : jstr) (m : model) : bool :=
  text_test (Some (model_name m)) (λ s, includes searchTerm (toLowerCase s))
  || text_test (description m) (λ s, includes searchTerm (toLowerCase s))
  || text_test (tags m) (λ s, includes searchTerm (toLowerCase s))
  || text_test (vendor_name m) (λ s, includes searchTerm (toLowerCase s)).

(** [model.enable_groups.includes(group)] throws on [null]. *)
Definition group_row (group : jstr) (m : model) : res bool :=
  match enable_groups m with Some l => Ok (bool_decide (group ∈ l)) | None => Throw TypeError end.

Definition filteredModels (s : pricing) : res (list model) :=
  let! result := if filterGroup s =s ALL then Ok (models s)
                 else rfilter (group_row (filterGroup s)) (models s) in
  let result := match filterQuotaType s with
                | None => result
                | Some q => List.filter (λ m, quota_type m =? q) result
                end in
  let result := if filterEndpointType s =s ALL then result
                else List.filter (endpoint_row (filterEndpointType s)) result in
  let result := if filterVendor s =s ALL then result
                else List.filter (vendor_row (filterVendor s)) result in
  let result := if filterTag s =s ALL then result
                else List.filter (tag_row (toLowerCase (filterTag s))) result in
  Ok (if nonempty (searchValue s)
      then List.filter (search_row (toLowerCase (searchValue s))) result else result).

(** ** The collections that are counted (usePricingFilterCounts.js) *)

Definition matchesFilters (s : pricing) (m : model) (ignore : list jstr) : bool :=
  let asked k := negb (bool_decide (u k ∈ ignore)) in
  if asked "group" && negb (filterGroup s =s ALL)
     && negb (match enable_groups m with Some l => bool_decide (filterGroup s ∈ l) | None => false end)
  then false
  else if asked "quota" && match filterQuotaType s with Some q => negb (quota_type m =? q) | None => false end
  then false
  else if asked "endpoint" && negb (filterEndpointType s =s ALL)
          && negb (endpoint_row (filterEndpointType s) m)
  then false
  else if asked "vendor" && negb (filterVendor s =s ALL)
          && (if filterVendor s =s UNKNOWN then has_text (vendor_name m)
              else negb (bool_decide (vendor_name m = Some (filterVendor s))))
  then false
  else if asked "tag" && negb (filterTag s =s ALL)
          && negb (bool_decide (toLowerCase (filterTag s) ∈ normalizeTags (tags m)))
  then false
  else if asked "search" && nonempty (searchValue s)
          && (let term := toLowerCase (searchValue s) in
              let tg := if has_text (tags m) then toLowerCase (default [] (tags m)) else [] in
              negb (includes term (toLowerCase (model_name m))
                    || text_test (description m) (λ d, includes term (toLowerCase d))
                    || includes term tg
                    || text_test (vendor_name m) (λ v, includes term (toLowerCase v))))
  then false
  else true.

Definition counted (s : pricing) (ignore : string) : list model :=
  List.filter (λ m, matchesFilters s m [u ignore]) (models s).
Definition quotaTypeModels (s : pricing) : list model := counted s "quota".
Definition endpointTypeModels (s : pricing) : list model := counted s "endpoint".
Definition vendorModels (s : pricing) : list model := counted s "vendor".
Definition tagModels (s : pricing) : list model := counted s "tag".
Definition groupCountModels (s : pricing) : list model := counted s "group".

(** ** Options and their counts (filter/*.jsx) *)

Definition count_if (p : model → bool) (l : list model) : nat := length (List.filter p l).

Definition qtyCount (l : list model) (type : option Z) : nat :=
  count_if (λ m, match type with None => true | Some q => quota_type m =? q end) l.

Definition getEndpointTypeCount (l : list model) (endpointType : jstr) : nat :=
  if endpointType =s ALL then length l else count_if (endpoint_row endpointType) l.

Definition getVendorCount (l : list model) (vendor : jstr) : nat :=
  if vendor =s ALL then length l
  else if vendor =s UNKNOWN then count_if (λ m, negb (has_text (vendor_name m))) l
  else count_if (λ m, bool_decide (vendor_name m = Some vendor)) l.

Definition getTagCount (l : list model) (tag : jstr) : nat :=
  if tag =s ALL then length l else
  let tagLower := toLowerCase tag in
  count_if (λ m, text_test (tags m) (λ s, bool_decide (tagLower ∈ pieces (toLowerCase s)))) l.

Definition group_count (l : list model) (g : jstr) : nat :=
  if g =s ALL then length l
  else count_if (λ m, match enable_groups m with Some gs => bool_decide (g ∈ gs) | None => false end) l.

(** [sort()] orders texts by their code units. *)
Definition sort_units (l : list jstr) : list jstr := sort_by (λ a b, unit_compare a b <=? 0) l.

Definition getAllEndpointTypes (allModels shown : list model) : list jstr :=
  sort_units (set_array (concat
    (map (λ m, default [] (supported_endpoint_types m)) (match allModels with [] => shown | _ => allModels end)))).

Definition vendor_options (allModels shown : list model) : list jstr * bool :=
  let l := match allModels with [] => shown | _ => allModels end in
  let named := omap (λ m, if has_text (vendor_name m) then vendor_name m else None) l in
  (sort_units (set_array named), existsb (λ m, negb (has_text (vendor_name m))) l).

Definition getAllTags (allModels shown : list model) : list jstr :=
  let l := match allModels with [] => shown | _ => allModels end in
  sort_by (λ a b, localeCompare a b <=? 0)
    (set_array (map toLowerCase (concat
      (map (λ m, if has_text (tags m) then List.filter nonempty (pieces (default [] (tags m))) else []) l)))).

(** [Object.keys(usableGroup).filter((key) => key !== '')] after 'all' *)
Definition group_options (usable : val) : list jstr :=
  ALL :: List.filter nonempty (keys usable).

(** [`${ratio}x`], '1x' without one *)
Definition ratio_label (ratios : val) (g : jstr) : res jstr :=
  if g =s ALL then Ok [] else
  let! ratio := get ratios g in
  if is_nullish ratio then Ok (u "1x") else rmap (λ s, s ++ u "x") (to_str ratio).

(** ** Loading (useModelPricingData.jsx) *)

(** One round of the loop of [setModelsFormat] *)
Definition format_model (ratios : val) (vendorMap : gmap Z vendor) (m : model) : res model :=
  let! ratio := get ratios (model_name m) in
  let found := match vendor_id m with
               | Some i => if i =? 0 then None else vendorMap !! i
               | None => None
               end in
  Ok {| model_name := model_name m; description := description m; tags := tags m;
        vendor_id := vendor_id m; quota_type := quota_type m; model_ratio := model_ratio m;
        model_price := model_price m; completion_ratio := completion_ratio m;
        cache_ratio := cache_ratio m; create_cache_ratio := create_cache_ratio m;
        image_ratio := image_ratio m; audio_ratio := audio_ratio m;
        audio_completion_ratio := audio_completion_ratio m; enable_groups := enable_groups m;
        supported_endpoint_types := supported_endpoint_types m;
        m_key := Some (model_name m); group_ratio := ratio;
        vendor_name := match found with Some v => Some (v_name v) | None => vendor_name m end;
        vendor_icon := match found with Some v => v_icon v | None => vendor_icon m end;
        vendor_description := match found with Some v => v_description v | None => vendor_description m end |}.

Definition quota_le (a b : model) : bool := quota_type a - quota_type b <=? 0.

Definition is_gpt (m : model) : bool := starts_with (u "gpt") (model_name m).

(** The comparison function of the second sort gives at most zero. *)
Definition name_le (a b : model) : bool :=
  if is_gpt a && negb (is_gpt b) then true
  else if negb (is_gpt a) && is_gpt b then false
  else localeCompare (model_name a) (model_name b) <=? 0.

Definition setModelsFormat (l : list model) (ratios : val) (vendorMap : gmap Z vendor) : res (list model) :=
  rmap (λ l, sort_by name_le (sort_by quota_le l)) (rmapM (format_model ratios vendorMap) l).

(** [vendors.forEach((v) => { vendorMap[v.id] = v; })] *)
Definition vendor_map (vendors : option (list vendor)) : gmap Z vendor :=
  foldl (λ vm v, <[v_id v := v]> vm) ∅ (default [] vendors).

(** What [API.get('/api/pricing')] gives: it rejects, or a body *)
Record pricing_body := {
  success : bool;
  message : jstr;
  data : option (list model);
  vendors : option (list vendor);
  b_group_ratio : val;
  usable_group : val;
  supported_endpoint : val;
  auto_groups : val;
}.

(** [loadPricing]: the state it leaves, the message of [showError] and the
    exception that ends it, if one does.  The state is kept apart from the
    exception because the setters that ran before it count. *)
Definition loadPricing (reply : res pricing_body) (s : pricing) : pricing * option jstr * option exc :=
  let s := setLoading true s in
  match reply with
  | Throw e => (s, None, Some e)
  | Ok b =>
    if success b then
      let vm := vendor_map (vendors b) in
      let s := setSelectedGroup ALL
                 (set_list (models s) vm true (b_group_ratio b) (usable_group b)
                    (v_or (supported_endpoint b) (VObj [])) (v_or (auto_groups b) (VArr [])) s) in
      match data b with
      | None => (s, None, Some TypeError)
      | Some l =>
        match setModelsFormat l (b_group_ratio b) vm with
        | Ok ms => (setLoading false (setModels ms s), None, None)
        | Throw e => (s, None, Some e)
        end
      end
    else (setLoading false s, Some (message b), None)
  end.

(** ** Handlers *)

(** The effect that goes back to the first page when a filter has changed *)
Definition page_effect (before s : pricing) : pricing :=
  let same := bool_decide (filterGroup s = filterGroup before) && bool_decide (filterQuotaType s = filterQuotaType before)
              && bool_decide (filterEndpointType s = filterEndpointType before)
              && bool_decide (filterVendor s = filterVendor before) && bool_decide (filterTag s = filterTag before)
              && bool_decide (searchValue s = searchValue before) in
  if same then s
  else set_display (selectedGroup s) 1 (p_currency s) (showWithRecharge s) (tokenUnit s) s.

(** The two effects on the display type of the site *)
Definition display_effect (siteDisplayType : jstr) (s : pricing) : pricing :=
  let s := if (siteDisplayType =s USD) || (siteDisplayType =s CNY) || (siteDisplayType =s CUSTOM)
           then set_display (selectedGroup s) (currentPage s) siteDisplayType (showWithRecharge s) (tokenUnit s) s
           else s in
  if siteDisplayType =s TOKENS
  then set_display (selectedGroup s) (currentPage s) USD false (tokenUnit s) s else s.

(** [handleChange] of the search field *)
Definition handleChange (value : jstr) (s : pricing) : pricing := set_searchValue value s.

Definition handleGroupClick (group : jstr) (s : pricing) : pricing :=
  setFilterGroup group (setSelectedGroup group s).

(** [resetPricingFilters] of helpers/utils.jsx; [showRatio] and [viewMode] belong to
    the components that show the list. *)
Definition resetPricingFilters (s : pricing) : pricing :=
  let s := handleChange [] s in
  let s := set_display (selectedGroup s) (currentPage s) USD false (u "M") s in
  let s := setFilterTag ALL (setFilterVendor ALL (setFilterEndpointType ALL
             (setFilterQuotaType None (setFilterGroup ALL s)))) in
  set_display (selectedGroup s) 1 (p_currency s) (showWithRecharge s) (tokenUnit s) s.

(** ** The counts are the rows *)

Definition in_group (g : jstr) (m : model) : bool :=
  match enable_groups m with Some l => bool_decide (g ∈ l) | None => false end.

Definition is_quota (f : option Z) (m : model) : bool :=
  match f with Some q => quota_type m =? q | None => true end.

(** All filters of the page on one model *)
Definition row_ok (s : pricing) (m : model) : bool :=
  (bool_decide (filterGroup s = ALL) || in_group (filterGroup s) m)
  && is_quota (filterQuotaType s) m
  && (bool_decide (filterEndpointType s = ALL) || endpoint_row (filterEndpointType s) m)
  && (bool_decide (filterVendor s = ALL) || vendor_row (filterVendor s) m)
  && (bool_decide (filterTag s = ALL) || tag_row (toLowerCase (filterTag s)) m)
  && (negb (nonempty (searchValue s)) || search_row (toLowerCase (searchValue s)) m).

(** No model of the list lacks its groups. *)
Definition groups_known (s : pricing) : Prop := Forall (λ m, enable_groups m ≠ None) (models s).

Lemma filteredModels_rows s :
  groups_known s → filteredModels s = Ok (List.filter (row_ok s) (models s)).
Proof.
  intros Hg. unfold filteredModels.
  assert (Hgrp : (if filterGroup s =s ALL then Ok (models s) else rfilter (group_row (filterGroup s)) (models s))
                 = Ok (List.filter (λ m, bool_decide (filterGroup s = ALL) || in_group (filterGroup s) m) (models s))).
  { rewrite <- filter_if. destruct (bool_decide (filterGroup s = ALL)); [done|].
    apply rfilter_ok. eapply list.Forall_impl; [exact Hg|]. intros m Hm. unfold group_row, in_group.
    destruct (enable_groups m) eqn:E; [done|by destruct Hm]. }
  rewrite Hgrp. cbn [rbind]. f_equal.
  set (l := List.filter _ (models s)).
  assert (Hq : match filterQuotaType s with None => l | Some q => List.filter (λ m, quota_type m =? q) l end
               = List.filter (is_quota (filterQuotaType s)) l).
  { destruct (filterQuotaType s); [done|]. symmetry. apply filter_all. by apply list.Forall_true. }
  rewrite Hq. rewrite !filter_if.
  assert (Hs : ∀ k, (if nonempty (searchValue s) then List.filter (search_row (toLowerCase (searchValue s))) k else k)
               = List.filter (λ m, negb (nonempty (searchValue s)) || search_row (toLowerCase (searchValue s)) m) k).
  { intros k. rewrite <- filter_if. by destruct (nonempty (searchValue s)). }
  rewrite Hs. unfold l. rewrite !filter_filter.
  apply filter_ext. intros m. unfold row_ok. by rewrite !andb_assoc.
Qed.

Lemma tag_row_normalized tl m :
  bool_decide (tl ∈ normalizeTags (tags m)) = tag_row tl m.
Proof.
  unfold normalizeTags, tag_row, text_test.
  assert (Hnil : List.filter nonempty (pieces (toLowerCase [])) = []) by (by rewrite toLowerCase_ascii).
  assert (Hno : bool_decide (tl ∈ @nil jstr) = false) by (apply bool_decide_eq_false_2; set_solver).
  destruct (tags m) as [[|c s]|]; cbn [default from_option id]; [|done|]; rewrite Hnil, Hno; done.
Qed.

Lemma includes_nil term : term ≠ [] → includes term [] = false.
Proof. destruct term; [done|]. done. Qed.

(** Testing a missing or an empty text gives no match. *)
Lemma text_test_includes term a :
  term ≠ [] →
  text_test a (λ s, includes term (toLowerCase s)) =
  includes term (if has_text a then toLowerCase (default [] a) else []).
Proof.
  intros Ht. unfold has_text, text_test. destruct a as [[|c s]|]; cbn [default from_option id];
    [|done|]; by rewrite includes_nil.
Qed.

Lemma includes_name term name :
  term ≠ [] → text_test (Some name) (λ s, includes term (toLowerCase s)) = includes term (toLowerCase name).
Proof.
  intros Ht. rewrite text_test_includes by done. destruct name as [|c s]; [|done].
  change (includes term [] = includes term (toLowerCase [])). by rewrite toLowerCase_ascii.
Qed.

Definition asked (k : string) (ignore : list jstr) : bool := negb (bool_decide (u k ∈ ignore)).

Lemma if_false_and (c k : bool) : (if c then false else k) = negb c && k.
Proof. by destruct c. Qed.

(** [matchesFilters] is [row_ok] without the filters that are ignored. *)
Lemma matches_row s m ignore :
  matchesFilters s m ignore =
  (negb (asked "group" ignore) || (bool_decide (filterGroup s = ALL) || in_group (filterGroup s) m))
  && (negb (asked "quota" ignore) || is_quota (filterQuotaType s) m)
  && (negb (asked "endpoint" ignore) || (bool_decide (filterEndpointType s = ALL) || endpoint_row (filterEndpointType s) m))
  && (negb (asked "vendor" ignore) || (bool_decide (filterVendor s = ALL) || vendor_row (filterVendor s) m))
  && (negb (asked "tag" ignore) || (bool_decide (filterTag s = ALL) || tag_row (toLowerCase (filterTag s)) m))
  && (negb (asked "search" ignore) || (negb (nonempty (searchValue s)) || search_row (toLowerCase (searchValue s)) m)).
Proof.
  assert (Hsearch : nonempty (searchValue s) = true →
    search_row (toLowerCase (searchValue s)) m =
    (let term := toLowerCase (searchValue s) in
     includes term (toLowerCase (model_name m))
     || text_test (description m) (λ d, includes term (toLowerCase d))
     || includes term (if has_text (tags m) then toLowerCase (default [] (tags m)) else [])
     || text_test (vendor_name m) (λ v, includes term (toLowerCase v)))).
  { intros Hne. unfold nonempty in Hne. boolify. pose proof (toLowerCase_nonempty _ Hne).
    unfold search_row. cbv zeta. by rewrite includes_name, (text_test_includes _ (tags m)) by done. }
  unfold matchesFilters. cbv zeta. rewrite tag_row_normalized. fold (asked "group" ignore) (asked "quota" ignore)
    (asked "endpoint" ignore) (asked "vendor" ignore) (asked "tag" ignore) (asked "search" ignore).
  unfold vendor_row, is_quota, in_group. cbv zeta in Hsearch.
  set (sr := search_row _ m) in *. set (sr' := includes _ _ || _ || _ || _) in *.
  assert (Hs : nonempty (searchValue s) && negb sr' = negb (negb (nonempty (searchValue s)) || sr)).
  { destruct (nonempty (searchValue s)); [|done]. by rewrite Hsearch. }
  rewrite <- (andb_assoc (asked "search" ignore)), Hs. clear. rewrite !if_false_and.
  rewrite !negb_andb, !negb_involutive, andb_true_r, !andb_assoc, <- !orb_assoc.
  repeat f_equal.
  - by destruct (filterQuotaType s); rewrite ?negb_involutive.
  - by destruct (bool_decide (filterVendor s = UNKNOWN)); rewrite ?negb_involutive.
Qed.

(** The number of rows the page shows *)
Definition shown_rows (s : pricing) : res nat := rmap length (filteredModels s).

Lemma shown_count s s' ignore p :
  groups_known s → models s' = models s →
  (∀ m, row_ok s' m = matchesFilters s m [u ignore] && p m) →
  shown_rows s' = Ok (count_if p (counted s ignore)).
Proof.
  intros Hg Hm Hrow. unfold shown_rows. rewrite filteredModels_rows by (unfold groups_known; by rewrite Hm).
  cbn [rmap]. unfold count_if, counted. rewrite filter_filter, Hm. do 2 f_equal. by apply filter_ext.
Qed.

Lemma count_all (l : list model) : length l = count_if (λ _, true) l.
Proof. unfold count_if. rewrite filter_all; [done|]. by apply list.Forall_true. Qed.

(** Which filters the five collections ask for *)
Lemma asked_keys k k' : asked k [u k'] = negb (seqb (u k) (u k')).
Proof. unfold asked. f_equal. apply bool_decide_ext. apply list_elem_of_singleton. Qed.

(** The filters that are asked, and the tests as a conjunction *)
Ltac regroup :=
  rewrite matches_row, !asked_keys;
  repeat match goal with |- context [seqb (u ?a) (u ?b)] =>
    let v := eval vm_compute in (seqb (u a) (u b)) in change (seqb (u a) (u b)) with v end;
  unfold row_ok; cbn [set_filters setFilterQuotaType setFilterEndpointType setFilterVendor setFilterTag
    setFilterGroup filterGroup filterQuotaType filterEndpointType filterVendor filterTag searchValue].

Lemma piece_nonempty tl l : tl ≠ [] → bool_decide (tl ∈ List.filter nonempty l) = bool_decide (tl ∈ l).
Proof.
  intros Hne. apply bool_decide_ext. rewrite elem_of_filter_bool. unfold nonempty.
  rewrite bool_decide_eq_false_2 by done. naive_solver.
Qed.

(** C9: the number beside every option of the filters is the number of rows the
    page shows once that option is chosen with all other filters and the search
    left as they are. *)
Theorem counts_are_rows s :
  groups_known s →
  (∀ q, shown_rows (setFilterQuotaType q s) = Ok (qtyCount (quotaTypeModels s) q)) ∧
  (∀ e, shown_rows (setFilterEndpointType e s) = Ok (getEndpointTypeCount (endpointTypeModels s) e)) ∧
  (∀ v, shown_rows (setFilterVendor v s) = Ok (getVendorCount (vendorModels s) v)) ∧
  (∀ tg, tg ≠ [] → shown_rows (setFilterTag tg s) = Ok (getTagCount (tagModels s) tg)) ∧
  (∀ g, shown_rows (setFilterGroup g s) = Ok (group_count (groupCountModels s) g)).
Proof.
  intros Hg. split_and!.
  - intros q. apply shown_count; [done..|]. intros m. regroup. unfold is_quota. btauto.
  - intros e. unfold getEndpointTypeCount. case_bool_decide as He; [rewrite count_all|];
      (apply shown_count; [done..|]; intros m; regroup).
    + rewrite (bool_decide_eq_true_2 (e = ALL)) by done. btauto.
    + rewrite (bool_decide_eq_false_2 (e = ALL)) by done. btauto.
  - intros v. unfold getVendorCount. case_bool_decide as Hv; [rewrite count_all|].
    { apply shown_count; [done..|]; intros m; regroup. rewrite (bool_decide_eq_true_2 (v = ALL)) by done. btauto. }
    case_bool_decide as Hu; (apply shown_count; [done..|]; intros m; regroup);
      rewrite (bool_decide_eq_false_2 (v = ALL)) by done; unfold vendor_row.
    + rewrite (bool_decide_eq_true_2 (v = UNKNOWN)) by done. btauto.
    + rewrite (bool_decide_eq_false_2 (v = UNKNOWN)) by done. btauto.
  - intros tg Hne. unfold getTagCount. case_bool_decide as Ht; [rewrite count_all|];
      (apply shown_count; [done..|]; intros m; regroup).
    + rewrite (bool_decide_eq_true_2 (tg = ALL)) by done. btauto.
    + rewrite (bool_decide_eq_false_2 (tg = ALL)) by done. unfold tag_row.
      pose proof (toLowerCase_nonempty tg Hne).
      assert (text_test (tags m) (λ x, bool_decide (toLowerCase tg ∈ List.filter nonempty (pieces (toLowerCase x))))
              = text_test (tags m) (λ x, bool_decide (toLowerCase tg ∈ pieces (toLowerCase x)))) as ->.
      { unfold text_test. destruct (tags m); [|done]. by rewrite piece_nonempty. }
      btauto.
  - intros g. unfold group_count. case_bool_decide as He; [rewrite count_all|];
      (apply shown_count; [done..|]; intros m; regroup).
    + rewrite (bool_decide_eq_true_2 (g = ALL)) by done. btauto.
    + rewrite (bool_decide_eq_false_2 (g = ALL)) by done. unfold in_group. btauto.
Qed.

(** ** Loading and order *)

Lemma name_le_total a b : name_le a b = true ∨ name_le b a = true.
Proof.
  unfold name_le. destruct (is_gpt a), (is_gpt b); cbn [andb negb]; rewrite ?Z.leb_le; eauto;
    pose proof (localeCompare_antisym (model_name a) (model_name b)); lia.
Qed.

Lemma name_le_trans a b c : name_le a b = true → name_le b c = true → name_le a c = true.
Proof.
  unfold name_le. destruct (is_gpt a), (is_gpt b), (is_gpt c); cbn [andb negb]; rewrite ?Z.leb_le; try done;
    apply localeCompare_trans.
Qed.

Lemma quota_sorted l : StronglySorted (λ a b, quota_type a ≤ quota_type b) (sort_by quota_le l).
Proof.
  eapply StronglySorted_weaken; [|apply sort_by_sorted]; unfold quota_le.
  - intros x y. rewrite Z.leb_le. lia.
  - intros x y. rewrite !Z.leb_le. lia.
  - intros x y z. rewrite !Z.leb_le. lia.
Qed.

(** The order of the list: the gpt models first, then by name, and models of one
    name by the way they are billed *)
Definition listed_before (a b : model) : Prop :=
  (is_gpt b = true → is_gpt a = true) ∧
  (is_gpt a = is_gpt b →
   localeCompare (model_name a) (model_name b) ≤ 0 ∧
   (localeCompare (model_name a) (model_name b) = 0 → quota_type a ≤ quota_type b)).

Lemma stable_listed a b :
  stable_order name_le (λ a b, quota_type a ≤ quota_type b) a b → listed_before a b.
Proof.
  unfold stable_order, name_le, listed_before. pose proof (localeCompare_antisym (model_name a) (model_name b)).
  destruct (is_gpt a), (is_gpt b); cbn [andb negb]; rewrite ?Z.leb_le; intros [H1 H2]; split; try done;
    (intros _; split; [done|]; intros; apply H2; lia).
Qed.

(** The vendor a model gets: the last one of the answer with its id *)
Definition vendor_of (vs : option (list vendor)) (m : model) : option vendor :=
  match vendor_id m with
  | Some i => if i =? 0 then None else last (filter (λ v, v_id v = i) (default [] vs))
  | None => None
  end.

Lemma vendor_map_lookup vs i :
  vendor_map vs !! i = last (filter (λ v, v_id v = i) (default [] vs)).
Proof.
  unfold vendor_map. induction (default [] vs) as [|v l IH] using rev_ind; [done|].
  rewrite foldl_app, filter_app. cbn [foldl]. destruct (decide (v_id v = i)) as [<-|Hne].
  - rewrite lookup_insert_eq, filter_cons_True, filter_nil by done. by rewrite last_snoc.
  - rewrite lookup_insert_ne, IH by done. by rewrite filter_cons_False, filter_nil, app_nil_r by done.
Qed.

(** The fields a model is listed with are those the server sent, with the vendor
    of its id. *)
Definition listed_as (vs : option (list vendor)) (m m' : model) : Prop :=
  model_name m' = model_name m ∧ quota_type m' = quota_type m ∧ enable_groups m' = enable_groups m ∧
  supported_endpoint_types m' = supported_endpoint_types m ∧ tags m' = tags m ∧
  vendor_name m' = match vendor_of vs m with Some v => Some (v_name v) | None => vendor_name m end.

Lemma format_model_listed ratios vs m m' :
  format_model ratios (vendor_map vs) m = Ok m' → listed_as vs m m'.
Proof.
  unfold format_model, listed_as, vendor_of. destruct (get ratios (model_name m)); cbn [rbind]; [|done].
  intros <-%Ok_inj. cbn. split_and!; try done. destruct (vendor_id m) as [i|]; [|done].
  destruct (i =? 0); [done|]. by rewrite vendor_map_lookup.
Qed.

(** a successful answer is listed completely and in order: each model of it once,
    with the vendor its id names, the gpt models first, then by name, and the
    list is no longer loading. *)
Theorem list_loaded b l ratios s :
  success b = true → data b = Some l → b_group_ratio b = VObj ratios →
  ∃ s' ms, loadPricing (Ok b) s = (s', None, None) ∧ loading s' = false ∧
    StronglySorted listed_before (models s') ∧
    models s' ≡ₚ ms ∧ Forall2 (listed_as (vendors b)) l ms.
Proof.
  intros Hs Hd Hr. unfold loadPricing. rewrite Hs, Hd, Hr. unfold setModelsFormat.
  destruct (rmapM (format_model (VObj ratios) (vendor_map (vendors b))) l) as [ms|e] eqn:E.
  2: { exfalso. revert E. rewrite (rmapM_ok _ (λ m, default m (match format_model (VObj ratios) (vendor_map (vendors b)) m with Ok x => Some x | Throw _ => None end))); [done|].
       by apply list.Forall_true. }
  cbn [rmap]. eexists _, ms. split; [reflexivity|]. cbn [loading models setLoading setModels set_list]. split_and!.
  - done.
  - eapply StronglySorted_weaken; [apply stable_listed|]. apply sort_by_stable.
    + apply name_le_total.
    + apply name_le_trans.
    + apply quota_sorted.
  - by rewrite !sort_by_perm.
  - eapply rmapM_Forall2; [|exact E]. apply format_model_listed.
Qed.

(** Resetting shows every model, whatever the list holds. *)
Theorem reset_shows_all s : filteredModels (resetPricingFilters s) = Ok (models s).
Proof. reflexivity. Qed.

(** The page throws exactly when a group is chosen while a model of the list has
    none (the server's [null]); the counts leave such a model out instead. *)
Theorem null_groups_throw s :
  filterGroup s ≠ ALL →
  (filteredModels s = Throw TypeError ↔ ¬ groups_known s).
Proof.
  intros Hg. split.
  - intros Ht Hk. by rewrite filteredModels_rows in Ht.
  - intros Hk. unfold filteredModels. rewrite bool_decide_eq_false_2 by done.
    assert (rfilter (group_row (filterGroup s)) (models s) = Throw TypeError) as ->; [|done].
    unfold groups_known in Hk. clear Hg. induction (models s) as [|m l IH]; [by destruct Hk|].
    cbn [rfilter]. unfold group_row at 1. destruct (enable_groups m) eqn:E; cbn [rbind]; [|done].
    rewrite IH; [done|]. intros Hl. apply Hk. constructor; [by rewrite E|done].
Qed.

(** A request that fails, and an answer without a list, leave the page loading. *)
Theorem failed_load_keeps_loading reply s :
  (∃ e, reply = Throw e) ∨ (∃ b, reply = Ok b ∧ success b = true ∧ data b = None) →
  ∃ s' e, loadPricing reply s = (s', None, Some e) ∧ loading s' = true.
Proof.
  unfold loadPricing. intros [[e ->]|(b & -> & Hs & Hd)]; [eauto|]. rewrite Hs, Hd. eauto.
Qed.

(** ** The options select something *)

Lemma lower_unit_mark c : is_mark (lower_unit c) = is_mark c.
Proof.
  unfold is_mark, lower_unit. destruct ((65 <=? c) && (c <=? 90)) eqn:E; [|done]. boolify.
  rewrite !(proj2 (Z.eqb_neq _ _)) by lia. done.
Qed.

Lemma lower_unit_ws c : is_ascii c → is_ws (lower_unit c) = is_ws c.
Proof.
  unfold is_ascii, lower_unit. intros Hc. destruct ((65 <=? c) && (c <=? 90)) eqn:E; [|done]. boolify.
  unfold is_ws. repeat match goal with |- context [?a =? ?b] => rewrite (proj2 (Z.eqb_neq a b)) by lia end.
  repeat match goal with |- context [?a <=? ?b] => destruct (Z.leb_spec a b); try lia end; done.
Qed.

Abbreviation lower := (map lower_unit).
Abbreviation ascii := (Forall is_ascii).

Lemma split_marks_lower s : split_marks (lower s) = map lower (split_marks s).
Proof.
  induction s as [|x s IH]; [done|]. cbn [map split_marks]. rewrite lower_unit_mark, IH.
  assert (starts_mark (lower s) = starts_mark s) as -> by (destruct s; [done|apply lower_unit_mark]).
  destruct (is_mark x); [by destruct (starts_mark s)|]. by destruct (split_marks s).
Qed.

Lemma trim_start_lower s : ascii s → trim_start (lower s) = lower (trim_start s).
Proof.
  induction 1 as [|c s Hc _ IH]; [done|]. cbn [map trim_start]. rewrite lower_unit_ws by done.
  by destruct (is_ws c).
Qed.

Lemma trim_start_Forall (P : Z → Prop) s : Forall P s → Forall P (trim_start s).
Proof. intros Hs. destruct (trim_start_app s) as (w & Heq & _). rewrite Heq in Hs. by apply Forall_app in Hs as [_ ?]. Qed.

Lemma trim_Forall (P : Z → Prop) s : Forall P s → Forall P (trim s).
Proof. intros Hs. unfold trim, trim_end. by apply List.Forall_rev, trim_start_Forall, List.Forall_rev, trim_start_Forall. Qed.

Lemma trim_lower s : ascii s → trim (lower s) = lower (trim s).
Proof.
  intros Hs. unfold trim, trim_end. rewrite trim_start_lower, <- !map_rev by done.
  rewrite trim_start_lower by (by apply List.Forall_rev, trim_start_Forall). by rewrite map_rev.
Qed.

Lemma split_marks_Forall (P : Z → Prop) s : Forall P s → Forall (Forall P) (split_marks s).
Proof.
  induction 1 as [|x s Hx _ IH]; cbn [split_marks]; [by repeat constructor|].
  destruct (is_mark x); [destruct (starts_mark s); [done|by constructor]|].
  destruct IH as [|seg segs ? ?]; by repeat constructor.
Qed.

Lemma pieces_ascii s : ascii s → Forall ascii (pieces s).
Proof.
  intros Hs. apply Forall_map_2. eapply list.Forall_impl; [by apply split_marks_Forall|]. apply trim_Forall.
Qed.

Lemma pieces_lower s : ascii s → pieces (lower s) = map lower (pieces s).
Proof.
  intros Hs. unfold pieces. rewrite split_marks_lower, !map_map. apply map_ext_in. intros p Hp.
  apply trim_lower. pose proof (split_marks_Forall _ s Hs) as HF. rewrite list.Forall_forall in HF.
  apply HF. by apply list_elem_of_In.
Qed.

Lemma lower_idem s : lower (lower s) = lower s.
Proof.
  rewrite map_map. apply map_ext. intros c. unfold lower_unit.
  destruct ((65 <=? c) && (c <=? 90)) eqn:E; [|by rewrite E]. boolify.
  rewrite (proj2 (Z.leb_gt (c + 32) 90)) by lia. by rewrite andb_false_r.
Qed.

Lemma ascii_lower s : ascii s → ascii (lower s).
Proof.
  intros Hs. apply Forall_map_2. eapply list.Forall_impl; [exact Hs|]. unfold is_ascii, lower_unit.
  intros c Hc. destruct ((65 <=? c) && (c <=? 90)) eqn:E; [|done]. boolify. lia.
Qed.

Definition ascii_tags (m : model) : Prop := ∀ s, tags m = Some s → ascii s.

(** The tags of a model as the options list them, and as the filter reads them *)
Definition tag_pieces (m : model) : list jstr :=
  if has_text (tags m) then List.filter nonempty (pieces (default [] (tags m))) else [].

Lemma tag_row_pieces m tg :
  ascii_tags m → tag_row tg m = true ↔ ∃ p, p ∈ tag_pieces m ∧ tg = toLowerCase p.
Proof.
  intros Ha. unfold tag_row, tag_pieces, has_text, text_test.
  destruct (tags m) as [s|] eqn:Et; cbn [default from_option id]; [|split; [done|set_solver]].
  destruct (nonempty s); cbn [andb]; [|split; [done|set_solver]].
  assert (Hs : ascii s) by (apply Ha; done).
  rewrite bool_decide_eq_true, toLowerCase_ascii, elem_of_filter_bool, pieces_lower by done.
  pose proof (pieces_ascii s Hs) as HF. rewrite list.Forall_forall in HF. split.
  - intros [(p & -> & Hp)%list_elem_of_fmap Hne]. exists p. rewrite elem_of_filter_bool.
    rewrite toLowerCase_ascii by (by apply HF). split_and!; [done| |done]. by destruct p.
  - intros (p & [Hp Hne]%elem_of_filter_bool & ->). rewrite toLowerCase_ascii by (by apply HF).
    split; [apply list_elem_of_fmap; eauto|]. by destruct p.
Qed.

(** the tags offered are exactly the lower-case texts that select a model of
    the list, so no option is empty and no tag is missing. *)
Theorem tag_options_exact l tg :
  Forall ascii_tags l →
  tg ∈ getAllTags l [] ↔ ∃ m, m ∈ l ∧ tag_row (toLowerCase tg) m = true ∧ toLowerCase tg = tg.
Proof.
  intros Ha. unfold getAllTags. cbv zeta. rewrite sort_by_perm, elem_of_set_array, list_elem_of_fmap.
  rewrite Forall_forall in Ha.
  assert (Hl : (match l with [] => [] | _ => l end) = l) by (by destruct l). rewrite Hl. clear Hl. split.
  - intros (p & -> & Hp). apply list_elem_of_In, in_concat in Hp as (k & Hk & Hp).
    apply in_map_iff in Hk as (m & <- & Hm). apply list_elem_of_In in Hm, Hp. exists m. split; [done|].
    assert (Hlow : toLowerCase (toLowerCase p) = toLowerCase p).
    { fold (tag_pieces m) in Hp. unfold tag_pieces in Hp. destruct (has_text (tags m)); [|set_solver].
      apply elem_of_filter_bool in Hp as [Hp _]. destruct (tags m) as [s|] eqn:Et; cbn in Hp.
      2: { apply list_elem_of_singleton in Hp as ->. by rewrite !(toLowerCase_ascii []). }
      pose proof (pieces_ascii s (Ha m Hm s Et)) as HF. rewrite list.Forall_forall in HF.
      specialize (HF p Hp). rewrite (toLowerCase_ascii p), toLowerCase_ascii by auto using ascii_lower.
      apply lower_idem. }
    split; [|done]. rewrite Hlow. apply tag_row_pieces; [by apply Ha|]. by exists p.
  - intros (m & Hm & Hrow & Hlow). rewrite Hlow in Hrow. apply tag_row_pieces in Hrow as (p & Hp & ->); [|by apply Ha].
    exists p. split; [done|]. apply list_elem_of_In, in_concat. exists (tag_pieces m). split.
    + apply in_map_iff. exists m. split; [done|]. by apply list_elem_of_In.
    + by apply list_elem_of_In.
Qed.
End unicode.

(** ** Concrete lists *)

Definition sample_model (name : string) (groups tg : option string) (quota : Z) (v : option Z) : model :=
  {| model_name := u name; description := None; tags := u <$> tg; vendor_id := v; quota_type := quota;
     model_ratio := of_Z 1; model_price := nzero; completion_ratio := of_Z 1; cache_ratio := None;
     create_cache_ratio := None; image_ratio := None; audio_ratio := None; audio_completion_ratio := None;
     enable_groups := (λ g, [u g]) <$> groups; supported_endpoint_types := Some [u "openai"];
     m_key := None; group_ratio := VUndef; vendor_name := None; vendor_icon := None;
     vendor_description := None |}.

Definition sample_body : pricing_body :=
  {| success := true; message := [];
     data := Some [sample_model "claude" (Some "vip"%string) (Some "Vision, Tools;;tools"%string) 0 (Some 2);
                   sample_model "gpt-5" (Some "default"%string) (Some "tools"%string) 1 (Some 1);
                   sample_model "gpt-4" (Some "vip"%string) None 0 (Some 7)];
     vendors := Some [{| v_id := 1; v_name := u "OpenAI"; v_icon := None; v_description := None |};
                      {| v_id := 2; v_name := u "Anthropic"; v_icon := None; v_description := None |}];
     b_group_ratio := VObj [(u "default", VNum (of_Z 1)); (u "vip", VNum (of_Z 2))];
     usable_group := VObj []; supported_endpoint := VNull; auto_groups := VNull |}.

Definition sample_list : pricing := (@loadPricing ascii_unicode (Ok sample_body) pricing0).1.1.

Example sample_list_loaded :
  map model_name (models sample_list) = map u ["gpt-4"; "gpt-5"; "claude"]%string ∧
  map vendor_name (models sample_list) = [None; Some (u "OpenAI"); Some (u "Anthropic")] ∧
  @getAllTags ascii_unicode (models sample_list) [] = map u ["tools"; "vision"]%string.
Proof. vm_compute. done. Qed.

Lemma sample_groups_known : groups_known sample_list.
Proof. repeat constructor; discriminate. Qed.

Lemma counts_are_rows_witness :
  groups_known sample_list ∧
  @shown_rows ascii_unicode (setFilterTag (u "tools") sample_list) =
    Ok (@getTagCount ascii_unicode (@tagModels ascii_unicode sample_list) (u "tools")) ∧
  @getTagCount ascii_unicode (@tagModels ascii_unicode sample_list) (u "tools") = 2%nat.
Proof.
  split; [exact sample_groups_known|]. split; [|vm_compute; reflexivity].
  apply (proj1 (proj2 (proj2 (proj2 (@counts_are_rows ascii_unicode sample_list sample_groups_known))))).
  discriminate.
Defined.

Lemma list_loaded_witness :
  ∃ s' ms, @loadPricing ascii_unicode (Ok sample_body) pricing0 = (s', None, None) ∧ loading s' = false ∧
    StronglySorted (@listed_before ascii_unicode) (models s') ∧ models s' ≡ₚ ms ∧
    Forall2 (listed_as (vendors sample_body)) (default [] (data sample_body)) ms.
Proof. eapply (@list_loaded ascii_unicode sample_body); reflexivity. Defined.

Lemma sample_tags_ascii : Forall ascii_tags (models sample_list).
Proof.
  repeat constructor; intros s Hs; vm_compute in Hs; try discriminate;
    apply (f_equal (default [])) in Hs; cbn in Hs; subst s; repeat constructor; unfold is_ascii; lia.
Qed.

Lemma tag_options_exact_witness :
  u "vision" ∈ @getAllTags ascii_unicode (models sample_list) [] ↔
  ∃ m, m ∈ models sample_list ∧ @tag_row ascii_unicode (@toLowerCase ascii_unicode (u "vision")) m = true ∧
       @toLowerCase ascii_unicode (u "vision") = u "vision".
Proof. exact (@tag_options_exact ascii_unicode (models sample_list) (u "vision") sample_tags_ascii). Defined.

Lemma null_groups_throw_witness :
  @filteredModels ascii_unicode (setFilterGroup (u "vip") (setModels [sample_model "x" None None 0 None] pricing0))
  = Throw TypeError.
Proof.
  refine (proj2 (@null_groups_throw ascii_unicode _ _) _); [vm_compute; discriminate|].
  intros H. apply list.Forall_cons in H as [H _]. by apply H.
Defined.

Lemma failed_load_keeps_loading_witness :
  ∃ s' e, @loadPricing ascii_unicode (Throw (UserError (u "Network Error"))) pricing0 = (s', None, Some e) ∧
          loading s' = true.
Proof. apply (@failed_load_keeps_loading ascii_unicode). left. eexists. reflexivity. Defined.
