(* ===== verification/PriceTable.v ===== *)
(** * The prices of the model list (helpers/utils.jsx, useModelPricingData.jsx)

    Which group a price is computed for, the prices of a model in the currency
    and the unit of the page ([calculateModelPrice], [displayPrice]), the lines
    that show them ([getModelPriceItems]), and the order by price of
    layout/PricingPage.jsx. *)

From Stdlib Require Import QArith Qround Qpower Lqa.
From S2P Require Import Prelude JsString JsNumber JsRounding JsValue Json Browser Quota ModelList.

Local Open Scope Z_scope.

(** ** The settings of the site, fields of [statusState.status] *)

Definition priceRate (status : val) : val := v_coalesce (get_opt status (u "price")) (VNum one).
Definition usdExchangeRate (status : val) : val :=
  v_coalesce (get_opt status (u "usd_exchange_rate")) (priceRate status).
Definition customExchangeRate (status : val) : val :=
  v_coalesce (get_opt status (u "custom_currency_exchange_rate")) (VNum one).
Definition customCurrencySymbol (status : val) : val :=
  v_coalesce (get_opt status (u "custom_currency_symbol")) (VStr (u "¤")).
Definition siteDisplayType (status : val) : val :=
  v_or (get_opt status (u "quota_display_type")) (VStr USD).

Definition displayPrice (status : val) (s : pricing) (usdPrice : num) : res jstr :=
  let! priceInUSD :=
    if showWithRecharge s
    then let! p := to_num (priceRate status) in
         let! r := to_num (usdExchangeRate status) in Ok (ndiv (nmul usdPrice p) r)
    else Ok usdPrice in
  if p_currency s =s CNY then
    let! r := to_num (usdExchangeRate status) in Ok (u "¥" ++ toFixed 3 (nmul priceInUSD r))
  else if p_currency s =s CUSTOM then
    let! symbol := to_str (customCurrencySymbol status) in
    let! r := to_num (customExchangeRate status) in Ok (symbol ++ toFixed 3 (nmul priceInUSD r))
  else Ok (u "$" ++ toFixed 3 priceInUSD).

(** ** The group a price is for *)

(** [a < b] of primitive values *)
Definition js_ltb (a b : val) : res bool :=
  match a, b with
  | VStr s, VStr t => Ok (unit_compare s t <? 0)
  | _, _ => let! x := to_num a in let! y := to_num b in Ok (nltb x y)
  end.

(** The body of [record.enable_groups.forEach], on [minRatio], [usedGroup] and
    [usedGroupRatio] *)
Definition better_group (ratios : val) (best : val * jstr * val) (g : jstr) : res (val * jstr * val) :=
  let '(minRatio, usedGroup, usedGroupRatio) := best in
  let! r := get ratios g in
  if is_undef r then Ok best else
  let! less := js_ltb r minRatio in
  Ok (if less : bool then (r, g, r) else best).

Definition used_group (selected : jstr) (ratios : val) (record : model) : res (jstr * val) :=
  let! ratio := get ratios selected in
  if (selected =s ALL) || is_undef ratio then
    let! best := rfold (better_group ratios) (VNum (Inf false), selected, ratio)
                   (default [] (enable_groups record)) in
    let '(_, usedGroup, usedGroupRatio) := best in
    Ok (usedGroup, if is_undef usedGroupRatio then VNum one else usedGroupRatio)
  else Ok (selected, ratio).

(** ** calculateModelPrice *)

Definition hasRatioValue (value : option num) : bool :=
  match value with Some x => isFinite x | None => false end.

Definition formatRatio (value : option num) : option num :=
  match value with
  | Some x => if isFinite x then Some (Number (toFixed 6 x)) else None
  | None => None
  end.

Inductive price_data :=
| TokenRatios (inputRatio completionRatio cacheRatio createCacheRatio imageRatio
               audioInputRatio audioOutputRatio : option num)
| TokenPrices (inputPrice completionPrice : jstr)
    (cachePrice createCachePrice imagePrice audioInputPrice audioOutputPrice : option jstr)
    (unitLabel : jstr)
| CallPrice (price : jstr).

(** [s.replace(/[^0-9.]/g, '')] *)
Definition keep_decimal (s : jstr) : jstr := List.filter (λ c, is_digit c || (c =? 46)) s.

Section price.
Context (st : storage) (display : num → res jstr) (currency unit : jstr) (precision : Z).

Definition unitDivisor : num := if unit =s u "K" then of_Z 1000 else one.

Definition price_symbol : val :=
  if currency =s CNY then VStr (u "¥")
  else if currency =s CUSTOM then custom_symbol st
  else VStr (u "$").

Definition formatTokenPrice (priceUSD : num) : res jstr :=
  let! raw := display priceUSD in
  let numericPrice := ndiv (parseFloat (keep_decimal raw)) unitDivisor in
  let! symbol := to_str price_symbol in
  Ok (symbol ++ toFixed precision numericPrice).

(** [hasRatioValue(r) ? formatTokenPrice(p * Number(r)) : null] *)
Definition optional_price (p : num) (r : option num) : res (option jstr) :=
  match r with
  | Some x => if isFinite x then rmap Some (formatTokenPrice (nmul p x)) else Ok None
  | None => Ok None
  end.

Definition token_prices (record : model) (ratio : num) : res price_data :=
  let input := nmul (nmul (model_ratio record) (of_Z 2)) ratio in
  let! inputPrice := formatTokenPrice input in
  let! audioInputPrice := optional_price input (audio_ratio record) in
  let! completionPrice := formatTokenPrice (nmul input (completion_ratio record)) in
  let! cachePrice := optional_price input (cache_ratio record) in
  let! createCachePrice := optional_price input (create_cache_ratio record) in
  let! imagePrice := optional_price input (image_ratio record) in
  let! audioOutputPrice :=
    match audio_ratio record with
    | Some a => if has_text audioInputPrice
                then optional_price (nmul input a) (audio_completion_ratio record) else Ok None
    | None => Ok None
    end in
  Ok (TokenPrices inputPrice completionPrice cachePrice createCachePrice imagePrice
        audioInputPrice audioOutputPrice (if unit =s u "K" then u "K" else u "M")).

Definition calculateModelPrice (record : model) (selected : jstr) (ratios : val)
    (quotaDisplayType : jstr) : res (price_data * (jstr * val)) :=
  let! used := used_group selected ratios record in
  let! d :=
    if quota_type record =? 0 then
      let! ratio := to_num used.2 in
      if quotaDisplayType =s TOKENS then
        Ok (TokenRatios (formatRatio (Some (model_ratio record))) (formatRatio (Some (completion_ratio record)))
              (formatRatio (cache_ratio record)) (formatRatio (create_cache_ratio record))
              (formatRatio (image_ratio record)) (formatRatio (audio_ratio record))
              (formatRatio (audio_completion_ratio record)))
      else token_prices record ratio
    else if quota_type record =? 1 then
      let! ratio := to_num used.2 in
      rmap CallPrice (display (nmul (parseFloat (num_to_string (model_price record))) ratio))
    else Ok (CallPrice (u "-")) in
  Ok (d, used).
End price.

(** ** getModelPriceItems *)

Record price_item := { i_key : jstr; i_label : jstr; i_value : val; i_suffix : jstr }.

(** [item.value !== null && item.value !== undefined && item.value !== ''] *)
Definition has_value (i : price_item) : bool :=
  negb (is_nullish (i_value i)) && negb (is_text (i_value i) []).

Definition opt_num (x : option num) : val := match x with Some n => VNum n | None => VNull end.
Definition opt_str (x : option jstr) : val := match x with Some s => VStr s | None => VNull end.

Definition ratio_items `{Env} (values : list val) : list price_item :=
  zip_with (λ kl v, {| i_key := u kl.1; i_label := t (u kl.2) None; i_value := v; i_suffix := u "x" |})
    [("input-ratio", "输入倍率"); ("completion-ratio", "补全倍率"); ("cache-ratio", "缓存读取倍率");
     ("create-cache-ratio", "缓存创建倍率"); ("image-ratio", "图片输入倍率");
     ("audio-input-ratio", "音频输入倍率"); ("audio-output-ratio", "音频补全倍率")]%string values.

Definition token_items `{Env} (suffix : jstr) (values : list val) : list price_item :=
  zip_with (λ kl v, {| i_key := u kl.1; i_label := t (u kl.2) None; i_value := v; i_suffix := suffix |})
    [("input", "输入价格"); ("completion", "补全价格"); ("cache", "缓存读取价格");
     ("create-cache", "缓存创建价格"); ("image", "图片输入价格"); ("audio-input", "音频输入价格");
     ("audio-output", "音频补全价格")]%string values.

Definition getModelPriceItems `{Env} (priceData : price_data) (quotaDisplayType : jstr) : list price_item :=
  List.filter has_value
    match priceData with
    | TokenRatios a b c d e f g => ratio_items (map opt_num [a; b; c; d; e; f; g])
    | TokenPrices a b c d e f g unit =>
      if quotaDisplayType =s TOKENS then ratio_items (replicate 7 VUndef)
      else token_items (u " / 1" ++ unit ++ u " Tokens")
             (map VStr [a; b] ++ map opt_str [c; d; e; f; g])
    | CallPrice p =>
      [{| i_key := u "fixed"; i_label := t (u "模型价格") None; i_value := VStr p;
          i_suffix := u " / " ++ t (u "次") None |}]
    end.

(** ** PricingPage.jsx: the number a row is sorted by *)

(** [/[-+]?[0-9]*\.?[0-9]+/] at the start of a text *)
Definition number_at (s : jstr) : option jstr :=
  let '(sign, r) := match s with
                    | c :: r => if (c =? 45) || (c =? 43) then ([c], r) else ([], s)
                    | [] => ([], s)
                    end in
  let '(i, r) := take_digits r in
  match r with
  | c :: r =>
    let f := (take_digits r).1 in
    if (c =? 46) && nonempty f then Some (sign ++ i ++ 46 :: f)
    else if nonempty i then Some (sign ++ i) else None
  | [] => if nonempty i then Some (sign ++ i) else None
  end.

Fixpoint first_number (s : jstr) : option jstr :=
  match number_at s with
  | Some m => Some m
  | None => match s with [] => None | _ :: s => first_number s end
  end.

Definition extractNumeric (formatted : option jstr) : option num :=
  match formatted with
  | Some s => if nonempty s then parseFloat <$> first_number s else None
  | None => None
  end.

Definition inputNumeric (d : price_data) : option num :=
  match d with
  | TokenRatios _ _ _ _ _ _ _ => extractNumeric None
  | TokenPrices p _ _ _ _ _ _ _ => extractNumeric (Some p)
  | CallPrice p => extractNumeric (Some p)
  end.

(** The comparison functions of [sortedItems] give at most zero; NaN counts as zero. *)
Definition asc_le (a b : option num) : bool :=
  negb (ngtb (nsub (default (Inf false) a) (default (Inf false) b)) nzero).
Definition desc_le (a b : option num) : bool :=
  negb (ngtb (nsub (default (Inf true) b) (default (Inf true) a)) nzero).

Definition sortedItems `{Unicode} {A} (sortBy : jstr) (numeric : A → option num) (name : A → jstr)
    (items : list A) : list A :=
  if sortBy =s u "default" then items
  else if sortBy =s u "price-asc" then sort_by (λ a b, asc_le (numeric a) (numeric b)) items
  else if sortBy =s u "price-desc" then sort_by (λ a b, desc_le (numeric a) (numeric b)) items
  else if sortBy =s u "name" then sort_by (λ a b, localeCompare (name a) (name b) <=? 0) items
  else items.

(** ** The group with the lowest ratio *)

(** The ratio of a group, where it has one *)
Definition ratio_of (ratios : val) (g : jstr) (x : num) : Prop :=
  get ratios g = Ok (VNum x) ∧ isFinite x = true.

Definition ratio_or_none (ratios : val) (g : jstr) : Prop :=
  get ratios g = Ok VUndef ∨ ∃ x, ratio_of ratios g x.

(** [g] has the lowest ratio among [groups], and it is [r]. *)
Definition cheapest (ratios : val) (groups : list jstr) (g : jstr) (r : num) : Prop :=
  g ∈ groups ∧ ratio_of ratios g r ∧
  ∀ g' x, g' ∈ groups → ratio_of ratios g' x → nltb x r = false.

(** What the loop knows after the groups [done] *)
Definition best_so_far (ratios : val) (seen : list jstr) (start : jstr) (best : val * jstr * val) : Prop :=
  (best = (VNum (Inf false), start, VUndef) ∧ ∀ g, g ∈ seen → get ratios g = Ok VUndef) ∨
  (∃ g r, best = (VNum r, g, VNum r) ∧ cheapest ratios seen g r).

Lemma better_group_step ratios seen start best g :
  ratio_or_none ratios g → best_so_far ratios seen start best →
  ∃ best', better_group ratios best g = Ok best' ∧ best_so_far ratios (seen ++ [g]) start best'.
Proof.
  intros Hg Hb. destruct Hg as [Hu|(x & Hx & Hfin)].
  - exists best. unfold better_group. destruct best as [[mr ug] ur]. rewrite Hu. cbn [rbind is_undef]. split; [done|].
    destruct Hb as [[? Hnone]|(g' & r & ? & Hin & Hr & Hmin)]; [left|right].
    + split; [done|]. intros y [Hy|Hy%list_elem_of_singleton]%elem_of_app; [by apply Hnone|by subst].
    + exists g', r. split; [done|]. split; [set_solver|]. split; [done|].
      intros y z [Hy|Hy%list_elem_of_singleton]%elem_of_app [Hz Hz']; [by eapply Hmin|subst; congruence].
  - destruct Hb as [[-> Hnone]|(g' & r & -> & Hin & [Hr Hrf] & Hmin)]; unfold better_group; rewrite Hx; cbn [rbind is_undef js_ltb to_num].
    + assert (nltb x (Inf false) = true) as -> by (by destruct x). eexists. split; [done|]. right. exists g, x. split; [done|].
      split; [set_solver|]. split; [done|].
      intros y z [Hy|Hy%list_elem_of_singleton]%elem_of_app [Hz Hz']; [rewrite (Hnone y Hy) in Hz; done|].
      subst y. rewrite Hx in Hz. apply Ok_inj in Hz. injection Hz as <-. apply nltb_irrefl.
    + destruct (nltb x r) eqn:E; eexists; (split; [done|]); right.
      * exists g, x. split; [done|]. split; [set_solver|]. split; [done|].
        intros y z [Hy|Hy%list_elem_of_singleton]%elem_of_app [Hz Hz'].
        -- apply not_true_is_false. intros Hlt. pose proof (nltb_trans z x r Hz' Hfin Hrf Hlt E) as Hzr.
           by rewrite (Hmin y z Hy (conj Hz Hz')) in Hzr.
        -- subst y. rewrite Hx in Hz. apply Ok_inj in Hz. injection Hz as <-. apply nltb_irrefl.
      * exists g', r. split; [done|]. split; [set_solver|]. split; [done|].
        intros y z [Hy|Hy%list_elem_of_singleton]%elem_of_app Hz; [by eapply Hmin|].
        subst y. destruct Hz as [Hz _]. rewrite Hx in Hz. apply Ok_inj in Hz. by injection Hz as <-.
Qed.

Lemma best_group ratios start groups best seen :
  Forall (ratio_or_none ratios) groups → best_so_far ratios seen start best →
  ∃ best', rfold (better_group ratios) best groups = Ok best' ∧ best_so_far ratios (seen ++ groups) start best'.
Proof.
  intros Hg. revert best seen. induction Hg as [|g groups Hg _ IH]; intros best seen Hb.
  - exists best. by rewrite app_nil_r.
  - destruct (better_group_step ratios seen start best g Hg Hb) as (best' & Hstep & Hb').
    cbn [rfold]. rewrite Hstep. cbn [rbind]. destruct (IH best' (seen ++ [g]) Hb') as (best'' & Hf & Hb'').
    exists best''. split; [done|]. by rewrite <- app_assoc in Hb''.
Qed.

(** without a chosen group, and with one that has no ratio, a model is priced for
    the cheapest of its groups; if none of them has a ratio the ratio is 1. *)
Theorem cheapest_group selected ratios record :
  get ratios selected = Ok VUndef →
  Forall (ratio_or_none ratios) (default [] (enable_groups record)) →
  ∃ g r, used_group selected ratios record = Ok (g, VNum r) ∧
    (cheapest ratios (default [] (enable_groups record)) g r ∨
     (g = selected ∧ r = one ∧
      ∀ g', g' ∈ default [] (enable_groups record) → get ratios g' = Ok VUndef)).
Proof.
  intros Hs Hg. unfold used_group. rewrite Hs. cbn [rbind is_undef]. rewrite orb_true_r.
  destruct (best_group ratios selected _ (VNum (Inf false), selected, VUndef) [] Hg) as (best & -> & Hb).
  { left. split; [done|]. set_solver. }
  cbn [rbind]. destruct Hb as [[-> Hnone]|(g & r & -> & Hc)].
  - exists selected, one. split; [done|]. right. by split_and!.
  - exists g, r. split; [done|]. by left.
Qed.

(** ** The text of a token price *)

Lemma keep_decimal_text sym i fr :
  Forall (λ c, is_digit c || (c =? 46) = false) sym →
  Forall (λ c, is_digit c = true) i → Forall (λ c, is_digit c = true) fr →
  keep_decimal (sym ++ i ++ 46 :: fr) = i ++ 46 :: fr.
Proof.
  intros Hs Hi Hf. unfold keep_decimal. rewrite !List.filter_app.
  rewrite filter_none, (filter_all _ i), (filter_all _ (46 :: fr)); [done|..|done].
  - constructor; [done|]. eapply list.Forall_impl; [exact Hf|]. intros c Hc. cbv beta in Hc |- *. by rewrite Hc.
  - eapply list.Forall_impl; [exact Hi|]. intros c Hc. cbv beta in Hc |- *. by rewrite Hc.
Qed.

(** The displayed amount in thousandths *)
Definition thousandths (m e : Z) : Z := Qfloor (mag m e * (10 # 1) ^ 3 + (1 # 2)).

Lemma thousandths_bounds m e :
  0 ≤ m → (mag m e < inject_Z (10 ^ 9))%Q → 0 ≤ thousandths m e ≤ 10 ^ 12.
Proof.
  intros Hm Hb. unfold thousandths.
  assert (0 <= mag m e)%Q.
  { unfold mag. apply Qmult_le_0_compat; [by rewrite <- (Zle_Qle 0)|apply Qpow_nonneg]. }
  change ((10 # 1) ^ 3)%Q with (inject_Z 1000).
  assert (mag m e * inject_Z 1000 <= inject_Z (10 ^ 9) * inject_Z 1000)%Q by (apply Qmult_le_compat_r; [lra|done]).
  assert (0 <= mag m e * inject_Z 1000)%Q by (apply Qmult_le_0_compat; [lra|done]).
  split.
  - change 0 with (Qfloor 0). apply Qfloor_resp_le. lra.
  - apply Z.lt_succ_r. change (Z.succ (10 ^ 12)) with (Qfloor (inject_Z (10 ^ 12 + 1))).
    pose proof (Qfloor_le (mag m e * inject_Z 1000 + (1 # 2))).
    rewrite Qfloor_Z. rewrite Zlt_Qlt. rewrite inject_Z_plus.
    change (inject_Z (10 ^ 9) * inject_Z 1000)%Q with (inject_Z (10 ^ 12)) in *.
    change (inject_Z 1) with 1%Q. lra.
Qed.

(** What is read back from a displayed amount *)
Lemma read_displayed sym m e :
  Forall (λ c, is_digit c || (c =? 46) = false) sym →
  0 ≤ m → (mag m e < inject_Z (10 ^ 9))%Q →
  parseFloat (keep_decimal (sym ++ toFixed 3 (Fin false m e))) = dec_to_num false (thousandths m e) (-3).
Proof.
  intros Hs Hm Hb. pose proof (thousandths_bounds m e Hm Hb) as Hn.
  assert (inject_Z (10 ^ 9) < (10 # 1) ^ 21)%Q by done.
  rewrite toFixed_text; [|done|lra]. fold (thousandths m e).
  destruct (fixed_text_shape 3 (thousandths m e) ltac:(lia) ltac:(lia)) as (i & fr & -> & Hne & Hi & Hf & Hl & Hv).
  rewrite keep_decimal_text, parseFloat_decimal by done. by rewrite Hv, Hl.
Qed.

(** The four digits after the point that a unit shows of [n] thousandths *)
Definition shown_digits (unit : jstr) (n : Z) : Z := if unit =s u "K" then (n + 50) / 100 else 10 * n.

Lemma divisor_exactly unit :
  ∃ p l, (l = 0 ∨ l = 10) ∧ bounded l p ∧ exactly p (unitDivisor unit) ∧
         (p == if unit =s u "K" then inject_Z 1000 else 1)%Q.
Proof.
  unfold unitDivisor. destruct (bool_decide (unit = u "K")).
  - exists (inject_Z 1000), 10. split; [by right|]. split; [split; [by vm_compute|by vm_compute]|]. split; [|done].
    eexists _, _. split; [vm_compute; reflexivity|]. split; [by vm_compute|done].
  - exists 1%Q, 0. split; [by left|]. split; [split; done|]. split; [|done].
    eexists _, _. split; [vm_compute; reflexivity|]. split; [by vm_compute|done].
Qed.

Lemma nearest_hundred n :
  n mod 100 ≠ 50 → 100 * ((n + 50) / 100) - 49 ≤ n ≤ 100 * ((n + 50) / 100) + 49.
Proof.
  intros Htie. pose proof (Z.div_mod (n + 50) 100 ltac:(lia)).
  pose proof (Z.mod_pos_bound (n + 50) 100 ltac:(lia)).
  assert ((n + 50) mod 100 ≠ 0); [|lia]. intros Hmod. apply Htie.
  replace n with (50 + ((n + 50) / 100 - 1) * 100) by lia. by rewrite Z.mod_add.
Qed.

Lemma unit_text unit n :
  0 ≤ n ≤ 10 ^ 12 → (unit = u "K" → n mod 100 ≠ 50) →
  toFixed 4 (ndiv (dec_to_num false n (-3)) (unitDivisor unit)) = fixed_text 4 (shown_digits unit n).
Proof.
  intros Hn Htie. destruct (decide (n = 0)) as [->|Hne].
  { unfold unitDivisor, shown_digits. by destruct (bool_decide (unit = u "K")). }
  set (q := dec_q n (-3)).
  assert (Hq : (q == inject_Z n * (1 # 1000))%Q) by (unfold q, dec_q; by change ((10 # 1) ^ (-3))%Q with (1 # 1000)).
  assert (Hnq : (1 <= inject_Z n /\ inject_Z n <= inject_Z (10 ^ 12))%Q).
  { change 1%Q with (inject_Z 1). rewrite <- !Zle_Qle. lia. }
  assert (Hb : bounded 40 q).
  { rewrite Hq. split.
    - apply Qle_trans with (1 * (1 # 1000) * inject_Z (2 ^ 40))%Q; [done|].
      apply Qmult_le_compat_r; [lra|done].
    - apply Qle_trans with (inject_Z (10 ^ 12) * (1 # 1000))%Q; [lra|done]. }
  destruct (round_q_near false q 40 ltac:(lia) Hb) as (m & e & Hr & Hnear).
  assert (Ha : approx u53 q (dec_to_num false n (-3))) by (exists m, e; split; [exact Hr|done]).
  destruct (divisor_exactly unit) as (p & l & Hl & Hbp & Hp & Hpq).
  assert (Hd : approx (more u53) (q / p) (ndiv (dec_to_num false n (-3)) (unitDivisor unit))).
  { apply (ndiv_approx _ _ 40 p l); [lia|lia|lia|by split|done..]. }
  set (E := more u53) in *. assert (HE : (0 <= E /\ E <= 1 # 1000000000000000)%Q) by (split; done).
  clearbody E. unfold shown_digits. set (k := inject_Z n) in *.
  assert (HkE : (0 <= k * E /\ k * E <= 1 # 1000)%Q).
  { split; [apply Qmult_le_0_compat; lra|].
    apply Qle_trans with (inject_Z (10 ^ 12) * E)%Q; [apply Qmult_le_compat_r; lra|].
    change (inject_Z (10 ^ 12)) with 1000000000000%Q. lra. }
  rewrite Hpq in Hd. change ((10 # 1) ^ 4)%Q with 10000%Q.
  destruct (bool_decide_reflect (unit = u "K")) as [HK|HK].
  - pose proof (nearest_hundred n (Htie HK)) as Hz.
    set (z := (n + 50) / 100) in *.
    assert (Hzq : (100 * inject_Z z - 49 <= k /\ k <= 100 * inject_Z z + 49)%Q).
    { unfold k. change 100%Q with (inject_Z 100). change 49%Q with (inject_Z 49). unfold Qminus.
      rewrite <- inject_Z_opp, <- inject_Z_mult, <- !inject_Z_plus, <- !Zle_Qle. lia. }
    assert (Hqk : (q / inject_Z 1000 == k * (1 # 1000000))%Q) by (rewrite Hq; unfold Qdiv; change (/ inject_Z 1000)%Q with (1 # 1000); ring).
    rewrite Hqk in Hd. apply (toFixed_near 4 z E _ _ ltac:(lia) Hd); change ((10 # 1) ^ 4)%Q with 10000%Q.
    + change ((10 # 1) ^ 21)%Q with 1000000000000000000000%Q. change (inject_Z (10 ^ 12)) with 1000000000000%Q in *. lra.
    + lra.
    + lra.
  - assert (Hqk : (q / 1 == k * (1 # 1000))%Q) by (rewrite Hq; unfold Qdiv; change (/ 1)%Q with 1%Q; ring).
    assert (Hzk : (inject_Z (10 * n) == 10 * k)%Q) by (unfold k; rewrite inject_Z_mult; done).
    rewrite Hqk in Hd. apply (toFixed_near 4 (10 * n) E _ _ ltac:(lia) Hd); change ((10 # 1) ^ 4)%Q with 10000%Q; rewrite ?Hzk.
    + change ((10 # 1) ^ 21)%Q with 1000000000000000000000%Q. change (inject_Z (10 ^ 12)) with 1000000000000%Q in *. lra.
    + lra.
    + lra.
Qed.

(** The number that [displayPrice] prints *)
Definition displayed (status : val) (s : pricing) (usdPrice : num) : res num :=
  let! p := if showWithRecharge s
            then let! p := to_num (priceRate status) in
                 let! r := to_num (usdExchangeRate status) in Ok (ndiv (nmul usdPrice p) r)
            else Ok usdPrice in
  if p_currency s =s CNY then rmap (nmul p) (to_num (usdExchangeRate status)) else Ok p.

(** C29: in dollars and in yuan, an amount below 10^9 is shown to the thousandth
    for the unit of a million tokens; for the unit of a thousand tokens the
    price shown is a thousandth of the displayed thousandths, rounded to four
    digits, when these do not end in 50, where the rounding of the doubles
    decides.  Prices in a custom currency are not covered: there the symbol
    may be read as part of the number. *)
Theorem token_price_shown st status s p m e :
  p_currency s ≠ CUSTOM → displayed status s p = Ok (Fin false m e) →
  0 ≤ m → (mag m e < inject_Z (10 ^ 9))%Q →
  (tokenUnit s = u "K" → thousandths m e mod 100 ≠ 50) →
  formatTokenPrice st (displayPrice status s) (p_currency s) (tokenUnit s) 4 p =
  Ok ((if p_currency s =s CNY then u "¥" else u "$") ++
      fixed_text 4 (shown_digits (tokenUnit s) (thousandths m e))).
Proof.
  intros Hc Hd Hm Hb Htie. unfold formatTokenPrice.
  assert (Hraw : displayPrice status s p =
    Ok ((if p_currency s =s CNY then u "¥" else u "$") ++ toFixed 3 (Fin false m e))).
  { unfold displayed in Hd. unfold displayPrice.
    destruct (if showWithRecharge s then _ else _) as [x|]; cbn [rbind] in *; [|done].
    rewrite (bool_decide_eq_false_2 (p_currency s = CUSTOM)) by done.
    destruct (bool_decide (p_currency s = CNY)).
    - destruct (to_num (usdExchangeRate status)) as [r|]; cbn [rbind rmap] in *; [|done].
      apply Ok_inj in Hd. by rewrite Hd.
    - apply Ok_inj in Hd. by rewrite Hd. }
  rewrite Hraw. cbn [rbind]. rewrite read_displayed; [|by destruct (bool_decide _); repeat constructor|done..].
  assert (to_str (price_symbol st (p_currency s)) = Ok (if p_currency s =s CNY then u "¥" else u "$")) as ->.
  { unfold price_symbol. rewrite (bool_decide_eq_false_2 (p_currency s = CUSTOM)) by done.
    by destruct (bool_decide (p_currency s = CNY)). }
  cbn [rbind]. rewrite unit_text; [done|by apply thousandths_bounds|done].
Qed.

(** A custom symbol with a point is read as part of the price: 12 rupees per
    million tokens are shown as 0.12. *)
Definition rupees : pricing := set_display ALL 1 CUSTOM false (u "M") pricing0.
Definition rupee_status : val := VObj [(u "custom_currency_symbol", VStr (u "Rs."))].

Theorem symbol_point_corrupts :
  displayPrice rupee_status rupees (of_Z 12) = Ok (u "Rs.12.000") ∧
  formatTokenPrice (<[u "status" := uq "{'custom_currency_symbol':'Rs.'}"]> ∅) (displayPrice rupee_status rupees)
    CUSTOM (u "M") 4 (of_Z 12) = Ok (u "Rs.0.1200").
Proof. vm_compute. done. Qed.

(** Resetting the filters leaves the chosen group in charge of the prices,
    although the page shows the models of all groups. *)
Theorem reset_keeps_group s g r record :
  ratio_of (groupRatio s) g r → g ≠ ALL →
  let s' := resetPricingFilters (handleGroupClick g s) in
  filterGroup s' = ALL ∧ used_group (selectedGroup s') (groupRatio s') record = Ok (g, VNum r).
Proof.
  intros [Hg _] Hne. split; [done|]. cbn [resetPricingFilters handleGroupClick].
  change (used_group g (groupRatio s) record = Ok (g, VNum r)). unfold used_group. rewrite Hg. cbn [rbind is_undef].
  by rewrite bool_decide_eq_false_2.
Qed.

(** ** Order by price *)

(** The number of a row: missing, or finite *)
Definition numeric_ok (a : option num) : Prop :=
  match a with Some x => num_wf x ∧ isFinite x = true | None => True end.

(** [a] is not dearer than [b]; rows without a price are last. *)
Definition not_dearer (a b : option num) : Prop :=
  match a, b with
  | Some x, Some y => nltb y x = false
  | None, Some _ => False
  | _, None => True
  end.

(** [a] is not cheaper than [b]; rows without a price are last. *)
Definition not_cheaper (a b : option num) : Prop :=
  match a, b with
  | Some x, Some y => nltb x y = false
  | None, Some _ => False
  | _, None => True
  end.

Lemma asc_le_spec a b : numeric_ok a → numeric_ok b → asc_le a b = true ↔ not_dearer a b.
Proof.
  unfold asc_le. destruct a as [x|], b as [y|]; cbn [default from_option id numeric_ok not_dearer].
  - intros [? ?] [? ?]. rewrite nsub_positive by done. by destruct (nltb y x).
  - intros [? ?] _. by destruct x.
  - intros _ [? ?]. by destruct y.
  - done.
Qed.

Lemma desc_le_spec a b : numeric_ok a → numeric_ok b → desc_le a b = true ↔ not_cheaper a b.
Proof.
  unfold desc_le. destruct a as [x|], b as [y|]; cbn [default from_option id numeric_ok not_cheaper].
  - intros [? ?] [? ?]. rewrite nsub_positive by done. by destruct (nltb x y).
  - intros [? ?] _. by destruct x.
  - intros _ [? ?]. by destruct y.
  - done.
Qed.

(** Rows sorted by a key that is ordered on the admissible keys *)
Lemma sorted_rows {A} (numeric : A → option num) (le : option num → option num → bool)
    (R : option num → option num → Prop) items :
  Forall (λ a, numeric_ok (numeric a)) items →
  (∀ a b, numeric_ok a → numeric_ok b → le a b = true ↔ R a b) →
  (∀ a b, numeric_ok a → numeric_ok b → R a b ∨ R b a) →
  (∀ a b c, numeric_ok a → numeric_ok b → numeric_ok c → R a b → R b c → R a c) →
  StronglySorted (λ a b, R (numeric a) (numeric b)) (sort_by (λ a b, le (numeric a) (numeric b)) items).
Proof.
  intros Hok Hspec Ht Htr. set (leA := λ a b, le (numeric a) (numeric b)).
  assert (Hs : StronglySorted (λ a b, leA a b = true) (sort_by leA items)).
  { apply (sort_by_sorted_on (λ a, numeric_ok (numeric a))); [..|done]; unfold leA.
    - intros x y Hx Hy. rewrite !Hspec by done. auto.
    - intros x y z Hx Hy Hz. rewrite !Hspec by done. by apply Htr. }
  assert (HP : Forall (λ a, numeric_ok (numeric a)) (sort_by leA items)) by (by rewrite sort_by_perm).
  clear -Hs HP Hspec. induction Hs as [|x l Hl IH Hx]; [constructor|].
  apply list.Forall_cons in HP as [Px Pl]. constructor; [by apply IH|].
  apply Forall_forall. intros y Hy. rewrite Forall_forall in Hx, Pl. apply Hspec; [done|by apply Pl|by apply Hx].
Qed.

(** sorting the rows by price keeps all of them and orders them by the number in
    their price text, upwards or downwards, with the rows without one last. *)
Theorem sorted_by_price `{Unicode} {A} (numeric : A → option num) (name : A → jstr) items :
  Forall (λ a, numeric_ok (numeric a)) items →
  let up := sortedItems (u "price-asc") numeric name items in
  let down := sortedItems (u "price-desc") numeric name items in
  up ≡ₚ items ∧ StronglySorted (λ a b, not_dearer (numeric a) (numeric b)) up ∧
  down ≡ₚ items ∧ StronglySorted (λ a b, not_cheaper (numeric a) (numeric b)) down.
Proof.
  intros Hok up down.
  assert (Hup : up = sort_by (λ a b, asc_le (numeric a) (numeric b)) items) by reflexivity.
  assert (Hdown : down = sort_by (λ a b, desc_le (numeric a) (numeric b)) items) by reflexivity.
  clearbody up down. subst up down.
  split_and!; [by rewrite sort_by_perm|apply sorted_rows|by rewrite sort_by_perm|apply sorted_rows]; try done.
  - apply asc_le_spec.
  - intros [x|] [y|]; cbn; eauto. intros [_ ?] [_ ?]. by apply nltb_cases.
  - intros [x|] [y|] [z|]; cbn; try done. intros [_ ?] [_ ?] [_ ?]. by apply nltb_false_trans.
  - apply desc_le_spec.
  - intros [x|] [y|]; cbn; eauto. intros [_ ?] [_ ?]. by apply nltb_cases.
  - intros [x|] [y|] [z|]; cbn; try done. intros [_ ?] [_ ?] [_ ?] ? ?. by eapply (nltb_false_trans z y x).
Qed.

(** ** Concrete prices *)

Definition sample_ratios : val := VObj [(u "default", VNum (of_Z 1)); (u "vip", VNum (dec_to_num false 8 (-1)))].
Definition sample_record : model :=
  let m := sample_model "gpt-5" None None 0 None in
  {| model_name := model_name m; description := None; tags := None; vendor_id := None; quota_type := 0;
     model_ratio := dec_to_num false 625 (-3); model_price := nzero; completion_ratio := of_Z 8;
     cache_ratio := Some (dec_to_num false 1 (-1)); create_cache_ratio := None; image_ratio := None;
     audio_ratio := None; audio_completion_ratio := None; enable_groups := Some [u "default"; u "vip"; u "svip"];
     supported_endpoint_types := None; m_key := None; group_ratio := VUndef; vendor_name := None;
     vendor_icon := None; vendor_description := None |}.

Example sample_prices :
  calculateModelPrice ∅ (displayPrice VUndef pricing0) USD (u "M") 4 sample_record ALL sample_ratios USD =
  Ok (TokenPrices (u "$1.0000") (u "$8.0000") (Some (u "$0.1000")) None None None None (u "M"),
      (u "vip", VNum (dec_to_num false 8 (-1)))).
Proof. vm_compute. reflexivity. Qed.

Lemma cheapest_group_witness :
  ∃ g r, used_group ALL sample_ratios sample_record = Ok (g, VNum r) ∧
    (cheapest sample_ratios (default [] (enable_groups sample_record)) g r ∨
     (g = ALL ∧ r = one ∧
      ∀ g', g' ∈ default [] (enable_groups sample_record) → get sample_ratios g' = Ok VUndef)).
Proof.
  apply (cheapest_group ALL sample_ratios sample_record); [vm_compute; reflexivity|].
  apply list.Forall_cons; split; [|apply list.Forall_cons; split; [|apply list.Forall_cons; split; [|constructor]]].
  - right. exists (of_Z 1). split; vm_compute; reflexivity.
  - right. exists (dec_to_num false 8 (-1)). split; vm_compute; reflexivity.
  - left. vm_compute. reflexivity.
Defined.

(** 2.5 dollars per million tokens, shown per thousand *)
Definition sample_page : pricing := set_display ALL 1 USD false (u "K") pricing0.

Lemma token_price_shown_witness :
  formatTokenPrice ∅ (displayPrice VUndef sample_page) USD (u "K") 4 (Fin false (5 * 2 ^ 50) (-51)) =
    Ok (u "$" ++ fixed_text 4 25) ∧ fixed_text 4 25 = u "0.0025".
Proof.
  split; [|vm_compute; reflexivity].
  refine (eq_trans (token_price_shown ∅ VUndef sample_page (Fin false (5 * 2 ^ 50) (-51))
            (5 * 2 ^ 50) (-51) _ _ _ _ _) _).
  - vm_compute. discriminate.
  - reflexivity.
  - lia.
  - vm_compute. reflexivity.
  - intros _. vm_compute. discriminate.
  - vm_compute. reflexivity.
Defined.

(** 4 cents per million tokens are shown as nothing per thousand. *)
Example small_price_vanishes :
  formatTokenPrice ∅ (displayPrice VUndef sample_page) USD (u "K") 4 (dec_to_num false 4 (-2)) = Ok (u "$0.0000").
Proof. vm_compute. reflexivity. Qed.

Lemma reset_keeps_group_witness :
  let s := set_list [sample_record] ∅ false sample_ratios VUndef VUndef VUndef pricing0 in
  let s' := resetPricingFilters (handleGroupClick (u "default") s) in
  filterGroup s' = ALL ∧
  used_group (selectedGroup s') (groupRatio s') sample_record = Ok (u "default", VNum (of_Z 1)).
Proof.
  apply reset_keeps_group; [split; vm_compute; reflexivity|vm_compute; discriminate].
Defined.

Lemma sorted_by_price_witness :
  let items := [Some (of_Z 3); None; Some (of_Z 1)] in
  let up := @sortedItems ascii_unicode _ (u "price-asc") id (λ _, []) items in
  let down := @sortedItems ascii_unicode _ (u "price-desc") id (λ _, []) items in
  up ≡ₚ items ∧ StronglySorted (λ a b, not_dearer a b) up ∧
  down ≡ₚ items ∧ StronglySorted (λ a b, not_cheaper a b) down.
Proof.
  apply (@sorted_by_price ascii_unicode (option num) id).
  constructor; [split; [apply of_Z_wf|reflexivity]|].
  constructor; [exact I|]. constructor; [split; [apply of_Z_wf|reflexivity]|constructor].
Defined.
