(* ===== verification/JsDate.v ===== *)
(** * Dates

    [new Date(x)] and the local fields of a date.  A date is its time value, an
    integer number of milliseconds since 1970 in UTC.  The local time differs
    from it by the offset of the time zone of the browser, the interface
    [TimeZone]; years, months and days are those of the proleptic Gregorian
    calendar, as ECMA-262 defines them. *)

From Stdlib Require Import QArith Qround.
From S2P Require Import Prelude JsString JsNumber.

Local Open Scope Z_scope.

Class TimeZone := {
  (** local time minus UTC in milliseconds, at a time value *)
  tz_offset : Z → Z;
}.

Definition utc : TimeZone := {| tz_offset := λ _, 0 |}.

(** ** The calendar *)

(** Year, month (1..12) and day of month of a day number (0 is 1970-01-01): eras of
    400 years that begin on the first of March *)
Definition year_of_era (doe : Z) : Z := (doe - doe / 1460 + doe / 36524 - doe / 146096) / 365.
Definition day_of_year (doe : Z) : Z :=
  let yoe := year_of_era doe in doe - (365 * yoe + yoe / 4 - yoe / 100).

Definition civil (days : Z) : Z * Z * Z :=
  let z := days + 719468 in
  let era := z / 146097 in
  let doe := z mod 146097 in
  let doy := day_of_year doe in
  let mp := (5 * doy + 2) / 153 in
  let d := doy - (153 * mp + 2) / 5 + 1 in
  let m := if mp <? 10 then mp + 3 else mp - 9 in
  (year_of_era doe + era * 400 + (if m <=? 2 then 1 else 0), m, d).

(** The day number of a date *)
Definition days_of_civil (y m d : Z) : Z :=
  let y := if m <=? 2 then y - 1 else y in
  let era := y / 400 in
  let yoe := y mod 400 in
  let mp := if 2 <? m then m - 3 else m + 9 in
  let doy := (153 * mp + 2) / 5 + d - 1 in
  era * 146097 + (yoe * 365 + yoe / 4 - yoe / 100 + doy) - 719468.

(** ** Dates *)

(** [new Date(x)]: its time value, [None] for an invalid date *)
Definition date_of (x : num) : option Z :=
  match x with
  | Fin s m e =>
    if Qle_bool (mag m e) (inject_Z 8640000000000000)
    then Some (if s then - Qfloor (mag m e) else Qfloor (mag m e)) else None
  | _ => None
  end.

Section fields.
Context `{TimeZone}.

Definition local_time (t : Z) : Z := t + tz_offset t.
Definition local_civil (t : Z) : Z * Z * Z := civil (local_time t / 86400000).

Definition getFullYear (t : Z) : Z := (local_civil t).1.1.
(** [getMonth() + 1] *)
Definition month (t : Z) : Z := (local_civil t).1.2.
Definition getDate (t : Z) : Z := (local_civil t).2.
Definition getHours (t : Z) : Z := local_time t / 3600000 mod 24.
Definition getMinutes (t : Z) : Z := local_time t / 60000 mod 60.
Definition getSeconds (t : Z) : Z := local_time t / 1000 mod 60.
End fields.

(** The text of a field; an invalid date has NaN in all of them. *)
Definition field_text (f : Z → Z) (d : option Z) : jstr :=
  match d with Some t => decZ (f t) | None => u "NaN" end.

(** [if (x.length === 1) x = '0' + x] *)
Definition pad2 (s : jstr) : jstr := if bool_decide (length s = 1%nat) then 48 :: s else s.

(** ** The calendar is right *)

(** The first day of a year of an era *)
Definition year_start (y : Z) : Z := 365 * y + y / 4 - y / 100.

Definition year_ok (y : Z) : bool :=
  (year_of_era (year_start y) =? y) && ((y =? 399) || (year_of_era (year_start (y + 1) - 1) =? y)).
Definition day_ok (doy : Z) : bool :=
  let mp := (5 * doy + 2) / 153 in let d := doy - (153 * mp + 2) / 5 + 1 in
  (0 <=? mp) && (mp <=? 11) && (1 <=? d) && (d <=? 31).

Fixpoint check_from (p : Z → bool) (n : nat) (z : Z) : bool :=
  match n with O => true | S n => p z && check_from p n (z + 1) end.

Lemma check_from_spec p n z : check_from p n z = true → ∀ x, z ≤ x < z + Z.of_nat n → p x = true.
Proof.
  revert z. induction n as [|n IH]; intros z H x Hx; [lia|]. cbn [check_from] in H. boolify.
  destruct (decide (x = z)) as [->|]; [done|]. apply (IH (z + 1)); [done|lia].
Qed.

Lemma years_checked y : 0 ≤ y ≤ 399 → year_ok y = true.
Proof.
  intros Hy. apply (check_from_spec year_ok 400 0); [vm_compute; reflexivity|].
  change (Z.of_nat 400) with 400. lia.
Qed.

Lemma days_checked d : 0 ≤ d ≤ 365 → day_ok d = true.
Proof.
  intros Hd. apply (check_from_spec day_ok 366 0); [vm_compute; reflexivity|].
  change (Z.of_nat 366) with 366. lia.
Qed.

Lemma year_of_era_step x : 0 ≤ x < 146096 → year_of_era x ≤ year_of_era (x + 1).
Proof.
  intros Hx. unfold year_of_era. apply Z.div_le_mono; [lia|].
  Z.to_euclidean_division_equations. lia.
Qed.

Lemma year_of_era_mono x y : 0 ≤ x ≤ y → y ≤ 146096 → year_of_era x ≤ year_of_era y.
Proof.
  intros Hxy Hy. replace y with (x + Z.of_nat (Z.to_nat (y - x))) by lia.
  assert (Hn : x + Z.of_nat (Z.to_nat (y - x)) ≤ 146096) by lia. revert Hn.
  induction (Z.to_nat (y - x)) as [|n IH]; intros Hn; [by rewrite Z.add_0_r|].
  etransitivity; [apply IH; lia|]. replace (x + Z.of_nat (S n)) with (x + Z.of_nat n + 1) by lia.
  apply year_of_era_step. lia.
Qed.

(** A day of an era is a day of its year. *)
Lemma day_of_year_range doe : 0 ≤ doe < 146097 → 0 ≤ year_of_era doe ≤ 399 ∧ 0 ≤ day_of_year doe ≤ 365.
Proof.
  intros Hd. pose proof (year_of_era_mono 0 doe ltac:(lia) ltac:(lia)) as Hlo.
  pose proof (year_of_era_mono doe 146096 ltac:(lia) ltac:(lia)) as Hhi.
  change (year_of_era 0) with 0 in Hlo. change (year_of_era 146096) with 399 in Hhi.
  split; [lia|]. unfold day_of_year. set (y := year_of_era doe) in *. fold (year_start y).
  pose proof (years_checked y ltac:(lia)) as Hy. unfold year_ok in Hy. boolify.
  assert (Hs : ∀ z, 0 ≤ z ≤ 399 → 0 ≤ year_start z ≤ 145731).
  { intros z Hz. unfold year_start. Z.to_euclidean_division_equations. lia. }
  assert (Hstep : year_start y ≤ doe).
  { destruct (Z.le_gt_cases (year_start y) doe) as [|Hgt]; [done|]. exfalso.
    assert (1 ≤ y) by (destruct (decide (y = 0)) as [E|]; [rewrite E in Hgt; change (year_start 0) with 0 in Hgt; lia|lia]).
    pose proof (years_checked (y - 1) ltac:(lia)) as Hp. unfold year_ok in Hp. boolify.
    match goal with H : _ || _ = true |- _ => apply orb_true_iff in H as [H|H] end; boolify; [lia|].
    replace (y - 1 + 1) with y in * by lia. pose proof (Hs y ltac:(lia)).
    pose proof (year_of_era_mono doe (year_start y - 1) ltac:(lia) ltac:(lia)). lia. }
  split; [lia|]. destruct (decide (y = 399)) as [E|Hne].
  { rewrite E. change (year_start 399) with 145731. lia. }
  destruct (Z.le_gt_cases (year_start (y + 1)) doe) as [Hge|Hlt].
  - exfalso. pose proof (Hs (y + 1) ltac:(lia)).
    pose proof (years_checked (y + 1) ltac:(lia)) as Hp. unfold year_ok in Hp. boolify.
    pose proof (year_of_era_mono (year_start (y + 1)) doe ltac:(lia) ltac:(lia)). lia.
  - assert (year_start (y + 1) ≤ year_start y + 366); [|lia].
    unfold year_start. Z.to_euclidean_division_equations. lia.
Qed.

Lemma era_parts doe :
  0 ≤ doe < 146097 →
  let yoe := year_of_era doe in let doy := day_of_year doe in
  let mp := (5 * doy + 2) / 153 in let d := doy - (153 * mp + 2) / 5 + 1 in
  0 ≤ yoe ≤ 399 ∧ 0 ≤ mp ≤ 11 ∧ 1 ≤ d ≤ 31.
Proof.
  intros Hd. destruct (day_of_year_range doe Hd) as [Hy Hdoy].
  pose proof (days_checked (day_of_year doe) ltac:(lia)) as H.
  unfold day_ok in H. cbv zeta in *. boolify. lia.
Qed.

(** Every day number is that of its date, and month and day are in range. *)
Theorem civil_days days :
  let '(y, m, d) := civil days in
  days_of_civil y m d = days ∧ 1 ≤ m ≤ 12 ∧ 1 ≤ d ≤ 31.
Proof.
  unfold civil. pose proof (Z.mod_pos_bound (days + 719468) 146097 ltac:(lia)) as Hdoe.
  pose proof (Z.div_mod (days + 719468) 146097 ltac:(lia)) as Hz.
  set (era := (days + 719468) / 146097) in *. set (doe := (days + 719468) mod 146097) in *.
  destruct (era_parts doe Hdoe) as (Hy & Hmp & Hd). cbv zeta in Hmp, Hd.
  set (yoe := year_of_era doe) in *.
  assert (Hdoy : day_of_year doe = doe - (365 * yoe + yoe / 4 - yoe / 100)) by reflexivity.
  set (doy := day_of_year doe) in *. set (mp := (5 * doy + 2) / 153) in *. clearbody mp yoe doe era.
  unfold days_of_civil.
  assert (Hm : 1 ≤ (if mp <? 10 then mp + 3 else mp - 9) ≤ 12 ∧
    (if 2 <? (if mp <? 10 then mp + 3 else mp - 9) then (if mp <? 10 then mp + 3 else mp - 9) - 3
     else (if mp <? 10 then mp + 3 else mp - 9) + 9) = mp).
  { destruct (Z.ltb_spec mp 10); match goal with |- context [2 <? ?x] => destruct (Z.ltb_spec 2 x) end; lia. }
  destruct Hm as [Hm1 Hm2]. set (m := if mp <? 10 then mp + 3 else mp - 9) in *. clearbody m.
  split; [|lia]. rewrite Hm2.
  assert (Hyear : (if m <=? 2 then yoe + era * 400 + (if m <=? 2 then 1 else 0) - 1
                   else yoe + era * 400 + (if m <=? 2 then 1 else 0)) = yoe + era * 400)
    by (destruct (m <=? 2); lia).
  rewrite Hyear, Z.div_add, Z.mod_add, (Z.div_small yoe), (Z.mod_small yoe) by lia. lia.
Qed.

(** ** Texts of fields *)

Lemma dec_two n : 10 ≤ n < 100 → ∃ a b, dec n = [a; b].
Proof.
  intros Hn. unfold dec. assert (3 ≤ Z.log2 n) by (apply Z.log2_le_pow2; lia).
  destruct (Z.to_nat (Z.log2 n)) as [|f] eqn:E; [lia|]. cbn [dec_go].
  rewrite (proj2 (Z.ltb_ge n 10)) by lia.
  rewrite (proj2 (Z.ltb_lt (n / 10) 10)) by (apply Z.div_lt_upper_bound; lia). cbn [app]. eauto.
Qed.

Lemma pad2_length f t :
  0 ≤ f t < 100 → length (pad2 (field_text f (Some t))) = 2%nat.
Proof.
  intros Hf. cbn [field_text]. unfold decZ. rewrite (proj2 (Z.ltb_ge (f t) 0)) by lia.
  destruct (Z.lt_ge_cases (f t) 10) as [Hlt|Hge].
  - assert (∃ a, dec (f t) = [a]) as [a ->].
    { unfold dec. cbn [dec_go]. rewrite (proj2 (Z.ltb_lt (f t) 10)) by lia. eauto. }
    done.
  - destruct (dec_two (f t) ltac:(lia)) as (a & b & ->). done.
Qed.
