(* ===== verification/Dashboard.v ===== *)
(** * The usage figures of the dashboard (helpers/dashboard.jsx)

    The rows of usage the server sends are added up by time and by model:
    totals, trends and the data of the four charts ([updateChartData] of
    hooks/dashboard/useDashboardCharts.jsx), with the time labels of
    helpers/utils.jsx.  [loadQuotaData] of useDashboardData.js prepares the rows.
    A [Map] is the list of its entries in insertion order. *)

From Stdlib Require Import QArith.
From S2P Require Import Prelude JsString JsNumber JsRounding JsValue Browser JsDate Quota.

Local Open Scope Z_scope.

(** ** Data *)

(** A row of usage.  A field that is missing, [undefined], acts as NaN in sums. *)
Record usage := {
  created_at : num;   (* seconds *)
  model_name : jstr;
  quota : num;
  token_used : num;
  count : num;
}.

Abbreviation jmap A := (list (jstr * A)).

Fixpoint map_get {A} (m : jmap A) (k : jstr) : option A :=
  match m with
  | [] => None
  | (k', v) :: m => if k' =s k then Some v else map_get m k
  end.

Fixpoint map_set {A} (m : jmap A) (k : jstr) (v : A) : jmap A :=
  match m with
  | [] => [(k, v)]
  | (k', v') :: m => if k' =s k then (k', v) :: m else (k', v') :: map_set m k v
  end.

Definition map_has {A} (m : jmap A) (k : jstr) : bool := bool_decide (is_Some (map_get m k)).

(** [map.get(key) + value] of a key that is there, NaN of one that is not *)
Definition num_at (m : jmap num) (k : jstr) : num := default NaN (map_get m k).

Definition updateMapValue (m : jmap num) (key : jstr) (value : num) : jmap num :=
  let m := if map_has m key then m else map_set m key nzero in
  map_set m key (nadd (num_at m key) value).

Definition initialize_map (key : jstr) (m : jmap num) : jmap num :=
  if map_has m key then m else map_set m key nzero.

(** ** Time labels (helpers/utils.jsx) *)

Definition HOUR : jstr := u "hour".
Definition DAY : jstr := u "day".
Definition WEEK : jstr := u "week".

Section dashboard.
Context `{TimeZone} `{Unicode}.

(** [new Date(timestamp * 1000)] *)
Definition stamp_date (timestamp : num) : option Z := date_of (nmul timestamp (of_Z 1000)).

(** [month + '-' + day], after the year where it is shown *)
Definition day_label (showYear : bool) (d : option Z) : jstr :=
  let md := pad2 (field_text month d) ++ u "-" ++ pad2 (field_text getDate d) in
  if showYear then field_text getFullYear d ++ u "-" ++ md else md.

Definition timestamp2string1 (timestamp : num) (time : jstr) (showYear : bool) : jstr :=
  let d := stamp_date timestamp in
  let str := day_label showYear d in
  if time =s HOUR then str ++ u " " ++ pad2 (field_text getHours d) ++ u ":00"
  else if time =s WEEK then
    let nextWeek := date_of (nadd (nmul timestamp (of_Z 1000)) (of_Z 518400000)) in
    str ++ u " - " ++ day_label showYear nextWeek
  else str.

(** [getFullYear()]; all invalid dates give the same NaN. *)
Definition year_of (timestamp : num) : option Z := getFullYear <$> stamp_date timestamp.

Definition isDataCrossYear (timestamps : list num) : bool :=
  (1 <? length (set_array (map year_of timestamps)))%nat.

(** The label of the row among [data] *)
Definition data_label (data : list usage) (time : jstr) (r : usage) : jstr :=
  timestamp2string1 (created_at r) time (isDataCrossYear (map created_at data)).

(** ** helpers/dashboard.jsx *)

Definition getTimeInterval (time : jstr) (isSeconds : bool) : Z :=
  if time =s DAY then (if isSeconds then 86400 else 1440)
  else if time =s WEEK then (if isSeconds then 604800 else 10080)
  else (if isSeconds then 3600 else 60).

Record processed := {
  totalQuota : num;
  totalTimes : num;
  totalTokens : num;
  uniqueModels : list jstr;
  timePoints : list jstr;
  timeQuotaMap : jmap num;
  timeTokensMap : jmap num;
  timeCountMap : jmap num;
}.

Definition processed0 : processed :=
  {| totalQuota := nzero; totalTimes := nzero; totalTokens := nzero; uniqueModels := [];
     timePoints := []; timeQuotaMap := []; timeTokensMap := []; timeCountMap := [] |}.

(** [if (!l.includes(x)) l.push(x)], and [set.add(x)] *)
Definition push_new (l : list jstr) (x : jstr) : list jstr :=
  if bool_decide (x ∈ l) then l else l ++ [x].

(** The body of [data.forEach] *)
Definition process_row (label : usage → jstr) (p : processed) (r : usage) : processed :=
  let timeKey := label r in
  {| totalQuota := nadd (totalQuota p) (quota r);
     totalTimes := nadd (totalTimes p) (count r);
     totalTokens := nadd (totalTokens p) (token_used r);
     uniqueModels := push_new (uniqueModels p) (model_name r);
     timePoints := push_new (timePoints p) timeKey;
     timeQuotaMap := updateMapValue (initialize_map timeKey (timeQuotaMap p)) timeKey (quota r);
     timeTokensMap := updateMapValue (initialize_map timeKey (timeTokensMap p)) timeKey (token_used r);
     timeCountMap := updateMapValue (initialize_map timeKey (timeCountMap p)) timeKey (count r) |}.

Definition sort_units (l : list jstr) : list jstr := sort_by (λ a b, unit_compare a b <=? 0) l.

Definition processRawData (data : list usage) (time : jstr) : processed :=
  let p := fold_left (process_row (data_label data time)) data processed0 in
  {| totalQuota := totalQuota p; totalTimes := totalTimes p; totalTokens := totalTokens p;
     uniqueModels := uniqueModels p; timePoints := sort_units (timePoints p);
     timeQuotaMap := timeQuotaMap p; timeTokensMap := timeTokensMap p; timeCountMap := timeCountMap p |}.

(** [x || 0] of a number that may be missing *)
Definition or_zero (x : option num) : num :=
  match x with Some n => if ntruthy n then n else nzero | None => nzero end.

Record trends := { t_times : list num; t_quota : list num; t_tokens : list num; rpm : list num; tpm : list num }.

Definition calculateTrendData (p : processed) (time : jstr) : trends :=
  let trend m := map (λ k, or_zero (map_get m k)) (timePoints p) in
  let rate m := if (2 <=? length (timePoints p))%nat
                then map (λ k, ndiv (num_at m k) (of_Z (getTimeInterval time false))) (timePoints p) else [] in
  {| t_times := trend (timeCountMap p); t_quota := trend (timeQuotaMap p); t_tokens := trend (timeTokensMap p);
     rpm := rate (timeCountMap p); tpm := rate (timeTokensMap p) |}.

Record entry := { e_time : jstr; e_model : jstr; e_quota : num; e_count : num }.

Definition entry_key (time model : jstr) : jstr := time ++ u "-" ++ model.

Definition aggregate_row (label : usage → jstr) (m : jmap entry) (r : usage) : jmap entry :=
  let key := entry_key (label r) (model_name r) in
  let existing := default {| e_time := label r; e_model := model_name r; e_quota := nzero; e_count := nzero |}
                    (map_get m key) in
  map_set m key {| e_time := e_time existing; e_model := e_model existing;
                   e_quota := nadd (e_quota existing) (quota r); e_count := nadd (e_count existing) (count r) |}.

Definition aggregateDataByTimeAndModel (data : list usage) (time : jstr) : jmap entry :=
  fold_left (aggregate_row (data_label data time)) data [].

Definition MAX_TREND_POINTS : nat := 7.

Definition generated_stamps (data : list usage) (time : jstr) : list num :=
  let lastTime := fold_left math_max (map created_at data) (Inf true) in
  map (λ i, nsub lastTime (nmul (of_Z (6 - Z.of_nat i)) (of_Z (getTimeInterval time true)))) (seq 0 MAX_TREND_POINTS).

Definition generateChartTimePoints (aggregated : jmap entry) (data : list usage) (time : jstr) : list jstr :=
  let points := set_array (map (λ kv, e_time kv.2) aggregated) in
  if (length points <? MAX_TREND_POINTS)%nat then
    let stamps := generated_stamps data time in
    map (λ ts, timestamp2string1 ts time (isDataCrossYear stamps)) stamps
  else points.

(** ** useDashboardCharts.jsx *)

Record bar := { b_time : jstr; b_model : jstr; rawQuota : num; Usage : val; TimeSum : num }.

(** Sorting by [(a, b) => f(b) - f(a)]; NaN counts as zero. *)
Definition desc_by {A} (f : A → num) (l : list A) : list A :=
  sort_by (λ a b, negb (ngtb (nsub (f b) (f a)) nzero)) l.

Definition bars_at (st : storage) (aggregated : jmap entry) (ms : list jstr) (time : jstr) : list bar :=
  let raw model := or_zero (e_quota <$> map_get aggregated (entry_key time model)) in
  let usage_of model := match map_get aggregated (entry_key time model) with
                        | Some e => if ntruthy (e_quota e) then VStr (getQuotaWithUnit st (e_quota e) 4) else VNum nzero
                        | None => VNum nzero
                        end in
  let timeSum := fold_left (λ sum m, nadd sum (raw m)) ms nzero in
  desc_by rawQuota (map (λ m, {| b_time := time; b_model := m; rawQuota := raw m; Usage := usage_of m;
                                TimeSum := timeSum |}) ms).

Definition model_totals (aggregated : jmap entry) : jmap num :=
  fold_left (λ m kv, updateMapValue m (e_model kv.2) (e_count kv.2)) aggregated [].

Record charts := {
  c_processed : processed;
  c_trends : trends;
  pieData : list (jstr * num);            (* also the ranking *)
  lineData : list bar;
  modelLineData : list (jstr * jstr * num);
}.

(** [updateChartData]; [None] where it returns at once.  Titles and colours are
    left out. *)
Definition updateChartData (st : storage) (time : jstr) (data : list usage) : option charts :=
  match data with
  | [] => None
  | _ =>
    let p := processRawData data time in
    let aggregated := aggregateDataByTimeAndModel data time in
    let points := generateChartTimePoints aggregated data time in
    Some {| c_processed := p;
            c_trends := calculateTrendData p time;
            pieData := desc_by snd (model_totals aggregated);
            lineData := sort_by (λ a b, localeCompare (b_time a) (b_time b) <=? 0)
                          (concat (map (bars_at st aggregated (uniqueModels p)) points));
            modelLineData := sort_by (λ a b, localeCompare a.1.1 b.1.1 <=? 0)
              (concat (map (λ tp, map (λ m, (tp, m, or_zero (e_count <$> map_get aggregated (entry_key tp m))))
                                    (uniqueModels p)) points)) |}
  end.

(** ** useDashboardData.js: the rows handed to the charts *)

(** What [loadQuotaData] returns for a successful answer; [now] is in milliseconds. *)
Definition loadQuotaData `{Env} (now : num) (data : list usage) : list usage :=
  let data := match data with
              | [] => [{| created_at := ndiv now (of_Z 1000); model_name := t (u "无数据") None;
                          quota := nzero; token_used := NaN; count := nzero |}]
              | _ => data
              end in
  sort_by (λ a b, negb (ngtb (nsub (created_at a) (created_at b)) nzero)) data.

(** [renderNumber], [toLocaleString] apart: what the figure of tokens shows *)
Definition tokens_shown (consumeTokens : num) : num := if isNaN consumeTokens then nzero else consumeTokens.

(** [performanceMetrics], of the two ends of the period in milliseconds *)
Definition per_minute (x start_ms end_ms : num) : jstr :=
  let timeDiff := ndiv (nsub end_ms start_ms) (of_Z 60000) in
  if isNaN (ndiv x timeDiff) then u "0" else toFixed 3 (ndiv x timeDiff).

(** ** Sums by key *)

(** A non-negative integer that binary64 represents *)
Definition whole (x : num) : Prop := ∃ z, 0 ≤ z < 2 ^ 53 ∧ x = of_Z z.

Lemma whole_int x : whole x → 0 ≤ int_of x < 2 ^ 53 ∧ x = of_Z (int_of x).
Proof. intros (z & Hz & ->). by rewrite int_of_small. Qed.

Definition sum_by {A} (f : A → num) (l : list A) : Z := foldr (λ x s, int_of (f x) + s) 0 l.

(** The sum over the elements with the key [k] *)
Definition sum_at {A K} `{EqDecision K} (f : A → num) (key : A → K) (k : K) (l : list A) : Z :=
  sum_by f (filter (λ x, key x = k) l).

(** Figures that add up exactly *)
Definition countable {A} (f : A → num) (l : list A) : Prop :=
  Forall (λ x, whole (f x)) l ∧ sum_by f l < 2 ^ 53.

Section sums.
Context {A : Type} (f : A → num).
Implicit Types l : list A.

Lemma sum_by_app l k : sum_by f (l ++ k) = sum_by f l + sum_by f k.
Proof. unfold sum_by. induction l as [|x l IH]; cbn [app foldr]; lia. Qed.

Lemma sum_by_nonneg l : Forall (λ x, whole (f x)) l → 0 ≤ sum_by f l.
Proof.
  unfold sum_by. induction 1 as [|x l Hx _ IH]; cbn [foldr]; [done|]. pose proof (whole_int _ Hx). lia.
Qed.

Lemma sum_by_perm l k : l ≡ₚ k → sum_by f l = sum_by f k.
Proof. unfold sum_by. induction 1; cbn [foldr]; lia. Qed.

Lemma sum_at_le {K} `{EqDecision K} (key : A → K) k l :
  Forall (λ x, whole (f x)) l → 0 ≤ sum_at f key k l ≤ sum_by f l.
Proof.
  unfold sum_at. induction 1 as [|x l Hx Hl IH]; [done|]. pose proof (whole_int _ Hx).
  rewrite filter_cons. unfold sum_by in *. case_decide; cbn [foldr]; lia.
Qed.

Lemma countable_app l x : countable f (l ++ [x]) → countable f l ∧ whole (f x) ∧ sum_by f l + int_of (f x) < 2 ^ 53.
Proof.
  intros [HF Hs]. rewrite Forall_app, list.Forall_singleton in HF. destruct HF as [Hl Hx].
  rewrite sum_by_app in Hs. unfold sum_by at 2 in Hs. cbn [foldr] in Hs. pose proof (whole_int _ Hx).
  split; [split; [done|lia]|]. split; [done|lia].
Qed.

Lemma nadd_whole a x : 0 ≤ a → whole x → a + int_of x < 2 ^ 53 → nadd (of_Z a) x = of_Z (a + int_of x).
Proof.
  intros Ha Hx Hs. destruct (whole_int x Hx) as [Hi Hxe]. rewrite Hxe at 1. apply nadd_of_Z; lia.
Qed.

(** Adding up in a loop is the sum. *)
Lemma fold_total l : countable f l → fold_left (λ s x, nadd s (f x)) l nzero = of_Z (sum_by f l).
Proof.
  induction l as [|x l IH] using rev_ind; intros Hc; [done|].
  apply countable_app in Hc as (Hl & Hx & Hs). rewrite fold_left_app. cbn [fold_left].
  rewrite IH, nadd_whole by (done || apply sum_by_nonneg, Hl). rewrite sum_by_app.
  unfold sum_by at 3. cbn [foldr]. f_equal. lia.
Qed.

Lemma sum_at_cons {K} `{EqDecision K} (key : A → K) k x l :
  sum_at f key k (x :: l) = (if decide (key x = k) then int_of (f x) else 0) + sum_at f key k l.
Proof. unfold sum_at. rewrite filter_cons. by case_decide. Qed.

Lemma sum_at_app {K} `{EqDecision K} (key : A → K) k l l' :
  sum_at f key k (l ++ l') = sum_at f key k l + sum_at f key k l'.
Proof. unfold sum_at. by rewrite filter_app, sum_by_app. Qed.

Lemma sum_at_none {K} `{EqDecision K} (key : A → K) k l : k ∉ map key l → sum_at f key k l = 0.
Proof.
  induction l as [|x l IH]; cbn [map]; [done|]. rewrite not_elem_of_cons, sum_at_cons. intros [? ?].
  rewrite decide_False by congruence. by rewrite IH.
Qed.

(** The sums over distinct keys that cover the list add up to the whole sum. *)
Lemma sum_over_keys {K} `{EqDecision K} (key : A → K) ks l :
  NoDup ks → (∀ x, x ∈ l → key x ∈ ks) →
  foldr (λ k s, sum_at f key k l + s) 0 ks = sum_by f l.
Proof.
  intros Hnd. induction l as [|x l IH]; intros Hin.
  { clear. induction ks as [|k ks IH]; [done|]. cbn [foldr]. by rewrite IH. }
  assert (Hone : foldr (λ k s, sum_at f key k (x :: l) + s) 0 ks =
    (if decide (key x ∈ ks) then int_of (f x) else 0) + foldr (λ k s, sum_at f key k l + s) 0 ks).
  { clear IH Hin. induction Hnd as [|k ks Hk _ IHk]; [done|]. cbn [foldr]. rewrite IHk, sum_at_cons.
    destruct (decide (key x = k)) as [<-|Hne].
    - rewrite (decide_False (P := key x ∈ ks)), decide_True by (done || by left). lia.
    - destruct (decide (key x ∈ ks)) as [Hi|Hi].
      + rewrite decide_True by (by right). lia.
      + rewrite decide_False by (intros [?|?]%elem_of_cons; congruence). lia. }
  rewrite Hone. rewrite decide_True by (apply Hin; left). rewrite IH; [done|].
  intros y Hy. apply Hin. by right.
Qed.
End sums.

(** ** Maps *)

Section maps.
Context {A : Type}.
Implicit Types m : jmap A.

Lemma map_get_set m k v k' :
  map_get (map_set m k v) k' = if decide (k = k') then Some v else map_get m k'.
Proof.
  induction m as [|[k1 v1] m IH]; cbn [map_set map_get].
  - repeat (case_bool_decide || case_decide); congruence.
  - destruct (bool_decide (k1 = k)) eqn:E; boolify; cbn [map_get].
    + subst k1. case_bool_decide; case_decide; congruence.
    + rewrite IH. case_bool_decide; [|done]. case_decide; congruence.
Qed.

Lemma map_keys_set m k v : map fst (map_set m k v) = push_new (map fst m) k.
Proof.
  unfold push_new. induction m as [|[k1 v1] m IH]; cbn [map_set map fst app].
  { by rewrite bool_decide_eq_false_2 by set_solver. }
  destruct (bool_decide (k1 = k)) eqn:E; boolify; cbn [map fst].
  - rewrite bool_decide_eq_true_2; [done|]. subst. left.
  - rewrite IH. destruct (bool_decide (k ∈ map fst m)) eqn:E'; boolify.
    + rewrite bool_decide_eq_true_2; [done|]. by right.
    + rewrite bool_decide_eq_false_2; [done|]. intros [?|?]%elem_of_cons; congruence.
Qed.

Lemma map_get_None m k : map_get m k = None ↔ k ∉ map fst m.
Proof.
  induction m as [|[k1 v1] m IH]; cbn [map_get map fst]; [set_solver|].
  rewrite not_elem_of_cons, <- IH. case_bool_decide; [|naive_solver]. split; [done|]. naive_solver.
Qed.

Lemma map_get_elem m k v : NoDup (map fst m) → map_get m k = Some v ↔ (k, v) ∈ m.
Proof.
  induction m as [|[k1 v1] m IH]; cbn [map_get map fst]; [set_solver|].
  intros [Hk Hnd]%NoDup_cons. rewrite elem_of_cons. case_bool_decide as E.
  - subst. split; [intros [= ->]; by left|]. intros [[= ->]|Hin]; [done|].
    exfalso. apply Hk. apply list_elem_of_fmap. by exists (k, v).
  - rewrite IH by done. split; [by right|]. intros [[= ? ?]|?]; congruence.
Qed.
End maps.

Lemma NoDup_push_new l x : NoDup l → NoDup (push_new l x).
Proof.
  intros Hl. unfold push_new. case_bool_decide; [done|]. apply NoDup_app. split_and!; [done| |apply NoDup_singleton].
  set_solver.
Qed.

Lemma elem_of_push_new l x y : y ∈ push_new l x ↔ y ∈ l ∨ y = x.
Proof. unfold push_new. case_bool_decide; set_solver. Qed.

Lemma pushed_elem l y : y ∈ fold_left push_new l [] ↔ y ∈ l.
Proof.
  induction l as [|x l IH] using rev_ind; [done|]. rewrite fold_left_app. cbn [fold_left].
  rewrite elem_of_push_new, IH. set_solver.
Qed.

Lemma pushed_NoDup l : NoDup (fold_left push_new l []).
Proof.
  induction l as [|x l IH] using rev_ind; [constructor|]. rewrite fold_left_app. by apply NoDup_push_new.
Qed.

(** ** Grouping *)

(** [updateMapValue] adds to what is there or to zero. *)
Lemma updateMapValue_set m k v :
  updateMapValue m k v = map_set m k (nadd (default nzero (map_get m k)) v).
Proof.
  unfold updateMapValue, map_has, num_at.
  destruct (map_get m k) as [x|] eqn:E; [by rewrite bool_decide_eq_true_2, E by eauto|].
  rewrite bool_decide_eq_false_2 by (by intros []). rewrite map_get_set, decide_True by done. cbn [default from_option id].
  induction m as [|[k1 v1] m IH]; cbn [map_set map_get] in *; [by rewrite bool_decide_eq_true_2|].
  destruct (bool_decide (k1 = k)) eqn:E1; [done|]. cbn [map_set]. rewrite E1. by rewrite IH.
Qed.

Lemma initialized_update m k v : updateMapValue (initialize_map k m) k v = updateMapValue m k v.
Proof.
  unfold initialize_map. destruct (map_has m k) eqn:E; [done|]. unfold updateMapValue. rewrite E.
  assert (map_has (map_set m k nzero) k = true) as ->; [|done].
  apply bool_decide_eq_true_2. rewrite map_get_set, decide_True by done. eauto.
Qed.

Definition grouped {A} (key : A → jstr) (f : A → num) (l : list A) : jmap num :=
  fold_left (λ m x, updateMapValue m (key x) (f x)) l [].

Lemma grouped_keys {A} (key : A → jstr) f (l : list A) :
  map fst (grouped key f l) = fold_left push_new (map key l) [].
Proof.
  unfold grouped. induction l as [|x l IH] using rev_ind; [done|].
  rewrite map_app, !fold_left_app. cbn [fold_left map]. by rewrite updateMapValue_set, map_keys_set, IH.
Qed.

Lemma grouped_get {A} (key : A → jstr) f (l : list A) k :
  countable f l →
  map_get (grouped key f l) k = if decide (k ∈ map key l) then Some (of_Z (sum_at f key k l)) else None.
Proof.
  intros Hc. revert k. unfold grouped. induction l as [|x l IH] using rev_ind; intros k; [done|].
  apply countable_app in Hc as (Hl & Hx & Hs). specialize (IH Hl). rewrite fold_left_app. cbn [fold_left].
  rewrite updateMapValue_set, map_get_set, map_app, sum_at_app, sum_at_cons. cbn [map].
  pose proof (sum_at_le f key (key x) l (proj1 Hl)) as Hle.
  destruct (decide (key x = k)) as [<-|Hne].
  - rewrite (decide_True (P := key x ∈ _)) by (apply elem_of_app; right; left). f_equal. rewrite IH.
    assert (Hacc : default nzero (if decide (key x ∈ map key l) then Some (of_Z (sum_at f key (key x) l)) else None)
                   = of_Z (sum_at f key (key x) l)).
    { case_decide as E; [done|]. by rewrite (sum_at_none f key (key x) l E). }
    rewrite Hacc, nadd_whole by (done || lia). f_equal. change (sum_at f key (key x) []) with 0. lia.
  - change (sum_at f key k []) with 0. rewrite IH, !Z.add_0_r. destruct (decide (k ∈ map key l)) as [E|E].
    + rewrite decide_True by (apply elem_of_app; by left). done.
    + rewrite decide_False; [done|]. rewrite elem_of_app, list_elem_of_singleton. intros [?|?]; congruence.
Qed.

(** ** Totals and trends *)

Lemma process_fields label data :
  let p := fold_left (process_row label) data processed0 in
  totalQuota p = fold_left (λ s r, nadd s (quota r)) data nzero ∧
  totalTimes p = fold_left (λ s r, nadd s (count r)) data nzero ∧
  totalTokens p = fold_left (λ s r, nadd s (token_used r)) data nzero ∧
  uniqueModels p = fold_left push_new (map model_name data) [] ∧
  timePoints p = fold_left push_new (map label data) [] ∧
  timeQuotaMap p = grouped label quota data ∧
  timeTokensMap p = grouped label token_used data ∧
  timeCountMap p = grouped label count data.
Proof.
  unfold grouped. induction data as [|r data IH] using rev_ind; [done|].
  rewrite !map_app, !fold_left_app. cbn [fold_left map].
  destruct IH as (H1 & H2 & H3 & H4 & H5 & H6 & H7 & H8).
  cbn [process_row totalQuota totalTimes totalTokens uniqueModels timePoints timeQuotaMap timeTokensMap timeCountMap].
  by rewrite !initialized_update, H1, H2, H3, H4, H5, H6, H7, H8.
Qed.

Lemma or_zero_of_Z z : 0 ≤ z < 2 ^ 53 → or_zero (Some (of_Z z)) = of_Z z.
Proof.
  intros Hz. cbn [or_zero]. destruct (ntruthy (of_Z z)) eqn:E; [done|].
  destruct (decide (z = 0)) as [->|Hne]; [done|]. exfalso.
  destruct (of_Z_small z ltac:(lia)) as (m & e & Hm & _ & Hq). rewrite Hm in E. cbn [ntruthy] in E. boolify.
  rewrite E in Hq. assert (0 = Z.abs z); [|lia]. apply inject_Z_injective. rewrite <- Hq.
  unfold mag. change (inject_Z 0) with 0%Q. ring.
Qed.

(** The labels of the rows, in the order of their code units *)
Definition labels (data : list usage) (time : jstr) : list jstr :=
  sort_units (fold_left push_new (map (data_label data time) data) []).

Lemma labels_spec data time :
  NoDup (labels data time) ∧
  (∀ l, l ∈ labels data time ↔ ∃ r, r ∈ data ∧ data_label data time r = l).
Proof.
  unfold labels, sort_units. rewrite sort_by_perm. split; [apply pushed_NoDup|].
  intros l. rewrite sort_by_perm, pushed_elem, list_elem_of_fmap. naive_solver.
Qed.

Lemma trend_exact data time f :
  countable f data →
  map (λ k, or_zero (map_get (grouped (data_label data time) f data) k)) (labels data time) =
  map (λ k, of_Z (sum_at f (data_label data time) k data)) (labels data time).
Proof.
  intros Hc. apply map_ext_in. intros k Hk%list_elem_of_In. rewrite grouped_get by done.
  pose proof (sum_at_le f (data_label data time) k data (proj1 Hc)) as Hle. destruct Hc as [_ Hs].
  rewrite decide_True; [apply or_zero_of_Z; lia|].
  apply labels_spec in Hk as (r & Hr & <-). apply list_elem_of_fmap. eauto.
Qed.

Lemma labels_total data time f :
  foldr (λ k s, sum_at f (data_label data time) k data + s) 0 (labels data time) = sum_by f data.
Proof.
  destruct (labels_spec data time) as [Hnd Hin]. apply sum_over_keys; [done|].
  intros r Hr. apply Hin. eauto.
Qed.

(** the totals of the dashboard are the exact sums of the rows, every trend has one
    value per time label, the exact sum of the rows with that label, and the
    values of a trend add up to its total. *)
Theorem trends_conserve data time :
  countable quota data → countable count data → countable token_used data →
  let p := processRawData data time in
  let tr := calculateTrendData p time in
  let at_label f := map (λ k, of_Z (sum_at f (data_label data time) k data)) (timePoints p) in
  let total f := foldr (λ k s, sum_at f (data_label data time) k data + s) 0 (timePoints p) in
  t_quota tr = at_label quota ∧ t_times tr = at_label count ∧ t_tokens tr = at_label token_used ∧
  totalQuota p = of_Z (total quota) ∧ totalTimes p = of_Z (total count) ∧ totalTokens p = of_Z (total token_used) ∧
  total quota = sum_by quota data ∧ total count = sum_by count data ∧ total token_used = sum_by token_used data.
Proof.
  intros Hq Hc Ht p tr at_label total.
  destruct (process_fields (data_label data time) data) as (H1 & H2 & H3 & _ & H5 & H6 & H7 & H8).
  assert (Hpts : timePoints p = labels data time) by (unfold p, processRawData, labels; cbn [timePoints]; by rewrite H5).
  unfold tr, calculateTrendData, at_label, total. cbn [t_quota t_times t_tokens]. rewrite !Hpts, !labels_total.
  unfold p, processRawData. cbn [timeQuotaMap timeTokensMap timeCountMap totalQuota totalTimes totalTokens].
  rewrite H1, H2, H3, H6, H7, H8, !trend_exact, !fold_total by done. done.
Qed.

(** ** The keys of time and model do not collide *)

(** The timestamp and the day six days later are dates with years of four digits. *)
Definition four_digits (ts : num) : Prop :=
  ∃ d d', stamp_date ts = Some d ∧ date_of (nadd (nmul ts (of_Z 1000)) (of_Z 518400000)) = Some d' ∧
          1000 ≤ getFullYear d ≤ 9999 ∧ 1000 ≤ getFullYear d' ≤ 9999.

Lemma dec_four n : 1000 ≤ n ≤ 9999 → length (dec n) = 4%nat.
Proof.
  intros Hn. unfold dec. assert (9 ≤ Z.log2 n) by (apply Z.log2_le_pow2; lia).
  assert (∃ f, S (Z.to_nat (Z.log2 n)) = S (S (S (S f)))) as [f ->]
    by (exists (Z.to_nat (Z.log2 n) - 3)%nat; lia).
  cbn [dec_go]. assert (n / 10 / 10 = n / 100) as -> by (by rewrite Z.div_div).
  assert (n / 100 / 10 = n / 1000) as -> by (by rewrite Z.div_div).
  rewrite (proj2 (Z.ltb_ge n 10)), (proj2 (Z.ltb_ge (n / 10) 10)), (proj2 (Z.ltb_ge (n / 100) 10)),
    (proj2 (Z.ltb_lt (n / 1000) 10)); [done|..];
    first [lia|apply Z.div_le_lower_bound; lia|apply Z.div_lt_upper_bound; lia].
Qed.

Lemma month_range t : 1 ≤ month t ≤ 12.
Proof.
  unfold month, local_civil. pose proof (civil_days (local_time t / 86400000)) as Hc.
  destruct (civil _) as [[y m] d]. cbn. lia.
Qed.

Lemma date_range t : 1 ≤ getDate t ≤ 31.
Proof.
  unfold getDate, local_civil. pose proof (civil_days (local_time t / 86400000)) as Hc.
  destruct (civil _) as [[y m] d]. cbn. lia.
Qed.

Lemma day_label_length showYear d :
  1000 ≤ getFullYear d ≤ 9999 → length (day_label showYear (Some d)) = if showYear then 10%nat else 5%nat.
Proof.
  intros Hy. pose proof (month_range d). pose proof (date_range d).
  assert (Hmd : length (pad2 (field_text month (Some d)) ++ u "-" ++ pad2 (field_text getDate (Some d))) = 5%nat).
  { rewrite !length_app, !pad2_length by lia. done. }
  unfold day_label. set (md := pad2 _ ++ _ ++ _) in *. clearbody md. destruct showYear; [|done].
  rewrite !length_app, Hmd. cbn [field_text]. unfold decZ. by rewrite (proj2 (Z.ltb_ge _ 0)), dec_four by lia.
Qed.

(** All labels of one chart have the same length. *)
Definition label_length (time : jstr) (showYear : bool) : nat :=
  let d := if showYear then 10%nat else 5%nat in
  if time =s HOUR then (d + 6)%nat else if time =s WEEK then (2 * d + 3)%nat else d.

Lemma timestamp2string1_length ts time showYear :
  four_digits ts → length (timestamp2string1 ts time showYear) = label_length time showYear.
Proof.
  intros (d & d' & Hd & Hd' & Hy & Hy'). unfold timestamp2string1, label_length. rewrite Hd, Hd'.
  destruct (bool_decide (time = HOUR)).
  - rewrite !length_app, day_label_length, pad2_length by (done || (unfold getHours; pose proof (Z.mod_pos_bound (local_time d / 3600000) 24); lia)).
    change (length (u " ")) with 1%nat. change (length (u ":00")) with 3%nat. destruct showYear; lia.
  - destruct (bool_decide (time = WEEK)); [|by apply day_label_length].
    rewrite !length_app, !day_label_length by done. change (length (u " - ")) with 3%nat. destruct showYear; lia.
Qed.

Definition dated (data : list usage) : Prop := Forall (λ r, four_digits (created_at r)) data.

Definition data_label_length (data : list usage) (time : jstr) : nat :=
  label_length time (isDataCrossYear (map created_at data)).

Lemma entry_key_inj n t m t' m' :
  length t = n → length t' = n → entry_key t m = entry_key t' m' → t = t' ∧ m = m'.
Proof.
  intros Ht Ht' H1. unfold entry_key in H1. apply app_inj_1 in H1 as [-> H1]; [|congruence].
  split; [done|]. by apply app_inj_1 in H1 as [_ ->].
Qed.

(** ** The aggregated entries *)

Lemma map_get_map {A B} (g : A → B) (m : jmap A) k :
  map_get (map (λ kv, (kv.1, g kv.2)) m) k = g <$> map_get m k.
Proof. induction m as [|[k1 v] m IH]; [done|]. cbn [map map_get fst snd]. by case_bool_decide. Qed.

Lemma map_set_map {A B} (g : A → B) (m : jmap A) k v :
  map (λ kv, (kv.1, g kv.2)) (map_set m k v) = map_set (map (λ kv, (kv.1, g kv.2)) m) k (g v).
Proof.
  induction m as [|[k1 v1] m IH]; [done|]. cbn [map map_set fst snd].
  case_bool_decide; cbn [map fst snd]; [done|]. by rewrite IH.
Qed.

Lemma Forall_map_set {A} (P : jstr * A → Prop) (m : jmap A) k v :
  Forall P m → P (k, v) → Forall P (map_set m k v).
Proof.
  intros Hm Hk. induction Hm as [|[k1 v1] m H1 Hm IH]; cbn [map_set]; [by repeat constructor|].
  case_bool_decide as E; constructor; try done. by rewrite E.
Qed.

Lemma map_get_in {A} (m : jmap A) k v : map_get m k = Some v → (k, v) ∈ m.
Proof.
  induction m as [|[k1 v1] m IH]; cbn [map_get]; [done|]. case_bool_decide as E.
  - intros [= ->]. rewrite E. left.
  - intros Hg. right. by apply IH.
Qed.

Lemma filter_ext_in {A} (P Q : A → Prop) `{∀ x, Decision (P x), ∀ x, Decision (Q x)} (l : list A) :
  (∀ x, x ∈ l → P x ↔ Q x) → filter P l = filter Q l.
Proof.
  induction l as [|x l IH]; intros Hl; [done|]. rewrite !filter_cons, IH by (intros; apply Hl; by right).
  pose proof (Hl x ltac:(left)) as Hx. destruct (decide (P x)), (decide (Q x)); tauto || done.
Qed.

Lemma filter_sub {A} (P : A → Prop) `{∀ x, Decision (P x)} (l : list A) : filter P l `sublist_of` l.
Proof. induction l as [|x l IH]; [done|]. rewrite filter_cons. case_decide; by constructor. Qed.

Section aggregate.
Context (label : usage → jstr).

Definition row_key (r : usage) : jstr := entry_key (label r) (model_name r).

Lemma aggregate_quota data :
  map (λ kv, (kv.1, e_quota kv.2)) (fold_left (aggregate_row label) data []) = grouped row_key quota data.
Proof.
  unfold grouped. induction data as [|r data IH] using rev_ind; [done|]. rewrite !fold_left_app. cbn [fold_left].
  rewrite <- IH, updateMapValue_set, map_get_map. unfold aggregate_row at 1. rewrite map_set_map. cbn [e_quota].
  fold (row_key r). by destruct (map_get _ (row_key r)).
Qed.

Lemma aggregate_count data :
  map (λ kv, (kv.1, e_count kv.2)) (fold_left (aggregate_row label) data []) = grouped row_key count data.
Proof.
  unfold grouped. induction data as [|r data IH] using rev_ind; [done|]. rewrite !fold_left_app. cbn [fold_left].
  rewrite <- IH, updateMapValue_set, map_get_map. unfold aggregate_row at 1. rewrite map_set_map. cbn [e_count].
  fold (row_key r). by destruct (map_get _ (row_key r)).
Qed.

(** An entry is stored under the key of its time and its model, which a row has. *)
Definition entry_of (data : list usage) (kv : jstr * entry) : Prop :=
  kv.1 = entry_key (e_time kv.2) (e_model kv.2) ∧
  ∃ r, r ∈ data ∧ label r = e_time kv.2 ∧ model_name r = e_model kv.2.

Lemma aggregate_entries data : Forall (entry_of data) (fold_left (aggregate_row label) data []).
Proof.
  induction data as [|r data IH] using rev_ind; [constructor|]. rewrite fold_left_app. cbn [fold_left].
  assert (IH' : Forall (entry_of (data ++ [r])) (fold_left (aggregate_row label) data [])).
  { eapply list.Forall_impl; [exact IH|]. intros kv (Hk & r' & Hr' & ?). split; [done|].
    exists r'. split; [set_solver|done]. }
  unfold aggregate_row at 1. apply Forall_map_set; [done|].
  destruct (map_get _ _) as [e|] eqn:E; cbn [default from_option id].
  - apply map_get_in in E. rewrite Forall_forall in IH'. destruct (IH' _ E) as (Hk & Hr).
    split; [done|]. exact Hr.
  - split; [done|]. exists r. split; [set_solver|done].
Qed.

Lemma aggregate_keys data :
  map fst (fold_left (aggregate_row label) data []) = fold_left push_new (map row_key data) [].
Proof.
  rewrite <- (grouped_keys row_key quota), <- aggregate_quota, map_map. reflexivity.
Qed.

Context (n : nat) (data : list usage) (Hlen : ∀ r, r ∈ data → length (label r) = n).

Lemma row_key_iff r t m :
  r ∈ data → length t = n → row_key r = entry_key t m ↔ (label r, model_name r) = (t, m).
Proof.
  intros Hr Ht. unfold row_key. split; [|by intros [= -> ->]].
  intros H1. apply (entry_key_inj n) in H1 as [-> ->]; [done|by apply Hlen|done].
Qed.

Lemma sum_at_ext {K K'} `{EqDecision K, EqDecision K'} (f : usage → num) (key : usage → K) (key' : usage → K') k k' :
  (∀ r, r ∈ data → key r = k ↔ key' r = k') → sum_at f key k data = sum_at f key' k' data.
Proof.
  intros Hk. unfold sum_at. f_equal. by apply filter_ext_in.
Qed.

(** What the charts read at a time label and a model *)
Lemma entry_value (f : usage → num) t m :
  countable f data → length t = n →
  or_zero (map_get (grouped row_key f data) (entry_key t m)) =
  of_Z (sum_at f (λ r, (label r, model_name r)) (t, m) data).
Proof.
  intros Hc Ht. rewrite grouped_get by done.
  rewrite (sum_at_ext f row_key (λ r, (label r, model_name r)) _ (t, m)) by (intros r Hr; by apply row_key_iff).
  pose proof (sum_at_le f (λ r, (label r, model_name r)) (t, m) data (proj1 Hc)) as Hle. destruct Hc as [_ Hs].
  destruct (decide (entry_key t m ∈ map row_key data)) as [Hin|Hout]; [apply or_zero_of_Z; lia|].
  rewrite sum_at_none; [done|]. intros (r & [= -> ->] & Hr)%list_elem_of_fmap.
  apply Hout, list_elem_of_fmap. by exists r.
Qed.

(** The time labels of the entries are those of the rows. *)
Lemma entry_times t :
  t ∈ map (λ kv, e_time kv.2) (fold_left (aggregate_row label) data []) ↔ ∃ r, r ∈ data ∧ label r = t.
Proof.
  pose proof (aggregate_entries data) as HE. rewrite Forall_forall in HE. split.
  - intros (kv & -> & Hkv)%list_elem_of_fmap. destruct (HE kv Hkv) as (_ & r & Hr & Hl & _). eauto.
  - intros (r & Hr & <-).
    assert (Hk : row_key r ∈ map fst (fold_left (aggregate_row label) data [])).
    { rewrite aggregate_keys, pushed_elem. apply list_elem_of_fmap. eauto. }
    apply list_elem_of_fmap in Hk as (kv & Hkey & Hkv). apply list_elem_of_fmap. exists kv. split; [|done].
    destruct (HE kv Hkv) as (Hk & r' & Hr' & Hl' & _). rewrite Hk in Hkey. unfold row_key in Hkey.
    apply (entry_key_inj n) in Hkey as [? _]; [done|by apply Hlen|]. rewrite <- Hl'. by apply Hlen.
Qed.
End aggregate.

(** ** The bars *)

Lemma foldr_app_Z {A} (g : A → Z) l k :
  foldr (λ x s, g x + s) 0 (l ++ k) = foldr (λ x s, g x + s) 0 l + foldr (λ x s, g x + s) 0 k.
Proof. induction l as [|x l IH]; cbn [app foldr]; lia. Qed.

Definition pairs (ts ms : list jstr) : list (jstr * jstr) := concat (map (λ tp, map (λ m, (tp, m)) ms) ts).

Lemma elem_of_pairs ts ms t m : (t, m) ∈ pairs ts ms ↔ t ∈ ts ∧ m ∈ ms.
Proof.
  unfold pairs. rewrite list_elem_of_In, in_concat. split.
  - intros (l & (tp & <- & Htp)%in_map_iff & (m' & [= -> ->] & Hm)%in_map_iff).
    by rewrite !list_elem_of_In.
  - rewrite !list_elem_of_In. intros [Ht Hm]. exists (map (λ m, (t, m)) ms). split; apply in_map_iff; eauto.
Qed.

Lemma NoDup_pairs ts ms : NoDup ts → NoDup ms → NoDup (pairs ts ms).
Proof.
  intros Hts Hms. unfold pairs. induction Hts as [|tp ts Ht _ IH]; [constructor|]. cbn [map concat].
  apply NoDup_app. split_and!; [|intros [t' m']|done].
  - assert (Inj (=) (=) (λ m : jstr, (tp, m))) by (by intros ? ? [=]). by apply (NoDup_fmap_2 (λ m, (tp, m))).
  - intros (m & [= -> ->] & _)%list_elem_of_fmap. fold (pairs ts ms). rewrite elem_of_pairs. tauto.
Qed.

(** Time and model of a bar *)
Definition bar_key (b : bar) : jstr * jstr := (b_time b, b_model b).

Lemma bars_at_perm st agg ms t :
  bars_at st agg ms t ≡ₚ map (λ m, {| b_time := t; b_model := m;
    rawQuota := or_zero (e_quota <$> map_get agg (entry_key t m));
    Usage := match map_get agg (entry_key t m) with
             | Some e => if ntruthy (e_quota e) then VStr (getQuotaWithUnit st (e_quota e) 4) else VNum nzero
             | None => VNum nzero
             end;
    TimeSum := fold_left (λ sum m, nadd sum (or_zero (e_quota <$> map_get agg (entry_key t m)))) ms nzero |}) ms.
Proof. unfold bars_at, desc_by. cbv zeta. apply sort_by_perm. Qed.

Lemma all_bars_keys st agg ms ts : map bar_key (concat (map (bars_at st agg ms) ts)) ≡ₚ pairs ts ms.
Proof.
  unfold pairs. induction ts as [|t ts IH]; [done|]. cbn [map concat]. rewrite map_app, IH.
  apply Permutation_app_tail. rewrite bars_at_perm, map_map. reflexivity.
Qed.

Lemma all_bars_value st agg ms ts b :
  b ∈ concat (map (bars_at st agg ms) ts) →
  b_time b ∈ ts ∧ b_model b ∈ ms ∧ rawQuota b = or_zero (e_quota <$> map_get agg (entry_key (b_time b) (b_model b))).
Proof.
  rewrite list_elem_of_In, in_concat. intros (l & (t & <- & Ht)%in_map_iff & Hb).
  apply list_elem_of_In in Hb. rewrite bars_at_perm in Hb. apply list_elem_of_fmap in Hb as (m & -> & Hm).
  cbn [b_time b_model rawQuota]. by rewrite list_elem_of_In.
Qed.

(** The rows of one time label and one model *)
Definition usage_at (f : usage → num) (data : list usage) (time : jstr) (tm : jstr * jstr) : Z :=
  sum_at f (λ r, (data_label data time r, model_name r)) tm data.

Lemma data_label_lengths data time :
  dated data → ∀ r, r ∈ data → length (data_label data time r) = data_label_length data time.
Proof. intros Hd r Hr. unfold dated in Hd. rewrite Forall_forall in Hd. by apply timestamp2string1_length, Hd. Qed.

Lemma chart_points data time :
  dated data → (7 ≤ length (labels data time))%nat →
  let points := generateChartTimePoints (aggregateDataByTimeAndModel data time) data time in
  NoDup points ∧ ∀ t, t ∈ points ↔ ∃ r, r ∈ data ∧ data_label data time r = t.
Proof.
  intros Hd Hn. unfold generateChartTimePoints.
  set (pts := set_array _). assert (Hpts : ∀ t, t ∈ pts ↔ ∃ r, r ∈ data ∧ data_label data time r = t).
  { intros t. unfold pts. rewrite elem_of_set_array. apply (entry_times _ (data_label_length data time)).
    by apply data_label_lengths. }
  assert (Hnd : NoDup pts) by apply NoDup_set_array.
  assert (length pts = length (labels data time)) as Hl.
  { destruct (labels_spec data time) as [Hnd' Hin]. apply Permutation_length, NoDup_Permutation; [done..|].
    intros t. by rewrite Hpts, Hin. }
  destruct (Nat.ltb_spec (length pts) MAX_TREND_POINTS); [unfold MAX_TREND_POINTS in *; lia|done].
Qed.

Lemma foldr_perm {A} (g : A → Z) l k : l ≡ₚ k → foldr (λ x s, g x + s) 0 l = foldr (λ x s, g x + s) 0 k.
Proof. induction 1; cbn [foldr]; lia. Qed.

Lemma sum_by_bars (g : jstr * jstr → Z) bs :
  (∀ b, b ∈ bs → rawQuota b = of_Z (g (bar_key b)) ∧ 0 ≤ g (bar_key b) < 2 ^ 53) →
  sum_by rawQuota bs = foldr (λ k s, g k + s) 0 (map bar_key bs).
Proof.
  unfold sum_by. induction bs as [|b bs IH]; intros Hb; [done|]. cbn [map foldr].
  destruct (Hb b) as [-> Hg]; [left|]. rewrite int_of_small by done. rewrite IH; [done|].
  intros b' Hb'. apply Hb. by right.
Qed.

(** C10: with at least seven time labels the bars lose nothing: there is one bar for
    every time label and every model, it shows the exact sum of the rows of
    both, and all bars together show the total. *)
Theorem bars_conserve st time data :
  dated data → countable quota data → (7 ≤ length (labels data time))%nat →
  ∃ c, updateChartData st time data = Some c ∧
    map bar_key (lineData c) ≡ₚ pairs (labels data time) (uniqueModels (c_processed c)) ∧
    (∀ b, b ∈ lineData c → rawQuota b = of_Z (usage_at quota data time (bar_key b))) ∧
    sum_by rawQuota (lineData c) = sum_by quota data ∧
    totalQuota (c_processed c) = of_Z (sum_by quota data) ∧
    StronglySorted (λ a b, localeCompare (b_time a) (b_time b) ≤ 0) (lineData c).
Proof.
  intros Hd Hq Hn. destruct data as [|r0 rest]; [cbn in Hn; lia|]. set (data := r0 :: rest) in *.
  destruct (chart_points data time Hd Hn) as [Hnd Hpts].
  destruct (process_fields (data_label data time) data) as (Htot & _ & _ & Hms & _).
  destruct (labels_spec data time) as [Hndl Hinl].
  eexists. split; [reflexivity|]. cbn [lineData c_processed].
  set (agg := aggregateDataByTimeAndModel data time) in *.
  set (pts := generateChartTimePoints agg data time) in *. set (ms := uniqueModels (processRawData data time)).
  assert (Hms' : ms = fold_left push_new (map model_name data) []) by (unfold ms, processRawData; cbn [uniqueModels]; done).
  set (bars := concat (map (bars_at st agg ms) pts)).
  assert (Hperm : sort_by (λ a b, localeCompare (b_time a) (b_time b) <=? 0) bars ≡ₚ bars) by apply sort_by_perm.
  assert (Hkeys : map bar_key bars ≡ₚ pairs (labels data time) ms).
  { unfold bars. rewrite all_bars_keys. apply NoDup_Permutation.
    - apply NoDup_pairs; [done|]. rewrite Hms'. apply pushed_NoDup.
    - apply NoDup_pairs; [done|]. rewrite Hms'. apply pushed_NoDup.
    - intros [t m]. by rewrite !elem_of_pairs, Hpts, Hinl. }
  assert (Hval : ∀ b, b ∈ bars → rawQuota b = of_Z (usage_at quota data time (bar_key b))).
  { intros b (Ht & _ & ->)%all_bars_value. unfold agg, aggregateDataByTimeAndModel.
    rewrite <- map_get_map, aggregate_quota.
    rewrite (entry_value (data_label data time) (data_label_length data time));
      [done|by apply data_label_lengths|done|].
    apply Hpts in Ht as (r & Hr & <-). by apply data_label_lengths. }
  split_and!.
  - by rewrite Hperm.
  - intros b Hb. apply Hval. by rewrite Hperm in Hb.
  - rewrite (sum_by_perm _ _ _ Hperm), (sum_by_bars (usage_at quota data time)).
    + rewrite (foldr_perm _ _ _ Hkeys). unfold usage_at. apply sum_over_keys.
      * apply NoDup_pairs; [done|]. rewrite Hms'. apply pushed_NoDup.
      * intros r Hr. apply elem_of_pairs. split; [apply Hinl; eauto|]. rewrite Hms', pushed_elem.
        apply list_elem_of_fmap. eauto.
    + intros b Hb. split; [by apply Hval|]. unfold usage_at.
      pose proof (sum_at_le quota (λ r, (data_label data time r, model_name r)) (bar_key b) data (proj1 Hq)).
      destruct Hq. lia.
  - unfold processRawData. cbn [totalQuota]. rewrite Htot. by apply fold_total.
  - apply (locale_sorted b_time).
Qed.

(** ** The pie and the ranking *)

Section pie.
Context (label : usage → jstr) (n : nat) (data : list usage) (Hlen : ∀ r, r ∈ data → length (label r) = n)
  (Hcount : countable count data).

Let agg : jmap entry := fold_left (aggregate_row label) data [].

Lemma agg_NoDup : NoDup (map fst agg).
Proof. unfold agg. rewrite aggregate_keys. apply pushed_NoDup. Qed.

Lemma agg_count kv : kv ∈ agg → e_count kv.2 = of_Z (sum_at count (row_key label) kv.1 data).
Proof.
  intros Hkv. pose proof agg_NoDup as Hnd.
  assert (Hg : map_get (grouped (row_key label) count data) kv.1 = Some (e_count kv.2)).
  { rewrite <- (aggregate_count label), map_get_map. fold agg. destruct kv as [k e]. cbn [fst snd].
    by rewrite (proj2 (map_get_elem agg k e Hnd)). }
  rewrite grouped_get in Hg by done. by case_decide; simplify_eq.
Qed.

Lemma key_entry r : r ∈ data → ∃ kv, kv ∈ agg ∧ kv.1 = row_key label r ∧ e_time kv.2 = label r ∧ e_model kv.2 = model_name r.
Proof.
  intros Hr. assert (Hk : row_key label r ∈ map fst agg).
  { unfold agg. rewrite aggregate_keys, pushed_elem. apply list_elem_of_fmap. eauto. }
  apply list_elem_of_fmap in Hk as (kv & Hkey & Hkv). exists kv. split; [done|]. split; [done|].
  pose proof (aggregate_entries label data) as HE. rewrite Forall_forall in HE.
  destruct (HE kv Hkv) as (Hk & r' & Hr' & Hl' & _). rewrite Hk in Hkey. unfold row_key in Hkey.
  apply (entry_key_inj n) in Hkey as [? ?]; [done|by apply Hlen|]. rewrite <- Hl'. by apply Hlen.
Qed.

Lemma sum_by_entries kvs :
  (∀ kv, kv ∈ kvs → kv ∈ agg) →
  sum_by (λ kv, e_count kv.2) kvs = foldr (λ k s, sum_at count (row_key label) k data + s) 0 (map fst kvs).
Proof.
  unfold sum_by. induction kvs as [|kv kvs IH]; intros Hin; [done|]. cbn [map foldr].
  rewrite agg_count, int_of_small, IH; [done|intros; apply Hin; by right| |apply Hin; left].
  pose proof (sum_at_le count (row_key label) kv.1 data (proj1 Hcount)). destruct Hcount. lia.
Qed.

Lemma entries_total : countable (λ kv : jstr * entry, e_count kv.2) agg ∧
                      sum_by (λ kv, e_count kv.2) agg = sum_by count data.
Proof.
  assert (Hs : sum_by (λ kv, e_count kv.2) agg = sum_by count data).
  { rewrite sum_by_entries by done. apply sum_over_keys; [apply agg_NoDup|].
    intros r Hr. destruct (key_entry r Hr) as (kv & Hkv & <- & _). apply list_elem_of_fmap. eauto. }
  split; [|done]. split; [|rewrite Hs; apply Hcount]. apply Forall_forall. intros kv Hkv. rewrite agg_count by done.
  eexists. split; [|done].
  pose proof (sum_at_le count (row_key label) kv.1 data (proj1 Hcount)). destruct Hcount. lia.
Qed.

(** The entries of a model hold the counts of its rows. *)
Lemma entries_of_model m :
  sum_at (λ kv, e_count kv.2) (λ kv : jstr * entry, e_model kv.2) m agg = sum_at count model_name m data.
Proof.
  unfold sum_at at 1. set (kvs := filter _ agg).
  assert (Hin : ∀ kv, kv ∈ kvs ↔ e_model kv.2 = m ∧ kv ∈ agg) by (intros kv; unfold kvs; by rewrite list_elem_of_filter).
  rewrite sum_by_entries by (intros kv Hkv; by apply Hin in Hkv as [_ ?]).
  set (rows := filter (λ r, model_name r = m) data).
  assert (Hrows : ∀ kv, kv ∈ kvs → sum_at count (row_key label) kv.1 data = sum_at count (row_key label) kv.1 rows).
  { intros kv [Hm Hkv]%Hin. unfold sum_at, rows. f_equal. rewrite list_filter_filter.
    apply filter_ext_in. intros r Hr. split; [|tauto]. intros Hk. split; [done|].
    pose proof (aggregate_entries label data) as HE. rewrite Forall_forall in HE.
    destruct (HE kv Hkv) as (Hkk & r' & Hr' & Hl' & Hm'). rewrite Hkk in Hk. unfold row_key in Hk.
    apply (entry_key_inj n) in Hk as [_ ?]; [congruence|by apply Hlen|]. rewrite <- Hl'. by apply Hlen. }
  assert (Hf : foldr (λ k s, sum_at count (row_key label) k data + s) 0 (map fst kvs) =
               foldr (λ k s, sum_at count (row_key label) k rows + s) 0 (map fst kvs)).
  { clear Hin. induction kvs as [|kv kvs' IH]; [done|]. cbn [map foldr]. rewrite Hrows by left.
    rewrite IH; [done|]. intros; apply Hrows; by right. }
  rewrite Hf. apply sum_over_keys.
  - eapply sublist_NoDup; [apply agg_NoDup|]. apply (fmap_sublist fst), filter_sub.
  - intros r [Hm Hr]%list_elem_of_filter. destruct (key_entry r Hr) as (kv & Hkv & <- & _ & Hmodel).
    apply list_elem_of_fmap. exists kv. split; [done|]. apply Hin. split; [congruence|done].
Qed.

Lemma entry_models m :
  m ∈ map (λ kv, e_model kv.2) agg ↔ m ∈ fold_left push_new (map model_name data) [].
Proof.
  rewrite pushed_elem, !list_elem_of_fmap. split.
  - intros (kv & -> & Hkv). pose proof (aggregate_entries label data) as HE. rewrite Forall_forall in HE.
    destruct (HE kv Hkv) as (_ & r & Hr & _ & Hm). exists r. by split.
  - intros (r & -> & Hr). destruct (key_entry r Hr) as (kv & Hkv & _ & _ & <-). eauto.
Qed.

Lemma totals_perm :
  model_totals agg ≡ₚ map (λ m, (m, of_Z (sum_at count model_name m data)))
                        (fold_left push_new (map model_name data) []).
Proof.
  change (model_totals agg) with (grouped (λ kv, e_model kv.2) (λ kv, e_count kv.2) agg).
  assert (Hnd : NoDup (map fst (grouped (λ kv, e_model kv.2) (λ kv, e_count kv.2) agg))).
  { rewrite grouped_keys. apply pushed_NoDup. }
  apply NoDup_Permutation.
  - by apply (NoDup_fmap_1 fst).
  - apply (NoDup_fmap_1 fst).
    change (NoDup (map fst (map (λ m, (m, of_Z (sum_at count model_name m data)))
                             (fold_left push_new (map model_name data) [])))).
    rewrite map_map, map_id. apply pushed_NoDup.
  - intros [m v]. rewrite <- map_get_elem by done.
    rewrite list_elem_of_fmap, grouped_get by apply entries_total. rewrite entries_of_model.
    destruct (decide _) as [Hm|Hm]; rewrite entry_models in Hm; split.
    + intros [= <-]. eauto.
    + by intros (m' & [= -> ->] & _).
    + done.
    + by intros (m' & [= -> ->] & ?).
Qed.
End pie.

Lemma of_Z_finite_wf z : 0 ≤ z < 2 ^ 53 → finite (of_Z z).
Proof. intros Hz. split; [apply of_Z_wf|apply of_Z_finite; lia]. Qed.

(** the pie and the ranking have one part per model, the exact number of its
    calls, in falling order, and together they are the total. *)
Theorem pie_conserves st time data :
  data ≠ [] → dated data → countable count data →
  ∃ c, updateChartData st time data = Some c ∧
    pieData c ≡ₚ map (λ m, (m, of_Z (sum_at count model_name m data))) (uniqueModels (c_processed c)) ∧
    StronglySorted (λ a b, nltb a.2 b.2 = false) (pieData c) ∧
    sum_by snd (pieData c) = sum_by count data ∧
    totalTimes (c_processed c) = of_Z (sum_by count data).
Proof.
  intros Hne Hd Hc. set (label := data_label data time). set (n := data_label_length data time).
  assert (Hlen : ∀ r, r ∈ data → length (label r) = n) by (by apply data_label_lengths).
  destruct (process_fields label data) as (_ & Htot & _ & Hms & _).
  pose proof (totals_perm label n data Hlen Hc) as Htot'. set (ms := fold_left push_new (map model_name data) []) in *.
  set (tot := model_totals _) in Htot'.
  assert (Hwhole : ∀ m, 0 ≤ sum_at count model_name m data < 2 ^ 53).
  { intros m. pose proof (sum_at_le count model_name m data (proj1 Hc)). destruct Hc. lia. }
  destruct data as [|r0 rest]; [done|]. set (data := r0 :: rest) in *. eexists. split; [reflexivity|].
  cbn [pieData c_processed]. change (model_totals (aggregateDataByTimeAndModel data time)) with tot.
  assert (Hum : uniqueModels (processRawData data time) = ms) by (unfold processRawData; cbn [uniqueModels]; done).
  rewrite Hum. assert (Hpie : desc_by snd tot ≡ₚ tot) by apply sort_by_perm. split_and!.
  - by rewrite Hpie.
  - apply desc_sorted. rewrite Htot'. apply Forall_map_2, list.Forall_true. intros m. by apply of_Z_finite_wf.
  - rewrite (sum_by_perm _ _ _ Hpie), (sum_by_perm _ _ _ Htot').
    transitivity (foldr (λ m s, sum_at count model_name m data + s) 0 ms).
    + clear -Hwhole. unfold sum_by. induction ms as [|m ms IH]; [done|]. cbn [map foldr snd].
      by rewrite int_of_small, IH by apply Hwhole.
    + apply sum_over_keys; [apply pushed_NoDup|]. intros r Hr. unfold ms. rewrite pushed_elem.
      apply list_elem_of_fmap. eauto.
  - etransitivity; [exact Htot|]. by apply fold_total.
Qed.

(** An empty answer is drawn: a row without tokens takes its place, so the sum of
    tokens is NaN, and [updateChartData] never sees an empty list. *)
Theorem no_data_is_drawn `{Env} st time now :
  ∃ c, updateChartData st time (loadQuotaData now []) = Some c ∧
       totalTokens (c_processed c) = NaN ∧ tokens_shown (totalTokens (c_processed c)) = nzero.
Proof. eexists. split; [reflexivity|]. split; reflexivity. Qed.
End dashboard.

(** ** Concrete rows *)

Definition row (seconds : Z) (name : string) (q c : Z) : usage :=
  {| created_at := of_Z seconds; model_name := u name; quota := of_Z q; token_used := of_Z (10 * q); count := of_Z c |}.

Definition bars_of (c : option charts) : list (jstr * jstr * num) :=
  default [] (map (λ b, (b_time b, b_model b, rawQuota b)) <$> (lineData <$> c)).

(** In the first hours of a year the seven hours of the chart reach into the old year
    and are labelled with the year, the entries are not: all bars are zero, the
    title says 500.  1767232800 is 2026-01-01 02:00 UTC. *)
Theorem new_year_bars_vanish :
  let c := @updateChartData utc ascii_unicode ∅ HOUR [row 1767232800 "gpt-5" 500 1] in
  totalQuota <$> (c_processed <$> c) = Some (of_Z 500) ∧
  Forall (λ b, b.2 = nzero) (bars_of c) ∧ length (bars_of c) = 7%nat.
Proof. vm_compute. split; [done|]. split; [|done]. repeat constructor. Qed.

(** With fewer than seven days of usage, days more than six days before the last one
    have no bar: here 300 of 400 are not shown. *)
Theorem gap_bars_vanish :
  let c := @updateChartData utc ascii_unicode ∅ DAY
             [row 1750000000 "gpt-5" 300 1; row 1752000000 "gpt-5" 100 1] in
  totalQuota <$> (c_processed <$> c) = Some (of_Z 400) ∧
  sum_by snd (bars_of c) = 100.
Proof. vm_compute. done. Qed.

Definition sample_rows : list usage :=
  [row 1750000000 "gpt-5" 5 1; row 1750003600 "gpt-5" 7 2; row 1750007200 "claude" 0 1; row 1750010800 "gpt-5" 1 1;
   row 1750014400 "claude" 9 4; row 1750018000 "gpt-5" 2 1; row 1750021600 "gpt-5" 2 1; row 1750021600 "claude" 4 1].

Lemma whole_of_Z z : 0 ≤ z < 2 ^ 53 → whole (of_Z z).
Proof. intros Hz. by exists z. Qed.

Lemma sample_countable :
  countable quota sample_rows ∧ countable count sample_rows ∧ countable token_used sample_rows.
Proof.
  split_and!; (split; [|vm_compute; reflexivity]); unfold sample_rows, row;
    repeat (apply list.Forall_cons; split; [apply whole_of_Z; lia|]); constructor.
Qed.

Lemma sample_dated : @dated utc sample_rows.
Proof.
  unfold dated, sample_rows, row.
  repeat (apply list.Forall_cons; split;
    [eexists _, _; split; [vm_compute; reflexivity|]; split; [vm_compute; reflexivity|]; vm_compute;
       split; split; discriminate|]); constructor.
Qed.

Lemma trends_conserve_witness :
  let p := @processRawData utc sample_rows HOUR in
  totalQuota p = of_Z (foldr (λ k s, sum_at quota (@data_label utc sample_rows HOUR) k sample_rows + s) 0 (timePoints p)).
Proof.
  destruct sample_countable as (Hq & Hc & Ht).
  exact (proj1 (proj2 (proj2 (proj2 (@trends_conserve utc sample_rows HOUR Hq Hc Ht))))).
Defined.

Lemma bars_conserve_witness :
  ∃ c, @updateChartData utc ascii_unicode ∅ HOUR sample_rows = Some c ∧
    map bar_key (lineData c) ≡ₚ pairs (@labels utc sample_rows HOUR) (uniqueModels (c_processed c)) ∧
    (∀ b, b ∈ lineData c → rawQuota b = of_Z (@usage_at utc quota sample_rows HOUR (bar_key b))) ∧
    sum_by rawQuota (lineData c) = sum_by quota sample_rows ∧
    totalQuota (c_processed c) = of_Z (sum_by quota sample_rows) ∧
    StronglySorted (λ a b, @localeCompare ascii_unicode (b_time a) (b_time b) ≤ 0) (lineData c).
Proof.
  apply (@bars_conserve utc ascii_unicode ∅ HOUR sample_rows);
    [exact sample_dated|exact (proj1 sample_countable)|vm_compute; lia].
Defined.

Lemma pie_conserves_witness :
  ∃ c, @updateChartData utc ascii_unicode ∅ HOUR sample_rows = Some c ∧
    pieData c ≡ₚ map (λ m, (m, of_Z (sum_at count model_name m sample_rows))) (uniqueModels (c_processed c)) ∧
    StronglySorted (λ a b, nltb a.2 b.2 = false) (pieData c) ∧
    sum_by snd (pieData c) = sum_by count sample_rows ∧
    totalTimes (c_processed c) = of_Z (sum_by count sample_rows).
Proof.
  apply (@pie_conserves utc ascii_unicode ∅ HOUR sample_rows);
    [discriminate|exact sample_dated|exact (proj1 (proj2 sample_countable))].
Defined.
