(* ===== verification/JsSums.v ===== *)
(** * Sums of products in binary64

    Amounts of money are sums of products of non-negative numbers.  [rounds n k q x]
    counts the roundings on the way from the exact value [q] to the number [x]: each
    multiplies the error by at most [1 + 2^-53], and none of them underflows or
    overflows while the magnitudes stay within [2^-k] and [2^k]. *)

From Stdlib Require Import QArith Lqa.
From S2P Require Import Prelude JsString JsNumber JsRounding.

Local Open Scope Z_scope.

Fixpoint lo (n : nat) : Q := match n with O => 1%Q | S n => (lo n * (1 - u53))%Q end.
Fixpoint hi (n : nat) : Q := match n with O => 1%Q | S n => (hi n * (1 + u53))%Q end.

Definition within (n : nat) (q x : Q) : Prop := (q * lo n <= x /\ x <= q * hi n)%Q.

(** Zero, or between [2^-k] and [2^k] *)
Definition ranged (k : Z) (q : Q) : Prop := (q == 0)%Q ∨ bounded k q.

Definition rounds (n : nat) (k : Z) (q : Q) (x : num) : Prop :=
  ranged k q ∧ ∃ m e, x = Fin false m e ∧ within n q (mag m e).

#[export] Instance within_proper n : Proper (Qeq ==> Qeq ==> iff) (within n).
Proof. intros q q' Hq x x' Hx. unfold within. by rewrite Hq, Hx. Qed.
#[export] Instance ranged_proper k : Proper (Qeq ==> iff) (ranged k).
Proof. intros q q' Hq. unfold ranged. by rewrite Hq. Qed.
#[export] Instance rounds_proper n k : Proper (Qeq ==> eq ==> iff) (rounds n k).
Proof.
  intros q q' Hq x x' <-. unfold rounds. by setoid_rewrite Hq.
Qed.

Lemma u53_small : (0 < u53 <= 1 # 1000000)%Q.
Proof. split; [done|]. by apply Qle_bool_iff. Qed.

Lemma lo_hi n : (0 < lo n <= 1 /\ 1 <= hi n)%Q.
Proof.
  pose proof u53_small as Hu. induction n as [|n [[IH1 IH2] IH3]]; [cbn; lra|]. cbn [lo hi]. split; [split|].
  - apply Qmult_lt_0_compat; lra.
  - apply Qle_trans with (1 * (1 - u53))%Q; [apply Qmult_le_compat_r; lra|lra].
  - apply Qle_trans with (1 * (1 + u53))%Q; [lra|]. apply Qmult_le_compat_r; lra.
Qed.

Lemma lo_mono n m : (n ≤ m)%nat → (lo m <= lo n /\ hi n <= hi m)%Q.
Proof.
  pose proof u53_small as Hu. induction 1 as [|m _ [IH1 IH2]]; [lra|]. pose proof (lo_hi m). cbn [lo hi]. split.
  - apply Qle_trans with (lo m); [|done]. rewrite <- (Qmult_1_r (lo m)) at 2.
    rewrite !(Qmult_comm (lo m)). apply Qmult_le_compat_r; lra.
  - apply Qle_trans with (hi m); [done|]. rewrite <- (Qmult_1_r (hi m)) at 1.
    rewrite !(Qmult_comm (hi m)). apply Qmult_le_compat_r; lra.
Qed.

Lemma lo_add n m : (lo (n + m) == lo n * lo m /\ hi (n + m) == hi n * hi m)%Q.
Proof.
  induction n as [|n [IH1 IH2]]; [cbn; split; ring|]. cbn [Nat.add lo hi]. rewrite IH1, IH2. split; ring.
Qed.

(** Forty roundings change a value by less than a part in 10^14. *)
Definition cent : Q := 1 # (2 ^ 47).

Lemma lo_hi_near n : (n ≤ 40)%nat → (1 - cent <= lo n /\ hi n <= 1 + cent)%Q.
Proof.
  intros Hn. destruct (lo_mono n 40 Hn) as [H1 H2].
  assert (1 - cent <= lo 40)%Q by (apply Qle_bool_iff; vm_compute; reflexivity).
  assert (hi 40 <= 1 + cent)%Q by (apply Qle_bool_iff; vm_compute; reflexivity). lra.
Qed.

Lemma Qmult_mono a b c d : (0 <= a -> 0 <= c -> a <= b -> c <= d -> a * c <= b * d)%Q.
Proof.
  intros Ha Hc Hab Hcd. apply Qle_trans with (b * c)%Q; [by apply Qmult_le_compat_r|].
  rewrite !(Qmult_comm b). apply Qmult_le_compat_r; [done|lra].
Qed.

Lemma ranged_nonneg k q : 0 ≤ k → ranged k q → (0 <= q)%Q.
Proof. intros Hk [->|Hq]; [lra|]. pose proof (bounded_pos k q Hk Hq). lra. Qed.

Lemma ranged_mono k l q : 0 ≤ k ≤ l → ranged k q → ranged l q.
Proof. intros Hkl [?|?]; [by left|right]. by apply (bounded_mono k). Qed.

Lemma ranged_mul k l q p : 0 ≤ k → 0 ≤ l → ranged k q → ranged l p → ranged (k + l) (q * p).
Proof.
  intros Hk Hl [Hq|Hq] [Hp|Hp]; [left..|right; by apply bounded_mul]; rewrite ?Hq, ?Hp; ring.
Qed.

Lemma ranged_add k q p : 0 ≤ k → ranged k q → ranged k p → ranged (k + 1) (q + p).
Proof.
  intros Hk [Hq|Hq] [Hp|Hp].
  - left. rewrite Hq, Hp. ring.
  - right. rewrite Hq, Qplus_0_l. apply (bounded_mono k); [lia|done].
  - right. rewrite Hp, Qplus_0_r. apply (bounded_mono k); [lia|done].
  - right. pose proof (bounded_pos k q Hk Hq) as Hq0. pose proof (bounded_pos k p Hk Hp) as Hp0.
    pose proof (pow2_q k Hk) as HK. destruct Hq as [H1 H2], Hp as [H3 H4]. unfold bounded. rewrite inject_pow2_add by lia.
    change (inject_Z (2 ^ 1)) with 2%Q. set (K := inject_Z (2 ^ k)) in *. split; [|lra].
    assert (0 <= p * K)%Q by (apply Qmult_le_0_compat; lra).
    assert ((q + p) * (K * 2) == 2 * (q * K) + 2 * (p * K))%Q as -> by ring. lra.
Qed.

(** ** One rounding more *)

Lemma rounded_step n k q y :
  (n ≤ 40)%nat → 0 ≤ k ≤ 1000 → ranged k q → within n q y →
  ∃ m e, round_q false y = Fin false m e ∧ within (S n) q (mag m e).
Proof.
  intros Hn Hk [Hq|Hq] [Hlo Hhi].
  - assert (Hy : (y == 0)%Q) by (rewrite Hq in Hlo, Hhi; lra).
    exists 0, emin. split; [rewrite (round_q_proper false y 0 Hy); reflexivity|].
    unfold within. rewrite Hq. assert (mag 0 emin == 0)%Q as -> by reflexivity. lra.
  - pose proof (bounded_pos k q ltac:(lia) Hq) as Hpos. destruct (lo_hi_near n Hn) as [H1 H2].
    assert (Hc : (cent <= 1 # 2)%Q) by (by apply Qle_bool_iff).
    assert (Hn' : near cent q y).
    { split.
      - apply Qle_trans with (q * lo n)%Q; [|done].
        assert (q - q * cent == (1 - cent) * q)%Q as -> by ring. rewrite (Qmult_comm q). apply Qmult_le_compat_r; lra.
      - apply Qle_trans with (q * hi n)%Q; [done|].
        assert (q + q * cent == (1 + cent) * q)%Q as -> by ring. rewrite (Qmult_comm q). apply Qmult_le_compat_r; lra. }
    destruct (round_q_near false y (k + 1)) as (m & e & -> & [H3 H4]); [lia|apply (bounded_near k cent q); [lia|done..]|].
    exists m, e. split; [done|]. pose proof u53_small as Hu. pose proof (lo_hi n). unfold within. cbn [lo hi]. split.
    + apply Qle_trans with (y - y * u53)%Q; [|done].
      assert (q * (lo n * (1 - u53)) == q * lo n * (1 - u53))%Q as -> by ring.
      assert (y - y * u53 == y * (1 - u53))%Q as -> by ring. apply Qmult_le_compat_r; lra.
    + apply Qle_trans with (y + y * u53)%Q; [done|].
      assert (q * (hi n * (1 + u53)) == q * hi n * (1 + u53))%Q as -> by ring.
      assert (y + y * u53 == y * (1 + u53))%Q as -> by ring. apply Qmult_le_compat_r; lra.
Qed.

Lemma within_mono n m q x : (n ≤ m)%nat → (0 <= q)%Q → within n q x → within m q x.
Proof.
  intros Hnm Hq [H1 H2]. destruct (lo_mono n m Hnm) as [H3 H4].
  unfold within. rewrite (Qmult_comm q (lo m)), (Qmult_comm q (hi m)), (Qmult_comm q (lo n)), (Qmult_comm q (hi n)) in *. split.
  - apply Qle_trans with (lo n * q)%Q; [by apply Qmult_le_compat_r|done].
  - apply Qle_trans with (hi n * q)%Q; [done|by apply Qmult_le_compat_r].
Qed.

Lemma within_nonneg n q x : (0 <= q)%Q → within n q x → (0 <= x)%Q.
Proof.
  intros Hq [H1 _]. pose proof (lo_hi n). apply Qle_trans with (q * lo n)%Q; [|done].
  apply Qmult_le_0_compat; lra.
Qed.

Lemma within_mul n m q p x y :
  (0 <= q)%Q → (0 <= p)%Q → within n q x → within m p y → within (n + m) (q * p) (x * y).
Proof.
  intros Hq Hp Hx Hy. pose proof (within_nonneg n q x Hq Hx) as Hx0. pose proof (within_nonneg m p y Hp Hy) as Hy0.
  destruct Hx as [H1 H2], Hy as [H3 H4]. destruct (lo_add n m) as [Hlo Hhi]. pose proof (lo_hi n). pose proof (lo_hi m).
  unfold within. rewrite Hlo, Hhi. split.
  - assert (q * p * (lo n * lo m) == (q * lo n) * (p * lo m))%Q as -> by ring.
    apply Qmult_mono; try done; apply Qmult_le_0_compat; lra.
  - assert (q * p * (hi n * hi m) == (q * hi n) * (p * hi m))%Q as -> by ring. by apply Qmult_mono.
Qed.

Lemma within_add n q p x y : within n q x → within n p y → within n (q + p) (x + y).
Proof. intros [H1 H2] [H3 H4]. unfold within. rewrite !Qmult_plus_distr_l. lra. Qed.

(** ** The operations *)

Lemma rounds_mono n m k l q x : (n ≤ m)%nat → 0 ≤ k ≤ l → rounds n k q x → rounds m l q x.
Proof.
  intros Hnm Hkl [Hr (s & e & Hx & Hw)]. split; [by apply (ranged_mono k)|]. exists s, e. split; [done|].
  apply (within_mono n); [done| |done]. apply (ranged_nonneg k); [lia|done].
Qed.

Lemma rounds_mul n m k l q p x y :
  (n + m ≤ 40)%nat → 0 ≤ k → 0 ≤ l → k + l ≤ 1000 →
  rounds n k q x → rounds m l p y → rounds (S (n + m)) (k + l) (q * p) (nmul x y).
Proof.
  intros Hn Hk Hl Hkl [Hq (s & e & -> & Hx)] [Hp (s' & e' & -> & Hy)].
  pose proof (ranged_mul k l q p Hk Hl Hq Hp) as Hr. split; [done|]. cbn [nmul xorb].
  apply (rounded_step _ (k + l)); [done|lia|done|].
  apply within_mul; [by apply (ranged_nonneg k)|by apply (ranged_nonneg l)|done|done].
Qed.

Lemma rounds_div n k l q p x y :
  (n ≤ 40)%nat → 0 ≤ k → 0 ≤ l → k + l ≤ 1000 → bounded l p → exactly p y →
  rounds n k q x → rounds (S n) (k + l) (q / p) (ndiv x y).
Proof.
  intros Hn Hk Hl Hkl Hp (s' & e' & -> & Hy & Hne) [Hq (s & e & -> & Hx)].
  pose proof (bounded_inv l p Hl Hp) as Hi.
  pose proof (ranged_mul k l q (/ p) Hk Hl Hq (or_intror Hi)) as Hr. split; [done|].
  cbn [ndiv xorb]. rewrite (proj2 (Z.eqb_neq s' 0)) by done. apply (rounded_step _ (k + l)); [done|lia|done|].
  unfold Qdiv. rewrite Hy. replace n with (n + 0)%nat by lia.
  apply within_mul; [by apply (ranged_nonneg k)|apply (ranged_nonneg l); [done|by right]|done|].
  unfold within. cbn. lra.
Qed.

Lemma nadd_nonneg m e m' e' :
  (0 <= mag m e)%Q → (0 <= mag m' e')%Q →
  nadd (Fin false m e) (Fin false m' e') = round_q false (mag m e + mag m' e').
Proof.
  intros H1 H2. cbn [nadd andb]. unfold to_q, round_signed.
  destruct (_ ?= _)%Q eqn:E; [|exfalso; apply (proj2 (Qlt_alt _ _)) in E; lra|done].
  apply (proj2 (Qeq_alt _ _)) in E. rewrite (round_q_proper false _ 0 E). reflexivity.
Qed.

Lemma rounds_add n m k l q p x y :
  (n `max` m ≤ 40)%nat → 0 ≤ k → 0 ≤ l → k `max` l + 1 ≤ 1000 →
  rounds n k q x → rounds m l p y → rounds (S (n `max` m)) (k `max` l + 1) (q + p) (nadd x y).
Proof.
  intros Hn Hk Hl Hkl Hx Hy. apply (rounds_mono _ (n `max` m) _ (k `max` l)) in Hx; [|lia|lia].
  apply (rounds_mono _ (n `max` m) _ (k `max` l)) in Hy; [|lia|lia].
  destruct Hx as [Hq (s & e & -> & Hx)], Hy as [Hp (s' & e' & -> & Hy)].
  pose proof (ranged_add (k `max` l) q p ltac:(lia) Hq Hp) as Hr. split; [done|].
  pose proof (within_nonneg _ q _ (ranged_nonneg (k `max` l) q ltac:(lia) Hq) Hx) as Hx0.
  pose proof (within_nonneg _ p _ (ranged_nonneg (k `max` l) p ltac:(lia) Hp) Hy) as Hy0.
  rewrite nadd_nonneg by done. apply (rounded_step _ (k `max` l + 1)); [done|lia|done|].
  by apply within_add.
Qed.

(** ** What is known of a number *)

(** A non-negative number with the value [q], in range *)
Definition measures (k : Z) (q : Q) (x : num) : Prop := rounds 0 k q x.

Lemma measures_of_Z z : 0 ≤ z < 2 ^ 53 → measures 53 (inject_Z z) (of_Z z).
Proof.
  intros Hz. split.
  - destruct (Z.eq_dec z 0) as [->|Hne]; [by left|right]. unfold bounded. change 1%Q with (inject_Z 1).
    rewrite <- inject_Z_mult, <- !Zle_Qle. nia.
  - destruct (Z.eq_dec z 0) as [->|Hne].
    { exists 0, emin. split; [done|]. unfold within. cbn. split; discriminate. }
    destruct (of_Z_small z ltac:(lia)) as (m & e & -> & _ & Hm). rewrite (proj2 (Z.ltb_ge z 0)) by lia.
    exists m, e. split; [done|]. rewrite Z.abs_eq in Hm by lia. rewrite Hm. unfold within. cbn [lo hi]. lra.
Qed.

(** The result of at most forty roundings *)
Definition about (q : Q) (x : num) : Prop := approx cent q x.

#[export] Instance about_proper : Proper (Qeq ==> eq ==> iff) about.
Proof. intros q q' Hq x x' <-. unfold about. by rewrite Hq. Qed.

Lemma rounds_about n k q x : (n ≤ 40)%nat → 0 ≤ k → rounds n k q x → about q x.
Proof.
  intros Hn Hk [Hq (m & e & -> & Hlo & Hhi)]. exists m, e. split; [done|].
  pose proof (ranged_nonneg k q Hk Hq). destruct (lo_hi_near n Hn) as [H1 H2]. split.
  - apply Qle_trans with (q * lo n)%Q; [|done].
    assert (q - q * cent == (1 - cent) * q)%Q as -> by ring. rewrite (Qmult_comm q). apply Qmult_le_compat_r; lra.
  - apply Qle_trans with (q * hi n)%Q; [done|].
    assert (q + q * cent == (1 + cent) * q)%Q as -> by ring. rewrite (Qmult_comm q). apply Qmult_le_compat_r; lra.
Qed.

(** Differences of integers are exact. *)
Lemma nsub_of_Z a b : 0 ≤ b ≤ a → a < 2 ^ 53 → nsub (of_Z a) (of_Z b) = of_Z (a - b).
Proof.
  intros Hab Ha. destruct (measures_of_Z a ltac:(lia)) as [_ (m & e & Ea & Hm)].
  destruct (measures_of_Z b ltac:(lia)) as [_ (m' & e' & Eb & Hm')].
  unfold within in Hm, Hm'. cbn [lo hi] in Hm, Hm'.
  unfold nsub. rewrite Ea, Eb. cbn [nopp nadd negb andb]. apply round_signed_of_Z. unfold to_q.
  assert (mag m e == inject_Z a)%Q as -> by lra. assert (mag m' e' == inject_Z b)%Q as -> by lra.
  rewrite <- inject_Z_opp, <- inject_Z_plus. reflexivity.
Qed.
