(* ===== verification/Billing.v ===== *)
(** * Price descriptions of usage logs (helpers/render.jsx)

    What a log entry says about its price: a short text or coloured segments
    ([renderPriceSimpleCore]), a summary of prices or ratios ([renderLogContent],
    [renderClaudeLogContent]) and the article that works the amount out line by
    line ([renderModelPrice], [renderAudioModelPrice], [renderClaudeModelPrice]).
    The positional arguments of these functions are grouped into records; they are
    numbers, as the server writes them, and an argument the code compares with
    [undefined] is an option. *)

From Stdlib Require Import QArith.
From S2P Require Import Prelude JsString JsNumber JsRounding JsValue Json Browser Quota.

Local Open Scope Z_scope.

(** [i18next.t(key, vars)]: the library and the language decide the text. *)
Class I18n := { i18next_t : jstr → list (jstr * val) → jstr }.

(** The key itself, with its placeholders filled in: an instance to evaluate with *)
Definition var_text (vars : list (jstr * val)) (name : jstr) : jstr :=
  match list_find (λ kv, kv.1 = name) vars with
  | Some (_, (_, VStr s)) => s
  | Some (_, (_, VNum n)) => num_to_string n
  | _ => []
  end.

Fixpoint interpolate (fuel : nat) (vars : list (jstr * val)) (s : jstr) : jstr :=
  match fuel, index_of (u "{{") s with
  | S fuel, Some i =>
    let rest := drop (i + 2) s in
    match index_of (u "}}") rest with
    | Some j => take i s ++ var_text vars (take j rest) ++ interpolate fuel vars (drop (j + 2) rest)
    | None => s
    end
  | _, _ => s
  end.

Definition plain_i18n : I18n := {| i18next_t := λ key vars, interpolate (length key) vars key |}.

(** ** Data *)

Record bill := {
  inputTokens : num;
  completionTokens : num;
  modelRatio : num;
  modelPrice : option num;        (* -1 without it *)
  completionRatio : option num;
  groupRatio : num;
  user_group_ratio : option num;
  cacheTokens : num;
  cacheRatio : num;
}.

(** What a Claude entry adds: tokens written to the cache, with their lifetime *)
Record creation := {
  cacheCreationTokens : num;
  cacheCreationRatio : num;
  cacheCreationTokens5m : num;
  cacheCreationRatio5m : num;
  cacheCreationTokens1h : num;
  cacheCreationRatio1h : num;
}.

(** What an entry of another provider adds *)
Record extras := {
  image : bool;
  imageRatio : num;
  imageOutputTokens : num;
  webSearch : bool;
  webSearchCallCount : num;
  webSearchPrice : num;
  fileSearch : bool;
  fileSearchCallCount : num;
  fileSearchPrice : num;
  audioInputSeperatePrice : bool;
  audioInputTokens : num;
  audioInputPrice : num;
  imageGenerationCall : bool;
  imageGenerationCallPrice : num;
}.

(** What an audio entry adds *)
Record audio := {
  audioIn : num;
  audioCompletionTokens : num;
  audioRatio : num;
  audioCompletionRatio : num;
}.

Definition million : num := of_Z 1000000.
Definition thousand : num := of_Z 1000.
Definition positive_tokens (x : num) : bool := ngtb x nzero.

(** A part that is there under a condition *)
Definition when {A} (c : bool) (x : A) : list A := if c then [x] else [].

Local Notation "k ↦ v" := (u k%string, v) (at level 70, no associativity).

Section billing.
Context `{I18n} (st : storage).

Definition buildBillingText (key : string) (vars : list (jstr * val)) : jstr := i18next_t (u key) vars.

(** ** Ratios, modes, formats *)

Definition isValidGroupRatio (ratio : option num) : bool :=
  match ratio with Some r => isFinite r && negb (neqb r (of_Z (-1))) | None => false end.

Record effective := { e_ratio : num; e_label : jstr; useUserGroupRatio : bool }.

Definition getEffectiveRatio (groupRatio : num) (user_group_ratio : option num) : effective :=
  let useUser := isValidGroupRatio user_group_ratio in
  {| e_ratio := if useUser then default groupRatio user_group_ratio else groupRatio;
     e_label := if useUser then buildBillingText "专属倍率" [] else buildBillingText "分组倍率" [];
     useUserGroupRatio := useUser |}.

(** The parameter [modelPrice = -1] *)
Definition price_of (modelPrice : option num) : num := default (of_Z (-1)) modelPrice.
Definition per_call (modelPrice : option num) : bool := negb (neqb (price_of modelPrice) (of_Z (-1))).

Definition PRICE : jstr := u "price".
Definition RATIO : jstr := u "ratio".

Definition resolveBillingDisplayMode (displayMode : jstr) (modelPrice : option num) : jstr :=
  if per_call modelPrice then PRICE
  else if getQuotaDisplayType st =s TOKENS then RATIO
  else if displayMode =s RATIO then RATIO else PRICE.

Definition isPriceDisplayMode (displayMode : jstr) (modelPrice : option num) : bool :=
  resolveBillingDisplayMode displayMode modelPrice =s PRICE.

Definition shouldUseRatioBillingProcess (modelPrice : option num) : bool :=
  neqb (price_of modelPrice) (of_Z (-1)) && (getQuotaDisplayType st =s TOKENS).

Definition symbol : val := c_symbol (getCurrencyConfig st).

(** [x * rate] needs the rate as a number. *)
Definition rate_num : res num := to_num (c_rate (getCurrencyConfig st)).

Definition formatCompactDisplayPrice (usdAmount : num) : res val :=
  let! rate := rate_num in
  let! s := to_str symbol in
  Ok (VStr (s ++ num_to_string (Number (toFixed 6 (nmul usdAmount rate))))).

Definition joinBillingSummary (parts : list jstr) : jstr := join (u "，") (List.filter nonempty parts).

Definition getGroupRatioText (groupRatio : num) (user_group_ratio : option num) : jstr :=
  let e := getEffectiveRatio groupRatio user_group_ratio in
  buildBillingText "{{ratioType}} {{ratio}}x" ["ratioType" ↦ VStr (e_label e); "ratio" ↦ VNum (e_ratio e)].

Definition formatRatioValue (value : num) : num :=
  if isFinite value then Number (toFixed 6 value) else nzero.

Definition renderDisplayAmountFromUsd (usdAmount : num) : res val :=
  renderQuotaWithAmount st (VNum (Number (toFixed 6 (if ntruthy usdAmount then usdAmount else nzero)))).

Definition formatBillingDisplayPrice (usdAmount rate : num) : val := VStr (toFixed 6 (nmul usdAmount rate)).

Definition buildBillingPriceText (key : string) (amountKey : string) (usdAmount rate : num)
    (vars : list (jstr * val)) : jstr :=
  buildBillingText key (("symbol" ↦ symbol) :: (amountKey ↦ formatBillingDisplayPrice usdAmount rate) :: vars).

(** The paragraphs of the article *)
Definition renderBillingArticle (lines : list jstr) : list jstr :=
  List.filter nonempty lines ++ [buildBillingText "仅供参考，以实际扣费为准" []].

Definition completion_ratio (b : bill) : num := default nzero (completionRatio b).

(** [groupRatio = effectiveGroupRatio], and its label *)
Definition group_ratio (b : bill) : num := e_ratio (getEffectiveRatio (groupRatio b) (user_group_ratio b)).
Definition ratio_label (b : bill) : val := VStr (e_label (getEffectiveRatio (groupRatio b) (user_group_ratio b))).
Definition ratio_vars (b : bill) : list (jstr * val) :=
  ["ratioType" ↦ ratio_label b; "ratio" ↦ VNum (group_ratio b)].

(** ** The short description *)

Section simple.
Context (b : bill) (k : creation) (img : bool) (img_ratio : num) (isSystemPromptOverride : bool) (displayMode : jstr).

Definition hasSplitCacheCreation : bool :=
  positive_tokens (cacheCreationTokens5m k) || positive_tokens (cacheCreationTokens1h k).
Definition showLegacyCreation : bool :=
  negb hasSplitCacheCreation && negb (neqb (cacheCreationTokens k) nzero).
Definition showCache : bool := negb (neqb (cacheTokens b) nzero).
Definition showCreation5m : bool := hasSplitCacheCreation && positive_tokens (cacheCreationTokens5m k).
Definition showCreation1h : bool := hasSplitCacheCreation && positive_tokens (cacheCreationTokens1h k).

(** [i18next.t(key, { price: formatCompactDisplayPrice(modelRatio * 2.0 * r) })] *)
Definition compact_part (key : string) (usd : num) : res jstr :=
  rmap (λ p, buildBillingText key ["price" ↦ p]) (formatCompactDisplayPrice usd).

Definition unit_price (r : num) : num := nmul (nmul (modelRatio b) (of_Z 2)) r.

(** The prices per million tokens, as segments and as parts of the text *)
Definition price_parts : list (res jstr) :=
  [compact_part "输入 {{price}} / 1M tokens" (nmul (modelRatio b) (of_Z 2))]
  ++ when showCache (compact_part "缓存读 {{price}} / 1M tokens" (unit_price (cacheRatio b)))
  ++ when (hasSplitCacheCreation && showCreation5m)
       (compact_part "5m缓存创建 {{price}} / 1M tokens" (unit_price (cacheCreationRatio5m k)))
  ++ when (hasSplitCacheCreation && showCreation1h)
       (compact_part "1h缓存创建 {{price}} / 1M tokens" (unit_price (cacheCreationRatio1h k)))
  ++ when (negb hasSplitCacheCreation && showLegacyCreation)
       (compact_part "缓存创建 {{price}} / 1M tokens" (unit_price (cacheCreationRatio k)))
  ++ when img (compact_part "图片输入 {{price}} / 1M tokens" (unit_price img_ratio)).

(** The keys of the ratios, each with the variables of its segment *)
Definition ratio_parts : list (string * list (jstr * val)) :=
  [("模型: {{ratio}}"%string, ["ratio" ↦ VNum (modelRatio b)])]
  ++ when showCache ("缓存: {{cacheRatio}}"%string, ["cacheRatio" ↦ VNum (cacheRatio b)])
  ++ (if hasSplitCacheCreation then
        if showCreation5m && showCreation1h then
          [("缓存创建: 5m {{cacheCreationRatio5m}} / 1h {{cacheCreationRatio1h}}"%string,
            ["cacheCreationRatio5m" ↦ VNum (cacheCreationRatio5m k);
             "cacheCreationRatio1h" ↦ VNum (cacheCreationRatio1h k)])]
        else if showCreation5m then
          [("缓存创建: 5m {{cacheCreationRatio5m}}"%string, ["cacheCreationRatio5m" ↦ VNum (cacheCreationRatio5m k)])]
        else when showCreation1h
          ("缓存创建: 1h {{cacheCreationRatio1h}}"%string, ["cacheCreationRatio1h" ↦ VNum (cacheCreationRatio1h k)])
      else when showLegacyCreation
        ("缓存创建: {{cacheCreationRatio}}"%string, ["cacheCreationRatio" ↦ VNum (cacheCreationRatio k)]))
  ++ when img ("图片输入: {{imageRatio}}"%string, ["imageRatio" ↦ VNum img_ratio]).

Inductive tone := Primary | Secondary.

(** [outputMode === 'segments'] *)
Definition simple_segments : res (list (tone * jstr)) :=
  let! parts :=
    if per_call (modelPrice b) then
      rmapM id [if isPriceDisplayMode displayMode (modelPrice b)
                then compact_part "模型价格 {{price}}" (price_of (modelPrice b))
                else Ok (buildBillingText "按次" [])]
    else if isPriceDisplayMode displayMode (modelPrice b) then rmapM id price_parts
    else Ok (map (λ kv, buildBillingText kv.1 kv.2) ratio_parts) in
  Ok ((Primary, getGroupRatioText (groupRatio b) (user_group_ratio b))
        :: map (λ p, (Secondary, p)) parts
        ++ when isSystemPromptOverride (Primary, buildBillingText "系统提示覆盖" [])).

Definition override_note : jstr :=
  if isSystemPromptOverride then [10; 13] ++ buildBillingText "系统提示覆盖" [] else [].

(** [outputMode === 'text'] *)
Definition simple_text : res jstr :=
  if per_call (modelPrice b) then
    let! rate := rate_num in
    let price := formatBillingDisplayPrice (price_of (modelPrice b)) rate in
    if isPriceDisplayMode displayMode (modelPrice b) then
      Ok (joinBillingSummary [buildBillingText "模型价格：{{symbol}}{{price}}" ["symbol" ↦ symbol; "price" ↦ price];
                              getGroupRatioText (groupRatio b) (user_group_ratio b)])
    else Ok (buildBillingText "价格：{{symbol}}{{price}} * {{ratioType}}：{{ratio}}"
               (["symbol" ↦ symbol; "price" ↦ price] ++ ratio_vars b))
  else if isPriceDisplayMode displayMode (modelPrice b) then
    let! parts := rmapM id price_parts in
    Ok (joinBillingSummary (parts ++ [getGroupRatioText (groupRatio b) (user_group_ratio b)]) ++ override_note)
  else
    (* the translated parts, placeholders and all, make up a key of their own *)
    let key := join (u " * ") (map (λ kv, buildBillingText kv.1 []) ratio_parts ++ [u "{{ratioType}}: {{groupRatio}}"]) in
    Ok (i18next_t key
          ["ratio" ↦ VNum (modelRatio b); "ratioType" ↦ ratio_label b; "groupRatio" ↦ VNum (group_ratio b);
           "cacheRatio" ↦ VNum (cacheRatio b); "cacheCreationRatio" ↦ VNum (cacheCreationRatio k);
           "cacheCreationRatio5m" ↦ VNum (cacheCreationRatio5m k);
           "cacheCreationRatio1h" ↦ VNum (cacheCreationRatio1h k); "imageRatio" ↦ VNum img_ratio]
        ++ override_note).
End simple.

(** ** The summaries *)

(** [(modelRatio * 2.0 * r * rate).toFixed(6)] *)
Definition million_price (b : bill) (rate : num) (r : num) : list (jstr * val) :=
  ["symbol" ↦ symbol; "price" ↦ formatBillingDisplayPrice (unit_price b r) rate].

(** The two lines of a price per call *)
Definition call_summary (b : bill) (rate : num) : jstr :=
  joinBillingSummary
    [buildBillingText "模型价格 {{symbol}}{{price}} / 次"
       ["symbol" ↦ symbol; "price" ↦ formatBillingDisplayPrice (price_of (modelPrice b)) rate];
     getGroupRatioText (groupRatio b) (user_group_ratio b)].

Definition input_output_prices (b : bill) (rate : num) : list jstr :=
  [buildBillingText "输入价格 {{symbol}}{{price}} / 1M tokens"
     ["symbol" ↦ symbol; "price" ↦ formatBillingDisplayPrice (nmul (modelRatio b) (of_Z 2)) rate];
   buildBillingText "输出价格 {{symbol}}{{price}} / 1M tokens"
     (million_price b rate (default NaN (completionRatio b)))].

(** [undefined] or the number *)
Definition num_val (x : option num) : val := match x with Some n => VNum n | None => VUndef end.

Definition renderLogContent (b : bill) (x : extras) (displayMode : jstr) : res jstr :=
  if isPriceDisplayMode displayMode (modelPrice b) then
    let! rate := rate_num in
    if per_call (modelPrice b) then Ok (call_summary b rate) else
    Ok (joinBillingSummary
      (input_output_prices b rate
       ++ when (negb (neqb (cacheRatio b) one))
            (buildBillingText "缓存读取价格 {{symbol}}{{price}} / 1M tokens" (million_price b rate (cacheRatio b)))
       ++ when (image x)
            (buildBillingText "图片输入价格 {{symbol}}{{price}} / 1M tokens" (million_price b rate (imageRatio x)))
       ++ when (webSearch x)
            (buildBillingText "Web 搜索调用 {{webSearchCallCount}} 次" ["webSearchCallCount" ↦ VNum (webSearchCallCount x)])
       ++ when (fileSearch x)
            (buildBillingText "文件搜索调用 {{fileSearchCallCount}} 次" ["fileSearchCallCount" ↦ VNum (fileSearchCallCount x)])
       ++ [getGroupRatioText (groupRatio b) (user_group_ratio b)]))
  else if per_call (modelPrice b) then
    let! rate := rate_num in
    Ok (buildBillingText "模型价格 {{symbol}}{{price}}，{{ratioType}} {{ratio}}"
          (["symbol" ↦ symbol; "price" ↦ formatBillingDisplayPrice (price_of (modelPrice b)) rate] ++ ratio_vars b))
  else
    let ratios := ["modelRatio" ↦ VNum (modelRatio b); "cacheRatio" ↦ VNum (cacheRatio b);
                   "completionRatio" ↦ num_val (completionRatio b)] in
    Ok (if image x then
          buildBillingText "模型倍率 {{modelRatio}}，缓存倍率 {{cacheRatio}}，输出倍率 {{completionRatio}}，图片输入倍率 {{imageRatio}}，{{ratioType}} {{ratio}}"
            (ratios ++ ["imageRatio" ↦ VNum (imageRatio x)] ++ ratio_vars b)
        else if webSearch x then
          buildBillingText "模型倍率 {{modelRatio}}，缓存倍率 {{cacheRatio}}，输出倍率 {{completionRatio}}，{{ratioType}} {{ratio}}，Web 搜索调用 {{webSearchCallCount}} 次"
            (ratios ++ ratio_vars b ++ ["webSearchCallCount" ↦ VNum (webSearchCallCount x)])
        else
          buildBillingText "模型倍率 {{modelRatio}}，缓存倍率 {{cacheRatio}}，输出倍率 {{completionRatio}}，{{ratioType}} {{ratio}}"
            (ratios ++ ratio_vars b)).

Definition renderClaudeLogContent (b : bill) (k : creation) (displayMode : jstr) : res jstr :=
  if isPriceDisplayMode displayMode (modelPrice b) then
    let! rate := rate_num in
    if per_call (modelPrice b) then Ok (call_summary b rate) else
    Ok (joinBillingSummary
      (input_output_prices b rate
       ++ [buildBillingText "缓存读取价格 {{symbol}}{{price}} / 1M tokens" (million_price b rate (cacheRatio b))]
       ++ when (showCreation5m k)
            (buildBillingText "5m缓存创建价格 {{symbol}}{{price}} / 1M tokens" (million_price b rate (cacheCreationRatio5m k)))
       ++ when (showCreation1h k)
            (buildBillingText "1h缓存创建价格 {{symbol}}{{price}} / 1M tokens" (million_price b rate (cacheCreationRatio1h k)))
       ++ when (negb (hasSplitCacheCreation k))
            (buildBillingText "缓存创建价格 {{symbol}}{{price}} / 1M tokens" (million_price b rate (cacheCreationRatio k)))
       ++ [getGroupRatioText (groupRatio b) (user_group_ratio b)]))
  else if per_call (modelPrice b) then
    let! rate := rate_num in
    Ok (buildBillingText "模型价格 {{symbol}}{{price}}，{{ratioType}} {{ratio}}"
          (["symbol" ↦ symbol; "price" ↦ formatBillingDisplayPrice (price_of (modelPrice b)) rate] ++ ratio_vars b))
  else
    let r5m := "cacheCreationRatio5m" ↦ VNum (cacheCreationRatio5m k) in
    let r1h := "cacheCreationRatio1h" ↦ VNum (cacheCreationRatio1h k) in
    let part :=
      if showCreation5m k && showCreation1h k then
        buildBillingText "缓存创建倍率 5m {{cacheCreationRatio5m}} / 1h {{cacheCreationRatio1h}}" [r5m; r1h]
      else if showCreation5m k then buildBillingText "缓存创建倍率 5m {{cacheCreationRatio5m}}" [r5m]
      else if showCreation1h k then buildBillingText "缓存创建倍率 1h {{cacheCreationRatio1h}}" [r1h]
      else [] in
    let cacheCreationPart :=
      if nonempty part then part
      else buildBillingText "缓存创建倍率 {{cacheCreationRatio}}" ["cacheCreationRatio" ↦ VNum (cacheCreationRatio k)] in
    Ok (join (u "，")
          [buildBillingText "模型倍率 {{modelRatio}}" ["modelRatio" ↦ VNum (modelRatio b)];
           buildBillingText "输出倍率 {{completionRatio}}" ["completionRatio" ↦ num_val (completionRatio b)];
           buildBillingText "缓存倍率 {{cacheRatio}}" ["cacheRatio" ↦ VNum (cacheRatio b)];
           cacheCreationPart;
           buildBillingText "{{ratioType}} {{ratio}}" (ratio_vars b)]).

(** ** The article of a price per call *)

Definition call_article (first second : string) (b : bill) (rate : num) : list jstr :=
  let price := price_of (modelPrice b) in
  renderBillingArticle
    [buildBillingPriceText first "price" price rate [];
     buildBillingPriceText second "price" price rate
       (ratio_vars b ++ ["total" ↦ formatBillingDisplayPrice (nmul price (group_ratio b)) rate])].

(** ** The article of a Claude entry *)

Section claude.
Context (b : bill) (k : creation).

Definition inputRatioPrice : num := nmul (modelRatio b) (of_Z 2).

(** [(tokens / 1000000) * price * groupRatio] *)
Definition charge (tokens price : num) : num := nmul (nmul (ndiv tokens million) price) (group_ratio b).

Definition legacyCreationTokens : num := if hasSplitCacheCreation k then nzero else cacheCreationTokens k.
Definition showCacheRead : bool := positive_tokens (cacheTokens b).
Definition showCreation : bool := negb (hasSplitCacheCreation k) && positive_tokens (cacheCreationTokens k).

(** [effectiveInputTokens], of the ratios as they are or as they are shown *)
Definition claude_input (show : num → num) : num :=
  nadd (nadd (nadd (nadd (inputTokens b)
    (nmul (cacheTokens b) (show (cacheRatio b))))
    (nmul legacyCreationTokens (show (cacheCreationRatio k))))
    (nmul (cacheCreationTokens5m k) (show (cacheCreationRatio5m k))))
    (nmul (cacheCreationTokens1h k) (show (cacheCreationRatio1h k))).

(** [price], and [totalAmount] of the ratio process *)
Definition claude_price (show : num → num) : num :=
  nadd (charge (claude_input show) inputRatioPrice)
       (charge (completionTokens b) (unit_price b (show (completion_ratio b)))).

(** The terms of the breakdown: the key, the name of the number of tokens, that
    number and the price per million *)
Definition claude_terms : list (string * string * num * num) :=
  [("提示 {{input}} tokens / 1M tokens * {{symbol}}{{price}}"%string, "input"%string, inputTokens b, inputRatioPrice)]
  ++ when showCacheRead
       ("缓存 {{tokens}} tokens / 1M tokens * {{symbol}}{{price}}"%string, "tokens"%string, cacheTokens b, unit_price b (cacheRatio b))
  ++ when showCreation
       ("缓存创建 {{tokens}} tokens / 1M tokens * {{symbol}}{{price}}"%string, "tokens"%string, cacheCreationTokens k,
        unit_price b (cacheCreationRatio k))
  ++ when (showCreation5m k)
       ("5m缓存创建 {{tokens}} tokens / 1M tokens * {{symbol}}{{price}}"%string, "tokens"%string, cacheCreationTokens5m k,
        unit_price b (cacheCreationRatio5m k))
  ++ when (showCreation1h k)
       ("1h缓存创建 {{tokens}} tokens / 1M tokens * {{symbol}}{{price}}"%string, "tokens"%string, cacheCreationTokens1h k,
        unit_price b (cacheCreationRatio1h k))
  ++ [("补全 {{completion}} tokens / 1M tokens * {{symbol}}{{price}}"%string, "completion"%string, completionTokens b,
       unit_price b (completion_ratio b))].

Definition term_text (rate : num) (term : string * string * num * num) : jstr :=
  let '(key, name, tokens, price) := term in
  buildBillingText key [name ↦ VNum tokens; "symbol" ↦ symbol; "price" ↦ formatBillingDisplayPrice price rate].

Definition claude_price_lines (rate : num) : list jstr :=
  let line key r := buildBillingPriceText key "price" (unit_price b r) rate [] in
  [buildBillingPriceText "输入价格：{{symbol}}{{price}} / 1M tokens" "price" inputRatioPrice rate [];
   line "输出价格：{{symbol}}{{price}} / 1M tokens"%string (completion_ratio b)]
  ++ when showCacheRead (line "缓存读取价格：{{symbol}}{{price}} / 1M tokens"%string (cacheRatio b))
  ++ when showCreation (line "缓存创建价格：{{symbol}}{{price}} / 1M tokens"%string (cacheCreationRatio k))
  ++ when (showCreation5m k) (line "5m缓存创建价格：{{symbol}}{{price}} / 1M tokens"%string (cacheCreationRatio5m k))
  ++ when (showCreation1h k) (line "1h缓存创建价格：{{symbol}}{{price}} / 1M tokens"%string (cacheCreationRatio1h k))
  ++ [buildBillingText "{{breakdown}} * {{ratioType}} {{ratio}} = {{symbol}}{{total}}"
        (["breakdown" ↦ VStr (join (u " + ") (map (term_text rate) claude_terms))] ++ ratio_vars b
         ++ ["symbol" ↦ symbol; "total" ↦ formatBillingDisplayPrice (claude_price id) rate])].

(** A line of the ratio process: key, tokens, the ratios beside the model's, amount *)
Definition ratio_line (key : string) (tokens : num) (ratios : list (string * num)) (amount : num) : res jstr :=
  let! shown := renderDisplayAmountFromUsd amount in
  Ok (buildBillingText key
        (["tokens" ↦ VNum tokens; "modelRatio" ↦ VNum (formatRatioValue (modelRatio b))]
         ++ map (λ r, (u r.1, VNum r.2)) ratios ++ ratio_vars b ++ ["amount" ↦ shown])).

Definition total_line (amount : num) : res jstr :=
  rmap (λ total, buildBillingText "合计：{{total}}" ["total" ↦ total]) (renderDisplayAmountFromUsd amount).

(** [(tokens / 1000000) * inputRatioPrice * ratio * groupRatio] *)
Definition ratio_charge (tokens ratio : num) : num :=
  nmul (nmul (nmul (ndiv tokens million) inputRatioPrice) ratio) (group_ratio b).

Definition claude_ratio_lines : list (res jstr) :=
  let rv := formatRatioValue in
  let comp := rv (completion_ratio b) in
  [Ok (buildBillingText "模型倍率 {{modelRatio}}，输出倍率 {{completionRatio}}，缓存倍率 {{cacheRatio}}，{{ratioType}} {{ratio}}"
         (["modelRatio" ↦ VNum (rv (modelRatio b)); "completionRatio" ↦ VNum comp;
           "cacheRatio" ↦ VNum (rv (cacheRatio b))] ++ ratio_vars b));
   Ok (if hasSplitCacheCreation k
       then buildBillingText "缓存创建倍率 5m {{cacheCreationRatio5m}} / 1h {{cacheCreationRatio1h}}"
              ["cacheCreationRatio5m" ↦ VNum (rv (cacheCreationRatio5m k));
               "cacheCreationRatio1h" ↦ VNum (rv (cacheCreationRatio1h k))]
       else buildBillingText "缓存创建倍率 {{cacheCreationRatio}}" ["cacheCreationRatio" ↦ VNum (rv (cacheCreationRatio k))]);
   ratio_line "普通输入：{{tokens}} / 1M * 模型倍率 {{modelRatio}} * {{ratioType}} {{ratio}} = {{amount}}"
     (inputTokens b) [] (charge (inputTokens b) inputRatioPrice)]
  ++ when showCacheRead
       (ratio_line "缓存读取：{{tokens}} / 1M * 模型倍率 {{modelRatio}} * 缓存倍率 {{cacheRatio}} * {{ratioType}} {{ratio}} = {{amount}}"
          (cacheTokens b) [("cacheRatio"%string, rv (cacheRatio b))] (ratio_charge (cacheTokens b) (rv (cacheRatio b))))
  ++ when showCreation
       (ratio_line "缓存创建：{{tokens}} / 1M * 模型倍率 {{modelRatio}} * 缓存创建倍率 {{cacheCreationRatio}} * {{ratioType}} {{ratio}} = {{amount}}"
          (cacheCreationTokens k) [("cacheCreationRatio"%string, rv (cacheCreationRatio k))]
          (ratio_charge (cacheCreationTokens k) (rv (cacheCreationRatio k))))
  ++ when (showCreation5m k)
       (ratio_line "5m缓存创建：{{tokens}} / 1M * 模型倍率 {{modelRatio}} * 5m缓存创建倍率 {{cacheCreationRatio5m}} * {{ratioType}} {{ratio}} = {{amount}}"
          (cacheCreationTokens5m k) [("cacheCreationRatio5m"%string, rv (cacheCreationRatio5m k))]
          (ratio_charge (cacheCreationTokens5m k) (rv (cacheCreationRatio5m k))))
  ++ when (showCreation1h k)
       (ratio_line "1h缓存创建：{{tokens}} / 1M * 模型倍率 {{modelRatio}} * 1h缓存创建倍率 {{cacheCreationRatio1h}} * {{ratioType}} {{ratio}} = {{amount}}"
          (cacheCreationTokens1h k) [("cacheCreationRatio1h"%string, rv (cacheCreationRatio1h k))]
          (ratio_charge (cacheCreationTokens1h k) (rv (cacheCreationRatio1h k))))
  ++ [Ok (buildBillingText "补全 {{completion}} tokens * 输出倍率 {{completionRatio}}"
            ["completion" ↦ VNum (completionTokens b); "completionRatio" ↦ VNum comp]);
      ratio_line "输出：{{tokens}} / 1M * 模型倍率 {{modelRatio}} * 输出倍率 {{completionRatio}} * {{ratioType}} {{ratio}} = {{amount}}"
        (completionTokens b) [("completionRatio"%string, comp)] (ratio_charge (completionTokens b) comp);
      total_line (claude_price formatRatioValue)].

(** After the ratio process is chosen the code tests for a price per call again; the
    choice excludes it. *)
Definition renderClaudeModelPrice : res (list jstr) :=
  if negb (shouldUseRatioBillingProcess (modelPrice b)) then
    let! rate := rate_num in
    Ok (if per_call (modelPrice b) then
          call_article "模型价格：{{symbol}}{{price}} / 次"
            "模型价格 {{symbol}}{{price}} / 次 * {{ratioType}} {{ratio}} = {{symbol}}{{total}}" b rate
        else renderBillingArticle (claude_price_lines rate))
  else rmap renderBillingArticle (rmapM id claude_ratio_lines).
End claude.

(** ** The article of an entry of another provider *)

Section model.
Context (b : bill) (x : extras).

Definition showImage : bool := image x && positive_tokens (imageOutputTokens x).
Definition showWebSearch : bool := webSearch x && positive_tokens (webSearchCallCount x).
Definition showFileSearch : bool := fileSearch x && positive_tokens (fileSearchCallCount x).
Definition showImageCall : bool := imageGenerationCall x && positive_tokens (imageGenerationCallPrice x).

Definition effectiveInputTokens : num :=
  let n := if showImage
           then nadd (nsub (inputTokens b) (imageOutputTokens x)) (nmul (imageOutputTokens x) (imageRatio x))
           else nadd (nsub (inputTokens b) (cacheTokens b)) (nmul (cacheTokens b) (cacheRatio b)) in
  if positive_tokens (audioInputTokens x) then nsub n (audioInputTokens x) else n.

(** [(count / 1000) * price * groupRatio] *)
Definition call_charge (count price : num) : num := nmul (nmul (ndiv count thousand) price) (group_ratio b).

(** [price] *)
Definition model_price : num :=
  nadd (nadd (nadd (nadd (nadd
    (charge b effectiveInputTokens (inputRatioPrice b))
    (charge b (audioInputTokens x) (audioInputPrice x)))
    (charge b (completionTokens b) (unit_price b (completion_ratio b))))
    (call_charge (webSearchCallCount x) (webSearchPrice x)))
    (call_charge (fileSearchCallCount x) (fileSearchPrice x)))
    (nmul (imageGenerationCallPrice x) (group_ratio b)).

Definition inputDesc (rate : num) : jstr :=
  let price := formatBillingDisplayPrice (inputRatioPrice b) rate in
  if showImage then
    buildBillingPriceText "(输入 {{nonImageInput}} tokens + 图片输入 {{imageInput}} tokens / 1M tokens * {{symbol}}{{price}}"
      "price" (inputRatioPrice b) rate
      ["nonImageInput" ↦ VNum (nsub (inputTokens b) (imageOutputTokens x)); "imageInput" ↦ VNum (imageOutputTokens x)]
  else if positive_tokens (cacheTokens b) then
    buildBillingText "(输入 {{nonCacheInput}} tokens / 1M tokens * {{symbol}}{{price}} + 缓存 {{cacheInput}} tokens / 1M tokens * {{symbol}}{{cachePrice}}"
      ["nonCacheInput" ↦ VNum (nsub (inputTokens b) (cacheTokens b)); "cacheInput" ↦ VNum (cacheTokens b);
       "symbol" ↦ symbol; "price" ↦ price; "cachePrice" ↦ formatBillingDisplayPrice (unit_price b (cacheRatio b)) rate]
  else if audioInputSeperatePrice x && positive_tokens (audioInputTokens x) then
    buildBillingText "(输入 {{nonAudioInput}} tokens / 1M tokens * {{symbol}}{{price}} + 音频输入 {{audioInput}} tokens / 1M tokens * {{symbol}}{{audioPrice}}"
      ["nonAudioInput" ↦ VNum (nsub (inputTokens b) (audioInputTokens x)); "audioInput" ↦ VNum (audioInputTokens x);
       "symbol" ↦ symbol; "price" ↦ price; "audioPrice" ↦ formatBillingDisplayPrice (audioInputPrice x) rate]
  else
    buildBillingPriceText "(输入 {{input}} tokens / 1M tokens * {{symbol}}{{price}}" "price" (inputRatioPrice b) rate
      ["input" ↦ VNum (inputTokens b)].

Definition outputDesc (rate : num) : jstr :=
  buildBillingText "输出 {{completion}} tokens / 1M tokens * {{symbol}}{{compPrice}}) * {{ratioType}} {{ratio}}"
    (["completion" ↦ VNum (completionTokens b); "symbol" ↦ symbol;
      "compPrice" ↦ formatBillingDisplayPrice (unit_price b (completion_ratio b)) rate] ++ ratio_vars b).

Definition extraServices (rate : num) : jstr :=
  let part key usd vars := buildBillingPriceText key "price" usd rate (vars ++ ratio_vars b) in
  join [] (when showWebSearch
             (part " + Web搜索 {{count}}次 / 1K 次 * {{symbol}}{{price}} * {{ratioType}} {{ratio}}"%string (webSearchPrice x)
                ["count" ↦ VNum (webSearchCallCount x)])
           ++ when showFileSearch
             (part " + 文件搜索 {{count}}次 / 1K 次 * {{symbol}}{{price}} * {{ratioType}} {{ratio}}"%string (fileSearchPrice x)
                ["count" ↦ VNum (fileSearchCallCount x)])
           ++ when showImageCall
             (part " + 图片生成调用 {{symbol}}{{price}} / 1次 * {{ratioType}} {{ratio}}"%string (imageGenerationCallPrice x) [])).

Definition model_price_lines (rate : num) : res (list jstr) :=
  let! audioPrice :=
    if audioInputSeperatePrice x then
      let! s := to_str symbol in
      Ok (u "，" ++ buildBillingText "音频输入价格" [] ++ u " " ++ s
            ++ toFixed 6 (nmul (audioInputPrice x) rate) ++ u " / 1M tokens")
    else Ok [] in
  let line key name usd := buildBillingPriceText key name usd rate [] in
  Ok ([buildBillingPriceText "输入价格：{{symbol}}{{price}} / 1M tokens{{audioPrice}}" "price" (inputRatioPrice b) rate
         ["audioPrice" ↦ VStr audioPrice];
       line "输出价格：{{symbol}}{{total}} / 1M tokens"%string "total"%string (unit_price b (completion_ratio b))]
      ++ when (positive_tokens (cacheTokens b))
           (line "缓存读取价格：{{symbol}}{{total}} / 1M tokens"%string "total"%string (nmul (inputRatioPrice b) (cacheRatio b)))
      ++ when showImage
           (line "图片输入价格：{{symbol}}{{total}} / 1M tokens"%string "total"%string (unit_price b (imageRatio x)))
      ++ when showWebSearch (line "Web搜索价格：{{symbol}}{{price}} / 1K 次"%string "price"%string (webSearchPrice x))
      ++ when showFileSearch (line "文件搜索价格：{{symbol}}{{price}} / 1K 次"%string "price"%string (fileSearchPrice x))
      ++ when showImageCall
           (line "图片生成调用：{{symbol}}{{price}} / 1次"%string "price"%string (imageGenerationCallPrice x))
      ++ [buildBillingText "{{inputDesc}} + {{outputDesc}}{{extraServices}} = {{symbol}}{{total}}"
            ["inputDesc" ↦ VStr (inputDesc rate); "outputDesc" ↦ VStr (outputDesc rate);
             "extraServices" ↦ VStr (extraServices rate); "symbol" ↦ symbol;
             "total" ↦ formatBillingDisplayPrice model_price rate]]).

(** The ratio process *)

Definition audioRatioValue : option num :=
  if audioInputSeperatePrice x && positive_tokens (audioInputPrice x)
  then Some (formatRatioValue (ndiv (audioInputPrice x) (inputRatioPrice b))) else None.

Definition textInputTokens : num :=
  math_max (nsub (nsub (inputTokens b) (cacheTokens b)) (audioInputTokens x)) nzero.
Definition imageInputTokens : num := if showImage then imageOutputTokens x else nzero.

Definition textInputAmount : num := charge b textInputTokens (inputRatioPrice b).
Definition cacheInputAmount : num := ratio_charge b (cacheTokens b) (formatRatioValue (cacheRatio b)).
Definition imageInputAmount : num := ratio_charge b imageInputTokens (formatRatioValue (imageRatio x)).
Definition audioInputAmount : num := charge b (audioInputTokens x) (audioInputPrice x).
Definition completionAmount : num :=
  charge b (completionTokens b) (unit_price b (formatRatioValue (completion_ratio b))).
Definition webSearchAmount : num := call_charge (webSearchCallCount x) (webSearchPrice x).
Definition fileSearchAmount : num := call_charge (fileSearchCallCount x) (fileSearchPrice x).
Definition imageGenerationAmount : num := nmul (imageGenerationCallPrice x) (group_ratio b).

Definition totalAmount : num :=
  fold_left nadd [cacheInputAmount; imageInputAmount; audioInputAmount; completionAmount;
                  webSearchAmount; fileSearchAmount; imageGenerationAmount] textInputAmount.

Definition ratios_line : jstr :=
  let part key name (v : num) := buildBillingText key [name ↦ VNum v] in
  joinBillingSummary
    ([part "模型倍率 {{modelRatio}}"%string "modelRatio"%string (formatRatioValue (modelRatio b));
      part "补全倍率 {{completionRatio}}"%string "completionRatio"%string (formatRatioValue (completion_ratio b))]
     ++ when (positive_tokens (cacheTokens b))
          (part "缓存倍率 {{cacheRatio}}"%string "cacheRatio"%string (formatRatioValue (cacheRatio b)))
     ++ when (positive_tokens imageInputTokens)
          (part "图片倍率 {{imageRatio}}"%string "imageRatio"%string (formatRatioValue (imageRatio x)))
     ++ match audioRatioValue with
        | Some r => [part "音频倍率 {{audioRatio}}"%string "audioRatio"%string r]
        | None => []
        end
     ++ [buildBillingText "{{ratioType}} {{ratio}}" (ratio_vars b)]).

(** A line of calls: key, the number of calls where it is shown, price, amount *)
Definition call_line (key : string) (count : list (jstr * val)) (price amount : num) : res jstr :=
  let! p := renderDisplayAmountFromUsd price in
  let! a := renderDisplayAmountFromUsd amount in
  Ok (buildBillingText key (count ++ ["price" ↦ p] ++ ratio_vars b ++ ["amount" ↦ a])).

Definition model_ratio_lines : list (res jstr) :=
  let rv := formatRatioValue in
  [Ok ratios_line]
  ++ when (positive_tokens textInputTokens)
       (ratio_line b "普通输入：{{tokens}} / 1M * 模型倍率 {{modelRatio}} * {{ratioType}} {{ratio}} = {{amount}}"
          textInputTokens [] textInputAmount)
  ++ when (positive_tokens (cacheTokens b))
       (ratio_line b "缓存输入：{{tokens}} / 1M * 模型倍率 {{modelRatio}} * 缓存倍率 {{cacheRatio}} * {{ratioType}} {{ratio}} = {{amount}}"
          (cacheTokens b) [("cacheRatio"%string, rv (cacheRatio b))] cacheInputAmount)
  ++ when (positive_tokens imageInputTokens)
       (ratio_line b "图片输入：{{tokens}} / 1M * 模型倍率 {{modelRatio}} * 图片倍率 {{imageRatio}} * {{ratioType}} {{ratio}} = {{amount}}"
          imageInputTokens [("imageRatio"%string, rv (imageRatio x))] imageInputAmount)
  ++ match audioRatioValue with
     | Some r => when (positive_tokens (audioInputTokens x))
         (ratio_line b "音频输入：{{tokens}} / 1M * 模型倍率 {{modelRatio}} * 音频倍率 {{audioRatio}} * {{ratioType}} {{ratio}} = {{amount}}"
            (audioInputTokens x) [("audioRatio"%string, r)] audioInputAmount)
     | None => []
     end
  ++ [ratio_line b "输出：{{tokens}} / 1M * 模型倍率 {{modelRatio}} * 补全倍率 {{completionRatio}} * {{ratioType}} {{ratio}} = {{amount}}"
        (completionTokens b) [("completionRatio"%string, rv (completion_ratio b))] completionAmount]
  ++ when showWebSearch
       (call_line "Web 搜索：{{count}} / 1K * 单价 {{price}} * {{ratioType}} {{ratio}} = {{amount}}"
          ["count" ↦ VNum (webSearchCallCount x)] (webSearchPrice x) webSearchAmount)
  ++ when showFileSearch
       (call_line "文件搜索：{{count}} / 1K * 单价 {{price}} * {{ratioType}} {{ratio}} = {{amount}}"
          ["count" ↦ VNum (fileSearchCallCount x)] (fileSearchPrice x) fileSearchAmount)
  ++ when showImageCall
       (call_line "图片生成：1 次 * 单价 {{price}} * {{ratioType}} {{ratio}} = {{amount}}"
          [] (imageGenerationCallPrice x) imageGenerationAmount)
  ++ [total_line totalAmount].

Definition renderModelPrice : res (list jstr) :=
  if negb (shouldUseRatioBillingProcess (modelPrice b)) then
    let! rate := rate_num in
    if per_call (modelPrice b) then
      Ok (call_article "按次：{{symbol}}{{price}}"
            "按次 {{symbol}}{{price}} * {{ratioType}} {{ratio}} = {{symbol}}{{total}}" b rate)
    else rmap renderBillingArticle (model_price_lines rate)
  else rmap renderBillingArticle (rmapM id model_ratio_lines).
End model.

(** ** The article of an audio entry *)

Section audio_article.
Context (b : bill) (a : audio).

(** [parseFloat(audioRatio).toFixed(6)], a text that the products read as a number *)
Definition audio_ratio_text : num := Number (toFixed 6 (parseFloat (num_to_string (audioRatio a)))).

(** [inputTokens - cacheTokens + cacheTokens * cacheRatio] *)
Definition text_input (show : num → num) : num :=
  nadd (nsub (inputTokens b) (cacheTokens b)) (nmul (cacheTokens b) (show (cacheRatio b))).

Definition textPrice (show : num → num) : num :=
  nadd (charge b (text_input show) (inputRatioPrice b))
       (charge b (completionTokens b) (unit_price b (show (completion_ratio b)))).

Definition audio_charge (r : num) : num := ratio_charge b (audioIn a) r.
Definition audio_output_charge (r rc : num) : num :=
  nmul (nmul (nmul (nmul (ndiv (audioCompletionTokens a) million) (inputRatioPrice b)) r) rc) (group_ratio b).
Definition audioPrice (r rc : num) : num := nadd (audio_charge r) (audio_output_charge r rc).

Definition audio_price_lines (rate : num) : list jstr :=
  let r := audio_ratio_text in
  let line key usd := buildBillingPriceText key "price" usd rate [] in
  let shown usd := formatBillingDisplayPrice usd rate in
  [line "输入价格：{{symbol}}{{price}} / 1M tokens"%string (inputRatioPrice b);
   line "输出价格：{{symbol}}{{price}} / 1M tokens"%string (unit_price b (completion_ratio b))]
  ++ when (positive_tokens (cacheTokens b))
       (line "缓存读取价格：{{symbol}}{{price}} / 1M tokens"%string (nmul (inputRatioPrice b) (cacheRatio b)))
  ++ [line "音频输入价格：{{symbol}}{{price}} / 1M tokens"%string (nmul (inputRatioPrice b) r);
      line "音频补全价格：{{symbol}}{{price}} / 1M tokens"%string
        (nmul (nmul (inputRatioPrice b) r) (audioCompletionRatio a));
      buildBillingText "文字提示 {{input}} tokens / 1M tokens * {{symbol}}{{textInputPrice}} + 文字补全 {{completion}} tokens / 1M tokens * {{symbol}}{{textCompPrice}} + 音频提示 {{audioInput}} tokens / 1M tokens * {{symbol}}{{audioInputPrice}} + 音频补全 {{audioCompletion}} tokens / 1M tokens * {{symbol}}{{audioCompPrice}} * {{ratioType}} {{ratio}} = {{symbol}}{{total}}"
        (["input" ↦ VNum (inputTokens b); "completion" ↦ VNum (completionTokens b);
          "audioInput" ↦ VNum (audioIn a); "audioCompletion" ↦ VNum (audioCompletionTokens a);
          "textInputPrice" ↦ shown (inputRatioPrice b); "textCompPrice" ↦ shown (unit_price b (completion_ratio b));
          "audioInputPrice" ↦ shown (nmul r (inputRatioPrice b));
          "audioCompPrice" ↦ shown (nmul (nmul r (audioCompletionRatio a)) (inputRatioPrice b))]
         ++ ratio_vars b
         ++ ["symbol" ↦ symbol; "total" ↦ shown (nadd (textPrice id) (audioPrice r (audioCompletionRatio a)))])].

Definition audio_ratio_lines : list (res jstr) :=
  let rv := formatRatioValue in
  let comp := rv (completion_ratio b) in
  let r := rv (audioRatio a) in
  let rc := rv (audioCompletionRatio a) in
  let plain := math_max (nsub (inputTokens b) (cacheTokens b)) nzero in
  let cachePart := if positive_tokens (cacheTokens b)
                   then buildBillingText "缓存倍率" [] ++ u " " ++ num_to_string (rv (cacheRatio b)) ++ u "，" else [] in
  [Ok (buildBillingText "模型倍率 {{modelRatio}}，补全倍率 {{completionRatio}}，音频倍率 {{audioRatio}}，音频补全倍率 {{audioCompletionRatio}}，{{cachePart}}{{ratioType}} {{ratio}}"
         (["modelRatio" ↦ VNum (rv (modelRatio b)); "completionRatio" ↦ VNum comp; "audioRatio" ↦ VNum r;
           "audioCompletionRatio" ↦ VNum rc; "cachePart" ↦ VStr cachePart] ++ ratio_vars b));
   ratio_line b "普通输入：{{tokens}} / 1M * 模型倍率 {{modelRatio}} * {{ratioType}} {{ratio}} = {{amount}}"
     plain [] (charge b plain (inputRatioPrice b))]
  ++ when (positive_tokens (cacheTokens b))
       (ratio_line b "缓存输入：{{tokens}} / 1M * 模型倍率 {{modelRatio}} * 缓存倍率 {{cacheRatio}} * {{ratioType}} {{ratio}} = {{amount}}"
          (cacheTokens b) [("cacheRatio"%string, rv (cacheRatio b))] (ratio_charge b (cacheTokens b) (rv (cacheRatio b))))
  ++ [ratio_line b "文字输出：{{tokens}} / 1M * 模型倍率 {{modelRatio}} * 补全倍率 {{completionRatio}} * {{ratioType}} {{ratio}} = {{amount}}"
        (completionTokens b) [("completionRatio"%string, comp)] (ratio_charge b (completionTokens b) comp);
      ratio_line b "音频输入：{{tokens}} / 1M * 模型倍率 {{modelRatio}} * 音频倍率 {{audioRatio}} * {{ratioType}} {{ratio}} = {{amount}}"
        (audioIn a) [("audioRatio"%string, r)] (audio_charge r);
      ratio_line b "音频输出：{{tokens}} / 1M * 模型倍率 {{modelRatio}} * 音频倍率 {{audioRatio}} * 音频补全倍率 {{audioCompletionRatio}} * {{ratioType}} {{ratio}} = {{amount}}"
        (audioCompletionTokens a) [("audioRatio"%string, r); ("audioCompletionRatio"%string, rc)] (audio_output_charge r rc);
      let! textTotal := renderDisplayAmountFromUsd (textPrice rv) in
      let! audioTotal := renderDisplayAmountFromUsd (audioPrice r rc) in
      let! total := renderDisplayAmountFromUsd (nadd (textPrice rv) (audioPrice r rc)) in
      Ok (buildBillingText "合计：文字部分 {{textTotal}} + 音频部分 {{audioTotal}} = {{total}}"
            ["textTotal" ↦ textTotal; "audioTotal" ↦ audioTotal; "total" ↦ total])].

Definition renderAudioModelPrice : res (list jstr) :=
  if negb (shouldUseRatioBillingProcess (modelPrice b)) then
    let! rate := rate_num in
    Ok (if per_call (modelPrice b) then
          call_article "模型价格：{{symbol}}{{price}} / 次"
            "模型价格 {{symbol}}{{price}} / 次 * {{ratioType}} {{ratio}} = {{symbol}}{{total}}" b rate
        else renderBillingArticle (audio_price_lines rate))
  else rmap renderBillingArticle (rmapM id audio_ratio_lines).
End audio_article.

(** [i18next.t('等价金额：') + renderQuota(quota, digits)], empty when quotas are shown as
    tokens *)
Definition renderQuotaWithPrompt (quota : num) (digits : Z) : res val :=
  if negb (getQuotaDisplayType st =s TOKENS) then
    let! shown := renderQuota st quota digits in js_add (VStr (buildBillingText "等价金额：" [])) shown
  else Ok (VStr []).
End billing.
