(* ===== verification/BillingTotals.v ===== *)
(** * The totals of price descriptions are the sums of their terms

    The articles of [Billing] list tokens and prices and end with a total.  The total
    is computed along another way than the list: these theorems show that both say
    the same, up to the rounding of binary64. *)

From Stdlib Require Import QArith Lqa.
From S2P Require Import Prelude JsString JsNumber JsRounding JsSums JsValue Json Browser Quota Billing.

Local Open Scope Z_scope.

Local Notation "k ↦ v" := (u k%string, v) (at level 70, no associativity).

(** ** Values of numbers *)

Definition value (x : num) : Q := match x with Fin s m e => to_q s m e | _ => 0%Q end.

(** A non-negative number that is zero or between [2^-60] and [2^60] *)
Definition sound (x : num) : Prop := measures 60 (value x) x.

Lemma sound_of_Z z : 0 ≤ z < 2 ^ 53 → sound (of_Z z) ∧ (value (of_Z z) == inject_Z z)%Q.
Proof.
  intros Hz. pose proof (measures_of_Z z Hz) as Hm. destruct (of_Z_q z ltac:(lia)) as (s & m & e & E & Hq).
  assert (Hv : (value (of_Z z) == inject_Z z)%Q) by (by rewrite E).
  split; [|done]. unfold sound, measures in *. rewrite Hv. by apply (rounds_mono 0 0 53 60).
Qed.

Lemma sound_two : rounds 0 53 (2 # 1) (of_Z 2).
Proof. exact (measures_of_Z 2 ltac:(lia)). Qed.

Lemma sound_one : sound one ∧ (value one == 1)%Q.
Proof. apply (sound_of_Z 1). lia. Qed.

Lemma sound_zero : sound nzero.
Proof. apply (sound_of_Z 0). lia. Qed.

Lemma value_zero : (value nzero == 0)%Q.
Proof. reflexivity. Qed.

Lemma exactly_of_Z z : 0 < z < 2 ^ 53 → exactly (inject_Z z) (of_Z z).
Proof.
  intros Hz. destruct (of_Z_small z ltac:(lia)) as (m & e & -> & _ & Hm).
  rewrite (proj2 (Z.ltb_ge z 0)) by lia. rewrite Z.abs_eq in Hm by lia. exists m, e. split; [done|]. split; [done|].
  intros ->. unfold mag in Hm. rewrite Qmult_0_l in Hm. change 0%Q with (inject_Z 0) in Hm.
  assert (0 = z); [|lia]. by apply inject_Z_injective.
Qed.

Lemma rounds_per z l n k q x :
  rounds n k q x → 0 < z < 2 ^ 53 → (1 <= inject_Z z <= inject_Z (2 ^ l))%Q → 0 ≤ l →
  (n ≤ 40)%nat → 0 ≤ k → k + l ≤ 1000 →
  rounds (S n) (k + l) (q / inject_Z z) (ndiv x (of_Z z)).
Proof.
  intros Hx Hz [Hl1 Hl2] H0 Hn Hk Hkl. apply rounds_div; try done; [|by apply exactly_of_Z].
  split; [|done]. pose proof (pow2_q l H0) as Hp.
  assert (1 <= inject_Z (2 ^ l))%Q by (by apply Qle_trans with (inject_Z z)).
  by apply Qmult_one_le.
Qed.

(** The roundings of an expression, from those of its numbers *)
Ltac rounding :=
  lazymatch goal with
  | |- rounds _ _ _ (nmul _ _) =>
    eapply rounds_mul; [| | | |rounding|rounding]; [cbn; lia..]
  | |- rounds _ _ _ (nadd _ _) =>
    eapply rounds_add; [| | | |rounding|rounding]; [cbn; lia..]
  | |- rounds _ _ _ (ndiv _ (of_Z _)) =>
    eapply (rounds_per _ 20); [rounding|lia|split; apply Qle_bool_iff; reflexivity|lia|cbn; lia..]
  | |- rounds _ _ _ _ => eassumption
  end.

(** ** Non-negative tests *)

Lemma hidden_zero x : sound x → positive_tokens x = false → (value x == 0)%Q.
Proof.
  intros [Hr (m & e & -> & Hw)] Hp. cbn [value] in *. unfold to_q in *.
  pose proof (ranged_nonneg 60 (mag m e) ltac:(lia) Hr) as Hnn.
  destruct (Qlt_le_dec 0 (mag m e)) as [Hlt|]; [|lra]. exfalso.
  unfold positive_tokens, ngtb in Hp. apply not_true_iff_false in Hp. apply Hp, nltb_fin.
  assert (Hz : (to_q false 0 emin == 0)%Q) by reflexivity. rewrite Hz. exact Hlt.
Qed.

Section totals.
Context `{I18n} (st : storage).





(** The numbers of a bill are sound. *)
Record sound_bill (b : bill) : Prop := {
  sb_input : sound (inputTokens b);
  sb_completion : sound (completionTokens b);
  sb_model : sound (modelRatio b);
  sb_completion_ratio : sound (completion_ratio b);
  sb_group : sound (group_ratio b);
  sb_cache : sound (cacheTokens b);
  sb_cache_ratio : sound (cacheRatio b);
}.


(** ** Claude *)





(** The price per million tokens at a ratio *)
Definition per_million (b : bill) (ratio : num) : Q := (2 * value (modelRatio b) * value ratio)%Q.







(** The two processes of a Claude entry show the same amount when the ratios have at
    most six digits after the point, which [formatRatioValue] keeps. *)
Definition six_digits (r : num) : Prop := formatRatioValue r = r.

Theorem claude_processes_agree b k :
  six_digits (completion_ratio b) → six_digits (cacheRatio b) → six_digits (cacheCreationRatio k) →
  six_digits (cacheCreationRatio5m k) → six_digits (cacheCreationRatio1h k) →
  claude_price b k formatRatioValue = claude_price b k id.
Proof.
  unfold six_digits, claude_price, claude_input, id. by intros -> -> -> -> ->.
Qed.

(** ** Other providers *)

(** A count of tokens *)
Definition tokens_are (z : Z) (x : num) : Prop := x = of_Z z ∧ 0 ≤ z < 2 ^ 53.

Lemma tokens_sound z x : tokens_are z x → sound x ∧ (value x == inject_Z z)%Q.
Proof. intros [-> Hz]. by apply sound_of_Z. Qed.

Lemma tokens_positive z x : tokens_are z x → positive_tokens x = (0 <? z).
Proof.
  intros [-> Hz]. unfold positive_tokens, ngtb. destruct (Z.ltb_spec 0 z).
  - destruct (of_Z_q z ltac:(lia)) as (s & m & e & -> & Hq). apply nltb_fin. rewrite Hq.
    change (to_q false 0 emin) with (mag 0 emin). assert (Hz0 : (mag 0 emin == 0)%Q) by reflexivity.
    rewrite Hz0. change 0%Q with (inject_Z 0). rewrite <- Zlt_Qlt. done.
  - assert (z = 0) as -> by lia. reflexivity.
Qed.

(** The exact price, in dollars, of tokens and calls at their prices per million *)
Definition prices_sum (items : list (Q * Q)) : Q := foldr (λ i s, i.1 * i.2 / 1000000 + s)%Q 0%Q items.

Lemma prices_sum_app l k : (prices_sum (l ++ k) == prices_sum l + prices_sum k)%Q.
Proof.
  unfold prices_sum. rewrite foldr_app. generalize (foldr (λ i s, i.1 * i.2 / 1000000 + s)%Q 0%Q k). intros s.
  induction l as [|i l IH]; cbn [foldr]; [by rewrite Qplus_0_l|]. rewrite IH. by rewrite Qplus_assoc.
Qed.

(** What [inputDesc] says of an entry of [i] input tokens, [c] from the cache and [a]
    of audio *)
Definition input_items (b : bill) (x : extras) (i c a : Z) : list (Q * Q) :=
  if 0 <? c then [(inject_Z (i - c), per_million b one); (inject_Z c, per_million b (cacheRatio b))]
  else if audioInputSeperatePrice x && (0 <? a)
  then [(inject_Z (i - a), per_million b one); (inject_Z a, value (audioInputPrice x))]
  else [(inject_Z i, per_million b one)].

(** Calls are priced per thousand, image generation per call. *)
Definition service_items (x : extras) : list (Q * Q) :=
  when (showWebSearch x) (value (webSearchCallCount x) * 1000, value (webSearchPrice x))%Q
  ++ when (showFileSearch x) (value (fileSearchCallCount x) * 1000, value (fileSearchPrice x))%Q
  ++ when (showImageCall x) (1000000, value (imageGenerationCallPrice x))%Q.

Definition model_items (b : bill) (x : extras) (i c a : Z) : list (Q * Q) :=
  input_items b x i c a ++ [(value (completionTokens b), per_million b (completion_ratio b))] ++ service_items x.

(** An entry that the description can show: no image, not both cached and audio input,
    audio input at a price of its own, and services that are flagged where they cost
    something. *)
Record describable (x : extras) (c a : Z) : Prop := {
  no_image : showImage x = false;
  one_kind : c = 0 ∨ a = 0;
  audio_priced : a ≠ 0 → audioInputSeperatePrice x = true;
  web_flagged : webSearch x = false → webSearchCallCount x = nzero;
  file_flagged : fileSearch x = false → fileSearchCallCount x = nzero;
  image_flagged : imageGenerationCall x = false → imageGenerationCallPrice x = nzero;
}.

Record sound_extras (x : extras) : Prop := {
  se_web : sound (webSearchCallCount x);
  se_web_price : sound (webSearchPrice x);
  se_file : sound (fileSearchCallCount x);
  se_file_price : sound (fileSearchPrice x);
  se_audio_price : sound (audioInputPrice x);
  se_image_price : sound (imageGenerationCallPrice x);
}.

(** The tokens billed at the input price *)
Definition input_value (b : bill) (i c a : Z) : Q :=
  (if (0 <? c)%Z then inject_Z (i - c) + inject_Z c * value (cacheRatio b) else inject_Z (i - a))%Q.

Lemma nmul_zero y : sound y → nmul (of_Z 0) y = nzero.
Proof.
  intros [_ (m & e & -> & _)]. change (of_Z 0) with nzero. unfold nzero. cbn [nmul xorb].
  rewrite (round_q_proper false _ 0); [reflexivity|].
  assert (mag 0 emin == 0)%Q as -> by reflexivity. ring.
Qed.

Lemma effective_rounds b x i c a :
  tokens_are i (inputTokens b) → tokens_are c (cacheTokens b) → tokens_are a (audioInputTokens x) → c + a ≤ i →
  sound (cacheRatio b) → describable x c a →
  rounds 2 130 (input_value b i c a) (effectiveInputTokens b x).
Proof.
  intros Hi Hc Ha Hle Hr [Himg Hone _ _ _ _]. unfold effectiveInputTokens, input_value.
  rewrite Himg, (tokens_positive a _ Ha). destruct Hi as [-> Hi], Hc as [-> Hc], Ha as [-> Ha].
  destruct (Z.ltb_spec 0 c).
  - assert (a = 0) as -> by lia. cbn [Z.ltb Z.compare]. rewrite nsub_of_Z by lia.
    pose proof (measures_of_Z (i - c) ltac:(lia)). pose proof (measures_of_Z c ltac:(lia)).
    unfold sound, measures in *. eapply rounds_mono; [| |rounding]; cbn; lia.
  - assert (c = 0) as -> by lia. rewrite nmul_zero, nsub_of_Z, Z.sub_0_r by (done || lia).
    change nzero with (of_Z 0). rewrite nadd_of_Z, Z.add_0_r by lia.
    assert (Hv : (if 0 <? a then nsub (of_Z i) (of_Z a) else of_Z i) = of_Z (i - a)).
    { destruct (Z.ltb_spec 0 a); [by apply nsub_of_Z; lia|]. f_equal. lia. }
    rewrite Hv. apply (rounds_mono 0 2 53 130); [lia|lia|]. apply measures_of_Z. lia.
Qed.

Lemma services_value x c a :
  sound_extras x → describable x c a →
  (prices_sum (service_items x) ==
   value (webSearchCallCount x) / 1000 * value (webSearchPrice x)
   + value (fileSearchCallCount x) / 1000 * value (fileSearchPrice x) + value (imageGenerationCallPrice x))%Q.
Proof.
  intros [Hw _ Hf _ _ Hg] [_ _ _ Hfw Hff Hfi]. unfold service_items. rewrite !prices_sum_app.
  assert (Hzero : ∀ flag y, (flag = false → y = nzero) → sound y → flag && positive_tokens y = false → (value y == 0)%Q).
  { intros [] y Hflag Hy Hpos; [by apply hidden_zero|]. by rewrite Hflag. }
  assert (H1 : (prices_sum (when (showWebSearch x) (value (webSearchCallCount x) * 1000, value (webSearchPrice x))) ==
                value (webSearchCallCount x) / 1000 * value (webSearchPrice x))%Q).
  { destruct (showWebSearch x) eqn:E; cbn [when prices_sum foldr fst snd]; [field|]. rewrite (Hzero _ _ Hfw Hw E). field. }
  assert (H2 : (prices_sum (when (showFileSearch x) (value (fileSearchCallCount x) * 1000, value (fileSearchPrice x))) ==
                value (fileSearchCallCount x) / 1000 * value (fileSearchPrice x))%Q).
  { destruct (showFileSearch x) eqn:E; cbn [when prices_sum foldr fst snd]; [field|]. rewrite (Hzero _ _ Hff Hf E). field. }
  assert (H3 : (prices_sum (when (showImageCall x) (1000000, value (imageGenerationCallPrice x))) ==
                value (imageGenerationCallPrice x))%Q).
  { destruct (showImageCall x) eqn:E; cbn [when prices_sum foldr fst snd]; [field|]. rewrite (Hzero _ _ Hfi Hg E). field. }
  rewrite H1, H2, H3. ring.
Qed.

Lemma input_items_value b x i c a :
  0 ≤ c → 0 ≤ a → describable x c a →
  (prices_sum (input_items b x i c a) ==
   input_value b i c a / 1000000 * (2 * value (modelRatio b)) + inject_Z a / 1000000 * value (audioInputPrice x))%Q.
Proof.
  intros Hc Ha [_ Hone Hpriced _ _ _]. unfold input_items, input_value, per_million.
  destruct (Z.ltb_spec 0 c).
  - assert (a = 0) as -> by lia. cbn [prices_sum foldr fst snd]. rewrite (proj2 sound_one). change (inject_Z 0) with 0%Q. field.
  - destruct (Z.ltb_spec 0 a).
    + rewrite Hpriced by lia. cbn [andb prices_sum foldr fst snd]. rewrite (proj2 sound_one). field.
    + rewrite andb_false_r. assert (a = 0) as -> by lia. cbn [prices_sum foldr fst snd]. rewrite (proj2 sound_one).
      rewrite Z.sub_0_r. change (inject_Z 0) with 0%Q. field.
Qed.

(** [price] of the article *)
Lemma model_price_rounds b x i c a :
  tokens_are i (inputTokens b) → tokens_are c (cacheTokens b) → tokens_are a (audioInputTokens x) → c + a ≤ i →
  sound_bill b → sound_extras x → describable x c a →
  rounds 12 500 (value (group_ratio b) * prices_sum (model_items b x i c a)) (model_price b x).
Proof.
  intros Hi Hc Ha Hle Hb Hx Hd.
  pose proof (effective_rounds b x i c a Hi Hc Ha Hle (sb_cache_ratio b Hb) Hd) as He.
  destruct (tokens_sound a _ Ha) as [Hsa Hva]. pose proof sound_two.
  assert (Hsum : (value (group_ratio b) * prices_sum (model_items b x i c a) ==
    input_value b i c a / inject_Z 1000000 * (value (modelRatio b) * (2 # 1)) * value (group_ratio b)
    + value (audioInputTokens x) / inject_Z 1000000 * value (audioInputPrice x) * value (group_ratio b)
    + value (completionTokens b) / inject_Z 1000000
      * (value (modelRatio b) * (2 # 1) * value (completion_ratio b)) * value (group_ratio b)
    + value (webSearchCallCount x) / inject_Z 1000 * value (webSearchPrice x) * value (group_ratio b)
    + value (fileSearchCallCount x) / inject_Z 1000 * value (fileSearchPrice x) * value (group_ratio b)
    + value (imageGenerationCallPrice x) * value (group_ratio b))%Q).
  { unfold model_items. rewrite !prices_sum_app, (services_value x c a), input_items_value, Hva;
      try done; [|by destruct Hc as [_ [? _]]|by destruct Ha as [_ [? _]]].
    cbn [prices_sum foldr fst snd]. unfold per_million.
    change (inject_Z 1000000) with 1000000%Q. change (inject_Z 1000) with 1000%Q. field. }
  rewrite Hsum. destruct Hb, Hx. unfold model_price, call_charge, charge, inputRatioPrice, unit_price, million, thousand.
  unfold sound, measures in *. eapply rounds_mono; [| |rounding]; cbn; lia.
Qed.

(** the article of an entry of another provider ends with a formula and a total.
    Where the description can show what is billed, the total is the sum of the
    terms of the formula times the group ratio, in the currency shown, up to a
    part in 2^47. *)
Theorem model_total_is_formula b x i c a rate s :
  tokens_are i (inputTokens b) → tokens_are c (cacheTokens b) → tokens_are a (audioInputTokens x) → c + a ≤ i →
  sound_bill b → sound_extras x → describable x c a → sound rate →
  per_call (modelPrice b) = false → shouldUseRatioBillingProcess st (modelPrice b) = false →
  rate_num st = Ok rate → to_str (symbol st) = Ok s →
  ∃ lines total,
    renderModelPrice st b x = Ok (renderBillingArticle (lines ++
      [buildBillingText "{{inputDesc}} + {{outputDesc}}{{extraServices}} = {{symbol}}{{total}}"
         ["inputDesc" ↦ VStr (inputDesc st b x rate); "outputDesc" ↦ VStr (outputDesc st b rate);
          "extraServices" ↦ VStr (extraServices st b x rate); "symbol" ↦ symbol st;
          "total" ↦ VStr (toFixed 6 total)]])) ∧
    about (value rate * (value (group_ratio b) * prices_sum (model_items b x i c a))) total.
Proof.
  intros Hi Hc Ha Hle Hb Hx Hd Hr Hpc Hp Hrate Hs.
  pose proof (model_price_rounds b x i c a Hi Hc Ha Hle Hb Hx Hd) as Hprice.
  assert (Habout : about (value rate * (value (group_ratio b) * prices_sum (model_items b x i c a)))
                     (nmul (model_price b x) rate)).
  { rewrite Qmult_comm. unfold sound, measures in *. eapply rounds_about; [| |rounding]; cbn; lia. }
  unfold renderModelPrice. rewrite Hp, Hrate, Hpc. cbn [negb rbind]. unfold model_price_lines. rewrite Hs.
  destruct (audioInputSeperatePrice x); cbn [rbind rmap]; eexists _, _; (split; [|exact Habout]);
    rewrite !app_assoc; reflexivity.
Qed.

(** ** The ratio process *)

Lemma math_max_of_Z z : 0 ≤ z < 2 ^ 53 → math_max (of_Z z) nzero = of_Z z.
Proof.
  intros Hz. destruct (Z.eq_dec z 0) as [->|Hne]; [reflexivity|].
  destruct (measures_of_Z z Hz) as [_ (m & e & -> & Hw)]. unfold within in Hw. cbn [lo hi] in Hw.
  unfold math_max, nzero. cbn [ncompare]. destruct (_ ?= _)%Q eqn:E; [reflexivity| |reflexivity]. exfalso.
  apply (proj2 (Qlt_alt _ _)) in E. unfold to_q in E. assert (Hz0 : (mag 0 emin == 0)%Q) by reflexivity.
  rewrite Hz0 in E. assert (0 <= inject_Z z)%Q by (rewrite <- (Zle_Qle 0); lia). lra.
Qed.

Lemma text_tokens b x i c a :
  tokens_are i (inputTokens b) → tokens_are c (cacheTokens b) → tokens_are a (audioInputTokens x) → c + a ≤ i →
  textInputTokens b x = of_Z (i - c - a).
Proof.
  intros [Ei Hi] [Ec Hc] [Ea Ha] Hle. unfold textInputTokens. rewrite Ei, Ec, Ea, !nsub_of_Z by lia.
  apply math_max_of_Z. lia.
Qed.

Lemma total_rounds b x i c a :
  tokens_are i (inputTokens b) → tokens_are c (cacheTokens b) → tokens_are a (audioInputTokens x) → c + a ≤ i →
  sound_bill b → sound_extras x → sound (imageRatio x) → describable x c a →
  six_digits (completion_ratio b) → six_digits (cacheRatio b) → six_digits (imageRatio x) →
  rounds 14 500 (value (group_ratio b) * prices_sum (model_items b x i c a)) (totalAmount b x).
Proof.
  intros Hi Hc Ha Hle Hb Hx Him Hd H6c H6h H6i.
  destruct (tokens_sound a _ Ha) as [Hsa Hva]. destruct (tokens_sound c _ Hc) as [Hsc Hvc]. pose proof sound_two.
  pose proof sound_zero. pose proof (text_tokens b x i c a Hi Hc Ha Hle) as Htext.
  assert (Ht : measures 53 (inject_Z (i - c - a)) (of_Z (i - c - a))).
  { apply measures_of_Z. destruct Hi, Hc, Ha. lia. }
  assert (Himg : imageInputTokens x = nzero) by (unfold imageInputTokens; by rewrite (no_image _ _ _ Hd)).
  assert (Hsum : (value (group_ratio b) * prices_sum (model_items b x i c a) ==
    inject_Z (i - c - a) / inject_Z 1000000 * (value (modelRatio b) * (2 # 1)) * value (group_ratio b)
    + value (cacheTokens b) / inject_Z 1000000 * (value (modelRatio b) * (2 # 1)) * value (cacheRatio b) * value (group_ratio b)
    + value nzero / inject_Z 1000000 * (value (modelRatio b) * (2 # 1)) * value (imageRatio x) * value (group_ratio b)
    + value (audioInputTokens x) / inject_Z 1000000 * value (audioInputPrice x) * value (group_ratio b)
    + value (completionTokens b) / inject_Z 1000000
      * (value (modelRatio b) * (2 # 1) * value (completion_ratio b)) * value (group_ratio b)
    + value (webSearchCallCount x) / inject_Z 1000 * value (webSearchPrice x) * value (group_ratio b)
    + value (fileSearchCallCount x) / inject_Z 1000 * value (fileSearchPrice x) * value (group_ratio b)
    + value (imageGenerationCallPrice x) * value (group_ratio b))%Q).
  { unfold model_items. rewrite !prices_sum_app, (services_value x c a), input_items_value, Hva, Hvc;
      try done; [|by destruct Hc as [_ [? _]]|by destruct Ha as [_ [? _]]].
    cbn [prices_sum foldr fst snd]. unfold per_million. rewrite value_zero.
    change (inject_Z 1000000) with 1000000%Q. change (inject_Z 1000) with 1000%Q. unfold input_value.
    destruct Hc as [_ Hc], Ha as [_ Ha]. destruct (Z.ltb_spec 0 c);
      [assert (a = 0) as -> by (destruct (one_kind _ _ _ Hd); lia)|assert (c = 0) as -> by lia];
      rewrite ?Z.sub_0_r; change (inject_Z 0) with 0%Q; unfold Z.sub; rewrite ?inject_Z_plus, ?inject_Z_opp; field. }
  rewrite Hsum. destruct Hb, Hx. unfold totalAmount, textInputAmount, cacheInputAmount, imageInputAmount,
    audioInputAmount, completionAmount, webSearchAmount, fileSearchAmount, imageGenerationAmount. cbn [fold_left].
  rewrite Htext, Himg, H6c, H6h, H6i.
  unfold ratio_charge, call_charge, charge, inputRatioPrice, unit_price, million, thousand.
  unfold sound, measures in *. eapply rounds_mono; [| |rounding]; cbn; lia.
Qed.

(** both articles of an entry state the same amount: the total computed from
    prices and the total computed from ratios are, up to a part in 2^47, the same
    exact sum. *)
Theorem processes_agree b x i c a :
  tokens_are i (inputTokens b) → tokens_are c (cacheTokens b) → tokens_are a (audioInputTokens x) → c + a ≤ i →
  sound_bill b → sound_extras x → sound (imageRatio x) → describable x c a →
  six_digits (completion_ratio b) → six_digits (cacheRatio b) → six_digits (imageRatio x) →
  about (value (group_ratio b) * prices_sum (model_items b x i c a)) (model_price b x) ∧
  about (value (group_ratio b) * prices_sum (model_items b x i c a)) (totalAmount b x).
Proof.
  intros Hi Hc Ha Hle Hb Hx Him Hd H6c H6h H6i. split.
  - eapply rounds_about; [| |by apply model_price_rounds]; lia.
  - eapply rounds_about; [| |by apply total_rounds]; lia.
Qed.
End totals.

(** ** Concrete entries *)

Definition sound_b (x : num) : bool :=
  match x with
  | Fin false m e => Qeq_bool (mag m e) 0 ||
      (Qle_bool 1 (mag m e * inject_Z (2 ^ 60)) && Qle_bool (mag m e) (inject_Z (2 ^ 60)))
  | _ => false
  end.

Lemma sound_b_ok x : sound_b x = true → sound x.
Proof.
  destruct x as [| |[] m e]; [done..|]. cbn [sound_b]. intros Hx. split.
  - apply orb_true_iff in Hx as [Hx|Hx]; [left; by apply Qeq_bool_iff|right].
    apply andb_true_iff in Hx as [H1 H2]. split; by apply Qle_bool_iff.
  - exists m, e. split; [done|]. unfold within. cbn [lo hi value]. unfold to_q. lra.
Qed.

(** 1200 tokens of input, 300 of them from the cache, 500 of output *)
Definition sample_bill : bill :=
  {| inputTokens := of_Z 1200; completionTokens := of_Z 500; modelRatio := Number (u "1.25"); modelPrice := None;
     completionRatio := Some (of_Z 4); groupRatio := Number (u "0.8"); user_group_ratio := None;
     cacheTokens := of_Z 300; cacheRatio := Number (u "0.1") |}.

Definition sample_creation : creation :=
  {| cacheCreationTokens := of_Z 200; cacheCreationRatio := Number (u "1.25"); cacheCreationTokens5m := nzero;
     cacheCreationRatio5m := Number (u "1.25"); cacheCreationTokens1h := of_Z 200; cacheCreationRatio1h := of_Z 2 |}.

Definition sample_extras : extras :=
  {| image := false; imageRatio := nzero; imageOutputTokens := nzero; webSearch := true; webSearchCallCount := of_Z 2;
     webSearchPrice := of_Z 10; fileSearch := false; fileSearchCallCount := nzero; fileSearchPrice := nzero;
     audioInputSeperatePrice := false; audioInputTokens := nzero; audioInputPrice := nzero;
     imageGenerationCall := false; imageGenerationCallPrice := nzero |}.

Example claude_article_text :
  renderClaudeModelPrice (H := plain_i18n) ∅ sample_bill sample_creation =
  Ok (map u ["输入价格：$2.500000 / 1M tokens"; "输出价格：$10.000000 / 1M tokens"; "缓存读取价格：$0.250000 / 1M tokens";
             "1h缓存创建价格：$5.000000 / 1M tokens";
             "提示 1200 tokens / 1M tokens * $2.500000 + 缓存 300 tokens / 1M tokens * $0.250000 + 1h缓存创建 200 tokens / 1M tokens * $5.000000 + 补全 500 tokens / 1M tokens * $10.000000 * 分组倍率 0.8 = $0.007260";
             "仅供参考，以实际扣费为准"]%string).
Proof. vm_compute. reflexivity. Qed.

Example model_article_text :
  renderModelPrice (H := plain_i18n) ∅ sample_bill sample_extras =
  Ok (map u ["输入价格：$2.500000 / 1M tokens"; "输出价格：$10.000000 / 1M tokens"; "缓存读取价格：$0.250000 / 1M tokens";
             "Web搜索价格：$10.000000 / 1K 次";
             "(输入 900 tokens / 1M tokens * $2.500000 + 缓存 300 tokens / 1M tokens * $0.250000 + 输出 500 tokens / 1M tokens * $10.000000) * 分组倍率 0.8 + Web搜索 2次 / 1K 次 * $10.000000 * 分组倍率 0.8 = $0.021860";
             "仅供参考，以实际扣费为准"]%string).
Proof. vm_compute. reflexivity. Qed.

Lemma sample_bill_sound : sound_bill (H := plain_i18n) sample_bill.
Proof. split; apply sound_b_ok; vm_compute; reflexivity. Qed.


Lemma sample_extras_sound : sound_extras sample_extras.
Proof. split; apply sound_b_ok; vm_compute; reflexivity. Qed.

Lemma sample_describable : describable sample_extras 300 0.
Proof. split; try done. by right. Qed.


Lemma model_total_is_formula_witness :
  ∃ lines total,
    renderModelPrice (H := plain_i18n) ∅ sample_bill sample_extras = Ok (renderBillingArticle (H := plain_i18n) (lines ++
      [buildBillingText (H := plain_i18n) "{{inputDesc}} + {{outputDesc}}{{extraServices}} = {{symbol}}{{total}}"
         ["inputDesc" ↦ VStr (inputDesc (H := plain_i18n) ∅ sample_bill sample_extras one);
          "outputDesc" ↦ VStr (outputDesc (H := plain_i18n) ∅ sample_bill one);
          "extraServices" ↦ VStr (extraServices (H := plain_i18n) ∅ sample_bill sample_extras one); "symbol" ↦ symbol ∅;
          "total" ↦ VStr (toFixed 6 total)]])) ∧
    about (value one * (value (group_ratio (H := plain_i18n) sample_bill)
                        * prices_sum (model_items sample_bill sample_extras 1200 300 0))) total.
Proof.
  apply (model_total_is_formula (H := plain_i18n) ∅ sample_bill sample_extras 1200 300 0 one (u "$"));
    [by split|by split|by split|lia|apply sample_bill_sound|apply sample_extras_sound|apply sample_describable
    |apply sound_one|reflexivity..].
Defined.

Lemma processes_agree_witness :
  about (value (group_ratio (H := plain_i18n) sample_bill) * prices_sum (model_items sample_bill sample_extras 1200 300 0))
    (model_price (H := plain_i18n) sample_bill sample_extras) ∧
  about (value (group_ratio (H := plain_i18n) sample_bill) * prices_sum (model_items sample_bill sample_extras 1200 300 0))
    (totalAmount (H := plain_i18n) sample_bill sample_extras).
Proof.
  apply (processes_agree (H := plain_i18n) sample_bill sample_extras 1200 300 0);
    [by split|by split|by split|lia|apply sample_bill_sound|apply sample_extras_sound|apply sound_zero
    |apply sample_describable|vm_compute; reflexivity..].
Defined.

Lemma claude_processes_agree_witness :
  claude_price (H := plain_i18n) sample_bill sample_creation formatRatioValue
  = claude_price (H := plain_i18n) sample_bill sample_creation id.
Proof. apply (claude_processes_agree (H := plain_i18n)); vm_compute; reflexivity. Defined.

(** ** Where the articles disagree *)

(** With an image the cache discount is left out of the total, although the article
    states the price of cached tokens: the total is that of any other number of
    cached tokens. *)
Theorem image_drops_cache_discount `{I18n} b x c r :
  showImage x = true →
  model_price {| inputTokens := inputTokens b; completionTokens := completionTokens b; modelRatio := modelRatio b;
                 modelPrice := modelPrice b; completionRatio := completionRatio b; groupRatio := groupRatio b;
                 user_group_ratio := user_group_ratio b; cacheTokens := c; cacheRatio := r |} x
  = model_price b x.
Proof. intros Himg. unfold model_price, effectiveInputTokens. by rewrite Himg. Qed.

(** In the ratio process the tokens of an image are billed as text and as image: a
    thousand of them at ratio one cost twice as much as in the price process. *)
Definition image_bill : bill :=
  {| inputTokens := of_Z 1000; completionTokens := nzero; modelRatio := of_Z 500; modelPrice := None;
     completionRatio := Some one; groupRatio := one; user_group_ratio := None; cacheTokens := nzero; cacheRatio := one |}.
Definition image_extras : extras :=
  {| image := true; imageRatio := one; imageOutputTokens := of_Z 1000; webSearch := false; webSearchCallCount := nzero;
     webSearchPrice := nzero; fileSearch := false; fileSearchCallCount := nzero; fileSearchPrice := nzero;
     audioInputSeperatePrice := false; audioInputTokens := nzero; audioInputPrice := nzero;
     imageGenerationCall := false; imageGenerationCallPrice := nzero |}.

Theorem image_counted_twice `{I18n} :
  model_price image_bill image_extras = one ∧ totalAmount image_bill image_extras = of_Z 2.
Proof. split; vm_compute; reflexivity. Qed.
