(* ===== verification/UsageLogs.v ===== *)
(** * The usage log (hooks/usage-logs/useUsageLogsData.jsx, components/table/usage-logs/index.jsx)

    Loading pages of log entries and their statistics, the details of an entry
    ([setLogsFormat]), which describe its price with the functions of [Billing], the
    pages offered, the figures at the top of the page and the export as CSV. *)

From Stdlib Require Import QArith.
From S2P Require Import Prelude JsString JsNumber JsRounding JsValue Json Browser JsDate Quota Billing.

Local Open Scope Z_scope.

(** ** Fields *)

(** [v?.k] *)
Definition fld (v : val) (k : string) : val := get_opt v (u k).

(** An argument of a price description: a number, as the server writes them *)
Definition num_arg (v : val) : num := match v with VNum x => x | _ => NaN end.
Definition opt_arg (v : val) : option num := match v with VNum x => Some x | _ => None end.

(** [v || d] for an argument *)
Definition arg_or (v : val) (d : num) : num := if truthy v then num_arg v else d.

(** [v > 0] *)
Definition above_zero (v : val) : res bool := rmap (λ x, ngtb x nzero) (to_num v).

Definition type_is (log : val) (n : Z) : bool := strict_eq (fld log "type") (VNum (of_Z n)).

(** helpers/log.js *)
Definition getLogOther (otherStr : val) : val :=
  match otherStr with
  | VUndef | VNull => VObj []
  | VStr s => if nonempty s then match JSON_parse s with Ok v => v | Throw _ => VNull end else VObj []
  | VArr _ | VObj _ => otherStr
  | v => match rmap JSON_parse (to_str v) with Ok (Ok w) => w | _ => VNull end
  end.

(** ** The bill of an entry *)

Definition bill_of (input completion other : val) : bill :=
  {| inputTokens := num_arg input; completionTokens := num_arg completion;
     modelRatio := num_arg (fld other "model_ratio"); modelPrice := opt_arg (fld other "model_price");
     completionRatio := opt_arg (fld other "completion_ratio"); groupRatio := num_arg (fld other "group_ratio");
     user_group_ratio := opt_arg (fld other "user_group_ratio");
     cacheTokens := arg_or (fld other "cache_tokens") nzero; cacheRatio := arg_or (fld other "cache_ratio") one |}.

Definition creation_of (other : val) : creation :=
  let plain := fld other "cache_creation_ratio" in
  {| cacheCreationTokens := arg_or (fld other "cache_creation_tokens") nzero;
     cacheCreationRatio := arg_or plain one;
     cacheCreationTokens5m := arg_or (fld other "cache_creation_tokens_5m") nzero;
     cacheCreationRatio5m := arg_or (v_or (fld other "cache_creation_ratio_5m") plain) one;
     cacheCreationTokens1h := arg_or (fld other "cache_creation_tokens_1h") nzero;
     cacheCreationRatio1h := arg_or (v_or (fld other "cache_creation_ratio_1h") plain) one |}.

Definition extras_of (other : val) : extras :=
  {| image := truthy (fld other "image"); imageRatio := arg_or (fld other "image_ratio") nzero;
     imageOutputTokens := arg_or (fld other "image_output") nzero;
     webSearch := truthy (fld other "web_search");
     webSearchCallCount := arg_or (fld other "web_search_call_count") nzero;
     webSearchPrice := arg_or (fld other "web_search_price") nzero;
     fileSearch := truthy (fld other "file_search");
     fileSearchCallCount := arg_or (fld other "file_search_call_count") nzero;
     fileSearchPrice := arg_or (fld other "file_search_price") nzero;
     audioInputSeperatePrice := truthy (fld other "audio_input_seperate_price");
     audioInputTokens := arg_or (fld other "audio_input_token_count") nzero;
     audioInputPrice := arg_or (fld other "audio_input_price") nzero;
     imageGenerationCall := truthy (fld other "image_generation_call");
     imageGenerationCallPrice := arg_or (fld other "image_generation_call_price") nzero |}.

Definition audio_of (other : val) : audio :=
  {| audioIn := num_arg (fld other "audio_input"); audioCompletionTokens := num_arg (fld other "audio_output");
     audioRatio := num_arg (fld other "audio_ratio"); audioCompletionRatio := num_arg (fld other "audio_completion_ratio") |}.

(** The summary takes no image. *)
Definition summary_extras (other : val) : extras :=
  let x := extras_of other in
  {| image := false; imageRatio := one; imageOutputTokens := imageOutputTokens x; webSearch := webSearch x;
     webSearchCallCount := webSearchCallCount x; webSearchPrice := webSearchPrice x; fileSearch := fileSearch x;
     fileSearchCallCount := fileSearchCallCount x; fileSearchPrice := fileSearchPrice x;
     audioInputSeperatePrice := audioInputSeperatePrice x; audioInputTokens := audioInputTokens x;
     audioInputPrice := audioInputPrice x; imageGenerationCall := imageGenerationCall x;
     imageGenerationCallPrice := imageGenerationCallPrice x |}.

(** [Boolean(other?.violation_fee === true || ...)] *)
Definition isViolationFeeLog (other : val) : bool :=
  is_true (fld other "violation_fee") || truthy (fld other "violation_fee_code")
  || truthy (fld other "violation_fee_marker").

(** ** The details of an entry *)

(** What the page shows for a detail: a value, the paragraphs of a price, or the
    button that opens the dialog of parameter overrides *)
Inductive shown := Plain (v : val) | Article (lines : list jstr) | Overrides (count : Z).

Abbreviation detail := (jstr * shown)%type.
Abbreviation expansion := (list (jstr * list detail)).

Section details.
Context `{Env} `{TimeZone} `{I18n}.
Context (st : storage) (isAdminUser : bool) (billingDisplayMode : jstr).

Definition label (key : string) : jstr := t (u key) None.
Definition row (key : string) (v : val) : detail := (label key, Plain v).
Definition text_row (key : string) (s : res jstr) : res (list detail) := rmap (λ s, [row key (VStr s)]) s.

Definition timestamp2string (timestamp : num) : jstr :=
  let d := date_of (nmul timestamp (of_Z 1000)) in
  field_text getFullYear d ++ u "-" ++ pad2 (field_text month d) ++ u "-" ++ pad2 (field_text getDate d) ++ u " "
  ++ pad2 (field_text getHours d) ++ u ":" ++ pad2 (field_text getMinutes d) ++ u ":" ++ pad2 (field_text getSeconds d).

(** Template literals *)
Definition tmpl (parts : list val) : res jstr := rmap (@concat Z) (rmapM to_str parts).

Definition requestConversionDisplayValue (chain : val) : res jstr :=
  let l := match chain with VArr l => List.filter truthy l | _ => [] end in
  if (length l <=? 1)%nat then Ok (label "原生格式")
  else rmap (join (u " -> ")) (rmapM (λ x, if is_nullish x then Ok [] else to_str x) l).

Definition channel_details (log : val) : res (list detail) :=
  if isAdminUser && (type_is log 0 || type_is log 2 || type_is log 6)
  then text_row "渠道信息"
         (tmpl [fld log "channel"; VStr (u " - "); v_or (fld log "channel_name") (VStr (u "[未知]"))])
  else Ok [].

Definition token_details (log other : val) : res (list detail) :=
  let! cache := above_zero (fld other "cache_tokens") in
  let! creation := above_zero (fld other "cache_creation_tokens") in
  Ok (when (truthy (fld log "request_id")) (row "Request ID" (fld log "request_id"))
      ++ (if truthy (fld other "ws") || truthy (fld other "audio")
          then [row "语音输入" (fld other "audio_input"); row "语音输出" (fld other "audio_output");
                row "文字输入" (fld other "text_input"); row "文字输出" (fld other "text_output")] else [])
      ++ when cache (row "缓存 Tokens" (fld other "cache_tokens"))
      ++ when creation (row "缓存创建 Tokens" (fld other "cache_creation_tokens"))).

(** [other.completion_ratio] is read without [?.]: it throws where [other] is null. *)
Definition log_content (log other : val) : res jstr :=
  let! _ := get other (u "completion_ratio") in
  let b := bill_of (fld log "prompt_tokens") (fld log "completion_tokens") other in
  if truthy (fld other "claude") then renderClaudeLogContent st b (creation_of other) billingDisplayMode
  else renderLogContent st b (summary_extras other) billingDisplayMode.

Definition billing_content (log other : val) : res (list jstr) :=
  if truthy (fld other "ws") || truthy (fld other "audio") then
    renderAudioModelPrice st (bill_of (fld other "text_input") (fld other "text_output") other) (audio_of other)
  else
    let b := bill_of (fld log "prompt_tokens") (fld log "completion_tokens") other in
    if truthy (fld other "claude") then renderClaudeModelPrice st b (creation_of other)
    else renderModelPrice st b (extras_of other).

(** [logs[i].type === 2] *)
Definition consume_details (log other : val) : res (list detail) :=
  if negb (type_is log 2) then Ok [] else
  let! content := log_content log other in
  let! billing := if isViolationFeeLog other then Ok []
                  else rmap (λ a, [(label "计费过程", Article a)]) (billing_content log other) in
  let mapped := truthy (fld other "is_model_mapped") && truthy (fld other "upstream_model_name") in
  Ok ([row "日志详情" (VStr content)]
      ++ when (truthy (fld log "content")) (row "其他详情" (fld log "content"))
      ++ when (isAdminUser && truthy (fld other "reject_reason")) (row "拦截原因" (fld other "reject_reason"))
      ++ (if mapped then [row "请求并计费模型" (fld log "model_name"); row "实际模型" (fld other "upstream_model_name")] else [])
      ++ billing
      ++ when (truthy (fld other "reasoning_effort")) (row "Reasoning Effort" (fld other "reasoning_effort"))).

Definition refund_details (log other : val) : list detail :=
  if type_is log 6
  then when (truthy (fld other "task_id")) (row "任务ID" (fld other "task_id"))
       ++ when (truthy (fld other "reason")) (row "失败原因" (fld other "reason"))
  else [].

Definition stream_details (other : val) : res (list detail) :=
  let ss := fld other "stream_status" in
  if negb (isAdminUser && truthy ss) then Ok [] else
  let statusLabel := if is_text (fld ss "status") (u "ok") then u "✓ " ++ label "正常" else u "✗ " ++ label "异常" in
  let! reason := to_str (v_or (fld ss "end_reason") (VStr (u "unknown"))) in
  let! soft := above_zero (fld ss "error_count") in
  let! softText := if soft : bool
                   then tmpl [VStr (u " [" ++ label "软错误" ++ u ": "); fld ss "error_count"; VStr (u "]")] else Ok [] in
  let! endText := if truthy (fld ss "end_error") then tmpl [VStr (u " - "); fld ss "end_error"] else Ok [] in
  let! errors := match fld ss "errors" with
                 | VArr (e :: l) => rmap (λ s, [row "流错误详情" (VStr s)])
                     (rmap (join [10]) (rmapM (λ x, if is_nullish x then Ok [] else to_str x) (e :: l)))
                 | _ => Ok []
                 end in
  Ok (row "流状态" (VStr (statusLabel ++ u " (" ++ reason ++ u ")" ++ softText ++ endText)) :: errors).

Definition override_details (other : val) : list detail :=
  match fld other "po" with
  | VArr (x :: l) => [(label "参数覆盖", Overrides (Z.of_nat (length (x :: l))))]
  | _ => []
  end.

Definition subscription_details (other : val) : res (list detail) :=
  if negb (is_text (fld other "billing_source") (u "subscription")) then Ok [] else
  let planId := fld other "subscription_plan_id" in
  let subscriptionId := fld other "subscription_id" in
  let unit := VStr (u " " ++ label "额度") in
  let pre := v_coalesce (fld other "subscription_pre_consumed") (VNum nzero) in
  let postDelta := v_coalesce (fld other "subscription_post_delta") (VNum nzero) in
  let! computed := js_add pre postDelta in
  let finalConsumed := v_coalesce (fld other "subscription_consumed") computed in
  let remain := fld other "subscription_remain" in
  let total := fld other "subscription_total" in
  let! plan := if truthy planId
               then text_row "订阅套餐" (rmap trim (tmpl [VStr (u "#"); planId; VStr (u " ");
                                                    v_or (fld other "subscription_plan_title") (VStr [])])) else Ok [] in
  let! instance := if truthy subscriptionId then text_row "订阅实例" (tmpl [VStr (u "#"); subscriptionId]) else Ok [] in
  let! pre_line := tmpl [VStr (label "预扣" ++ u "："); pre; unit] in
  let! gain := above_zero postDelta in
  let! delta_line := tmpl [VStr (label "结算差额" ++ u "：" ++ (if gain : bool then u "+" else [])); postDelta; unit] in
  let! final_line := tmpl [VStr (label "最终抵扣" ++ u "："); finalConsumed; unit] in
  let! rest := if negb (is_undef remain) && negb (is_undef total)
               then text_row "订阅剩余" (tmpl [remain; VStr (u "/"); total; unit]) else Ok [] in
  Ok (plan ++ instance ++ [row "订阅结算" (VStr (join [10] [pre_line; delta_line; final_line]))] ++ rest
      ++ [row "订阅说明" (VStr (label "token 会按倍率换算成“额度/次数”，请求结束后再做差额结算（补扣/返还）。"))]).

Definition admin_details (log other : val) : res (list detail) :=
  if isAdminUser && negb (type_is log 6) then
    let! conversion := text_row "请求转换" (requestConversionDisplayValue (fld other "request_conversion")) in
    let mode := if truthy (fld (fld other "admin_info") "local_count_tokens") then label "本地计费" else label "上游返回" in
    Ok (conversion ++ [row "计费模式" (VStr mode)])
  else Ok [].

(** The body of the loop of [setLogsFormat], [expandDataLocal] at its end *)
Definition log_details (log : val) : res (list detail) :=
  let other := getLogOther (fld log "other") in
  rmap (@concat detail)
    (rmapM id [channel_details log; token_details log other; consume_details log other;
               Ok (refund_details log other);
               Ok (when (truthy (fld other "request_path")) (row "请求路径" (fld other "request_path")));
               stream_details other; Ok (override_details other); subscription_details other;
               admin_details log other]).

(** [logs[i].timestamp2string = ...] and [logs[i].key = logs[i].id] *)
Definition format_log (log : obj) : obj :=
  let log := obj_set log (u "timestamp2string") (VStr (timestamp2string (num_arg (fld (VObj log) "created_at")))) in
  obj_set log (u "key") (fld (VObj log) "id").

(** [expandDatesLocal[key] = rows] *)
Fixpoint expand_set (e : expansion) (k : jstr) (rows : list detail) : expansion :=
  match e with
  | [] => [(k, rows)]
  | (k', r) :: e => if k' =s k then (k, rows) :: e else (k', r) :: expand_set e k rows
  end.
Definition expand_get (e : expansion) (k : jstr) : option (list detail) :=
  snd <$> (snd <$> list_find (λ kv, kv.1 = k) e).

(** One turn of the loop *)
Definition format_step (acc : list obj * expansion) (log : obj) : res (list obj * expansion) :=
  let log := format_log log in
  let! rows := log_details (VObj log) in
  let! key := to_str (fld (VObj log) "key") in
  Ok (acc.1 ++ [log], expand_set acc.2 key rows).

(** [data.items]: the entries of a page, or null *)
Definition setLogsFormat (items : option (list obj)) : res (list obj * expansion) :=
  match items with
  | None => Throw TypeError
  | Some l => rfold format_step ([], []) l
  end.
End details.

(** ** The pages offered (index.jsx) *)

(** A page or the dots *)
Definition totalPages (logCount pageSize : Z) : Z :=
  let size := if pageSize =? 0 then 1 else pageSize in
  Z.max 1 (- ((- logCount) / size)).

Definition renderPageNumbers (totalPages activePage : Z) : list (option Z) :=
  if totalPages <=? 7 then map (λ i, Some (Z.of_nat i + 1)) (seq 0 (Z.to_nat totalPages))
  else if activePage <=? 4 then [Some 1; Some 2; Some 3; Some 4; Some 5; None; Some totalPages]
  else if totalPages - 3 <=? activePage
  then [Some 1; None; Some (totalPages - 4); Some (totalPages - 3); Some (totalPages - 2); Some (totalPages - 1); Some totalPages]
  else [Some 1; None; Some (activePage - 1); Some activePage; Some (activePage + 1); None; Some totalPages].

(** ** The figures at the top *)

Record figures := { totalCost : val; totalRequests : val; totalTokens : val; avgPerRequest : option num }.

Definition page_figures (showStat : bool) (stat : val) : res figures :=
  if showStat && truthy stat then
    let cost := fld stat "quota" in
    let requests := fld stat "rpm" in
    let! avg := if truthy requests
                then let! c := to_num cost in let! r := to_num requests in Ok (Some (ndiv c r)) else Ok None in
    Ok {| totalCost := cost; totalRequests := requests; totalTokens := fld stat "tpm"; avgPerRequest := avg |}
  else Ok {| totalCost := VNull; totalRequests := VNull; totalTokens := VNull; avgPerRequest := None |}.

(** ** The export *)

(** Quotation marks are doubled. *)
Definition double_quotes (s : jstr) : jstr := concat (map (λ c, if c =? 34 then [34; 34] else [c]) s).

(** The cells of a row *)
Definition csv_cell (s : jstr) : jstr :=
  if bool_decide (44 ∈ s) || bool_decide (34 ∈ s) then 34 :: double_quotes s ++ [34] else s.

Definition csv_line (cells : list jstr) : jstr := join [44] (map csv_cell cells).

Definition csv_headers : list jstr :=
  map u ["时间"; "类型"; "用户"; "模型"; "令牌"; "Request ID"; "Tokens(in)"; "Tokens(out)"; "耗时(s)"; "是否流"; "花费"]%string.

Definition TYPE_LABEL (type : val) : jstr :=
  match type with
  | VNum n => match to_integer n with
              | Some 1 => u "充值" | Some 2 => u "消费" | Some 3 => u "管理"
              | Some 4 => u "系统" | Some 5 => u "错误" | Some 6 => u "退款"
              | _ => []
              end
  | _ => []
  end.

(** [String(v ?? '')] *)
Definition cell_text (v : val) : res jstr := if is_nullish v then Ok [] else to_str v.

Definition csv_row (st : storage) (log : val) : res (list jstr) :=
  let or0 k := v_or (fld log k) (VNum nzero) in
  let orempty k := v_or (fld log k) (VStr []) in
  let! cost := renderQuota st (num_arg (fld log "quota")) 6 in
  rmapM cell_text
    [fld log "timestamp2string"; VStr (TYPE_LABEL (fld log "type")); orempty "username"%string; orempty "model_name"%string;
     orempty "token_name"%string; orempty "request_id"%string; or0 "prompt_tokens"%string; or0 "completion_tokens"%string;
     or0 "use_time"%string; VStr (if truthy (fld log "is_stream") then u "流" else u "非流"); cost].

(** The text of the file, without its byte order mark *)
Definition export_csv (st : storage) (logs : list obj) : res jstr :=
  let! rows := rmapM (λ log, csv_row st (VObj log)) logs in
  Ok (join [10] (join [44] csv_headers :: map csv_line rows)).

(** ** The page as a state machine *)

(** A request for a page of entries, with the filters at the time it was sent, or for
    the statistics *)
Record filters := { searchQuery : jstr; dateRange : jstr * jstr; selectedLogType : jstr }.

Inductive call := CLogs (startIdx pageSize : Z) (f : filters) | CStat (f : filters).

Record page_data := { d_items : option (list obj); d_page : Z; d_page_size : Z; d_total : Z }.

(** How a request ends: [data] with success, an error message, or a rejection *)
Inductive reply := LogsReply (d : page_data) | StatReply (stat : val) | Failed | Rejected.

Record logs_page := {
  logs : list obj;
  expandData : expansion;
  showStat : bool;
  loading : bool;
  loadingStat : bool;
  activePage : Z;
  logCount : Z;
  pageSize : Z;
  stat : val;
  p_filters : filters;
  calls : list call;
}.

Definition set_shown (s : logs_page) (l : list obj) (e : expansion) : logs_page :=
  {| logs := l; expandData := e; showStat := showStat s; loading := loading s; loadingStat := loadingStat s;
     activePage := activePage s; logCount := logCount s; pageSize := pageSize s; stat := stat s;
     p_filters := p_filters s; calls := calls s |}.
Definition set_loading (s : logs_page) (b : bool) : logs_page :=
  {| logs := logs s; expandData := expandData s; showStat := showStat s; loading := b; loadingStat := loadingStat s;
     activePage := activePage s; logCount := logCount s; pageSize := pageSize s; stat := stat s;
     p_filters := p_filters s; calls := calls s |}.
Definition set_stat (s : logs_page) (shown busy : bool) (v : val) : logs_page :=
  {| logs := logs s; expandData := expandData s; showStat := shown; loading := loading s; loadingStat := busy;
     activePage := activePage s; logCount := logCount s; pageSize := pageSize s; stat := v;
     p_filters := p_filters s; calls := calls s |}.
Definition set_page (s : logs_page) (page count size : Z) : logs_page :=
  {| logs := logs s; expandData := expandData s; showStat := showStat s; loading := loading s;
     loadingStat := loadingStat s; activePage := page; logCount := count; pageSize := size; stat := stat s;
     p_filters := p_filters s; calls := calls s |}.
Definition set_filters (s : logs_page) (f : filters) : logs_page :=
  {| logs := logs s; expandData := expandData s; showStat := showStat s; loading := loading s;
     loadingStat := loadingStat s; activePage := activePage s; logCount := logCount s; pageSize := pageSize s;
     stat := stat s; p_filters := f; calls := calls s |}.
Definition set_calls (s : logs_page) (c : list call) : logs_page :=
  {| logs := logs s; expandData := expandData s; showStat := showStat s; loading := loading s;
     loadingStat := loadingStat s; activePage := activePage s; logCount := logCount s; pageSize := pageSize s;
     stat := stat s; p_filters := p_filters s; calls := c |}.

Definition send (c : call) (s : logs_page) : logs_page := set_calls s (calls s ++ [c]).

Definition loadLogs (startIdx size : Z) (s : logs_page) : logs_page :=
  send (CLogs startIdx size (p_filters s)) (set_loading s true).

(** [handleEyeClick]; [busy] is [loadingStat] of the render that runs it. *)
Definition handleEyeClick (busy : bool) (s : logs_page) : logs_page :=
  if busy then s else send (CStat (p_filters s)) (set_stat s (showStat s) true (stat s)).

Definition handlePageChange (p : Z) (s : logs_page) : logs_page :=
  loadLogs p (pageSize s) (set_page s p (logCount s) (pageSize s)).

(** [handlePageSizeChange]; [activePage] is that of the render that runs it. *)
Definition handlePageSizeChange (size : Z) (s : logs_page) : logs_page :=
  loadLogs (activePage s) size (set_page s 1 (logCount s) size).

Definition refresh (busy : bool) (s : logs_page) : logs_page :=
  loadLogs 1 (pageSize s) (handleEyeClick busy (set_page s 1 (logCount s) (pageSize s))).

(** The refresh button *)
Definition refresh_click (s : logs_page) : logs_page := handleEyeClick (loadingStat s) (refresh (loadingStat s) s).

(** Setting a filter; the effect on the filters refreshes when one has changed. *)
Definition change_filters (f : filters) (s : logs_page) : logs_page :=
  let s' := set_filters s f in
  if bool_decide (searchQuery f = searchQuery (p_filters s)) && bool_decide (dateRange f = dateRange (p_filters s))
     && bool_decide (selectedLogType f = selectedLogType (p_filters s))
  then s' else refresh (loadingStat s') s'.

(** Opening the page: the effect of the hook loads with the stored page size, then the
    effects of the page ask for statistics and refresh, still with the page size of
    the first render. *)
Definition ITEMS_PER_PAGE : Z := 10.

Definition stored_page_size (st : storage) : Z :=
  match to_integer (parseInt (match getItem st (u "page-size") with VStr s => s | _ => u "null" end)) with
  | Some z => if z =? 0 then ITEMS_PER_PAGE else z
  | None => ITEMS_PER_PAGE
  end.

Definition page0 (f : filters) : logs_page :=
  {| logs := []; expandData := []; showStat := false; loading := false; loadingStat := false; activePage := 1;
     logCount := 0; pageSize := ITEMS_PER_PAGE; stat := VObj [(u "quota", VNum nzero); (u "token", VNum nzero)];
     p_filters := f; calls := [] |}.

Definition open_page (st : storage) (f : filters) : logs_page :=
  let s := loadLogs 1 (stored_page_size st) (page0 f) in
  let s := handleEyeClick false s in
  let s := handleEyeClick false (set_page s 1 (logCount s) (pageSize s)) in
  let s := loadLogs 1 ITEMS_PER_PAGE s in
  set_page s 1 (logCount s) (stored_page_size st).

Section replies.
Context `{Env} `{TimeZone} `{I18n}.
Context (st : storage) (isAdminUser : bool) (billingDisplayMode : jstr).

(** The end of [loadLogs]; what is set before an exception stays set. *)
Definition logs_reply (r : reply) (s : logs_page) : logs_page :=
  match r with
  | LogsReply d =>
    let s := set_page s (d_page d) (d_total d) (d_page_size d) in
    match setLogsFormat st isAdminUser billingDisplayMode (d_items d) with
    | Ok (l, e) => set_loading (set_shown s l e) false
    | Throw _ => s
    end
  | Rejected => s
  | _ => set_loading s false
  end.

(** The end of [getLogStat] and of [handleEyeClick] *)
Definition stat_reply (r : reply) (s : logs_page) : logs_page :=
  match r with
  | StatReply v => set_stat s true false v
  | Rejected => s
  | _ => set_stat s true false (stat s)
  end.

Inductive page_event :=
| PageChange (p : Z)
| FilterChange (f : filters)
| RefreshClick
| ReplyTo (i : nat) (r : reply).

Definition page_step (e : page_event) (s : logs_page) : logs_page :=
  match e with
  | PageChange p => handlePageChange p s
  | FilterChange f => change_filters f s
  | RefreshClick => if loading s then s else refresh_click s
  | ReplyTo i r =>
    match calls s !! i with
    | Some c =>
      let s := set_calls s (delete i (calls s)) in
      match c with CLogs _ _ _ => logs_reply r s | CStat _ => stat_reply r s end
    | None => s
    end
  end.

Definition page_run (es : list page_event) (s : logs_page) : logs_page := fold_left (λ s e, page_step e s) es s.
End replies.

(** ** The export reads back *)

(** A reader of the cells of a line, as spreadsheets read them: [q] inside quotation
    marks, [cell] the cell so far *)
Fixpoint read_cells (q : bool) (cell s : jstr) : list jstr :=
  match s with
  | [] => [cell]
  | c :: r =>
    if q then
      if c =? 34 then
        match r with
        | 34 :: r' => read_cells true (cell ++ [34]) r'
        | _ => read_cells false cell r
        end
      else read_cells true (cell ++ [c]) r
    else if c =? 44 then cell :: read_cells false [] r
    else if c =? 34 then read_cells true cell r
    else read_cells false (cell ++ [c]) r
  end.

Definition read_csv (s : jstr) : list (list jstr) := map (read_cells false []) (split_on 10 s).

Lemma read_quoted cell s rest :
  (∀ r, rest ≠ 34 :: r) →
  read_cells true cell (double_quotes s ++ 34 :: rest) = read_cells false (cell ++ s) rest.
Proof.
  intros Hrest. revert cell. induction s as [|c s IH]; intros cell; cbn [double_quotes map concat].
  - rewrite app_nil_r. cbn. destruct rest as [|c rest]; [done|].
    destruct (decide (c = 34)) as [->|Hc]; [by destruct (Hrest rest)|].
    destruct c as [|p|p]; try done. do 6 (destruct p; try done).
  - fold (double_quotes s). destruct (Z.eqb_spec c 34) as [->|Hc]; cbn [app read_cells].
    + cbn [Z.eqb Pos.eqb]. rewrite IH, <- app_assoc. done.
    + rewrite (proj2 (Z.eqb_neq c 34)) by done. rewrite IH, <- app_assoc. done.
Qed.

Lemma read_plain cell s rest :
  44 ∉ s → 34 ∉ s → read_cells false cell (s ++ rest) = read_cells false (cell ++ s) rest.
Proof.
  revert cell. induction s as [|c s IH]; intros cell H1 H2; [by rewrite app_nil_r|].
  apply not_elem_of_cons in H1 as [H1 H1'], H2 as [H2 H2']. cbn [app read_cells].
  rewrite (proj2 (Z.eqb_neq c 44)), (proj2 (Z.eqb_neq c 34)) by done. rewrite IH by done. by rewrite <- app_assoc.
Qed.

Lemma read_cell s rest :
  (∀ r, rest ≠ 34 :: r) → read_cells false [] (csv_cell s ++ rest) = read_cells false s rest.
Proof.
  intros Hrest. unfold csv_cell. destruct (bool_decide (44 ∈ s) || bool_decide (34 ∈ s)) eqn:E.
  - cbn [app read_cells Z.eqb Pos.eqb]. rewrite <- app_assoc. cbn [app]. by rewrite read_quoted.
  - apply orb_false_iff in E as [E1 E2]. apply bool_decide_eq_false in E1, E2. by rewrite read_plain.
Qed.

Lemma read_line cells : cells ≠ [] → read_cells false [] (csv_line cells) = cells.
Proof.
  unfold csv_line. induction cells as [|c cells IH]; [done|]. intros _. destruct cells as [|d cells].
  - cbn [map join]. rewrite <- (app_nil_r (csv_cell c)). by rewrite read_cell.
  - change (map csv_cell (c :: d :: cells)) with (csv_cell c :: csv_cell d :: map csv_cell cells).
    change (join [44] (csv_cell c :: csv_cell d :: map csv_cell cells))
      with (csv_cell c ++ 44 :: join [44] (map csv_cell (d :: cells))).
    rewrite read_cell by done. cbn [read_cells Z.eqb Pos.eqb]. f_equal. by apply IH.
Qed.

(** Lines of a text whose lines have no line feed *)
Lemma split_lines l ls :
  Forall (λ s, 10 ∉ s) (l :: ls) → split_on 10 (join [10] (l :: ls)) = l :: ls.
Proof.
  revert l. induction ls as [|l' ls IH]; intros l Hl.
  - apply list.Forall_cons in Hl as [Hl _]. by apply split_on_free.
  - apply list.Forall_cons in Hl as [Hl Hls].
    change (join [10] (l :: l' :: ls)) with (l ++ 10 :: join [10] (l' :: ls)).
    rewrite split_on_app by done. f_equal. by apply IH.
Qed.

Lemma double_quotes_elem c s : c ∈ double_quotes s → c ∈ s.
Proof.
  induction s as [|d s IH]; [done|]. unfold double_quotes. cbn [map concat]. fold (double_quotes s).
  rewrite elem_of_app, elem_of_cons. intros [Hc|Hc]; [|by right; apply IH]. left.
  destruct (Z.eqb_spec d 34) as [->|]; rewrite !elem_of_cons in Hc; set_solver.
Qed.

Lemma csv_line_no_feed cells : Forall (λ s, 10 ∉ s) cells → 10 ∉ csv_line cells.
Proof.
  intros Hc. unfold csv_line. induction Hc as [|c cells Hc Hcs IH]; [by apply not_elem_of_nil|].
  assert (Hcell : 10 ∉ csv_cell c).
  { unfold csv_cell. destruct (_ || _); [|done]. rewrite elem_of_cons, elem_of_app, elem_of_cons.
    intros [?|[?%double_quotes_elem|[?|?%elem_of_nil]]]; done. }
  destruct cells as [|d cells]; [done|].
  change (join [44] (map csv_cell (c :: d :: cells))) with (csv_cell c ++ 44 :: join [44] (map csv_cell (d :: cells))).
  rewrite elem_of_app, elem_of_cons. intros [?|[?|?]]; done.
Qed.

(** C33: a spreadsheet reads the exported file back as the heading and one row per entry
    of the page, each with the texts of its eleven cells, whatever commas and
    quotation marks they contain, as long as no text has a line feed. *)
Theorem export_reads_back st logs rows :
  rmapM (λ log, csv_row st (VObj log)) logs = Ok rows → Forall (Forall (λ s, 10 ∉ s)) rows →
  ∃ text, export_csv st logs = Ok text ∧ read_csv text = csv_headers :: rows.
Proof.
  intros Hrows Hfeed. eexists. split; [unfold export_csv; rewrite Hrows; reflexivity|].
  unfold read_csv. rewrite split_lines.
  - cbn [map]. rewrite map_map.
    replace (read_cells false [] (join [44] csv_headers)) with csv_headers by (vm_compute; reflexivity). f_equal.
    assert (Hlen : Forall (λ cells, cells ≠ []) rows).
    { clear Hfeed. revert rows Hrows. induction logs as [|log logs IH]; intros rows Hrows; cbn [rmapM] in Hrows.
      - by apply Ok_inj in Hrows as <-.
      - destruct (csv_row st (VObj log)) as [cells|] eqn:E; [|done]. cbn [rbind] in Hrows.
        destruct (rmapM _ logs) as [rest|] eqn:E'; [|done]. cbn [rbind] in Hrows. apply Ok_inj in Hrows as <-.
        apply list.Forall_cons. split; [|by apply IH]. intros ->. unfold csv_row in E.
        destruct (renderQuota _ _ _); [|done]. cbn [rbind] in E. apply rmapM_length in E. done. }
    clear Hrows Hfeed. induction Hlen as [|cells rows Hc _ IH]; [done|]. cbn [map]. by rewrite read_line, IH.
  - apply list.Forall_cons. split; [by apply (bool_decide_unpack _)|]. apply Forall_map_2.
    eapply list.Forall_impl; [exact Hfeed|]. intros cells. apply csv_line_no_feed.
Qed.

(** ** The pages offered *)

(** the pager offers at most seven places; the pages among them are in rising order
    and exist, and the first, the last, the current page and its neighbours are
    there. *)
Theorem pages_offered total active :
  1 ≤ active ≤ total →
  let pages := omap id (renderPageNumbers total active) in
  (length (renderPageNumbers total active) ≤ 7)%nat ∧
  StronglySorted Z.lt pages ∧ Forall (λ p, 1 ≤ p ≤ total) pages ∧
  Forall (λ p, p ∈ pages) [1; Z.max 1 (active - 1); active; Z.min total (active + 1); total].
Proof.
  intros Ha. unfold renderPageNumbers. destruct (Z.leb_spec total 7).
  - assert (Hpages : omap id (map (λ i, Some (Z.of_nat i + 1)) (seq 0 (Z.to_nat total)))
                     = map (λ i, Z.of_nat i + 1) (seq 0 (Z.to_nat total))).
    { generalize (seq 0 (Z.to_nat total)). intros l. induction l as [|i l IH]; [done|]. cbn. by rewrite <- IH. }
    cbn zeta. rewrite Hpages, length_map, length_seq.
    assert (Hin : ∀ p, p ∈ map (λ i, Z.of_nat i + 1) (seq 0 (Z.to_nat total)) ↔ 1 ≤ p ≤ total).
    { intros p. rewrite list_elem_of_fmap. setoid_rewrite elem_of_seq. split.
      - intros (i & -> & Hi). lia.
      - intros Hp. exists (Z.to_nat (p - 1)). lia. }
    split_and!; [lia| | |].
    + clear. generalize 0%nat. induction (Z.to_nat total) as [|n IH]; intros k; [constructor|]. cbn [seq map].
      constructor; [apply IH|]. apply list.Forall_forall. intros p (i & -> & Hi%elem_of_seq)%list_elem_of_fmap. lia.
    + apply list.Forall_forall. intros p. apply Hin.
    + repeat apply Forall_cons_2; try apply Forall_nil_2; apply Hin; lia.
  - assert (Hin : ∀ l : list Z, Forall (λ p, p ∈ l) l) by (intros l; by apply list.Forall_forall).
    destruct (Z.leb_spec active 4); [|destruct (Z.leb_spec (total - 3) active)];
      cbn [omap list_omap id]; (split; [cbn; lia|]); (split; [repeat constructor; lia|]);
      (split; [repeat constructor; lia|]);
      repeat apply Forall_cons_2; try apply Forall_nil_2; rewrite !elem_of_cons; lia.
Qed.

(** ** A page shows the entries of the answer *)

Section page.
Context `{Env} `{TimeZone} `{I18n}.
Context (st : storage) (isAdminUser : bool) (mode : jstr).

Definition log_key (log : obj) : res jstr := to_str (fld (VObj (format_log log)) "key").
Definition details_of (log : obj) : res (list detail) := log_details st isAdminUser mode (VObj (format_log log)).

Lemma expand_get_set e k rows k' :
  expand_get (expand_set e k rows) k' = if decide (k = k') then Some rows else expand_get e k'.
Proof.
  unfold expand_get. induction e as [|[k1 r1] e IH]; cbn [expand_set list_find fst].
  - destruct (decide (k = k')); done.
  - destruct (k1 =s k) eqn:E.
    + apply bool_decide_eq_true in E as ->. cbn [list_find fst]. destruct (decide (k = k')); done.
    + apply bool_decide_eq_false in E. cbn [list_find fst]. destruct (decide (k1 = k')) as [->|Hne].
      * rewrite decide_False by congruence. done.
      * destruct (list_find _ (expand_set e k rows)) as [[]|], (list_find _ e) as [[]|]; cbn in *; done.
Qed.

Lemma format_loop items acc l e :
  rfold (format_step st isAdminUser mode) acc items = Ok (l, e) →
  l = acc.1 ++ map format_log items ∧
  ∃ ks rs, rmapM log_key items = Ok ks ∧ rmapM details_of items = Ok rs ∧
    (NoDup ks → ∀ i k rows, ks !! i = Some k → rs !! i = Some rows → expand_get e k = Some rows) ∧
    (∀ k, k ∉ ks → expand_get e k = expand_get acc.2 k).
Proof.
  revert acc. induction items as [|log items IH]; intros acc Hf; cbn [rfold rmapM map] in *.
  - apply Ok_inj in Hf as ->. cbn. rewrite app_nil_r. split; [done|]. by exists [], [].
  - unfold format_step in Hf at 1. fold (details_of log) in Hf. change (to_str (fld (VObj (format_log log)) "key")) with (log_key log) in Hf.
    destruct (details_of log) as [rows|] eqn:Ed; [|done]. cbn [rbind] in Hf.
    destruct (log_key log) as [key|] eqn:Ek; [|done]. cbn [rbind] in Hf.
    apply IH in Hf as [-> (ks & rs & -> & -> & Hget & Hother)]. cbn [fst snd rbind] in *. split; [by rewrite <- app_assoc|].
    exists (key :: ks), (rows :: rs). split; [done|]. split; [done|]. split.
    + intros Hnd [|i] k r Hk Hr; apply NoDup_cons in Hnd as [Hk0 Hnd]; cbn in Hk, Hr.
      * simplify_eq. rewrite Hother, expand_get_set by done. by rewrite decide_True.
      * by apply (Hget Hnd i).
    + intros k Hk. apply not_elem_of_cons in Hk as [Hk Hks]. rewrite Hother, expand_get_set by done.
      by rewrite decide_False.
Qed.

(** C12: when the answer to a request for a page arrives and its entries can be shown,
    the page lists exactly these entries, in order, with the page, the size and
    the count of the answer, is no longer loading, and offers for every entry its
    own details. *)
Theorem page_shows_reply s i j size f d items l e :
  calls s !! i = Some (CLogs j size f) → d_items d = Some items →
  setLogsFormat st isAdminUser mode (Some items) = Ok (l, e) →
  (∀ ks, rmapM log_key items = Ok ks → NoDup ks) →
  let s' := page_step st isAdminUser mode (ReplyTo i (LogsReply d)) s in
  logs s' = map format_log items ∧ loading s' = false ∧
  activePage s' = d_page d ∧ pageSize s' = d_page_size d ∧ logCount s' = d_total d ∧
  ∀ n log, items !! n = Some log →
    ∃ k rows, log_key log = Ok k ∧ details_of log = Ok rows ∧ expand_get (expandData s') k = Some rows.
Proof.
  intros Hi Hd Hf Hnd. cbn [page_step]. rewrite Hi. cbn [logs_reply]. rewrite Hd, Hf. cbn.
  destruct (format_loop _ _ _ _ Hf) as [-> (ks & rs & Hks & Hrs & Hget & _)]. split_and!; try done.
  intros n log Hn. pose proof (rmapM_Forall2 _ (λ x y, log_key x = Ok y) _ _ (λ x y Hxy, Hxy) Hks) as Fk.
  pose proof (rmapM_Forall2 _ (λ x y, details_of x = Ok y) _ _ (λ x y Hxy, Hxy) Hrs) as Fr.
  destruct (Forall2_lookup_l _ _ _ _ _ Fk Hn) as (k & Hk & Ek). destruct (Forall2_lookup_l _ _ _ _ _ Fr Hn) as (rows & Hr & Er).
  exists k, rows. split; [done|]. split; [done|]. by apply (Hget (Hnd ks Hks) n).
Qed.
End page.

(** ** What users who are not administrators see *)

Definition secret_log : list jstr := map u ["channel"; "channel_name"; "other"]%string.
Definition secret_other : list jstr :=
  map u ["stream_status"; "reject_reason"; "admin_info"; "request_conversion"]%string.

(** The objects agree except on the fields [secret]. *)
Definition same_but (secret : list jstr) (v v' : val) : Prop := ∀ k, k ∉ secret → get v k = get v' k.

Lemma same_fld secret v v' k : same_but secret v v' → bool_decide (u k ∉ secret) = true → fld v k = fld v' k.
Proof. intros Hv Hk%bool_decide_eq_true. unfold fld, get_opt. by rewrite (Hv _ Hk). Qed.

(** The rows of the expansion of an entry that a user who is not an administrator sees do not
    depend on the channel of the entry, nor on its stream status, reject reason, request
    conversion or administrative information.  (The row of a failed request itself shows the
    reject reason to everyone when the entry has no text.) *)
Theorem admin_fields_hidden `{Env} `{TimeZone} `{I18n} st mode log log' :
  same_but secret_log log log' →
  same_but secret_other (getLogOther (fld log "other")) (getLogOther (fld log' "other")) →
  log_details st false mode log = log_details st false mode log'.
Proof.
  intros Hlog Hother. unfold log_details. set (o := getLogOther (fld log "other")) in *.
  set (o' := getLogOther (fld log' "other")) in *. clearbody o o'.
  pose proof (λ k, same_fld secret_log log log' k Hlog) as Hl.
  pose proof (λ k, same_fld secret_other o o' k Hother) as Ho.
  assert (Hb : ∀ v w, bill_of v w o = bill_of v w o')
    by (intros v w; unfold bill_of; rewrite !Ho by reflexivity; reflexivity).
  assert (Hc : creation_of o = creation_of o') by (unfold creation_of; rewrite !Ho by reflexivity; reflexivity).
  assert (Hx : extras_of o = extras_of o') by (unfold extras_of; rewrite !Ho by reflexivity; reflexivity).
  assert (Ha : audio_of o = audio_of o') by (unfold audio_of; rewrite !Ho by reflexivity; reflexivity).
  assert (Hratio : get o (u "completion_ratio") = get o' (u "completion_ratio"))
    by (apply Hother; apply (bool_decide_eq_true (_ ∉ secret_other)); reflexivity).
  assert (Hconsume : consume_details st false mode log o = consume_details st false mode log' o').
  { unfold consume_details, log_content, billing_content, summary_extras, type_is, isViolationFeeLog.
    rewrite Hc, Hx, Ha, Hratio. cbn [andb when]. rewrite !Hl, !Ho, !Hb by reflexivity. reflexivity. }
  assert (Htoken : token_details log o = token_details log' o').
  { unfold token_details. rewrite !Hl, !Ho by reflexivity. reflexivity. }
  assert (Hsub : subscription_details o = subscription_details o').
  { unfold subscription_details. rewrite !Ho by reflexivity. reflexivity. }
  assert (Hrest : refund_details log o = refund_details log' o' ∧ override_details o = override_details o').
  { unfold refund_details, override_details, type_is. rewrite !Hl, !Ho by reflexivity. by split. }
  destruct Hrest as [-> ->]. rewrite Hconsume, Htoken, Hsub, !Ho by reflexivity. reflexivity.
Qed.

(** ** Behaviour of note *)

(** An entry whose [other] is not JSON throws, and with it the page is not shown:
    [getLogOther] returns null for it, and the details read a property of null. *)
Theorem malformed_other_throws `{Env} `{TimeZone} `{I18n} st admin mode log s :
  type_is log 2 = true → fld log "other" = VStr s → s ≠ [] → JSON_parse s = Throw SyntaxError →
  consume_details st admin mode log (getLogOther (fld log "other")) = Throw TypeError.
Proof.
  intros Ht Ho Hs Hj. rewrite Ho. unfold getLogOther. rewrite Hj. unfold nonempty.
  rewrite bool_decide_eq_false_2 by done. cbn [negb]. unfold consume_details. by rewrite Ht.
Qed.

(** Once a request for the statistics has been rejected, and no other is under way, the
    page never asks for them again. *)
Definition no_stat (s : logs_page) : Prop := Forall (λ c, match c with CStat _ => False | _ => True end) (calls s).

Theorem statistics_stuck `{Env} `{TimeZone} `{I18n} st admin mode es s :
  loadingStat s = true → no_stat s →
  let s' := page_run st admin mode es s in loadingStat s' = true ∧ no_stat s'.
Proof.
  intros Hb Hn. cbn zeta. unfold page_run. revert s Hb Hn. induction es as [|e es IH]; intros s Hb Hn; [done|].
  cbn [fold_left]. apply IH; clear IH.
  - destruct e as [p|f| |i r]; cbn [page_step]; try done.
    + unfold change_filters. destruct (_ && _); [done|]. unfold refresh. cbn. by rewrite Hb.
    + destruct (loading s); [done|]. unfold refresh_click, refresh. rewrite Hb. done.
    + destruct (calls s !! i) as [[]|] eqn:E; [| |done].
      * destruct r; cbn; try done. by destruct (setLogsFormat _ _ _ _) as [[]|].
      * exfalso. apply (list.Forall_lookup_1 _ _ _ _ Hn E).
  - unfold no_stat in *. destruct e as [p|f| |i r]; cbn [page_step].
    + cbn. apply Forall_app. by repeat constructor.
    + unfold change_filters. destruct (_ && _); [done|]. unfold refresh. cbn. rewrite Hb. cbn.
      apply Forall_app. by repeat constructor.
    + destruct (loading s); [done|]. unfold refresh_click, refresh. rewrite Hb. cbn.
      apply Forall_app. by repeat constructor.
    + destruct (calls s !! i) as [[]|] eqn:E; [| |done].
      * assert (Hd : Forall (λ c, match c with CStat _ => False | _ => True end) (delete i (calls s))).
        { by apply Forall_delete. }
        destruct r; cbn; try done. by destruct (setLogsFormat _ _ _ _) as [[]|].
      * exfalso. apply (list.Forall_lookup_1 _ _ _ _ Hn E).
Qed.

(** The refresh button asks for the statistics twice, as does opening the page. *)
Theorem refresh_asks_twice s :
  loadingStat s = false →
  calls (refresh_click s) = calls s ++ [CStat (p_filters s); CLogs 1 (pageSize s) (p_filters s); CStat (p_filters s)].
Proof. intros Hb. unfold refresh_click, refresh. rewrite Hb. cbn. by rewrite <- !app_assoc. Qed.

(** The page size the user has chosen is lost on opening the page: a second request
    asks for ten entries, and its answer sets the page size. *)
Theorem page_size_lost `{Env} `{TimeZone} `{I18n} st admin mode f d :
  d_items d = Some [] → d_page_size d = 10 →
  let s := open_page st f in
  calls s !! 3%nat = Some (CLogs 1 10 f) ∧ pageSize s = stored_page_size st ∧
  pageSize (page_step st admin mode (ReplyTo 3 (LogsReply d)) s) = 10.
Proof.
  intros Hi Hd s. split; [reflexivity|]. split; [reflexivity|]. unfold page_step.
  replace (calls s !! 3%nat) with (Some (CLogs 1 10 f)) by reflexivity. unfold logs_reply. rewrite Hi. exact Hd.
Qed.

(** A new page size sets the first page and asks for the page that was shown before. *)
Theorem page_size_keeps_page size s :
  activePage (handlePageSizeChange size s) = 1 ∧
  last (calls (handlePageSizeChange size s)) = Some (CLogs (activePage s) size (p_filters s)).
Proof. split; [done|]. cbn. apply last_snoc. Qed.

(** A cache ratio of zero is described as a ratio of one: cached tokens that are free
    are shown at the full price. *)
Theorem free_cache_shown_full input completion o :
  fld o "cache_ratio" = VNum nzero → cacheRatio (bill_of input completion o) = one.
Proof. intros Ho. cbn. by rewrite Ho. Qed.

(** ** Concrete entries *)

Definition sample_log : obj :=
  [(u "id", VNum (of_Z 7)); (u "type", VNum (of_Z 2)); (u "created_at", VNum (of_Z 1750000000));
   (u "model_name", VStr (u "claude-sonnet")); (u "token_name", VStr (u "key, main"));
   (u "prompt_tokens", VNum (of_Z 1200)); (u "completion_tokens", VNum (of_Z 500)); (u "quota", VNum (of_Z 5000));
   (u "channel", VNum (of_Z 3));
   (u "other", VStr (uq "{'claude':true,'model_ratio':1.25,'model_price':-1,'completion_ratio':4,'group_ratio':0.8,'admin_info':{'x':1}}"))].

(** The same entry of another channel *)
Definition other_channel_log : obj :=
  map (λ kv, if kv.1 =s u "channel" then (kv.1, VNum (of_Z 4))
             else if kv.1 =s u "other"
             then (kv.1, VStr (uq "{'claude':true,'model_ratio':1.25,'model_price':-1,'completion_ratio':4,'group_ratio':0.8}"))
             else kv) sample_log.

Definition sample_filters : filters :=
  {| searchQuery := []; dateRange := (u "2025-06-15 00:00:00", u "2025-06-16 00:00:00"); selectedLogType := u "0" |}.
Definition sample_data : page_data :=
  {| d_items := Some [sample_log]; d_page := 1; d_page_size := 10; d_total := 1 |}.

Section samples.
#[local] Existing Instances plain_env utc plain_i18n.

Example sample_details :
  details_of ∅ false PRICE sample_log =
  Ok [(u "日志详情", Plain (VStr (u "输入价格 $2.500000 / 1M tokens，输出价格 $10.000000 / 1M tokens，缓存读取价格 $2.500000 / 1M tokens，缓存创建价格 $2.500000 / 1M tokens，分组倍率 0.8x")));
      (u "计费过程", Article (map u ["输入价格：$2.500000 / 1M tokens"; "输出价格：$10.000000 / 1M tokens";
         "提示 1200 tokens / 1M tokens * $2.500000 + 补全 500 tokens / 1M tokens * $10.000000 * 分组倍率 0.8 = $0.006400";
         "仅供参考，以实际扣费为准"]%string))].
Proof. vm_compute. reflexivity. Qed.

Lemma obj_get_filter (secret : list jstr) (o : obj) k :
  k ∉ secret → obj_get (List.filter (λ kv, bool_decide (kv.1 ∉ secret)) o) k = obj_get o k.
Proof.
  intros Hk. induction o as [|[k' v] o IH]; [done|]. cbn [List.filter fst obj_get].
  destruct (bool_decide (k' ∉ secret)) eqn:E; cbn [obj_get]; [by rewrite IH|].
  apply bool_decide_eq_false in E. rewrite IH, bool_decide_eq_false_2; [done|]. intros ->. by apply E.
Qed.

Lemma same_but_filter (secret : list jstr) o o' :
  List.filter (λ kv, bool_decide (kv.1 ∉ secret)) o = List.filter (λ kv, bool_decide (kv.1 ∉ secret)) o' →
  same_but secret (VObj o) (VObj o').
Proof.
  intros Heq k Hk. cbn [get]. by rewrite <- (obj_get_filter secret o), Heq, obj_get_filter.
Qed.

Definition other_fields : obj :=
  [(u "claude", VBool true); (u "model_ratio", VNum (Number (u "1.25"))); (u "model_price", VNum (of_Z (-1)));
   (u "completion_ratio", VNum (of_Z 4)); (u "group_ratio", VNum (Number (u "0.8")))].

Lemma sample_other :
  getLogOther (fld (VObj sample_log) "other") = VObj (other_fields ++ [(u "admin_info", VObj [(u "x", VNum one)])]) ∧
  getLogOther (fld (VObj other_channel_log) "other") = VObj other_fields.
Proof. split; vm_compute; reflexivity. Qed.

Lemma admin_fields_hidden_witness :
  log_details ∅ false PRICE (VObj sample_log) = log_details ∅ false PRICE (VObj other_channel_log).
Proof.
  apply (admin_fields_hidden ∅ PRICE (VObj sample_log) (VObj other_channel_log)).
  - apply (same_but_filter secret_log sample_log other_channel_log). vm_compute. reflexivity.
  - rewrite (proj1 sample_other), (proj2 sample_other). apply same_but_filter. vm_compute. reflexivity.
Defined.

Lemma export_reads_back_witness :
  ∃ rows text, rmapM (λ log, csv_row usd_settings (VObj log)) [format_log sample_log] = Ok rows ∧
    export_csv usd_settings [format_log sample_log] = Ok text ∧ read_csv text = csv_headers :: rows.
Proof.
  eexists. destruct (export_reads_back usd_settings [format_log sample_log]
    [map u ["2025-06-15 15:06:40"; "消费"; ""; "claude-sonnet"; "key, main"; ""; "1200"; "500"; "0"; "非流"; "$0.010000"]%string])
    as (text & Ht & Hr).
  - vm_compute. reflexivity.
  - apply Forall_cons_2; [|apply Forall_nil_2]. apply (bool_decide_unpack _). vm_compute. exact I.
  - exists text. split; [|split; [exact Ht|exact Hr]]. vm_compute. reflexivity.
Defined.

Lemma pages_offered_witness :
  let pages := omap id (renderPageNumbers 20 9) in
  pages = [1; 8; 9; 10; 20] ∧ StronglySorted Z.lt pages.
Proof.
  split; [reflexivity|]. apply (pages_offered 20 9). lia.
Defined.

Lemma page_shows_reply_witness :
  let s := page_step ∅ false PRICE (ReplyTo 0 (LogsReply sample_data)) (loadLogs 1 10 (page0 sample_filters)) in
  logs s = [format_log sample_log] ∧ loading s = false.
Proof.
  destruct (setLogsFormat ∅ false PRICE (Some [sample_log])) as [[l e]|] eqn:E; [|vm_compute in E; discriminate E].
  destruct (page_shows_reply ∅ false PRICE (loadLogs 1 10 (page0 sample_filters)) 0 1 10 sample_filters sample_data
              [sample_log] l e) as (H1 & H2 & _); [reflexivity|reflexivity|exact E| |exact (conj H1 H2)].
  intros ks Hks. vm_compute in Hks. apply Ok_inj in Hks as <-. apply NoDup_singleton.
Defined.
End samples.
