(* ===== verification/Channel.v ===== *)
(** * The channel dialog (components/table/channels/modals/EditChannelModal.jsx)

    [loadChannel] turns the stored channel into the fields of the form, [submit]
    checks the form and turns it into the request that stores it.  Both work on the
    fields of an object of the language; the settings of a channel are JSON texts
    inside it.  The answers to the two dialogs that [submit] may open are arguments.
    The form is a component of a library: what it answers to [getValues] is a part of
    the state, how it takes values is the interface [FormApi]. *)

From S2P Require Import Prelude JsString JsNumber JsValue Json Browser ParamOverride StatusCodeRisk.

Local Open Scope Z_scope.

(** ** Values of the language *)

Definition fget (o : obj) (k : string) : val := oget o (u k).
Definition fset (o : obj) (k : string) (v : val) : obj := obj_set o (u k) v.
Definition fdel (o : obj) (k : string) : obj := obj_del o (u k).
Definition txt (s : string) : val := VStr (u s).
Definition vnum (z : Z) : val := VNum (of_Z z).
Definition v_false : val := VBool false.

(** [v.trim()] and [v.split(',')]: only texts have these methods. *)
Definition trim_of (v : val) : res jstr := match v with VStr s => Ok (trim s) | _ => Throw TypeError end.
Definition split_comma (v : val) : res (list jstr) := match v with VStr s => Ok (split_on 44 s) | _ => Throw TypeError end.

Definition is_type (o : obj) (n : Z) : bool := strict_eq (fget o "type") (vnum n).
Definition v_true (v : val) : val := VBool (is_true v).

(** [l.join(',')] *)
Definition join_comma (l : list val) : res jstr :=
  rmap (join [44]) (rmapM (λ x, if is_nullish x then Ok [] else to_str x) l).

(** [(model || '').trim()] of every model, blank ones dropped *)
Definition normalize_models (l : list val) : res (list jstr) :=
  rmap (List.filter nonempty) (rmapM (λ m, trim_of (v_or m (VStr []))) l).

(** ** Opening a channel *)

Definition parse_text (v : val) : res val := let! s := to_str v in JSON_parse s.

Definition or_false (v : val) : val := v_or v v_false.
Definition or_empty (v : val) : val := v_or v (VStr []).

(** The six extra settings, of a parsed object or of none *)
Definition read_setting (p : val) (data : obj) : res obj :=
  let! force := get p (u "force_format") in
  let! thinking := get p (u "thinking_to_content") in
  let! proxy := get p (u "proxy") in
  let! pass := get p (u "pass_through_body_enabled") in
  let! prompt := get p (u "system_prompt") in
  let! override := get p (u "system_prompt_override") in
  Ok (fset (fset (fset (fset (fset (fset data "force_format" (or_false force)) "thinking_to_content" (or_false thinking))
        "proxy" (or_empty proxy)) "pass_through_body_enabled" (or_false pass)) "system_prompt" (or_empty prompt))
        "system_prompt_override" (or_false override)).

Definition no_setting (data : obj) : obj :=
  fset (fset (fset (fset (fset (fset data "force_format" v_false) "thinking_to_content" v_false)
    "proxy" (VStr [])) "pass_through_body_enabled" v_false) "system_prompt" (VStr [])) "system_prompt_override" v_false.

(** A parse error, or a read of a property of null, leaves the defaults; what was
    assigned before the error is overwritten by them. *)
Definition load_setting (data : obj) : obj :=
  if truthy (fget data "setting") then
    match (let! p := parse_text (fget data "setting") in read_setting p data) with
    | Ok d => d
    | Throw _ => no_setting data
    end
  else no_setting data.

Definition list_of (v : val) : option (list val) := match v with VArr l => Some l | _ => None end.

(** The fields read from [settings], in the order of the code: name, how it is read *)
Definition settings_fields : list (string * (val → res val)) :=
  [("azure_responses_version", λ v, Ok (or_empty v));
   ("vertex_key_type", λ v, Ok (v_or v (txt "json")));
   ("aws_key_type", λ v, Ok (v_or v (txt "ak_sk")));
   ("allow_service_tier", λ v, Ok (or_false v));
   ("disable_store", λ v, Ok (or_false v));
   ("allow_safety_identifier", λ v, Ok (or_false v));
   ("allow_include_obfuscation", λ v, Ok (or_false v));
   ("allow_inference_geo", λ v, Ok (or_false v));
   ("claude_beta_query", λ v, Ok (or_false v));
   ("custom_user_header_enabled", λ v, Ok (v_true v));
   ("custom_user_header_key", λ v, Ok (or_empty v));
   ("upstream_model_update_check_enabled", λ v, Ok (v_true v));
   ("upstream_model_update_auto_sync_enabled", λ v, Ok (v_true v));
   ("upstream_model_update_last_check_time", λ v, rmap (λ n, v_or (VNum n) (vnum 0)) (to_num v));
   ("upstream_model_update_last_detected_models", λ v, Ok (match v with VArr l => VArr l | _ => VArr [] end));
   ("upstream_model_update_ignored_models",
    λ v, match v with VArr l => rmap VStr (join_comma l) | _ => Ok (VStr []) end)]%string.

Definition read_field (p : val) (data : obj) (f : string * (val → res val)) : res obj :=
  let! v := get p (u f.1) in
  let! w := f.2 v in
  Ok (fset data f.1 w).

Definition read_settings (p : val) (data : obj) : res obj :=
  let! data := rfold (read_field p) data settings_fields in
  let! e := get p (u "openrouter_enterprise") in
  Ok (fset data "is_enterprise_account" (v_true e)).

(** The values without settings *)
Definition default_fields : list (string * val) :=
  [("vertex_key_type", txt "json"); ("aws_key_type", txt "ak_sk"); ("is_enterprise_account", v_false);
   ("allow_service_tier", v_false); ("disable_store", v_false); ("allow_safety_identifier", v_false);
   ("allow_include_obfuscation", v_false); ("allow_inference_geo", v_false); ("claude_beta_query", v_false);
   ("upstream_model_update_check_enabled", v_false); ("upstream_model_update_auto_sync_enabled", v_false);
   ("upstream_model_update_last_check_time", vnum 0); ("upstream_model_update_last_detected_models", VArr []);
   ("upstream_model_update_ignored_models", VStr [])]%string.
Definition broken_fields : list (string * val) :=
  [("azure_responses_version", VStr []); ("region", VStr []); ("custom_user_header_enabled", v_false);
   ("custom_user_header_key", VStr [])]%string ++ default_fields.

Definition set_fields (fs : list (string * val)) (data : obj) : obj := fold_left (λ d f, fset d f.1 f.2) fs data.

Definition load_settings (data : obj) : obj :=
  if truthy (fget data "settings") then
    match (let! p := parse_text (fget data "settings") in read_settings p data) with
    | Ok d => d
    | Throw _ => set_fields broken_fields data
    end
  else set_fields default_fields data.

Definition ARK_URL : val := txt "https://ark.cn-beijing.volces.com".

Definition load_base_url (data : obj) : res obj :=
  if is_type data 45 then
    let v := fget data "base_url" in
    let! blank := if truthy v then match v with VStr s => Ok (trim s =s []) | _ => Ok false end else Ok true in
    Ok (if blank : bool then fset data "base_url" ARK_URL else data)
  else Ok data.

(** The lists and the mapping of a channel *)
Definition load_lists (data : obj) : res obj :=
  let! models := if is_text (fget data "models") [] then Ok [] else split_comma (fget data "models") in
  let data := fset data "models" (VArr (map VStr models)) in
  let! groups := if is_text (fget data "group") [] then Ok [] else split_comma (fget data "group") in
  let data := fset data "groups" (VArr (map VStr groups)) in
  if is_text (fget data "model_mapping") [] then Ok data else
  let! parsed := parse_text (fget data "model_mapping") in
  Ok (fset data "model_mapping" (VStr (stringify2_text parsed))).

(** ** The dialog *)

(** [setValue(field, value)] and [setValues(values)] of the form, on its values *)
Class FormApi := {
  form_setValue : jstr → val → obj → obj;
  form_setValues : obj → obj → obj;
}.

(** A form that takes every value *)
Definition plain_form : FormApi :=
  {| form_setValue := λ k v o, obj_set o k v; form_setValues := λ v o, obj_extend o v |}.

Record dialog := {
  channelId : option val;              (* [undefined] for a new channel *)
  inputs : obj;
  formValues : obj;
  batch : bool;
  multiToSingle : bool;
  multiKeyMode : val;
  keyMode : jstr;
  isMultiKeyChannel : bool;
  isIonetChannel : bool;
  autoBan : bool;
  useManualInput : bool;
  vertexKeys : list val;
  vertexFileList : list (option jstr); (* the text of each file, where there is one *)
  channelSettings : obj;
  initialBaseUrl : val;
  initialModels : list jstr;
  initialModelMapping : val;
  initialStatusCodeMapping : val;
}.

Definition isEdit (d : dialog) : bool := match channelId d with Some _ => true | None => false end.

(** [JSON.parse(data.other_info)] says [source: 'ionet'] *)
Definition managed_by_ionet (data : obj) : bool :=
  truthy (fget data "other_info") &&
  match parse_text (fget data "other_info") with
  | Ok meta => truthy meta && typeof_object meta && is_text (get_opt meta (u "source")) (u "ionet")
  | Throw _ => false
  end.

Definition loaded_settings (data : obj) : obj :=
  [(u "force_format", fget data "force_format"); (u "thinking_to_content", fget data "thinking_to_content");
   (u "proxy", fget data "proxy"); (u "pass_through_body_enabled", fget data "pass_through_body_enabled");
   (u "system_prompt", fget data "system_prompt");
   (u "system_prompt_override", or_false (fget data "system_prompt_override"))].

(** [loadChannel], for a successful answer *)
Definition loadChannel `{FormApi} (d : dialog) (data : obj) : res dialog :=
  let! data := load_lists data in
  let chInfo := v_or (fget data "channel_info") (VObj []) in
  let isMulti := is_true (get_opt chInfo (u "is_multi_key")) in
  let modeVal := v_or (get_opt chInfo (u "multi_key_mode")) (txt "random") in
  let data := if isMulti then fset data "multi_key_mode" modeVal else data in
  let data := load_settings (load_setting data) in
  let! data := load_base_url data in
  let! models := match fget data "models" with VArr l => normalize_models l | _ => Ok [] end in
  Ok {| channelId := channelId d; inputs := data; formValues := form_setValues data (formValues d);
        batch := isMulti; multiToSingle := isMulti;
        multiKeyMode := if isMulti then modeVal else multiKeyMode d;
        keyMode := keyMode d; isMultiKeyChannel := isMulti; isIonetChannel := managed_by_ionet data;
        autoBan := negb (strict_eq (fget data "auto_ban") (vnum 0)); useManualInput := useManualInput d;
        vertexKeys := vertexKeys d; vertexFileList := vertexFileList d;
        channelSettings := loaded_settings data; initialBaseUrl := or_empty (fget data "base_url");
        initialModels := models; initialModelMapping := or_empty (fget data "model_mapping");
        initialStatusCodeMapping := or_empty (fget data "status_code_mapping") |}.

(** ** Saving *)

(** How [submit] ends: a message, a dialog that was declined, or a request *)
Inductive refusal :=
| Info (message : string)
| Failure (message : string)
| InvalidCodes (entries : list jstr)
| Declined.
Inductive outcome :=
| Refused (why : refusal)
| Put (body : obj)
| Post (body : obj).

(** Code that may return early *)
Definition early (A : Type) := res (refusal + A).
Definition go {A} (a : A) : early A := Ok (inr a).
Definition stop {A} (o : refusal) : early A := Ok (inl o).
Definition ebind {A B} (m : early A) (f : A → early B) : early B :=
  match m with
  | Ok (inr a) => f a
  | Ok (inl o) => Ok (inl o)
  | Throw e => Throw e
  end.
Definition lift {A} (m : res A) : early A := rmap inr m.
Notation "'let?' x := m 'in' k" := (ebind m (λ x, k)) (at level 10, x name, m at level 100, k at level 200).

Definition blank_key (li : obj) : res bool :=
  if truthy (fget li "key") then rmap (λ s, s =s []) (trim_of (fget li "key")) else Ok true.

(** [localInputs.type === 57] *)
Definition codex_key (d : dialog) (li : obj) : early obj :=
  if negb (is_type li 57) then go li
  else if batch d then stop (Info "Codex 渠道不支持批量创建")
  else
    let? rawKey := lift (trim_of (or_empty (fget li "key"))) in
    if negb (isEdit d) && (rawKey =s []) then stop (Info "请输入密钥！")
    else if rawKey =s [] then go li
    else match JSON_parse rawKey with
         | Throw _ => stop (Info "密钥必须是合法的 JSON 格式！")
         | Ok parsed =>
           if negb (is_plain parsed) then stop (Info "密钥必须是 JSON 对象") else
           let field k := rmap trim (to_str (or_empty (get_opt parsed (u k)))) in
           match (let! a := field "access_token"%string in let! b := field "account_id"%string in Ok (a, b)) with
           | Throw _ => stop (Info "密钥必须是合法的 JSON 格式！")
           | Ok (accessToken, accountId) =>
             if accessToken =s [] then stop (Info "密钥 JSON 必须包含 access_token")
             else if accountId =s [] then stop (Info "密钥 JSON 必须包含 account_id")
             else go (fset li "key" (VStr (stringify_text parsed)))
           end
         end.

(** The keys of the uploaded files: as parsed when they were chosen, or now *)
Definition file_keys (d : dialog) : res (list val) :=
  match vertexKeys d with
  | [] => rmap (List.filter truthy)
            (rmapM (λ f, match f with None => Ok VNull | Some s => JSON_parse s end) (vertexFileList d))
  | ks => Ok ks
  end.

(** [localInputs.type === 41] *)
Definition vertex_key (d : dialog) (li : obj) : early obj :=
  if negb (is_type li 41) then go li
  else if is_text (v_or (fget li "vertex_key_type") (txt "json")) (u "api_key") then
    let? blank := lift (if isEdit d then Ok false else blank_key li) in
    if blank : bool then stop (Info "请输入密钥！") else go li
  else if useManualInput d then
    let? blank := lift (blank_key li) in
    if negb blank then
      match parse_text (fget li "key") with
      | Ok parsed => go (fset li "key" (VStr (stringify_text parsed)))
      | Throw _ => stop (Failure "密钥格式无效，请输入有效的 JSON 格式密钥")
      end
    else if negb (isEdit d) then stop (Info "请输入密钥！") else go li
  else match file_keys d with
       | Throw _ => stop (Failure "解析密钥文件失败")
       | Ok [] => if negb (isEdit d) then stop (Info "请上传密钥文件！") else go (fdel li "key")
       | Ok ((k :: _) as keys) => go (fset li "key" (VStr (stringify_text (if batch d then VArr keys else k))))
       end.

(** A blank key of a stored channel is not sent. *)
Definition drop_blank_key (d : dialog) (li : obj) : early obj :=
  let? blank := lift (if isEdit d then blank_key li else Ok false) in
  go (fdel (if blank : bool then fdel li "key" else li) "vertex_files").

Definition required (d : dialog) (li : obj) : early obj :=
  if negb (isEdit d) && (negb (truthy (fget li "name")) || negb (truthy (fget li "key")))
  then stop (Info "请填写渠道名称和渠道密钥！")
  else match fget li "models" with
       | VArr (_ :: _) =>
         if is_type li 45 then
           let? blank := lift (if truthy (fget li "base_url") then rmap (λ s, s =s []) (trim_of (fget li "base_url")) else Ok true) in
           if blank : bool then stop (Info "请输入API地址！") else go li
         else go li
       | _ => stop (Info "请至少选择一个模型！")
       end.

(** The model mapping, where there is one *)
Definition parsed_mapping (li : obj) : early val :=
  match fget li "model_mapping" with
  | VStr s =>
    if trim s =s [] then go VNull
    else match JSON_parse s with
         | Ok v => go v
         | Throw _ => stop (Info "模型映射必须是合法的 JSON 格式！")
         end
  | _ => go VNull
  end.

Definition hasModelConfigChanged (d : dialog) (models : list jstr) (mapping : val) : res bool :=
  if negb (isEdit d) then Ok true
  else if negb (bool_decide (models = initialModels d)) then Ok true
  else let! now := trim_of (or_empty mapping) in
       let! before := trim_of (or_empty (initialModelMapping d)) in
       Ok (negb (now =s before)).

Inductive answer := Cancel | Submit | Add.

Definition missing_models (models : list jstr) (mapping : val) : list jstr :=
  List.filter (λ k, nonempty k && negb (bool_decide (k ∈ models))) (map trim (keys mapping)).

(** Models that are mapped but not listed: the operator decides. *)
Definition complete_models (d : dialog) (ask : list jstr → answer) (li : obj) : early obj :=
  let? mapping := parsed_mapping li in
  let? models := lift (match fget li "models" with VArr l => normalize_models l | _ => Ok [] end) in
  let li := fset li "models" (VArr (map VStr models)) in
  if is_plain mapping then
    let missing := missing_models models mapping in
    let? changed := lift (match missing with [] => Ok false | _ => hasModelConfigChanged d models (fget li "model_mapping") end) in
    if changed : bool then
      match ask missing with
      | Cancel => stop Declined
      | Submit => go li
      | Add => go (fset li "models" (VArr (map VStr (set_array (models ++ missing)))))
      end
    else go li
  else go li.

Definition check_status_codes (d : dialog) (confirm : list jstr → bool) (li : obj) : early obj :=
  let mapping := fget li "status_code_mapping" in
  let? invalid := lift (collectInvalidStatusCodeEntries mapping) in
  match invalid with
  | _ :: _ => stop (InvalidCodes invalid)
  | [] =>
    match collectNewDisallowedStatusCodeRedirects (initialStatusCodeMapping d) mapping with
    | [] => go li
    | risky => if confirm risky then go li else stop Declined
    end
  end.

Definition ends_slash (s : jstr) : bool := ends_with [47] s.

Definition tidy_url (li : obj) : early obj :=
  let? li := (if truthy (fget li "base_url") then
                match fget li "base_url" with
                | VStr s => go (if ends_slash s then fset li "base_url" (VStr (take (length s - 1) s)) else li)
                | _ => Throw TypeError
                end
              else go li) in
  go (if is_type li 18 && is_text (fget li "other") [] then fset li "other" (txt "v2.1") else li).

(** The extra settings, stored as the text [setting] *)
Definition extra_settings (li : obj) : obj :=
  [(u "force_format", or_false (fget li "force_format"));
   (u "thinking_to_content", or_false (fget li "thinking_to_content"));
   (u "proxy", or_empty (fget li "proxy"));
   (u "pass_through_body_enabled", or_false (fget li "pass_through_body_enabled"));
   (u "system_prompt", or_empty (fget li "system_prompt"));
   (u "system_prompt_override", or_false (fget li "system_prompt_override"))].

(** The names a comma separated text lists, each once *)
Definition listed_names (v : val) : res (list jstr) :=
  let! s := to_str (or_empty v) in
  Ok (set_array (List.filter nonempty (map trim (split_on 44 s)))).

(** The assignments to [settings] that depend on the type of the channel *)
Definition type_settings (li o : obj) : obj :=
  let flag k o := fset o k (v_true (fget li k)) in
  let o := if is_type li 20 then fset o "openrouter_enterprise" (v_true (fget li "is_enterprise_account")) else o in
  let o := if is_type li 33 then fset o "aws_key_type" (v_or (fget li "aws_key_type") (txt "ak_sk")) else o in
  let o := if is_type li 41 then fset o "vertex_key_type" (v_or (fget li "vertex_key_type") (txt "json"))
           else fdel o "vertex_key_type" in
  let o := if is_type li 1 || is_type li 14 then flag "allow_service_tier"%string o else o in
  let o := if is_type li 1 then
             flag "allow_include_obfuscation"%string (flag "allow_safety_identifier"%string (flag "disable_store"%string o))
           else o in
  if is_type li 14 then flag "claude_beta_query"%string (flag "allow_inference_geo"%string o) else o.

(** and those that do not *)
Definition update_settings (li : obj) (ignored : list jstr) (o : obj) : obj :=
  let check := is_true (fget li "upstream_model_update_check_enabled") in
  let sync := check && is_true (fget li "upstream_model_update_auto_sync_enabled") in
  let o := fset o "upstream_model_update_check_enabled" (VBool check) in
  let o := fset o "upstream_model_update_auto_sync_enabled" (VBool sync) in
  let o := fset o "upstream_model_update_ignored_models" (VArr (map VStr ignored)) in
  let o := if negb (is_arr (fget o "upstream_model_update_last_detected_models")) || negb check
           then fset o "upstream_model_update_last_detected_models" (VArr []) else o in
  if negb (is_num (fget o "upstream_model_update_last_check_time"))
  then fset o "upstream_model_update_last_check_time" (vnum 0) else o.

(** The parsed [settings]: a text that is not JSON is dropped. *)
Definition stored_settings (li : obj) : val :=
  if truthy (fget li "settings") then rcatch (parse_text (fget li "settings")) (VObj []) else VObj [].

(** [JSON.stringify(settings)] after the assignments: what is assigned to an array is
    not in its text, and assigning to anything that is no object throws. *)
Definition settings_text (li : obj) : res jstr :=
  match stored_settings li with
  | VObj o =>
    let! ignored := listed_names (fget li "upstream_model_update_ignored_models") in
    Ok (stringify_text (VObj (update_settings li ignored (type_settings li o))))
  | VArr l =>
    let! _ := listed_names (fget li "upstream_model_update_ignored_models") in
    Ok (stringify_text (VArr l))
  | _ => Throw TypeError
  end.

Definition write_settings (li : obj) : early obj :=
  let li := fset li "setting" (VStr (stringify_text (VObj (extra_settings li)))) in
  let? s := lift (settings_text li) in
  go (fset li "settings" (VStr s)).

(** The fields that are not sent *)
Definition temporary_fields : list string :=
  ["force_format"; "thinking_to_content"; "proxy"; "pass_through_body_enabled"; "system_prompt";
   "system_prompt_override"; "is_enterprise_account"; "vertex_key_type"; "aws_key_type"; "allow_service_tier";
   "disable_store"; "allow_safety_identifier"; "allow_include_obfuscation"; "allow_inference_geo";
   "claude_beta_query"; "upstream_model_update_check_enabled"; "upstream_model_update_auto_sync_enabled";
   "upstream_model_update_last_check_time"; "upstream_model_update_last_detected_models";
   "upstream_model_update_ignored_models"]%string.
Definition clean_fields (li : obj) : obj := fold_left fdel temporary_fields li.

Definition joined (v : val) : res jstr := match v with VArr l => join_comma l | _ => Throw TypeError end.

Definition finish_fields (li : obj) : early obj :=
  let li := fset li "auto_ban" (vnum (if truthy (fget li "auto_ban") then 1 else 0)) in
  let? models := lift (joined (fget li "models")) in
  let li := fset li "models" (VStr models) in
  let? group := lift (joined (v_or (fget li "groups") (VArr []))) in
  go (fset li "group" (VStr group)).

(** The request *)
Definition request (d : dialog) (li : obj) : res outcome :=
  match channelId d with
  | Some id =>
    let! s := to_str id in
    Ok (Put (fset (fset li "id" (VNum (parseInt s))) "key_mode"
               (if isMultiKeyChannel d then VStr (keyMode d) else VUndef)))
  | None =>
    let mode := (if batch d then if multiToSingle d then "multi_to_single" else "batch" else "single")%string in
    Ok (Post [(u "mode", txt mode);
              (u "multi_key_mode", if batch d && multiToSingle d then multiKeyMode d else VUndef);
              (u "channel", VObj li)])
  end.

(** The checks, in the order of the code: each may end the submission. *)
Definition checked (d : dialog) (ask : list jstr → answer) (confirm : list jstr → bool) (li : obj) : early obj :=
  let? li := codex_key d li in
  let? li := vertex_key d li in
  let? li := drop_blank_key d li in
  let? li := required d li in
  let? li := complete_models d ask li in
  check_status_codes d confirm li.

Definition encoded (li : obj) : early obj :=
  let? li := tidy_url li in
  let? li := write_settings li in
  finish_fields (clean_fields li).

Definition submit (d : dialog) (ask : list jstr → answer) (confirm : list jstr → bool) : res outcome :=
  let li := fset (formValues d) "param_override" (fget (inputs d) "param_override") in
  match (let? li := checked d ask confirm li in encoded li) with
  | Ok (inl o) => Ok (Refused o)
  | Ok (inr li) => request d li
  | Throw e => Throw e
  end.
