(* ===== verification/ChannelSave.v ===== *)
(** * What the channel dialog stores

    Theorems about [Channel]: what a submission of the form can send, and what opening
    the stored channel again shows. *)

From S2P Require Import Prelude JsString JsNumber JsValue Json Browser StatusCodeRisk Channel.

Local Open Scope Z_scope.

(** ** Fields of an object *)

(** [o'] comes from [o] by changes of the fields [ks]. *)
Definition agree (ks : list string) (o o' : obj) : Prop :=
  (∀ k, k ∉ map u ks → obj_get o' k = obj_get o k) ∧ (obj_ok o → obj_ok o').

Lemma agree_refl ks o : agree ks o o.
Proof. done. Qed.
Lemma agree_trans ks o o' o'' : agree ks o o' → agree ks o' o'' → agree ks o o''.
Proof. intros [H Ho] [H' Ho']. split; [|auto]. intros k Hk. by rewrite H', H. Qed.
Lemma agree_set ks o o' k v : k ∈ ks → agree ks o o' → agree ks o (fset o' k v).
Proof.
  intros Hk [H Ho]. split; [|intros; by apply obj_ok_set, Ho]. intros k' Hk'.
  unfold fset. rewrite obj_get_set, decide_False; [by apply H|].
  intros <-. apply Hk'. by apply list_elem_of_fmap_2.
Qed.
Lemma agree_del ks o o' k : k ∈ ks → agree ks o o' → agree ks o (fdel o' k).
Proof.
  intros Hk [H Ho]. split; [|intros; by apply obj_ok_del, Ho]. intros k' Hk'.
  unfold fdel. rewrite obj_get_del_ne; [by apply H|].
  intros <-. apply Hk'. by apply list_elem_of_fmap_2.
Qed.
Lemma agree_mono ks ks' o o' : agree ks o o' → ks ⊆ ks' → agree ks' o o'.
Proof.
  intros [H Ho] Hs. split; [|done]. intros k Hk. apply H. intros Hin. apply Hk.
  apply list_elem_of_fmap in Hin as (x & -> & Hx). apply list_elem_of_fmap_2. set_solver.
Qed.
Lemma agree_fget ks o o' k : agree ks o o' → bool_decide (u k ∉ map u ks) = true → fget o' k = fget o k.
Proof. intros [H _] Hk%bool_decide_eq_true. unfold fget, oget. by rewrite H. Qed.

Lemma fget_fset o k v : fget (fset o k v) k = v.
Proof. unfold fget, fset, oget. by rewrite obj_get_set, decide_True. Qed.
Lemma fget_fset_ne o k k' v : bool_decide (u k ≠ u k') = true → fget (fset o k v) k' = fget o k'.
Proof. intros Hk%bool_decide_eq_true. unfold fget, fset, oget. by rewrite obj_get_set, decide_False. Qed.
Lemma fget_fdel_ne o k k' : bool_decide (u k ≠ u k') = true → fget (fdel o k) k' = fget o k'.
Proof. intros Hk%bool_decide_eq_true. unfold fget, fdel, oget. by rewrite obj_get_del_ne. Qed.

Create HintDb channel.
#[export] Hint Resolve agree_refl : channel.
Ltac fields :=
  repeat match goal with
  | |- context [fget (fset _ ?k _) ?k] => rewrite fget_fset
  | |- context [fget (fset ?o ?k ?v) ?k'] => rewrite (fget_fset_ne o k k' v) by (vm_compute; reflexivity)
  | |- context [fget (fdel ?o ?k) ?k'] => rewrite (fget_fdel_ne o k k') by (vm_compute; reflexivity)
  end.
#[export] Hint Extern 4 (agree _ _ (fset _ _ _)) => apply agree_set; [set_solver|] : channel.
#[export] Hint Extern 4 (agree _ _ (fdel _ _)) => apply agree_del; [set_solver|] : channel.

(** ** Steps that may end the submission *)

Lemma ebind_go {A B} (m : early A) (f : A → early B) b :
  ebind m f = go b → ∃ a, m = go a ∧ f a = go b.
Proof. destruct m as [[o|a]|e]; simpl; intros H; try done. by exists a. Qed.

Lemma lift_go {A} (m : res A) a : lift m = go a → m = Ok a.
Proof. destruct m; intros [=]; by subst. Qed.

Lemma go_inj {A} (a b : A) : go a = go b → a = b.
Proof. by intros [= ->]. Qed.

(** Follows the steps of a submission that goes on. *)
Ltac follow :=
  repeat match goal with
  | H : ebind _ _ = go _ |- _ => apply ebind_go in H as (? & ? & ?)
  | H : go _ = go _ |- _ => apply go_inj in H
  | H : stop _ = go _ |- _ => discriminate H
  | H : lift _ = go _ |- _ => apply lift_go in H
  | H : Throw _ = go _ |- _ => discriminate H
  | H : (if ?b then _ else _) = go _ |- _ => destruct b eqn:?
  | H : match ?x with _ => _ end = go _ |- _ => destruct x eqn:?
  end.

Lemma codex_key_agree d li li' : codex_key d li = go li' → agree ["key"%string] li li'.
Proof. unfold codex_key. intros H. cbn zeta in H. follow; subst; auto with channel. Qed.

Lemma vertex_key_agree d li li' : vertex_key d li = go li' → agree ["key"%string] li li'.
Proof. unfold vertex_key. intros H. follow; subst; auto with channel. Qed.

Lemma drop_blank_key_agree d li li' :
  drop_blank_key d li = go li' → agree ["key"; "vertex_files"]%string li li'.
Proof. unfold drop_blank_key. intros H. follow. subst.
  match goal with |- context [if ?b then _ else _] => destruct b end; auto with channel.
Qed.

Lemma required_same d li li' : required d li = go li' → li' = li.
Proof. unfold required. intros H. follow; by subst. Qed.

Lemma complete_models_agree d ask li li' : complete_models d ask li = go li' → agree ["models"%string] li li'.
Proof. unfold complete_models. intros H. cbn zeta in H. follow; subst; auto with channel. Qed.

Lemma check_status_codes_same d confirm li li' : check_status_codes d confirm li = go li' → li' = li.
Proof. unfold check_status_codes. intros H. cbn zeta in H. follow; by subst. Qed.

Lemma tidy_url_agree li li' : tidy_url li = go li' → agree ["base_url"; "other"]%string li li'.
Proof. unfold tidy_url. intros H. follow; subst; repeat case_match; auto with channel. Qed.

(** What a submission that passes all checks has passed *)
Lemma checked_go d ask confirm li li' :
  checked d ask confirm li = go li' →
  agree ["key"; "vertex_files"; "models"]%string li li' ∧
  (∃ l l', drop_blank_key d l = go l' ∧ (obj_ok li → obj_ok l) ∧ obj_get li' (u "key") = obj_get l' (u "key")) ∧
  check_status_codes d confirm li' = go li'.
Proof.
  unfold checked. intros H.
  apply ebind_go in H as (l1 & H1%codex_key_agree & H). apply ebind_go in H as (l2 & H2%vertex_key_agree & H).
  apply ebind_go in H as (l3 & Hd & H). pose proof (drop_blank_key_agree _ _ _ Hd) as H3.
  apply ebind_go in H as (l4 & ->%required_same & H).
  apply ebind_go in H as (l5 & H5%complete_models_agree & Hs).
  pose proof (check_status_codes_same _ _ _ _ Hs). subst l5. split; [|split; [|done]].
  - eapply agree_trans; [|by eapply agree_mono; [exact H5|set_solver]].
    eapply agree_trans; [|by eapply agree_mono; [exact H3|set_solver]].
    eapply agree_trans; eapply agree_mono; [exact H1|set_solver|exact H2|set_solver].
  - exists l2, l3. split; [done|]. split; [intros Ho; by apply H2, H1|]. by apply H5, (bool_decide_eq_true_1 _).
Qed.

(** ** What is sent *)

(** The channel in the request *)
Definition sent (o : outcome) : option obj :=
  match o with
  | Put body => Some body
  | Post body => match fget body "channel" with VObj c => Some c | _ => None end
  | _ => None
  end.

Definition start (d : dialog) : obj := fset (formValues d) "param_override" (fget (inputs d) "param_override").

(** The fields of the form that the checks may change, and the text of the extra settings *)
Definition touched : list string := ["param_override"; "key"; "vertex_files"; "models"; "base_url"; "other"; "setting"]%string.

Definition finished (l : obj) (s models group : jstr) : obj :=
  let l := clean_fields (fset l "settings" (VStr s)) in
  fset (fset (fset l "auto_ban" (vnum (if truthy (fget l "auto_ban") then 1 else 0))) "models" (VStr models))
    "group" (VStr group).

Lemma encoded_go li c :
  encoded li = go c →
  ∃ l s models group,
    tidy_url li = go l ∧
    settings_text (fset l "setting" (VStr (stringify_text (VObj (extra_settings l))))) = Ok s ∧
    c = finished (fset l "setting" (VStr (stringify_text (VObj (extra_settings l))))) s models group.
Proof.
  unfold encoded. intros H. apply ebind_go in H as (l & Hl & H). apply ebind_go in H as (l' & Hw & H).
  unfold write_settings in Hw. apply ebind_go in Hw as (s & Hs%lift_go & <-%go_inj).
  unfold finish_fields in H. apply ebind_go in H as (m & _ & H). apply ebind_go in H as (g & _ & <-%go_inj).
  by exists l, s, m, g.
Qed.

Lemma request_sent d li r c : request d li = Ok r → sent r = Some c → agree ["id"; "key_mode"]%string li c.
Proof.
  unfold request. destruct (channelId d).
  - destruct (to_str _); simpl; intros [= <-] [= <-]. auto with channel.
  - intros [= <-]. cbn [sent]. change (fget _ "channel") with (VObj li). intros [= <-]. apply agree_refl.
Qed.

(** A sent channel, from the form to the request *)
Lemma submit_sent d ask confirm r c :
  submit d ask confirm = Ok r → sent r = Some c →
  ∃ li l s models group,
    checked d ask confirm (start d) = go li ∧ agree ["base_url"; "other"; "setting"]%string li l ∧
    agree touched (formValues d) l ∧ fget l "setting" = VStr (stringify_text (VObj (extra_settings l))) ∧
    settings_text l = Ok s ∧ agree ["id"; "key_mode"]%string (finished l s models group) c.
Proof.
  unfold submit. fold (start d). destruct (ebind _ _) as [[o|c0]|] eqn:E; [by intros [= <-]| |done].
  intros Hr Hc. apply ebind_go in E as (li & Hli & (l & s & m & g & Hl%tidy_url_agree & Hs & ->)%encoded_go).
  pose proof (request_sent _ _ _ _ Hr Hc) as Hq. destruct (checked_go _ _ _ _ _ Hli) as [Ha _].
  set (l' := fset l "setting" _) in *.
  assert (agree ["base_url"; "other"; "setting"]%string li l') as Hl'.
  { apply agree_set; [set_solver|]. eapply agree_mono; [exact Hl|set_solver]. }
  exists li, l', s, m, g. split_and!; try done.
  - eapply agree_trans; [|by eapply agree_mono; [exact Hl'|set_solver]].
    eapply agree_trans; [|by eapply agree_mono; [exact Ha|set_solver]]. unfold start. auto with channel.
  - unfold l'. rewrite fget_fset. unfold extra_settings. by rewrite !fget_fset_ne.
Qed.

Lemma clean_agree ks ts l l' : ts ⊆ ks → agree ks l l' → agree ks l (fold_left fdel ts l').
Proof.
  revert l'. induction ts as [|t ts IH]; intros l' Hs Hl; simpl; [done|].
  apply IH; [set_solver|]. apply agree_del; [set_solver|done].
Qed.

Definition written : list string := ["settings"; "auto_ban"; "models"; "group"]%string ++ temporary_fields.

Lemma finished_agree l s models group : agree written l (finished l s models group).
Proof.
  unfold finished, clean_fields. repeat (apply agree_set; [set_solver|]).
  apply clean_agree; [intros x Hx; apply elem_of_app; by right|]. apply agree_set; [set_solver|apply agree_refl].
Qed.

Lemma fget_clean k l : bool_decide (u k ∉ map u temporary_fields) = true → fget (clean_fields l) k = fget l k.
Proof. intros Hk. eapply agree_fget; [|exact Hk]. apply clean_agree; [done|apply agree_refl]. Qed.

Lemma finished_settings l s models group : fget (finished l s models group) "settings" = VStr s.
Proof.
  unfold finished. cbn zeta. rewrite !fget_fset_ne by (vm_compute; reflexivity).
  rewrite fget_clean by (vm_compute; reflexivity). apply fget_fset.
Qed.

Lemma dels_none ts l k : obj_ok l → k ∈ ts ∨ obj_get l (u k) = None → obj_get (fold_left fdel ts l) (u k) = None.
Proof.
  revert l. induction ts as [|t ts IH]; intros l Hl Hk; simpl; [set_solver|].
  apply IH; [by apply obj_ok_del|]. destruct (decide (u t = u k)) as [E|E].
  - right. unfold fdel. rewrite E. by apply obj_get_del.
  - destruct Hk as [Hk|Hk]; [left; set_solver|]. right. unfold fdel. by rewrite obj_get_del_ne.
Qed.

Definition apart (ks : list string) (k : string) : bool := bool_decide (u k ∉ map u ks).

Lemma temporary_apart ks k : k ∈ temporary_fields → forallb (apart ks) temporary_fields = true → u k ∉ map u ks.
Proof. intros Hk%list_elem_of_In H. rewrite forallb_forall in H. apply (bool_decide_eq_true_1 _), H, Hk. Qed.

Lemma finished_clean l s models group k :
  obj_ok l → k ∈ temporary_fields → obj_get (finished l s models group) (u k) = None.
Proof.
  intros Hl Hk. assert (u k ∉ map u ["auto_ban"; "models"; "group"]%string) as Ha
    by (by apply temporary_apart).
  transitivity (obj_get (clean_fields (fset l "settings" (VStr s))) (u k)).
  - assert (agree ["auto_ban"; "models"; "group"]%string (clean_fields (fset l "settings" (VStr s)))
             (finished l s models group)) as [H _] by (unfold finished; auto with channel). by apply H.
  - apply dels_none; [by apply obj_ok_set|by left].
Qed.

(** None of the fields that the dialog keeps for itself is sent. *)
Theorem temporary_never_sent d ask confirm r c k :
  obj_ok (formValues d) → submit d ask confirm = Ok r → sent r = Some c → k ∈ temporary_fields →
  obj_get c (u k) = None.
Proof.
  intros Ho Hs Hc Hk. destruct (submit_sent _ _ _ _ _ Hs Hc) as (li & l & s & m & g & _ & _ & [_ Hl] & _ & _ & [Hq _]).
  rewrite Hq; [apply finished_clean; auto|]. by apply temporary_apart.
Qed.

(** C35: the key a stored channel has is never replaced by a blank one. *)
Theorem stored_key_kept d ask confirm r c :
  obj_ok (formValues d) → isEdit d = true → submit d ask confirm = Ok r → sent r = Some c →
  obj_get c (u "key") = None ∨ ∃ s, obj_get c (u "key") = Some (VStr s) ∧ trim s ≠ [].
Proof.
  intros Ho He Hs Hc.
  destruct (submit_sent _ _ _ _ _ Hs Hc) as (li & l & s & m & g & Hli & [Hl _] & _ & _ & _ & [Hq _]).
  destruct (checked_go _ _ _ _ _ Hli) as (_ & (l1 & l2 & Hd & Hok & Hk) & _).
  assert (obj_get c (u "key") = obj_get l2 (u "key")) as ->.
  { rewrite Hq by (by apply (bool_decide_eq_true_1 _)).
    rewrite (proj1 (finished_agree l s m g)) by (by apply (bool_decide_eq_true_1 _)).
    by rewrite Hl by (by apply (bool_decide_eq_true_1 _)). }
  unfold drop_blank_key in Hd. rewrite He in Hd. apply ebind_go in Hd as (b & Hb%lift_go & <-%go_inj).
  unfold fdel at 1 3. rewrite !obj_get_del_ne by (by apply (bool_decide_eq_true_1 _)).
  destruct b; [left; apply obj_get_del, Hok, obj_ok_set, Ho|right].
  unfold blank_key, fget, oget in Hb. destruct (obj_get l1 (u "key")) as [v|]; [|done].
  cbn in Hb. destruct (truthy v); [|done]. destruct v as [| | | |t| | |]; try done.
  exists t. split; [done|]. cbn in Hb. apply Ok_inj in Hb. by boolify.
Qed.

Lemma target_code_nonneg v c : target_code v c → 0 ≤ c.
Proof.
  destruct v; try done; simpl; [lia|]. intros [(_ & _ & ?)%code_pattern_spec ->]. lia.
Qed.

Lemma redirect_text_inj m m' f t f' t' :
  risky m f t → risky m' f' t' → redirect_text f t = redirect_text f' t' → f = f' ∧ t = t'.
Proof.
  intros (_ & v & _ & _ & Ht & Hf & _) (_ & v' & _ & _ & Ht' & Hf' & _).
  apply target_code_nonneg in Ht, Ht'. unfold redirect_text.
  intros E. assert (f = f' ∧ decZ t = decZ t') as [-> Hd].
  { destruct Hf as [-> | ->], Hf' as [-> | ->]; vm_compute (decZ 504) in E; vm_compute (decZ 524) in E;
      vm_compute (u " -> ") in E; injection E as E; [done|discriminate..|done]. }
  split; [done|]. unfold decZ in Hd. destruct (Z.ltb_spec t 0), (Z.ltb_spec t' 0); [lia..|].
  by apply dec_inj in Hd.
Qed.

(** C14: a channel is sent only with a mapping of status codes in which, when it is the text of
    a JSON object, every key is a code of 100 to 599 and every value is one, as a number or a
    text; and when it redirects 504 or 524 to another code, which the mapping the dialog was
    opened with did not, the operator was asked about this redirect and confirmed it.  A mapping
    that is no JSON text is not checked and is sent as it is. *)
Theorem redirects_confirmed d ask confirm r c :
  submit d ask confirm = Ok r → sent r = Some c →
  (∀ text o k v, fget c "status_code_mapping" = VStr text → JSON_parse text = Ok (VObj o) → (k, v) ∈ o →
    (∃ f, code_name k f) ∧ ∃ t, names_target v t) ∧
  ∀ f t, f = 504 ∨ f = 524 → t ≠ f →
    redirects (fget c "status_code_mapping") f t → ¬ redirects (initialStatusCodeMapping d) f t →
    ∃ l, (dec f ++ u " -> " ++ dec t) ∈ l ∧ confirm l = true.
Proof.
  intros Hs Hc. destruct (submit_sent _ _ _ _ _ Hs Hc) as (li & l & s & m & g & Hli & Hl & _ & _ & _ & Hq).
  destruct (checked_go _ _ _ _ _ Hli) as (_ & _ & Hk).
  rewrite (agree_fget _ _ _ "status_code_mapping" Hq eq_refl),
    (agree_fget _ _ _ "status_code_mapping" (finished_agree l s m g) eq_refl),
    (agree_fget _ _ _ "status_code_mapping" Hl eq_refl).
  unfold check_status_codes in Hk. cbn zeta in Hk. apply ebind_go in Hk as (inv & Hinv%lift_go & Hk).
  destruct inv; [|done]. split.
  { intros text o k v Ht. rewrite Ht in Hinv. by apply no_invalid_entries. }
  intros f t Hcode Hne Hto Hfrom.
  assert (Hf : risky (fget li "status_code_mapping") f t) by (by apply risky_redirects).
  assert (Hn : ¬ risky (initialStatusCodeMapping d) f t) by (by rewrite risky_redirects; intros [? _]).
  assert (Htext : redirect_text f t = dec f ++ u " -> " ++ dec t).
  { destruct Hto as (? & ? & ? & v & _ & _ & _ & [_ Hr1] & Hv). assert (100 ≤ t ≤ 599).
    { destruct v; cbn [names_target] in Hv; try done; [by destruct Hv|by destruct Hv]. }
    unfold redirect_text, decZ. destruct (Z.ltb_spec f 0), (Z.ltb_spec t 0); done || lia. }
  rewrite <- Htext. clear Htext.
  assert (redirect_text f t ∈ collectNewDisallowedStatusCodeRedirects (initialStatusCodeMapping d)
            (fget li "status_code_mapping")) as Hin.
  { apply new_disallowed_redirects. rewrite !elem_of_disallowed. split; [by eauto|].
    intros (f' & t' & Hr & E). apply Hn. by destruct (redirect_text_inj _ _ _ _ _ _ Hf Hr E) as [-> ->]. }
  destruct (collectNewDisallowedStatusCodeRedirects _ _) as [|x risky]; [set_solver|].
  exists (x :: risky). split; [done|]. by destruct (confirm _).
Qed.

(** ** Opening what was saved *)

(** Reads the fields that are the same before. *)
Ltac by_agree H :=
  match type of H with
  | agree _ ?o ?o' =>
    repeat match goal with |- context [fget o' ?k] => rewrite (agree_fget _ _ _ k H eq_refl) end
  end.

Lemma extra_settings_agree o o' : agree touched o o' → extra_settings o' = extra_settings o.
Proof. intros H. unfold extra_settings. by_agree H. reflexivity. Qed.

Lemma parse_saved v t : stringify_text v = t → json_data v → parse_text (VStr t) = Ok v.
Proof. intros <- Hv. apply (JSON_parse_stringify []); [constructor|done]. Qed.

Lemma or_false_idem v : or_false (or_false v) = or_false v.
Proof. unfold or_false, v_or. destruct (truthy v) eqn:E; by rewrite ?E. Qed.
Lemma or_empty_idem v : or_empty (or_empty v) = or_empty v.
Proof. unfold or_empty, v_or. destruct (truthy v) eqn:E; by rewrite ?E. Qed.

(** A JSON text is not empty. *)
Lemma JSON_text_truthy t v : JSON_parse t = Ok v → truthy (VStr t) = true.
Proof. destruct t; [|done]. intros H%JSON_parse_nonblank. exfalso. apply H. reflexivity. Qed.

Lemma load_setting_saved c f :
  fget c "setting" = VStr (stringify_text (VObj (extra_settings f))) →
  json_data (VObj (extra_settings f)) → loaded_settings (load_setting c) = extra_settings f.
Proof.
  intros Hc Hd. pose proof (parse_saved _ _ eq_refl Hd) as Hp. unfold load_setting. rewrite Hc, Hp.
  rewrite (JSON_text_truthy _ _ Hp). cbn [rbind]. unfold extra_settings.
  set (a1 := or_false (fget f "force_format")). set (a2 := or_false (fget f "thinking_to_content")).
  set (a3 := or_empty (fget f "proxy")). set (a4 := or_false (fget f "pass_through_body_enabled")).
  set (a5 := or_empty (fget f "system_prompt")). set (a6 := or_false (fget f "system_prompt_override")).
  unfold read_setting.
  change (get _ (u "force_format")) with (Ok a1). change (get _ (u "thinking_to_content")) with (Ok a2).
  change (get _ (u "proxy")) with (Ok a3). change (get _ (u "pass_through_body_enabled")) with (Ok a4).
  change (get _ (u "system_prompt")) with (Ok a5). change (get _ (u "system_prompt_override")) with (Ok a6).
  cbn [rbind]. unfold loaded_settings.
  fields. unfold a1, a2, a3, a4, a5, a6. by rewrite !or_false_idem, !or_empty_idem.
Qed.

(** The extra settings of the form are what opening the saved channel shows. *)
Theorem extra_settings_read_back d ask confirm r c :
  submit d ask confirm = Ok r → sent r = Some c → json_data (VObj (extra_settings (formValues d))) →
  loaded_settings (load_setting c) = extra_settings (formValues d).
Proof.
  intros Hs Hc Hd. destruct (submit_sent _ _ _ _ _ Hs Hc) as (li & l & s & m & g & _ & _ & Hl & Hx & _ & Hq).
  apply load_setting_saved; [|done].
  rewrite (agree_fget _ _ _ "setting" Hq eq_refl), (agree_fget _ _ _ "setting" (finished_agree l s m g) eq_refl), Hx.
  by rewrite (extra_settings_agree _ _ Hl).
Qed.

(** *** The settings kept as one JSON text *)

Lemma settings_text_agree o o' : agree touched o o' → settings_text o' = settings_text o.
Proof.
  intros H. unfold settings_text, stored_settings, update_settings, type_settings, is_type. by_agree H. reflexivity.
Qed.

(** The keys of [settings] that saving writes *)
Definition managed : list string :=
  ["openrouter_enterprise"; "aws_key_type"; "vertex_key_type"; "allow_service_tier"; "disable_store";
   "allow_safety_identifier"; "allow_include_obfuscation"; "allow_inference_geo"; "claude_beta_query";
   "upstream_model_update_check_enabled"; "upstream_model_update_auto_sync_enabled";
   "upstream_model_update_ignored_models"; "upstream_model_update_last_detected_models";
   "upstream_model_update_last_check_time"]%string.

(** An object to serialize *)
Definition obj_wf (o : obj) : Prop := val_wf (VObj o).

Lemma obj_wf_set o k v : obj_wf o → jstr_wf (u k) → val_wf v → obj_wf (fset o k v).
Proof.
  intros Ho Hk Hv. inversion Ho as [| | | | | |o' Hok Hall|]; subst.
  constructor; [by apply obj_ok_set|by apply obj_set_Forall].
Qed.
Lemma obj_wf_del o k : obj_wf o → obj_wf (fdel o k).
Proof.
  intros Ho. inversion Ho as [| | | | | |o' Hok Hall|]; subst.
  constructor; [by apply obj_ok_del|by apply obj_del_Forall].
Qed.
Lemma obj_wf_fget o k : obj_wf o → val_wf (fget o k).
Proof.
  intros Ho. inversion Ho as [| | | | | |o' Hok Hall|]; subst. unfold fget, oget.
  destruct (obj_get o (u k)) as [v|] eqn:E; simpl.
  - rewrite Forall_forall in Hall. by apply (Hall _ (obj_get_In _ _ _ E)).
  - unfold proto_get. repeat case_bool_decide; constructor; [apply obj_ok_nil|constructor].
Qed.

Lemma txt_wf s : units_ok (u s) = true → val_wf (txt s).
Proof. intros H. constructor. by apply units_ok_wf. Qed.

Ltac set_wf :=
  repeat first [apply obj_wf_set; [|by apply units_ok_wf|] | apply obj_wf_del
               | match goal with |- obj_wf (if ?b then _ else _) => destruct b end].

Lemma type_settings_wf f o : obj_wf f → obj_wf o → obj_wf (type_settings f o).
Proof.
  intros Hf Ho. unfold type_settings, v_true. cbn zeta. set_wf; try done; try constructor;
    apply v_or_wf; try (by apply obj_wf_fget); by apply txt_wf.
Qed.

Lemma update_settings_wf f ignored o :
  Forall jstr_wf ignored → obj_wf o → obj_wf (update_settings f ignored o).
Proof.
  intros Hi Ho. unfold update_settings. cbn zeta. set_wf; try done; try apply wf_bool;
    try (by apply wf_num, of_Z_wf); apply wf_arr; try apply Forall_nil_2.
  all: apply Forall_map_2; eapply list.Forall_impl; [exact Hi|]; intros x Hx; by apply wf_str.
Qed.

(** A name in a list of names *)
Ltac listed := apply (bool_decide_eq_true_1 _); reflexivity.

Ltac set_agree :=
  repeat first [apply agree_set; [listed|] | apply agree_del; [listed|] | apply agree_refl
               | match goal with |- agree _ _ (if ?b then _ else _) => destruct b end].

Lemma type_settings_agree f o : agree managed o (type_settings f o).
Proof.
  unfold type_settings. cbn zeta.
  set_agree.
Qed.

Lemma update_settings_agree f ignored o : agree managed o (update_settings f ignored o).
Proof.
  unfold update_settings. cbn zeta.
  set_agree.
Qed.

(** Reading the fields of a parsed value: every reader is given the value of its key. *)
Lemma read_fields p (g w : jstr → val) fs data :
  (∀ k, get p k = Ok (g k)) → Forall (λ f, f.2 (g (u f.1)) = Ok (w (u f.1))) fs →
  rfold (read_field p) data fs = Ok (set_fields (map (λ f, (f.1, w (u f.1))) fs) data).
Proof.
  intros Hg H. revert data. induction H as [|f fs Hf _ IH]; intros data; [done|].
  cbn [rfold]. unfold read_field at 1. rewrite Hg. cbn [rbind]. rewrite Hf. cbn [rbind]. apply IH.
Qed.

Lemma fget_set_fields {A} (name : A → string) (w : jstr → val) fs data k :
  fget data k = w (u k) ∨ k ∈ map name fs →
  fget (set_fields (map (λ f, (name f, w (u (name f)))) fs) data) k = w (u k).
Proof.
  revert data. induction fs as [|f fs IH]; intros data Hd; [set_solver|].
  cbn. apply IH. destruct (decide (u (name f) = u k)) as [E|E].
  - left. unfold fget, fset, oget. by rewrite obj_get_set, decide_True, E.
  - destruct Hd as [Hd|[Hd|Hd]%elem_of_cons]; [left|by subst|by right].
    unfold fget, fset, oget in *. by rewrite obj_get_set, decide_False.
Qed.

(** The value of a key after serialization *)
Definition reparsed (o : obj) (k : jstr) : val :=
  match obj_get o k with
  | Some v => if unserializable v then proto_get k else json_norm v
  | None => proto_get k
  end.

Lemma reparsed_fget o k : unserializable (fget o k) = false → reparsed o (u k) = json_norm (fget o k).
Proof.
  unfold reparsed, fget, oget. destruct (obj_get o (u k)); simpl; [by intros ->|].
  unfold proto_get. by repeat case_bool_decide.
Qed.

(** How each field of [settings] is shown *)
Definition shown (o : obj) (k : jstr) : val :=
  match List.find (λ f, u f.1 =s k) settings_fields with
  | Some f => rcatch (f.2 (reparsed o k)) VUndef
  | None => VUndef
  end.

Lemma join_texts (l : list jstr) : join_comma (map VStr l) = Ok (join [44] l).
Proof.
  unfold join_comma. assert (rmapM (λ x, if is_nullish x then Ok [] else to_str x) (map VStr l) = Ok l) as ->; [|done].
  induction l as [|s l IH]; [done|]. cbn [map rmapM]. rewrite IH. done.
Qed.

Lemma json_norm_texts (l : list jstr) : json_norm (VArr (map VStr l)) = VArr (map VStr l).
Proof. cbn [json_norm]. rewrite map_map. done. Qed.

Lemma find_own : Forall (λ f, List.find (λ g, u g.1 =s u f.1) settings_fields = Some f) settings_fields.
Proof. unfold settings_fields. repeat (apply Forall_cons_2; [reflexivity|]). apply Forall_nil_2. Qed.

Lemma rcatch_ok {A} (r : res A) d : is_ok r = true → r = Ok (rcatch r d).
Proof. by destruct r. Qed.

Lemma read_saved_settings o names n data :
  obj_ok o → fget o "upstream_model_update_ignored_models" = VArr (map VStr names) →
  fget o "upstream_model_update_last_check_time" = VNum n →
  read_settings (json_norm (VObj o)) data =
  Ok (fset (set_fields (map (λ f, (f.1, shown o (u f.1))) settings_fields) data) "is_enterprise_account"
        (v_true (reparsed o (u "openrouter_enterprise")))).
Proof.
  intros Ho Hi Hn. unfold read_settings.
  rewrite (read_fields _ (reparsed o) (shown o)); [cbn [rbind]; by rewrite get_norm|intros k; by apply get_norm|].
  assert (Forall (λ f, is_ok (f.2 (reparsed o (u f.1))) = true) settings_fields) as Hok.
  { unfold settings_fields. repeat (apply Forall_cons_2; [try reflexivity|]); cbn [fst snd]; [| |apply Forall_nil_2].
    - rewrite reparsed_fget, Hn by (by rewrite Hn). cbn [json_norm]. by repeat case_match.
    - rewrite reparsed_fget, Hi by (by rewrite Hi). rewrite json_norm_texts. by rewrite join_texts. }
  apply list.Forall_forall. intros f Hf. pose proof find_own as H. rewrite list.Forall_forall in H, Hok.
  unfold shown. rewrite (H f Hf). by apply rcatch_ok, Hok.
Qed.

Lemma update_settings_fields f names o :
  let O := update_settings f names o in
  let check := is_true (fget f "upstream_model_update_check_enabled") in
  fget O "upstream_model_update_check_enabled" = VBool check ∧
  fget O "upstream_model_update_auto_sync_enabled" =
    VBool (check && is_true (fget f "upstream_model_update_auto_sync_enabled")) ∧
  fget O "upstream_model_update_ignored_models" = VArr (map VStr names) ∧
  (∃ n, fget O "upstream_model_update_last_check_time" = VNum n) ∧
  agree ["upstream_model_update_check_enabled"; "upstream_model_update_auto_sync_enabled";
         "upstream_model_update_ignored_models"; "upstream_model_update_last_detected_models";
         "upstream_model_update_last_check_time"]%string o O.
Proof.
  cbn zeta. unfold update_settings. cbn zeta.
  match goal with |- context [fset (if ?b then _ else _)] => destruct b end;
  match goal with |- context [if negb (is_num ?x) then _ else _] => destruct (is_num x) eqn:E end; cbn [negb];
  (split_and!; [by fields..| |set_agree]); try (eexists; by fields);
  match goal with E : is_num ?x = true |- _ => destruct x eqn:Ex; try discriminate E end; by eexists.
Qed.

(** What a saved form promises to show again, by the type of the channel *)
Definition saved_fields (f : obj) (names : list jstr) : list (string * val) :=
  let check := is_true (fget f "upstream_model_update_check_enabled") in
  let flags := map (λ k, (k, v_true (fget f k))) in
  ([("upstream_model_update_check_enabled", VBool check);
    ("upstream_model_update_auto_sync_enabled",
     VBool (check && is_true (fget f "upstream_model_update_auto_sync_enabled")));
    ("upstream_model_update_ignored_models", VStr (join [44] names))] ++
   (if is_type f 1 then flags ["allow_service_tier"; "disable_store"; "allow_safety_identifier"; "allow_include_obfuscation"] else []) ++
   (if is_type f 14 then flags ["allow_service_tier"; "allow_inference_geo"; "claude_beta_query"] else []) ++
   (if is_type f 20 then flags ["is_enterprise_account"] else []) ++
   (if is_type f 33 then [("aws_key_type", v_or (fget f "aws_key_type") (txt "ak_sk"))] else []) ++
   (if is_type f 41 then [("vertex_key_type", v_or (fget f "vertex_key_type") (txt "json"))] else []))%list%string.

Lemma load_settings_saved c o names n t :
  obj_wf o → fget o "upstream_model_update_ignored_models" = VArr (map VStr names) →
  fget o "upstream_model_update_last_check_time" = VNum n →
  fget c "settings" = VStr t → t = stringify_text (VObj o) →
  JSON_parse t = Ok (json_norm (VObj o)) ∧
  load_settings c =
  fset (set_fields (map (λ f, (f.1, shown o (u f.1))) settings_fields) c) "is_enterprise_account"
    (v_true (reparsed o (u "openrouter_enterprise"))).
Proof.
  intros Ho Hi Hn Hc ->. assert (JSON_parse (stringify_text (VObj o)) = Ok (json_norm (VObj o))) as Hp.
  { unfold stringify_text, stringify. rewrite ser_serializable by done.
    apply (JSON_parse_ser []); [constructor|done|by rewrite ser_serializable]. }
  split; [done|]. unfold load_settings. rewrite Hc, (JSON_text_truthy _ _ Hp).
  change (parse_text (VStr _)) with (JSON_parse (stringify_text (VObj o))). rewrite Hp. cbn [rbind].
  inversion Ho; subst. by rewrite (read_saved_settings _ names n).
Qed.

Lemma stored_settings_wf f o :
  obj_wf f → is_str (fget f "settings") = true → stored_settings f = VObj o → obj_wf o.
Proof.
  intros Hf Hs. pose proof (obj_wf_fget f "settings" Hf) as Hw. unfold stored_settings.
  assert (obj_wf []) as Hnil by (constructor; [apply obj_ok_nil|constructor]).
  destruct (fget f "settings") as [| | | |s| | |]; try done. inversion Hw; subst.
  destruct (truthy (VStr s)); [|by intros [= <-]]. change (parse_text (VStr s)) with (JSON_parse s).
  destruct (JSON_parse s) as [v|] eqn:E; simpl; [|by intros [= <-]].
  intros ->. by eapply JSON_parse_wf.
Qed.

Lemma listed_names_text s : listed_names (VStr s) = Ok (set_array (List.filter nonempty (map trim (split_on 44 s)))).
Proof. unfold listed_names. assert (to_str (or_empty (VStr s)) = Ok s) as -> by (by destruct s). done. Qed.

Lemma listed_names_wf v names : val_wf v → is_str v = true → listed_names v = Ok names → Forall jstr_wf names.
Proof.
  intros Hv Hs. destruct v as [| | | |s| | |]; try done. inversion Hv as [| | | |s' Hw| | |]; subst.
  rewrite listed_names_text. intros <-%Ok_inj. apply list.Forall_forall. intros x.
  rewrite elem_of_set_array, elem_of_filter_bool. intros [(y & -> & Hy)%list_elem_of_fmap _].
  apply jstr_wf_trim. pose proof (split_on_Forall _ 44 s Hw) as H. rewrite list.Forall_forall in H. by apply H.
Qed.

Ltac by_type H :=
  unfold type_settings; cbn zeta; rewrite ?H;
  repeat match goal with |- context [is_type ?f ?n] => destruct (is_type f n) end; cbn [orb]; by fields.

(** What the type of the channel decides *)
Lemma type_settings_1 f o k :
  is_type f 1 = true → k ∈ ["allow_service_tier"; "disable_store"; "allow_safety_identifier"; "allow_include_obfuscation"]%string →
  fget (type_settings f o) k = v_true (fget f k).
Proof.
  intros H Hk%list_elem_of_In. cbn in Hk. repeat (destruct Hk as [<-|Hk]; [by_type H|]). done.
Qed.
Lemma type_settings_14 f o k :
  is_type f 14 = true → k ∈ ["allow_service_tier"; "allow_inference_geo"; "claude_beta_query"]%string →
  fget (type_settings f o) k = v_true (fget f k).
Proof.
  intros H Hk%list_elem_of_In. cbn in Hk. repeat (destruct Hk as [<-|Hk]; [by_type H|]). done.
Qed.
Lemma type_settings_20 f o :
  is_type f 20 = true → fget (type_settings f o) "openrouter_enterprise" = v_true (fget f "is_enterprise_account").
Proof. intros H. by_type H. Qed.
Lemma type_settings_33 f o :
  is_type f 33 = true → fget (type_settings f o) "aws_key_type" = v_or (fget f "aws_key_type") (txt "ak_sk").
Proof. intros H. by_type H. Qed.
Lemma type_settings_41 f o :
  is_type f 41 = true → fget (type_settings f o) "vertex_key_type" = v_or (fget f "vertex_key_type") (txt "json").
Proof. intros H. by_type H. Qed.

Definition flag_names : list string :=
  ["allow_service_tier"; "disable_store"; "allow_safety_identifier"; "allow_include_obfuscation"; "allow_inference_geo";
   "claude_beta_query"; "upstream_model_update_check_enabled"; "upstream_model_update_auto_sync_enabled"]%string.

Lemma shown_flag o k b : k ∈ flag_names → fget o k = VBool b → shown o (u k) = VBool b.
Proof.
  intros Hk E. assert (reparsed o (u k) = VBool b) as Er by (rewrite reparsed_fget; by rewrite E).
  assert (shown o (u k) = or_false (reparsed o (u k)) ∨ shown o (u k) = v_true (reparsed o (u k))) as [->| ->].
  - apply list_elem_of_In in Hk. cbn in Hk. clear E Er.
    repeat (destruct Hk as [<-|Hk]; [first [left; reflexivity|right; reflexivity]|]). done.
  - rewrite Er. by destruct b.
  - rewrite Er. by destruct b.
Qed.

Lemma shown_text o k s :
  k ∈ ["aws_key_type"; "vertex_key_type"]%string → fget o k = VStr s → s ≠ [] → shown o (u k) = VStr s.
Proof.
  intros Hk E Hs. assert (reparsed o (u k) = VStr s) as Er by (rewrite reparsed_fget; by rewrite E).
  assert (truthy (VStr s) = true) as Ht by (by destruct s).
  apply list_elem_of_In in Hk as [<-|[<-|[]]];
    [change (v_or (reparsed o (u "aws_key_type")) (txt "ak_sk") = VStr s)
    |change (v_or (reparsed o (u "vertex_key_type")) (txt "json") = VStr s)]; rewrite Er; unfold v_or; by rewrite Ht.
Qed.

Lemma shown_names o names :
  fget o "upstream_model_update_ignored_models" = VArr (map VStr names) →
  shown o (u "upstream_model_update_ignored_models") = VStr (join [44] names).
Proof.
  intros E. assert (reparsed o (u "upstream_model_update_ignored_models") = VArr (map VStr names)) as Er
    by (rewrite reparsed_fget, E; [apply json_norm_texts|by rewrite E]).
  change (rcatch (match reparsed o (u "upstream_model_update_ignored_models") with
                  | VArr l => rmap VStr (join_comma l) | _ => Ok (VStr []) end) VUndef = VStr (join [44] names)).
  by rewrite Er, join_texts.
Qed.

Definition texts_of (f : obj) : bool :=
  forallb (λ k, is_str (fget f k)) ["settings"; "upstream_model_update_ignored_models"; "aws_key_type"; "vertex_key_type"]%string.

Lemma v_or_text v s : is_str v = true → s ≠ [] → ∃ t, v_or v (VStr s) = VStr t ∧ t ≠ [].
Proof. destruct v as [| | | |[|c t]| | |]; try done; intros _ Hs; eexists; split; try reflexivity; done. Qed.

(** A field of the saved settings, in the opened channel *)
Lemma fget_shown o c e k :
  k ∈ map fst settings_fields → bool_decide (u "is_enterprise_account" ≠ u k) = true →
  fget (fset (set_fields (map (λ f, (f.1, shown o (u f.1))) settings_fields) c) "is_enterprise_account" e) k =
  shown o (u k).
Proof. intros Hk Hne. rewrite fget_fset_ne by done. apply (fget_set_fields fst). by right. Qed.

Section saved.
Context (f o c : obj) (names : list jstr).
Let O := update_settings f names (type_settings f o).
Let opened := fset (set_fields (map (λ f, (f.1, shown O (u f.1))) settings_fields) c) "is_enterprise_account"
                (v_true (reparsed O (u "openrouter_enterprise"))).

Lemma opened_flag k b : k ∈ flag_names → fget O k = VBool b → fget opened k = VBool b.
Proof.
  intros Hk E. unfold opened. rewrite fget_shown; [by apply shown_flag| |].
  - assert (flag_names ⊆ map fst settings_fields) as H by (apply (bool_decide_eq_true_1 _); reflexivity). by apply H.
  - assert (Forall (λ k, u "is_enterprise_account" ≠ u k) flag_names) as H
      by (apply (bool_decide_eq_true_1 _); reflexivity).
    rewrite list.Forall_forall in H. apply bool_decide_eq_true. by apply H.
Qed.

Lemma kept_by_update k : bool_decide (u k ∉ map u ["upstream_model_update_check_enabled"; "upstream_model_update_auto_sync_enabled";
    "upstream_model_update_ignored_models"; "upstream_model_update_last_detected_models";
    "upstream_model_update_last_check_time"]%string) = true → fget O k = fget (type_settings f o) k.
Proof. intros Hk. eapply agree_fget; [|exact Hk]. apply update_settings_fields. Qed.

Lemma opened_flags ks :
  ks ⊆ flag_names → (∀ k, k ∈ ks → fget O k = v_true (fget f k)) →
  Forall (λ kv, fget opened kv.1 = kv.2) (map (λ k, (k, v_true (fget f k))) ks).
Proof.
  intros Hs H. apply Forall_map_2, list.Forall_forall. intros k Hk. cbn. apply opened_flag; [by apply Hs|by apply H].
Qed.

Lemma opened_saved : texts_of f = true → Forall (λ kv, fget opened kv.1 = kv.2) (saved_fields f names).
Proof.
  unfold texts_of. cbn [forallb]. rewrite !andb_true_iff. intros (_ & _ & Haws & Hvx & _).
  destruct (update_settings_fields f names (type_settings f o)) as (H1 & H2 & H3 & _). fold O in H1, H2, H3.
  unfold saved_fields. cbn zeta. rewrite !list.Forall_app. split_and!.
  - repeat apply Forall_cons_2; [by apply opened_flag; [listed|]..| |apply Forall_nil_2].
    cbn. unfold opened. rewrite fget_shown by (listed || reflexivity). by apply shown_names.
  - destruct (is_type f 1) eqn:E; [|apply Forall_nil_2]. apply opened_flags; [listed|].
    intros k Hk. rewrite kept_by_update; [by apply type_settings_1|].
    apply list_elem_of_In in Hk. cbn in Hk. repeat (destruct Hk as [<-|Hk]; [reflexivity|]). done.
  - destruct (is_type f 14) eqn:E; [|apply Forall_nil_2]. apply opened_flags; [listed|].
    intros k Hk. rewrite kept_by_update; [by apply type_settings_14|].
    apply list_elem_of_In in Hk. cbn in Hk. repeat (destruct Hk as [<-|Hk]; [reflexivity|]). done.
  - destruct (is_type f 20) eqn:E; [|apply Forall_nil_2]. apply Forall_cons_2; [|apply Forall_nil_2]. cbn.
    unfold opened. rewrite fget_fset, reparsed_fget; rewrite kept_by_update, type_settings_20 by done; [|done].
    by destruct (is_true (fget f "is_enterprise_account")) eqn:Eb; unfold v_true; rewrite Eb.
  - destruct (is_type f 33) eqn:E; [|apply Forall_nil_2]. apply Forall_cons_2; [|apply Forall_nil_2]. cbn [fst snd].
    unfold opened. rewrite fget_shown by (listed || reflexivity).
    destruct (v_or_text (fget f "aws_key_type") (u "ak_sk") Haws ltac:(done)) as (s & Es & Hs).
    unfold txt. rewrite Es. apply shown_text; [listed| |done]. by rewrite kept_by_update, type_settings_33.
  - destruct (is_type f 41) eqn:E; [|apply Forall_nil_2]. apply Forall_cons_2; [|apply Forall_nil_2]. cbn [fst snd].
    unfold opened. rewrite fget_shown by (listed || reflexivity).
    destruct (v_or_text (fget f "vertex_key_type") (u "json") Hvx ltac:(done)) as (s & Es & Hs).
    unfold txt. rewrite Es. apply shown_text; [listed| |done]. by rewrite kept_by_update, type_settings_41.
Qed.
End saved.

(** C13: the settings of a saved channel read back: the switches, the key types and the ignored
    models that the form had, and every key of the stored text that the dialog does not
    manage. *)
Theorem settings_read_back d ask confirm r c o names :
  obj_wf (formValues d) → texts_of (formValues d) = true → stored_settings (formValues d) = VObj o →
  listed_names (fget (formValues d) "upstream_model_update_ignored_models") = Ok names →
  submit d ask confirm = Ok r → sent r = Some c →
  Forall (λ kv, fget (load_settings c) kv.1 = kv.2) (saved_fields (formValues d) names) ∧
  ∃ t o', fget c "settings" = VStr t ∧ JSON_parse t = Ok (VObj o') ∧
          ∀ k, k ∉ map u managed → oget o' k = reparsed o k.
Proof.
  intros Hf Ht Ho Hn Hs Hc. set (f := formValues d) in *.
  destruct (submit_sent _ _ _ _ _ Hs Hc) as (li & l & t & m & g & _ & _ & Hl & _ & Hst & Hq). fold f in Hl.
  rewrite (settings_text_agree _ _ Hl) in Hst. unfold settings_text in Hst. rewrite Ho, Hn in Hst. cbn [rbind] in Hst.
  apply Ok_inj in Hst. symmetry in Hst.
  assert (is_str (fget f "settings") = true ∧ is_str (fget f "upstream_model_update_ignored_models") = true) as [Hx Hi]
    by (unfold texts_of in Ht; cbn [forallb] in Ht; rewrite !andb_true_iff in Ht; tauto).
  set (O := update_settings f names (type_settings f o)) in *.
  assert (obj_wf O) as HO.
  { apply update_settings_wf; [eapply listed_names_wf; [|exact Hi|exact Hn]; by apply obj_wf_fget|].
    apply type_settings_wf; [done|]. by eapply stored_settings_wf. }
  destruct (update_settings_fields f names (type_settings f o)) as (_ & _ & Hig & [n Hnum] & _).
  assert (fget c "settings" = VStr t) as Hct
    by (rewrite (agree_fget _ _ _ "settings" Hq eq_refl); apply finished_settings).
  destruct (load_settings_saved c O names n t HO Hig Hnum Hct Hst) as [Hp ->].
  split; [by apply opened_saved|]. rewrite json_norm_obj in Hp. eexists t, _. split_and!; [done|exact Hp|].
  intros k Hk. inversion HO as [| | | | | |o' Hok _|]; subst o'. unfold oget. rewrite obj_get_norm by done.
  assert (agree managed o O) as [Hag _]
    by (eapply agree_trans; [apply type_settings_agree|apply update_settings_agree]).
  rewrite Hag by done. unfold reparsed. destruct (obj_get o k) as [v|]; [|done]. by destruct (unserializable v).
Qed.

(** A form that is sent as it is *)
Definition sample_form : obj :=
  [(u "name", txt "main"); (u "type", vnum 1); (u "key", txt "sk-1"); (u "models", VArr [txt "gpt-4o"]);
   (u "groups", VArr [txt "default"]); (u "proxy", txt "socks5://p"); (u "disable_store", VBool true);
   (u "settings", VStr (uq "{'custom':1}")); (u "upstream_model_update_ignored_models", txt "m1, m2,m1");
   (u "aws_key_type", txt "ak_sk"); (u "vertex_key_type", txt "json"); (u "status_code_mapping", VStr (uq "{'504':'200'}"))].
Definition sample_dialog (id : option val) : dialog :=
  {| channelId := id; inputs := []; formValues := sample_form; batch := false; multiToSingle := false;
     multiKeyMode := txt "random"; keyMode := u "append"; isMultiKeyChannel := false; isIonetChannel := false;
     autoBan := true; useManualInput := false; vertexKeys := []; vertexFileList := []; channelSettings := [];
     initialBaseUrl := VStr []; initialModels := []; initialModelMapping := VStr [];
     initialStatusCodeMapping := VStr [] |}.
Definition sample_body (id : option val) : obj :=
  match submit (sample_dialog id) (λ _, Submit) (λ _, true) with
  | Ok r => default [] (sent r)
  | _ => []
  end.

Lemma sample_sent : submit (sample_dialog (Some (vnum 7))) (λ _, Submit) (λ _, true) = Ok (Put (sample_body (Some (vnum 7)))).
Proof. vm_compute. reflexivity. Qed.

Lemma sample_ok : obj_ok sample_form.
Proof. by apply keys_okb_ok. Qed.

Lemma sample_form_wf : obj_wf sample_form.
Proof.
  constructor; [apply sample_ok|].
  repeat (apply Forall_cons_2; [split; [by apply units_ok_wf|]|]); try apply Forall_nil_2; cbn [snd];
    repeat first [by apply txt_wf | by apply wf_num, of_Z_wf | apply wf_bool | by apply wf_str, units_ok_wf
                 | apply wf_arr | apply Forall_cons_2 | apply Forall_nil_2].
Qed.

Lemma settings_read_back_witness :
  Forall (λ kv, fget (load_settings (sample_body (Some (vnum 7)))) kv.1 = kv.2)
    (saved_fields sample_form [u "m1"; u "m2"]) ∧
  ∃ t o', fget (sample_body (Some (vnum 7))) "settings" = VStr t ∧ JSON_parse t = Ok (VObj o') ∧
          ∀ k, k ∉ map u managed → oget o' k = reparsed [(u "custom", vnum 1)] k.
Proof.
  apply (settings_read_back (sample_dialog (Some (vnum 7))) (λ _, Submit) (λ _, true)
           (Put (sample_body (Some (vnum 7))))).
  - apply sample_form_wf.
  - reflexivity.
  - vm_compute. reflexivity.
  - vm_compute. reflexivity.
  - apply sample_sent.
  - reflexivity.
Defined.

Lemma redirects_confirmed_witness :
  ∃ l, (dec 504 ++ u " -> " ++ dec 200) ∈ l ∧ (λ _ : list jstr, true) l = true.
Proof.
  apply (proj2 (redirects_confirmed (sample_dialog (Some (vnum 7))) (λ _, Submit) (λ _, true)
           (Put (sample_body (Some (vnum 7)))) (sample_body (Some (vnum 7))) sample_sent eq_refl) 504 200);
    [by left|done|..].
  - eexists _, _, _, _. split; [vm_compute; reflexivity|]. split; [vm_compute; reflexivity|].
    split; [by left|]. split; split; vm_compute; done.
  - intros (text & o & k & v & Ht & Hp & _). vm_compute in Ht. injection Ht as <-. by vm_compute in Hp.
Defined.

Lemma stored_key_kept_witness :
  obj_get (sample_body (Some (vnum 7))) (u "key") = None ∨
  ∃ s, obj_get (sample_body (Some (vnum 7))) (u "key") = Some (VStr s) ∧ trim s ≠ [].
Proof.
  apply (stored_key_kept (sample_dialog (Some (vnum 7))) (λ _, Submit) (λ _, true) (Put (sample_body (Some (vnum 7)))));
    [apply sample_ok|reflexivity|apply sample_sent|reflexivity].
Defined.

(** Without the confirmation the sample is refused. *)
Example sample_refused : submit (sample_dialog None) (λ _, Submit) (λ _, false) = Ok (Refused Declined).
Proof. vm_compute. reflexivity. Qed.

(** The text [null] that opening makes of a missing mapping, and a mapping that is not JSON *)
Example null_mapping :
  rmap (λ d, fget d "model_mapping") (load_lists [(u "models", VStr []); (u "group", VStr []); (u "model_mapping", VNull)]) =
  Ok (txt "null").
Proof. vm_compute. reflexivity. Qed.
Example broken_mapping :
  load_lists [(u "models", VStr []); (u "group", VStr []); (u "model_mapping", txt "{")] = Throw SyntaxError.
Proof. vm_compute. reflexivity. Qed.

(** ** Examples *)

(** A stored channel, opened and saved as it is *)
Definition stored_channel : obj :=
  [(u "id", vnum 7); (u "type", vnum 1); (u "name", txt "main"); (u "key", VStr []);
   (u "models", txt "gpt-4o,gpt-4.1"); (u "group", txt "default"); (u "model_mapping", VStr (uq "{'a':'gpt-4o'}"));
   (u "status_code_mapping", VStr []); (u "base_url", txt "https://x.io/"); (u "auto_ban", vnum 1);
   (u "setting", VStr (uq "{'proxy':'socks5://p','tier':3}"));
   (u "settings", VStr (uq "{'custom':1,'upstream_model_update_ignored_models':['m1','m2']}"))].

Definition closed_dialog (id : option val) : dialog :=
  {| channelId := id; inputs := []; formValues := []; batch := false; multiToSingle := false;
     multiKeyMode := txt "random"; keyMode := u "append"; isMultiKeyChannel := false; isIonetChannel := false;
     autoBan := true; useManualInput := false; vertexKeys := []; vertexFileList := []; channelSettings := [];
     initialBaseUrl := VStr []; initialModels := []; initialModelMapping := VStr [];
     initialStatusCodeMapping := VStr [] |}.

Definition resaved : res outcome :=
  let! d := loadChannel (H := plain_form) (closed_dialog (Some (vnum 7))) stored_channel in
  submit d (λ _, Cancel) (λ _, false).

Example resaved_channel :
  resaved = Ok (Put
    [(u "id", vnum 7); (u "type", vnum 1); (u "name", txt "main");
     (u "models", txt "gpt-4o,gpt-4.1"); (u "group", txt "default");
     (u "model_mapping", VStr (u "{" ++ [10] ++ uq "  'a': 'gpt-4o'" ++ [10] ++ u "}"));
     (u "status_code_mapping", VStr []); (u "base_url", txt "https://x.io"); (u "auto_ban", vnum 1);
     (u "setting", VStr (uq "{'force_format':false,'thinking_to_content':false,'proxy':'socks5://p','pass_through_body_enabled':false,'system_prompt':'','system_prompt_override':false}"));
     (u "settings", VStr (uq "{'custom':1,'upstream_model_update_ignored_models':['m1','m2'],'allow_service_tier':false,'disable_store':false,'allow_safety_identifier':false,'allow_include_obfuscation':false,'upstream_model_update_check_enabled':false,'upstream_model_update_auto_sync_enabled':false,'upstream_model_update_last_detected_models':[],'upstream_model_update_last_check_time':0}"));
     (u "groups", VArr [txt "default"]); (u "azure_responses_version", VStr []);
     (u "custom_user_header_enabled", v_false); (u "custom_user_header_key", VStr []);
     (u "param_override", VUndef); (u "key_mode", VUndef)]).
Proof. vm_compute. reflexivity. Qed.

(** An empty form is not sent. *)
Example empty_channel :
  submit (closed_dialog None) (λ _, Submit) (λ _, false) = Ok (Refused (Info "请填写渠道名称和渠道密钥！")).
Proof. vm_compute. reflexivity. Qed.

(** In batch mode every key file of a Vertex channel is sent. *)
Example vertex_batch :
  let d := {| channelId := None; inputs := []; formValues := []; batch := true; multiToSingle := false;
              multiKeyMode := txt "random"; keyMode := u "append"; isMultiKeyChannel := false; isIonetChannel := false;
              autoBan := true; useManualInput := false; vertexKeys := [VNull; VObj []]; vertexFileList := [];
              channelSettings := []; initialBaseUrl := VStr []; initialModels := []; initialModelMapping := VStr [];
              initialStatusCodeMapping := VStr [] |} in
  vertex_key d [(u "type", vnum 41)] = go [(u "type", vnum 41); (u "key", txt "[null,{}]")].
Proof. vm_compute. reflexivity. Qed.
