(* ===== verification/ChannelForm.v ===== *)
(** * The handlers of the channel dialog

    The operations of components/table/channels/modals/EditChannelModal.jsx between
    opening a channel and submitting it.  An operation that runs in a render reads the
    state of that render, [snap], and updates the state as it is by then, [d]: two
    operations called one after the other see the same [snap]. *)

From stdpp Require Import gmap.
From S2P Require Import Prelude JsString JsNumber JsValue Json Browser ParamOverrideData Tokens UpstreamUpdates Channel ChannelSave.

Local Open Scope Z_scope.

(** ** Updates of the state *)

Definition with_form (f : obj → obj) (d : dialog) : dialog :=
  {| channelId := channelId d; inputs := inputs d; formValues := f (formValues d); batch := batch d;
     multiToSingle := multiToSingle d; multiKeyMode := multiKeyMode d; keyMode := keyMode d;
     isMultiKeyChannel := isMultiKeyChannel d; isIonetChannel := isIonetChannel d; autoBan := autoBan d;
     useManualInput := useManualInput d; vertexKeys := vertexKeys d; vertexFileList := vertexFileList d;
     channelSettings := channelSettings d; initialBaseUrl := initialBaseUrl d; initialModels := initialModels d;
     initialModelMapping := initialModelMapping d; initialStatusCodeMapping := initialStatusCodeMapping d |}.

Definition setInputs (f : obj → obj) (d : dialog) : dialog :=
  {| channelId := channelId d; inputs := f (inputs d); formValues := formValues d; batch := batch d;
     multiToSingle := multiToSingle d; multiKeyMode := multiKeyMode d; keyMode := keyMode d;
     isMultiKeyChannel := isMultiKeyChannel d; isIonetChannel := isIonetChannel d; autoBan := autoBan d;
     useManualInput := useManualInput d; vertexKeys := vertexKeys d; vertexFileList := vertexFileList d;
     channelSettings := channelSettings d; initialBaseUrl := initialBaseUrl d; initialModels := initialModels d;
     initialModelMapping := initialModelMapping d; initialStatusCodeMapping := initialStatusCodeMapping d |}.

(** How the keys are entered: batch, aggregation, its mode, by hand, the files *)
Definition with_keys (b m : bool) (mode : val) (manual : bool) (ks : list val) (fs : list (option jstr)) (d : dialog) : dialog :=
  {| channelId := channelId d; inputs := inputs d; formValues := formValues d; batch := b;
     multiToSingle := m; multiKeyMode := mode; keyMode := keyMode d;
     isMultiKeyChannel := isMultiKeyChannel d; isIonetChannel := isIonetChannel d; autoBan := autoBan d;
     useManualInput := manual; vertexKeys := ks; vertexFileList := fs;
     channelSettings := channelSettings d; initialBaseUrl := initialBaseUrl d; initialModels := initialModels d;
     initialModelMapping := initialModelMapping d; initialStatusCodeMapping := initialStatusCodeMapping d |}.

Definition setChannelSettings (f : obj → obj) (d : dialog) : dialog :=
  {| channelId := channelId d; inputs := inputs d; formValues := formValues d; batch := batch d;
     multiToSingle := multiToSingle d; multiKeyMode := multiKeyMode d; keyMode := keyMode d;
     isMultiKeyChannel := isMultiKeyChannel d; isIonetChannel := isIonetChannel d; autoBan := autoBan d;
     useManualInput := useManualInput d; vertexKeys := vertexKeys d; vertexFileList := vertexFileList d;
     channelSettings := f (channelSettings d); initialBaseUrl := initialBaseUrl d; initialModels := initialModels d;
     initialModelMapping := initialModelMapping d; initialStatusCodeMapping := initialStatusCodeMapping d |}.

Definition setUseManualInput (b : bool) (d : dialog) : dialog :=
  with_keys (batch d) (multiToSingle d) (multiKeyMode d) b (vertexKeys d) (vertexFileList d) d.

(** ** The models of a type (helpers/api.js) *)

(** [k in v] *)
Definition has_in (v : val) (k : jstr) : res bool :=
  match v with
  | VObj o => Ok (obj_has o k)
  | VArr l => Ok (match array_index k with Some i => bool_decide (is_Some (l !! Z.to_nat i)) | None => false end)
  | _ => Throw TypeError
  end.

(** [getChannelModels(type)], with the module variable [channelModels] *)
Definition getChannelModels (channelModels : option val) (st : storage) (type : val) : res (val * option val) :=
  let! k := to_str type in
  let! known := match channelModels with Some v => has_in v k | None => Ok false end in
  if known : bool then
    let! v := get (default VUndef channelModels) k in Ok (v_or v (VArr []), channelModels)
  else
    match getItem st (u "channel_models") with
    | VStr ((_ :: _) as s) =>
      let! parsed := JSON_parse s in
      let! known := has_in parsed k in
      if known : bool then let! v := get parsed k in Ok (v, Some parsed) else Ok (VArr [], Some parsed)
    | _ => Ok (VArr [], channelModels)
    end.

(** ** A field of the form changes *)

Section handlers.
Context `{FormApi}.
(** [getChannelModels], as it answers now *)
Context (channel_models : val → res val).

Definition set_in_form (k : string) (v : val) (d : dialog) : dialog := with_form (form_setValue (u k) v) d.
Definition set_input (k : string) (v : val) (d : dialog) : dialog := setInputs (λ o, fset o k v) d.

(** [Array.from(new Set(value.map((m) => (m || '').trim())))] *)
Definition tidy_models (v : val) : res val :=
  match v with
  | VArr l => rmap (λ l, VArr (map VStr (set_array l))) (rmapM (λ m, trim_of (or_empty m)) l)
  | _ => Ok v
  end.

Definition type_models (value : val) : res val :=
  if strict_eq value (vnum 2) then
    Ok (VArr (map txt ["mj_imagine"; "mj_variation"; "mj_reroll"; "mj_blend"; "mj_upscale"; "mj_describe"; "mj_uploads"]%string))
  else if strict_eq value (vnum 5) then
    Ok (VArr (map txt ["swap_face"; "mj_imagine"; "mj_video"; "mj_edits"; "mj_variation"; "mj_reroll"; "mj_blend"; "mj_upscale";
                       "mj_describe"; "mj_zoom"; "mj_shorten"; "mj_modal"; "mj_inpaint"; "mj_custom_zoom";
                       "mj_high_variation"; "mj_low_variation"; "mj_pan"; "mj_uploads"]%string))
  else if strict_eq value (vnum 36) then Ok (VArr (map txt ["suno_music"; "suno_lyrics"]%string))
  else channel_models value.

Definition no_models (v : val) : res bool :=
  match v with VArr l => Ok (bool_decide (l = [])) | VStr s => Ok (bool_decide (s = [])) | VNull | VUndef => Throw TypeError | _ => Ok false end.

(** What a new type brings with it; [localModels] also becomes the list of related models. *)
Definition change_type (snap : dialog) (value : val) (d : dialog) : res dialog :=
  let! localModels := type_models value in
  let d := if strict_eq value (vnum 45) then set_input "base_url" ARK_URL d else d in
  let! none := no_models (fget (inputs snap) "models") in
  let d := if none : bool then set_input "models" localModels d else d in
  let d := setUseManualInput false d in
  Ok (if strict_eq value (vnum 57) then
        set_input "vertex_files" (VArr [])
          (set_in_form "vertex_files" (VArr [])
             (with_keys false false (txt "random") (useManualInput d) [] [] d))
      else d).

Definition isIonetLocked (d : dialog) : bool := isIonetChannel d && isEdit d.

(** [handleInputChange(name, value)]; [ok] answers the warning about [/v1]. *)
Definition handleInputChange (ok : bool) (snap : dialog) (name : string) (value : val) (d : dialog) : res dialog :=
  if isIonetLocked snap && bool_decide (name ∈ ["type"; "key"; "base_url"]%string) then Ok d else
  let d := set_in_form name value d in
  let! value := if bool_decide (name = "models"%string) then tidy_models value else Ok value in
  let! warned := if bool_decide (name = "base_url"%string)
                 then match value with VStr s => Ok (ends_with (u "/v1") s) | _ => Throw TypeError end
                 else Ok false in
  if warned : bool then Ok (if ok then set_input name value d else d) else
  let d := set_input name value d in
  if bool_decide (name = "type"%string) then change_type snap value d else Ok d.

Definition handleChannelSettingsChange (snap : dialog) (key : string) (value : val) (d : dialog) : res dialog :=
  let d := setChannelSettings (λ o, fset o key value) d in
  let d := set_input key value (set_in_form key value d) in
  handleInputChange false snap "setting" (VStr (stringify_text (VObj (fset (channelSettings snap) key value)))) d.

(** [settings[key] = value] after parsing the text of the settings *)
Definition assigned_settings (inputs : obj) (key : string) (value : val) : res jstr :=
  match stored_settings inputs with
  | VObj o => Ok (stringify_text (VObj (fset o key value)))
  | VArr l => Ok (stringify_text (VArr l))
  | _ => Throw TypeError
  end.

Definition handleChannelOtherSettingsChange (snap : dialog) (key : string) (value : val) (d : dialog) : res dialog :=
  let d := setChannelSettings (λ o, fset o key value) d in
  let d := set_input key value (set_in_form key value d) in
  let! s := assigned_settings (inputs snap) key value in
  handleInputChange false snap "settings" (VStr s) d.

(** ** Keys *)

Definition applyClipboardConfig (config : option (jstr * jstr)) (d : dialog) : dialog :=
  match config with
  | None => d
  | Some (key, url) =>
    let d := set_input "base_url" (VStr url) (set_input "key" (VStr key) d) in
    set_in_form "base_url" (VStr url) (set_in_form "key" (VStr key) d)
  end.

(** [pasteFromClipboard]; [None] where the clipboard cannot be read *)
Definition pasteFromClipboard (clipboard : option jstr) (d : dialog) : option dialog :=
  match clipboard with
  | None => None
  | Some text =>
    match parseChannelConnectionString (VStr text) with
    | Some config => Some (applyClipboardConfig (Some config) d)
    | None => None
    end
  end.

(** [formatJsonField]; the error is shown. *)
Definition formatJsonField (snap : dialog) (field : string) (d : dialog) : res dialog :=
  let! rawValue := trim_of (v_coalesce (fget (inputs snap) field) (VStr [])) in
  if rawValue =s [] then Ok d else
  match JSON_parse rawValue with
  | Ok parsed =>
    match handleInputChange false snap field (VStr (stringify2_text parsed)) d with
    | Ok d' => Ok d'
    | Throw _ => Ok d
    end
  | Throw _ => Ok d
  end.

Definition handleCodexOAuthGenerated (snap : dialog) (key : jstr) (d : dialog) : res dialog :=
  let! d := handleInputChange false snap "key" (VStr key) d in
  formatJsonField snap "key" d.

(** The lines of a text of keys, trimmed, each once: the loop with its set *)
Definition dedup_step (acc : list jstr * list jstr) (line : jstr) : list jstr * list jstr :=
  let trimmed := trim line in
  if nonempty trimmed && negb (bool_decide (trimmed ∈ acc.1)) then (trimmed :: acc.1, acc.2 ++ [trimmed]) else acc.
Definition deduplicated (key : jstr) : list jstr := (fold_left dedup_step (split_on 10 key) ([], [])).2.

(** [deduplicateKeys]: the new state and the two counts, or the notice that there is no key *)
Definition deduplicateKeys (snap : dialog) (d : dialog) : res (option (dialog * nat * nat)) :=
  let currentKey := v_or (v_or (fget (formValues snap) "key") (fget (inputs snap) "key")) (VStr []) in
  match currentKey with
  | VStr s =>
    if trim s =s [] then Ok None else
    let keyLines := split_on 10 s in
    let text := VStr (join [10] (deduplicated s)) in
    let! d := handleInputChange false snap "key" text (set_in_form "key" text d) in
    Ok (Some (d, length keyLines, length (deduplicated s)))
  | _ => Throw TypeError
  end.

(** The files of a Vertex channel: each is read, those that are not JSON are named. *)
Definition read_files (files : list (jstr * option jstr)) : list (val * option jstr) * list jstr :=
  fold_left (λ acc f,
    match f.2 with
    | None => acc
    | Some s =>
      match JSON_parse s with
      | Ok key => (acc.1 ++ [(key, Some s)], acc.2)
      | Throw _ => (acc.1, if bool_decide (f.1 ∈ acc.2) then acc.2 else acc.2 ++ [f.1])
      end
    end) files ([], []).

Definition handleVertexUploadChange (snap : dialog) (files : list (jstr * option jstr)) (d : dialog) : dialog * list jstr :=
  let (valid, errorNames) := read_files files in
  let valid := if negb (batch snap) && (1 <? length valid)%nat
               then match last valid with Some x => [x] | None => [] end else valid in
  let items := VArr (map (λ x, match x.2 with Some s => VStr s | None => VUndef end) valid) in
  let d := with_keys (batch d) (multiToSingle d) (multiKeyMode d) (useManualInput d) (map fst valid) (map snd valid) d in
  (set_input "vertex_files" items (set_in_form "vertex_files" items d), errorNames).

(** The switch of the custom header, and its field *)
Definition toggle_custom_header (snap : dialog) (v : bool) (d : dialog) : res dialog :=
  let! d := handleInputChange false snap "custom_user_header_enabled" (VBool v) d in
  let! d := handleChannelOtherSettingsChange snap "custom_user_header_enabled" (VBool v) d in
  if v then Ok d else
  let! d := handleInputChange false snap "custom_user_header_key" (VStr []) d in
  handleChannelOtherSettingsChange snap "custom_user_header_key" (VStr []) d.

(** The type of the key of a Vertex channel *)
Definition change_vertex_key_type (snap : dialog) (value : val) (d : dialog) : res dialog :=
  let! d := handleChannelOtherSettingsChange snap "vertex_key_type" value d in
  Ok (if is_text value (u "api_key")
      then set_in_form "vertex_files" (VArr []) (with_keys false (multiToSingle d) (multiKeyMode d) false [] [] d)
      else d).

(** The box of batch creation; [ok] answers whether only the first file is kept. *)
Definition toggle_batch (ok : bool) (snap : dialog) (checked : bool) (d : dialog) : res dialog :=
  if negb checked && (1 <? length (vertexFileList snap))%nat then
    if ok then
      let firstKey := match vertexKeys snap with k :: _ => if truthy k then [k] else [] | [] => [] end in
      let firstFile := take 1 (vertexFileList snap) in
      let item := VArr (map (λ x, match x with Some s => VStr s | None => VUndef end) firstFile) in
      Ok (with_keys false false (txt "random") (useManualInput d) firstKey firstFile
            (set_input "vertex_files" item (set_in_form "vertex_files" item d)))
    else Ok (with_keys true (multiToSingle d) (multiKeyMode d) (useManualInput d) (vertexKeys d) (vertexFileList d) d)
  else if negb checked then
    Ok (with_keys false false (txt "random") (useManualInput d) (vertexKeys d) (vertexFileList d) d)
  else
    let d := with_keys true (multiToSingle d) (multiKeyMode d) false (vertexKeys d) (vertexFileList d) d in
    if is_type (inputs snap) 41 then handleInputChange false snap "key" (VStr []) (set_in_form "key" (VStr []) d) else Ok d.

(** The aggregation of several keys into one channel *)
Definition toggle_multi (snap : dialog) (d : dialog) : dialog :=
  let next := negb (multiToSingle d) in
  let d := setInputs (λ o, if next then fset o "multi_key_mode" (multiKeyMode snap) else fdel o "multi_key_mode") d in
  with_keys (batch d) next (multiKeyMode d) (useManualInput d) (vertexKeys d) (vertexFileList d) d.

(** ** Models *)

(** [redirectModelList] *)
Definition redirectModelList (inputs : obj) : list jstr :=
  match fget inputs "model_mapping" with
  | VStr s =>
    if trim s =s [] then [] else
    match JSON_parse (trim s) with
    | Ok (VObj o) => set_array (List.filter nonempty (map (λ kv, match kv.2 with VStr v => trim v | _ => [] end) o))
    | _ => []
    end
  | _ => []
  end.

(** [upstreamDetectedModels], their preview and the number left out *)
Definition upstreamDetectedModels (inputs : obj) : res (list jstr) :=
  match v_or (fget inputs "upstream_model_update_last_detected_models") (VArr []) with
  | VArr l => rmap (λ l, set_array (List.filter nonempty (map trim l))) (rmapM (λ m, to_str (or_empty m)) l)
  | _ => Throw TypeError
  end.
Definition UPSTREAM_DETECTED_MODEL_PREVIEW_LIMIT : nat := 8.
Definition detected_preview (l : list jstr) : list jstr * Z :=
  let shown := take UPSTREAM_DETECTED_MODEL_PREVIEW_LIMIT l in
  (shown, Z.of_nat (length l) - Z.of_nat (length shown)).

(** The loop of [addCustomModels]: the models, and those that are new *)
Definition add_model (acc : list val * list jstr) (model : jstr) : list val * list jstr :=
  if nonempty model && negb (existsb (λ m, is_text m model) acc.1) then (acc.1 ++ [VStr model], acc.2 ++ [model]) else acc.

Definition addCustomModels (snap : dialog) (customModel : jstr) (d : dialog) : res (option (dialog * list jstr)) :=
  if trim customModel =s [] then Ok None else
  match fget (inputs snap) "models" with
  | VArr l =>
    let (localModels, addedModels) := fold_left add_model (map trim (split_on 44 customModel)) (l, []) in
    let! d := handleInputChange false snap "models" (VArr localModels) d in
    Ok (Some (d, addedModels))
  | _ => Throw TypeError
  end.

(** A group of models is added to those of the form. *)
Definition group_items (group : val) : list val :=
  match get_opt group (u "items") with
  | VArr l => l
  | VStr s => match JSON_parse (if s =s [] then u "[]" else s) with Ok (VArr l) => l | _ => [] end
  | _ => []
  end.
Definition apply_group (snap : dialog) (group : val) (d : dialog) : res dialog :=
  match v_or (v_or (fget (formValues snap) "models") (fget (inputs snap) "models")) (VArr []) with
  | VArr current =>
    let! names := rmapM (λ m, trim_of (or_empty m)) (current ++ group_items group) in
    handleInputChange false snap "models" (VArr (map VStr (set_array (List.filter nonempty names)))) d
  | _ => Throw TypeError
  end.

(** The answer of the provider: its models, each once *)
Definition fetched_models (snap : dialog) (answer : option (list jstr)) : option (list jstr) :=
  if negb (isEdit snap) && negb (truthy (fget (inputs snap) "key")) then None else option_map set_array answer.

(** A model is chosen for a key of the mapping. *)
Definition choose_mapped (snap : dialog) (key : jstr) (selected : jstr) (d : dialog) : res (option dialog) :=
  if trim selected =s [] then Ok None
  else if trim key =s [] then Ok (Some d)
  else
    let parsed := match fget (inputs snap) "model_mapping" with
                  | VStr s => if trim s =s [] then VObj [] else rcatch (JSON_parse s) (VObj [])
                  | v => v
                  end in
    let o := match parsed with VObj o => o | _ => [] end in
    let next := VStr (stringify2_text (VObj (obj_set o (trim key) (VStr (trim selected))))) in
    let! d := handleInputChange false snap "model_mapping" next d in
    Ok (Some (set_in_form "model_mapping" next d)).

(** ** The parameter override *)

Definition PARAM_OVERRIDE_LEGACY_TEMPLATE : obj := [(u "temperature", vnum 0)].
Definition PARAM_OVERRIDE_OPERATIONS : list val :=
  [lit [("path", str "temperature"); ("mode", str "set"); ("value", VNum (Number (u "0.7")));
        ("conditions", VArr [cond_lit "model" "prefix" "openai/"]); ("logic", str "AND")]%string].

Definition override_text (inputs : obj) : jstr := match fget inputs "param_override" with VStr s => trim s | _ => [] end.

(** [parseParamOverrideInput]: [None] where the text is not JSON *)
Definition parseParamOverrideInput (inputs : obj) : option val :=
  let raw := override_text inputs in
  if raw =s [] then Some VNull else match JSON_parse raw with Ok v => Some v | Throw _ => None end.

Definition operations_of (v : val) : option (list val) :=
  match v with VObj o => match fget o "operations" with VArr l => Some l | _ => None end | _ => None end.

Inductive template_type := Legacy | Operations.
Inductive apply_mode := Fill | Append.

Definition template_text (type : template_type) (mode : apply_mode) (current : val) : jstr :=
  match type, mode with
  | Legacy, Fill => stringify2_text (VObj PARAM_OVERRIDE_LEGACY_TEMPLATE)
  | Legacy, Append =>
    let legacy := match current, operations_of current with VObj o, None => o | _, _ => [] end in
    stringify2_text (VObj (obj_extend PARAM_OVERRIDE_LEGACY_TEMPLATE legacy))
  | Operations, Fill => stringify2_text (VObj [(u "operations", VArr PARAM_OVERRIDE_OPERATIONS)])
  | Operations, Append =>
    stringify2_text (VObj [(u "operations", VArr (default [] (operations_of current) ++ PARAM_OVERRIDE_OPERATIONS))])
  end.

(** [applyParamOverrideTemplate]; the error is shown. *)
Definition applyParamOverrideTemplate (type : template_type) (mode : apply_mode) (snap d : dialog) : dialog :=
  match parseParamOverrideInput (inputs snap) with
  | None => d
  | Some current =>
    match handleInputChange false snap "param_override" (VStr (template_text type mode current)) d with
    | Ok d' => d'
    | Throw _ => d
    end
  end.

Definition clearParamOverride (snap d : dialog) : res dialog := handleInputChange false snap "param_override" (VStr []) d.

(** The text that [copyParamOverrideJson] copies *)
Definition copied_override (inputs : obj) : option jstr :=
  let raw := override_text inputs in
  if raw =s [] then None
  else Some (match JSON_parse raw with Ok v => stringify2_text v | Throw _ => raw end).

(** [paramOverrideMeta]: the label, its count and colour, and the preview *)
Inductive override_label := Unchanged | Malformed | NewFormat (operations : nat) | OldFormat (keys : nat) | CustomJson.
Definition paramOverrideMeta (inputs : obj) : override_label * jstr :=
  let raw := override_text inputs in
  if raw =s [] then (Unchanged, u "此项可选，用于覆盖请求参数。不支持覆盖 stream 参数")
  else match JSON_parse raw with
       | Throw _ => (Malformed, raw)
       | Ok parsed =>
         (match operations_of parsed, parsed with
          | Some l, _ => NewFormat (length l)
          | None, VObj o => OldFormat (length o)
          | None, _ => CustomJson
          end, stringify2_text parsed)
       end.

End handlers.

(** ** The prompt for a key *)

Definition type2secretPrompt (type : val) : string :=
  let case n := strict_eq type (vnum n) in
  if case 15 then "按照如下格式输入：APIKey|SecretKey"
  else if case 18 then "按照如下格式输入：APPID|APISecret|APIKey"
  else if case 22 then "按照如下格式输入：APIKey-AppId，例如：fastgpt-0sp2gtvfdgyi4k30jwlgwf1i-64f335d84283f05518e9e041"
  else if case 23 then "按照如下格式输入：AppId|SecretId|SecretKey"
  else if case 33 then "按照如下格式输入：Ak|Sk|Region"
  else if case 45 then "请输入渠道对应的鉴权密钥, 豆包语音输入：AppId|AccessToken"
  else if case 50 then "按照如下格式输入: AccessKey|SecretKey, 如果上游是Aggre API，则直接输ApiKey"
  else if case 51 then "按照如下格式输入: AccessKey|SecretAccessKey"
  else if case 57 then "请输入 JSON 格式的 OAuth 凭据（必须包含 access_token 和 account_id）"
  else "请输入渠道对应的鉴权密钥".

(** ** Theorems *)

(** *** Keys *)

Lemma dedup_step_fold lines seen out :
  (∀ x, x ∈ seen ↔ x ∈ out) →
  (fold_left dedup_step lines (seen, out)).2 = out ++ dedup_acc seen (List.filter nonempty (map trim lines)).
Proof.
  revert seen out. induction lines as [|l lines IH]; intros seen out Hs; simpl; [by rewrite app_nil_r|].
  unfold dedup_step at 2. cbn [fst snd]. destruct (nonempty (trim l)) eqn:E; cbn [andb].
  - cbn [dedup_acc]. case_bool_decide as Hin; cbn [negb].
    + rewrite IH by done. by rewrite decide_True.
    + rewrite IH; [|set_solver]. rewrite decide_False by done. by rewrite <- app_assoc.
  - by rewrite IH.
Qed.

Lemma deduplicated_eq key : deduplicated key = set_array (List.filter nonempty (map trim (split_on 10 key))).
Proof. unfold deduplicated. by rewrite dedup_step_fold. Qed.

Lemma trim_elem x s : x ∈ trim s → x ∈ s.
Proof.
  assert (∀ s, x ∈ trim_start s → x ∈ s) as H.
  { intros l Hl. destruct (trim_start_app l) as (w & E & _). rewrite E. set_solver. }
  unfold trim, trim_end. intros Hx. apply H. rewrite list_elem_of_In, <- in_rev, <- list_elem_of_In in Hx.
  apply H in Hx. by rewrite list_elem_of_In, <- in_rev, <- list_elem_of_In in Hx.
Qed.

Lemma kept_lines l k : k ∈ List.filter nonempty (map trim l) ↔ k ≠ [] ∧ ∃ line, line ∈ l ∧ k = trim line.
Proof.
  rewrite elem_of_filter_bool, list_elem_of_fmap. unfold nonempty. rewrite negb_true_iff, bool_decide_eq_false. naive_solver.
Qed.

(** The keys that are kept are exactly the trimmed lines that are not blank, each once, and
    doing it again changes nothing. *)
Theorem deduplicated_exact key :
  NoDup (deduplicated key) ∧
  (∀ k, k ∈ deduplicated key ↔ k ≠ [] ∧ ∃ line, line ∈ split_on 10 key ∧ k = trim line) ∧
  deduplicated (join [10] (deduplicated key)) = deduplicated key.
Proof.
  assert (Hk : ∀ k, k ∈ deduplicated key ↔ k ≠ [] ∧ ∃ line, line ∈ split_on 10 key ∧ k = trim line)
    by (intros k; by rewrite deduplicated_eq, elem_of_set_array, kept_lines).
  assert (Hn : NoDup (deduplicated key)) by (rewrite deduplicated_eq; apply NoDup_set_array).
  split_and!; [done..|]. destruct (decide (deduplicated key = [])) as [->|Hne]; [reflexivity|].
  rewrite (deduplicated_eq (join _ _)), split_join; [|done|].
  - rewrite (map_ext_in _ id), map_id.
    + rewrite filter_all; [by apply set_array_id|]. apply list.Forall_forall. intros k [Hk' _]%Hk.
      unfold nonempty. by apply negb_true_iff, bool_decide_eq_false.
    + intros k (_ & line & _ & ->)%list_elem_of_In%Hk. apply trim_idem.
  - apply list.Forall_forall. intros k (_ & line & Hl & ->)%Hk Hc%trim_elem.
    pose proof (split_on_free_of 10 key) as Hf. rewrite list.Forall_forall in Hf. by apply (Hf line).
Qed.

Section theorems.
Context `{FormApi} (channel_models : val → res val).

Abbreviation change := (handleInputChange channel_models).

(** A field that is neither locked nor special *)
Definition ordinary (name : string) : bool := bool_decide (name ∉ ["type"; "key"; "base_url"; "models"]%string).

Lemma change_ordinary snap ok name v d :
  ordinary name = true → change ok snap name v d = Ok (set_input name v (set_in_form name v d)).
Proof.
  unfold ordinary. rewrite bool_decide_eq_true. intros Hn. unfold handleInputChange.
  rewrite (bool_decide_false (name ∈ _)) by set_solver. rewrite andb_false_r.
  rewrite !bool_decide_false by set_solver. done.
Qed.

Lemma change_key snap ok v d :
  isIonetLocked snap = false → change ok snap "key" v d = Ok (set_input "key" v (set_in_form "key" v d)).
Proof. intros Hl. unfold handleInputChange. by rewrite Hl. Qed.

(** A channel that belongs to a deployment keeps its type, key and address. *)
Theorem locked_channel ok snap name v d :
  isIonetLocked snap = true → name ∈ ["type"; "key"; "base_url"]%string → change ok snap name v d = Ok d.
Proof. intros Hl Hn. unfold handleInputChange. by rewrite Hl, bool_decide_true. Qed.

(** The warning about an address that ends in [/v1] is asked too late: after it is declined
    the form, which is what is sent, holds the address; only the fields of the dialog do
    not. *)
Theorem declined_address_stays snap s d :
  isIonetLocked snap = false → ends_with (u "/v1") s = true →
  ∃ d', change false snap "base_url" (VStr s) d = Ok d' ∧ inputs d' = inputs d ∧
        formValues d' = form_setValue (u "base_url") (VStr s) (formValues d).
Proof.
  intros Hl Hs. unfold handleInputChange. rewrite Hl. cbn [andb].
  rewrite (bool_decide_false ("base_url"%string = "models"%string)), (bool_decide_true ("base_url"%string = "base_url"%string)) by done.
  cbn [rbind]. rewrite Hs. cbn [rbind]. by eexists.
Qed.

(** A new credential is lost where the dialog holds one already: formatting the field reads
    the key of the last render and writes it back. *)
Theorem generated_credential_lost d key old v :
  isIonetLocked d = false → fget (inputs d) "key" = VStr old → JSON_parse (trim old) = Ok v →
  ∃ d', handleCodexOAuthGenerated channel_models d key d = Ok d' ∧ fget (inputs d') "key" = VStr (stringify2_text v).
Proof.
  intros Hl Ho Hp. unfold handleCodexOAuthGenerated. rewrite change_key by done. cbn [rbind].
  unfold formatJsonField. rewrite Ho. change (trim_of _) with (Ok (trim old)). cbn [rbind].
  assert (trim old ≠ []) as Hne by (intros E; rewrite E in Hp; apply JSON_parse_nonblank in Hp; by apply Hp).
  rewrite bool_decide_false by done. rewrite Hp, change_key by done. eexists. split; [done|]. apply fget_fset.
Qed.

(** and taken where there is none. *)
Theorem generated_credential_taken d key :
  isIonetLocked d = false → fget (inputs d) "key" = VStr [] →
  ∃ d', handleCodexOAuthGenerated channel_models d key d = Ok d' ∧ fget (inputs d') "key" = VStr key.
Proof.
  intros Hl Ho. unfold handleCodexOAuthGenerated. rewrite change_key by done. cbn [rbind].
  unfold formatJsonField. rewrite Ho. eexists. split; [reflexivity|]. apply fget_fset.
Qed.

Lemma other_change snap key v d o :
  stored_settings (inputs snap) = VObj o → ordinary key = true →
  ∃ d', handleChannelOtherSettingsChange channel_models snap key v d = Ok d' ∧
        fget (inputs d') "settings" = VStr (stringify_text (VObj (fset o key v))) ∧
        (bool_decide (u "settings" ≠ u key) = true → fget (inputs d') key = v).
Proof.
  intros Ho Hk. unfold handleChannelOtherSettingsChange, assigned_settings. rewrite Ho. cbn [rbind].
  rewrite change_ordinary by reflexivity. eexists. split; [done|]. split; [apply fget_fset|].
  intros Hne. cbn [inputs set_input setInputs]. rewrite fget_fset_ne by done. apply fget_fset.
Qed.

Lemma parse_settings o : obj_wf o → JSON_parse (stringify_text (VObj o)) = Ok (json_norm (VObj o)).
Proof.
  intros Ho. unfold stringify_text, stringify. rewrite ser_serializable by done.
  apply (JSON_parse_ser []); [constructor|done|by rewrite ser_serializable].
Qed.

(** Changing one of the settings kept as JSON changes that key of the text and no other. *)
Theorem other_setting_exact snap key v d o :
  stored_settings (inputs snap) = VObj o → ordinary key = true → obj_wf o → jstr_wf (u key) → val_wf v →
  ∃ d' t o', handleChannelOtherSettingsChange channel_models snap key v d = Ok d' ∧
    fget (inputs d') "settings" = VStr t ∧ JSON_parse t = Ok (VObj o') ∧
    (∀ k, k ≠ u key → oget o' k = reparsed o k) ∧
    (unserializable v = false → fget o' key = json_norm v).
Proof.
  intros Hs Hk Ho Hu Hv. destruct (other_change snap key v d o Hs Hk) as (d' & Hd & Ht & _).
  assert (obj_wf (fset o key v)) as Hw by (by apply obj_wf_set).
  pose proof (parse_settings _ Hw) as Hp. rewrite json_norm_obj in Hp. inversion Hw as [| | | | | |o' Hok _|]; subst o'.
  exists d'. eexists _, _. split_and!; [done|exact Ht|exact Hp| |].
  - intros k Hne. unfold oget. rewrite obj_get_norm by done. unfold fset. rewrite obj_get_set, decide_False by done.
    unfold reparsed. destruct (obj_get o k) as [w|]; [|done]. by destruct (unserializable w).
  - intros Hun. unfold fget, oget. rewrite obj_get_norm by done. unfold fset.
    rewrite obj_get_set, decide_True by done. by rewrite Hun.
Qed.

(** Switching the custom header off leaves it on in what is stored: the second change of the
    settings starts from the text before the first. *)
Theorem switched_off_stays_on d o b :
  stored_settings (inputs d) = VObj o → obj_wf o → fget o "custom_user_header_enabled" = VBool b →
  ∃ d' t o', toggle_custom_header channel_models d false d = Ok d' ∧
    fget (inputs d') "settings" = VStr t ∧ JSON_parse t = Ok (VObj o') ∧
    fget o' "custom_user_header_enabled" = VBool b ∧ fget o' "custom_user_header_key" = VStr [].
Proof.
  intros Hs Ho Hb. unfold toggle_custom_header. rewrite change_ordinary by reflexivity. cbn [rbind].
  match goal with |- context [handleChannelOtherSettingsChange _ _ _ _ ?d1] =>
    destruct (other_change d "custom_user_header_enabled" (VBool false) d1 o Hs eq_refl) as (d2 & -> & _) end.
  cbn [rbind]. rewrite change_ordinary by reflexivity. cbn [rbind].
  match goal with |- context [handleChannelOtherSettingsChange _ _ _ _ ?d1] =>
    destruct (other_setting_exact d "custom_user_header_key" (VStr []) d1 o Hs eq_refl Ho) as (d3 & t & o' & Hd & Ht & Hp & Hk & Hv) end;
    [by apply units_ok_wf|by apply wf_str, Forall_nil_2|].
  exists d3, t, o'. split_and!; [done..| |by apply Hv].
  unfold fget in *. rewrite Hk by (by apply (bool_decide_eq_true_1 _)).
  change (oget o (u "custom_user_header_enabled")) with (fget o "custom_user_header_enabled") in Hb.
  rewrite reparsed_fget; by rewrite Hb.
Qed.
End theorems.

(** *** Models *)

#[global] Instance VStr_inj : Inj (=) (=) VStr.
Proof. by intros ?? [= ->]. Qed.

Lemma is_text_texts (added : list jstr) m : existsb (λ v, is_text v m) (map VStr added) = bool_decide (m ∈ added).
Proof.
  induction added as [|a added IH]; [done|]. cbn [map existsb]. rewrite IH.
  unfold is_text. repeat case_bool_decide; set_solver.
Qed.

Lemma dedup_acc_ext {A} `{EqDecision A} (s s' l : list A) : (∀ x, x ∈ s ↔ x ∈ s') → dedup_acc s l = dedup_acc s' l.
Proof.
  revert s s'. induction l as [|x l IH]; intros s s' Hs; [done|]. cbn [dedup_acc].
  destruct (decide (x ∈ s)), (decide (x ∈ s')); [auto|naive_solver..|]. f_equal. apply IH. set_solver.
Qed.

(** The names that are added: those that are not blank and not there yet *)
Definition new_models (l : list val) (names : list jstr) : list jstr :=
  List.filter (λ m, nonempty m && negb (existsb (λ v, is_text v m) l)) names.

Lemma add_model_fold names l added :
  fold_left add_model names (l ++ map VStr added, added) =
  (l ++ map VStr (added ++ dedup_acc added (new_models l names)), added ++ dedup_acc added (new_models l names)).
Proof.
  revert added. induction names as [|m names IH]; intros added; [by rewrite app_nil_r|].
  cbn [fold_left]. unfold add_model at 2. cbn [fst snd]. rewrite existsb_app, is_text_texts.
  unfold new_models. cbn [List.filter]. fold (new_models l names).
  destruct (nonempty m); cbn [andb]; [|apply IH].
  destruct (existsb _ l); cbn [orb negb]; [apply IH|]. cbn [dedup_acc].
  case_bool_decide as Hin; cbn [negb]; [rewrite decide_True by done; apply IH|].
  rewrite decide_False by done. rewrite <- app_assoc. change [VStr m] with (map VStr [m]).
  rewrite <- map_app, IH, (dedup_acc_ext (added ++ [m]) (m :: added)) by set_solver.
  by rewrite <- app_assoc.
Qed.

Lemma tidy_texts l : Forall (λ m, ∃ s, m = VStr s ∧ trim s = s) l → NoDup l → tidy_models (VArr l) = Ok (VArr l).
Proof.
  intros Hl Hn. cbn [tidy_models].
  assert (∃ ns, l = map VStr ns ∧ Forall (λ s, trim s = s) ns) as (ns & -> & Ht).
  { induction Hl as [|m l (s & -> & Hs) _ IH]; [by exists []|]. inversion Hn; subst.
    destruct IH as (ns & -> & H'); [done|]. exists (s :: ns). split; [done|by constructor]. }
  assert (rmapM (λ m, trim_of (or_empty m)) (map VStr ns) = Ok ns) as ->.
  { clear Hl Hn. induction Ht as [|s ns Hs _ IH]; [done|]. cbn [map rmapM]. rewrite IH.
    assert (trim_of (or_empty (VStr s)) = Ok s) as -> by (destruct s; [done|]; cbn; by f_equal). done. }
  cbn [rmap]. rewrite set_array_id; [done|]. eapply NoDup_fmap_1. exact Hn.
Qed.

(** The custom models are added after the models of the channel: each name of the text that
    is not blank and not there yet, once, in its order. *)
Theorem custom_models_added `{FormApi} (cm : val → res val) snap text d l :
  trim text ≠ [] → fget (inputs snap) "models" = VArr l →
  Forall (λ m, ∃ s, m = VStr s ∧ trim s = s) l → NoDup l →
  let new := set_array (new_models l (map trim (split_on 44 text))) in
  ∃ d', addCustomModels cm snap text d = Ok (Some (d', new)) ∧ fget (inputs d') "models" = VArr (l ++ map VStr new).
Proof.
  intros Ht Hl Htr Hn new. unfold addCustomModels. rewrite bool_decide_false by done. rewrite Hl.
  pose proof (add_model_fold (map trim (split_on 44 text)) l []) as E. cbn [map app] in E. rewrite app_nil_r in E.
  fold (set_array (new_models l (map trim (split_on 44 text)))) in E. fold new in E. rewrite E.
  assert (tidy_models (VArr (l ++ map VStr new)) = Ok (VArr (l ++ map VStr new))) as Et.
  { apply tidy_texts.
    - apply list.Forall_app. split; [done|]. apply Forall_map_2, list.Forall_forall. intros m Hm. exists m. split; [done|].
      unfold new in Hm. rewrite elem_of_set_array in Hm. unfold new_models in Hm. rewrite elem_of_filter_bool in Hm.
      destruct Hm as [(x & -> & _)%list_elem_of_fmap _]. apply trim_idem.
    - apply NoDup_app. split_and!; [done| |apply (NoDup_fmap_2 VStr), NoDup_set_array].
      intros v Hv (m & -> & Hm)%list_elem_of_fmap. unfold new in Hm. rewrite elem_of_set_array in Hm.
      unfold new_models in Hm. rewrite elem_of_filter_bool, andb_true_iff, negb_true_iff in Hm. destruct Hm as (_ & _ & Hm).
      assert (existsb (λ v, is_text v m) l = true); [|congruence].
      apply existsb_exists. exists (VStr m). split; [by apply list_elem_of_In|]. cbn. by apply bool_decide_eq_true. }
  unfold handleInputChange.
  rewrite (bool_decide_false ("models"%string ∈ _)), andb_false_r by set_solver.
  rewrite (bool_decide_true ("models"%string = "models"%string)) by done. rewrite Et. cbn [rbind].
  rewrite !bool_decide_false by done. cbn [rbind]. eexists. split; [done|]. apply fget_fset.
Qed.

(** *** The parameter override *)

(** Appending the template keeps the operations there are, in their order, before it. *)
Theorem template_appended current ops :
  operations_of current = Some ops → Forall json_data ops →
  JSON_parse (template_text Operations Append current) =
  Ok (VObj [(u "operations", VArr (ops ++ PARAM_OVERRIDE_OPERATIONS))]).
Proof.
  intros Ho Hd. cbn [template_text]. rewrite Ho. cbn [default from_option id].
  apply (JSON_parse_stringify indent2); [apply indent2_ws|]. apply jd_obj; [by apply keys_okb_ok|].
  apply Forall_cons_2; [|apply Forall_nil_2]. split; [by apply units_ok_wf|]. apply jd_arr.
  apply list.Forall_app. split; [done|]. apply Forall_cons_2; [|apply Forall_nil_2].
  apply jd_obj; [by apply keys_okb_ok|].
  repeat (apply Forall_cons_2; [split; [by apply units_ok_wf|]|]); try apply Forall_nil_2; cbn [snd];
    try by apply jd_str, units_ok_wf.
  - apply jd_num; [apply Number_wf|reflexivity..].
  - apply jd_arr, Forall_cons_2; [|apply Forall_nil_2]. apply jd_obj; [by apply keys_okb_ok|].
    repeat (apply Forall_cons_2; [split; [by apply units_ok_wf|by apply jd_str, units_ok_wf]|]). apply Forall_nil_2.
Qed.

(** *** The models of a type *)

(** A type whose list is [null] reads as no models only once the lists are in memory: the
    first call, which reads them from the storage, answers [null]. *)
Example null_models :
  let st : storage := {[ u "channel_models" := uq "{'8':null}" ]} in
  getChannelModels None st (vnum 8) = Ok (VNull, Some (VObj [(u "8", VNull)])) ∧
  getChannelModels (Some (VObj [(u "8", VNull)])) st (vnum 8) = Ok (VArr [], Some (VObj [(u "8", VNull)])).
Proof. split; vm_compute; reflexivity. Qed.

(** ** Examples *)

Definition no_lists (_ : val) : res val := Ok (VArr []).

Definition header_dialog : dialog :=
  setInputs (λ _, [(u "settings", VStr (uq "{'custom_user_header_enabled':true,'custom_user_header_key':'X-User'}"))])
    (closed_dialog (Some (vnum 7))).
Example header_stays_on :
  rmap (λ d, fget (inputs d) "settings") (toggle_custom_header (H := plain_form) no_lists header_dialog false header_dialog) =
  Ok (VStr (uq "{'custom_user_header_enabled':true,'custom_user_header_key':''}")).
Proof. vm_compute. reflexivity. Qed.

(** A declined address is sent. *)
Definition address_sent : res (option val) :=
  let! d := handleInputChange (H := plain_form) no_lists false (sample_dialog None) "base_url" (txt "https://x.io/v1")
              (sample_dialog None) in
  let! r := submit d (λ _, Submit) (λ _, true) in
  Ok (option_map (λ c, fget c "base_url") (sent r)).
Example declined_address_sent : address_sent = Ok (Some (txt "https://x.io/v1")).
Proof. vm_compute. reflexivity. Qed.

Example deduplicated_keys :
  deduplicated (u "sk-1 " ++ [10] ++ u "sk-2" ++ [10; 10] ++ u "sk-1") = [u "sk-1"; u "sk-2"].
Proof. vm_compute. reflexivity. Qed.

Example redirect_targets :
  redirectModelList [(u "model_mapping", VStr (uq "{'a':' x ','b':'x','c':1,'d':'y'}"))] = [u "x"; u "y"].
Proof. vm_compute. reflexivity. Qed.
