(* ===== verification/JsonEditor.v ===== *)
(** * The editor of key-value texts (components/common/ui/JSONEditor.jsx)

    A JSON object, kept as a text by the parent, is edited as a list of pairs or by hand.
    The component keeps its own list of pairs and its own text; two effects follow the
    value of the parent.  Ids of pairs are the numbers of the counter that makes them.
    A handler returns the new state and what it hands to [onChange], if it does. *)

From S2P Require Import Prelude JsString JsNumber JsValue Json.

Local Open Scope Z_scope.

(** ** Pairs and objects *)

Record pair := { id : Z; key : jstr; value : val }.

(** [objectToKeyValueArray(obj, prevPairs)], with the counter of ids: a pair keeps the id of
    the pair at its position before, where the key is the same. *)
Fixpoint pairs_of (es : list (jstr * val)) (prev : list pair) (n : Z) : list pair * Z :=
  match es with
  | [] => ([], n)
  | (k, v) :: es =>
    let reused := match prev with p :: _ => if key p =s k then Some (id p) else None | [] => None end in
    let '(i, n) := match reused with Some i => (i, n) | None => (n, n + 1) end in
    let '(ps, n) := pairs_of es (tail prev) n in
    ({| id := i; key := k; value := v |} :: ps, n)
  end.
Definition objectToKeyValueArray (obj : val) (prev : list pair) (n : Z) : list pair * Z :=
  match obj with
  | VObj _ | VArr _ => pairs_of (entries obj) prev n
  | _ => ([], n)
  end.

(** [result[key] = value] on a plain object: assigning to [__proto__] makes no property. *)
Definition assign_own (o : obj) (k : jstr) (v : val) : obj := if k =s u "__proto__" then o else obj_set o k v.
Definition add_pair (o : obj) (p : pair) : obj := if nonempty (key p) then assign_own o (key p) (value p) else o.
Definition keyValueArrayToObject (arr : list pair) : obj := fold_left add_pair arr [].

(** The text of an object, empty for the empty object *)
Definition object_text (o : obj) : jstr := match o with [] => [] | _ => stringify2_text (VObj o) end.

(** ** The state *)

Inductive mode := Visual | Manual.
#[global] Instance mode_eq_dec : EqDecision mode.
Proof. solve_decision. Defined.

Record editor := {
  prop : val;                       (* the property [value] *)
  keyValuePairs : list pair;
  manualText : jstr;
  editMode : mode;
  jsonError : bool;                 (* whether there is a message *)
  counter : Z;
}.

Definition with_prop (v : val) (e : editor) : editor :=
  {| prop := v; keyValuePairs := keyValuePairs e; manualText := manualText e; editMode := editMode e;
     jsonError := jsonError e; counter := counter e |}.
Definition setPairs (ps : list pair) (n : Z) (err : bool) (e : editor) : editor :=
  {| prop := prop e; keyValuePairs := ps; manualText := manualText e; editMode := editMode e;
     jsonError := err; counter := n |}.
Definition setManualText (s : jstr) (e : editor) : editor :=
  {| prop := prop e; keyValuePairs := keyValuePairs e; manualText := s; editMode := editMode e;
     jsonError := jsonError e; counter := counter e |}.
Definition setEditMode (m : mode) (e : editor) : editor :=
  {| prop := prop e; keyValuePairs := keyValuePairs e; manualText := manualText e; editMode := m;
     jsonError := jsonError e; counter := counter e |}.
Definition setJsonError (b : bool) (e : editor) : editor :=
  {| prop := prop e; keyValuePairs := keyValuePairs e; manualText := manualText e; editMode := editMode e;
     jsonError := b; counter := counter e |}.

Definition nonblank (v : val) : bool := match v with VStr s => nonempty (trim s) | _ => false end.
Definition is_object (v : val) : bool := match v with VObj _ | VArr _ => true | _ => false end.

(** The text of the property *)
Definition prop_text (v : val) : jstr :=
  match v with VStr s => s | _ => if is_object v then stringify2_text v else [] end.

(** The parsed property *)
Definition parsed_prop (v : val) : res val :=
  match v with
  | VStr s => if nonempty (trim s) then JSON_parse s else Ok (VObj [])
  | _ => Ok (if is_object v then v else VObj [])
  end.

(** The three initial states *)
Definition initial_pairs (v : val) (n : Z) : list pair * Z :=
  if nonblank v || is_object v
  then match parsed_prop v with Ok p => objectToKeyValueArray p [] n | Throw _ => ([], n) end
  else ([], n).
Definition initial_mode (v : val) : mode :=
  if nonblank v then
    match parsed_prop v with
    | Ok p => match p with
              | VNull | VUndef => Manual
              | _ => if 10 <? Z.of_nat (length (keys p)) then Manual else Visual
              end
    | Throw _ => Manual
    end
  else Visual.

(** *** The effects *)

(** [useEffect(..., [value])]: the pairs follow the property, unless they say the same. *)
Definition follow_prop (e : editor) : editor :=
  match parsed_prop (prop e) with
  | Throw _ => setJsonError true e
  | Ok parsed =>
    if stringify_text parsed =s stringify_text (VObj (keyValueArrayToObject (keyValuePairs e))) then setJsonError false e
    else let '(ps, n) := objectToKeyValueArray parsed (keyValuePairs e) (counter e) in setPairs ps n false e
  end.

(** [useEffect(..., [value, editMode])] *)
Definition follow_text (e : editor) : editor :=
  if decide (editMode e = Manual) then e else setManualText (prop_text (prop e)) e.

Definition open_editor (v : val) (n : Z) : editor :=
  let '(ps, n) := initial_pairs v n in
  follow_text (follow_prop {| prop := v; keyValuePairs := ps; manualText := prop_text v; editMode := initial_mode v;
                              jsonError := false; counter := n |}).

(** The parent sets the property; the effects run when it is not the same as before. *)
Definition same_prop (v w : val) : bool := match v, w with VStr s, VStr t => s =s t | _, _ => false end.
Definition set_prop (v : val) (e : editor) : editor :=
  if same_prop v (prop e) then with_prop v e else follow_text (follow_prop (with_prop v e)).

(** ** The handlers *)

Definition handleVisualChange (newPairs : list pair) (e : editor) : editor * option jstr :=
  (setPairs newPairs (counter e) false e, Some (object_text (keyValueArrayToObject newPairs))).

Definition handleManualChange (s : jstr) (e : editor) : editor * option jstr :=
  let e := setManualText s e in
  if nonempty (trim s) then
    match JSON_parse s with
    | Ok parsed =>
      let '(ps, n) := objectToKeyValueArray parsed (keyValuePairs e) (counter e) in (setPairs ps n false e, Some s)
    | Throw _ => (setJsonError true e, None)
    end
  else (setPairs [] (counter e) false e, Some []).

(** [toggleEditMode] *)
Definition toggleEditMode (e : editor) : editor :=
  match editMode e with
  | Visual => setEditMode Manual (setManualText (object_text (keyValueArrayToObject (keyValuePairs e))) e)
  | Manual =>
    match (if nonempty (trim (manualText e)) then JSON_parse (manualText e) else parsed_prop (prop e)) with
    | Ok parsed =>
      let '(ps, n) := objectToKeyValueArray parsed (keyValuePairs e) (counter e) in
      follow_text (setEditMode Visual (setPairs ps n false e))
    | Throw _ => setJsonError true e
    end
  end.

(** A click on one of the two tabs *)
Definition choose_tab (m : mode) (e : editor) : editor :=
  match m, editMode e with
  | Manual, Visual => setEditMode Manual e
  | Visual, Manual => toggleEditMode e
  | _, _ => e
  end.

(** The first [field_n] that is not a key, from [n] *)
Fixpoint fresh_field (fuel : nat) (keys : list jstr) (n : Z) : jstr :=
  let k := u "field_" ++ dec n in
  match fuel with
  | O => k
  | S fuel => if bool_decide (k ∈ keys) then fresh_field fuel keys (n + 1) else k
  end.
Definition new_key (ps : list pair) : jstr := fresh_field (length ps) (map key ps) 1.

Definition take_id (e : editor) : Z * editor :=
  (counter e, {| prop := prop e; keyValuePairs := keyValuePairs e; manualText := manualText e; editMode := editMode e;
                 jsonError := jsonError e; counter := counter e + 1 |}).

Definition addKeyValue (e : editor) : editor * option jstr :=
  let '(i, e') := take_id e in
  handleVisualChange (keyValuePairs e ++ [{| id := i; key := new_key (keyValuePairs e); value := VStr [] |}]) e'.
Definition removeKeyValue (i : Z) (e : editor) : editor * option jstr :=
  handleVisualChange (List.filter (λ p, negb (id p =? i)) (keyValuePairs e)) e.
Definition updateKey (i : Z) (k : jstr) (e : editor) : editor * option jstr :=
  handleVisualChange (map (λ p, if id p =? i then {| id := id p; key := k; value := value p |} else p) (keyValuePairs e)) e.
Definition updateValue (i : Z) (v : val) (e : editor) : editor * option jstr :=
  handleVisualChange (map (λ p, if id p =? i then {| id := id p; key := key p; value := v |} else p) (keyValuePairs e)) e.

Definition fillTemplate (template : val) (e : editor) : editor * option jstr :=
  if truthy template then
    let s := stringify2_text template in
    let '(ps, n) := objectToKeyValueArray template (keyValuePairs e) (counter e) in
    (setPairs ps n false (setManualText s e), Some s)
  else (e, None).

(** A text typed into the field of a value *)
Definition convert_input (s : jstr) : val :=
  if s =s u "true" then VBool true
  else if s =s u "false" then VBool false
  else if negb (isNaN (Number s)) && nonempty s then if isInteger (Number s) then VNum (Number s) else VStr s
  else VStr s.
Definition type_value (i : Z) (s : jstr) (e : editor) : editor * option jstr := updateValue i (convert_input s) e.

(** A text typed into the field of a nested object *)
Definition type_object (i : Z) (s : jstr) (e : editor) : editor * option jstr :=
  match (if nonempty (trim s) then JSON_parse s else Ok (VObj [])) with
  | Ok v => updateValue i v e
  | Throw _ => (e, None)
  end.

(** The default region *)
Definition change_default (v : jstr) (e : editor) : editor * option jstr :=
  match List.find (λ p, key p =s u "default") (keyValuePairs e) with
  | Some p => updateValue (id p) (VStr v) e
  | None =>
    let '(i, e') := take_id e in
    handleVisualChange (keyValuePairs e ++ [{| id := i; key := u "default"; value := VStr v |}]) e'
  end.

(** [duplicateKeys], and which of the duplicates is used; the names of inherited properties
    are not counted. *)
Definition count_key (acc : list jstr * list jstr) (p : pair) : list jstr * list jstr :=
  if nonempty (key p) && is_undef (proto_get (key p)) then
    (key p :: acc.1,
     if bool_decide (key p ∈ acc.1) && negb (bool_decide (key p ∈ acc.2)) then acc.2 ++ [key p] else acc.2)
  else acc.
Definition duplicateKeys (ps : list pair) : list jstr := (fold_left count_key ps ([], [])).2.
Definition last_duplicate (ps : list pair) (i : nat) : bool :=
  match ps !! i with
  | Some p => bool_decide (key p ∈ duplicateKeys ps) && forallb (λ q, negb (key q =s key p)) (drop (S i) ps)
  | None => false
  end.

(** ** Theorems *)

(** *** Objects of pairs *)

(** What is needed to write a list of pairs as JSON *)
Definition pair_wf (p : pair) : Prop := jstr_wf (key p) ∧ val_wf (value p).

Lemma add_pair_wf o p : val_wf (VObj o) → pair_wf p → val_wf (VObj (add_pair o p)).
Proof.
  intros Ho [Hk Hv]. unfold add_pair, assign_own. destruct (nonempty (key p)); [|done].
  case_bool_decide; [done|]. inversion Ho; subst. constructor; [by apply obj_ok_set|by apply obj_set_Forall].
Qed.

Lemma object_wf ps : Forall pair_wf ps → val_wf (VObj (keyValueArrayToObject ps)).
Proof.
  intros H. unfold keyValueArrayToObject. assert (val_wf (VObj [])) as Ho by (constructor; [apply obj_ok_nil|constructor]).
  revert Ho. generalize ([] : obj). induction H as [|p ps Hp _ IH]; intros o Ho; simpl; [done|].
  apply IH, add_pair_wf; done.
Qed.

(** A pair that makes a property *)
Definition effective (p : pair) : bool := nonempty (key p) && negb (key p =s u "__proto__").

Lemma add_pair_effective o p : add_pair o p = if effective p then obj_set o (key p) (value p) else o.
Proof. unfold add_pair, assign_own, effective. destruct (nonempty (key p)); [|done]. by case_bool_decide. Qed.

(** The last pair with a key *)
Definition last_value (ps : list pair) (k : jstr) : option val :=
  option_map value (List.find (λ p, effective p && (key p =s k)) (rev ps)).

Lemma object_get ps k : obj_get (keyValueArrayToObject ps) k = last_value ps k.
Proof.
  unfold keyValueArrayToObject, last_value. induction ps as [|p ps IH] using rev_ind; [done|].
  rewrite fold_left_app, rev_app_distr. cbn [fold_left rev app List.find]. rewrite add_pair_effective.
  destruct (effective p); cbn [andb]; [|done]. rewrite obj_get_set.
  destruct (decide (key p = k)); [by rewrite bool_decide_true|by rewrite bool_decide_false].
Qed.

Lemma ser_text_stringify v : unserializable v = false → stringify_text v = ser_text [] [] v.
Proof. intros H. unfold stringify_text, stringify, ser_text. by rewrite ser_serializable. Qed.

Lemma stringify_norm v : unserializable v = false → stringify_text (json_norm v) = stringify_text v.
Proof. intros H. rewrite !ser_text_stringify; [apply ser_text_norm|done|apply json_norm_kept]. Qed.

(** The text of an object is read as the object again, up to what JSON cannot write. *)
Lemma parse_object_text o : val_wf (VObj o) → parsed_prop (VStr (object_text o)) = Ok (json_norm (VObj o)).
Proof.
  intros Ho. destruct o as [|kv o]; [done|]. set (o' := kv :: o) in *.
  assert (JSON_parse (stringify2_text (VObj o')) = Ok (json_norm (VObj o'))) as Hp.
  { unfold stringify2_text, stringify2. rewrite ser_serializable by done.
    apply (JSON_parse_ser indent2); [apply indent2_ws|done|by rewrite ser_serializable]. }
  change (object_text o') with (stringify2_text (VObj o')). cbn [parsed_prop].
  assert (nonempty (trim (stringify2_text (VObj o'))) = true) as ->; [|done].
  unfold nonempty. apply negb_true_iff, bool_decide_eq_false. by eapply JSON_parse_nonblank.
Qed.

(** *** Edits of pairs *)

(** C34: after an edit of the pairs the parent hands the text back, and the editor keeps the pairs
    as they are: repeated keys, blank keys, their order and their ids. *)
Theorem edits_stay ps e :
  Forall pair_wf ps →
  ∃ e' s, handleVisualChange ps e = (e', Some s) ∧
    keyValuePairs (set_prop (VStr s) e') = ps ∧ jsonError (set_prop (VStr s) e') = false ∧
    (editMode e = Visual → manualText e = prop_text (prop e) → manualText (set_prop (VStr s) e') = s).
Proof.
  intros Hps. eexists _, _. split; [done|]. set (o := keyValueArrayToObject ps).
  pose proof (object_wf ps Hps) as Ho. fold o in Ho. unfold set_prop. cbn [prop setPairs].
  destruct (same_prop _ (prop e)) eqn:Es.
  { split_and!; try done. intros _ Hm. cbn. rewrite Hm. destruct (prop e); try done. by apply bool_decide_eq_true in Es. }
  unfold follow_prop. cbn [prop with_prop keyValuePairs setPairs].
  rewrite parse_object_text by done. fold o. rewrite stringify_norm by done. rewrite bool_decide_true by done.
  unfold follow_text. cbn [editMode setJsonError with_prop setPairs].
  destruct (decide (editMode e = Manual)) as [E|E]; cbn; split_and!; try done. by rewrite E.
Qed.

(** The text handed out holds, for each key, the value of its last pair, and nothing else. *)
Theorem edited_text_exact ps e :
  Forall pair_wf ps →
  ∃ e' s o', handleVisualChange ps e = (e', Some s) ∧ parsed_prop (VStr s) = Ok (VObj o') ∧
    ∀ k, obj_get o' k = match last_value ps k with
                        | Some v => if unserializable v then None else Some (json_norm v)
                        | None => None
                        end.
Proof.
  intros Hps. pose proof (object_wf ps Hps) as Ho. pose proof (parse_object_text _ Ho) as Hp.
  rewrite json_norm_obj in Hp. eexists _, _, _. split; [done|]. split; [exact Hp|].
  intros k. inversion Ho; subst. rewrite obj_get_norm by done. by rewrite object_get.
Qed.

(** *** The ids of the pairs *)

Definition ids_ok (e : editor) : Prop :=
  NoDup (map id (keyValuePairs e)) ∧ Forall (λ p, id p < counter e) (keyValuePairs e).

Lemma pairs_of_ids es prev n ps n' :
  NoDup (map id prev) → Forall (λ p, id p < n) prev → pairs_of es prev n = (ps, n') →
  n ≤ n' ∧ NoDup (map id ps) ∧ ∀ p, p ∈ ps → id p ∈ map id prev ∨ n ≤ id p < n'.
Proof.
  revert prev n ps n'. induction es as [|[k v] es IH]; intros prev n ps n' Hn Hlt; cbn [pairs_of].
  { intros [= <- <-]. split_and!; [lia|constructor|set_solver]. }
  assert (∀ q, q ∈ tail prev → q ∈ prev) as Ht by (destruct prev; set_solver).
  assert (NoDup (map id (tail prev))) as Hn' by (destruct prev; [done|by apply NoDup_cons in Hn as [_ ?]]).
  assert (∀ m, n ≤ m → Forall (λ p, id p < m) (tail prev)) as Hlt'
    by (intros m Hm; apply list.Forall_forall; intros q Hq; rewrite list.Forall_forall in Hlt; specialize (Hlt q (Ht q Hq)); lia).
  assert (∀ i, i ∈ map id (tail prev) → i ∈ map id prev ∧ i < n) as Hti.
  { intros i (q & -> & Hq%Ht)%list_elem_of_fmap. rewrite list.Forall_forall in Hlt. split; [by apply list_elem_of_fmap_2|auto]. }
  set (reused := match prev with p :: _ => _ | [] => None end).
  assert (∀ i, reused = Some i → i ∈ map id prev ∧ i < n ∧ i ∉ map id (tail prev)) as Hr.
  { intros i. destruct prev as [|p prev]; [done|]. cbn in reused. unfold reused. case_bool_decide; [|done].
    intros [= <-]. apply NoDup_cons in Hn as [Hp _]. apply list.Forall_cons in Hlt as [Hlt _]. cbn [map]. set_solver. }
  destruct reused as [i|].
  - destruct (pairs_of es (tail prev) n) as [ps1 n1] eqn:E. intros [= <- <-].
    destruct (IH _ _ _ _ Hn' (Hlt' n ltac:(lia)) E) as (H1 & H2 & H3). destruct (Hr i eq_refl) as (Hi & Hin & Hnt).
    split_and!; [done| |].
    + cbn [map id]. constructor; [|done]. intros (q & Eq & Hq)%list_elem_of_fmap. subst i.
      destruct (H3 q Hq) as [?|?]; [done|lia].
    + intros p [->|Hp]%elem_of_cons; [by left|]. destruct (H3 p Hp) as [?%Hti|?]; [left; tauto|by right].
  - destruct (pairs_of es (tail prev) (n + 1)) as [ps1 n1] eqn:E. intros [= <- <-].
    destruct (IH _ _ _ _ Hn' (Hlt' (n + 1) ltac:(lia)) E) as (H1 & H2 & H3).
    split_and!; [lia| |].
    + cbn [map id]. constructor; [|done]. intros (q & Eq & Hq)%list_elem_of_fmap.
      destruct (H3 q Hq) as [?%Hti|?]; lia.
    + intros p [->|Hp]%elem_of_cons; [right; cbn; lia|]. destruct (H3 p Hp) as [?%Hti|?]; [left; tauto|right; lia].
Qed.

Lemma objectToKeyValueArray_ok v e ps n :
  ids_ok e → objectToKeyValueArray v (keyValuePairs e) (counter e) = (ps, n) →
  NoDup (map id ps) ∧ Forall (λ p, id p < n) ps.
Proof.
  intros [Hn Hlt] H. assert (∃ es, pairs_of es (keyValuePairs e) (counter e) = (ps, n)) as [es E].
  { destruct v; try (by exists []); by eexists. }
  destruct (pairs_of_ids _ _ _ _ _ Hn Hlt E) as (H1 & H2 & H3). split; [done|].
  apply list.Forall_forall. intros p Hp. destruct (H3 p Hp) as [(q & -> & Hq)%list_elem_of_fmap|?]; [|lia].
  rewrite list.Forall_forall in Hlt. specialize (Hlt q Hq). lia.
Qed.

(** What can happen to an editor: an operation, or a new property *)
Inductive action :=
| SetProp (v : val) | Type_ (s : jstr) | Tab (m : mode) | Toggle | Add | Remove (i : Z)
| Rename (i : Z) (k : jstr) | Change (i : Z) (v : val) | Input (i : Z) (s : jstr) | Nested (i : Z) (s : jstr)
| Template (v : val) | Default (s : jstr).

Definition perform (a : action) (e : editor) : editor * option jstr :=
  match a with
  | SetProp v => (set_prop v e, None)
  | Type_ s => handleManualChange s e
  | Tab m => (choose_tab m e, None)
  | Toggle => (toggleEditMode e, None)
  | Add => addKeyValue e
  | Remove i => removeKeyValue i e
  | Rename i k => updateKey i k e
  | Change i v => updateValue i v e
  | Input i s => type_value i s e
  | Nested i s => type_object i s e
  | Template v => fillTemplate v e
  | Default s => change_default s e
  end.

(** The states that can be reached *)
Inductive reachable : editor → Prop :=
| opened v n : reachable (open_editor v n)
| acted a e : reachable e → reachable (perform a e).1.

Lemma ids_setPairs ps n err e : NoDup (map id ps) → Forall (λ p, id p < n) ps → ids_ok (setPairs ps n err e).
Proof. done. Qed.

Lemma ids_convert v e ps n err (e' : editor) :
  ids_ok e → objectToKeyValueArray v (keyValuePairs e) (counter e) = (ps, n) → ids_ok (setPairs ps n err e').
Proof. intros He E. destruct (objectToKeyValueArray_ok _ _ _ _ He E). by apply ids_setPairs. Qed.

Lemma ids_follow_prop e : ids_ok e → ids_ok (follow_prop e).
Proof.
  intros He. unfold follow_prop. destruct (parsed_prop _); [|done]. case_bool_decide; [done|].
  destruct (objectToKeyValueArray _ _ _) eqn:E. by eapply ids_convert.
Qed.

Lemma ids_follow_text e : ids_ok e → ids_ok (follow_text e).
Proof. intros He. unfold follow_text. by case_decide. Qed.

Lemma ids_same f e : ids_ok e → (∀ p, id (f p) = id p) → ids_ok (handleVisualChange (map f (keyValuePairs e)) e).1.
Proof.
  intros [Hn Hlt] Hf. split; cbn [fst handleVisualChange keyValuePairs setPairs counter].
  - rewrite map_map. by rewrite (map_ext _ id).
  - apply Forall_map_2. eapply list.Forall_impl; [exact Hlt|]. intros p Hp. by rewrite Hf.
Qed.

Lemma ids_append k v e :
  ids_ok e → ids_ok (handleVisualChange (keyValuePairs e ++ [{| id := counter e; key := k; value := v |}]) (take_id e).2).1.
Proof.
  intros [Hn Hlt]. split; cbn.
  - rewrite map_app. apply NoDup_app. split_and!; [done| |repeat constructor; set_solver].
    intros i (p & -> & Hp)%list_elem_of_fmap Hi%list_elem_of_singleton. rewrite list.Forall_forall in Hlt.
    specialize (Hlt p Hp). cbn in Hi. lia.
  - apply list.Forall_app. split; [|repeat constructor; cbn; lia].
    eapply list.Forall_impl; [exact Hlt|]. intros p Hp. cbn in *. lia.
Qed.

Lemma ids_toggle e : ids_ok e → ids_ok (toggleEditMode e).
Proof.
  intros He. unfold toggleEditMode. destruct (editMode e); [done|]. case_match; [|done].
  destruct (objectToKeyValueArray _ _ _) eqn:E. apply ids_follow_text.
  exact (ids_convert _ e _ _ false e He E).
Qed.

Lemma ids_perform a e : ids_ok e → ids_ok (perform a e).1.
Proof.
  intros He. assert (∀ i v, ids_ok (updateValue i v e).1) as Hu
    by (intros i v; apply ids_same; [done|]; intros p; by destruct (id p =? i)).
  destruct a as [v|s|m| | |i|i k|i v|i s|i s|v|s]; cbn [perform fst].
  - unfold set_prop. destruct (same_prop _ _); [done|]. by apply ids_follow_text, ids_follow_prop.
  - unfold handleManualChange. destruct (nonempty _); [|split; [constructor|apply Forall_nil_2]].
    destruct (JSON_parse s); [|done]. destruct (objectToKeyValueArray _ _ _) eqn:E.
    eapply (ids_convert _ (setManualText s e)); [done|exact E].
  - unfold choose_tab. destruct m, (editMode e) eqn:Em; try done. by apply ids_toggle.
  - by apply ids_toggle.
  - apply ids_append, He.
  - destruct He as [Hn Hlt]. split; cbn.
    + eapply sublist_NoDup; [done|apply sublist_map, filter_sublist_of].
    + apply list.Forall_forall. intros p [Hp _]%elem_of_filter_bool. rewrite list.Forall_forall in Hlt. auto.
  - apply ids_same; [done|]. intros p. by destruct (id p =? i).
  - apply Hu.
  - apply Hu.
  - unfold type_object. case_match; [apply Hu|done].
  - unfold fillTemplate. destruct (truthy v); [|done]. destruct (objectToKeyValueArray _ _ _) eqn:E. by eapply ids_convert.
  - unfold change_default. case_match; [apply Hu|]. apply ids_append, He.
Qed.

(** Whatever is done to an editor and whatever value its parent sets, the ids of its pairs
    are distinct and none of them will be made again. *)
Theorem editor_ids e : reachable e → ids_ok e.
Proof.
  induction 1 as [v n|a e _ IH]; [|by apply ids_perform].
  unfold open_editor. destruct (initial_pairs v n) as [ps n'] eqn:E. apply ids_follow_text, ids_follow_prop.
  assert (∃ es, pairs_of es [] n = (ps, n')) as [es Ep].
  { unfold initial_pairs in E. destruct (_ || _); [|by exists []]. destruct (parsed_prop v) as [p|]; [|by exists []].
    destruct p; try (by exists []); by eexists. }
  destruct (pairs_of_ids _ [] _ _ _ ltac:(constructor) ltac:(constructor) Ep) as (H1 & H2 & H3).
  split; [done|]. apply list.Forall_forall. intros p Hp. destruct (H3 p Hp); [set_solver|cbn; lia].
Qed.

(** *** New keys *)

Definition field (n : Z) : jstr := u "field_" ++ dec n.

Lemma field_inj n m : 0 ≤ n → 0 ≤ m → field n = field m → n = m.
Proof. intros Hn Hm E. unfold field in E. apply app_inv_head in E. by apply dec_inj in E. Qed.

Lemma fresh_field_spec fuel ks n :
  ∃ m, fresh_field fuel ks n = field m ∧ n ≤ m ≤ n + Z.of_nat fuel ∧
       (∀ i, n ≤ i < m → field i ∈ ks) ∧ (m < n + Z.of_nat fuel → field m ∉ ks).
Proof.
  revert n. induction fuel as [|fuel IH]; intros n; cbn [fresh_field].
  { exists n. split_and!; [done|lia|lia|lia|lia]. }
  case_bool_decide as Hin; [|exists n; split_and!; [done|lia|lia|lia|done]].
  destruct (IH (n + 1)) as (m & -> & H1 & H2 & H3). exists m. split_and!; [done|lia|lia| |].
  - intros i Hi. destruct (decide (i = n)) as [->|]; [done|]. apply H2. lia.
  - intros Hm. apply H3. lia.
Qed.

(** The key of a new pair is the first of [field_1], [field_2], ... that no pair has; the
    loop that looks for it ends after at most one step for each pair. *)
Theorem new_key_fresh ps :
  ∃ m, new_key ps = field m ∧ 1 ≤ m ≤ 1 + Z.of_nat (length ps) ∧ (new_key ps ∉ map key ps) ∧
       ∀ i, 1 ≤ i < m → field i ∈ map key ps.
Proof.
  unfold new_key. destruct (fresh_field_spec (length ps) (map key ps) 1) as (m & -> & H1 & H2 & H3).
  exists m. split_and!; [done|lia|lia| |done]. intros Hin.
  destruct (decide (m < 1 + Z.of_nat (length ps))) as [Hlt|Hge]; [by apply (H3 Hlt)|].
  assert (m = 1 + Z.of_nat (length ps)) as -> by lia.
  assert (length (map (λ i, field (1 + Z.of_nat i)) (seq 0 (S (length ps)))) ≤ length (map key ps))%nat as Hlen.
  { apply NoDup_incl_length.
    - apply NoDup_ListNoDup, NoDup_fmap_2_strong; [|apply NoDup_seq].
      intros i j _ _ E%field_inj; lia.
    - intros k (i & <- & Hi%in_seq)%in_map_iff. apply list_elem_of_In.
      destruct (decide (i = length ps)) as [->|Hne]; [done|]. apply H2. lia. }
  rewrite !length_map, length_seq in Hlen. lia.
Qed.

(** *** By hand and back *)

Lemma pairs_of_entries es prev n : map (λ p, (key p, value p)) (pairs_of es prev n).1 = es.
Proof.
  revert prev n. induction es as [|[k v] es IH]; intros prev n; cbn [pairs_of]; [done|].
  match goal with |- context [let '(_, _) := ?x in _] => destruct x as [i n'] end.
  specialize (IH (tail prev) n'). destruct (pairs_of es (tail prev) n') as [ps n'']. cbn in *. by rewrite IH.
Qed.

(** A key that an object of pairs can have *)
Definition plain_key (k : jstr) : Prop := k ≠ [] ∧ k ≠ u "__proto__".

Lemma object_of_pairs ps o :
  map (λ p, (key p, value p)) ps = o → obj_ok o → Forall (λ kv, plain_key kv.1) o → keyValueArrayToObject ps = o.
Proof.
  intros E Ho Hp. rewrite <- (obj_of_entries_id o) by done. unfold keyValueArrayToObject, obj_of_entries, obj_extend.
  subst o. generalize ([] : obj). clear Ho. induction ps as [|p ps IH]; intros o; [done|].
  cbn in *. apply list.Forall_cons in Hp as [[H1 H2] Hp]. rewrite IH by done. f_equal.
  unfold add_pair, assign_own, nonempty. rewrite (bool_decide_false (key p = [])) by done. cbn. by rewrite bool_decide_false.
Qed.

(** A text typed by hand that is a JSON object becomes pairs which stand for that object, and
    both are kept when the parent takes the text over. *)
Theorem typed_object_taken s o e :
  JSON_parse s = Ok (VObj o) → obj_ok o → Forall (λ kv, plain_key kv.1) o →
  ∃ e', handleManualChange s e = (e', Some s) ∧
    keyValueArrayToObject (keyValuePairs (set_prop (VStr s) e')) = o ∧
    jsonError (set_prop (VStr s) e') = false ∧
    keyValuePairs (set_prop (VStr s) e') = keyValuePairs e'.
Proof.
  intros Hp Ho Hk. unfold handleManualChange.
  assert (nonempty (trim s) = true) as Hs
    by (unfold nonempty; apply negb_true_iff, bool_decide_eq_false; by eapply JSON_parse_nonblank).
  rewrite Hs, Hp. cbn [keyValuePairs counter setManualText].
  pose proof (pairs_of_entries (entries (VObj o)) (keyValuePairs e) (counter e)) as Ee.
  cbn [objectToKeyValueArray]. destruct (pairs_of _ _ _) as [ps n]. cbn [fst] in Ee.
  assert (keyValueArrayToObject ps = o) as Eo by (apply object_of_pairs; done).
  eexists. split; [done|]. unfold set_prop. destruct (same_prop _ _); [done|].
  unfold follow_prop. cbn [prop with_prop parsed_prop]. rewrite Hs, Hp.
  cbn [keyValuePairs with_prop setPairs]. rewrite Eo, bool_decide_true by done.
  unfold follow_text. by destruct (decide _).
Qed.

(** A text that is not JSON is not handed to the parent: what is stored stays. *)
Theorem malformed_text_kept s e x :
  trim s ≠ [] → JSON_parse s = Throw x →
  ∃ e', handleManualChange s e = (e', None) ∧ manualText e' = s ∧ jsonError e' = true ∧
        keyValuePairs e' = keyValuePairs e ∧ choose_tab Visual (setEditMode Manual e') = setEditMode Manual e'.
Proof.
  intros Hs Hp. unfold handleManualChange, nonempty. rewrite bool_decide_false, Hp by done. cbn [negb].
  eexists. split; [done|]. split_and!; try done. cbn [choose_tab editMode setEditMode]. unfold toggleEditMode, nonempty.
  cbn [editMode setEditMode manualText setJsonError setManualText]. by rewrite bool_decide_false, Hp.
Qed.

(** ** Examples *)

Definition edited (a : action) (s : string) : option jstr := (perform a (open_editor (VStr (uq s)) 0)).2.

(** A space typed into a value is the number 0, and a digit cannot begin a text. *)
Example space_is_zero : edited (Input 0 (u " ")) "{'a':''}" = Some (u "{" ++ [10] ++ uq "  'a': 0" ++ [10] ++ u "}").
Proof. vm_compute. reflexivity. Qed.

(** An array becomes an object with the first edit of its pairs. *)
Example array_becomes_object :
  edited (Change 0 (VStr (u "x"))) "['a']" = Some (u "{" ++ [10] ++ uq "  '0': 'x'" ++ [10] ++ u "}").
Proof. vm_compute. reflexivity. Qed.

(** Of two pairs with a key the last is stored. *)
Example last_pair_wins : edited (Rename 1 (u "a")) "{'a':1,'b':2}" = Some (u "{" ++ [10] ++ uq "  'a': 2" ++ [10] ++ u "}").
Proof. vm_compute. reflexivity. Qed.

Example null_opens_by_hand : editMode (open_editor (VStr (u "null")) 0) = Manual.
Proof. reflexivity. Qed.

(** Witnesses *)
Lemma editor_ids_witness : ids_ok (perform Add (open_editor (VStr (uq "{'a':1}")) 0)).1.
Proof. apply editor_ids, acted, opened. Defined.

Definition sample_pairs : list pair :=
  [{| id := 0; key := u "a"; value := VBool true |}; {| id := 1; key := u "a"; value := VStr (u "x") |};
   {| id := 2; key := []; value := VNull |}].

Lemma edits_stay_witness :
  ∃ e' s, handleVisualChange sample_pairs (open_editor (VStr []) 0) = (e', Some s) ∧
    keyValuePairs (set_prop (VStr s) e') = sample_pairs ∧ jsonError (set_prop (VStr s) e') = false ∧
    (editMode (open_editor (VStr []) 0) = Visual →
     manualText (open_editor (VStr []) 0) = prop_text (prop (open_editor (VStr []) 0)) → manualText (set_prop (VStr s) e') = s).
Proof.
  apply (edits_stay sample_pairs (open_editor (VStr []) 0)).
  repeat apply Forall_cons_2; try apply Forall_nil_2; (split; [by apply units_ok_wf|]).
  - apply wf_bool.
  - by apply wf_str, units_ok_wf.
  - apply wf_null.
Defined.
