(* ===== verification/RatioSync.v ===== *)
(** * Synchronising ratios with other services (pages/Setting/Ratio/UpstreamRatioSync.jsx)

    The server compares the ratios of the channels that were chosen with its own and
    answers with the differences, by model and by type of ratio.  The operator chooses
    values, [resolutions], which are then written into the four options.  A model is billed
    either by a price or by ratios. *)

From S2P Require Import Prelude JsString JsNumber JsValue Json.

Local Open Scope Z_scope.

(** ** Channels and their endpoints *)

Definition OFFICIAL_RATIO_PRESET_ID : val := VNum (of_Z (-100)).
Definition OFFICIAL_RATIO_PRESET_NAME : jstr := u "官方倍率预设".
Definition OFFICIAL_RATIO_PRESET_BASE_URL : jstr := u "https://basellm.github.io".
Definition OFFICIAL_RATIO_PRESET_ENDPOINT : jstr := u "/llm-metadata/api/aggreapi/ratio_config-v1-base.json".
Definition MODELS_DEV_PRESET_ID : val := VNum (of_Z (-101)).
Definition MODELS_DEV_PRESET_NAME : jstr := u "models.dev 价格预设".
Definition MODELS_DEV_PRESET_BASE_URL : jstr := u "https://models.dev".
Definition MODELS_DEV_PRESET_ENDPOINT : jstr := u "https://models.dev/api.json".
Definition DEFAULT_ENDPOINT : jstr := u "/api/ratio_config".

Definition field (v : val) (k : string) : val := get_opt v (u k).

Definition preset (channel : val) (id : val) (base name : jstr) : bool :=
  strict_eq (field channel "id") id || is_text (v_or (field channel "base_url") (VStr [])) base ||
  is_text (v_or (field channel "name") (VStr [])) name.

Definition default_endpoint (channel : val) : jstr :=
  if preset channel MODELS_DEV_PRESET_ID MODELS_DEV_PRESET_BASE_URL MODELS_DEV_PRESET_NAME then MODELS_DEV_PRESET_ENDPOINT
  else if preset channel OFFICIAL_RATIO_PRESET_ID OFFICIAL_RATIO_PRESET_BASE_URL OFFICIAL_RATIO_PRESET_NAME
  then OFFICIAL_RATIO_PRESET_ENDPOINT
  else if strict_eq (field channel "type") (VNum (of_Z 20)) then u "openrouter"
  else DEFAULT_ENDPOINT.

(** The endpoints that are there are kept. *)
Definition merge_endpoint (merged : obj) (channel : val) : res obj :=
  let! id := to_str (field channel "id") in
  Ok (if truthy (oget merged id) then merged else obj_set merged id (VStr (default_endpoint channel))).
Definition merge_endpoints (prev : obj) (channels : list val) : res obj := rfold merge_endpoint prev channels.

(** The channels that were ticked, and the request for their ratios *)
Definition chosen_channels (all : list val) (selected : list val) : list val :=
  List.filter (λ ch, existsb (strict_eq (field ch "id")) selected) all.
Definition upstream (endpoints : obj) (ch : val) : res val :=
  let! id := to_str (field ch "id") in
  Ok (VObj [(u "id", field ch "id"); (u "name", field ch "name"); (u "base_url", field ch "base_url");
            (u "endpoint", v_or (oget endpoints id) (VStr DEFAULT_ENDPOINT))]).
Definition fetch_payload (endpoints : obj) (channels : list val) : res val :=
  let! upstreams := rmapM (upstream endpoints) channels in
  Ok (VObj [(u "upstreams", VArr upstreams); (u "timeout", VNum (of_Z 10))]).

(** ** Resolutions *)

Definition PRICE : jstr := u "model_price".

(** [getBillingCategory(ratioType)] *)
Inductive category := Price | Ratio.
#[global] Instance category_eq_dec : EqDecision category.
Proof. solve_decision. Defined.
Definition getBillingCategory (ratioType : jstr) : category := if ratioType =s PRICE then Price else Ratio.

(** The choices made for a model *)
Definition choices (resolutions : obj) (model : jstr) : obj :=
  match obj_get resolutions model with Some (VObj o) => o | _ => [] end.

(** [selectValue]: choices of the other category are given up. *)
Definition same_category (c : category) (o : obj) : obj :=
  List.filter (λ kv, bool_decide (getBillingCategory kv.1 = c)) o.
Definition selectValue (model ratioType : jstr) (v : val) (resolutions : obj) : obj :=
  obj_set resolutions model
    (VObj (obj_set (same_category (getBillingCategory ratioType) (choices resolutions model)) ratioType v)).

(** A box is cleared. *)
Definition clear_value (model ratioType : jstr) (resolutions : obj) : obj :=
  match obj_get resolutions model with
  | Some (VObj o) =>
    match obj_del o ratioType with
    | [] => obj_del resolutions model
    | o' => obj_set resolutions model (VObj o')
    end
  | _ => resolutions
  end.

(** ** The table of differences *)

Record row := { row_model : jstr; row_type : jstr; row_diff : val; billingConflict : bool }.

Definition model_rows (e : jstr * val) : list row :=
  let has k := bool_decide (k ∈ keys e.2) in
  let conflict := has PRICE && existsb has (map u ["model_ratio"; "completion_ratio"; "cache_ratio"]%string) in
  map (λ d, {| row_model := e.1; row_type := d.1; row_diff := d.2; billingConflict := conflict |}) (entries e.2).
Definition dataSource (differences : obj) : list row := mbind model_rows differences.

Definition shown_row `{Unicode} (keyword ratioTypeFilter : jstr) (r : row) : bool :=
  ((trim keyword =s []) || includes (trim (toLowerCase keyword)) (toLowerCase (row_model r))) &&
  ((ratioTypeFilter =s []) || (row_type r =s ratioTypeFilter)).
Definition filteredDataSource `{Unicode} (keyword ratioTypeFilter : jstr) (differences : obj) : list row :=
  if (trim keyword =s []) && (ratioTypeFilter =s []) then dataSource differences
  else List.filter (shown_row keyword ratioTypeFilter) (dataSource differences).

Definition upstreams_of (r : row) : val := v_or (field (row_diff r) "upstreams") (VObj []).
Definition upstreamNames (rows : list row) : list jstr := set_array (mbind (λ r, keys (upstreams_of r)) rows).

(** A value that can be chosen *)
Definition offered (upName : jstr) (r : row) : option val :=
  let v := get_opt (field (row_diff r) "upstreams") upName in
  if is_nullish v || is_text v (u "same") then None else Some v.

Definition is_selected (resolutions : obj) (r : row) (v : val) : bool :=
  strict_eq (oget (choices resolutions (row_model r)) (row_type r)) v.

(** How many of the values of an upstream can be chosen and are *)
Definition channelStats (upName : jstr) (resolutions : obj) (rows : list row) : nat * nat :=
  let values := omap (λ r, option_map (λ v, (r, v)) (offered upName r)) rows in
  (length values, length (List.filter (λ x, is_selected resolutions x.1 x.2) values)).
Definition allSelected (s : nat * nat) : bool := (0 <? s.1)%nat && (s.2 =? s.1)%nat.
Definition partiallySelected (s : nat * nat) : bool := (0 <? s.2)%nat && (s.2 <? s.1)%nat.

Definition handleBulkSelect (upName : jstr) (rows : list row) (checked : bool) (resolutions : obj) : obj :=
  if checked then
    fold_left (λ res r, match offered upName r with Some v => selectValue (row_model r) (row_type r) v res | None => res end)
      rows resolutions
  else fold_left (λ res r, clear_value (row_model r) (row_type r) res) rows resolutions.

Definition getCurrentPageData {A} (currentPage pageSize : nat) (rows : list A) : list A :=
  take pageSize (drop ((currentPage - 1) * pageSize) rows).

(** ** Writing the options *)

Record ratios := { ModelRatio : obj; CompletionRatio : obj; CacheRatio : obj; ModelPrice : obj }.

(** [JSON.parse(props.options.X || '{}')]; what is no object is read by its entries, and
    nothing can be read from [null]. *)
Definition read_option (options : obj) (k : string) : res obj :=
  let! s := to_str (v_or (oget options (u k)) (VStr (u "{}"))) in
  let! v := JSON_parse s in
  match v with
  | VObj o => Ok o
  | VNull | VUndef => Throw TypeError
  | _ => Ok (obj_of_entries (entries v))
  end.
Definition currentRatios (options : obj) : res ratios :=
  let! a := read_option options "ModelRatio" in
  let! b := read_option options "CompletionRatio" in
  let! c := read_option options "CacheRatio" in
  let! d := read_option options "ModelPrice" in
  Ok {| ModelRatio := a; CompletionRatio := b; CacheRatio := c; ModelPrice := d |}.

Definition has_value (o : obj) (model : jstr) : bool := negb (is_undef (oget o model)).

Definition getLocalBillingCategory (c : ratios) (model : jstr) : option category :=
  if has_value (ModelPrice c) model then Some Price
  else if has_value (ModelRatio c) model || has_value (CompletionRatio c) model || has_value (CacheRatio c) model
  then Some Ratio else None.

Definition new_category (chosen : obj) : category := if obj_has chosen PRICE then Price else Ratio.

(** A change of the way a model is billed, which has to be confirmed *)
Definition conflicting (c : ratios) (model : jstr) (chosen : obj) : bool :=
  match getLocalBillingCategory c model with
  | Some l => negb (bool_decide (l = new_category chosen))
  | None => false
  end.

(** The choices, by model *)
Definition resolved (resolutions : obj) : list (jstr * obj) :=
  map (λ kv, (kv.1, match kv.2 with VObj o => o | _ => [] end)) resolutions.

(** The channels a conflict names: for each choice the first upstream with its value *)
Definition findSourceChannel (unknown : jstr) (differences : obj) (model ratioType : jstr) (v : val) : jstr :=
  let d := get_opt (oget differences model) ratioType in
  match List.find (λ e, strict_eq e.2 v) (entries (v_or (field d "upstreams") (VObj []))) with
  | Some e => e.1
  | None => unknown
  end.
Definition conflict_channels (unknown : jstr) (differences : obj) (model : jstr) (chosen : obj) : jstr :=
  join (u ", ") (set_array (map (λ kv, findSourceChannel unknown differences model kv.1 kv.2) chosen)).

Definition conflicts (c : ratios) (resolutions : obj) : list (jstr * obj) :=
  List.filter (λ mc, conflicting c mc.1 mc.2) (resolved resolutions).

(** [ratioType.split('_').map((word) => word.charAt(0).toUpperCase() + word.slice(1)).join('')];
    the types of ratios are ASCII. *)
Definition capitalize (s : jstr) : jstr := match s with [] => [] | c :: s => upper_unit c :: s end.
Definition optionKey (ratioType : jstr) : jstr := concat (map capitalize (split_on 95 ratioType)).

(** [o[model] = v]: assigning to [__proto__] makes no property. *)
Definition own_set (o : obj) (model : jstr) (v : val) : obj := if model =s u "__proto__" then o else obj_set o model v.

Definition upd (k : jstr) (f : obj → obj) (c : ratios) : res ratios :=
  if k =s u "ModelRatio" then
    Ok {| ModelRatio := f (ModelRatio c); CompletionRatio := CompletionRatio c; CacheRatio := CacheRatio c; ModelPrice := ModelPrice c |}
  else if k =s u "CompletionRatio" then
    Ok {| ModelRatio := ModelRatio c; CompletionRatio := f (CompletionRatio c); CacheRatio := CacheRatio c; ModelPrice := ModelPrice c |}
  else if k =s u "CacheRatio" then
    Ok {| ModelRatio := ModelRatio c; CompletionRatio := CompletionRatio c; CacheRatio := f (CacheRatio c); ModelPrice := ModelPrice c |}
  else if k =s u "ModelPrice" then
    Ok {| ModelRatio := ModelRatio c; CompletionRatio := CompletionRatio c; CacheRatio := CacheRatio c; ModelPrice := f (ModelPrice c) |}
  else Throw TypeError.

(** [finalRatios[optionKey][model] = parseFloat(value)] *)
Definition write_ratio (model : jstr) (c : ratios) (kv : jstr * val) : res ratios :=
  let! s := to_str kv.2 in
  upd (optionKey kv.1) (λ o, own_set o model (VNum (parseFloat s))) c.

(** A model is billed the way that was chosen, and no other. *)
Definition drop_other (model : jstr) (chosen : obj) (c : ratios) : ratios :=
  let hasPrice := bool_decide (PRICE ∈ obj_keys chosen) in
  let hasRatio := existsb (λ rt, negb (rt =s PRICE)) (obj_keys chosen) in
  let drop b o := if b : bool then obj_del o model else o in
  {| ModelRatio := drop hasPrice (ModelRatio c); CompletionRatio := drop hasPrice (CompletionRatio c);
     CacheRatio := drop hasPrice (CacheRatio c); ModelPrice := drop hasRatio (ModelPrice c) |}.

Definition write_model (c : ratios) (mc : jstr * obj) : res ratios := rfold (write_ratio mc.1) (drop_other mc.1 mc.2 c) mc.2.
Definition finalRatios (c : ratios) (resolutions : obj) : res ratios := rfold write_model c (resolved resolutions).

(** The four requests *)
Definition updates (c : ratios) : list (string * jstr) :=
  [("ModelRatio", stringify2_text (VObj (ModelRatio c))); ("CompletionRatio", stringify2_text (VObj (CompletionRatio c)));
   ("CacheRatio", stringify2_text (VObj (CacheRatio c))); ("ModelPrice", stringify2_text (VObj (ModelPrice c)))]%string.

(** What is still different after the options are stored *)
Definition drop_difference (model : jstr) (differences : obj) (ratioType : jstr) : obj :=
  match obj_get differences model with
  | Some (VObj o) =>
    if truthy (oget o ratioType) then
      match obj_del o ratioType with
      | [] => obj_del differences model
      | o' => obj_set differences model (VObj o')
      end
    else differences
  | _ => differences
  end.
Definition remaining (resolutions differences : obj) : obj :=
  fold_left (λ ds mc, fold_left (drop_difference mc.1) (obj_keys mc.2) ds) (resolved resolutions) differences.

(** ** The page *)

Record page := {
  options : obj; differences : obj; resolutions : obj; hasSynced : bool; loading : bool;
  conflictItems : list (jstr * obj); confirmVisible : bool;
}.

Inductive notice := Synced | PartlyFailed | SaveFailed | Found.

(** [performSync]: the requests, or the error that is thrown before them *)
Definition performSync (c : ratios) (p : page) : res (list (string * jstr)) := rmap updates (finalRatios c (resolutions p)).

(** The answers of the four requests: whether each was successful, or a failure *)
Definition sync_answered (answers : option (list bool)) (p : page) : page * notice :=
  match answers with
  | Some l =>
    if forallb id l then
      ({| options := options p; differences := remaining (resolutions p) (differences p); resolutions := [];
          hasSynced := hasSynced p; loading := false; conflictItems := conflictItems p; confirmVisible := confirmVisible p |}, Synced)
    else
      ({| options := options p; differences := differences p; resolutions := resolutions p; hasSynced := hasSynced p;
          loading := false; conflictItems := conflictItems p; confirmVisible := confirmVisible p |}, PartlyFailed)
  | None =>
    ({| options := options p; differences := differences p; resolutions := resolutions p; hasSynced := hasSynced p;
        loading := false; conflictItems := conflictItems p; confirmVisible := confirmVisible p |}, SaveFailed)
  end.

(** [applySync]: the dialog about the conflicts, or the requests *)
Definition applySync (p : page) : res (page + list (string * jstr)) :=
  let! c := currentRatios (options p) in
  match conflicts c (resolutions p) with
  | [] => rmap inr (performSync c p)
  | items =>
    Ok (inl {| options := options p; differences := differences p; resolutions := resolutions p; hasSynced := hasSynced p;
               loading := loading p; conflictItems := items; confirmVisible := true |})
  end.

(** The dialog is confirmed. *)
Definition confirmSync (p : page) : res (list (string * jstr)) :=
  let! c := currentRatios (options p) in performSync c p.

(** ** Theorems *)

(** *** The choices of the operator *)

(** The choices for a model are all of one category. *)
Definition choice_ok (v : val) : Prop :=
  ∃ o c, v = VObj o ∧ o ≠ [] ∧ obj_ok o ∧ Forall (λ kv, getBillingCategory kv.1 = c) o.
Definition resolutions_ok (r : obj) : Prop := obj_ok r ∧ Forall (λ kv, choice_ok kv.2) r.

Lemma choices_ok r m : resolutions_ok r → obj_ok (choices r m).
Proof.
  intros [_ Hr]. unfold choices. destruct (obj_get r m) as [v|] eqn:E; [|apply obj_ok_nil].
  apply obj_get_In in E. rewrite list.Forall_forall in Hr. destruct (Hr _ E) as (o & c & Hv & _ & Ho & _). cbn in Hv. by subst.
Qed.

Lemma filter_obj_ok (p : jstr * val → bool) o : obj_ok o → obj_ok (List.filter p o).
Proof.
  unfold obj_ok, obj_keys. induction o as [|kv o IH]; cbn; [done|]. intros [Ho Hf]%StronglySorted_inv.
  destruct (p kv); [|by apply IH]. cbn. constructor; [by apply IH|].
  rewrite Forall_map in *. apply list.Forall_forall. intros x [Hx _]%elem_of_filter_bool.
  rewrite list.Forall_forall in Hf. auto.
Qed.

Lemma obj_set_nonempty o k v : obj_set o k v ≠ [].
Proof.
  intros E. assert (obj_get (obj_set o k v) k = None) as H by (by rewrite E). by rewrite obj_get_set, decide_True in H.
Qed.

Lemma select_ok m rt v r : resolutions_ok r → resolutions_ok (selectValue m rt v r).
Proof.
  intros Hr. pose proof (choices_ok r m Hr) as Hc. destruct Hr as [Ho Hf]. unfold selectValue.
  split; [by apply obj_ok_set|]. apply (obj_set_Forall (λ kv, choice_ok kv.2)); [done|]. cbn.
  eexists _, (getBillingCategory rt). split_and!; [done|apply obj_set_nonempty|by apply obj_ok_set, filter_obj_ok|].
  apply (obj_set_Forall (λ kv, getBillingCategory kv.1 = getBillingCategory rt)); [|done].
  apply list.Forall_forall. intros kv [_ Hk]%elem_of_filter_bool. by apply bool_decide_eq_true in Hk.
Qed.

Lemma clear_ok m rt r : resolutions_ok r → resolutions_ok (clear_value m rt r).
Proof.
  intros [Ho Hf]. unfold clear_value. destruct (obj_get r m) as [v|] eqn:E; [|done]. destruct v as [| | | | | |o|]; try done.
  pose proof (obj_get_In _ _ _ E) as Hin. rewrite list.Forall_forall in Hf.
  destruct (Hf _ Hin) as (o' & c & [= <-] & _ & Hoo & Hc). destruct (obj_del o rt) as [|x o'] eqn:Ed.
  - split; [by apply obj_ok_del|]. apply obj_del_Forall. by apply list.Forall_forall.
  - split; [by apply obj_ok_set|]. apply (obj_set_Forall (λ kv, choice_ok kv.2)); [by apply list.Forall_forall|].
    exists (x :: o'), c. split_and!; [done|done| |]; rewrite <- Ed; [by apply obj_ok_del|by apply obj_del_Forall].
Qed.

(** What the operator can do to the choices *)
Inductive chosen : obj → Prop :=
| no_choice : chosen []
| ticked m rt v r : chosen r → chosen (selectValue m rt v r)
| unticked m rt r : chosen r → chosen (clear_value m rt r)
| bulk up rows b r : chosen r → chosen (handleBulkSelect up rows b r).

Lemma chosen_ok r : chosen r → resolutions_ok r.
Proof.
  induction 1 as [|m rt v r _ IH|m rt r _ IH|up rows b r _ IH];
    [split; [apply obj_ok_nil|constructor]|by apply select_ok|by apply clear_ok|].
  unfold handleBulkSelect. destruct b; revert r IH; induction rows as [|x rows IHr]; intros r Hr; cbn; try done; apply IHr.
  - destruct (offered up x); [by apply select_ok|done].
  - by apply clear_ok.
Qed.

(** *** What is written *)

(** The four types of ratios, and the option of each *)
Definition TYPES : list jstr := map u ["model_ratio"; "completion_ratio"; "cache_ratio"; "model_price"]%string.
Definition table (c : ratios) (rt : jstr) : obj :=
  if rt =s u "model_ratio" then ModelRatio c
  else if rt =s u "completion_ratio" then CompletionRatio c
  else if rt =s u "cache_ratio" then CacheRatio c
  else ModelPrice c.
Definition tables_ok (c : ratios) : Prop := ∀ rt, rt ∈ TYPES → obj_ok (table c rt).

(** The number a chosen value is written as *)
Definition number_of (v : val) : val := VNum (parseFloat (rcatch (to_str v) [])).

(** What an option says of a model afterwards: a chosen value, the value before where the
    category stays, nothing where it changes *)
Definition billed (chosen : obj) (rt : jstr) (old : option val) : option val :=
  match chosen with
  | [] => old
  | kv :: _ =>
    match obj_get chosen rt with
    | Some v => Some (number_of v)
    | None => if bool_decide (getBillingCategory kv.1 = getBillingCategory rt) then old else None
    end
  end.

Lemma types_cases (P : jstr → Prop) : P (u "model_ratio") → P (u "completion_ratio") → P (u "cache_ratio") → P PRICE → ∀ rt, rt ∈ TYPES → P rt.
Proof. intros H1 H2 H3 H4 rt Hrt%list_elem_of_In. cbn in Hrt. by destruct Hrt as [<-|[<-|[<-|[<-|[]]]]]. Qed.

Lemma upd_table rt f c :
  rt ∈ TYPES → ∃ c', upd (optionKey rt) f c = Ok c' ∧
    ∀ rt', rt' ∈ TYPES → table c' rt' = if decide (rt = rt') then f (table c rt) else table c rt'.
Proof.
  revert rt. apply types_cases; (eexists; split; [reflexivity|]); apply types_cases; reflexivity.
Qed.

Lemma own_set_get o m v m' : m ≠ u "__proto__" → obj_get (own_set o m v) m' = if decide (m = m') then Some v else obj_get o m'.
Proof. intros Hm. unfold own_set. rewrite bool_decide_false by done. apply obj_get_set. Qed.

Lemma own_set_ok o m v : obj_ok o → obj_ok (own_set o m v).
Proof. intros Ho. unfold own_set. case_bool_decide; [done|by apply obj_ok_set]. Qed.

Lemma write_ratio_spec m c kv c' :
  kv.1 ∈ TYPES → write_ratio m c kv = Ok c' →
  ∀ rt, rt ∈ TYPES →
    table c' rt = if decide (kv.1 = rt) then own_set (table c rt) m (number_of kv.2) else table c rt.
Proof.
  intros Hk H rt Hrt. unfold write_ratio, number_of in *. destruct (to_str kv.2) as [s|]; [|done]. cbn [rbind rcatch] in *.
  destruct (upd_table kv.1 (λ o, own_set o m (VNum (parseFloat s))) c Hk) as (c1 & E & Ht).
  rewrite E in H. apply Ok_inj in H as <-. rewrite (Ht rt Hrt). case_decide; [by subst|done].
Qed.

Lemma write_ratios m kvs c c' :
  m ≠ u "__proto__" → NoDup (map fst kvs) → Forall (λ kv, kv.1 ∈ TYPES) kvs →
  rfold (write_ratio m) c kvs = Ok c' →
  ∀ rt, rt ∈ TYPES →
    (obj_ok (table c rt) → obj_ok (table c' rt)) ∧
    ∀ m', obj_get (table c' rt) m' =
          match obj_get kvs rt with
          | Some v => if decide (m = m') then Some (number_of v) else obj_get (table c rt) m'
          | None => obj_get (table c rt) m'
          end.
Proof.
  intros Hm Hn Hk. revert c. induction Hk as [|[k v] kvs Hk _ IH]; intros c H rt Hrt.
  { cbn in H. apply Ok_inj in H as <-. done. }
  cbn [rfold] in H. destruct (write_ratio m c (k, v)) as [c1|] eqn:E; [|done]. cbn [rbind] in H.
  cbn [map fst] in Hn. apply NoDup_cons in Hn as [Hnk Hn].
  pose proof (write_ratio_spec _ _ _ _ Hk E rt Hrt) as Ht. cbn [fst snd] in Ht.
  destruct (IH Hn c1 H rt Hrt) as [Hok Hget]. rewrite Ht in Hok, Hget. cbn [obj_get]. split.
  - intros Ho. apply Hok. case_decide; [by apply own_set_ok|done].
  - intros m'. rewrite Hget. destruct (decide (k = rt)) as [->|Hne].
    + rewrite bool_decide_true by done. apply (obj_get_keys kvs rt) in Hnk. rewrite Hnk. by apply own_set_get.
    + by rewrite bool_decide_false.
Qed.

Lemma category_price rt : getBillingCategory rt = Price ↔ rt = PRICE.
Proof. unfold getBillingCategory. by case_bool_decide. Qed.

Lemma table_price c : table c PRICE = ModelPrice c.
Proof. reflexivity. Qed.

(** Exactly the options of the other category lose the model. *)
Lemma drop_other_table m ch c rt k0 cat :
  rt ∈ TYPES → k0 ∈ obj_keys ch → Forall (λ kv, getBillingCategory kv.1 = cat) ch →
  table (drop_other m ch c) rt =
  if bool_decide (cat = getBillingCategory rt) then table c rt else obj_del (table c rt) m.
Proof.
  intros Hrt Hk0 Hcat. assert (∀ k, k ∈ obj_keys ch → getBillingCategory k = cat) as Hc.
  { intros k (kv & -> & Hkv)%list_elem_of_fmap. rewrite list.Forall_forall in Hcat. by apply Hcat. }
  assert (bool_decide (PRICE ∈ obj_keys ch) = bool_decide (cat = Price)) as Hp.
  { apply bool_decide_ext. split; [by intros <-%Hc|]. intros ->. by rewrite <- (proj1 (category_price k0) (Hc k0 Hk0)). }
  assert (existsb (λ rt, negb (rt =s PRICE)) (obj_keys ch) = bool_decide (cat = Ratio)) as Hr.
  { destruct (bool_decide (cat = Ratio)) eqn:E.
    - apply bool_decide_eq_true in E as ->. apply existsb_exists. exists k0. split; [by apply list_elem_of_In|].
      apply negb_true_iff, bool_decide_eq_false. intros ->. by specialize (Hc _ Hk0).
    - apply bool_decide_eq_false in E. apply not_true_is_false. intros (k & Hk & Hne)%existsb_exists.
      apply list_elem_of_In, Hc in Hk. apply negb_true_iff, bool_decide_eq_false in Hne. destruct cat; [|done].
      by apply category_price in Hk. }
  unfold drop_other. cbn zeta. rewrite Hp, Hr. revert rt Hrt. apply types_cases; destruct cat; reflexivity.
Qed.

(** Choices that can be written *)
Definition writable (ch : obj) : Prop := Forall (λ kv, kv.1 ∈ TYPES ∧ ∃ n, kv.2 = VNum n) ch.

Lemma writable_types ch : writable ch → Forall (λ kv, kv.1 ∈ TYPES) ch.
Proof. intros H. eapply list.Forall_impl; [exact H|]. by intros kv [Hk _]. Qed.

(** Writing never fails on such choices. *)
Lemma write_ratios_total m ch c : writable ch → ∃ c', rfold (write_ratio m) c ch = Ok c'.
Proof.
  intros H. revert c. induction H as [|[k v] ch [Hk [n Hn]] _ IH]; intros c; [by eexists|]. cbn [fst snd] in *. subst v.
  cbn [rfold]. unfold write_ratio. cbn [fst snd]. change (to_str (VNum n)) with (Ok (num_to_string n)). cbn [rbind].
  destruct (upd_table k (λ o, own_set o m (VNum (parseFloat (num_to_string n)))) c Hk) as (c1 & E & _). rewrite E. apply IH.
Qed.

(** What is written, by the category of the choices *)
Lemma billed_category ch rt old cat :
  ch ≠ [] → Forall (λ kv, getBillingCategory kv.1 = cat) ch →
  billed ch rt old = match obj_get ch rt with
                     | Some v => Some (number_of v)
                     | None => if bool_decide (cat = getBillingCategory rt) then old else None
                     end.
Proof. destruct ch as [|kv ch]; [done|]. intros _ [<- _]%list.Forall_cons. done. Qed.

Lemma new_category_eq ch cat :
  ch ≠ [] → Forall (λ kv, getBillingCategory kv.1 = cat) ch → new_category ch = cat.
Proof.
  intros Hne Hc. destruct ch as [|[k v] ch]; [done|]. unfold new_category, obj_has. case_bool_decide as Hp.
  - destruct Hp as [w Hw%obj_get_In]. rewrite list.Forall_forall in Hc. by rewrite <- (Hc _ Hw).
  - apply list.Forall_cons in Hc as [Hk _]. cbn in Hk. destruct cat; [|done]. apply category_price in Hk as ->.
    exfalso. apply Hp. cbn. rewrite bool_decide_true by done. by eexists.
Qed.

Lemma write_model_spec c m ch c' :
  m ≠ u "__proto__" → choice_ok (VObj ch) → writable ch → tables_ok c → write_model c (m, ch) = Ok c' →
  tables_ok c' ∧ ∀ rt, rt ∈ TYPES → ∀ m', obj_get (table c' rt) m' =
    if decide (m = m') then billed ch rt (obj_get (table c rt) m) else obj_get (table c rt) m'.
Proof.
  intros Hm (o & cat & [= <-] & Hne & Ho & Hcat) Hw%writable_types Hok Hres. destruct ch as [|[k0 v0] ch0] eqn:Ech; [done|]. rewrite <- Ech in *.
  assert (k0 ∈ obj_keys ch) as Hk0 by (rewrite Ech; constructor).
  assert (getBillingCategory k0 = cat) as Hk0c by (rewrite Ech in Hcat; apply list.Forall_cons in Hcat; tauto).
  unfold write_model in Hres. cbn [fst snd] in Hres.
  assert (∀ rt, rt ∈ TYPES → ∀ m', obj_get (table (drop_other m ch c) rt) m' =
    if decide (m = m') then if bool_decide (cat = getBillingCategory rt) then obj_get (table c rt) m' else None
    else obj_get (table c rt) m') as Hdrop.
  { intros rt Hrt m'. rewrite (drop_other_table m ch c rt k0 cat) by done. case_bool_decide; [by case_decide|].
    case_decide as Em; [subst m'; by apply obj_get_del, Hok|by apply obj_get_del_ne]. }
  split.
  - intros rt Hrt. eapply (write_ratios m ch _ c' Hm (obj_ok_NoDup _ Ho) Hw Hres rt Hrt).
    rewrite (drop_other_table m ch c rt k0 cat) by done. case_bool_decide; [by apply Hok|by apply obj_ok_del, Hok].
  - intros rt Hrt m'. destruct (write_ratios m ch _ c' Hm (obj_ok_NoDup _ Ho) Hw Hres rt Hrt) as [_ ->].
    rewrite (Hdrop rt Hrt), (billed_category ch rt _ cat) by done.
    destruct (obj_get ch rt); case_decide; by subst.
Qed.

(** Everything chosen can be written. *)
Definition all_writable (r : obj) : Prop :=
  Forall (λ kv, kv.1 ≠ u "__proto__" ∧ ∃ ch, kv.2 = VObj ch ∧ writable ch) r.

Lemma choices_cons k v r m : choices ((k, v) :: r) m = if k =s m then match v with VObj o => o | _ => [] end else choices r m.
Proof. unfold choices. cbn [obj_get]. by case_bool_decide. Qed.

Lemma choices_none r m : m ∉ map fst r → choices r m = [].
Proof. intros Hm. unfold choices. apply (obj_get_keys r m) in Hm. by rewrite Hm. Qed.

(** After the choices are written every option says of every model what it should. *)
Lemma final_tables r c c' :
  NoDup (map fst r) → Forall (λ kv, choice_ok kv.2) r → all_writable r → tables_ok c → finalRatios c r = Ok c' →
  tables_ok c' ∧
  ∀ rt m, rt ∈ TYPES → obj_get (table c' rt) m = billed (choices r m) rt (obj_get (table c rt) m).
Proof.
  unfold finalRatios. revert c. induction r as [|[k v] r IH]; intros c Hn Hc Hw Hok H.
  { cbn in H. apply Ok_inj in H as <-. done. }
  cbn [map fst] in Hn. apply NoDup_cons in Hn as [Hk Hn]. apply list.Forall_cons in Hc as [Hv Hc].
  apply list.Forall_cons in Hw as [(Hkp & ch & Ev & Hch) Hw]. cbn [fst snd] in *. subst v.
  cbn [resolved map rfold fst snd] in H. fold (resolved r) in H.
  destruct (write_model c (k, ch)) as [c1|] eqn:E; [|done]. cbn [rbind] in H.
  destruct (write_model_spec _ _ _ _ Hkp Hv Hch Hok E) as [Hok1 H1].
  destruct (IH c1 Hn Hc Hw Hok1 H) as [Hok' H2]. split; [done|].
  intros rt m Hrt. rewrite H2, H1, choices_cons by done. destruct (decide (k = m)) as [<-|Hne].
  - rewrite bool_decide_true by done. by rewrite choices_none.
  - by rewrite bool_decide_false.
Qed.

Lemma final_total r c : all_writable r → ∃ c', finalRatios c r = Ok c'.
Proof.
  unfold finalRatios. intros H. revert c. induction H as [|[k v] r (_ & ch & Ev & Hch) _ IH]; intros c; [by eexists|].
  cbn [fst snd] in *. subst v. cbn [resolved map rfold fst snd]. unfold write_model at 1. cbn [fst snd].
  destruct (write_ratios_total k ch (drop_other k ch c) Hch) as [c1 ->]. apply IH.
Qed.

(** C15: writing the choices changes exactly what was chosen: for a model without choices
    nothing; for a model with choices of ratios the chosen ones, with its price removed and
    its other ratios kept; for a model with a chosen price the price, with its ratios
    removed. *)
Theorem synced_exact r c :
  chosen r → all_writable r → tables_ok c →
  ∃ c', finalRatios c r = Ok c' ∧
    ∀ rt m, rt ∈ TYPES → obj_get (table c' rt) m = billed (choices r m) rt (obj_get (table c rt) m).
Proof.
  intros Hr Hw Hok. destruct (final_total r c Hw) as [c' H]. exists c'. split; [done|].
  destruct (chosen_ok r Hr) as [Ho Hc]. by destruct (final_tables r c c' (obj_ok_NoDup _ Ho) Hc Hw Hok H).
Qed.

Lemma parseFloat_num_to_string x :
  num_wf x → isFinite x = true → neg_zero x = false → parseFloat (num_to_string x) = x.
Proof.
  intros Hwf Hfin Hz.
  destruct (num_to_string_shape x Hwf Hfin Hz) as (neg & i & f & ex & E & s & p & -> & Hs & <-).
  pose proof (scan_udec_shape _ _ _ _ _ _ [] Hs num_end_nil) as Hscan. rewrite app_nil_r in Hscan.
  pose proof (shape_not_ws _ _ _ _ _ _ Hs) as Hws. set (t := i ++ frac_text f ++ ex) in *.
  destruct Hs as [Hi _ Hne _ _ _]. unfold parseFloat.
  assert (trim_start ((if neg then [45] else []) ++ t) = (if neg then [45] else []) ++ t) as ->.
  { apply trim_start_fixed. intros c r E'. destruct neg; [by injection E' as <- _|].
    cbn in E'. rewrite E' in Hws. by apply list.Forall_cons in Hws as [? _]. }
  assert (take_sign ((if neg then [45] else []) ++ t) = (neg, t)) as ->
    by (destruct neg; [done|subst t; by apply (take_sign_digits i)]).
  assert (starts_with (u "Infinity") t = false) as ->; [|by rewrite Hscan].
  subst t. destruct i as [|c i]; [done|]. apply list.Forall_cons in Hi as [Hc%is_digit_spec _].
  vm_compute (u "Infinity"). cbn [app starts_with]. destruct (Z.eqb_spec 73 c); [lia|done].
Qed.

(** A chosen number is written as it is. *)
Theorem chosen_number_exact n :
  num_wf n → isFinite n = true → neg_zero n = false → number_of (VNum n) = VNum n.
Proof.
  intros Hw Hf Hz. unfold number_of. change (to_str (VNum n)) with (Ok (num_to_string n)). cbn [rcatch].
  by rewrite parseFloat_num_to_string.
Qed.

Lemma has_value_get o m : is_undef (proto_get m) = true → has_value o m = true ↔ ∃ v, obj_get o m = Some v ∧ is_undef v = false.
Proof.
  intros Hm. unfold has_value, oget. rewrite negb_true_iff. destruct (obj_get o m) as [v|]; cbn; [naive_solver|].
  rewrite Hm. naive_solver.
Qed.

Lemma choices_In r m : choices r m ≠ [] → ∃ ch, (m, VObj ch) ∈ r ∧ choices r m = ch.
Proof.
  unfold choices. destruct (obj_get r m) as [v|] eqn:E; [|done]. destruct v; try done. intros _.
  eexists. split; [by apply obj_get_In|done].
Qed.

(** The tables decide the category. *)
Lemma category_of c m k :
  is_undef (proto_get m) = true →
  getLocalBillingCategory c m = Some k ↔
  match k with
  | Price => has_value (table c PRICE) m = true
  | Ratio => has_value (table c PRICE) m = false ∧ ∃ rt, rt ∈ TYPES ∧ rt ≠ PRICE ∧ has_value (table c rt) m = true
  end.
Proof.
  intros _. unfold getLocalBillingCategory. rewrite table_price.
  assert ((∃ rt, rt ∈ TYPES ∧ rt ≠ PRICE ∧ has_value (table c rt) m = true) ↔
    has_value (ModelRatio c) m || has_value (CompletionRatio c) m || has_value (CacheRatio c) m = true) as Hr.
  { rewrite !orb_true_iff. split.
    - intros (rt & Hrt & Hne & Hv). revert rt Hrt Hne Hv.
      refine (types_cases _ _ _ _ _); intros Hne Hv; [tauto..|done].
    - intros [[H|H]|H]; [exists (u "model_ratio")|exists (u "completion_ratio")|exists (u "cache_ratio")];
        (split_and!; [apply (bool_decide_eq_true_1 _); reflexivity|by apply (bool_decide_eq_true_1 _)|exact H]). }
  destruct k; rewrite ?Hr; repeat case_match; naive_solver.
Qed.

(** A model keeps its category, where its choices are of that category. *)
Lemma category_kept c c' m ch k :
  is_undef (proto_get m) = true →
  (∀ rt, rt ∈ TYPES → obj_get (table c' rt) m = billed ch rt (obj_get (table c rt) m)) →
  (ch ≠ [] → ∃ cat, Forall (λ kv, getBillingCategory kv.1 = cat) ch ∧ conflicting c m ch = false) →
  getLocalBillingCategory c m = Some k → getLocalBillingCategory c' m = Some k.
Proof.
  intros Hm Ht Hch Hk. assert (Forall (λ kv, getBillingCategory kv.1 = k) ch) as Hcat.
  { destruct (decide (ch = [])) as [->|Hne]; [constructor|]. destruct (Hch Hne) as (cat & Hc & Hcf).
    unfold conflicting in Hcf. rewrite Hk, (new_category_eq ch cat) in Hcf by done.
    apply negb_false_iff, bool_decide_eq_true in Hcf as ->. done. }
  assert (Hsame : ∀ rt, rt ∈ TYPES → getBillingCategory rt = k → has_value (table c rt) m = true → has_value (table c' rt) m = true).
  { intros rt Hrt Hrk Hv. rewrite has_value_get in Hv |- * by done. destruct Hv as (v & Hv & Hu). rewrite (Ht rt Hrt), Hv.
    destruct (decide (ch = [])) as [->|Hne]; [by exists v|]. rewrite (billed_category ch rt _ k) by done.
    destruct (obj_get ch rt); [by eexists|]. rewrite bool_decide_true by done. by exists v. }
  assert (PRICE ∈ TYPES) as HP by (apply (bool_decide_eq_true_1 _); reflexivity).
  rewrite category_of in Hk |- * by done. destruct k; [by apply Hsame|]. destruct Hk as (Hp & rt & Hrt & Hne & Hv).
  split; [|exists rt; split_and!; [done..|]; apply Hsame; [done| |done]; unfold getBillingCategory; by rewrite bool_decide_false].
  apply not_true_is_false. rewrite has_value_get by done. intros (v & Hg & Hu). rewrite (Ht _ HP) in Hg.
  assert (¬ has_value (table c PRICE) m = true) as Hp' by (by rewrite Hp). apply Hp'. rewrite has_value_get by done.
  destruct (decide (ch = [])) as [->|Hne']; [by exists v|]. rewrite (billed_category ch PRICE _ Ratio) in Hg by done.
  destruct (obj_get ch PRICE) as [w|] eqn:Ew; [|done]. apply obj_get_In in Ew. rewrite list.Forall_forall in Hcat.
  by specialize (Hcat _ Ew).
Qed.

(** C16: options that are written without a confirmation change the way no model is billed. *)
Theorem unconfirmed_keeps_billing p c reqs :
  chosen (resolutions p) → all_writable (resolutions p) →
  currentRatios (options p) = Ok c → tables_ok c → applySync p = Ok (inr reqs) →
  ∃ c', reqs = updates c' ∧
    ∀ m k, is_undef (proto_get m) = true → getLocalBillingCategory c m = Some k → getLocalBillingCategory c' m = Some k.
Proof.
  intros Hr Hw Hcur Hok H. unfold applySync in H. rewrite Hcur in H. cbn [rbind] in H.
  destruct (conflicts c (resolutions p)) eqn:Econf; [|done]. unfold performSync in H.
  destruct (finalRatios c (resolutions p)) as [c'|] eqn:E; [|done]. cbn in H. apply Ok_inj in H. injection H as <-.
  exists c'. split; [done|]. destruct (chosen_ok _ Hr) as [Ho Hc].
  destruct (final_tables _ _ _ (obj_ok_NoDup _ Ho) Hc Hw Hok E) as [_ Ht].
  intros m k Hm. apply (category_kept c c' m (choices (resolutions p) m)); [done| |].
  - intros rt Hrt. by apply Ht.
  - intros Hne. destruct (choices_In (resolutions p) m Hne) as (ch & Hin & Ech). rewrite Ech in *.
    rewrite list.Forall_forall in Hc. destruct (Hc _ Hin) as (o & cat & [= <-] & _ & Hoo & Hcat). exists cat.
    split; [done|]. assert (conflicting c m ch = false) as Hcf.
    { apply not_true_is_false. intros Hcf. assert ((m, ch) ∈ conflicts c (resolutions p)) as Hi; [|rewrite Econf in Hi; set_solver].
      apply elem_of_filter_bool. split; [|done]. unfold resolved. apply list_elem_of_fmap. by exists (m, VObj ch). }
    done.
Qed.

(** *** What is left of the differences *)

Definition difference (ds : obj) (m rt : jstr) : option val :=
  match obj_get ds m with Some (VObj o) => obj_get o rt | _ => None end.

(** Differences as the server sends them *)
Definition differences_ok (ds : obj) : Prop :=
  obj_ok ds ∧ Forall (λ kv, ∃ o, kv.2 = VObj o ∧ obj_ok o ∧ Forall (λ x, truthy x.2 = true) o) ds.

Lemma drop_difference_spec m ds rt :
  differences_ok ds →
  differences_ok (drop_difference m ds rt) ∧
  ∀ m' rt', difference (drop_difference m ds rt) m' rt' = if decide (m = m' ∧ rt = rt') then None else difference ds m' rt'.
Proof.
  intros [Ho Hf]. unfold drop_difference, difference. destruct (obj_get ds m) as [v|] eqn:E.
  2: { split; [done|]. intros m' rt'. case_decide as Hd; [|done]. destruct Hd as [<- _]. by rewrite E. }
  pose proof (obj_get_In _ _ _ E) as Hin. pose proof Hf as Hf'. rewrite list.Forall_forall in Hf'.
  destruct (Hf' _ Hin) as (o & Ev & Hoo & Ht). cbn in Ev. subst v.
  assert (truthy (oget o rt) = false → obj_get o rt = None) as Hnone.
  { unfold oget. destruct (obj_get o rt) as [w|] eqn:Ew; [|done]. cbn. apply obj_get_In in Ew.
    rewrite list.Forall_forall in Ht. specialize (Ht _ Ew). cbn in Ht. by rewrite Ht. }
  destruct (truthy (oget o rt)) eqn:Et.
  2: { split; [done|]. intros m' rt'. case_decide as Hd; [|done]. destruct Hd as [<- <-]. rewrite E. auto. }
  assert (∀ rt', obj_get (obj_del o rt) rt' = if decide (rt = rt') then None else obj_get o rt') as Hdel.
  { intros rt'. case_decide as Hd; [subst; by apply obj_get_del|by apply obj_get_del_ne]. }
  destruct (obj_del o rt) as [|x o'] eqn:Ed.
  - split; [split; [by apply obj_ok_del|by apply obj_del_Forall]|]. intros m' rt'. destruct (decide (m = m')) as [<-|Hm].
    + rewrite obj_get_del by done. specialize (Hdel rt'). rewrite E. cbn in Hdel. repeat case_decide; naive_solver.
    + rewrite obj_get_del_ne by done. by rewrite decide_False by naive_solver.
  - split.
    + split; [by apply obj_ok_set|]. apply (obj_set_Forall (λ kv, ∃ o, kv.2 = VObj o ∧ _)); [done|]. cbn. eexists.
      split; [done|]. rewrite <- Ed. split; [by apply obj_ok_del|by apply obj_del_Forall].
    + intros m' rt'. rewrite obj_get_set. destruct (decide (m = m')) as [<-|Hm].
      * rewrite E, Hdel. repeat case_decide; naive_solver.
      * by rewrite decide_False by naive_solver.
Qed.

Lemma drop_differences m rts ds :
  differences_ok ds →
  differences_ok (fold_left (drop_difference m) rts ds) ∧
  ∀ m' rt', difference (fold_left (drop_difference m) rts ds) m' rt' =
            if decide (m = m' ∧ rt' ∈ rts) then None else difference ds m' rt'.
Proof.
  revert ds. induction rts as [|rt rts IH]; intros ds Hd; cbn [fold_left].
  { split; [done|]. intros m' rt'. rewrite decide_False by set_solver. done. }
  destruct (drop_difference_spec m ds rt Hd) as [Hd1 H1]. destruct (IH _ Hd1) as [Hd2 H2]. split; [done|].
  intros m' rt'. rewrite H2, H1. repeat case_decide; try done; set_solver.
Qed.

(** Once the options are stored, exactly the differences that were chosen are gone, and
    nothing is chosen any more. *)
Theorem stored_differences_gone p answers :
  chosen (resolutions p) → differences_ok (differences p) → forallb id answers = true →
  ∃ p', sync_answered (Some answers) p = (p', Synced) ∧ resolutions p' = [] ∧
    ∀ m rt, difference (differences p') m rt =
            if decide (rt ∈ obj_keys (choices (resolutions p) m)) then None else difference (differences p) m rt.
Proof.
  intros Hr Hd Ha. cbn [sync_answered]. rewrite Ha. eexists. split; [done|]. split; [done|].
  destruct (chosen_ok _ Hr) as [Ho _]. apply obj_ok_NoDup in Ho. cbn [differences]. unfold remaining.
  revert Hd. generalize (differences p). clear -Ho. induction (resolutions p) as [|[k v] r IH]; intros ds Hd m rt.
  { cbn. rewrite decide_False by set_solver. done. }
  cbn [map fst] in Ho. apply NoDup_cons in Ho as [Hk Ho]. cbn [resolved map fold_left fst snd]. fold (resolved r).
  set (ch := match v with VObj o => o | _ => [] end).
  destruct (drop_differences k (obj_keys ch) ds Hd) as [Hd1 H1]. rewrite (IH Ho _ Hd1), H1, choices_cons. fold ch.
  case_bool_decide as E.
  - subst m. rewrite (choices_none r k) by done. rewrite (decide_False (P := rt ∈ obj_keys [])) by set_solver.
    repeat case_decide; try done; naive_solver.
  - rewrite (decide_False (P := k = m ∧ _)) by naive_solver. done.
Qed.

(** ** Examples *)

Definition num (z : Z) : val := VNum (of_Z z).
Definition sample_differences : obj :=
  [(u "m1", VObj [(u "model_ratio", VObj [(u "upstreams", VObj [(u "A", num 2); (u "B", num 3)])]);
                  (u "model_price", VObj [(u "upstreams", VObj [(u "A", num 5); (u "B", VStr (u "same"))])])]);
   (u "m2", VObj [(u "model_ratio", VObj [(u "upstreams", VObj [(u "A", VStr (u "same")); (u "B", num 7)])])])].

(** Ticking a whole column keeps the last category of a model that has both: the box of the
    column is never fully ticked. *)
Example column_with_conflict :
  let rows := dataSource sample_differences in
  let r := handleBulkSelect (u "A") rows true [] in
  r = [(u "m1", VObj [(u "model_price", num 5)])] ∧ channelStats (u "A") r rows = (2%nat, 1%nat).
Proof. split; vm_compute; reflexivity. Qed.

(** Clearing a column clears the choices from the other columns too. *)
Example column_clears_others :
  let rows := dataSource sample_differences in
  let r := selectValue (u "m2") (u "model_ratio") (num 7) [] in
  offered (u "A") (nth 2 rows (nth 0 rows {| row_model := []; row_type := []; row_diff := VNull; billingConflict := false |})) = None ∧
  handleBulkSelect (u "A") rows false r = [].
Proof. split; vm_compute; reflexivity. Qed.

Definition sample_options : obj :=
  [(u "ModelRatio", VStr (uq "{'m2':1,'m3':4}")); (u "ModelPrice", VStr (uq "{'m1':9}"))].
Definition sample_page (r : obj) : page :=
  {| options := sample_options; differences := sample_differences; resolutions := r; hasSynced := true; loading := false;
     conflictItems := []; confirmVisible := false |}.

Example synced_requests :
  applySync (sample_page (selectValue (u "m2") (u "model_ratio") (num 7) [])) =
  Ok (inr [("ModelRatio"%string, u "{" ++ [10] ++ uq "  'm2': 7," ++ [10] ++ uq "  'm3': 4" ++ [10] ++ u "}");
           ("CompletionRatio"%string, u "{}"); ("CacheRatio"%string, u "{}");
           ("ModelPrice"%string, u "{" ++ [10] ++ uq "  'm1': 9" ++ [10] ++ u "}")]).
Proof. vm_compute. reflexivity. Qed.

(** A model with a price asks before it gets a ratio. *)
Example conflict_asks :
  rmap (λ x, match x with inl p => confirmVisible p | inr _ => false end)
    (applySync (sample_page (selectValue (u "m1") (u "model_ratio") (num 2) []))) = Ok true.
Proof. vm_compute. reflexivity. Qed.

(** Witnesses *)
Definition sample_choice : obj := selectValue (u "m2") (u "model_ratio") (num 7) [].

Lemma sample_chosen : chosen sample_choice.
Proof. apply ticked, no_choice. Qed.

Lemma sample_writable : all_writable sample_choice.
Proof.
  apply Forall_cons_2; [|apply Forall_nil_2]. split; [by apply (bool_decide_eq_true_1 _)|].
  eexists. split; [reflexivity|]. apply Forall_cons_2; [|apply Forall_nil_2].
  split; [apply (bool_decide_eq_true_1 _); reflexivity|by eexists].
Qed.

Definition sample_ratios : ratios :=
  {| ModelRatio := [(u "m2", num 1); (u "m3", num 4)]; CompletionRatio := []; CacheRatio := []; ModelPrice := [(u "m1", num 9)] |}.

Lemma sample_tables : tables_ok sample_ratios.
Proof. unfold tables_ok. refine (types_cases _ _ _ _ _); by apply keys_okb_ok. Qed.

Lemma synced_exact_witness :
  ∃ c', finalRatios sample_ratios sample_choice = Ok c' ∧
    ∀ rt m, rt ∈ TYPES →
      obj_get (table c' rt) m = billed (choices sample_choice m) rt (obj_get (table sample_ratios rt) m).
Proof. apply (synced_exact sample_choice sample_ratios); [apply sample_chosen|apply sample_writable|apply sample_tables]. Defined.

Definition sample_requests : list (string * jstr) :=
  match applySync (sample_page sample_choice) with Ok (inr l) => l | _ => [] end.

Lemma unconfirmed_keeps_billing_witness :
  ∃ c', sample_requests = updates c' ∧
    ∀ m k, is_undef (proto_get m) = true → getLocalBillingCategory sample_ratios m = Some k →
           getLocalBillingCategory c' m = Some k.
Proof.
  apply (unconfirmed_keeps_billing (sample_page sample_choice)).
  - apply sample_chosen.
  - apply sample_writable.
  - vm_compute. reflexivity.
  - apply sample_tables.
  - vm_compute. reflexivity.
Defined.
