(* ===== verification/ChannelTable.v ===== *)
(** * The table of channels (hooks/channels/useChannelsData.jsx)

    Loading and searching of channels, the rows that gather the channels of a tag, the
    counts by type, the changes of single channels and tags, the columns that are stored in
    the browser, and the batches in which the models of a channel are tested.

    [tag_rows_exact]: the tag rows are the tags of the listing, each with its channels, the
    exact sum of their quotas, and their common priority and weight.  [type_counts_exact]: the
    counts by type.  [latest_load_shown]: however the replies are interleaved, the table shows
    the reply to the request that was sent last.  [batch_tally_exact]: a batch test asks for
    each model once, five at a time, and its summary counts the replies.
    [columns_read_back]: the stored columns.  Replies are applied to the list that is shown;
    that a handler may still hold an earlier one is not modelled. *)

From S2P Require Import Prelude JsString JsNumber JsRounding JsValue Json Dashboard UpstreamUpdates.

Local Open Scope Z_scope.

Definition fld (o : obj) (k : string) : val := oget o (u k).
Definition numZ (z : Z) : val := VNum (of_Z z).

(** ** Rows *)

(** A channel of the server with what the table adds to it *)
Record channel := { data : obj; upstreamUpdateMeta : meta; key : jstr }.

Definition annotate (o : obj) : res channel :=
  let! m := parseUpstreamUpdateMeta (fld o "settings") in
  let! k := to_str (fld o "id") in
  Ok {| data := o; upstreamUpdateMeta := m; key := k |}.

(** The row of a tag *)
Record tag_row := {
  tag : jstr;                      (* also its key and its id *)
  group : val;
  used_quota : val;
  response_time : val;
  priority : val;
  weight : val;
  status : val;
  children : list channel;
}.

Definition new_row (t : jstr) : tag_row :=
  {| tag := t; group := VStr []; used_quota := numZ 0; response_time := numZ 0; priority := numZ (-1);
     weight := numZ (-1); status := VUndef; children := [] |}.
Definition row_name (t : jstr) : jstr := u "标签：" ++ t.

(** The server's tag is a text or [null]. *)
Definition tag_of (o : obj) : res jstr := if truthy (fld o "tag") then to_str (fld o "tag") else Ok [].

(** The value of the channels where they all have the same, [''] otherwise; [-1] stands for
    no channel yet. *)
Definition common (shown v : val) : val :=
  if strict_eq shown (numZ (-1)) then v else if strict_eq shown v then shown else VStr [].

(** The groups of the channels; a group is taken to be there when its text occurs. *)
Definition add_group (g item : jstr) : jstr := if includes item g then g else g ++ 44 :: item.
Definition merge_group (g v : val) : res val :=
  if is_text g [] then Ok v
  else match g, v with
       | VStr s, VStr t => Ok (VStr (fold_left add_group (split_on 44 t) s))
       | _, _ => Throw TypeError
       end.

Definition add_channel (r : tag_row) (c : channel) : res tag_row :=
  let o := data c in
  let! g := merge_group (group r) (fld o "group") in
  let! quota := js_add (used_quota r) (fld o "used_quota") in
  let! sum := js_add (response_time r) (fld o "response_time") in
  let! time := to_num sum in
  Ok {| tag := tag r; group := g; used_quota := quota; response_time := VNum (ndiv time (of_Z 2));
        priority := common (priority r) (fld o "priority"); weight := common (weight r) (fld o "weight");
        status := if strict_eq (fld o "status") (numZ 1) then numZ 1 else status r;
        children := children r ++ [c] |}.

(** The row of the tag is changed where it is; the index of rows is a plain object, so that the
    name of an inherited property counts as known and has no row. *)
Fixpoint update_row (t : jstr) (c : channel) (rows : list tag_row) : option (res (list tag_row)) :=
  match rows with
  | [] => None
  | r :: rest =>
    if tag r =s t then Some (let! r' := add_channel r c in Ok (r' :: rest))
    else option_map (rmap (cons r)) (update_row t c rest)
  end.
Definition format_step (rows : list tag_row) (o : obj) : res (list tag_row) :=
  let! c := annotate o in
  let! t := tag_of o in
  match update_row t c rows with
  | Some rows => rows
  | None =>
    if is_undef (proto_get t) then let! r := add_channel (new_row t) c in Ok (rows ++ [r])
    else Throw TypeError
  end.

Inductive table := Plain (l : list channel) | Tagged (rows : list tag_row).

(** [setChannelFormat(channels, enableTagMode)] *)
Definition setChannelFormat (channels : list obj) (enableTagMode : bool) : res table :=
  if enableTagMode then rmap Tagged (rfold format_step [] channels) else rmap Plain (rmapM annotate channels).

(** ** Changes of single rows *)

Definition change_data (f : obj → obj) (c : channel) : channel :=
  {| data := f (data c); upstreamUpdateMeta := upstreamUpdateMeta c; key := key c |}.
Definition with_children (f : channel → channel) (r : tag_row) : tag_row :=
  {| tag := tag r; group := group r; used_quota := used_quota r; response_time := response_time r; priority := priority r;
     weight := weight r; status := status r; children := map f (children r) |}.
Definition with_status (v : val) (r : tag_row) : tag_row :=
  {| tag := tag r; group := group r; used_quota := used_quota r; response_time := response_time r; priority := priority r;
     weight := weight r; status := v; children := children r |}.

(** [updateChannelProperty(channelId, updateFn)] *)
Definition updateChannelProperty (channelId : val) (f : obj → obj) (t : table) : table :=
  let g c := if strict_eq (fld (data c) "id") channelId then change_data f c else c in
  match t with
  | Plain l => Plain (map g l)
  | Tagged rows => Tagged (map (with_children g) rows)
  end.

(** The answer to [manageTag(tag, action)]; channels that are listed without tags keep their
    children out of it. *)
Definition manageTag (t : jstr) (enable : bool) (tb : table) : table :=
  let v := numZ (if enable then 1 else 2) in
  let set o := obj_set o (u "status") v in
  match tb with
  | Plain l => Plain (map (λ c, if is_text (fld (data c) "tag") t then change_data set c else c) l)
  | Tagged rows => Tagged (map (λ r, if tag r =s t then with_status v (with_children (change_data set) r) else r) rows)
  end.

(** The answer to [manageChannel] for enabling and disabling: the status of the channel's own
    record *)
Definition manageChannel_replied (id status : val) (t : table) : table :=
  updateChannelProperty id (λ o, obj_set o (u "status") status) t.

(** ** Counts by type *)

Definition listed_channels (t : table) : list channel :=
  match t with Plain l => l | Tagged rows => concat (map children rows) end.
Definition entry_count (t : table) : Z :=
  Z.of_nat (match t with Plain l => length l | Tagged rows => length rows end).

(** [collect] *)
Definition collect (counts : obj) (c : channel) : res obj :=
  let! k := to_str (fld (data c) "type") in
  let! n := js_add (v_or (oget counts k) (numZ 0)) (numZ 1) in
  Ok (obj_set counts k n).

(** [channelTypeCounts]: the counts of the server, or those of the rows that are listed *)
Definition channelTypeCounts (typeCounts : obj) (t : table) : res obj :=
  match typeCounts with
  | _ :: _ => Ok typeCounts
  | [] => rfold collect [(u "all", numZ (entry_count t))] (listed_channels t)
  end.

(** [v > 0] of a count *)
Definition positive (v : val) : bool := match v with VNum n => nltb nzero n | _ => false end.
Definition availableTypeKeys (counts : obj) : list jstr :=
  u "all" :: map fst (List.filter (λ e, negb (e.1 =s u "all") && positive e.2) counts).

(** ** Columns *)

Definition column_keys : list jstr :=
  map u ["id"; "name"; "group"; "type"; "status"; "response_time"; "balance"; "priority"; "weight"; "operate"].
Definition columns_all (b : bool) : obj := map (λ k, (k, VBool b)) column_keys.
Definition getDefaultColumnVisibility : obj := columns_all true.

(** The columns when the page opens *)
Definition load_columns (saved : option jstr) : obj :=
  match saved with
  | Some ((_ :: _) as s) =>
    match JSON_parse s with
    | Ok parsed => obj_extend getDefaultColumnVisibility (entries parsed)
    | Throw _ => getDefaultColumnVisibility
    end
  | _ => getDefaultColumnVisibility
  end.
(** What is stored after each change *)
Definition save_columns (visibleColumns : obj) (saved : option jstr) : option jstr :=
  match visibleColumns with [] => saved | _ :: _ => stringify (VObj visibleColumns) end.
Definition handleColumnVisibilityChange (columnKey : jstr) (checked : bool) (visibleColumns : obj) : obj :=
  obj_set visibleColumns columnKey (VBool checked).
Definition handleSelectAll (checked : bool) : obj := columns_all checked.

(** ** Requests

    A request of [loadChannels] has a number, and its reply is dropped when a later one was
    sent meanwhile; a request of [searchChannels] has none.  Each of the two calls the other
    when the form has, or has not, something to search for. *)

Inductive request :=
| Load (reqId : Z) (tagMode from_search : bool)
| Find (page : Z) (tagMode from_load : bool).

Record answer := { items : list obj; total : val; type_counts : option obj }.
Inductive reply := Listed (a : answer) | Refused (message : val) | Unreachable.

Record listing := {
  channels : table;
  channelCount : val;
  typeCounts : obj;
  activePage : Z;
  loading : bool;
  searching : bool;
  requestCounter : Z;
  pending : list request;
}.
Definition listing0 : listing :=
  {| channels := Plain []; channelCount := numZ 0; typeCounts := []; activePage := 1; loading := true;
     searching := false; requestCounter := 0; pending := [] |}.

Definition set_rows (t : table) (n : val) (s : listing) : listing :=
  {| channels := t; channelCount := n; typeCounts := typeCounts s; activePage := activePage s; loading := loading s;
     searching := searching s; requestCounter := requestCounter s; pending := pending s |}.
Definition set_counts (c : obj) (s : listing) : listing :=
  {| channels := channels s; channelCount := channelCount s; typeCounts := c; activePage := activePage s;
     loading := loading s; searching := searching s; requestCounter := requestCounter s; pending := pending s |}.
Definition set_page (p : Z) (s : listing) : listing :=
  {| channels := channels s; channelCount := channelCount s; typeCounts := typeCounts s; activePage := p;
     loading := loading s; searching := searching s; requestCounter := requestCounter s; pending := pending s |}.
Definition set_flags (busy finding : bool) (s : listing) : listing :=
  {| channels := channels s; channelCount := channelCount s; typeCounts := typeCounts s; activePage := activePage s;
     loading := busy; searching := finding; requestCounter := requestCounter s; pending := pending s |}.
Definition set_requests (n : Z) (l : list request) (s : listing) : listing :=
  {| channels := channels s; channelCount := channelCount s; typeCounts := typeCounts s; activePage := activePage s;
     loading := loading s; searching := searching s; requestCounter := n; pending := l |}.

(** The request of [loadChannels] and that of [searchChannels] *)
Definition send_load (tagMode from_search : bool) (s : listing) : listing :=
  let n := requestCounter s + 1 in
  set_requests n (pending s ++ [Load n tagMode from_search]) (set_flags true (searching s) s).
Definition send_search (page : Z) (tagMode from_load : bool) (s : listing) : listing :=
  set_requests (requestCounter s) (pending s ++ [Find page tagMode from_load]) s.

(** [search]: the form has a keyword, a group or a model to search for *)
Definition loadChannels (search : bool) (page : Z) (tagMode : bool) (s : listing) : listing :=
  if search then send_search page tagMode true (set_flags true true s) else send_load tagMode false s.
Definition searchChannels (search : bool) (page : Z) (tagMode : bool) (s : listing) : listing :=
  let s := set_flags (loading s) true s in
  if search then send_search page tagMode false s else send_load tagMode true s.

(** [setTypeCounts({ ...type_counts, all: sumAll })] *)
Definition count_all (c : obj) (s : listing) : res listing :=
  let! sum := rfold js_add (numZ 0) (map snd c) in
  Ok (set_counts (obj_set c (u "all") sum) s).

(** The effects of a list, and whether they were cut short by an exception *)
Definition show_list (a : answer) (tagMode : bool) (s : listing) : listing * bool :=
  match (match type_counts a with Some c => count_all c s | None => Ok s end) with
  | Throw _ => (s, false)
  | Ok s =>
    match setChannelFormat (items a) tagMode with
    | Throw _ => (s, false)
    | Ok t => (set_rows t (total a) s, true)
    end
  end.

(** The reply to a request of [loadChannels] *)
Definition load_replied (n : Z) (tagMode : bool) (r : reply) (s : listing) : listing :=
  if n =? requestCounter s then
    match r with
    | Unreachable => s
    | Refused _ => set_flags false (searching s) s
    | Listed a =>
      let '(s, finished) := show_list a tagMode s in
      if finished then set_flags false (searching s) s else s
    end
  else s.

(** [const { items = [], total = 0, type_counts = {} } = data] *)
Definition filled (a : answer) : answer :=
  {| items := items a; total := if is_undef (total a) then numZ 0 else total a;
     type_counts := Some (default [] (type_counts a)) |}.

(** The reply to a request of [searchChannels] *)
Definition search_replied (page : Z) (tagMode from_load : bool) (r : reply) (s : listing) : listing :=
  let '(s, finished) :=
    match r with
    | Unreachable => (s, false)
    | Refused _ => (s, true)
    | Listed a =>
      let '(s, finished) := show_list (filled a) tagMode s in
      (if finished then set_page page s else s, finished)
    end in
  set_flags (if from_load && finished then false else loading s) false s.

Definition replied (q : request) (r : reply) (s : listing) : listing :=
  match q with
  | Load n m from_search =>
    let s := load_replied n m r s in
    if from_search then set_flags (loading s) false s else s
  | Find p m from_load => search_replied p m from_load r s
  end.

Inductive event :=
| LoadPage (search : bool) (page : Z) (tagMode : bool)
| SearchPage (search : bool) (page : Z) (tagMode : bool)
| PageChange (search : bool) (page : Z) (tagMode : bool)
| Replied (q : request) (r : reply).

#[export] Instance request_eq_dec : EqDecision request.
Proof. solve_decision. Defined.

Fixpoint remove_one (q : request) (l : list request) : list request :=
  match l with [] => [] | x :: l => if decide (x = q) then l else x :: remove_one q l end.

(** [handlePageChange] shows the number of the page before its rows. *)
Definition handlePageChange (search : bool) (page : Z) (tagMode : bool) (s : listing) : listing :=
  let s := set_page page s in
  if search then searchChannels true page tagMode s else loadChannels false page tagMode s.

(** A reply comes once, to a request that was sent. *)
Definition step (e : event) (s : listing) : listing :=
  match e with
  | LoadPage b p m => loadChannels b p m s
  | SearchPage b p m => searchChannels b p m s
  | PageChange b p m => handlePageChange b p m s
  | Replied q r =>
    if decide (q ∈ pending s) then replied q r (set_requests (requestCounter s) (remove_one q (pending s)) s) else s
  end.
Definition run (es : list event) (s : listing) : listing := fold_left (λ s e, step e s) es s.

(** ** Testing the models of a channel *)

Definition concurrencyLimit : nat := 5.

(** [for (let i = 0; i < models.length; i += concurrencyLimit)]: the batches, on fuel *)
Fixpoint batches_from {A} (fuel : nat) (models : list A) : list (list A) :=
  match fuel, models with
  | S fuel, _ :: _ => take concurrencyLimit models :: batches_from fuel (drop concurrencyLimit models)
  | _, _ => []
  end.
Definition batches {A} (models : list A) : list (list A) := batches_from (length models) models.

(** The batches that are sent, where [before i] and [after i] say whether the stop flag is
    set when it is read before and after batch [i] *)
Fixpoint sent_batches {A} (before after : nat → bool) (i : nat) (bs : list (list A)) : list (list A) :=
  match bs with
  | [] => []
  | b :: bs => if before i then [] else b :: (if after i then [] else sent_batches before after (S i) bs)
  end.

(** The time stamp is left out. *)
Record test_result := { success : bool; message : val; time : val }.
Definition results := list (jstr * test_result).

Definition testKey (id model : jstr) : jstr := id ++ 45 :: model.
Definition result_set (rs : results) (k : jstr) (r : test_result) : results :=
  (k, r) :: List.filter (λ e, negb (e.1 =s k)) rs.
Definition result_get (rs : results) (k : jstr) : option test_result :=
  match List.find (λ e, e.1 =s k) rs with Some e => Some e.2 | None => None end.

(** A reply of the test, or the message of the error *)
Inductive test_reply := Tested (ok : bool) (msg t : val) | Failed (msg : jstr).
Definition passed (r : test_reply) : bool := match r with Tested ok _ _ => ok | Failed _ => false end.

(** What [testChannel] records of a reply *)
Definition result_of (r : test_reply) : test_result :=
  match r with
  | Tested ok msg t => {| success := ok; message := msg; time := v_or t (numZ 0) |}
  | Failed msg => {| success := false; message := VStr (if nonempty msg then msg else u "网络错误"); time := numZ 0 |}
  end.
Definition record_test (id model : jstr) (r : test_reply) (rs : results) : results :=
  result_set rs (testKey id model) (result_of r).

Definition models_to_test `{Unicode} (models keyword : jstr) : list jstr :=
  List.filter (λ m, includes (toLowerCase keyword) (toLowerCase m)) (split_on 44 models).

(** The results of the models are forgotten before a batch test. *)
Definition clear_results (id : jstr) (models : list jstr) (rs : results) : results :=
  fold_left (λ rs m, List.filter (λ e, negb (e.1 =s testKey id m)) rs) models rs.

(** The summary: how many succeeded and how many did not *)
Definition tally (id : jstr) (models : list jstr) (rs : results) : nat * nat :=
  fold_left (λ n m, match result_get rs (testKey id m) with
                    | Some r => if success r then (S n.1, n.2) else (n.1, S n.2)
                    | None => (n.1, S n.2)
                    end) models (0%nat, 0%nat).

(** ** The rows of the tags *)

Lemma set_array_snoc {A} `{EqDecision A} (l : list A) x :
  set_array (l ++ [x]) = if decide (x ∈ l) then set_array l else set_array l ++ [x].
Proof.
  unfold set_array.
  assert (∀ seen, dedup_acc seen (l ++ [x]) =
    if decide (x ∈ l ∨ x ∈ seen) then dedup_acc seen l else dedup_acc seen l ++ [x]) as ->;
    [|repeat case_decide; done || (exfalso; set_solver)].
  induction l as [|a l IH]; intros seen; cbn [app dedup_acc].
  - repeat case_decide; done || (exfalso; set_solver).
  - destruct (decide (a ∈ seen)); rewrite IH; repeat case_decide; done || (exfalso; set_solver).
Qed.

Lemma rfold_snoc {A B} (f : B → A → res B) b l x :
  rfold f b (l ++ [x]) = let! b' := rfold f b l in f b' x.
Proof.
  revert b. induction l as [|a l IH]; intros b; cbn [app rfold rbind]; [by destruct (f b x)|].
  destruct (f b a); cbn [rbind]; [apply IH|done].
Qed.

Definition ctag (c : channel) : jstr := match fld (data c) "tag" with VStr s => s | _ => [] end.
Definition num_of (k : string) (c : channel) : num := match fld (data c) k with VNum n => n | _ => NaN end.
Definition whole_field (c : channel) (k : string) : Prop := fld (data c) k = VNum (num_of k c) ∧ whole (num_of k c).
Definition enabled_channel (c : channel) : bool := strict_eq (fld (data c) "status") (numZ 1).

(** A priority or a weight: any integer but [-1], which the table takes for none *)
Definition rank_field (c : channel) (k : string) : Prop :=
  ∃ z, fld (data c) k = numZ z ∧ Z.abs z < 2 ^ 53 ∧ z ≠ -1.

(** A channel as the server sends it *)
Record tidy (c : channel) : Prop := {
  tidy_tag : tag_of (data c) = Ok (ctag c);
  tidy_name : is_undef (proto_get (ctag c)) = true;   (* not the name of an inherited property *)
  tidy_group : is_str (fld (data c) "group") = true;
  tidy_quota : whole_field c "used_quota";
  tidy_time : is_num (fld (data c) "response_time") = true;
  tidy_priority : rank_field c "priority";
  tidy_weight : rank_field c "weight";
}.

(** The value the channels share *)
Definition shared (k : string) (l : list channel) : val :=
  match l with
  | [] => numZ (-1)
  | c :: l => if forallb (λ c', strict_eq (fld (data c) k) (fld (data c') k)) l then fld (data c) k else VStr []
  end.

Definition of_tag (t : jstr) (cs : list channel) : list channel := List.filter (λ c, ctag c =s t) cs.

Record row_spec (cs : list channel) (t : jstr) (r : tag_row) : Prop := {
  row_tag : tag r = t;
  row_children : children r = of_tag t cs;
  row_quota : used_quota r = VNum (of_Z (sum_by (num_of "used_quota") (of_tag t cs)));
  row_priority : priority r = shared "priority" (of_tag t cs);
  row_weight : weight r = shared "weight" (of_tag t cs);
  row_status : status r = if existsb enabled_channel (of_tag t cs) then numZ 1 else VUndef;
  row_group : is_str (group r) = true;
  row_time : is_num (response_time r) = true;
}.

Lemma rank_ne z : Z.abs z < 2 ^ 53 → z ≠ -1 → neqb (of_Z z) (of_Z (-1)) = false.
Proof.
  intros Hz Hne. unfold neqb. rewrite ncompare_of_Z by lia. apply bool_decide_eq_false_2.
  intros [= H]. apply Z.compare_eq in H. lia.
Qed.

Lemma common_shared k l c :
  Forall (λ c, rank_field c k) l → rank_field c k → common (shared k l) (fld (data c) k) = shared k (l ++ [c]).
Proof.
  intros Hl (z & Hc & _). destruct l as [|c0 l]; cbn [shared app forallb].
  { unfold common. by assert (strict_eq (numZ (-1)) (numZ (-1)) = true) as -> by reflexivity. }
  apply Forall_cons in Hl as [(z0 & H0 & W0 & N0) _]. rewrite forallb_app. cbn [forallb]. rewrite andb_true_r.
  destruct (forallb _ l); cbn [andb]; unfold common.
  - rewrite H0. unfold numZ. cbn [strict_eq]. rewrite rank_ne by done. done.
  - rewrite Hc. done.
Qed.

Lemma of_tag_snoc t cs c : of_tag t (cs ++ [c]) = of_tag t cs ++ (if ctag c =s t then [c] else []).
Proof. unfold of_tag. rewrite List.filter_app. cbn [List.filter]. by destruct (ctag c =s t). Qed.
Lemma of_tag_Forall (P : channel → Prop) t cs : Forall P cs → Forall P (of_tag t cs).
Proof. rewrite !list.Forall_forall. intros H x Hx. apply H. unfold of_tag in Hx. by apply elem_of_filter_bool in Hx as []. Qed.

Lemma of_tag_sum t cs :
  countable (num_of "used_quota") cs → countable (num_of "used_quota") (of_tag t cs).
Proof.
  intros [HF Hs]. split; [by apply of_tag_Forall|].
  enough (sum_by (num_of "used_quota") (of_tag t cs) ≤ sum_by (num_of "used_quota") cs) by lia. clear Hs.
  induction HF as [|c cs Hc HF IH]; [done|]. unfold of_tag, sum_by in *. cbn [List.filter foldr].
  pose proof (whole_int _ Hc). destruct (ctag c =s t); cbn [foldr]; lia.
Qed.

Lemma merge_texts g v : is_str g = true → is_str v = true → ∃ g', merge_group g v = Ok g' ∧ is_str g' = true.
Proof.
  intros Hg Hv. unfold merge_group. destruct (is_text g []); [by exists v|].
  destruct g, v; try done. by eexists.
Qed.

Lemma add_channel_spec cs t r c :
  Forall tidy (cs ++ [c]) → countable (num_of "used_quota") (cs ++ [c]) → ctag c = t → row_spec cs t r →
  ∃ r', add_channel r c = Ok r' ∧ row_spec (cs ++ [c]) t r'.
Proof.
  intros HF Hs Ht [R1 R2 R3 R4 R5 R6 R7 R8]. apply Forall_app in HF as [Hcs Hc]. apply Forall_cons in Hc as [Hc _].
  apply (of_tag_sum t) in Hs. rewrite of_tag_snoc in Hs. rewrite bool_decide_eq_true_2 in Hs by done.
  apply countable_app in Hs as (Hl & Hx & Hs).
  destruct (merge_texts _ _ R7 (tidy_group c Hc)) as (g & Hg & Hg').
  unfold add_channel. rewrite Hg. cbn [rbind]. rewrite R3. destruct (tidy_quota c Hc) as [Hq _]. rewrite Hq.
  unfold js_add at 1. cbn [to_primitive rbind is_str orb to_num].
  rewrite nadd_whole by (done || apply sum_by_nonneg, Hl).
  destruct (response_time r) as [| | | x | | | |] eqn:Ex; try done.
  pose proof (tidy_time c Hc) as Hy. destruct (fld (data c) "response_time") as [| | | y | | | |]; try done.
  unfold js_add. cbn [to_primitive rbind is_str orb to_num]. eexists. split; [reflexivity|].
  assert (of_tag t (cs ++ [c]) = of_tag t cs ++ [c]) as He.
  { rewrite of_tag_snoc. by rewrite bool_decide_eq_true_2. }
  split; cbn [tag children used_quota priority weight status group response_time]; rewrite ?He; try done.
  - by rewrite R2.
  - rewrite sum_by_app. unfold sum_by at 3. cbn [foldr]. do 2 f_equal. lia.
  - rewrite R4. apply common_shared; [|by apply tidy_priority].
    apply of_tag_Forall. eapply list.Forall_impl; [exact Hcs|]. apply tidy_priority.
  - rewrite R5. apply common_shared; [|by apply tidy_weight].
    apply of_tag_Forall. eapply list.Forall_impl; [exact Hcs|]. apply tidy_weight.
  - rewrite existsb_app. cbn [existsb]. rewrite R6. fold (enabled_channel c).
    by destruct (existsb _ _), (enabled_channel c).
Qed.

Lemma row_spec_other cs t r c : ctag c ≠ t → row_spec cs t r → row_spec (cs ++ [c]) t r.
Proof.
  intros Ht [R1 R2 R3 R4 R5 R6 R7 R8].
  assert (of_tag t (cs ++ [c]) = of_tag t cs) as He.
  { rewrite of_tag_snoc. rewrite bool_decide_eq_false_2 by done. apply app_nil_r. }
  by split; rewrite ?He.
Qed.

Lemma update_row_absent P t c ts rows :
  Forall2 P ts rows → (∀ t r, P t r → tag r = t) → t ∉ ts → update_row t c rows = None.
Proof.
  intros HF HP. induction HF as [|t' r ts rows Hr HF IH]; intros Ht; [done|]. cbn [update_row].
  rewrite (HP _ _ Hr). rewrite bool_decide_eq_false_2 by set_solver. rewrite IH by set_solver. done.
Qed.

Lemma Forall2_except (P Q : jstr → tag_row → Prop) t ts rows :
  (∀ t' r, t ≠ t' → P t' r → Q t' r) → t ∉ ts → Forall2 P ts rows → Forall2 Q ts rows.
Proof. intros Hq Ht HF. induction HF; constructor; [apply Hq; [set_solver|done]|]. set_solver. Qed.

Lemma update_row_present (P Q : jstr → tag_row → Prop) t c ts rows :
  Forall2 P ts rows → NoDup ts → t ∈ ts → (∀ t r, P t r → tag r = t) →
  (∀ t' r, t ≠ t' → P t' r → Q t' r) → (∀ r, P t r → ∃ r', add_channel r c = Ok r' ∧ Q t r') →
  ∃ rows', update_row t c rows = Some (Ok rows') ∧ Forall2 Q ts rows'.
Proof.
  intros HF HN Ht HP Hother Hadd. induction HF as [|t' r ts rows Hr HF IH]; [set_solver|].
  apply NoDup_cons in HN as [Hn HN]. cbn [update_row]. rewrite (HP _ _ Hr).
  destruct (decide (t' = t)) as [->|Hne].
  - rewrite bool_decide_eq_true_2 by done. destruct (Hadd r Hr) as (r' & -> & Hr'). cbn [rbind].
    eexists. split; [done|]. constructor; [done|]. by eapply Forall2_except.
  - rewrite bool_decide_eq_false_2 by done. destruct IH as (rows' & -> & HQ); [done|set_solver|].
    eexists. split; [done|]. constructor; [by apply Hother|done].
Qed.

Lemma annotate_data o c : annotate o = Ok c → data c = o.
Proof.
  unfold annotate. destruct (parseUpstreamUpdateMeta _); [|done]. cbn [rbind].
  destruct (to_str _); [|done]. cbn [rbind]. by intros [= <-].
Qed.

Lemma new_row_spec t : row_spec [] t (new_row t).
Proof. by split. Qed.

Lemma of_tag_absent t cs : t ∉ map ctag cs → of_tag t cs = [].
Proof.
  intros Ht. apply filter_none. rewrite list.Forall_forall. intros c Hc. apply bool_decide_eq_false_2.
  intros <-. apply Ht. apply list_elem_of_fmap. by exists c.
Qed.

(** A tag that is new has the row of no channel. *)
Lemma fresh_row_spec t cs : t ∉ map ctag cs → row_spec cs t (new_row t).
Proof. intros Ht. by split; rewrite ?(of_tag_absent t cs Ht). Qed.

Lemma format_step_spec cs c rows :
  Forall tidy (cs ++ [c]) → countable (num_of "used_quota") (cs ++ [c]) → annotate (data c) = Ok c →
  Forall2 (row_spec cs) (set_array (map ctag cs)) rows →
  ∃ rows', format_step rows (data c) = Ok rows' ∧
    Forall2 (row_spec (cs ++ [c])) (set_array (map ctag (cs ++ [c]))) rows'.
Proof.
  intros HT Hs Ha HF. pose proof HT as HT'. apply Forall_app in HT' as [_ Hc]. apply Forall_cons in Hc as [Hc _].
  unfold format_step. rewrite Ha. cbn [rbind]. rewrite (tidy_tag c Hc). cbn [rbind].
  rewrite map_app. cbn [map]. rewrite set_array_snoc. case_decide as Hin.
  - destruct (update_row_present (row_spec cs) (row_spec (cs ++ [c])) (ctag c) c (set_array (map ctag cs)) rows)
      as (rows' & -> & HF'); [done|apply NoDup_set_array|by apply elem_of_set_array|by intros ?? []| | |by exists rows'].
    + intros t' r Hne Hr. by apply row_spec_other.
    + intros r Hr. by apply (add_channel_spec cs).
  - rewrite (update_row_absent (row_spec cs) (ctag c) c (set_array (map ctag cs)));
      [|done|by intros ?? []|by rewrite elem_of_set_array].
    rewrite (tidy_name c Hc).
    destruct (add_channel_spec cs (ctag c) (new_row (ctag c)) c) as (r' & -> & Hr'); [done..|by apply fresh_row_spec|].
    cbn [rbind]. eexists. split; [done|]. apply Forall2_app; [|by constructor].
    eapply Forall2_except; [by intros t' r Hne Hr; apply row_spec_other|by rewrite elem_of_set_array|done].
Qed.

Lemma formatted_rows chans cs :
  rmapM annotate chans = Ok cs → Forall tidy cs → countable (num_of "used_quota") cs →
  ∃ rows, setChannelFormat chans true = Ok (Tagged rows) ∧ Forall2 (row_spec cs) (set_array (map ctag cs)) rows.
Proof.
  intros Ha HT Hs.
  enough (∃ rows, rfold format_step [] chans = Ok rows ∧ Forall2 (row_spec cs) (set_array (map ctag cs)) rows)
    as (rows & Hr & HF) by (exists rows; by unfold setChannelFormat; rewrite Hr).
  revert cs Ha HT Hs. induction chans as [|o chans IH] using rev_ind; intros cs Ha HT Hs.
  { injection Ha as <-. exists []. by split; [|constructor]. }
  rewrite rmapM_app in Ha. destruct (rmapM annotate chans) as [cs0|]; [|done]. cbn [rbind rmapM] in Ha.
  destruct (annotate o) as [c|] eqn:Ec; [|done]. cbn [rbind] in Ha. injection Ha as <-.
  destruct (IH cs0) as (rows & Hr & HF); [done|by apply Forall_app in HT as []|by apply countable_app in Hs as []|].
  rewrite rfold_snoc, Hr. cbn [rbind]. pose proof (annotate_data _ _ Ec) as <-. by apply format_step_spec.
Qed.

(** C38: with tags, the table has a row for each tag of the listing, in the order in which they
    first occur and each once.  The children of a row are the channels with the tag in their
    order; its used quota is the exact sum of theirs; it counts as enabled when one of them
    is; and its priority and weight are those of its channels where all agree, and empty
    otherwise.  The channels are as the server sends them: groups are texts, quotas whole
    numbers whose sum is below 2^53, priorities and weights integers other than -1, which the
    code takes for no priority yet, and no tag is the name of an inherited property. *)
Theorem tag_rows_exact chans cs :
  rmapM annotate chans = Ok cs → Forall tidy cs → countable (num_of "used_quota") cs →
  ∃ rows, setChannelFormat chans true = Ok (Tagged rows) ∧ Forall2 (row_spec cs) (set_array (map ctag cs)) rows.
Proof. apply formatted_rows. Qed.

(** ** The counts by type *)

Definition occ (k : jstr) (ks : list jstr) : Z := Z.of_nat (length (List.filter (λ x, x =s k) ks)).

Record counted (n : Z) (ks : list jstr) (o : obj) : Prop := {
  counted_ok : obj_ok o;
  counted_all : obj_get o (u "all") = Some (numZ n);
  counted_key k : k ≠ u "all" → obj_get o k = if decide (k ∈ ks) then Some (numZ (occ k ks)) else None;
}.

Definition type_of (c : channel) : res jstr := to_str (fld (data c) "type").
(** No type is called like the total or like an inherited property. *)
Definition plain_type (k : jstr) : Prop := k ≠ u "all" ∧ proto_get k = VUndef.

Lemma v_or_zero z : 0 ≤ z < 2 ^ 53 → v_or (numZ z) (numZ 0) = numZ z.
Proof. intros Hz. pose proof (or_zero_of_Z z Hz) as Ho. unfold v_or, numZ. cbn [truthy or_zero] in *. destruct (ntruthy _); [done|by rewrite <- Ho]. Qed.

Lemma occ_snoc k k' ks : occ k (ks ++ [k']) = occ k ks + (if decide (k' = k) then 1 else 0).
Proof.
  unfold occ. rewrite List.filter_app, length_app. cbn [List.filter]. rewrite Nat2Z.inj_add.
  case_decide as Hd; [rewrite bool_decide_eq_true_2 by done|rewrite bool_decide_eq_false_2 by done]; done.
Qed.
Lemma occ_range k ks : 0 ≤ occ k ks ≤ Z.of_nat (length ks).
Proof. unfold occ. pose proof (List.filter_length_le (λ x, x =s k) ks). lia. Qed.
Lemma occ_absent k ks : k ∉ ks → occ k ks = 0.
Proof.
  intros Hk. unfold occ. rewrite filter_none; [done|]. rewrite list.Forall_forall. intros x Hx.
  apply bool_decide_eq_false_2. by intros ->.
Qed.
Lemma occ_present k ks : k ∈ ks → 0 < occ k ks.
Proof.
  intros Hk. unfold occ. assert (k ∈ List.filter (λ x, x =s k) ks) as Hf.
  { apply elem_of_filter_bool. split; [done|]. by apply bool_decide_eq_true_2. }
  destruct (List.filter _ ks); [set_solver|cbn; lia].
Qed.

Lemma collect_spec n ks o c k :
  counted n ks o → type_of c = Ok k → plain_type k → Z.of_nat (length ks) < 2 ^ 53 - 1 →
  ∃ o', collect o c = Ok o' ∧ counted n (ks ++ [k]) o'.
Proof.
  intros [Ho Ha Hk] Ht [Hne Hp] Hl. unfold collect. unfold type_of in Ht. rewrite Ht. cbn [rbind].
  pose proof (occ_range k ks) as Hr. assert (v_or (oget o k) (numZ 0) = numZ (occ k ks)) as ->.
  { unfold oget. rewrite (Hk k Hne). case_decide as Hin; cbn [default].
    - apply v_or_zero. lia.
    - by rewrite Hp, occ_absent. }
  unfold js_add, numZ at 1 2. cbn [to_primitive rbind is_str orb to_num]. rewrite nadd_of_Z by lia.
  eexists. split; [reflexivity|]. split.
  - by apply obj_ok_set.
  - rewrite obj_get_set. by rewrite decide_False.
  - intros k' Hk'. rewrite obj_get_set, occ_snoc. destruct (decide (k = k')) as [->|Hd].
    + rewrite decide_True by set_solver. done.
    + rewrite (Hk k' Hk'), Z.add_0_r. repeat case_decide; done || (exfalso; set_solver).
Qed.

Lemma counted_start n : counted n [] [(u "all", numZ n)].
Proof.
  split; [by apply keys_okb_ok|done|]. intros k Hk. rewrite decide_False by set_solver.
  cbn [obj_get]. by rewrite bool_decide_eq_false_2.
Qed.

Lemma collected_spec n cs ks :
  rmapM type_of cs = Ok ks → Forall plain_type ks → Z.of_nat (length ks) < 2 ^ 53 →
  ∃ o, rfold collect [(u "all", numZ n)] cs = Ok o ∧ counted n ks o.
Proof.
  revert ks. induction cs as [|c cs IH] using rev_ind; intros ks Hks HF Hl.
  { injection Hks as <-. eexists. split; [reflexivity|]. apply counted_start. }
  rewrite rmapM_app in Hks. destruct (rmapM type_of cs) as [ks0|]; [|done]. cbn [rbind rmapM] in Hks.
  destruct (type_of c) as [k|] eqn:Et; [|done]. cbn [rbind] in Hks. injection Hks as <-.
  apply Forall_app in HF as [HF Hk]. apply Forall_cons in Hk as [Hk _]. rewrite length_app in Hl. cbn [length] in Hl.
  destruct (IH ks0) as (o & Ho & Hc); [done|done|lia|]. rewrite rfold_snoc, Ho. cbn [rbind].
  eapply collect_spec; [done..|lia].
Qed.

Lemma available_keys n ks o :
  counted n ks o → Forall plain_type ks → Z.of_nat (length ks) < 2 ^ 53 →
  NoDup (availableTypeKeys o) ∧ ∀ k, k ∈ availableTypeKeys o ↔ k = u "all" ∨ k ∈ ks.
Proof.
  intros [Ho Ha Hk] HF Hl. unfold availableTypeKeys. split.
  - constructor.
    + rewrite list_elem_of_fmap. intros ([k v] & He & Hin). apply elem_of_filter_bool in Hin as [_ Hin].
      cbn [fst] in *. subst k. rewrite bool_decide_eq_true_2 in Hin; done.
    + eapply sublist_NoDup; [by apply (obj_ok_NoDup o)|]. apply sublist_map, filter_sublist_of.
  - intros k. rewrite elem_of_cons, list_elem_of_fmap. split.
    + intros [->|([k' v] & -> & Hin)]; [by left|]. right. apply elem_of_filter_bool in Hin as [Hin Hb].
      cbn [fst snd] in *. apply andb_true_iff in Hb as [Hb _]. apply negb_true_iff, bool_decide_eq_false_1 in Hb.
      apply obj_get_elem in Hin; [|done]. rewrite (Hk k' Hb) in Hin. by case_decide.
    + intros [->|Hin]; [by left|right]. rewrite list.Forall_forall in HF. destruct (HF k Hin) as [Hne _].
      exists (k, numZ (occ k ks)). split; [done|]. apply elem_of_filter_bool. split.
      * apply obj_get_In. rewrite (Hk k Hne). by rewrite decide_True.
      * cbn [fst snd]. rewrite bool_decide_eq_false_2 by done. cbn [negb andb positive numZ].
        pose proof (occ_range k ks). pose proof (occ_present k ks Hin). change nzero with (of_Z 0).
        rewrite nltb_of_Z by lia. by apply Z.ltb_lt.
Qed.

(** where the server sends no counts, the tab of a type counts the channels of the type,
    those of the tag rows included; there is one tab for each type of the listing, and the
    first one, for all, has the number of rows. *)
Theorem type_counts_exact t ks :
  rmapM type_of (listed_channels t) = Ok ks → Forall plain_type ks → Z.of_nat (length ks) < 2 ^ 53 →
  ∃ counts, channelTypeCounts [] t = Ok counts ∧ obj_get counts (u "all") = Some (numZ (entry_count t)) ∧
    (∀ k, k ∈ ks → obj_get counts k = Some (numZ (occ k ks))) ∧
    NoDup (availableTypeKeys counts) ∧ ∀ k, k ∈ availableTypeKeys counts ↔ k = u "all" ∨ k ∈ ks.
Proof.
  intros Hks HF Hl. destruct (collected_spec (entry_count t) _ _ Hks HF Hl) as (o & Ho & Hc).
  exists o. split; [done|]. split; [by apply Hc|]. split; [|by eapply available_keys].
  intros k Hk. rewrite list.Forall_forall in HF. destruct (HF k Hk) as [Hne _].
  rewrite (counted_key _ _ _ Hc k Hne). by rewrite decide_True.
Qed.

(** ** Requests *)

(** The requests of [loadChannels] that are under way have numbers that were given. *)
Definition numbered (s : listing) : Prop :=
  Forall (λ q, match q with Load n _ _ => n ≤ requestCounter s | Find _ _ _ => True end) (pending s).

Inductive reachable : listing → Prop :=
| reach_start : reachable listing0
| reach_step e s : reachable s → reachable (step e s).

Lemma remove_one_sub q l : remove_one q l `sublist_of` l.
Proof. induction l as [|x l IH]; cbn [remove_one]; [done|]. case_decide; [by apply sublist_cons|by apply sublist_skip]. Qed.

Lemma elem_of_remove_other q q' l : q ≠ q' → q ∈ remove_one q' l ↔ q ∈ l.
Proof. intros Hq. induction l as [|x l IH]; cbn [remove_one]; [done|]. case_decide; set_solver. Qed.

(** Replies leave the requests alone. *)
Lemma show_list_requests a m s : requestCounter (show_list a m s).1 = requestCounter s ∧ pending (show_list a m s).1 = pending s.
Proof.
  unfold show_list, count_all. destruct (type_counts a) as [c|]; [destruct (rfold _ _ _)|]; cbn [rbind]; try done;
    by destruct (setChannelFormat _ _).
Qed.
Lemma load_replied_requests n m r s :
  requestCounter (load_replied n m r s) = requestCounter s ∧ pending (load_replied n m r s) = pending s.
Proof.
  unfold load_replied. destruct (n =? _); [|done]. destruct r as [a| |]; try done.
  pose proof (show_list_requests a m s) as H. destruct (show_list _ _ _) as [s' []]; apply H.
Qed.
Lemma replied_requests q r s :
  requestCounter (replied q r s) = requestCounter s ∧ pending (replied q r s) = pending s.
Proof.
  destruct q as [n m []|p m fl]; cbn [replied]; try apply load_replied_requests.
  unfold search_replied. destruct r as [a| |]; try done.
  pose proof (show_list_requests (filled a) m s) as H.
  destruct (show_list _ _ _) as [s' []]; apply H.
Qed.

Lemma numbered_send_load m f s : numbered s → numbered (send_load m f s).
Proof.
  intros Hn. unfold numbered. cbn. apply Forall_app. split; [|by constructor].
  eapply list.Forall_impl; [exact Hn|]. intros [n ? ?|]; cbn; [lia|done].
Qed.
Lemma numbered_send_search p m f s : numbered s → numbered (send_search p m f s).
Proof. intros Hn. unfold numbered. cbn. apply Forall_app. split; [exact Hn|by constructor]. Qed.

Lemma numbered_step e s : numbered s → numbered (step e s).
Proof.
  intros Hn. destruct e as [b p m|b p m|b p m|q r]; cbn [step]; unfold handlePageChange, loadChannels, searchChannels.
  1-3: destruct b; first [by apply numbered_send_load|by apply numbered_send_search].
  case_decide; [|done]. unfold numbered. destruct (replied_requests q r
    (set_requests (requestCounter s) (remove_one q (pending s)) s)) as [-> ->]. cbn.
  unfold numbered in Hn. rewrite list.Forall_forall in *. intros x Hx. apply Hn.
  eapply elem_of_sublist; [exact Hx|]. apply remove_one_sub.
Qed.
Lemma reachable_numbered s : reachable s → numbered s.
Proof. induction 1; [by constructor|]. by apply numbered_step. Qed.

(** What the table shows *)
Definition shown (s : listing) : table * val * bool := (channels s, channelCount s, loading s).

(** A request of [loadChannels] that was overtaken *)
Definition overtaken (n : Z) (q : request) : Prop := match q with Load k _ _ => k < n | Find _ _ _ => False end.
Definition late (n : Z) (e : event) : Prop := match e with Replied q _ => overtaken n q | _ => False end.

Lemma late_reply n e s :
  requestCounter s = n → late n e → shown (step e s) = shown s ∧ requestCounter (step e s) = n ∧
  (∀ m f, Load n m f ∈ pending s → Load n m f ∈ pending (step e s)).
Proof.
  intros Hn Hl. destruct e as [| | |q r]; try done. destruct q as [k m f|]; cbn in Hl; [|done]. cbn [step].
  case_decide as Hin; [|done]. cbn [replied]. unfold load_replied. cbn [requestCounter set_requests].
  assert ((k =? requestCounter s) = false) as -> by (apply Z.eqb_neq; lia).
  split; [by destruct f|]. split; [by destruct f|]. intros m' f' Hp.
  assert (Load n m' f' ∈ remove_one (Load k m f) (pending s)) by (apply elem_of_remove_other; [|done]; intros [=]; lia).
  by destruct f.
Qed.

Lemma late_replies n es s :
  requestCounter s = n → Forall (late n) es → shown (run es s) = shown s ∧ requestCounter (run es s) = n ∧
  (∀ m f, Load n m f ∈ pending s → Load n m f ∈ pending (run es s)).
Proof.
  intros Hn HF. revert s Hn. induction HF as [|e es He HF IH]; intros s Hn; [done|].
  destruct (late_reply n e s Hn He) as (H1 & H2 & H3). cbn [run fold_left]. fold (run es (step e s)).
  destruct (IH (step e s) H2) as (I1 & I2 & I3). rewrite I1, H1. split; [done|]. split; [done|]. auto.
Qed.

(** A reply to a request that was sent before another load *)
Definition earlier (s : listing) (e : event) : Prop :=
  match e with Replied (Load n m f) _ => Load n m f ∈ pending s | _ => False end.

Lemma earlier_late s e : numbered s → earlier s e → late (requestCounter s + 1) e.
Proof.
  intros Hn He. destruct e as [| | |[n m f|] r]; cbn in *; try done. unfold numbered in Hn.
  rewrite list.Forall_forall in Hn. specialize (Hn _ He). cbn in Hn. lia.
Qed.

(** C20: however the replies to earlier loads are interleaved with the reply to the load that
    was sent last, the table shows that reply: those before it change neither the rows nor
    the sign that it is loading, and those after it are dropped. *)
Theorem latest_load_shown s m before after a t c :
  reachable s → Forall (earlier s) before → Forall (earlier s) after →
  setChannelFormat (items a) m = Ok t →
  (match type_counts a with Some o => rfold js_add (numZ 0) (map snd o) | None => Ok VUndef end) = Ok c →
  let sent := loadChannels false 1 m s in
  shown (run before sent) = (channels s, channelCount s, true) ∧
  shown (run (before ++ Replied (Load (requestCounter s + 1) m false) (Listed a) :: after) sent) = (t, total a, false).
Proof.
  intros Hr Hb Ha Ht Hc sent. apply reachable_numbered in Hr. set (n := requestCounter s + 1).
  assert (∀ es, Forall (earlier s) es → Forall (late n) es) as Hlate.
  { intros es HF. eapply list.Forall_impl; [exact HF|]. intros e. by apply earlier_late. }
  destruct (late_replies n before sent) as (B1 & B2 & B3); [done|by apply Hlate|]. split; [by rewrite B1|].
  unfold run. rewrite fold_left_app. fold (run before sent). cbn [fold_left].
  set (s1 := run before sent) in *.
  assert (Load n m false ∈ pending s1) as Hin by (apply B3; unfold sent, loadChannels, send_load; cbn; set_solver).
  set (s2 := step _ s1). enough (shown s2 = (t, total a, false) ∧ requestCounter s2 = n) as [E1 E2].
  { fold (run after s2). destruct (late_replies n after s2) as (A1 & _); [done|by apply Hlate|]. by rewrite A1. }
  unfold s2. cbn [step]. rewrite decide_True by done. cbn [replied]. unfold load_replied. cbn [requestCounter set_requests].
  rewrite B2, Z.eqb_refl. unfold show_list, count_all. destruct (type_counts a) as [o|]; [rewrite Hc|];
    cbn [rbind]; rewrite Ht; done.
Qed.

(** a reply that does not come leaves the table with the sign that it is loading, whatever
    was shown. *)
Theorem unreachable_keeps_loading s m :
  let sent := loadChannels false 1 m s in
  shown (step (Replied (Load (requestCounter s + 1) m false) Unreachable) sent) = (channels s, channelCount s, true).
Proof.
  cbn [step]. unfold loadChannels, send_load. rewrite decide_True by (cbn; set_solver). cbn [replied].
  unfold load_replied. cbn [requestCounter set_requests]. by rewrite Z.eqb_refl.
Qed.

(** ** Batches *)

Lemma batches_from_spec {A} n (l : list A) :
  (length l ≤ n)%nat →
  concat (batches_from n l) = l ∧ Forall (λ b, (1 ≤ length b ≤ concurrencyLimit)%nat) (batches_from n l).
Proof.
  revert l. induction n as [|n IH]; intros [|x l] Hl; cbn [length] in Hl; try done; [lia|].
  cbn [batches_from concat]. destruct (IH (drop concurrencyLimit (x :: l))) as [I1 I2].
  { rewrite length_drop. unfold concurrencyLimit. cbn [length]. lia. }
  rewrite I1, take_drop. split; [done|]. constructor; [|done].
  rewrite length_take. unfold concurrencyLimit. cbn [length]. lia.
Qed.

Lemma sent_prefix {A} before after i (bs : list (list A)) : sent_batches before after i bs `prefix_of` bs.
Proof.
  revert i. induction bs as [|b bs IH]; intros i; cbn [sent_batches]; [done|].
  destruct (before i); [apply prefix_nil|]. destruct (after i); [|by apply prefix_cons]. apply prefix_cons, prefix_nil.
Qed.

Lemma sent_stopped {A} before after i k (bs : list (list A)) :
  (before (i + k)%nat = true → (length (sent_batches before after i bs) ≤ k)%nat) ∧
  (after (i + k)%nat = true → (length (sent_batches before after i bs) ≤ S k)%nat).
Proof.
  revert i k. induction bs as [|b bs IH]; intros i k; cbn [sent_batches length]; [lia|].
  destruct (before i) eqn:Eb; cbn [length]; [lia|].
  destruct k as [|k].
  - rewrite Nat.add_0_r. split; [congruence|]. intros ->. done.
  - destruct (IH (S i) k) as [IH1 IH2]. rewrite Nat.add_succ_comm in IH1, IH2. destruct (after i); cbn [length]; [lia|].
    split; intros H; [apply IH1 in H|apply IH2 in H]; lia.
Qed.

Lemma sent_all {A} i (bs : list (list A)) : sent_batches (λ _, false) (λ _, false) i bs = bs.
Proof. revert i. induction bs as [|b bs IH]; intros i; cbn [sent_batches]; [done|by rewrite IH]. Qed.

(** the batches of a test hold the models in their order, at most five each.  A stop that
    is seen before batch [k] lets none of the batches from [k] on go out, and one that is seen
    after it none of those that follow. *)
Theorem stopped_batches {A} before after (models : list A) k :
  let sent := sent_batches before after 0 (batches models) in
  concat sent `prefix_of` models ∧ Forall (λ b, (1 ≤ length b ≤ 5)%nat) sent ∧
  (before k = true → (length sent ≤ k)%nat) ∧ (after k = true → (length sent ≤ S k)%nat).
Proof.
  intros sent. destruct (batches_from_spec (length models) models) as [H1 H2]; [done|].
  destruct (sent_prefix before after 0 (batches models)) as [rest Hp]. fold sent in Hp.
  unfold batches in Hp. rewrite Hp in H1, H2. rewrite concat_app in H1. apply Forall_app in H2 as [H2 _].
  split; [by eexists|]. split; [done|]. apply (sent_stopped before after 0 k).
Qed.

(** ** Results of tests *)

Lemma find_filter_ne {A} (l : list (jstr * A)) k k' :
  k ≠ k' → List.find (λ e, e.1 =s k') (List.filter (λ e, negb (e.1 =s k)) l) = List.find (λ e, e.1 =s k') l.
Proof.
  intros Hk. induction l as [|[x a] l IH]; cbn [List.filter List.find fst]; [done|].
  destruct (decide (x = k)) as [->|Hx].
  - rewrite (bool_decide_eq_true_2 (k = k)), (bool_decide_eq_false_2 (k = k')) by done. cbn [negb]. apply IH.
  - rewrite (bool_decide_eq_false_2 (x = k)) by done. cbn [negb List.find fst]. by rewrite IH.
Qed.

Lemma result_get_set rs k r k' :
  result_get (result_set rs k r) k' = if decide (k = k') then Some r else result_get rs k'.
Proof.
  unfold result_get, result_set. cbn [List.find fst]. case_decide as Hk.
  - by rewrite bool_decide_eq_true_2.
  - rewrite bool_decide_eq_false_2 by done. by rewrite find_filter_ne.
Qed.

Lemma testKey_inj id m m' : testKey id m = testKey id m' → m = m'.
Proof. unfold testKey. intros H. apply app_inv_head in H. by injection H. Qed.

Lemma tested_results id replies order rs m :
  m ∈ order →
  result_get (fold_left (λ rs m, record_test id m (replies m) rs) order rs) (testKey id m) =
  Some (result_of (replies m)).
Proof.
  induction order as [|x order IH] using rev_ind; [set_solver|]. intros Hm. rewrite fold_left_app. cbn [fold_left].
  unfold record_test at 1. rewrite result_get_set. case_decide as Hk.
  - apply testKey_inj in Hk as ->. done.
  - apply IH. apply elem_of_app in Hm as [Hm|Hm]; [done|]. apply list_elem_of_singleton in Hm as ->. done.
Qed.

Lemma tally_counts id (ok : jstr → bool) models rs n :
  (∀ m, m ∈ models → ∃ r, result_get rs (testKey id m) = Some r ∧ success r = ok m) →
  fold_left (λ n m, match result_get rs (testKey id m) with
                    | Some r => if success r then (S n.1, n.2) else (n.1, S n.2)
                    | None => (n.1, S n.2)
                    end) models n =
  ((n.1 + length (List.filter ok models))%nat, (n.2 + length (List.filter (λ m, negb (ok m)) models))%nat).
Proof.
  revert n. induction models as [|m models IH]; intros n H; cbn [fold_left List.filter length].
  { rewrite !Nat.add_0_r. by destruct n. }
  destruct (H m ltac:(set_solver)) as (r & Hr & Hs). rewrite Hr, Hs.
  rewrite IH by (intros; apply H; set_solver). by destruct (ok m); cbn [fst snd length negb]; f_equal; lia.
Qed.

Lemma success_result r : success (result_of r) = passed r.
Proof. by destruct r. Qed.

(** a batch test that is not stopped asks for each model once, and its summary counts the
    models whose test succeeded and the others, in whatever order the replies come and
    whatever results there were before. *)
Theorem batch_tally_exact id models replies order rs :
  order ≡ₚ models →
  concat (sent_batches (λ _, false) (λ _, false) 0 (batches models)) = models ∧
  tally id models (fold_left (λ rs m, record_test id m (replies m) rs) order (clear_results id models rs)) =
  (length (List.filter (λ m, passed (replies m)) models), length (List.filter (λ m, negb (passed (replies m))) models)).
Proof.
  intros Hp. split; [rewrite sent_all; by apply batches_from_spec|]. unfold tally.
  rewrite (tally_counts id (λ m, passed (replies m))); [done|]. intros m Hm. rewrite tested_results.
  - eexists. split; [done|]. apply success_result.
  - by rewrite Hp.
Qed.

(** ** Columns *)

Definition is_bool (v : val) : bool := match v with VBool _ => true | _ => false end.
Definition columns_ok (o : obj) : Prop := obj_keys o = column_keys ∧ Forall (λ kv, is_bool kv.2 = true) o.

Lemma columns_ok_all b : columns_ok (columns_all b).
Proof. split; [done|]. unfold columns_all. by apply Forall_map_2, list.Forall_forall. Qed.
Lemma columns_ok_change k b o : k ∈ column_keys → columns_ok o → columns_ok (handleColumnVisibilityChange k b o).
Proof.
  intros Hk [Ho HF]. unfold handleColumnVisibilityChange. split; [|by apply obj_set_Forall].
  unfold obj_set. destruct (obj_has o k) eqn:E; [by rewrite obj_keys_update|]. exfalso.
  unfold obj_has in E. boolify. apply eq_None_not_Some, obj_get_keys in E. by rewrite Ho in E.
Qed.

Lemma column_keys_wf : Forall jstr_wf column_keys.
Proof. repeat (apply Forall_cons_2; [by apply units_ok_wf|]). apply Forall_nil_2. Qed.

Lemma columns_data o : columns_ok o → json_data (VObj o).
Proof.
  intros [Ho HF]. apply jd_obj; [apply keys_okb_ok; by rewrite Ho|]. rewrite list.Forall_forall in *.
  intros [k v] Hin. split.
  - pose proof column_keys_wf as Hw. rewrite list.Forall_forall in Hw. apply Hw. rewrite <- Ho.
    apply list_elem_of_fmap. by exists (k, v).
  - specialize (HF _ Hin). cbn [snd] in *. destruct v; try done. apply jd_bool.
Qed.

Lemma columns_over_default o : columns_ok o → obj_extend getDefaultColumnVisibility o = o.
Proof.
  intros [Ho _]. do 10 (destruct o as [|[? ?] o]; [discriminate Ho|]). destruct o; [|discriminate Ho].
  injection Ho as -> -> -> -> -> -> -> -> -> ->. vm_compute. reflexivity.
Qed.

(** the columns that are shown are those that were chosen before the page was left:
    choosing single columns or all of them keeps a choice for each of the ten, and what is
    stored of it reads back as it was. *)
Theorem columns_read_back o k b saved :
  columns_ok o → k ∈ column_keys →
  columns_ok (handleColumnVisibilityChange k b o) ∧ columns_ok (handleSelectAll b) ∧
  load_columns (save_columns o saved) = o.
Proof.
  intros Ho Hk. split; [by apply columns_ok_change|]. split; [apply columns_ok_all|].
  pose proof (JSON_parse_stringify [] (VObj o) (Forall_nil_2 _) (columns_data o Ho)) as Hp.
  pose proof (JSON_parse_nonblank _ _ Hp) as Hn.
  assert (save_columns o saved = ser [] [] (VObj o)) as ->.
  { destruct Ho as [Ho _]. by destruct o. }
  destruct (ser [] [] (VObj o)) as [[|c t]|]; [done| |done]. cbn [load_columns default from_option id] in *. rewrite Hp.
  by apply columns_over_default.
Qed.

(** ** The status of a tag *)

(** A row counts as enabled when one of its channels is. *)
Definition row_live (r : tag_row) : Prop :=
  children r ≠ [] ∧ strict_eq (status r) (numZ 1) = existsb enabled_channel (children r).

Lemma status_set c v : fld (data (change_data (λ o, obj_set o (u "status") v) c)) "status" = v.
Proof. unfold fld, oget. cbn [change_data data]. rewrite obj_get_set. by rewrite decide_True. Qed.

Lemma row_live_managed v r :
  children r ≠ [] → row_live (with_status v (with_children (change_data (λ o, obj_set o (u "status") v)) r)).
Proof.
  intros Hc. split; cbn [children status with_status with_children].
  - by destruct (children r).
  - assert (∀ l, existsb enabled_channel (map (change_data (λ o, obj_set o (u "status") v)) l) =
                 negb (bool_decide (l = [])) && strict_eq v (numZ 1)) as ->.
    { induction l as [|c l IH]; [done|]. cbn [map existsb]. rewrite IH. unfold enabled_channel at 1. rewrite status_set.
      rewrite (bool_decide_eq_false_2 (c :: l = [])) by done. destruct (strict_eq v (numZ 1)); [done|]. cbn [orb negb andb]. by rewrite andb_false_r. }
    by rewrite bool_decide_eq_false_2.
Qed.

Lemma tagged_rows_live chans cs rows :
  rmapM annotate chans = Ok cs → Forall tidy cs → countable (num_of "used_quota") cs →
  Forall2 (row_spec cs) (set_array (map ctag cs)) rows → Forall row_live rows.
Proof.
  intros Ha HT Hs HF. eapply Forall2_Forall_r; [exact HF|]. rewrite list.Forall_forall. intros t Ht r [R1 R2 R3 R4 R5 R6 R7 R8].
  apply elem_of_set_array, list_elem_of_fmap in Ht as (c & -> & Hc). split.
  - rewrite R2. intros He. assert (c ∈ of_tag (ctag c) cs) as Hin; [|rewrite He in Hin; set_solver].
    apply elem_of_filter_bool. split; [done|]. by apply bool_decide_eq_true_2.
  - rewrite R6, R2. by destruct (existsb _ _).
Qed.

(** the sign of a tag row tells whether one of its channels is enabled: so it is when the
    rows are built, and enabling or disabling tags keeps it so. *)
Theorem tag_status_kept chans cs (actions : list (jstr * bool)) :
  rmapM annotate chans = Ok cs → Forall tidy cs → countable (num_of "used_quota") cs →
  ∃ rows, rmap (fold_left (λ t a, manageTag a.1 a.2 t) actions) (setChannelFormat chans true) = Ok (Tagged rows) ∧
    Forall row_live rows.
Proof.
  intros Ha HT Hs. destruct (formatted_rows chans cs Ha HT Hs) as (rows & -> & HF).
  apply (tagged_rows_live chans cs) in HF; [|done..]. cbn [rmap]. clear Ha HT Hs chans cs.
  revert rows HF. induction actions as [|[t b] actions IH]; intros rows HF; [by exists rows|].
  cbn [fold_left manageTag]. apply IH. apply Forall_map_2. eapply list.Forall_impl; [exact HF|]. intros r Hr.
  case_bool_decide; [|done]. apply row_live_managed. apply Hr.
Qed.

(** ** Examples *)

Definition sample_channel (id : Z) (tag grp : string) (quota time prio st ty : Z) : obj :=
  [(u "id", numZ id); (u "tag", VStr (u tag)); (u "group", VStr (u grp)); (u "used_quota", numZ quota);
   (u "response_time", numZ time); (u "priority", numZ prio); (u "weight", numZ 0); (u "status", numZ st);
   (u "type", numZ ty); (u "settings", VStr [])].
Definition sample_channels : list obj :=
  [sample_channel 1 "a" "vip" 10 100 5 2 1; sample_channel 2 "b" "default" 7 50 0 2 14;
   sample_channel 3 "a" "default" 20 200 5 1 1].
Definition no_updates : meta := {| enabled := false; pendingAddModels := []; pendingRemoveModels := [] |}.
Definition listed_as (id : Z) (o : obj) : channel :=
  {| data := o; upstreamUpdateMeta := no_updates; key := dec id |}.
Definition sample_listed : list channel :=
  [listed_as 1 (sample_channel 1 "a" "vip" 10 100 5 2 1); listed_as 2 (sample_channel 2 "b" "default" 7 50 0 2 14);
   listed_as 3 (sample_channel 3 "a" "default" 20 200 5 1 1)].

Definition rows_view (t : res table) : list (jstr * val * val * val * val) :=
  match t with
  | Ok (Tagged rows) => map (λ r, (tag r, group r, used_quota r, priority r, response_time r)) rows
  | _ => []
  end.

Example sample_rows_shown :
  rows_view (setChannelFormat sample_channels true) =
  [(u "a", VStr (u "vip,default"), numZ 30, numZ 5, numZ 125); (u "b", VStr (u "default"), numZ 7, numZ 0, numZ 25)].
Proof. vm_compute. reflexivity. Qed.

(** A group whose name is part of a name that is there is lost. *)
Example group_lost :
  rows_view (setChannelFormat [sample_channel 1 "a" "svip" 0 0 0 1 1; sample_channel 2 "a" "vip" 0 0 0 1 1] true) =
  [(u "a", VStr (u "svip"), numZ 0, numZ 0, numZ 0)].
Proof. vm_compute. reflexivity. Qed.

(** The response time of a row is no mean: it depends on the order of the channels, and that of
    a single channel is halved. *)
Example time_halved :
  rows_view (setChannelFormat [sample_channel 1 "a" "g" 0 400 0 1 1] true) = [(u "a", VStr (u "g"), numZ 0, numZ 0, numZ 200)] ∧
  rows_view (setChannelFormat [sample_channel 1 "a" "g" 0 400 0 1 1; sample_channel 2 "a" "g" 0 800 0 1 1] true) =
    [(u "a", VStr (u "g"), numZ 0, numZ 0, numZ 500)] ∧
  rows_view (setChannelFormat [sample_channel 1 "a" "g" 0 800 0 1 1; sample_channel 2 "a" "g" 0 400 0 1 1] true) =
    [(u "a", VStr (u "g"), numZ 0, numZ 0, numZ 400)].
Proof. repeat split; vm_compute; reflexivity. Qed.

(** A channel of priority [-1] counts as none, so that others that differ look common. *)
Example negative_priority_hidden :
  rows_view (setChannelFormat [sample_channel 1 "a" "g" 0 0 (-1) 1 1; sample_channel 2 "a" "g" 0 0 5 1 1] true) =
  [(u "a", VStr (u "g"), numZ 0, numZ 5, numZ 0)].
Proof. vm_compute. reflexivity. Qed.

(** A tag that is called like an inherited property keeps the whole list from being shown. *)
Example inherited_tag_throws :
  setChannelFormat [sample_channel 1 "constructor" "g" 0 0 0 1 1] true = Throw TypeError.
Proof. vm_compute. reflexivity. Qed.

(** The tabs of the types count channels while the first one counts the rows. *)
Example tabs_of_tags :
  (let! t := setChannelFormat sample_channels true in channelTypeCounts [] t) =
  Ok [(u "1", numZ 2); (u "14", numZ 1); (u "all", numZ 2)].
Proof. vm_compute. reflexivity. Qed.

(** Disabling the only enabled channel of a tag leaves its row enabled. *)
Example row_stays_enabled :
  match setChannelFormat [sample_channel 1 "a" "g" 0 0 0 1 1] true with
  | Ok t =>
    match manageChannel_replied (numZ 1) (numZ 2) t with
    | Tagged [r] => (status r, map (λ c, fld (data c) "status") (children r))
    | _ => (VUndef, [])
    end
  | Throw _ => (VUndef, [])
  end = (numZ 1, [numZ 2]).
Proof. vm_compute. reflexivity. Qed.

(** A search is not numbered: its reply replaces the list of a load that was sent later and
    is already shown. *)
Definition answer_of (l : list obj) : answer := {| items := l; total := numZ (Z.of_nat (length l)); type_counts := None |}.
Example late_search_shown :
  let old := sample_channel 1 "a" "g" 0 0 0 1 1 in
  let new := sample_channel 2 "b" "g" 0 0 0 1 1 in
  let s := run [SearchPage true 3 false; LoadPage false 1 false; Replied (Load 1 false false) (Listed (answer_of [new]));
                Replied (Find 3 false false) (Listed (answer_of [old]))] listing0 in
  map data (listed_channels (channels s)) = [old] ∧ activePage s = 3.
Proof. split; vm_compute; reflexivity. Qed.

Lemma whole_numZ c k z : fld (data c) k = numZ z → 0 ≤ z < 2 ^ 53 → whole_field c k.
Proof. intros H Hz. unfold whole_field, num_of. rewrite H. split; [done|]. by exists z. Qed.

Lemma sample_tidy : Forall tidy sample_listed.
Proof.
  repeat (apply Forall_cons_2; [split; first [reflexivity|(eapply whole_numZ; [reflexivity|lia])|(eexists; split; [reflexivity|lia])]|]). apply Forall_nil_2.
Qed.
Lemma sample_quota : countable (num_of "used_quota") sample_listed.
Proof.
  split; [|vm_compute; reflexivity]. eapply list.Forall_impl; [exact sample_tidy|]. intros c Hc. apply (tidy_quota c Hc).
Qed.

Lemma tag_rows_exact_witness :
  ∃ rows, setChannelFormat sample_channels true = Ok (Tagged rows) ∧
    Forall2 (row_spec sample_listed) (set_array (map ctag sample_listed)) rows.
Proof. apply tag_rows_exact; [vm_compute; reflexivity|exact sample_tidy|exact sample_quota]. Defined.

Lemma tag_status_kept_witness :
  ∃ rows, rmap (fold_left (λ t a, manageTag a.1 a.2 t) [(u "a", false); (u "b", true)]) (setChannelFormat sample_channels true) =
    Ok (Tagged rows) ∧ Forall row_live rows.
Proof. apply (tag_status_kept _ sample_listed); [vm_compute; reflexivity|exact sample_tidy|exact sample_quota]. Defined.

Lemma type_counts_exact_witness :
  ∃ counts, channelTypeCounts [] (Plain sample_listed) = Ok counts ∧
    obj_get counts (u "all") = Some (numZ (entry_count (Plain sample_listed))) ∧
    (∀ k, k ∈ [u "1"; u "14"; u "1"] → obj_get counts k = Some (numZ (occ k [u "1"; u "14"; u "1"]))) ∧
    NoDup (availableTypeKeys counts) ∧
    ∀ k, k ∈ availableTypeKeys counts ↔ k = u "all" ∨ k ∈ [u "1"; u "14"; u "1"].
Proof.
  apply type_counts_exact; [vm_compute; reflexivity| |vm_compute; reflexivity].
  repeat (apply Forall_cons_2; [by split|]). apply Forall_nil_2.
Defined.

Definition two_loads : listing := step (LoadPage false 2 false) (step (LoadPage false 1 false) listing0).

Lemma latest_load_shown_witness :
  let sent := loadChannels false 1 false two_loads in
  let before := [Replied (Load 2 false false) (Listed (answer_of []))] in
  let after := [Replied (Load 1 false false) (Listed (answer_of []))] in
  shown (run before sent) = (channels two_loads, channelCount two_loads, true) ∧
  shown (run (before ++ Replied (Load (requestCounter two_loads + 1) false false) (Listed (answer_of sample_channels)) :: after) sent) =
  (Plain sample_listed, numZ 3, false).
Proof.
  apply (latest_load_shown two_loads false _ _ (answer_of sample_channels) (Plain sample_listed) VUndef).
  - apply reach_step, reach_step, reach_start.
  - apply Forall_cons_2; [|apply Forall_nil_2]. cbn. set_solver.
  - apply Forall_cons_2; [|apply Forall_nil_2]. cbn. set_solver.
  - vm_compute. reflexivity.
  - reflexivity.
Defined.

Definition sample_models : list jstr := [u "m1"; u "m2"; u "m3"].
Definition sample_replies (m : jstr) : test_reply := if m =s u "m2" then Failed [] else Tested true VUndef (numZ 1).

Lemma batch_tally_exact_witness :
  concat (sent_batches (λ _, false) (λ _, false) 0 (batches sample_models)) = sample_models ∧
  tally (u "7") sample_models
    (fold_left (λ rs m, record_test (u "7") m (sample_replies m) rs) (rev sample_models)
       (clear_results (u "7") sample_models [])) = (2%nat, 1%nat).
Proof.
  destruct (batch_tally_exact (u "7") sample_models sample_replies (rev sample_models) []) as [H1 H2].
  - symmetry. apply Permutation_rev.
  - split; [exact H1|]. rewrite H2. vm_compute. reflexivity.
Defined.

Lemma columns_read_back_witness :
  columns_ok (handleColumnVisibilityChange (u "balance") false (columns_all true)) ∧ columns_ok (handleSelectAll false) ∧
  load_columns (save_columns (columns_all true) None) = columns_all true.
Proof.
  apply columns_read_back; [apply columns_ok_all|]. apply (bool_decide_eq_true_1 _). reflexivity.
Defined.
