(* ===== verification/Sidebar.v ===== *)
(** * The modules of the sidebar (hooks/common/useSidebar.js, useUserPermissions.js,
      pages/Setting/Operation/SettingsSidebarModulesAdmin.jsx)

    Which modules the sidebar shows follows from the configuration of the administrator, the
    one of the user and the defaults.  The hook loads the user's configuration on its own
    and on request, and replies come in any order; the page of the administrator writes the
    option from which the hook reads.

    [merge_exact]: the defaults fill in what the stored configuration leaves out.
    [visible_exact]: a module is shown when the administrator allows it and its section and
    the user has switched off neither.  [only_allowed_shown]: whatever was loaded, in
    whatever order, nothing is shown that the administrator has not allowed.
    [switched_off_hidden]: a module that is switched off on the page and saved is hidden for
    every user.  [loader_ends]: the sign of loading goes away with the replies.

    Assigning to [__proto__] sets no property; that it changes the prototype is not
    modelled. *)

From S2P Require Import Prelude JsString JsNumber JsValue Json.

Local Open Scope Z_scope.

(** ** Sections *)

Definition section (enabled : bool) (modules : list string) : val :=
  VObj ((u "enabled", VBool enabled) :: map (λ m, (u m, VBool true)) modules).

Definition DEFAULT_ADMIN_CONFIG : obj :=
  [(u "chat", section false ["playground"; "chat"]);
   (u "console", section true ["detail"; "token"; "log"; "midjourney"; "task"]);
   (u "personal", section true ["topup"; "team"; "personal"]);
   (u "admin", section true ["finance"; "channel"; "models"; "deployment"; "redemption"; "login-log"; "user";
                             "subscription"; "ai-news"; "setting"])].

Definition deepClone (v : val) : res val := JSON_parse (stringify_text v).

Definition PROTO : jstr := u "__proto__".
(** [o[k] = v] *)
Definition assign (o : obj) (k : jstr) (v : val) : obj := if k =s PROTO then o else obj_set o k v.
(** [{ ...a, ...b }] *)
Definition spread2 (a b : val) : val := VObj (obj_extend (obj_of_entries (entries a)) (entries b)).

Definition merge_section (merged : obj) (kv : jstr * val) : obj :=
  if negb (truthy kv.2) || negb (typeof_object kv.2) then merged
  else if negb (truthy (oget merged kv.1)) then assign merged kv.1 (VObj (obj_of_entries (entries kv.2)))
  else assign merged kv.1 (spread2 (oget merged kv.1) kv.2).

Definition mergeAdminConfig (savedConfig : val) : res obj :=
  let! clone := deepClone (VObj DEFAULT_ADMIN_CONFIG) in
  match clone with
  | VObj merged =>
    if negb (truthy savedConfig) || negb (typeof_object savedConfig) then Ok merged
    else Ok (fold_left merge_section (entries savedConfig) merged)
  | _ => Throw TypeError
  end.

(** [adminConfig], from the option [SidebarModulesAdmin] *)
Definition adminConfig (option : val) : res obj :=
  if truthy option then
    match (let! s := to_str option in JSON_parse s) with
    | Ok config => mergeAdminConfig config
    | Throw _ => mergeAdminConfig VNull
    end
  else mergeAdminConfig VNull.

(** ** The user's configuration *)

(** Every module that the administrator allows, switched on *)
Definition default_module (section : val) (o : obj) (m : jstr) : obj :=
  if negb (m =s u "enabled") && truthy (get_opt section m) then assign o m (VBool true) else o.
Definition default_section (section : val) : val :=
  VObj (fold_left (default_module section) (keys section) [(u "enabled", VBool true)]).
Definition defaultUserConfig (admin : obj) : obj :=
  fold_left (λ o s, let sec := oget admin s in
                    if truthy (get_opt sec (u "enabled")) then assign o s (default_section sec) else o)
    (obj_keys admin) [].

(** The reply to the request for the user: [sidebar_modules] of a successful one *)
Definition user_config (admin : obj) (reply : res val) : val :=
  match reply with
  | Ok v =>
    if truthy v then
      match v with
      | VStr s => match JSON_parse s with Ok config => config | Throw _ => VObj (defaultUserConfig admin) end
      | _ => v
      end
    else VObj (defaultUserConfig admin)
  | Throw _ => VObj (defaultUserConfig admin)
  end.

(** ** What is shown *)

(** [x !== false] of a property of the user's section, where there is one *)
Definition not_off (userSection : val) (k : jstr) : bool :=
  if truthy userSection then negb (is_false (get_opt userSection k)) else true.

Definition final_module (adminSection userSection : val) (o : obj) (m : jstr) : obj :=
  if m =s u "enabled" then o
  else
    let allowed := get_opt adminSection m in
    assign o m (if truthy allowed then VBool (not_off userSection m && not_off userSection (u "enabled")) else allowed).
Definition final_section (adminSection userSection : val) : val :=
  if negb (truthy (get_opt adminSection (u "enabled"))) then VObj [(u "enabled", VBool false)]
  else VObj (fold_left (final_module adminSection userSection) (keys adminSection)
               [(u "enabled", VBool (not_off userSection (u "enabled")))]).

Definition finalConfig (admin : obj) (userConfig : val) : obj :=
  if negb (truthy userConfig) then []
  else fold_left (λ o s, assign o s (final_section (oget admin s) (get_opt userConfig s))) (obj_keys admin) [].

Definition isModuleVisible (final : obj) (sectionKey moduleKey : jstr) : bool :=
  let section := oget final sectionKey in
  is_true (get_opt section (if nonempty moduleKey then moduleKey else u "enabled")).

Definition shown_modules (section : val) : list jstr :=
  List.filter (λ k, negb (k =s u "enabled") && is_true (get_opt section k)) (keys section).
Definition hasSectionVisibleModules (final : obj) (sectionKey : jstr) : bool :=
  let section := oget final sectionKey in
  if truthy (get_opt section (u "enabled"))
  then existsb (λ k, negb (k =s u "enabled") && is_true (get_opt section k)) (keys section) else false.
Definition getVisibleModules (final : obj) (sectionKey : jstr) : list jstr :=
  let section := oget final sectionKey in
  if truthy (get_opt section (u "enabled")) then shown_modules section else [].

(** ** The hook *)

(** A load that waits for its reply: whether it shows the loader, and the configuration of
    the administrator that it was called with *)
Record load := { shouldShowLoader : bool; admin_then : obj }.
Record sidebar := {
  option_text : val;
  userConfig : val;
  loading : bool;
  hasLoadedOnce : bool;
  pending : list load;
}.

Definition admin_of (s : sidebar) : res obj := adminConfig (option_text s).

Definition set_loads (busy : bool) (l : list load) (s : sidebar) : sidebar :=
  {| option_text := option_text s; userConfig := userConfig s; loading := busy; hasLoadedOnce := hasLoadedOnce s;
     pending := l |}.

(** [loadUserConfig({ withLoading })] up to its request *)
Definition loadUserConfig (withLoading : option bool) (admin : obj) (s : sidebar) : sidebar :=
  let show := default (negb (hasLoadedOnce s)) withLoading in
  set_loads (if show then true else loading s) (pending s ++ [{| shouldShowLoader := show; admin_then := admin |}]) s.

(** The rest of it, after the reply *)
Definition loaded (l : load) (reply : res val) (s : sidebar) : sidebar :=
  {| option_text := option_text s; userConfig := user_config (admin_then l) reply;
     loading := if shouldShowLoader l then false else loading s; hasLoadedOnce := true; pending := pending s |}.

(** The effect on the configuration of the administrator, and the refresh events; the page
    is not left while it has loads under way. *)
Definition load_if_any (withLoading : option bool) (s : sidebar) : sidebar :=
  match admin_of s with
  | Ok ((_ :: _) as admin) => loadUserConfig withLoading admin s
  | _ => s
  end.

Inductive event :=
| StatusChanged (option : val)
| RefreshUserConfig
| RefreshElsewhere (skipLoader : bool)
| Reply (i : nat) (reply : res val).

Definition with_option (v : val) (s : sidebar) : sidebar :=
  {| option_text := v; userConfig := userConfig s; loading := loading s; hasLoadedOnce := hasLoadedOnce s;
     pending := pending s |}.

Definition step (e : event) (s : sidebar) : sidebar :=
  match e with
  | StatusChanged v => if strict_eq v (option_text s) then s else load_if_any None (with_option v s)
  | RefreshUserConfig => load_if_any (Some false) s
  | RefreshElsewhere skip => load_if_any (if skip then Some false else None) s
  | Reply i reply =>
    match pending s !! i with
    | Some l => loaded l reply (set_loads (loading s) (delete i (pending s)) s)
    | None => s
    end
  end.

(** The first render, with the effect that loads *)
Definition mount (option : val) : sidebar :=
  load_if_any None {| option_text := option; userConfig := VNull; loading := true; hasLoadedOnce := false; pending := [] |}.

Inductive reachable : sidebar → Prop :=
| reach_mount option : reachable (mount option)
| reach_step e s : reachable s → reachable (step e s).

Definition visible (s : sidebar) (sectionKey moduleKey : jstr) : bool :=
  match admin_of s with
  | Ok admin => isModuleVisible (finalConfig admin (userConfig s)) sectionKey moduleKey
  | Throw _ => false
  end.

(** ** Permissions of the user (useUserPermissions.js) *)

Definition isSidebarSectionAllowed (permissions : val) (sectionKey : jstr) : bool :=
  let modules := get_opt permissions (u "sidebar_modules") in
  if negb (truthy modules) then true else negb (is_false (get_opt modules sectionKey)).
Definition isSidebarModuleAllowed (permissions : val) (sectionKey moduleKey : jstr) : bool :=
  let modules := get_opt permissions (u "sidebar_modules") in
  if negb (truthy modules) then true
  else
    let perms := get_opt modules sectionKey in
    if is_false perms then false
    else negb (truthy perms && is_false (get_opt perms moduleKey)).
Definition getAllowedSidebarSections (permissions : val) : list jstr :=
  let modules := get_opt permissions (u "sidebar_modules") in
  if negb (truthy modules) then [] else List.filter (isSidebarSectionAllowed permissions) (keys modules).
Definition getAllowedSidebarModules (permissions : val) (sectionKey : jstr) : list jstr :=
  let modules := get_opt permissions (u "sidebar_modules") in
  if negb (truthy modules) then []
  else
    let perms := get_opt modules sectionKey in
    if negb (truthy perms) || negb (typeof_object perms) then [] else shown_modules perms.

(** ** The page of the administrator *)

Definition page_defaults (login_log : bool) : obj :=
  [(u "chat", section true ["playground"; "chat"]);
   (u "console", section true ["detail"; "token"; "log"; "midjourney"; "task"]);
   (u "personal", section true ["topup"; "personal"]);
   (u "admin", section true (["channel"; "models"; "deployment"; "redemption"] ++
                             (if login_log then ["login-log"] else []) ++ ["user"; "subscription"; "setting"]))].
Definition initial_modules : obj := page_defaults true.
Definition resetSidebarModules : obj := page_defaults false.

(** [{ ...modules, [sectionKey]: { ...modules[sectionKey], [moduleKey]: checked } }] *)
Definition handleModuleChange (sectionKey moduleKey : jstr) (checked : bool) (modules : obj) : obj :=
  obj_set modules sectionKey (VObj (obj_set (obj_of_entries (entries (oget modules sectionKey))) moduleKey (VBool checked))).
Definition handleSectionChange (sectionKey : jstr) (checked : bool) (modules : obj) : obj :=
  handleModuleChange sectionKey (u "enabled") checked modules.

(** The modules when the options arrive; what is stored may be any JSON value. *)
Definition page_modules (option : val) (modules : val) : val :=
  if truthy option then
    match (let! s := to_str option in JSON_parse s) with
    | Ok v => v
    | Throw _ => VObj resetSidebarModules
    end
  else modules.

(** The value that [onSubmit] stores, and then hands to the hook *)
Definition onSubmit (modules : obj) : val := VStr (stringify_text (VObj modules)).

(** ** Objects that are filled key by key *)

Lemma get_assigned o k v k' :
  obj_get (assign o k v) k' = if decide (k = k' ∧ k ≠ PROTO) then Some v else obj_get o k'.
Proof.
  unfold assign. case_bool_decide as Hk.
  - by rewrite decide_False by tauto.
  - rewrite obj_get_set. destruct (decide (k = k')); [by rewrite decide_True|]. by rewrite decide_False by tauto.
Qed.

(** The object that a loop over [ks] fills with [f k] for the keys with [p k] *)
Lemma filled_get (p : jstr → bool) (f : jstr → val) ks o k :
  k ≠ PROTO →
  obj_get (fold_left (λ o k, if p k then assign o k (f k) else o) ks o) k =
  if decide (k ∈ ks ∧ p k = true) then Some (f k) else obj_get o k.
Proof.
  intros Hk. revert o. induction ks as [|x ks IH]; intros o; cbn [fold_left].
  { by rewrite decide_False by set_solver. }
  rewrite IH. destruct (decide (k ∈ ks ∧ p k = true)) as [Hin|Hin].
  { by rewrite decide_True by set_solver. }
  destruct (p x) eqn:Ex.
  - rewrite get_assigned. destruct (decide (x = k)) as [->|Hx].
    + rewrite !decide_True by set_solver. done.
    + rewrite !decide_False by set_solver. done.
  - rewrite decide_False; [done|]. intros [Hc Hp]. apply elem_of_cons in Hc as [->|Hc]; [congruence|tauto].
Qed.

Lemma keys_has o k : k ∈ obj_keys o ↔ is_Some (obj_get o k).
Proof.
  destruct (obj_get o k) as [v|] eqn:E.
  - split; [by eexists|]. intros _. apply dec_stable. intros Hn. apply obj_get_keys in Hn. congruence.
  - apply obj_get_keys in E. split; [done|]. by intros [].
Qed.

(** ** What is shown *)

(** A configuration as it is stored: sections that are objects *)
Definition sections_ok (o : obj) : Prop :=
  obj_ok o ∧ Forall (λ kv, (∃ sec, kv.2 = VObj sec ∧ obj_ok sec) ∨ truthy kv.2 && typeof_object kv.2 = false) o.

(** The module [m] of section [s] *)
Definition module_in (config : obj) (s m : jstr) : option val :=
  match obj_get config s with Some (VObj sec) => obj_get sec m | _ => None end.
Definition allowed (config : obj) (s m : jstr) : bool := truthy (default VUndef (module_in config s m)).
(** Every section is an object. *)
Definition all_sections (o : obj) : Prop := ∀ s v, obj_get o s = Some v → ∃ sec, v = VObj sec ∧ obj_ok sec.

Lemma final_section_get sec usec m :
  m ≠ PROTO → m ≠ u "enabled" →
  is_true (get_opt (final_section (VObj sec) usec) m) =
  truthy (get_opt (VObj sec) (u "enabled")) && bool_decide (m ∈ obj_keys sec) && truthy (get_opt (VObj sec) m) &&
  not_off usec m && not_off usec (u "enabled").
Proof.
  intros Hp He. unfold final_section. destruct (truthy (get_opt (VObj sec) (u "enabled"))); cbn [negb andb].
  2:{ unfold get_opt. cbn [get obj_get]. rewrite bool_decide_eq_false_2 by done. cbn [default from_option id from_option id].
      unfold proto_get. by repeat case_bool_decide. }
  set (f m := let allowed := get_opt (VObj sec) m in
              if truthy allowed then VBool (not_off usec m && not_off usec (u "enabled")) else allowed).
  assert (∀ ks o, fold_left (final_module (VObj sec) usec) ks o =
                  fold_left (λ o k, if negb (k =s u "enabled") then assign o k (f k) else o) ks o) as ->.
  { intros ks. induction ks as [|k ks IH]; intros o; [done|]. cbn [fold_left]. rewrite IH. f_equal.
    unfold final_module. by destruct (k =s u "enabled"). }
  unfold get_opt at 1. cbn [get]. rewrite filled_get by done.
  replace (keys (VObj sec)) with (obj_keys sec) by reflexivity.
  rewrite (bool_decide_eq_false_2 (m = u "enabled")) by done. cbn [negb].
  destruct (decide (m ∈ obj_keys sec)) as [Hm|Hm].
  - rewrite decide_True by done. rewrite bool_decide_eq_true_2 by done. cbn [default from_option id andb]. unfold f.
    destruct (truthy (get_opt (VObj sec) m)) eqn:Et; [by destruct (_ && _)|]. by destruct (get_opt (VObj sec) m) as [| |[]| | | | |].
  - rewrite decide_False by tauto. rewrite bool_decide_eq_false_2 by done. cbn [andb obj_get].
    rewrite bool_decide_eq_false_2 by done. cbn [default from_option id from_option id]. unfold proto_get. by repeat case_bool_decide.
Qed.

Lemma final_get admin uc s :
  truthy uc = true → s ≠ PROTO →
  obj_get (finalConfig admin uc) s =
  if decide (s ∈ obj_keys admin) then Some (final_section (oget admin s) (get_opt uc s)) else None.
Proof.
  intros Hu Hs. unfold finalConfig. rewrite Hu. cbn [negb].
  rewrite (filled_get (λ _, true) (λ s, final_section (oget admin s) (get_opt uc s))) by done.
  destruct (decide (s ∈ obj_keys admin)); [by rewrite decide_True|]. by rewrite decide_False by tauto.
Qed.

Lemma module_get sec m : m ≠ PROTO → obj_get sec m = None → get_opt (VObj sec) m = proto_get m.
Proof. intros Hm E. unfold get_opt. cbn [get]. by rewrite E. Qed.

(** A module of the sidebar is shown when the administrator's configuration allows the
    section and the module and the user's configuration has switched off neither; nothing is
    shown before the user's configuration is there. *)
Theorem visible_exact admin uc s m :
  all_sections admin → s ≠ PROTO → m ≠ PROTO → m ≠ u "enabled" → m ≠ [] →
  isModuleVisible (finalConfig admin uc) s m =
  truthy uc && allowed admin s (u "enabled") && allowed admin s m &&
  not_off (get_opt uc s) m && not_off (get_opt uc s) (u "enabled").
Proof.
  intros Ha Hs Hm He Hn. unfold isModuleVisible. replace (nonempty m) with true by (symmetry; by apply negb_true_iff, bool_decide_eq_false_2).
  assert (is_true (get_opt (proto_get s) m) = false) as Hproto.
  { unfold proto_get. destruct (bool_decide _); [|destruct (s =s u "__proto__")]; unfold get_opt; cbn [get obj_get default from_option id];
      unfold proto_get; by repeat case_bool_decide. }
  unfold oget. destruct (truthy uc) eqn:Eu; cbn [andb].
  2:{ unfold finalConfig. rewrite Eu. cbn [negb obj_get default from_option id]. done. }
  rewrite final_get by done. unfold allowed, module_in. destruct (decide (s ∈ obj_keys admin)) as [Hin|Hin]; cbn [default from_option id from_option id].
  2:{ apply obj_get_keys in Hin. rewrite Hin. cbn [default from_option id truthy andb]. done. }
  apply keys_has in Hin as [v Hv]. destruct (Ha s v Hv) as (sec & -> & _). unfold oget. rewrite Hv. cbn [default from_option id from_option id].
  rewrite final_section_get by done. unfold get_opt at 1 2. cbn [get].
  destruct (obj_get sec m) as [x|] eqn:Ex.
  - rewrite bool_decide_eq_true_2 by (apply keys_has; by eexists). cbn [default from_option id from_option id].
    destruct (obj_get sec (u "enabled")); [|done]. cbn [default from_option id from_option id]. by rewrite andb_true_r.
  - rewrite bool_decide_eq_false_2 by (by apply obj_get_keys). cbn [default from_option id truthy].
    destruct (obj_get sec (u "enabled")); cbn [default from_option id from_option id]; by rewrite ?andb_false_r.
Qed.

(** ** The configuration of the administrator *)

Lemma clone_default : deepClone (VObj DEFAULT_ADMIN_CONFIG) = Ok (VObj DEFAULT_ADMIN_CONFIG).
Proof. vm_compute. reflexivity. Qed.

Definition merged_config (saved : val) : obj :=
  if negb (truthy saved) || negb (typeof_object saved) then DEFAULT_ADMIN_CONFIG
  else fold_left merge_section (entries saved) DEFAULT_ADMIN_CONFIG.
Lemma mergeAdminConfig_eq saved : mergeAdminConfig saved = Ok (merged_config saved).
Proof. unfold mergeAdminConfig. rewrite clone_default. cbn [rbind]. unfold merged_config. by destruct (_ || _). Qed.

Lemma all_sections_assign o k v : all_sections o → (∃ sec, v = VObj sec ∧ obj_ok sec) → all_sections (assign o k v).
Proof. intros Ho Hv s x. rewrite get_assigned. case_decide; [by intros [= <-]|apply Ho]. Qed.
Lemma merge_section_all o kv : all_sections o → all_sections (merge_section o kv).
Proof.
  intros Ho. unfold merge_section, spread2.
  destruct (_ || _); [done|]. destruct (negb _); apply all_sections_assign; eauto with js.
Qed.
Lemma all_sections_of o : Forall (λ kv, ∃ sec, kv.2 = VObj sec ∧ obj_ok sec) o → all_sections o.
Proof. rewrite list.Forall_forall. intros H s v Hv. apply obj_get_In in Hv. by apply H in Hv. Qed.
Lemma section_ok b ms : keys_okb (u "enabled" :: map u ms) = true → ∃ sec, section b ms = VObj sec ∧ obj_ok sec.
Proof.
  intros H. eexists. split; [reflexivity|]. apply keys_okb_ok. unfold obj_keys. cbn [map fst]. rewrite map_map. exact H.
Qed.
Lemma default_all : all_sections DEFAULT_ADMIN_CONFIG.
Proof. apply all_sections_of. repeat (apply Forall_cons_2; [by apply section_ok|]). apply Forall_nil_2. Qed.
Lemma merged_all saved : all_sections (merged_config saved).
Proof.
  unfold merged_config. destruct (_ || _); [apply default_all|]. pose proof default_all as Hd. revert Hd. generalize DEFAULT_ADMIN_CONFIG.
  induction (entries saved) as [|kv l IH]; intros o Ho; [done|]. cbn [fold_left]. by apply IH, merge_section_all.
Qed.

Lemma admin_total v : ∃ admin, adminConfig v = Ok admin ∧ all_sections admin.
Proof.
  unfold adminConfig. destruct (truthy v); [destruct (let! s := to_str v in JSON_parse s)|];
    rewrite mergeAdminConfig_eq; eauto using merged_all.
Qed.

(** What a section adds *)
Lemma module_in_merge o k sec s m :
  all_sections o → obj_ok sec → s ≠ PROTO →
  module_in (merge_section o (k, VObj sec)) s m =
  if decide (k = s) then match obj_get sec m with Some v => Some v | None => module_in o s m end else module_in o s m.
Proof.
  intros Ho Hsec Hs. unfold merge_section, module_in. cbn [fst snd truthy typeof_object negb orb entries].
  destruct (decide (k = s)) as [->|Hk].
  2:{ destruct (negb _); rewrite get_assigned, decide_False by tauto; done. }
  unfold oget, spread2. destruct (obj_get o s) as [v|] eqn:E; cbn [default from_option id].
  - destruct (Ho s v E) as (sec0 & -> & Hsec0). cbn [truthy negb]. rewrite get_assigned, decide_True by done. cbn [entries].
    rewrite obj_get_extend_ok by done. destruct (obj_get sec m); [done|].
    by rewrite obj_of_entries_id.
  - destruct (negb _) eqn:Ep; rewrite get_assigned, decide_True by done.
    + rewrite obj_of_entries_id by done. by destruct (obj_get sec m).
    + cbn [entries]. rewrite obj_get_extend_ok by done. destruct (obj_get sec m); [done|].
      unfold proto_get. destruct (bool_decide _); [done|]. by rewrite bool_decide_eq_false_2.
Qed.

Lemma merge_other o kv s m : truthy kv.2 && typeof_object kv.2 = false → module_in (merge_section o kv) s m = module_in o s m.
Proof. intros H. unfold merge_section. by destruct (truthy kv.2), (typeof_object kv.2). Qed.

(** The configuration in force has, for every module, the value that is stored for it, and
    the default one where the stored configuration leaves it out; sections that are not
    objects count as left out. *)
Theorem merge_exact saved s m :
  sections_ok saved → s ≠ PROTO →
  ∃ admin, mergeAdminConfig (VObj saved) = Ok admin ∧
    module_in admin s m = match module_in saved s m with Some v => Some v | None => module_in DEFAULT_ADMIN_CONFIG s m end.
Proof.
  intros [Ho HF] Hs. exists (merged_config (VObj saved)). split; [apply mergeAdminConfig_eq|].
  unfold merged_config. cbn [truthy typeof_object negb orb entries]. pose proof default_all as Hd.
  revert Hd. generalize DEFAULT_ADMIN_CONFIG. unfold obj_ok, obj_keys in Ho.
  induction HF as [|[k v] saved Hv HF IH]; intros d Hd; [done|]. apply StronglySorted_inv in Ho as [Ho Hf].
  cbn [fold_left]. rewrite IH by (done || by apply merge_section_all). clear IH HF Ho.
  unfold module_in at 1 3. cbn [obj_get]. cbn [snd] in Hv. destruct (decide (k = s)) as [->|Hk].
  - rewrite bool_decide_eq_true_2 by done. assert (obj_get saved s = None) as ->.
    { apply obj_get_keys. intros Hin. rewrite list.Forall_forall in Hf. by destruct (Hf s Hin). }
    destruct Hv as [(sec & -> & Hsec)|Hv].
    + rewrite module_in_merge by done. by rewrite decide_True.
    + rewrite merge_other by done. by destruct v.
  - rewrite bool_decide_eq_false_2 by done. destruct Hv as [(sec & -> & Hsec)|Hv].
    + rewrite module_in_merge by done. by rewrite decide_False.
    + by rewrite merge_other.
Qed.

(** ** The hook *)

(** in every state of the hook, whichever replies have come and in whichever order, a module
    that is shown is allowed, with its section, by the administrator's configuration in
    force. *)
Theorem only_allowed_shown st s m :
  visible st s m = true → s ≠ PROTO → m ≠ PROTO → m ≠ u "enabled" → m ≠ [] →
  ∃ admin, admin_of st = Ok admin ∧ allowed admin s (u "enabled") = true ∧ allowed admin s m = true.
Proof.
  intros Hv Hs Hm He Hn. unfold visible in Hv. destruct (admin_total (option_text st)) as (admin & Ha & Hall).
  unfold admin_of in *. rewrite Ha in *. exists admin. split; [done|]. rewrite visible_exact in Hv by done.
  rewrite !andb_true_iff in Hv. tauto.
Qed.

Lemma default_user_get admin s :
  s ≠ PROTO →
  obj_get (defaultUserConfig admin) s =
  if decide (s ∈ obj_keys admin ∧ truthy (get_opt (oget admin s) (u "enabled")) = true)
  then Some (default_section (oget admin s)) else None.
Proof.
  intros Hs. unfold defaultUserConfig.
  by rewrite (filled_get (λ s, truthy (get_opt (oget admin s) (u "enabled"))) (λ s, default_section (oget admin s))).
Qed.

Lemma default_section_on sec k :
  k ≠ PROTO → is_false (get_opt (default_section sec) k) = false.
Proof.
  intros Hk. unfold default_section, get_opt. cbn [get].
  assert (∀ ks o, fold_left (default_module sec) ks o =
    fold_left (λ o k, if negb (k =s u "enabled") && truthy (get_opt sec k) then assign o k (VBool true) else o) ks o) as -> by done.
  rewrite (filled_get (λ k, negb (k =s u "enabled") && truthy (get_opt sec k)) (λ _, VBool true)) by done.
  case_decide; [done|]. cbn [obj_get]. destruct (u "enabled" =s k); cbn [default from_option id]; [done|]. unfold proto_get.
  by repeat case_bool_decide.
Qed.

(** a user without a configuration of their own, or whose configuration cannot be loaded or
    read, is shown exactly what the administrator allows. *)
Theorem default_shows_allowed admin s m reply :
  all_sections admin → s ≠ PROTO → m ≠ PROTO → m ≠ u "enabled" → m ≠ [] →
  (∃ e, reply = Throw e) ∨ (∃ v, reply = Ok v ∧ truthy v = false) ∨ (∃ t e, reply = Ok (VStr t) ∧ JSON_parse t = Throw e) →
  isModuleVisible (finalConfig admin (user_config admin reply)) s m = allowed admin s (u "enabled") && allowed admin s m.
Proof.
  intros Ha Hs Hm He Hn Hr. assert (user_config admin reply = VObj (defaultUserConfig admin)) as ->.
  { unfold user_config. destruct Hr as [[e ->]|[(v & -> & ->)|(t & e & -> & Ht)]]; [done|done|].
    rewrite Ht. by destruct (truthy _). }
  rewrite visible_exact by done. cbn [truthy andb].
  destruct (allowed admin s (u "enabled")) eqn:Ee; [|done]. cbn [andb].
  assert (∀ k, k ≠ PROTO → not_off (get_opt (VObj (defaultUserConfig admin)) s) k = true) as Hon.
  { intros k Hk. unfold not_off. destruct (truthy _); [|done]. apply negb_true_iff. unfold get_opt at 2. cbn [get].
    rewrite default_user_get by done. unfold allowed, module_in in Ee.
    destruct (obj_get admin s) as [v|] eqn:Ev; [|done]. destruct (Ha s v Ev) as (sec & -> & _).
    rewrite decide_True; [by apply default_section_on|]. split; [apply keys_has; by eexists|].
    unfold oget. rewrite Ev. cbn [default from_option id]. unfold get_opt. cbn [get]. by destruct (obj_get sec (u "enabled")). }
  rewrite !Hon by done. by rewrite !andb_true_r.
Qed.

Lemma seqb_false (a b : jstr) : a ≠ b → (a =s b) = false.
Proof. apply bool_decide_eq_false_2. Qed.

Lemma json_data_members o : json_data (VObj o) ↔ obj_ok o ∧ Forall (λ kv, jstr_wf kv.1 ∧ json_data kv.2) o.
Proof. split; [by inversion 1|]. intros []. by apply jd_obj. Qed.
Lemma json_data_set o k v : json_data (VObj o) → jstr_wf k → json_data v → json_data (VObj (obj_set o k v)).
Proof.
  rewrite !json_data_members. intros [Ho HF] Hk Hv. split; [by apply obj_ok_set|by apply obj_set_Forall].
Qed.

Lemma handleModuleChange_data s m b modules :
  json_data (VObj modules) → sections_ok modules → jstr_wf s → jstr_wf m → all_sections modules →
  json_data (VObj (handleModuleChange s m b modules)).
Proof.
  intros Hd Hok Hs Hm Hall. unfold handleModuleChange. apply json_data_set; [done|done|].
  apply json_data_set; [|done|apply jd_bool]. unfold oget. destruct (obj_get modules s) as [v|] eqn:E; cbn [default from_option id].
  - destruct (Hall s v E) as (sec & -> & Hsec). cbn [entries]. rewrite obj_of_entries_id by done.
    apply json_data_members in Hd as [_ HF]. rewrite list.Forall_forall in HF. apply obj_get_In in E. by apply HF in E as [_ E].
  - unfold proto_get. destruct (bool_decide _); [|destruct (_ =s _)]; apply jd_obj; try apply obj_ok_nil; apply Forall_nil_2.
Qed.

(** C32: a module, or a whole section, that is switched off on the page of the administrator and
    saved is hidden for every user, whatever is loaded for them. *)
Theorem switched_off_hidden modules s m uc busy once loads (whole : bool) :
  json_data (VObj modules) → all_sections modules → jstr_wf s → jstr_wf m →
  s ≠ PROTO → m ≠ PROTO → m ≠ u "enabled" → m ≠ [] →
  let modules' := if whole then handleSectionChange s false modules else handleModuleChange s m false modules in
  visible {| option_text := onSubmit modules'; userConfig := uc; loading := busy; hasLoadedOnce := once; pending := loads |} s m
  = false.
Proof.
  intros Hd Hall Ws Wm Hs Hm He Hn modules'. pose proof Hd as [Ho HF]%json_data_members.
  assert (sections_ok modules) as Hsec0.
  { split; [done|]. rewrite list.Forall_forall. intros [k v] Hin. left. by apply (Hall k), obj_get_elem. }
  set (k := if whole then u "enabled" else m).
  assert (modules' = handleModuleChange s k false modules) as Hm' by (unfold modules', k; by destruct whole).
  assert (json_data (VObj modules')) as Hd'.
  { rewrite Hm'. apply handleModuleChange_data; try done. unfold k. destruct whole; [by apply units_ok_wf|done]. }
  assert (sections_ok modules' ∧ module_in modules' s k = Some (VBool false)) as [Hok Hk].
  { rewrite Hm'. unfold handleModuleChange, module_in. split.
    - split; [by apply obj_ok_set|]. apply obj_set_Forall; [apply Hsec0|]. left. eexists. split; [done|]. auto with js.
    - rewrite obj_get_set, decide_True by done. by rewrite obj_get_set, decide_True. }
  destruct (merge_exact modules' s k Hok Hs) as (admin & Ha & Hin). rewrite Hk in Hin.
  assert (adminConfig (onSubmit modules') = Ok admin) as Hadmin.
  { unfold adminConfig, onSubmit. pose proof (JSON_parse_stringify [] (VObj modules') (Forall_nil_2 _) Hd') as Hp.
    change (JSON_parse (stringify_text (VObj modules')) = Ok (VObj modules')) in Hp.
    cbn [truthy to_str rbind]. rewrite Hp. destruct (nonempty _) eqn:E; [done|]. apply JSON_parse_nonblank in Hp.
    apply negb_false_iff, bool_decide_eq_true_1 in E. by rewrite E in Hp. }
  unfold visible, admin_of. cbn [option_text userConfig]. rewrite Hadmin.
  assert (allowed admin s k = false) as Hoff by (unfold allowed; by rewrite Hin).
  rewrite visible_exact; [|by rewrite mergeAdminConfig_eq in Ha; injection Ha as <-; apply merged_all|done..].
  unfold k in Hoff. destruct whole; rewrite Hoff; by rewrite ?andb_false_r.
Qed.

(** ** Lists of modules *)

(** the list of the modules that a section shows, and the sign that it shows any, say the
    same as the test for each module. *)
Theorem listed_are_visible final s m :
  m ≠ u "enabled" → m ≠ [] →
  (hasSectionVisibleModules final s = true ↔ getVisibleModules final s ≠ []) ∧
  (m ∈ getVisibleModules final s ↔
   truthy (get_opt (oget final s) (u "enabled")) = true ∧ m ∈ keys (oget final s) ∧ isModuleVisible final s m = true).
Proof.
  intros He Hn. unfold hasSectionVisibleModules, getVisibleModules, isModuleVisible, shown_modules.
  replace (nonempty m) with true by (symmetry; by apply negb_true_iff, bool_decide_eq_false_2).
  destruct (truthy (get_opt (oget final s) (u "enabled"))).
  - split.
    + rewrite existsb_exists. split.
      * intros (x & Hx & Hp). apply list_elem_of_In in Hx. intros Hnil.
        assert (x ∈ ([] : list jstr)) as Hin; [|by apply not_elem_of_nil in Hin]. rewrite <- Hnil. by apply elem_of_filter_bool.
      * destruct (List.filter _ _) as [|x l] eqn:E; [done|]. intros _. exists x. rewrite <- list_elem_of_In.
        apply (proj1 (elem_of_filter_bool (λ k, negb (k =s u "enabled") && is_true (get_opt (oget final s) k)) _ _)).
        rewrite E. apply elem_of_cons. by left.
    + rewrite elem_of_filter_bool. rewrite (seqb_false m) by done. cbn [negb andb]. tauto.
  - split; [done|]. split; [intros H; by apply not_elem_of_nil in H|]. by intros [].
Qed.

(** ** Loading *)

Definition loader_inv (s : sidebar) : Prop := loading s = true → Exists (λ l, shouldShowLoader l = true) (pending s).

Lemma loader_load w s : loader_inv s → loader_inv (load_if_any w s).
Proof.
  intros H. unfold load_if_any. destruct (admin_of s) as [[|a admin]|]; [done| |done]. unfold loader_inv, loadUserConfig.
  cbn [loading pending set_loads]. destruct (default _ w) eqn:E; intros Hl; apply Exists_app; [right; by constructor|left; auto].
Qed.

(** The defaults have sections, so there is always something to load. *)
Lemma admin_nonempty v : ∃ a admin, adminConfig v = Ok (a :: admin).
Proof.
  assert (∀ saved, is_Some (obj_get (merged_config saved) (u "console"))) as H.
  { intros saved. unfold merged_config. destruct (_ || _); [by eexists|].
    assert (is_Some (obj_get DEFAULT_ADMIN_CONFIG (u "console"))) as Hd by (by eexists).
    revert Hd. generalize DEFAULT_ADMIN_CONFIG. induction (entries saved) as [|kv l IH]; intros o Ho; [done|].
    cbn [fold_left]. apply IH. unfold merge_section. destruct (_ || _); [done|].
    destruct (negb _); rewrite get_assigned; case_decide; by eauto. }
  unfold adminConfig. destruct (truthy v); [destruct (let! s := to_str v in JSON_parse s)|]; rewrite mergeAdminConfig_eq.
  all: match goal with |- context [merged_config ?x] => destruct (merged_config x) as [|kv l] eqn:E;
         [specialize (H x); rewrite E in H; by destruct H|by exists kv, l] end.
Qed.

Lemma loader_mount v : loader_inv (mount v).
Proof.
  unfold mount, load_if_any, admin_of. cbn [option_text]. destruct (admin_nonempty v) as (a & admin & ->).
  intros _. apply Exists_app. right. by constructor.
Qed.

Lemma loader_step e s : loader_inv s → loader_inv (step e s).
Proof.
  intros H. destruct e as [v| |b|i r]; cbn [step].
  - destruct (strict_eq _ _); [done|]. by apply loader_load.
  - by apply loader_load.
  - by apply loader_load.
  - destruct (pending s !! i) as [l|] eqn:E; [|done]. unfold loader_inv, loaded. cbn [loading pending set_loads].
    destruct (shouldShowLoader l) eqn:El; [done|]. intros Hl. apply H, Exists_exists in Hl as (l' & Hin & Hl').
    apply Exists_exists. exists l'. split; [|done]. rewrite delete_take_drop. apply elem_of_app.
    rewrite <- (take_drop_middle _ _ _ E) in Hin. rewrite elem_of_app, elem_of_cons in Hin.
    destruct Hin as [Hin|[->|Hin]]; [by left|congruence|by right].
Qed.
Lemma reachable_loader s : reachable s → loader_inv s.
Proof. induction 1; [apply loader_mount|by apply loader_step]. Qed.

(** once the loads under way have their replies, in order and whatever they are, none is left,
    the sign of loading is gone, and there is a configuration of the user. *)
Theorem loader_ends s rs :
  reachable s → length rs = length (pending s) →
  let s' := fold_left (λ s r, step (Reply 0 r) s) rs s in
  pending s' = [] ∧ loading s' = false ∧ (rs ≠ [] → hasLoadedOnce s' = true).
Proof.
  intros Hr Hl s'. assert (pending s' = [] ∧ (rs ≠ [] → hasLoadedOnce s' = true)) as [Hp Ho].
  { unfold s'. clear s' Hr. revert s Hl. induction rs as [|r rs IH]; intros s Hl.
    - cbn [fold_left length] in *. split; [by apply nil_length_inv|done].
    - cbn [fold_left step]. destruct (pending s) as [|l ls] eqn:E; [done|]. cbn [lookup list_lookup].
      destruct (IH (loaded l r (set_loads (loading s) ls s))) as [I1 I2]; [cbn in *; lia|].
      split; [exact I1|]. intros _. destruct rs; [done|]. by apply I2. }
  split; [done|]. split; [|done].
  assert (reachable s') as Hr' by (unfold s'; clear -Hr; revert s Hr; induction rs; intros s Hr; [done|]; apply IHrs, reach_step, Hr).
  apply reachable_loader in Hr'. destruct (loading s') eqn:E; [|done]. specialize (Hr' E). rewrite Hp in Hr'. by apply Exists_nil in Hr'.
Qed.

(** ** Permissions *)

(** the sections and modules that are listed as permitted are permitted by the tests. *)
Theorem permitted_lists p s m :
  (s ∈ getAllowedSidebarSections p → isSidebarSectionAllowed p s = true) ∧
  (m ∈ getAllowedSidebarModules p s → isSidebarSectionAllowed p s = true ∧ isSidebarModuleAllowed p s m = true).
Proof.
  unfold getAllowedSidebarSections, getAllowedSidebarModules, isSidebarModuleAllowed.
  destruct (truthy (get_opt p (u "sidebar_modules"))) eqn:Em; cbn [negb].
  2:{ split; intros H; by apply not_elem_of_nil in H. }
  split; [intros H; by apply elem_of_filter_bool in H as [_ H]|]. unfold shown_modules, isSidebarSectionAllowed. rewrite Em. cbn [negb].
  destruct (truthy (get_opt (get_opt p (u "sidebar_modules")) s)) eqn:Es, (typeof_object _); cbn [negb orb];
    try (intros H; by apply not_elem_of_nil in H).
  intros H. apply elem_of_filter_bool in H as [_ H]. apply andb_true_iff in H as [_ H].
  assert (is_false (get_opt (get_opt p (u "sidebar_modules")) s) = false) as -> by (by destruct (get_opt _ s) as [| |[]| | | | |]).
  split; [done|]. cbn [andb]. by destruct (get_opt _ m) as [| |[]| | | | |].
Qed.

(** ** Examples *)

(** With nothing stored, the page of the administrator shows the chat section as switched on,
    while the sidebar has it switched off. *)
Example chat_section_differs :
  allowed initial_modules (u "chat") (u "enabled") = true ∧
  rmap (λ admin, allowed admin (u "chat") (u "enabled")) (adminConfig VUndef) = Ok false.
Proof. split; vm_compute; reflexivity. Qed.

(** The page knows nothing of three modules of the sidebar, and resetting it forgets a fourth,
    which the sidebar then shows by its own default. *)
Example unlisted_modules :
  map (λ sm, bool_decide (is_Some (module_in initial_modules (u sm.1) (u sm.2))))
    [("personal", "team"); ("admin", "finance"); ("admin", "ai-news"); ("admin", "login-log")]%string = [false; false; false; true] ∧
  module_in resetSidebarModules (u "admin") (u "login-log") = None ∧
  rmap (λ admin, allowed admin (u "admin") (u "login-log")) (adminConfig (onSubmit resetSidebarModules)) = Ok true.
Proof. repeat split; vm_compute; reflexivity. Qed.

(** A stored configuration that reads as [null] leaves the user without any module. *)
Example null_config_hides_all :
  rmap (λ admin, finalConfig admin (user_config admin (Ok (VStr (u "null"))))) (adminConfig VUndef) = Ok [].
Proof. vm_compute. reflexivity. Qed.

Definition sample_admin : obj := handleModuleChange (u "console") (u "task") false initial_modules.
Definition sample_user : val := VObj [(u "console", VObj [(u "log", VBool false)])].

Example sample_console :
  rmap (λ admin, getVisibleModules (finalConfig admin sample_user) (u "console")) (adminConfig (onSubmit sample_admin)) =
  Ok [u "detail"; u "token"; u "midjourney"].
Proof. vm_compute. reflexivity. Qed.

Lemma sample_sections : sections_ok initial_modules.
Proof.
  split; [by apply keys_okb_ok|].
  repeat (apply Forall_cons_2; [left; by apply section_ok|]). apply Forall_nil_2.
Qed.

Lemma sample_all : all_sections (merged_config VNull).
Proof. apply merged_all. Qed.

Lemma merge_exact_sample :
  ∃ admin, mergeAdminConfig (VObj initial_modules) = Ok admin ∧
    module_in admin (u "admin") (u "finance") =
    match module_in initial_modules (u "admin") (u "finance") with
    | Some v => Some v | None => module_in DEFAULT_ADMIN_CONFIG (u "admin") (u "finance") end.
Proof. apply merge_exact; [exact sample_sections|done]. Defined.

Lemma visible_exact_sample :
  isModuleVisible (finalConfig (merged_config VNull) sample_user) (u "console") (u "log") = false.
Proof. rewrite visible_exact by (exact sample_all || done). vm_compute. reflexivity. Defined.

Definition sample_hook : sidebar := step (Reply 0 (Ok sample_user)) (mount (onSubmit sample_admin)).
Lemma only_allowed_shown_witness :
  ∃ admin, admin_of sample_hook = Ok admin ∧ allowed admin (u "console") (u "enabled") = true ∧
    allowed admin (u "console") (u "detail") = true.
Proof. apply (only_allowed_shown sample_hook); [vm_compute; reflexivity|done..]. Defined.

Lemma default_shows_allowed_witness :
  isModuleVisible (finalConfig (merged_config VNull) (user_config (merged_config VNull) (Ok VNull))) (u "console") (u "log") = true.
Proof.
  rewrite (default_shows_allowed _ _ _ (Ok VNull)); [vm_compute; reflexivity|exact sample_all|done..|].
  right. left. by exists VNull.
Defined.

Lemma section_data b ms :
  keys_okb (u "enabled" :: map u ms) = true → Forall (λ m, units_ok (u m) = true) ms → json_data (section b ms).
Proof.
  intros H HF. destruct (section_ok b ms H) as (sec & Hs & Ho). rewrite Hs. unfold section in Hs. injection Hs as <-. apply jd_obj; [exact Ho|].
  apply Forall_cons_2; [split; [by apply units_ok_wf|apply jd_bool]|]. apply Forall_map_2. eapply list.Forall_impl; [exact HF|].
  intros m Hm. split; [by apply units_ok_wf|apply jd_bool].
Qed.

Lemma page_data b : json_data (VObj (page_defaults b)).
Proof.
  apply jd_obj; [by apply keys_okb_ok|].
  repeat (apply Forall_cons_2; [split; [by apply units_ok_wf|]; apply section_data; [by destruct b|]|]); [..|apply Forall_nil_2].
  all: try destruct b; cbn [app]; repeat (apply Forall_cons_2; [reflexivity|]); apply Forall_nil_2.
Qed.

Lemma switched_off_hidden_witness :
  visible {| option_text := onSubmit (handleSectionChange (u "console") false initial_modules); userConfig := sample_user;
             loading := false; hasLoadedOnce := true; pending := [] |} (u "console") (u "log") = false.
Proof.
  apply (switched_off_hidden initial_modules (u "console") (u "log") sample_user false true [] true);
    [apply page_data| |by apply units_ok_wf|by apply units_ok_wf|done..].
  apply all_sections_of. repeat (apply Forall_cons_2; [by apply section_ok|]). apply Forall_nil_2.
Defined.

Lemma loader_ends_witness :
  let s' := fold_left (λ s r, step (Reply 0 r) s) [Ok sample_user; Throw TypeError]
              (step RefreshUserConfig (mount (onSubmit sample_admin))) in
  pending s' = [] ∧ loading s' = false ∧ ([Ok sample_user; Throw TypeError] ≠ [] → hasLoadedOnce s' = true).
Proof.
  apply loader_ends; [apply reach_step, reach_mount|vm_compute; reflexivity].
Defined.
