(* ===== verification/CodeGenerator.v ===== *)
(** * Generated requests (pages/Tools/CurlGenerator.jsx)

    The form of a chat request, turned into a command for the shell and into programs in
    Python, JavaScript and Go.

    What the programs send is read back by the rules of the languages: [sh_words] splits a
    command into its words with the quoting of POSIX shells, [curl_reads], [node_reads] and
    [go_reads] read the whole programs, with the string literals of JavaScript and Go, as the
    HTTP request they make.  [shell_argument_reads_back]: a quoted argument is the text that
    was quoted.  [curl_words]: the words of the generated command, where the body is what the
    generator quoted -- once more than needed, so that an apostrophe is lost
    ([apostrophe_breaks_curl]).  [requests_agree]: the three programs make the same request,
    the command without apostrophes and the Go program without back quotes in the JSON.  [url_spellings]: the address does not depend on how
    the base was spelled. *)

From S2P Require Import Prelude JsString JsNumber JsValue Json VerifierUrl.

Local Open Scope Z_scope.

(** ** The form *)

Record message := { role : jstr; content : jstr }.
Record form := {
  baseUrl : jstr;
  apiKey : jstr;
  model : jstr;
  temperature : jstr;
  maxTokens : jstr;
  stream : bool;
  messages : list message;
}.
Definition form0 : form :=
  {| baseUrl := u "https://api.openai.com"; apiKey := []; model := u "gpt-4o"; temperature := u "0.7"; maxTokens := u "2048";
     stream := false;
     messages := [{| role := u "system"; content := u "You are a helpful assistant." |};
                  {| role := u "user"; content := u "Hello!" |}] |}.

Definition set_messages (l : list message) (f : form) : form :=
  {| baseUrl := baseUrl f; apiKey := apiKey f; model := model f; temperature := temperature f; maxTokens := maxTokens f;
     stream := stream f; messages := l |}.
Definition addMessage (f : form) : form := set_messages (messages f ++ [{| role := u "user"; content := [] |}]) f.
Definition removeMessage (i : nat) (f : form) : form := set_messages (delete i (messages f)) f.
(** [patch]: a new role, or a new content *)
Definition updateMessage (i : nat) (r c : option jstr) (f : form) : form :=
  set_messages (imap (λ j m, if bool_decide (j = i) then {| role := default (role m) r; content := default (content m) c |} else m)
                  (messages f)) f.

Abbreviation CHAT := (u "/v1/chat/completions").
Definition fullUrl (baseUrl : jstr) : jstr :=
  cut (lit_end (u "/v1")) (cut (lit_end CHAT) (trimmed_url baseUrl)) ++ CHAT.

Definition str_or (s d : jstr) : jstr := if nonempty s then s else d.
Definition message_val (m : message) : val := VObj [(u "role", VStr (role m)); (u "content", VStr (content m))].
Definition body (f : form) : obj :=
  let temp := parseFloat (temperature f) in
  let max := parseInt (maxTokens f) in
  [(u "model", VStr (str_or (model f) (u "gpt-4o"))); (u "messages", VArr (map message_val (messages f)))] ++
  (if negb (isNaN temp) then [(u "temperature", VNum temp)] else []) ++
  (if negb (isNaN max) && nltb nzero max then [(u "max_tokens", VNum max)] else []) ++
  (if stream f then [(u "stream", VBool true)] else []).
Definition bodyJson (f : form) : jstr := stringify2_text (VObj (body f)).

(** ** Escapes *)

(** [s.replace(/'/g, "'\\''")] *)
Fixpoint escape_quotes (s : jstr) : jstr :=
  match s with [] => [] | c :: s => (if c =? 39 then [39; 92; 39; 39] else [c]) ++ escape_quotes s end.
Definition escapeShellArg (s : jstr) : jstr := 39 :: escape_quotes s ++ [39].
Definition escapeJsString (s : jstr) : jstr := quote s.
Definition escapePyString (s : jstr) : jstr := quote s.
(** [escGo] *)
Fixpoint escape_go (s : jstr) : jstr :=
  match s with [] => [] | c :: s => (if c =? 92 then [92; 92] else if c =? 34 then [92; 34] else [c]) ++ escape_go s end.
Definition escGo (s : jstr) : jstr := 34 :: escape_go s ++ [34].
(** [s.replace(/`/g, '\\`')] *)
Fixpoint escape_back (s : jstr) : jstr :=
  match s with [] => [] | c :: s => (if c =? 96 then [92; 96] else [c]) ++ escape_back s end.

(** [s.replace(/lit(e)/g, 'new$1')] where [e] matches one of the characters [p] or, when [at_end],
    the end of the text *)
Fixpoint replace_word (fuel : nat) (lit new : jstr) (p : Z → bool) (at_end : bool) (s : jstr) : jstr :=
  match fuel with
  | O => s
  | S fuel =>
    let go := replace_word fuel lit new p at_end in
    if starts_with lit s then
      match drop (length lit) s with
      | [] => if at_end then new else match s with [] => [] | c :: r => c :: go r end
      | d :: r => if p d then new ++ d :: go r else match s with [] => [] | c :: r => c :: go r end
      end
    else match s with [] => [] | c :: r => c :: go r end
  end.
Definition word_end (c : Z) : bool := (c =? 44) || is_ws c.
Definition item_end (c : Z) : bool := (c =? 44) || (c =? 93).
Definition jsonToPy (s : jstr) : jstr :=
  let go lit new p e s := replace_word (S (length s)) (u lit) (u new) p e s in
  go "[false"%string "[False"%string item_end false
    (go "[true"%string "[True"%string item_end false
      (go ": null"%string ": None"%string word_end true
        (go ": false"%string ": False"%string word_end true
          (go ": true"%string ": True"%string word_end true s)))).

(** ** The generators *)

Definition nl : jstr := [10].
Definition key_or (apiKey : jstr) : jstr := str_or apiKey (u "YOUR_API_KEY").
Definition more : jstr := [32; 92; 10; 32; 32].        (* a line goes on *)
Definition dq (s : jstr) : jstr := 34 :: s ++ [34].
Definition bearer (apiKey : jstr) : jstr := u "Bearer " ++ key_or apiKey.

Definition curl (f : form) : jstr :=
  u "curl " ++ fullUrl (baseUrl f) ++ more ++
  u "-H " ++ dq (u "Content-Type: application/json") ++ more ++
  u "-H " ++ dq (u "Authorization: " ++ bearer (apiKey f)) ++ more ++
  u "-d " ++ escapeShellArg (escape_quotes (bodyJson f)).

Definition lines (l : list jstr) : jstr := join nl l.
Definition indent4 : jstr := [32; 32; 32; 32].

Definition python (f : form) : jstr :=
  lines [u "import requests"; [];
         u "url = " ++ escapePyString (fullUrl (baseUrl f));
         u "headers = {";
         uq "    'Content-Type': 'application/json',";
         uq "    'Authorization': " ++ escapePyString (bearer (apiKey f)) ++ u ",";
         u "}";
         u "payload = " ++ jsonToPy (default [] (ser indent4 [] (VObj (body f)))); [];
         u "response = requests.post(url, headers=headers, json=payload)";
         u "print(response.json())"].

Definition node (f : form) : jstr :=
  lines [u "const response = await fetch(" ++ escapeJsString (fullUrl (baseUrl f)) ++ u ", {";
         u "  method: 'POST',";
         u "  headers: {";
         u "    'Content-Type': 'application/json',";
         u "    'Authorization': " ++ escapeJsString (bearer (apiKey f)) ++ u ",";
         u "  },";
         u "  body: JSON.stringify(" ++ bodyJson f ++ u "),";
         u "});"; [];
         u "const data = await response.json();";
         u "console.log(data);"].

Definition go_body (f : form) : jstr := escape_back (stringify_text (VObj (body f))).
Definition go (f : form) : jstr :=
  lines [u "package main"; [];
         u "import (";
         uq "    'bytes'"; uq "    'encoding/json'"; uq "    'fmt'"; uq "    'io'"; uq "    'net/http'";
         u ")"; [];
         u "func main() {";
         u "    body := []byte(" ++ [96] ++ go_body f ++ [96] ++ u ")"; [];
         uq "    req, _ := http.NewRequest('POST', " ++ escGo (fullUrl (baseUrl f)) ++ u ", bytes.NewBuffer(body))";
         uq "    req.Header.Set('Content-Type', 'application/json')";
         uq "    req.Header.Set('Authorization', 'Bearer " ++ key_or (apiKey f) ++ uq "')"; [];
         u "    client := &http.Client{}";
         u "    resp, err := client.Do(req)";
         u "    if err != nil {"; u "        panic(err)"; u "    }";
         u "    defer resp.Body.Close()"; [];
         u "    respBody, _ := io.ReadAll(resp.Body)";
         u "    fmt.Println(string(respBody))"; [];
         u "    _ = json.Unmarshal(respBody, &map[string]any{})";
         u "}"].

Inductive language := Curl | Python | Node | Go.
Definition generated (lang : language) (f : form) : jstr :=
  match lang with Curl => curl f | Python => python f | Node => node f | Go => go f end.

(** ** Reading the programs *)

(** *** Words of a shell command *)

Inductive quoting := Out | Plain | Single | Double.

(** Characters that mean something to the shell outside quotes *)
Definition special (c : Z) : bool :=
  bool_decide (c ∈ [36; 96; 34; 39; 92; 38; 124; 59; 60; 62; 40; 41; 42; 63; 91; 35; 126; 33; 123; 125; 10]).
Definition blank (c : Z) : bool := (c =? 32) || (c =? 9).
(** Characters that mean something within double quotes *)
Definition special_dq (c : Z) : bool := bool_decide (c ∈ [36; 96; 34; 92]).

(** The words of one command; [None] where quotes are left open or where the shell would expand
    something or see a second command.  [w] is the word that is being read. *)
Fixpoint sh_read (m : quoting) (w s : jstr) : option (list jstr) :=
  match s with
  | [] => match m with Out => Some [] | Plain => Some [w] | _ => None end
  | c :: s =>
    match m with
    | Single => if c =? 39 then sh_read Plain w s else sh_read Single (w ++ [c]) s
    | Double =>
      if c =? 34 then sh_read Plain w s
      else if c =? 92 then
        match s with
        | [] => None
        | d :: s => if d =? 10 then sh_read Double w s
                    else sh_read Double (if special_dq d then w ++ [d] else w ++ [92; d]) s
        end
      else if special_dq c then None else sh_read Double (w ++ [c]) s
    | Out | Plain =>
      if blank c then match m with Plain => option_map (cons w) (sh_read Out [] s) | _ => sh_read Out [] s end
      else if c =? 39 then sh_read Single w s
      else if c =? 34 then sh_read Double w s
      else if c =? 92 then
        match s with
        | [] => None
        | d :: s => if d =? 10 then sh_read m w s else sh_read Plain (w ++ [d]) s
        end
      else if special c then None else sh_read Plain (w ++ [c]) s
    end
  end.
Definition sh_words (s : jstr) : option (list jstr) := sh_read Out [] s.

(** *** Requests *)

(** What the server receives; the body is the value it reads from the JSON. *)
Record http := { h_method : jstr; h_url : jstr; h_headers : list (jstr * jstr); h_body : val }.

(** The text up to a character, and what follows it *)
Fixpoint until (q : Z) (s : jstr) : option (jstr * jstr) :=
  match s with
  | [] => None
  | c :: s => if c =? q then Some ([], s) else option_map (λ r, (c :: r.1, r.2)) (until q s)
  end.
Definition strip (p s : jstr) : option jstr := if starts_with p s then Some (drop (length p) s) else None.
Definition parsed (text : jstr) : option val := match JSON_parse text with Ok v => Some v | Throw _ => None end.

(** *** The command: options of curl *)

Definition header_of (h : jstr) : option (jstr * jstr) :=
  option_map (λ i, (take i h, drop (i + 2) h)) (index_of (u ": ") h).

(** [-H] adds a header, [-d] sends data with the method POST, other options are not known, and
    what is no option is the address. *)
Fixpoint curl_args (args : list jstr) (url : option jstr) (hs : list (jstr * jstr)) (data : option jstr)
    : option (jstr * list (jstr * jstr) * jstr) :=
  match args with
  | [] => match url, data with Some url, Some d => Some (url, hs, d) | _, _ => None end
  | a :: args =>
    if a =s u "-H" then
      match args with
      | h :: args => match header_of h with Some h => curl_args args url (hs ++ [h]) data | None => None end
      | [] => None
      end
    else if a =s u "-d" then
      match args, data with d :: args, None => curl_args args url hs (Some d) | _, _ => None end
    else if starts_with [45] a then None
    else match url with None => curl_args args (Some a) hs data | Some _ => None end
  end.
Definition curl_reads (s : jstr) : option http :=
  match sh_words s with
  | Some (w :: args) =>
    if w =s u "curl" then
      match curl_args args None [] None with
      | Some (url, hs, data) =>
        option_map (λ v, {| h_method := u "POST"; h_url := url; h_headers := hs; h_body := v |}) (parsed data)
      | None => None
      end
    else None
  | _ => None
  end.

(** *** The JavaScript program: one call of [fetch] *)

(** A literal in double quotes, or one in apostrophes without escapes *)
Definition js_string (s : jstr) : option (jstr * jstr) :=
  match s with
  | 34 :: s => match parse_string s with POk t r => Some (t, r) | _ => None end
  | 39 :: s => match until 39 s with
               | Some (t, r) => if forallb (λ c, negb (c =? 92) && negb (c =? 10)) t then Some (t, r) else None
               | None => None
               end
  | _ => None
  end.
(** An expression of literals, as JSON writes it *)
Definition js_value (s : jstr) : option (val * jstr) :=
  match parse_value (parse_fuel s) s with POk v r => Some (v, r) | _ => None end.

(** Lines ['name': literal,] up to the end of the object; [n] bounds their number. *)
Fixpoint js_headers (n : nat) (s : jstr) : option (list (jstr * jstr) * jstr) :=
  match n with
  | O => None
  | S n =>
    match strip (u "  }," ++ [10]) s with
    | Some r => Some ([], r)
    | None =>
      r ← strip (u "    ") s; '(k, r) ← js_string r; r ← strip (u ": ") r; '(v, r) ← js_string r;
      r ← strip (u "," ++ [10]) r; '(hs, r) ← js_headers n r; Some ((k, v) :: hs, r)
    end
  end.
(** What follows the call only reads the reply. *)
Definition node_reads (s : jstr) : option http :=
  r ← strip (u "const response = await fetch(") s; '(url, r) ← js_string r;
  r ← strip (u ", {" ++ [10] ++ u "  method: ") r; '(m, r) ← js_string r;
  r ← strip (u "," ++ [10] ++ u "  headers: {" ++ [10]) r; '(hs, r) ← js_headers 8 r;
  r ← strip (u "  body: JSON.stringify(") r; '(v, r) ← js_value r;
  _ ← strip (u ")," ++ [10] ++ u "});" ++ [10]) r; v ← parsed (stringify_text v);
  Some {| h_method := m; h_url := url; h_headers := hs; h_body := v |}.

(** *** The Go program *)

(** A raw string after its opening back quote: its value and what follows.  (Go drops carriage
    returns from raw strings; JSON escapes them, so that there are none.) *)
Definition go_raw (s : jstr) : option (jstr * jstr) := until 96 s.

(** An interpreted string after its opening quote, with the two escapes the generator writes *)
Fixpoint go_chars (s : jstr) : option (jstr * jstr) :=
  match s with
  | [] => None
  | c :: s =>
    if c =? 34 then Some ([], s)
    else if c =? 10 then None
    else if c =? 92 then
      match s with
      | d :: s => if (d =? 92) || (d =? 34) then option_map (λ r, (d :: r.1, r.2)) (go_chars s) else None
      | [] => None
      end
    else option_map (λ r, (c :: r.1, r.2)) (go_chars s)
  end.
Definition go_string (s : jstr) : option (jstr * jstr) := match s with 34 :: s => go_chars s | _ => None end.

(** Calls of [Header.Set] up to an empty line *)
Fixpoint go_headers (n : nat) (s : jstr) : option (list (jstr * jstr) * jstr) :=
  match n with
  | O => None
  | S n =>
    match strip [10] s with
    | Some r => Some ([], r)
    | None =>
      r ← strip (u "    req.Header.Set(") s; '(k, r) ← go_string r; r ← strip (u ", ") r; '(v, r) ← go_string r;
      r ← strip (u ")" ++ [10]) r; '(hs, r) ← go_headers n r; Some ((k, v) :: hs, r)
    end
  end.
Definition go_prelude : jstr :=
  lines [u "package main"; [];
         u "import (";
         uq "    'bytes'"; uq "    'encoding/json'"; uq "    'fmt'"; uq "    'io'"; uq "    'net/http'";
         u ")"; [];
         u "func main() {";
         u "    body := []byte("].
Definition go_send : jstr :=
  lines [u "    client := &http.Client{}"; u "    resp, err := client.Do(req)"; []].
Definition go_reads (s : jstr) : option http :=
  r ← strip (go_prelude ++ [96]) s; '(text, r) ← go_raw r;
  r ← strip (u ")" ++ [10; 10] ++ u "    req, _ := http.NewRequest(") r; '(m, r) ← go_string r;
  r ← strip (u ", ") r; '(url, r) ← go_string r; r ← strip (u ", bytes.NewBuffer(body))" ++ [10]) r;
  '(hs, r) ← go_headers 8 r; _ ← strip go_send r; v ← parsed text;
  Some {| h_method := m; h_url := url; h_headers := hs; h_body := v |}.

(** ** Words *)

Definition plain (c : Z) : Prop := blank c = false ∧ special c = false.
Definition plain_dq (c : Z) : Prop := special_dq c = false.

Lemma plain_facts c : plain c → blank c = false ∧ (c =? 39) = false ∧ (c =? 34) = false ∧ (c =? 92) = false ∧ special c = false.
Proof.
  intros [Hb Hs]. pose proof Hs as Hs'. unfold special in Hs'. apply bool_decide_eq_false_1 in Hs'. rewrite !Z.eqb_neq.
  split_and!; try done; intros ->; apply Hs'; apply (bool_decide_eq_true_1 _); reflexivity.
Qed.
Lemma plain_dq_facts c : plain_dq c → (c =? 34) = false ∧ (c =? 92) = false.
Proof.
  intros Hs. unfold plain_dq, special_dq in Hs. apply bool_decide_eq_false_1 in Hs. rewrite !Z.eqb_neq.
  split; intros ->; apply Hs; apply (bool_decide_eq_true_1 _); reflexivity.
Qed.

Lemma sh_more_plain t w r : Forall plain t → sh_read Plain w (t ++ r) = sh_read Plain (w ++ t) r.
Proof.
  intros HF. revert w. induction HF as [|c t Hc HF IH]; intros w; cbn [app]; [by rewrite app_nil_r|].
  destruct (plain_facts c Hc) as (H1 & H2 & H3 & H4 & H5). cbn [sh_read]. rewrite H1, H2, H3, H4, H5, IH.
  by rewrite <- app_assoc.
Qed.
Lemma sh_plain t r : Forall plain t → t ≠ [] → sh_read Out [] (t ++ r) = sh_read Plain t r.
Proof.
  intros HF Hne. destruct HF as [|c t Hc HF]; [done|]. cbn [app].
  destruct (plain_facts c Hc) as (H1 & H2 & H3 & H4 & H5). cbn [sh_read]. rewrite H1, H2, H3, H4, H5.
  by rewrite sh_more_plain.
Qed.
Lemma sh_blank w r : sh_read Plain w (32 :: r) = option_map (cons w) (sh_read Out [] r).
Proof. reflexivity. Qed.
Lemma sh_line w r : sh_read Plain w (more ++ r) = option_map (cons w) (sh_read Out [] r).
Proof. reflexivity. Qed.

Lemma sh_double w t r : Forall plain_dq t → sh_read Double w (t ++ 34 :: r) = sh_read Plain (w ++ t) r.
Proof.
  intros HF. revert w. induction HF as [|c t Hc HF IH]; intros w; cbn [app sh_read]; [by rewrite app_nil_r|].
  destruct (plain_dq_facts c Hc) as [H1 H2]. rewrite H1, H2, Hc, IH. by rewrite <- app_assoc.
Qed.
Lemma sh_dq t r : Forall plain_dq t → sh_read Out [] (dq t ++ r) = sh_read Plain t r.
Proof. intros HF. unfold dq. cbn [app]. rewrite <- app_assoc. cbn [app]. exact (sh_double [] t r HF). Qed.

(** Quoting an apostrophe leaves the quotes, adds it and enters them again. *)
Lemma sh_single w t r : sh_read Single w (escape_quotes t ++ 39 :: r) = sh_read Plain (w ++ t) r.
Proof.
  revert w. induction t as [|c t IH]; intros w; cbn [escape_quotes app]; [cbn; by rewrite app_nil_r|].
  destruct (Z.eqb_spec c 39) as [->|Hc].
  - cbn [app]. change (sh_read Single (w ++ [39]) (escape_quotes t ++ 39 :: r) = sh_read Plain (w ++ 39 :: t) r).
    rewrite IH. by rewrite <- app_assoc.
  - cbn [app sh_read]. apply Z.eqb_neq in Hc. rewrite Hc, IH. by rewrite <- app_assoc.
Qed.
Lemma sh_quoted t r : sh_read Out [] (escapeShellArg t ++ r) = sh_read Plain t r.
Proof. unfold escapeShellArg. cbn [app]. rewrite <- app_assoc. cbn [app]. exact (sh_single [] t r). Qed.

(** the shell reads a quoted argument as the one word that was quoted, whatever characters it
    has. *)
Theorem shell_argument_reads_back s : sh_words (escapeShellArg s) = Some [s].
Proof. unfold sh_words. rewrite <- (app_nil_r (escapeShellArg s)), sh_quoted. reflexivity. Qed.

Lemma plain_ok t : forallb (λ c, negb (blank c) && negb (special c)) t = true → Forall plain t.
Proof.
  rewrite forallb_forall, list.Forall_forall. intros H c Hc. apply list_elem_of_In, H in Hc.
  apply andb_true_iff in Hc as [H1 H2]. split; by apply negb_true_iff.
Qed.
Lemma plain_dq_ok t : forallb (λ c, negb (special_dq c)) t = true → Forall plain_dq t.
Proof.
  rewrite forallb_forall, list.Forall_forall. intros H c Hc. apply list_elem_of_In, H in Hc. by apply negb_true_iff.
Qed.
Ltac plain_text := first [apply plain_ok|apply plain_dq_ok]; vm_compute; reflexivity.
#[local] Hint Extern 1 (Forall plain (u _)) => plain_text : core.
#[local] Hint Extern 1 (Forall plain_dq (u _)) => plain_text : core.


Lemma curl_read f :
  Forall plain (fullUrl (baseUrl f)) → Forall plain_dq (key_or (apiKey f)) →
  sh_words (curl f) =
  Some [u "curl"; fullUrl (baseUrl f); u "-H"; u "Content-Type: application/json"; u "-H";
        u "Authorization: " ++ bearer (apiKey f); u "-d"; escape_quotes (bodyJson f)].
Proof.
  intros Hu Hk. unfold sh_words, curl.
  change (u "curl ") with (u "curl" ++ [32]). change (u "-H ") with (u "-H" ++ [32]). change (u "-d ") with (u "-d" ++ [32]).
  rewrite <- !app_assoc. cbn [app]. rewrite sh_plain by (auto || done). rewrite sh_blank.
  rewrite sh_plain; [|done|unfold fullUrl; by destruct (cut _ _)]. rewrite sh_line.
  rewrite sh_plain by (auto || done). rewrite sh_blank, sh_dq by auto. rewrite sh_line.
  rewrite sh_plain by (auto || done). rewrite sh_blank, sh_dq.
  2:{ apply Forall_app. split; [auto|]. unfold bearer. apply Forall_app. auto. }
  rewrite sh_line. rewrite sh_plain by (auto || done). rewrite sh_blank.
  rewrite <- (app_nil_r (escapeShellArg _)), sh_quoted. reflexivity.
Qed.

Lemma escape_quotes_id s : escape_quotes s = s ↔ 39 ∉ s.
Proof.
  split.
  - intros H Hin. assert (∀ t, (length t ≤ length (escape_quotes t))%nat) as Hle.
    { induction t as [|c t IH]; cbn [escape_quotes]; [done|]. destruct (c =? 39); cbn [app length]; lia. }
    assert (length s < length (escape_quotes s))%nat as Hlt; [|rewrite H in Hlt; lia]. clear H.
    induction s as [|c s IH]; [by apply not_elem_of_nil in Hin|]. cbn [escape_quotes].
    destruct (Z.eqb_spec c 39) as [Hc|Hc]; cbn [app length]; [pose proof (Hle s); lia|].
    apply elem_of_cons in Hin as [Hin|Hin]; [by subst|]. specialize (IH Hin). lia.
  - induction s as [|c s IH]; intros Hin; [done|]. cbn [escape_quotes]. apply not_elem_of_cons in Hin as [Hc Hin].
    destruct (Z.eqb_spec c 39); [by subst|]. cbn [app]. by rewrite IH.
Qed.

Lemma escape_back_id s : 96 ∉ s → escape_back s = s.
Proof.
  induction s as [|c s IH]; intros Hin; [done|]. cbn [escape_back]. apply not_elem_of_cons in Hin as [Hc Hin].
  destruct (Z.eqb_spec c 96); [by subst|]. cbn [app]. by rewrite IH.
Qed.
Lemma until_text q s r : q ∉ s → until q (s ++ q :: r) = Some (s, r).
Proof.
  induction s as [|c s IH]; intros Hin; cbn [app until]; [by rewrite Z.eqb_refl|].
  apply not_elem_of_cons in Hin as [Hc Hin]. destruct (Z.eqb_spec c q); [by subst|]. by rewrite IH.
Qed.

(** the generated command has eight words: the address, the two headers and the data.  The
    data is the JSON of the request exactly when that has no apostrophe; every apostrophe
    reaches the server as the four characters that were to quote it. *)
Theorem curl_words f :
  Forall plain (fullUrl (baseUrl f)) → Forall plain_dq (key_or (apiKey f)) →
  ∃ data, sh_words (curl f) =
    Some [u "curl"; fullUrl (baseUrl f); u "-H"; u "Content-Type: application/json"; u "-H";
          u "Authorization: " ++ bearer (apiKey f); u "-d"; data] ∧
    data = escape_quotes (bodyJson f) ∧ (data = bodyJson f ↔ 39 ∉ bodyJson f).
Proof.
  intros Hu Hk. exists (escape_quotes (bodyJson f)). split; [by apply curl_read|]. split; [done|]. apply escape_quotes_id.
Qed.

(** ** What is sent *)


Definition texts_wf (f : form) : Prop :=
  jstr_wf (model f) ∧ Forall (λ m, jstr_wf (role m) ∧ jstr_wf (content m)) (messages f).

Lemma body_wf f : texts_wf f → val_wf (VObj (body f)).
Proof.
  intros [Hm HF]. unfold body. set (t := parseFloat (temperature f)). set (x := parseInt (maxTokens f)).
  pose proof (parseFloat_wf (temperature f)) as Ht. fold t in Ht. pose proof (parseInt_wf (maxTokens f)) as Hx. fold x in Hx.
  apply wf_obj.
  - apply keys_okb_ok. by destruct (negb (isNaN t)), (negb (isNaN x) && nltb nzero x), (stream f).
  - repeat rewrite list.Forall_app. split_and!.
    + repeat (apply Forall_cons_2; [split; [by apply units_ok_wf|]|]); [| |apply Forall_nil_2].
      * apply wf_str. unfold str_or. destruct (nonempty _); [done|by apply units_ok_wf].
      * apply wf_arr. apply Forall_map_2. eapply list.Forall_impl; [exact HF|]. intros m [Hr Hc].
        apply wf_obj; [by apply keys_okb_ok|].
        repeat (apply Forall_cons_2; [split; [by apply units_ok_wf|by apply wf_str]|]). apply Forall_nil_2.
    + destruct (negb _); [|apply Forall_nil_2]. apply Forall_cons_2; [|apply Forall_nil_2]. split; [by apply units_ok_wf|by apply wf_num].
    + destruct (_ && _); [|apply Forall_nil_2]. apply Forall_cons_2; [|apply Forall_nil_2]. split; [by apply units_ok_wf|by apply wf_num].
    + destruct (stream f); [|apply Forall_nil_2]. apply Forall_cons_2; [|apply Forall_nil_2]. split; [by apply units_ok_wf|apply wf_bool].
Qed.

(** The request that reaches the server *)
Definition sent (f : form) : val := json_norm (VObj (body f)).

Lemma body_parses gap f : all_ws gap → texts_wf f → JSON_parse (default [] (ser gap [] (VObj (body f)))) = Ok (sent f).
Proof.
  intros Hg Hw. rewrite ser_serializable by done. eapply (JSON_parse_ser gap); [done|by apply body_wf|].
  by apply ser_serializable.
Qed.

(** *** Reading the generated programs *)

Lemma strip_app p r : strip p (p ++ r) = Some r.
Proof.
  unfold strip. assert (starts_with p (p ++ r) = true) as ->.
  { induction p as [|c p IH]; [done|]. cbn [app starts_with]. by rewrite Z.eqb_refl. }
  by rewrite drop_app_length.
Qed.

Lemma js_string_quote s r : jstr_wf s → js_string (quote s ++ r) = Some (s, r).
Proof.
  intros Hs. unfold quote. cbn [app js_string]. rewrite <- app_assoc. cbn [app]. by rewrite parse_quote.
Qed.

Definition sq (s : jstr) : jstr := 39 :: s ++ [39].
Lemma js_string_sq s r :
  39 ∉ s → forallb (λ c, negb (c =? 92) && negb (c =? 10)) s = true → js_string (sq s ++ r) = Some (s, r).
Proof.
  intros Hs Hf. unfold sq. cbn [app js_string]. rewrite <- app_assoc. cbn [app]. by rewrite until_text, Hf.
Qed.

Lemma js_value_ser v r : val_wf v → num_end r → js_value (ser_text indent2 [] v ++ r) = Some (json_norm v, r).
Proof.
  intros Hv Hr. destruct (reads_ser v indent2 [] indent2_ws (Forall_nil_2 _) Hv) as [Hreads _].
  destruct (Hreads r Hr) as [f Hf]. unfold js_value. set (s := ser_text indent2 [] v ++ r) in *.
  assert (parse_value (parse_fuel s) s = POk (json_norm v) r) as ->; [|done].
  destruct (Nat.le_ge_cases f (parse_fuel s)) as [Hle|Hle]; [by eapply parse_value_grow|].
  rewrite <- (parse_value_mono _ _ _ Hle (parse_value_fuel s)). done.
Qed.

Lemma go_chars_esc s r : 10 ∉ s → go_chars (escape_go s ++ 34 :: r) = Some (s, r).
Proof.
  induction s as [|c s IH]; intros Hin; [done|]. apply not_elem_of_cons in Hin as [Hc Hin]. cbn [escape_go].
  destruct (Z.eqb_spec c 92) as [->|H92]; [cbn [app go_chars]; cbn; by rewrite IH|].
  destruct (Z.eqb_spec c 34) as [->|H34]; [cbn [app go_chars]; cbn; by rewrite IH|].
  cbn [app go_chars]. destruct (Z.eqb_spec c 34); [done|]. destruct (Z.eqb_spec c 10); [by subst|].
  destruct (Z.eqb_spec c 92); [done|]. by rewrite IH.
Qed.
Lemma go_string_esc s r : 10 ∉ s → go_string (escGo s ++ r) = Some (s, r).
Proof. intros Hs. unfold escGo. cbn [app go_string]. rewrite <- app_assoc. by apply go_chars_esc. Qed.

Lemma escape_go_id s : Forall (λ c, c ∉ [34; 92; 10]) s → escape_go s = s ∧ 10 ∉ s.
Proof.
  induction 1 as [|c s Hc HF [IH1 IH2]]; [by split; [|apply not_elem_of_nil]|]. cbn [escape_go].
  rewrite !not_elem_of_cons in Hc. destruct Hc as (H1 & H2 & H3 & _).
  destruct (Z.eqb_spec c 92); [done|]. destruct (Z.eqb_spec c 34); [done|]. cbn [app]. rewrite IH1.
  split; [done|]. apply not_elem_of_cons. by split.
Qed.
Lemma go_string_plain s r : Forall (λ c, c ∉ [34; 92; 10]) s → go_string (dq s ++ r) = Some (s, r).
Proof. intros [He Hn]%escape_go_id. pose proof (go_string_esc s r Hn) as Hs. unfold escGo in Hs. by rewrite He in Hs. Qed.

(** The request the form stands for *)
Definition bearer_of (key : jstr) : jstr := u "Bearer " ++ (if nonempty key then key else u "YOUR_API_KEY").
Definition the_request (f : form) : http :=
  {| h_method := u "POST"; h_url := fullUrl (baseUrl f);
     h_headers := [(u "Content-Type", u "application/json"); (u "Authorization", bearer_of (apiKey f))];
     h_body := sent f |}.

Lemma sent_again f : texts_wf f → parsed (stringify_text (sent f)) = Some (sent f).
Proof.
  intros Hw. unfold parsed, stringify_text, stringify, sent.
  rewrite ser_serializable, ser_text_norm by apply json_norm_kept. cbn [default from_option Datatypes.id].
  pose proof (body_parses [] f (Forall_nil_2 _) Hw) as Hp. rewrite ser_serializable in Hp by done.
  cbn [default from_option Datatypes.id] in Hp. by rewrite Hp.
Qed.

Lemma bearer_wf key : jstr_wf key → jstr_wf (bearer_of key).
Proof.
  intros Hk. apply jstr_wf_app. split; [by apply units_ok_wf|]. destruct (nonempty key); [done|by apply units_ok_wf].
Qed.

Lemma node_text f :
  node f = u "const response = await fetch(" ++ quote (fullUrl (baseUrl f)) ++ (u ", {" ++ [10] ++ u "  method: ") ++
    sq (u "POST") ++ (u "," ++ [10] ++ u "  headers: {" ++ [10]) ++
    u "    " ++ sq (u "Content-Type") ++ u ": " ++ sq (u "application/json") ++ (u "," ++ [10]) ++
    u "    " ++ sq (u "Authorization") ++ u ": " ++ quote (bearer_of (apiKey f)) ++ (u "," ++ [10]) ++
    (u "  }," ++ [10]) ++ u "  body: JSON.stringify(" ++ bodyJson f ++ (u ")," ++ [10] ++ u "});" ++ [10]) ++
    ([10] ++ u "const data = await response.json();" ++ [10] ++ u "console.log(data);").
Proof.
  unfold node, lines, escapeJsString, bearer, key_or, str_or, bearer_of. cbn [join]. rewrite <- !app_assoc.
  generalize (bodyJson f) (fullUrl (baseUrl f)). intros b url. reflexivity.
Qed.

Lemma js_headers_next n k v lit r :
  (∀ r, js_string (sq k ++ r) = Some (k, r)) → (∀ r, js_string (lit ++ r) = Some (v, r)) →
  js_headers (S n) (u "    " ++ sq k ++ u ": " ++ lit ++ (u "," ++ [10]) ++ r) =
  option_map (λ p, ((k, v) :: p.1, p.2)) (js_headers n r).
Proof.
  intros Hk Hv. cbn [js_headers].
  assert (∀ t, strip (u "  }," ++ [10]) (u "    " ++ t) = None) as -> by (intros; reflexivity).
  rewrite strip_app. cbn [mbind option_bind]. rewrite Hk. cbn [mbind option_bind]. rewrite strip_app.
  cbn [mbind option_bind]. rewrite Hv. cbn [mbind option_bind]. rewrite strip_app. cbn [mbind option_bind].
  by destruct (js_headers n r) as [[hs t]|].
Qed.
Lemma js_headers_end n r : js_headers (S n) ((u "  }," ++ [10]) ++ r) = Some ([], r).
Proof. cbn [js_headers]. by rewrite strip_app. Qed.

Lemma absent (c : Z) (s : jstr) : forallb (λ x, negb (x =? c)) s = true → c ∉ s.
Proof.
  rewrite forallb_forall. intros H Hin. apply list_elem_of_In, H in Hin. by rewrite Z.eqb_refl in Hin.
Qed.
Lemma sq_literal s r :
  forallb (λ c, negb (c =? 39)) s && forallb (λ c, negb (c =? 92) && negb (c =? 10)) s = true →
  js_string (sq s ++ r) = Some (s, r).
Proof. intros [H1 H2]%andb_true_iff. apply js_string_sq; [by apply absent|done]. Qed.

Lemma node_read f :
  texts_wf f → jstr_wf (fullUrl (baseUrl f)) → jstr_wf (apiKey f) → node_reads (node f) = Some (the_request f).
Proof.
  intros Hw Hu Hk. rewrite node_text. unfold node_reads. rewrite strip_app. cbn [mbind option_bind].
  rewrite js_string_quote by done. cbn [mbind option_bind]. rewrite strip_app. cbn [mbind option_bind].
  rewrite sq_literal by reflexivity. cbn [mbind option_bind]. rewrite strip_app. cbn [mbind option_bind].
  rewrite (js_headers_next _ (u "Content-Type") (u "application/json"))
    by (intros; apply sq_literal; reflexivity).
  rewrite (js_headers_next _ (u "Authorization") (bearer_of (apiKey f)))
    by (intros; (apply sq_literal; reflexivity) || apply js_string_quote, bearer_wf, Hk).
  rewrite js_headers_end. cbn [option_map mbind option_bind fst snd]. rewrite strip_app. cbn [mbind option_bind].
  assert (bodyJson f = ser_text indent2 [] (VObj (body f))) as ->.
  { unfold bodyJson, stringify2_text, stringify2. by rewrite ser_serializable. }
  rewrite js_value_ser; [|by apply body_wf|by intros c t [= <- _]].
  cbn [mbind option_bind]. rewrite strip_app. cbn [mbind option_bind].
  change (json_norm (VObj (body f))) with (sent f). rewrite sent_again by done. reflexivity.
Qed.

Lemma go_text f :
  go f = (go_prelude ++ [96]) ++ go_body f ++ 96 :: (u ")" ++ [10; 10] ++ u "    req, _ := http.NewRequest(") ++
    dq (u "POST") ++ u ", " ++ escGo (fullUrl (baseUrl f)) ++ (u ", bytes.NewBuffer(body))" ++ [10]) ++
    u "    req.Header.Set(" ++ dq (u "Content-Type") ++ u ", " ++ dq (u "application/json") ++ (u ")" ++ [10]) ++
    u "    req.Header.Set(" ++ dq (u "Authorization") ++ u ", " ++ dq (bearer_of (apiKey f)) ++ (u ")" ++ [10]) ++
    [10] ++ go_send ++
    lines [u "    if err != nil {"; u "        panic(err)"; u "    }";
           u "    defer resp.Body.Close()"; [];
           u "    respBody, _ := io.ReadAll(resp.Body)";
           u "    fmt.Println(string(respBody))"; [];
           u "    _ = json.Unmarshal(respBody, &map[string]any{})";
           u "}"].
Proof.
  unfold go, go_prelude, go_send, lines, key_or, str_or, bearer_of, escGo, dq. cbn [join].
  generalize (go_body f) (fullUrl (baseUrl f)) (if nonempty (apiKey f) then apiKey f else u "YOUR_API_KEY").
  intros b url key. assert (Hcons : ∀ (c : Z) x, c :: x = [c] ++ x) by done.
  rewrite (Hcons 34 (escape_go url ++ _)), (Hcons 34 ((u "Bearer " ++ key) ++ _)), (Hcons 96), <- !app_assoc.
  generalize (escape_go url). intros url'. vm_compute. reflexivity.
Qed.

Lemma go_headers_next n k v r :
  Forall (λ c, c ∉ [34; 92; 10]) k → Forall (λ c, c ∉ [34; 92; 10]) v →
  go_headers (S n) (u "    req.Header.Set(" ++ dq k ++ u ", " ++ dq v ++ (u ")" ++ [10]) ++ r) =
  option_map (λ p, ((k, v) :: p.1, p.2)) (go_headers n r).
Proof.
  intros Hk Hv. cbn [go_headers].
  assert (∀ t, strip [10] (u "    req.Header.Set(" ++ t) = None) as -> by (intros; reflexivity).
  rewrite strip_app. cbn [mbind option_bind]. rewrite go_string_plain by done. cbn [mbind option_bind].
  rewrite strip_app. cbn [mbind option_bind]. rewrite go_string_plain by done. cbn [mbind option_bind].
  rewrite strip_app. cbn [mbind option_bind]. by destruct (go_headers n r) as [[hs t]|].
Qed.

Lemma go_plain_ok s : forallb (λ c, negb (bool_decide (c ∈ [34; 92; 10]))) s = true → Forall (λ c, c ∉ [34; 92; 10]) s.
Proof.
  rewrite forallb_forall, list.Forall_forall. intros H c Hc. apply list_elem_of_In, H in Hc.
  by apply negb_true_iff, bool_decide_eq_false in Hc.
Qed.

Lemma go_read f :
  texts_wf f → 10 ∉ fullUrl (baseUrl f) → Forall (λ c, c ∉ [34; 92; 10]) (apiKey f) →
  96 ∉ stringify_text (VObj (body f)) → go_reads (go f) = Some (the_request f).
Proof.
  intros Hw Hu Hk Hb. rewrite go_text. unfold go_reads. rewrite strip_app. cbn [mbind option_bind].
  unfold go_raw, go_body. rewrite escape_back_id, until_text by done. cbn [mbind option_bind].
  rewrite strip_app. cbn [mbind option_bind].
  rewrite go_string_plain by (apply go_plain_ok; reflexivity). cbn [mbind option_bind].
  rewrite strip_app. cbn [mbind option_bind]. rewrite go_string_esc by done. cbn [mbind option_bind].
  rewrite strip_app. cbn [mbind option_bind].
  rewrite (go_headers_next _ (u "Content-Type")) by (apply go_plain_ok; reflexivity).
  rewrite (go_headers_next _ (u "Authorization")); [|apply go_plain_ok; reflexivity|].
  2:{ apply Forall_app. split; [apply go_plain_ok; reflexivity|].
      destruct (nonempty (apiKey f)); [done|apply go_plain_ok; reflexivity]. }
  cbn [go_headers]. rewrite strip_app. cbn [option_map mbind option_bind fst snd].
  rewrite strip_app. cbn [mbind option_bind].
  unfold parsed. pose proof (body_parses [] f (Forall_nil_2 _) Hw) as Hp. unfold stringify_text, stringify.
  rewrite Hp. reflexivity.
Qed.

Lemma curl_read_request f :
  texts_wf f → Forall plain (fullUrl (baseUrl f)) → Forall plain_dq (apiKey f) → 39 ∉ bodyJson f →
  starts_with [45] (fullUrl (baseUrl f)) = false →
  curl_reads (curl f) = Some (the_request f).
Proof.
  intros Hw Hu Hk Ha Hopt.
  assert (Ho1 : fullUrl (baseUrl f) ≠ u "-H") by (by intros E; rewrite E in Hopt).
  assert (Ho2 : fullUrl (baseUrl f) ≠ u "-d") by (by intros E; rewrite E in Hopt).
  assert (Hkey : Forall plain_dq (key_or (apiKey f))) by (unfold key_or, str_or; destruct (nonempty _); auto).
  unfold curl_reads. rewrite curl_read by done. rewrite (proj2 (escape_quotes_id _) Ha).
  rewrite bool_decide_eq_true_2 by done. cbn [curl_args].
  rewrite !(bool_decide_eq_false_2 (fullUrl (baseUrl f) = _)), Hopt by done.
  rewrite !(bool_decide_eq_true_2 (u "-H" = u "-H")) by done.
  assert (header_of (u "Content-Type: application/json") = Some (u "Content-Type", u "application/json")) as -> by reflexivity.
  assert (header_of (u "Authorization: " ++ bearer (apiKey f)) = Some (u "Authorization", bearer_of (apiKey f))) as -> by reflexivity.
  rewrite (bool_decide_eq_false_2 (u "-d" = u "-H")), (bool_decide_eq_true_2 (u "-d" = u "-d")) by done.
  unfold parsed. pose proof (body_parses indent2 f indent2_ws Hw) as Hp.
  change (default [] (ser indent2 [] (VObj (body f)))) with (bodyJson f) in Hp. rewrite Hp. reflexivity.
Qed.

(** C40: read by the rules of JavaScript, Go and the shell with curl's options, the generated
    programs make one and the same request: POST to the address of the form, with the content
    type of JSON and the key as bearer token, and with a body that is read as the value the form
    stands for.  The JavaScript program does so for every form; the Go program when the address
    has no line feed, the key neither quotes nor backslashes nor line feeds and the JSON of the
    body no back quote; the command when the address has no character that means something to
    the shell and no hyphen at its start, the key no character that means something within double
    quotes and the JSON no apostrophe. *)
Theorem requests_agree f :
  texts_wf f → jstr_wf (fullUrl (baseUrl f)) → jstr_wf (apiKey f) →
  let q := {| h_method := u "POST"; h_url := fullUrl (baseUrl f);
              h_headers := [(u "Content-Type", u "application/json");
                            (u "Authorization", u "Bearer " ++ (if nonempty (apiKey f) then apiKey f else u "YOUR_API_KEY"))];
              h_body := sent f |} in
  node_reads (node f) = Some q ∧
  (10 ∉ fullUrl (baseUrl f) → Forall (λ c, c ∉ [34; 92; 10]) (apiKey f) →
   96 ∉ stringify_text (VObj (body f)) → go_reads (go f) = Some q) ∧
  (Forall plain (fullUrl (baseUrl f)) → starts_with [45] (fullUrl (baseUrl f)) = false →
   Forall plain_dq (apiKey f) → 39 ∉ bodyJson f → curl_reads (curl f) = Some q).
Proof.
  intros Hw Hu Hk. cbv zeta. split; [by apply node_read|]. split; [by intros; apply go_read|].
  by intros; apply curl_read_request.
Qed.

(** ** The address *)

(** The ways to write a base address *)
Definition chat_spelling (suf : jstr) : Prop := suf = [] ∨ lower suf = CHAT ∨ lower suf = u "/v1".

Lemma chat_spelling_sp suf : chat_spelling suf → spelling suf.
Proof. intros [->|[H|H]]; [constructor|by apply sp_chat|by apply sp_v1]. Qed.

Lemma cut_lit_self lit base suf :
  lower suf = lit → suf ≠ [] → last lit ≠ Some 47 → cut (lit_end lit) (base ++ suf) = base.
Proof.
  intros Hl Hs Hn. apply cut_at; [|by apply lit_end_refl]. apply lit_before_self; [by rewrite Hl|done|done].
Qed.

(** the address of the request does not depend on how the base was written: with or without
    [/v1] or the whole path, in any case, with slashes at the end. *)
Theorem url_spellings base suf k :
  clean base → chat_spelling suf → fullUrl (base ++ suf ++ replicate k 47) = base ++ CHAT.
Proof.
  intros Hc Hs. pose proof (spelling_end _ _ Hc (chat_spelling_sp _ Hs)) as He.
  unfold fullUrl, trimmed_url. rewrite trim_tight by (by apply tight_spelled).
  rewrite app_assoc, cut_slashes by done. f_equal.
  assert (∀ s l, lower s = l → l ≠ [] → s ≠ []) as Hne by (intros s l <- Hl ->; done).
  destruct Hs as [->|[H|H]].
  - rewrite app_nil_r. rewrite (cut_never (lit_end CHAT)) by (by apply (clean_never 0)).
    apply cut_never. by apply (clean_never 5).
  - rewrite (cut_lit_self CHAT) by (done || by eapply Hne). apply cut_never. by apply (clean_never 5).
  - rewrite (cut_never (lit_end CHAT)).
    + apply cut_lit_self; [done|by eapply Hne|done].
    + eapply never_lit; [by rewrite H|done|done].
Qed.

(** The generator and the verifier send chat requests to the same address. *)
Corollary address_agrees base suf k m :
  clean base → chat_spelling suf →
  resolveEndpoint (base ++ suf ++ replicate k 47) m Openai = Ok (fullUrl (base ++ suf ++ replicate k 47)).
Proof.
  intros Hc Hs. rewrite url_spellings by done. by rewrite (resolve_spelling base suf k) by (done || by apply chat_spelling_sp).
Qed.

(** ** Examples *)

Definition said (text : string) : form :=
  set_messages [{| role := u "user"; content := u text |}] form0.

Example curl_of_form0 :
  sh_words (generated Curl form0) =
  Some [u "curl"; u "https://api.openai.com/v1/chat/completions"; u "-H"; u "Content-Type: application/json"; u "-H";
        u "Authorization: Bearer YOUR_API_KEY"; u "-d"; bodyJson form0].
Proof. vm_compute. reflexivity. Qed.

(** An apostrophe in a message makes the data that the command sends no JSON. *)
Example apostrophe_breaks_curl :
  match sh_words (curl (said "I'm here")) with
  | Some [_; _; _; _; _; _; _; data] => JSON_parse data
  | _ => Ok VUndef
  end = Throw SyntaxError.
Proof. vm_compute. reflexivity. Qed.

(** A back quote ends the raw string of the Go program. *)
Example back_quote_breaks_go :
  option_map (λ r, JSON_parse r.1) (go_raw (go_body (said "run `ls`") ++ [96])) = Some (Throw SyntaxError).
Proof. vm_compute. reflexivity. Qed.

(** The Python program changes words within a message that look like JSON literals. *)
Example python_changes_text :
  jsonToPy (stringify_text (message_val {| role := u "user"; content := u "is: true, or: null" |})) =
  uq "{'role':'user','content':'is: True, or: null'}" ∧
  jsonToPy (stringify_text (message_val {| role := u "user"; content := u "flags: false " |})) =
  uq "{'role':'user','content':'flags: False '}".
Proof. split; vm_compute; reflexivity. Qed.

(** A temperature that reads as infinite is sent as [null]. *)
Example infinite_temperature :
  let f := {| baseUrl := []; apiKey := []; model := u "m"; temperature := u "Infinity"; maxTokens := []; stream := false; messages := [] |} in
  sent f = VObj [(u "model", VStr (u "m")); (u "messages", VArr []); (u "temperature", VNull)].
Proof. vm_compute. reflexivity. Qed.

Lemma form0_texts : texts_wf form0.
Proof.
  split; [by apply units_ok_wf|]. repeat (apply Forall_cons_2; [split; by apply units_ok_wf|]). apply Forall_nil_2.
Qed.
Lemma form0_plain : Forall plain (fullUrl (baseUrl form0)).
Proof. apply plain_ok. vm_compute. reflexivity. Qed.
Lemma form0_key : Forall plain_dq (key_or (apiKey form0)).
Proof. apply plain_dq_ok. vm_compute. reflexivity. Qed.
Lemma curl_words_witness :
  ∃ data, sh_words (curl form0) =
    Some [u "curl"; fullUrl (baseUrl form0); u "-H"; u "Content-Type: application/json"; u "-H";
          u "Authorization: " ++ bearer (apiKey form0); u "-d"; data] ∧
    data = escape_quotes (bodyJson form0) ∧ (data = bodyJson form0 ↔ 39 ∉ bodyJson form0).
Proof. apply curl_words; [exact form0_plain|exact form0_key]. Defined.

Lemma form0_units : jstr_wf (fullUrl (baseUrl form0)) ∧ jstr_wf (apiKey form0).
Proof. split; [apply units_ok_wf; vm_compute; reflexivity|apply Forall_nil_2]. Qed.

Lemma requests_agree_witness :
  node_reads (node form0) = Some (the_request form0) ∧ go_reads (go form0) = Some (the_request form0) ∧
  curl_reads (curl form0) = Some (the_request form0).
Proof.
  destruct (requests_agree form0 form0_texts (proj1 form0_units) (proj2 form0_units)) as (Hn & Hg & Hc).
  split; [exact Hn|]. split.
  - apply Hg; [apply absent; vm_compute; reflexivity|apply Forall_nil_2|apply absent; vm_compute; reflexivity].
  - apply Hc; [exact form0_plain|vm_compute; reflexivity|apply Forall_nil_2|apply absent; vm_compute; reflexivity].
Defined.

Lemma url_spellings_sample :
  fullUrl (u "https://x.io" ++ u "/V1" ++ replicate 2 47) = u "https://x.io" ++ CHAT.
Proof. apply url_spellings; [apply clean_b_spec; vm_compute; reflexivity|right; right; reflexivity]. Defined.
