(* ===== verification/ChannelAffinity.v ===== *)
(** * Rules of channel affinity (pages/Setting/Operation/SettingsChannelAffinity.jsx)

    The rules are stored as the JSON text of an array.  The page shows them as a table, edits
    one in a dialog, or shows the text itself; both modes share the text.

    [saved_rule_valid]: what the dialog saves has a name, models and sources that are
    complete.  [resave_same]: opening a saved rule and saving it again changes nothing.
    [templates_added]: the templates get names that no rule has.  The page as a state machine
    is in AffinityPage. *)

From S2P Require Import Prelude JsString JsNumber JsRounding JsValue Json Quota ParamOverrideData ParamOverride.

Local Open Scope Z_scope.

Definition fields (l : list (string * val)) : obj := map (λ kv, (u kv.1, kv.2)) l.
Definition txt (s : string) : val := VStr (u s).
Definition at_ (o : obj) (k : string) : val := oget o (u k).

Abbreviation ID := (u "id").
Definition KEY_ENABLED : jstr := u "channel_affinity_setting.enabled".
Definition KEY_SWITCH_ON_SUCCESS : jstr := u "channel_affinity_setting.switch_on_success".
Definition KEY_MAX_ENTRIES : jstr := u "channel_affinity_setting.max_entries".
Definition KEY_DEFAULT_TTL : jstr := u "channel_affinity_setting.default_ttl_seconds".
Definition KEY_RULES : jstr := u "channel_affinity_setting.rules".

Definition texts (l : list jstr) : val := VArr (map VStr l).

(** ** Texts and lists *)

(** [(v || '').trim()] *)
Definition trimmed (v : val) : res jstr :=
  match v_or v (VStr []) with VStr s => Ok (trim s) | _ => Throw TypeError end.

Definition normalizeStringList (text : val) : res (list jstr) :=
  if negb (truthy text) then Ok []
  else match text with
       | VStr s => Ok (List.filter nonempty (map trim (split_on 10 s)))
       | _ => Throw TypeError
       end.

(** [(v || []).join('\n')] *)
Definition join_lines (v : val) : res jstr :=
  match v_or v (VArr []) with
  | VArr l => rmap (join [10]) (rmapM (λ x, if is_nullish x then Ok [] else to_str x) l)
  | _ => Throw TypeError
  end.

(** [JSON.parse(v)] *)
Definition parse_val (v : val) : res val := let! s := to_str v in JSON_parse s.
Definition or_empty (v : val) : val := v_or v (VStr (u "[]")).

Definition parse_rule (i : nat) (rule : val) : obj :=
  obj_extend [(ID, VNum (of_Z (Z.of_nat i)))] (entries (v_or rule (VObj []))).
Definition parseRulesJson (text : val) : list obj :=
  match parse_val (or_empty text) with
  | Ok (VArr l) => imap parse_rule l
  | _ => []
  end.

Definition payload (rules : list obj) : val := VArr (map (λ r, VObj (obj_del r ID)) rules).
Definition rulesToJson (rules : list obj) : jstr := stringify2_text (payload rules).

Definition tryParseRulesJsonArray (text : val) : jstr + list val :=
  match parse_val (or_empty text) with
  | Ok (VArr l) => inr l
  | Ok _ => inl (u "Rules JSON must be an array")
  | Throw _ => inl (u "Rules JSON is invalid")
  end.

(** The object of an optional JSON text *)
Definition parseOptionalObjectJson (text label : jstr) : jstr + option obj :=
  let raw := trim text in
  if negb (nonempty raw) then inr None
  else match JSON_parse raw with
       | Ok (VObj o) => inr (Some o)
       | Ok _ => inl (label ++ u " 必须是 JSON 对象")
       | Throw _ => inl (label ++ u " JSON 格式不正确")
       end.

(** ** Sources of keys *)

Record source := { type : jstr; key : jstr; path : jstr }.
Definition source_val (s : source) : val :=
  VObj (fields [("type", VStr (type s)); ("key", VStr (key s)); ("path", VStr (path s))]).

Definition normalizeKeySource (src : val) : res source :=
  let! t := trimmed (get_opt src (u "type")) in
  let! k := trimmed (get_opt src (u "key")) in
  let! p := trimmed (get_opt src (u "path")) in
  Ok (if t =s u "gjson" then {| type := t; key := []; path := p |} else {| type := t; key := k; path := [] |}).

Definition normalize_sources (v : val) : res (list source) :=
  match v_or v (VArr []) with VArr l => rmapM normalizeKeySource l | _ => Throw TypeError end.

Definition check_source (x : source) : option jstr :=
  if (type x =s u "context_int") || (type x =s u "context_string")
  then if nonempty (key x) then None else Some (u "Key 不能为空")
  else if type x =s u "gjson" then if nonempty (path x) then None else Some (u "Path 不能为空")
  else Some (u "Key 来源类型不合法").
Fixpoint first_error (xs : list source) : option jstr :=
  match xs with
  | [] => None
  | x :: xs => match check_source x with Some m => Some m | None => first_error xs end
  end.
Definition validateKeySources (v : val) : res (jstr + list source) :=
  let! all := normalize_sources v in
  let xs := List.filter (λ x, nonempty (type x)) all in
  Ok (match xs with
      | [] => inl (u "Key 来源不能为空")
      | _ => match first_error xs with Some m => inl m | None => inr xs end
      end).

(** ** Names *)

(** [now]: the clock, for a name when the first thousand are taken *)
Fixpoint free_name (existing : list jstr) (base now : jstr) (fuel : nat) (i : Z) : jstr :=
  match fuel with
  | O => base ++ 45 :: now
  | S fuel =>
    let n := base ++ 45 :: dec i in
    if bool_decide (n ∈ existing) then free_name existing base now fuel (i + 1) else n
  end.
Definition makeUniqueName (existing : list jstr) (baseName now : jstr) : jstr :=
  let base := if nonempty (trim baseName) then trim baseName else u "rule" in
  if bool_decide (base ∈ existing) then free_name existing base now 998 2 else base.

Definition template (name model path source : string) (override : val) : obj :=
  fields [("name", txt name); ("model_regex", texts [u model]); ("path_regex", texts [u path]);
          ("key_sources", VArr [VObj (fields [("type", txt "gjson"); ("path", txt source)])]);
          ("param_override_template", override); ("value_regex", VStr []); ("ttl_seconds", VNum nzero);
          ("skip_retry_on_failure", VBool true); ("include_using_group", VBool true); ("include_rule_name", VBool true)].
Definition codexCli : obj :=
  template "codex cli trace" "^gpt-.*$" "/v1/responses" "prompt_cache_key" CODEX_CLI_HEADER_PASSTHROUGH_TEMPLATE.
Definition claudeCli : obj :=
  template "claude cli trace" "^claude-.*$" "/v1/messages" "metadata.user_id" CLAUDE_CLI_HEADER_PASSTHROUGH_TEMPLATE.
Definition cloneChannelAffinityTemplate (t : obj) : res val := JSON_parse (stringify_text (VObj t)).

(** ** The page *)

Inductive mode := Visual | Json.
#[export] Instance mode_eq_dec : EqDecision mode.
Proof. solve_decision. Defined.

Record page := {
  inputs : obj;
  inputsRow : obj;
  editMode : mode;
  rules : list obj;
  modalVisible : bool;
  editingRule : option obj;
  isEdit : bool;
  modalInitValues : option obj;
  paramTemplateDraft : jstr;
}.

Definition inputs0 : obj :=
  [(KEY_ENABLED, VBool false); (KEY_SWITCH_ON_SUCCESS, VBool true); (KEY_MAX_ENTRIES, VNum (of_Z 100000));
   (KEY_DEFAULT_TTL, VNum (of_Z 3600)); (KEY_RULES, VStr (u "[]"))].
Definition page0 : page :=
  {| inputs := inputs0; inputsRow := inputs0; editMode := Visual; rules := []; modalVisible := false; editingRule := None;
     isEdit := false; modalInitValues := None; paramTemplateDraft := [] |}.

Definition rules_text (p : page) : val := oget (inputs p) KEY_RULES.

Definition set_inputs (i row : obj) (m : mode) (rs : list obj) (p : page) : page :=
  {| inputs := i; inputsRow := row; editMode := m; rules := rs; modalVisible := modalVisible p; editingRule := editingRule p;
     isEdit := isEdit p; modalInitValues := modalInitValues p; paramTemplateDraft := paramTemplateDraft p |}.
Definition set_modal (open : bool) (rule : option obj) (edit : bool) (init : option obj) (draft : jstr) (p : page) : page :=
  {| inputs := inputs p; inputsRow := inputsRow p; editMode := editMode p; rules := rules p; modalVisible := open;
     editingRule := rule; isEdit := edit; modalInitValues := init; paramTemplateDraft := draft |}.
(** The effect on the text and the mode: the table follows the text. *)
Definition follow_text (before p : page) : page :=
  if bool_decide (editMode p = Visual) &&
     negb (strict_eq (rules_text before) (rules_text p) && bool_decide (editMode before = editMode p))
  then set_inputs (inputs p) (inputsRow p) (editMode p) (parseRulesJson (rules_text p)) p
  else p.

Definition updateRulesState (next : list obj) (p : page) : page :=
  set_inputs (obj_set (inputs p) KEY_RULES (VStr (rulesToJson next))) (inputsRow p) (editMode p) next p.
(** [rules.map((r, idx) => ({ ...r, id: idx }))] *)
Definition renumber (l : list obj) : list obj := imap (λ i r, obj_set r ID (VNum (of_Z (Z.of_nat i)))) l.

Definition switchToJsonMode (p : page) : page :=
  set_inputs (obj_set (inputs p) KEY_RULES (VStr (rulesToJson (rules p)))) (inputsRow p) Json (rules p) p.
Definition switchToVisualMode (p : page) : page * option jstr :=
  match tryParseRulesJsonArray (or_empty (rules_text p)) with
  | inl m => (p, Some m)
  | inr _ => (set_inputs (inputs p) (inputsRow p) Visual (rules p) p, None)
  end.
(** A field of the form, and the text of the rules among them *)
Definition change_input (k : jstr) (v : val) (p : page) : page :=
  set_inputs (obj_set (inputs p) k v) (inputsRow p) (editMode p) (rules p) p.
(** The fields for numbers *)
Definition change_number (k : jstr) (v : val) (p : page) : res page :=
  let! n := to_num (v_or v (VNum nzero)) in Ok (change_input k (VNum n) p).

(** *** Templates *)

Definition rule_names (rs : list obj) : res (list jstr) :=
  rmap (List.filter nonempty) (rmapM (λ r, trimmed (at_ r "name")) rs).
Definition named_template (existing : list jstr) (now : jstr) (t : obj) (name : jstr) : res obj :=
  let! clone := cloneChannelAffinityTemplate t in
  Ok (obj_set (obj_of_entries (entries clone)) (u "name") (VStr name)).
Definition appendCodexAndClaudeCodeTemplates (now : jstr) (p : page) : res page :=
  let! existing := rule_names (rules p) in
  let n1 := makeUniqueName existing (u "codex cli trace") now in
  let! t1 := named_template existing now codexCli n1 in
  let n2 := makeUniqueName (existing ++ [n1]) (u "claude cli trace") now in
  let! t2 := named_template (existing ++ [n1]) now claudeCli n2 in
  Ok (updateRulesState (renumber (rules p ++ [t1; t2])) p).

(** *** The dialog *)

Definition buildModalFormValues (r : obj) : res obj :=
  let! models := join_lines (at_ r "model_regex") in
  let! paths := join_lines (at_ r "path_regex") in
  let! agents := join_lines (at_ r "user_agent_include") in
  let! ttl := to_num (v_or (at_ r "ttl_seconds") (VNum nzero)) in
  Ok (fields [("name", v_or (at_ r "name") (VStr [])); ("model_regex_text", VStr models); ("path_regex_text", VStr paths);
              ("user_agent_include_text", VStr agents); ("value_regex", v_or (at_ r "value_regex") (VStr []));
              ("ttl_seconds", VNum ttl); ("skip_retry_on_failure", VBool (truthy (at_ r "skip_retry_on_failure")));
              ("include_using_group", v_coalesce (at_ r "include_using_group") (VBool true));
              ("include_rule_name", v_coalesce (at_ r "include_rule_name") (VBool true));
              ("param_override_template_json",
               VStr (if truthy (at_ r "param_override_template") then stringify2_text (at_ r "param_override_template") else []))]).
Definition draft_of (init : obj) : jstr := match at_ init "param_override_template_json" with VStr s => s | _ => [] end.

Definition new_rule : obj :=
  fields [("name", VStr []); ("model_regex", VArr []); ("path_regex", VArr []); ("user_agent_include", VArr []);
          ("key_sources", VArr [VObj (fields [("type", txt "gjson"); ("path", VStr [])])]); ("value_regex", VStr []);
          ("ttl_seconds", VNum nzero); ("skip_retry_on_failure", VBool false); ("include_using_group", VBool true);
          ("include_rule_name", VBool true)].

(** [buildModalFormValues] may throw after the rule is set. *)
Definition open_modal (rule : obj) (edit : bool) (p : page) : page * option exc :=
  match buildModalFormValues rule with
  | Ok init => (set_modal true (Some rule) edit (Some init) (draft_of init) p, None)
  | Throw e => (set_modal (modalVisible p) (Some rule) edit (modalInitValues p) (paramTemplateDraft p) p, Some e)
  end.
Definition openAddModal (p : page) : page * option exc := open_modal new_rule false p.
Definition edited_rule (r : obj) : res obj :=
  let agents := at_ r "user_agent_include" in
  let! sources := normalize_sources (at_ r "key_sources") in
  Ok (obj_set (obj_set r (u "user_agent_include") (if is_arr agents then agents else VArr []))
        (u "key_sources") (VArr (map source_val sources))).
Definition handleEditRule (r : obj) (p : page) : page * option exc :=
  match edited_rule r with
  | Ok rule => open_modal rule true p
  | Throw e => (p, Some e)
  end.
Definition close_modal (p : page) : page := set_modal false None (isEdit p) None [] p.

Definition handleDeleteRule (id : val) (p : page) : page :=
  updateRulesState (renumber (List.filter (λ r, negb (strict_eq (oget r ID) id)) (rules p))) p.

(** The sources of the rule in the dialog *)
Definition editing_sources (p : page) : res (list val) :=
  match v_or (match editingRule p with Some r => at_ r "key_sources" | None => VUndef end) (VArr []) with
  | VArr l => Ok l
  | _ => Throw TypeError
  end.
Definition set_sources (l : list val) (p : page) : page :=
  set_modal (modalVisible p) (Some (obj_set (default [] (editingRule p)) (u "key_sources") (VArr l))) (isEdit p)
    (modalInitValues p) (paramTemplateDraft p) p.
Definition updateKeySource (index : nat) (patch : obj) (p : page) : res page :=
  let! l := editing_sources p in
  let! s := normalizeKeySource (VObj (obj_extend (obj_of_entries (entries (v_or (default VUndef (l !! index)) (VObj [])))) patch)) in
  Ok (set_sources (<[index := source_val s]> l) p).
Definition addKeySource (p : page) : res page :=
  let! l := editing_sources p in
  Ok (set_sources (l ++ [VObj (fields [("type", txt "gjson"); ("path", VStr [])])]) p).
Definition removeKeySource (index : nat) (p : page) : res page :=
  let! l := editing_sources p in Ok (set_sources (delete index l) p).
(** The field for the name also renames the rule in the dialog. *)
Definition change_name (name : val) (p : page) : page :=
  set_modal (modalVisible p) (Some (obj_set (default [] (editingRule p)) (u "name") name)) (isEdit p) (modalInitValues p)
    (paramTemplateDraft p) p.

Definition updateParamTemplateDraft (value : val) (p : page) : page :=
  set_modal (modalVisible p) (editingRule p) (isEdit p) (modalInitValues p) (match value with VStr s => s | _ => [] end) p.
Definition formatParamTemplateDraft (p : page) : page * option jstr :=
  let raw := trim (paramTemplateDraft p) in
  if negb (nonempty raw) then (p, None)
  else match JSON_parse raw with
       | Ok v => (updateParamTemplateDraft (VStr (stringify2_text v)) p, None)
       | Throw _ => (p, Some (u "参数覆盖模板 JSON 格式不正确"))
       end.

(** A handler that throws leaves the page. *)
Definition or_keep (p : page) (r : res page) : page := match r with Ok q => q | Throw _ => p end.

(** The object of a rule *)
Definition rule_object (id : val) (name : jstr) (models paths : list jstr) (sources : list source) (regex : jstr) (ttl : num)
    (using_group rule_name skip : bool) (agents : list jstr) (override : option obj) : obj :=
  fields [("id", id); ("name", VStr name); ("model_regex", texts models); ("path_regex", texts paths);
          ("key_sources", VArr (map source_val sources)); ("value_regex", VStr regex); ("ttl_seconds", VNum ttl);
          ("include_using_group", VBool using_group); ("include_rule_name", VBool rule_name)] ++
  (if skip then fields [("skip_retry_on_failure", VBool true)] else []) ++
  (match agents with [] => [] | _ => fields [("user_agent_include", texts agents)] end) ++
  (match override with Some o => fields [("param_override_template", VObj o)] | None => [] end).

(** The rule that the dialog stands for, or why it cannot be saved *)
Definition rulePayload (values : obj) (p : page) : res (jstr + obj) :=
  let! models := normalizeStringList (at_ values "model_regex_text") in
  match models with
  | [] => Ok (inl (u "模型正则不能为空"))
  | _ =>
    let! checked := validateKeySources (match editingRule p with Some r => at_ r "key_sources" | None => VUndef end) in
    match checked with
    | inl m => Ok (inl m)
    | inr sources =>
      let! agents := normalizeStringList (at_ values "user_agent_include_text") in
      match parseOptionalObjectJson (paramTemplateDraft p) (u "参数覆盖模板") with
      | inl m => Ok (inl m)
      | inr override =>
        let! id := (if isEdit p then match editingRule p with Some r => Ok (oget r ID) | None => Throw TypeError end
                    else Ok (VNum (of_Z (Z.of_nat (length (rules p)))))) in
        let! name := trimmed (at_ values "name") in
        let! paths := normalizeStringList (at_ values "path_regex_text") in
        let! regex := trimmed (at_ values "value_regex") in
        let! ttl := to_num (v_or (at_ values "ttl_seconds") (VNum nzero)) in
        let rule := rule_object id name models paths sources regex ttl (truthy (at_ values "include_using_group"))
                      (truthy (at_ values "include_rule_name")) (truthy (at_ values "skip_retry_on_failure")) agents override in
        Ok (if nonempty name then inr rule else inl (u "名称不能为空"))
      end
    end
  end.

(** Where the rule of the dialog is in the table: by its id, or else by its name *)
Fixpoint find_named (name : jstr) (i : nat) (rs : list obj) : res (option nat) :=
  match rs with
  | [] => Ok None
  | r :: rs => let! n := trimmed (at_ r "name") in if n =s name then Ok (Some i) else find_named name (S i) rs
  end.
Definition rule_index (p : page) : res (option nat) :=
  let editing := default [] (editingRule p) in
  match find_index (λ r, strict_eq (oget r ID) (oget editing ID)) (rules p) with
  | Some i => Ok (Some i)
  | None =>
    if truthy (at_ editing "name") then let! name := trimmed (at_ editing "name") in find_named name 0 (rules p) else Ok None
  end.

Definition save_rule (values : obj) (p : page) : res (jstr + list obj) :=
  let! r := rulePayload values p in
  match r with
  | inl m => Ok (inl m)
  | inr rule =>
    if isEdit p then
      let! i := rule_index p in
      Ok (match i with Some i => inr (<[i := rule]> (rules p)) | None => inl (u "规则未找到，请刷新后重试") end)
    else Ok (inr (rules p ++ [rule]))
  end.

(** [values]: what the form has, or that it refused *)
Definition handleModalSave (values : res obj) (p : page) : page * option jstr :=
  match (let! v := values in save_rule v p) with
  | Ok (inr next) => (close_modal (updateRulesState (renumber next) p), None)
  | Ok (inl m) => (p, Some m)
  | Throw _ => (p, Some (u "请检查输入"))
  end.

(** *** Loading and storing *)

Section load.
Context `{Unicode}.

Definition toBoolean (v : val) : bool :=
  match v with
  | VBool b => b
  | VNum n => neqb n (of_Z 1)
  | VStr s => (toLowerCase s =s u "true") || (toLowerCase s =s u "1")
  | _ => false
  end.

(** [Number(v || 0) || 0] *)
Definition number_option (v : val) : res val :=
  let! n := to_num (v_or v (VNum nzero)) in Ok (v_or (VNum n) (VNum nzero)).
Definition rules_option (v : val) : val :=
  match parse_val (or_empty v) with Ok x => VStr (stringify2_text x) | Throw _ => or_empty v end.
Definition load_option (current : obj) (kv : jstr * val) : res obj :=
  let '(k, v) := kv in
  if (k =s KEY_ENABLED) || (k =s KEY_SWITCH_ON_SUCCESS) then Ok (obj_set current k (VBool (toBoolean v)))
  else if (k =s KEY_MAX_ENTRIES) || (k =s KEY_DEFAULT_TTL) then let! n := number_option v in Ok (obj_set current k n)
  else if k =s KEY_RULES then Ok (obj_set current k (rules_option v))
  else Ok current.

(** The effect on the options *)
Definition load_options (options : obj) (p : page) : res page :=
  let! current := rfold load_option (inputs p) options in
  Ok (set_inputs current current (editMode p) (parseRulesJson (oget current KEY_RULES)) p).

End load.

Definition compareObjects (current row : obj) : list jstr :=
  List.filter (λ k, negb (strict_eq (oget current k) (oget row k))) (obj_keys current).

(** The requests of [onSubmit], or what it says *)
Definition option_value (p : page) (compact k : jstr) : res (jstr * jstr) :=
  let! v := (if k =s KEY_RULES then Ok compact else to_str (v_coalesce (oget (inputs p) k) (VStr []))) in Ok (k, v).
Definition onSubmit (p : page) : res (jstr + list (jstr * jstr)) :=
  match compareObjects (inputs p) (inputsRow p) with
  | [] => Ok (inl (u "你似乎并没有修改什么"))
  | changed =>
    match parse_val (or_empty (rules_text p)) with
    | Throw _ => Ok (inl (u "规则 JSON 格式不正确"))
    | Ok v => rmap inr (rmapM (option_value p (stringify_text v)) changed)
    end
  end.

(** ** Lists of lines *)

Definition line (s : jstr) : Prop := nonempty s = true ∧ trim s = s ∧ 10 ∉ s.

Lemma trim_sub c s : c ∈ trim s → c ∈ s.
Proof.
  assert (∀ t, c ∈ trim_start t → c ∈ t) as Hs.
  { induction t as [|a t IH]; cbn [trim_start]; [done|]. destruct (is_ws a); [|done]. intros H. apply elem_of_cons. auto. }
  unfold trim, trim_end. rewrite !list_elem_of_In, <- in_rev, <- !list_elem_of_In. intros H%Hs.
  rewrite list_elem_of_In, <- in_rev, <- list_elem_of_In in H. by apply Hs.
Qed.

Lemma lines_of_text v l : normalizeStringList v = Ok l → Forall line l.
Proof.
  unfold normalizeStringList. destruct (negb _); [intros <-%Ok_inj; apply Forall_nil_2|].
  destruct v as [| | | |s| | |]; try done. intros <-%Ok_inj. rewrite list.Forall_forall. intros x Hx.
  apply elem_of_filter_bool in Hx as [Hx Hn]. apply list_elem_of_fmap in Hx as (y & -> & Hy). split; [done|].
  split; [by rewrite trim_tight by apply tight_trim|]. intros Hin%trim_sub.
  pose proof (split_on_free_of 10 s) as HF. rewrite list.Forall_forall in HF. by apply (HF y Hy).
Qed.

Lemma split_on_joined c l : l ≠ [] → Forall (λ x, c ∉ x) l → split_on c (join [c] l) = l.
Proof.
  intros Hne HF. induction HF as [|x l Hx HF IH]; [done|]. destruct l as [|y l].
  - by apply split_on_free.
  - change (join [c] (x :: y :: l)) with (x ++ c :: join [c] (y :: l)). rewrite split_on_app by done. by rewrite IH.
Qed.

Lemma text_of_lines l : Forall line l → normalizeStringList (VStr (join [10] l)) = Ok l.
Proof.
  intros HF. unfold normalizeStringList. destruct l as [|x l]; [done|].
  assert (truthy (VStr (join [10] (x :: l))) = true) as ->.
  { apply Forall_cons in HF as [(Hx & _) _]. cbn [truthy]. destruct x; [done|]. by destruct l. }
  cbn [negb]. rewrite split_on_joined; [|done|by eapply list.Forall_impl; [exact HF|]; intros ? (_ & _ & ?)].
  f_equal. replace (map trim (x :: l)) with (x :: l).
  - apply filter_all. eapply list.Forall_impl; [exact HF|]. by intros ? (? & _).
  - rewrite <- (map_id (x :: l)) at 1. apply map_ext_in. intros a Ha. apply list_elem_of_In in Ha.
    rewrite list.Forall_forall in HF. by destruct (HF a Ha) as (_ & -> & _).
Qed.

Lemma join_lines_texts l : join_lines (texts l) = Ok (join [10] l).
Proof.
  unfold join_lines, texts. cbn [v_or truthy]. rewrite (rmapM_ok _ (λ x, match x with VStr s => s | _ => [] end)).
  - cbn [rmap]. f_equal. f_equal. rewrite map_map. apply map_id.
  - apply Forall_map_2. by apply list.Forall_forall.
Qed.

Lemma trimmed_text v s : trimmed v = Ok s → trim s = s.
Proof.
  unfold trimmed. destruct (v_or _ _); try done. intros <-%Ok_inj. by rewrite trim_tight by apply tight_trim.
Qed.
Lemma trimmed_str s : trim s = s → trimmed (VStr s) = Ok s.
Proof. intros H. destruct s as [|c s]; [done|]. change (Ok (trim (c :: s)) = Ok (c :: s)). by rewrite H. Qed.

(** ** Sources *)

Record tidy_source (x : source) : Prop := {
  ts_type : trim (type x) = type x;
  ts_key : trim (key x) = key x;
  ts_path : trim (path x) = path x;
  ts_used : if type x =s u "gjson" then key x = [] else path x = [];
}.

Lemma normalized_tidy v x : normalizeKeySource v = Ok x → tidy_source x.
Proof.
  unfold normalizeKeySource. destruct (trimmed (get_opt v (u "type"))) as [t|] eqn:Et; [|done].
  destruct (trimmed (get_opt v (u "key"))) as [k|] eqn:Ek; [|done].
  destruct (trimmed (get_opt v (u "path"))) as [p|] eqn:Ep; [|done]. cbn [rbind].
  apply trimmed_text in Et, Ek, Ep. intros <-%Ok_inj.
  destruct (t =s u "gjson") eqn:E; (split; cbn [type key path]; [done|done|done|]); by rewrite E.
Qed.

Lemma normalize_source_val x : tidy_source x → normalizeKeySource (source_val x) = Ok x.
Proof.
  intros [H1 H2 H3 H4]. unfold normalizeKeySource.
  change (get_opt (source_val x) (u "type")) with (VStr (type x)).
  change (get_opt (source_val x) (u "key")) with (VStr (key x)).
  change (get_opt (source_val x) (u "path")) with (VStr (path x)).
  rewrite !trimmed_str by done. cbn [rbind]. destruct x as [t k p]. cbn [type key path] in *.
  destruct (t =s u "gjson"); by rewrite H4.
Qed.

Lemma normalize_source_vals l : Forall tidy_source l → normalize_sources (VArr (map source_val l)) = Ok l.
Proof.
  intros HF. unfold normalize_sources. cbn [v_or truthy].
  induction HF as [|x l Hx HF IH]; [done|]. cbn [map rmapM]. rewrite normalize_source_val by done. cbn [rbind]. by rewrite IH.
Qed.

(** A source that names where to look *)
Definition complete (x : source) : Prop :=
  ((type x = u "context_int" ∨ type x = u "context_string") ∧ key x ≠ []) ∨ (type x = u "gjson" ∧ path x ≠ []).

Lemma check_complete x : check_source x = None → complete x.
Proof.
  unfold check_source, complete. destruct ((type x =s u "context_int") || (type x =s u "context_string")) eqn:E.
  - destruct (nonempty (key x)) eqn:Ek; [|done]. intros _. left. apply orb_true_iff in E. split.
    + destruct E as [E|E]; apply bool_decide_eq_true_1 in E; auto.
    + by apply negb_true_iff, bool_decide_eq_false_1 in Ek.
  - destruct (type x =s u "gjson") eqn:Eg; [|done]. destruct (nonempty (path x)) eqn:Ep; [|done]. intros _. right.
    apply bool_decide_eq_true_1 in Eg. split; [done|]. by apply negb_true_iff, bool_decide_eq_false_1 in Ep.
Qed.
Lemma first_error_complete xs : first_error xs = None → Forall complete xs.
Proof.
  induction xs as [|x xs IH]; intros H; [apply Forall_nil_2|]. cbn [first_error] in H.
  destruct (check_source x) eqn:E; [done|]. constructor; [by apply check_complete|by apply IH].
Qed.

Record good_sources (xs : list source) : Prop := {
  gs_ne : xs ≠ [];
  gs_tidy : Forall tidy_source xs;
  gs_typed : Forall (λ x, nonempty (type x) = true) xs;
  gs_checked : first_error xs = None;
}.

Lemma validated v xs : validateKeySources v = Ok (inr xs) → good_sources xs.
Proof.
  unfold validateKeySources. destruct (normalize_sources v) as [all|] eqn:En; [|done]. cbn [rbind].
  set (ys := List.filter _ all). intros H%Ok_inj.
  assert (xs = ys ∧ ys ≠ [] ∧ first_error ys = None) as (-> & Hne & Hf).
  { revert H. clearbody ys. destruct ys as [|y l]; [done|]. destruct (first_error (y :: l)); [done|]. by intros [= <-]. }
  split; [done| | |done].
  - unfold normalize_sources in En. destruct (v_or v (VArr [])) as [| | | | |l| |]; try done.
    assert (Forall tidy_source all) as Hall.
    { rewrite list.Forall_forall. intros x Hx. apply (rmapM_elem _ _ _ _ En) in Hx as (y & _ & Hy). by eapply normalized_tidy. }
    unfold ys. rewrite list.Forall_forall in *. intros x Hx. apply elem_of_filter_bool in Hx as [Hx _]. auto.
  - unfold ys. rewrite list.Forall_forall. intros x Hx. by apply elem_of_filter_bool in Hx as [_ Hx].
Qed.

Lemma validate_again xs : good_sources xs → validateKeySources (VArr (map source_val xs)) = Ok (inr xs).
Proof.
  intros [Hne Ht Hn Hc]. unfold validateKeySources. rewrite normalize_source_vals by done. cbn [rbind].
  rewrite filter_all by done. rewrite Hc. by destruct xs.
Qed.

(** ** What the dialog saves *)

(** What a rule is made of *)
Record parts (values : obj) (p : page) (id : val) (name : jstr) (models paths : list jstr) (sources : list source)
    (regex : jstr) (ttl : num) (agents : list jstr) (override : option obj) : Prop := {
  pt_models : normalizeStringList (at_ values "model_regex_text") = Ok models;
  pt_some : models ≠ [];
  pt_sources : validateKeySources (match editingRule p with Some r => at_ r "key_sources" | None => VUndef end) = Ok (inr sources);
  pt_agents : normalizeStringList (at_ values "user_agent_include_text") = Ok agents;
  pt_override : parseOptionalObjectJson (paramTemplateDraft p) (u "参数覆盖模板") = inr override;
  pt_id : (if isEdit p then match editingRule p with Some r => Ok (oget r ID) | None => Throw TypeError end
           else Ok (VNum (of_Z (Z.of_nat (length (rules p)))))) = Ok id;
  pt_name : trimmed (at_ values "name") = Ok name;
  pt_named : nonempty name = true;
  pt_paths : normalizeStringList (at_ values "path_regex_text") = Ok paths;
  pt_regex : trimmed (at_ values "value_regex") = Ok regex;
  pt_ttl : to_num (v_or (at_ values "ttl_seconds") (VNum nzero)) = Ok ttl;
}.

Lemma rulePayload_parts values p r :
  rulePayload values p = Ok (inr r) →
  ∃ id name models paths sources regex ttl g n skip agents override,
    r = rule_object id name models paths sources regex ttl g n skip agents override ∧
    parts values p id name models paths sources regex ttl agents override.
Proof.
  unfold rulePayload. destruct (normalizeStringList (at_ values "model_regex_text")) as [models|] eqn:Em; [|done].
  cbn [rbind]. destruct models as [|m models']; [done|]. remember (m :: models') as models eqn:Hm.
  destruct (validateKeySources _) as [[|sources]|] eqn:Ev; [done| |done]. cbn [rbind].
  destruct (normalizeStringList (at_ values "user_agent_include_text")) as [agents|] eqn:Ea; [|done]. cbn [rbind].
  destruct (parseOptionalObjectJson _ _) as [|override] eqn:Eo; [done|].
  destruct (if isEdit p then _ else _) as [id|] eqn:Ei; [|done]. cbn [rbind].
  destruct (trimmed (at_ values "name")) as [name|] eqn:En; [|done]. cbn [rbind].
  destruct (normalizeStringList (at_ values "path_regex_text")) as [paths|] eqn:Ep; [|done]. cbn [rbind].
  destruct (trimmed (at_ values "value_regex")) as [regex|] eqn:Er; [|done]. cbn [rbind].
  destruct (to_num _) as [ttl|] eqn:Et; [|done]. cbn [rbind]. destruct (nonempty name) eqn:Enn; [|done].
  intros H. apply Ok_inj in H. injection H as H. do 12 eexists. split; [symmetry; exact H|]. split; try eassumption. by rewrite Hm.
Qed.

Lemma rulePayload_inv values p r :
  rulePayload values p = Ok (inr r) →
  ∃ id name models paths sources regex ttl g n skip agents override,
    r = rule_object id name models paths sources regex ttl g n skip agents override ∧
    models ≠ [] ∧ Forall line models ∧ Forall line paths ∧ Forall line agents ∧ good_sources sources ∧
    trim name = name ∧ nonempty name = true ∧ trim regex = regex ∧
    parseOptionalObjectJson (paramTemplateDraft p) (u "参数覆盖模板") = inr override.
Proof.
  intros (id & name & models & paths & sources & regex & ttl & g & n & skip & agents & override & Hr & [])%rulePayload_parts.
  do 12 eexists. split; [exact Hr|]. split_and!; try done; by (eapply lines_of_text || eapply validated || eapply trimmed_text).
Qed.

Record rule_valid (r : obj) : Prop := {
  rv_name : ∃ name, at_ r "name" = VStr name ∧ name ≠ [] ∧ trim name = name;
  rv_models : ∃ models, at_ r "model_regex" = texts models ∧ models ≠ [] ∧ Forall line models;
  rv_sources : ∃ sources, at_ r "key_sources" = VArr (map source_val sources) ∧ sources ≠ [] ∧ Forall complete sources;
}.

Lemma payload_valid values p r : rulePayload values p = Ok (inr r) → rule_valid r.
Proof.
  intros (id & name & models & paths & sources & regex & ttl & g & n & skip & agents & override & -> & Hm & HM & _ & _ & Hs & Hn & Hne & _)
    %rulePayload_inv.
  split.
  - exists name. split; [reflexivity|]. split; [|done]. by apply negb_true_iff, bool_decide_eq_false_1 in Hne.
  - exists models. by split.
  - exists sources. split; [reflexivity|]. split; [apply Hs|]. apply first_error_complete, Hs.
Qed.

Lemma find_named_range name i rs j : find_named name i rs = Ok (Some j) → (i ≤ j < i + length rs)%nat.
Proof.
  revert i. induction rs as [|r rs IH]; intros i; cbn [find_named length]; [done|].
  destruct (trimmed _) as [n|]; [|done]. cbn [rbind]. destruct (n =s name).
  - intros <-%Ok_inj%(inj Some). lia.
  - intros H%IH. lia.
Qed.
Lemma rule_index_range p i : rule_index p = Ok (Some i) → (i < length (rules p))%nat.
Proof.
  unfold rule_index. destruct (find_index _ _) as [j|] eqn:E.
  - intros <-%Ok_inj%(inj Some). apply find_index_Some in E as (x & Hx & _). by apply lookup_lt_Some in Hx.
  - destruct (truthy _); [|done]. destruct (trimmed _) as [n|]; [|done]. cbn [rbind]. intros H%find_named_range. lia.
Qed.

(** saving the dialog replaces one rule or adds one, with a name, with models and with
    sources of keys that say where to look, and leaves the others in their places; the text
    is that of the new table.  When something is missing, nothing changes. *)
Theorem saved_rule_valid values p p' m :
  handleModalSave values p = (p', m) →
  match m with
  | Some _ => p' = p
  | None =>
    ∃ rule, rule_valid rule ∧ modalVisible p' = false ∧ rules_text p' = VStr (rulesToJson (rules p')) ∧
      (rules p' = renumber (rules p ++ [rule]) ∨
       ∃ i, (i < length (rules p))%nat ∧ rules p' = renumber (<[i := rule]> (rules p)))
  end.
Proof.
  unfold handleModalSave. destruct values as [values|]; cbn [rbind]; [|by intros [= <- <-]].
  unfold save_rule. destruct (rulePayload values p) as [[|rule]|] eqn:Ep; cbn [rbind]; [by intros [= <- <-]| |by intros [= <- <-]].
  apply payload_valid in Ep.
  assert (∀ next, rules_text (close_modal (updateRulesState next p)) = VStr (rulesToJson next)) as Ht.
  { intros next. unfold rules_text, close_modal, updateRulesState. cbn [inputs set_modal set_inputs]. unfold oget.
    by rewrite obj_get_set, decide_True. }
  destruct (isEdit p).
  - destruct (rule_index p) as [[i|]|] eqn:Ei; cbn [rbind]; intros [= <- <-]; [|done..].
    exists rule. split; [done|]. split; [done|]. split; [apply Ht|]. right. exists i. split; [by apply rule_index_range|done].
  - intros [= <- <-]. exists rule. split; [done|]. split; [done|]. split; [apply Ht|]. by left.
Qed.

(** ** Opening a saved rule *)

Lemma oget_set o k v k' : oget (obj_set o k v) k' = if decide (k = k') then v else oget o k'.
Proof. unfold oget. rewrite obj_get_set. by case_decide. Qed.

Lemma at_set o k v k' : at_ (obj_set o (u k) v) k' = if decide (u k = u k') then v else at_ o k'.
Proof. apply oget_set. Qed.

(** What the dialog edits of a rule *)
Definition edited_object (r : obj) (agents : list jstr) (sources : list source) : obj :=
  obj_set (obj_set r (u "user_agent_include") (texts agents)) (u "key_sources") (VArr (map source_val sources)).

Section reopened.
Context (id : val) (name : jstr) (models paths : list jstr) (sources : list source) (regex : jstr) (ttl : num)
  (g n skip : bool) (agents : list jstr) (override : option obj).
Let r := rule_object id name models paths sources regex ttl g n skip agents override.

Lemma rule_agents : at_ r "user_agent_include" = match agents with [] => VUndef | _ => texts agents end.
Proof. unfold r. destruct skip, agents, override; reflexivity. Qed.
Lemma rule_skip : truthy (at_ r "skip_retry_on_failure") = skip.
Proof. unfold r. destruct skip, agents, override; reflexivity. Qed.
Lemma rule_override : at_ r "param_override_template" = match override with Some o => VObj o | None => VUndef end.
Proof. unfold r. destruct skip, agents, override; reflexivity. Qed.

Lemma edited_rule_object : Forall tidy_source sources → edited_rule r = Ok (edited_object r agents sources).
Proof.
  intros Hs. unfold edited_rule. change (at_ r "key_sources") with (VArr (map source_val sources)).
  rewrite normalize_source_vals by done. cbn [rbind]. rewrite rule_agents. unfold edited_object. by destruct agents.
Qed.

Definition reopened_values : obj :=
  fields [("name", v_or (VStr name) (VStr [])); ("model_regex_text", VStr (join [10] models));
          ("path_regex_text", VStr (join [10] paths)); ("user_agent_include_text", VStr (join [10] agents));
          ("value_regex", v_or (VStr regex) (VStr [])); ("ttl_seconds", VNum ttl); ("skip_retry_on_failure", VBool skip);
          ("include_using_group", VBool g); ("include_rule_name", VBool n);
          ("param_override_template_json", VStr (match override with Some o => stringify2_text (VObj o) | None => [] end))].

Lemma reopened_form :
  ntruthy ttl = true ∨ ttl = nzero → buildModalFormValues (edited_object r agents sources) = Ok reopened_values.
Proof.
  intros Ht. unfold buildModalFormValues, edited_object. rewrite !at_set.
  repeat first [rewrite decide_False by done|rewrite decide_True by done].
  change (at_ r "model_regex") with (texts models). change (at_ r "path_regex") with (texts paths).
  change (at_ r "ttl_seconds") with (VNum ttl). change (at_ r "name") with (VStr name).
  change (at_ r "value_regex") with (VStr regex). change (at_ r "include_using_group") with (VBool g).
  change (at_ r "include_rule_name") with (VBool n).
  rewrite !join_lines_texts. cbn [rbind]. rewrite rule_skip, rule_override.
  assert (to_num (v_or (VNum ttl) (VNum nzero)) = Ok ttl) as ->.
  { unfold v_or. cbn [truthy]. destruct Ht as [-> | ->]; [done|]. by destruct (ntruthy nzero). }
  cbn [rbind]. unfold reopened_values. by destruct override.
Qed.
End reopened.

Lemma trimmed_again s : trim s = s → trimmed (v_or (VStr s) (VStr [])) = Ok s.
Proof. intros H. destruct s as [|c s]; [done|]. by apply trimmed_str. Qed.

Lemma draft_back o label : json_data (VObj o) → parseOptionalObjectJson (stringify2_text (VObj o)) label = inr (Some o).
Proof.
  intros Hd. pose proof (JSON_parse_stringify indent2 (VObj o) indent2_ws Hd) as Hp.
  change (JSON_parse (stringify2_text (VObj o)) = Ok (VObj o)) in Hp. pose proof (JSON_parse_nonblank _ _ Hp) as Hn.
  unfold parseOptionalObjectJson. rewrite trim_tight in Hn |- *.
  - rewrite Hp. unfold nonempty. by rewrite bool_decide_eq_false_2.
  - unfold stringify2_text, stringify2. rewrite ser_obj. cbn [default from_option id].
    eapply (ser_obj_tight indent2 [] o). apply ser_obj.
  - unfold stringify2_text, stringify2. rewrite ser_obj. cbn [default from_option id].
    eapply (ser_obj_tight indent2 [] o). apply ser_obj.
Qed.

(** C21: opening a rule that the dialog has saved and saving it again gives the rule as it is
    stored, field by field and in the same order: reading the dialog and filling it are
    inverse to each other on what the dialog saves. *)
Theorem resave_same values p rule i q :
  rulePayload values p = Ok (inr rule) →
  (∃ ttl, at_ rule "ttl_seconds" = VNum ttl ∧ (ntruthy ttl = true ∨ ttl = nzero)) →
  (∀ o, at_ rule "param_override_template" = VObj o → json_data (VObj o)) →
  let stored := obj_set rule ID (VNum (of_Z i)) in
  ∃ q' init, handleEditRule stored q = (q', None) ∧ modalVisible q' = true ∧ modalInitValues q' = Some init ∧
    rulePayload init q' = Ok (inr stored).
Proof.
  intros Hp (ttl' & Ht' & Ht) Ho stored.
  apply rulePayload_inv in Hp as (id & name & models & paths & sources & regex & ttl & g & n & skip & agents & override & Hr & Hm & HM
    & HP & HA & Hs & Hn & Hne & Hx & Hdraft).
  set (r := rule_object (VNum (of_Z i)) name models paths sources regex ttl g n skip agents override).
  assert (stored = r) as -> by (unfold stored; rewrite Hr; reflexivity).
  rewrite Hr in Ht'. change (VNum ttl = VNum ttl') in Ht'. injection Ht' as <-.
  assert (∀ o, override = Some o → json_data (VObj o)) as Hd.
  { intros o ->. apply Ho. rewrite Hr. apply rule_override. } clear Ho.
  unfold handleEditRule, r. rewrite edited_rule_object by apply Hs. unfold open_modal. rewrite reopened_form by done.
  eexists _, _. split; [reflexivity|]. split; [reflexivity|]. split; [reflexivity|].
  set (init := reopened_values _ _ _ _ _ _ _ _ _ _). unfold rulePayload.
  cbn [editingRule paramTemplateDraft isEdit set_modal].
  change (at_ init "model_regex_text") with (VStr (join [10] models)).
  change (at_ init "user_agent_include_text") with (VStr (join [10] agents)).
  change (at_ init "path_regex_text") with (VStr (join [10] paths)).
  change (at_ init "name") with (v_or (VStr name) (VStr [])).
  change (at_ init "value_regex") with (v_or (VStr regex) (VStr [])).
  change (at_ init "ttl_seconds") with (VNum ttl).
  change (at_ init "skip_retry_on_failure") with (VBool skip).
  change (at_ init "include_using_group") with (VBool g).
  change (at_ init "include_rule_name") with (VBool n).
  rewrite !text_of_lines by done. cbn [rbind]. destruct models as [|m0 models0] eqn:Em; [done|]. rewrite <- Em in *.
  unfold edited_object at 1. rewrite at_set, decide_True by done. rewrite validate_again by done. cbn [rbind].
  assert (parseOptionalObjectJson (draft_of init) (u "参数覆盖模板") = inr override) as ->.
  { change (draft_of init) with (match override with Some o => stringify2_text (VObj o) | None => [] end).
    destruct override as [o|]; [by apply draft_back, Hd|done]. }
  change (oget (edited_object r agents sources) ID) with (VNum (of_Z i)) || unfold edited_object; rewrite ?oget_set.
  rewrite !trimmed_again by done. cbn [rbind].
  assert (to_num (v_or (VNum ttl) (VNum nzero)) = Ok ttl) as ->.
  { unfold v_or. cbn [truthy]. destruct Ht as [-> | ->]; [done|]. by destruct (ntruthy nzero). }
  cbn [rbind truthy]. rewrite Hne. done.
Qed.

(** ** Names of the templates *)

Lemma free_name_spec existing base now fuel i :
  free_name existing base now fuel i ∉ existing ∨
  ∀ j, i ≤ j < i + Z.of_nat fuel → base ++ 45 :: dec j ∈ existing.
Proof.
  revert i. induction fuel as [|fuel IH]; intros i; cbn [free_name]; [right; lia|].
  case_bool_decide as Hin; [|by left]. destruct (IH (i + 1)) as [H|H]; [by left|]. right. intros j Hj.
  destruct (decide (j = i)) as [->|]; [done|]. apply H. lia.
Qed.

Lemma numbered_NoDup (base : jstr) l : Forall (λ j, 0 ≤ j) l → NoDup l → NoDup (map (λ j, base ++ 45 :: dec j) l).
Proof.
  intros HF HN. induction HN as [|j l Hj HN IH]; [by apply NoDup_nil|]. cbn [map]. apply Forall_cons in HF as [H0 HF].
  apply NoDup_cons. split; [|by apply IH]. intros (k & Hk & Hin)%list_elem_of_fmap. apply app_inv_head in Hk.
  injection Hk as Hk. rewrite list.Forall_forall in HF. apply dec_inj in Hk as ->; [done|done|by apply HF].
Qed.

(** A name that is made unique is one that no rule has. *)
Lemma unique_name_fresh existing name now : (length existing < 999)%nat → makeUniqueName existing name now ∉ existing.
Proof.
  intros Hl. unfold makeUniqueName. cbv zeta. set (base := if nonempty (trim name) then trim name else u "rule"). clearbody base.
  case_bool_decide as Hb; [|done]. destruct (free_name_spec existing base now 998 2) as [H|H]; [done|exfalso].
  assert (base :: map (λ j, base ++ 45 :: dec j) (seqZ 2 998) ⊆+ existing) as Hs.
  { apply NoDup_submseteq.
    - apply NoDup_cons. split.
      + intros (j & Hj & _)%list_elem_of_fmap. apply (f_equal length) in Hj. rewrite length_app in Hj. cbn [length] in Hj. lia.
      + apply numbered_NoDup; [|apply NoDup_seqZ]. rewrite list.Forall_forall. intros j Hj%elem_of_seqZ. lia.
    - intros x [-> |(j & -> & Hj%elem_of_seqZ)%list_elem_of_fmap]%elem_of_cons; [done|]. apply H. lia. }
  apply submseteq_length in Hs. cbn [length] in Hs. rewrite length_map, length_seqZ in Hs. lia.
Qed.

Lemma named_template_ok existing now t name v :
  cloneChannelAffinityTemplate t = Ok v → ∃ rule, named_template existing now t name = Ok rule ∧ at_ rule "name" = VStr name.
Proof.
  intros Ht. unfold named_template. rewrite Ht. cbn [rbind]. eexists. split; [reflexivity|]. rewrite at_set. by rewrite decide_True.
Qed.
Lemma codex_clones : ∃ v, cloneChannelAffinityTemplate codexCli = Ok v.
Proof. eexists. vm_compute. reflexivity. Qed.
Lemma claude_clones : ∃ v, cloneChannelAffinityTemplate claudeCli = Ok v.
Proof. eexists. vm_compute. reflexivity. Qed.

(** adding the two templates keeps every rule in its place and adds two rules at the end,
    with names that no rule has and that differ from each other, as long as fewer than 998
    rules are named; the text is that of the new table. *)
Theorem templates_added now p existing :
  rule_names (rules p) = Ok existing → (length existing < 998)%nat →
  ∃ p' t1 t2 n1 n2, appendCodexAndClaudeCodeTemplates now p = Ok p' ∧ rules p' = renumber (rules p ++ [t1; t2]) ∧
    at_ t1 "name" = VStr n1 ∧ at_ t2 "name" = VStr n2 ∧ (n1 ∉ existing) ∧ (n2 ∉ existing) ∧ n1 ≠ n2 ∧
    rules_text p' = VStr (rulesToJson (rules p')).
Proof.
  intros He Hl. unfold appendCodexAndClaudeCodeTemplates. rewrite He. cbn [rbind].
  set (n1 := makeUniqueName existing _ now). set (n2 := makeUniqueName (existing ++ [n1]) _ now).
  assert (n1 ∉ existing) as H1 by (apply unique_name_fresh; lia).
  assert (n2 ∉ existing ++ [n1]) as H2 by (apply unique_name_fresh; rewrite length_app; cbn [length]; lia). clearbody n1 n2.
  destruct codex_clones as [v1 E1]. destruct claude_clones as [v2 E2].
  destruct (named_template_ok existing now codexCli n1 v1 E1) as (t1 & -> & Hn1). cbn [rbind].
  destruct (named_template_ok (existing ++ [n1]) now claudeCli n2 v2 E2) as (t2 & -> & Hn2). cbn [rbind].
  rewrite elem_of_app, list_elem_of_singleton in H2.
  eexists _, t1, t2, n1, n2. split; [reflexivity|]. split; [done|]. split; [done|]. split; [done|]. split; [done|].
  split; [tauto|]. split; [intros ->; tauto|]. unfold rules_text, updateRulesState. cbn [inputs rules set_inputs].
  by rewrite oget_set, decide_True.
Qed.


(** ** Samples *)

Definition sample_values : obj :=
  fields [("name", txt " sticky "); ("model_regex_text", VStr (u "^gpt-.*$" ++ 10 :: 10 :: u " ^o1 "));
          ("path_regex_text", VStr []); ("user_agent_include_text", txt "curl"); ("value_regex", VStr []);
          ("ttl_seconds", VNum (of_Z 60)); ("skip_retry_on_failure", VBool true); ("include_using_group", VBool true);
          ("include_rule_name", VBool false)].
Definition sample_source : obj := fields [("path", txt " user ")].
(** The dialog for a new rule, with the path of its source filled in *)
Definition sample_dialog : page := or_keep page0 (updateKeySource 0 sample_source (openAddModal page0).1).
Definition sample_saved : page := (handleModalSave (Ok sample_values) sample_dialog).1.
Definition sample_rule : obj := default [] (rules sample_saved !! 0%nat).

Lemma sample_payload :
  rulePayload sample_values sample_dialog =
  Ok (inr (rule_object (VNum (of_Z 0)) (u "sticky") [u "^gpt-.*$"; u "^o1"] [] [{| type := u "gjson"; key := []; path := u "user" |}]
             [] (of_Z 60) true false true [u "curl"] None)).
Proof. vm_compute. reflexivity. Qed.

Lemma saved_rule_valid_witness :
  ∃ rule, rule_valid rule ∧ modalVisible sample_saved = false ∧ rules_text sample_saved = VStr (rulesToJson (rules sample_saved)) ∧
    (rules sample_saved = renumber (rules sample_dialog ++ [rule]) ∨
     ∃ i, (i < length (rules sample_dialog))%nat ∧ rules sample_saved = renumber (<[i := rule]> (rules sample_dialog))).
Proof. apply (saved_rule_valid (Ok sample_values) sample_dialog sample_saved None). vm_compute. reflexivity. Defined.

Lemma resave_same_witness :
  ∃ q' init, handleEditRule sample_rule page0 = (q', None) ∧ modalVisible q' = true ∧ modalInitValues q' = Some init ∧
    rulePayload init q' = Ok (inr sample_rule).
Proof.
  apply (resave_same sample_values sample_dialog _ 0 page0 sample_payload).
  - exists (of_Z 60). split; [reflexivity|left; vm_compute; reflexivity].
  - done.
Defined.

Lemma templates_added_witness :
  ∃ p' t1 t2 n1 n2, appendCodexAndClaudeCodeTemplates (u "17") sample_saved = Ok p' ∧
    rules p' = renumber (rules sample_saved ++ [t1; t2]) ∧
    at_ t1 "name" = VStr n1 ∧ at_ t2 "name" = VStr n2 ∧ (n1 ∉ [u "sticky"]) ∧ (n2 ∉ [u "sticky"]) ∧ n1 ≠ n2 ∧
    rules_text p' = VStr (rulesToJson (rules p')).
Proof. apply templates_added; [vm_compute; reflexivity|cbn [length]; lia]. Defined.

(** *** What the dialog loses *)

(** Fields of a rule that the dialog does not know are lost when the rule is saved. *)
Definition extra_rule : obj :=
  obj_set sample_rule (u "note") (txt "keep").
Example unknown_field_lost :
  ∃ q' init r, handleEditRule extra_rule page0 = (q', None) ∧ modalInitValues q' = Some init ∧
    rulePayload init q' = Ok (inr r) ∧ at_ extra_rule "note" = txt "keep" ∧ at_ r "note" = VUndef.
Proof.
  eexists _, _, _. split; [vm_compute; reflexivity|]. split; [vm_compute; reflexivity|]. split; [vm_compute; reflexivity|].
  split; vm_compute; reflexivity.
Qed.

(** Rules that are stored with an [id] keep it as the key of their row: two with the same are
    deleted together. *)
Definition same_ids : val := VStr (map (λ c, if c =? 39 then 34 else c) (u "[{'id':5,'name':'a'},{'id':5,'name':'b'}]")).
Example deleted_together :
  length (parseRulesJson same_ids) = 2%nat ∧
  rules (handleDeleteRule (VNum (of_Z 5)) (set_inputs inputs0 inputs0 Visual (parseRulesJson same_ids) page0)) = [].
Proof. split; vm_compute; reflexivity. Qed.
