(* ===== verification/AffinityPage.v ===== *)
(** * The page of the channel affinity as a state machine (SettingsChannelAffinity.jsx)

    The events of the page, the states they reach and the invariant of these: rules, texts and
    drafts are well formed, and the table follows the text.

    [table_in_step]: while the table is shown and the text lists rules, the table shows exactly
    these rules, whatever was done before.  [submit_exact]: the options that changed are sent, and the rules as the value of
    their text. *)

From S2P Require Import Prelude JsString JsNumber JsRounding JsValue Json Quota ParamOverrideData ParamOverride ChannelAffinity.

Local Open Scope Z_scope.

(** ** The table and the text *)

Inductive event :=
| ToJson
| ToVisual
| TypeRules (text : jstr)
| ChangeInput (k : jstr) (v : val)
| ChangeNumber (k : jstr) (v : val)
| AppendTemplates (now : jstr)
| OpenAdd
| OpenEdit (i : nat)
| CloseModal
| Delete (id : val)
| Save (values : res obj)
| UpdateSource (index : nat) (patch : obj)
| AddSource
| RemoveSource (index : nat)
| ChangeName (name : val)
| EditDraft (value : val)
| FormatDraft
| LoadOptions (options : obj).

Section events.
Context `{Unicode}.

(** What the handlers do; a handler that throws leaves the page. *)
Definition handle (e : event) (p : page) : page :=
  match e with
  | ToJson => switchToJsonMode p
  | ToVisual => (switchToVisualMode p).1
  | TypeRules text => change_input KEY_RULES (VStr text) p
  | ChangeInput k v => if k =s KEY_RULES then p else change_input k v p
  | ChangeNumber k v => if k =s KEY_RULES then p else or_keep p (change_number k v p)
  | AppendTemplates now => or_keep p (appendCodexAndClaudeCodeTemplates now p)
  | OpenAdd => (openAddModal p).1
  | OpenEdit i => match rules p !! i with Some r => (handleEditRule r p).1 | None => p end
  | CloseModal => close_modal p
  | Delete id => handleDeleteRule id p
  | Save values => (handleModalSave values p).1
  | UpdateSource i patch => or_keep p (updateKeySource i patch p)
  | AddSource => or_keep p (addKeySource p)
  | RemoveSource i => or_keep p (removeKeySource i p)
  | ChangeName v => change_name v p
  | EditDraft v => updateParamTemplateDraft v p
  | FormatDraft => (formatParamTemplateDraft p).1
  | LoadOptions o => or_keep p (load_options o p)
  end.
(** ... followed by the effect *)
Definition step (e : event) (p : page) : page := follow_text p (handle e p).

(** Events whose texts are sequences of code units and whose numbers are numbers; the options
    of the server are texts and booleans. *)
Definition event_wf (e : event) : Prop :=
  match e with
  | TypeRules t => jstr_wf t
  | AppendTemplates now => jstr_wf now
  | Save (Ok values) => val_wf (VObj values)
  | UpdateSource _ patch => val_wf (VObj patch)
  | ChangeName v | EditDraft v | ChangeInput _ v => val_wf v
  | LoadOptions o => Forall (λ kv, match kv.2 with VStr s => jstr_wf s | VBool _ => True | _ => False end) o
  | _ => True
  end.

Inductive reachable : page → Prop :=
| reach_start : reachable page0
| reach_step e p : reachable p → event_wf e → reachable (step e p).

End events.

(** *** Well-formed rules *)

Definition rule_wf (r : obj) : Prop := val_wf (VObj r).
Lemma rule_wf_iff o : rule_wf o ↔ obj_ok o ∧ Forall (λ kv, jstr_wf kv.1 ∧ val_wf kv.2) o.
Proof. split; [by inversion 1|]. intros []. by apply wf_obj. Qed.

Lemma rule_wf_set o k v : rule_wf o → jstr_wf k → val_wf v → rule_wf (obj_set o k v).
Proof. rewrite !rule_wf_iff. intros [Ho HF] Hk Hv. split; [by apply obj_ok_set|by apply obj_set_Forall]. Qed.
Lemma rule_wf_del o k : rule_wf o → rule_wf (obj_del o k).
Proof. rewrite !rule_wf_iff. intros [Ho HF]. split; [by apply obj_ok_del|by apply obj_del_Forall]. Qed.
Lemma rule_wf_nil : rule_wf [].
Proof. apply rule_wf_iff. split; [apply obj_ok_nil|apply Forall_nil_2]. Qed.
Lemma rule_wf_extend o p : rule_wf o → Forall (λ kv, jstr_wf kv.1 ∧ val_wf kv.2) p → rule_wf (obj_extend o p).
Proof.
  intros Ho HF. revert o Ho. induction HF as [|[k v] p [Hk Hv] HF IH]; intros o Ho; [done|].
  unfold obj_extend. cbn [fold_left]. apply IH. by apply rule_wf_set.
Qed.
Lemma rule_wf_of_entries p : Forall (λ kv, jstr_wf kv.1 ∧ val_wf kv.2) p → rule_wf (obj_of_entries p).
Proof. apply rule_wf_extend, rule_wf_nil. Qed.

Lemma dec_wf n : 0 ≤ n → jstr_wf (dec n).
Proof.
  intros Hn. destruct (dec_numeral n Hn) as [Hd _]. eapply list.Forall_impl; [exact Hd|].
  intros c Hc. unfold is_digit in Hc. unfold is_unit. lia.
Qed.
Lemma indexed_wf {A} (P : A → Prop) (l : list A) : Forall P l → Forall (λ kv, jstr_wf kv.1 ∧ P kv.2) (indexed l).
Proof.
  intros HF. rewrite list.Forall_forall in HF. apply list.Forall_forall. unfold indexed. intros [k x] Hin.
  apply elem_of_lookup_imap in Hin as (i & y & [= -> ->] & Hi). split; [apply dec_wf; lia|].
  apply HF. by apply list_elem_of_lookup_2 in Hi.
Qed.
Lemma entries_wf v : val_wf v → Forall (λ kv, jstr_wf kv.1 ∧ val_wf kv.2) (entries v).
Proof.
  intros Hv. destruct Hv as [| | | |s Hs|l Hl|o Ho HF|f]; cbn [entries]; try apply Forall_nil_2; [| |done].
  - apply Forall_map_2. eapply list.Forall_impl; [exact (indexed_wf is_unit s Hs)|]. intros [k c] [Hk Hc]. split; [done|].
    apply wf_str. by apply Forall_singleton.
  - by apply indexed_wf.
Qed.

Lemma count_wf i : val_wf (VNum (of_Z i)).
Proof. apply wf_num, of_Z_wf. Qed.
#[local] Hint Resolve count_wf rule_wf_nil : core.

Lemma parse_rule_wf i v : val_wf v → rule_wf (parse_rule i v).
Proof.
  intros Hv. unfold parse_rule. apply rule_wf_extend.
  - apply (rule_wf_set []); [done|by apply units_ok_wf|done].
  - apply entries_wf. unfold v_or. destruct (truthy v); [done|apply rule_wf_nil].
Qed.

Lemma imap_Forall {A B} (P : B → Prop) (f : nat → A → B) l : (∀ i x, x ∈ l → P (f i x)) → Forall P (imap f l).
Proof.
  intros H. rewrite list.Forall_forall. intros y Hy. apply elem_of_lookup_imap in Hy as (i & x & -> & Hi).
  apply H. by apply list_elem_of_lookup_2 in Hi.
Qed.

Definition text_ok (text : val) : Prop := ∀ v, parse_val (or_empty text) = Ok v → val_wf v.

Lemma parsed_rules_wf text : text_ok text → Forall rule_wf (parseRulesJson text).
Proof.
  intros Hp. unfold parseRulesJson. destruct (parse_val _) as [v|] eqn:E; [|apply Forall_nil_2]. apply Hp in E.
  destruct E as [| | | | |l Hl| |]; try apply Forall_nil_2. apply imap_Forall. intros i x Hx. apply parse_rule_wf.
  rewrite list.Forall_forall in Hl. auto.
Qed.

(** *** The text of a table *)

Lemma table_wf rs : Forall rule_wf rs → val_wf (payload rs).
Proof.
  intros HF. apply wf_arr, Forall_map_2. eapply list.Forall_impl; [exact HF|]. intros r Hr. by apply rule_wf_del.
Qed.

Lemma rules_text_parses rs : Forall rule_wf rs → parse_val (or_empty (VStr (rulesToJson rs))) = Ok (json_norm (payload rs)).
Proof.
  intros HF. assert (JSON_parse (rulesToJson rs) = Ok (json_norm (payload rs))) as Hp.
  { eapply (JSON_parse_ser indent2); [apply indent2_ws|by apply table_wf|].
    unfold rulesToJson, stringify2_text, stringify2. by rewrite ser_serializable. }
  unfold or_empty, v_or. destruct (truthy (VStr (rulesToJson rs))) eqn:E; [exact Hp|].
  apply JSON_parse_nonblank in Hp. cbn [truthy] in E. apply negb_false_iff, bool_decide_eq_true_1 in E. by rewrite E in Hp.
Qed.

(** Deleting a key commutes with setting another. *)
Lemma obj_del_add o k k' v : obj_ok o → array_index k = None → k ≠ k' → obj_del (obj_add o k' v) k = obj_add (obj_del o k) k' v.
Proof.
  intros Ho Hk Hne. unfold obj_ok, obj_keys in Ho. induction o as [|[k1 v1] o IH]; cbn [obj_add obj_del map] in *.
  { by rewrite bool_decide_eq_false_2. }
  apply StronglySorted_inv in Ho as [Ho Hf]. destruct (decide (k1 = k)) as [->|Hk1].
  - rewrite (bool_decide_eq_true_2 (k = k)) by done. rewrite Hk. destruct (array_index k') as [i|] eqn:Ei.
    + cbn [obj_del]. rewrite (bool_decide_eq_false_2 (k' = k)) by done. cbn [obj_del]. rewrite (bool_decide_eq_true_2 (k = k)) by done.
      destruct o as [|[k2 v2] o]; [done|]. cbn [obj_add]. rewrite Ei. apply Forall_cons in Hf as [[_ H2] _]. cbn [fst] in H2.
      rewrite Hk in H2. by destruct (array_index k2).
    + cbn [obj_del]. by rewrite (bool_decide_eq_true_2 (k = k)).
  - rewrite (bool_decide_eq_false_2 (k1 = k)) by done. cbn [obj_add].
    destruct (array_index k') as [i|], (array_index k1) as [j|]; try destruct (i <? j);
      cbn [obj_del]; rewrite ?(bool_decide_eq_false_2 (k1 = k)), ?(bool_decide_eq_false_2 (k' = k)) by done;
      cbn [obj_del]; rewrite ?(bool_decide_eq_false_2 (k1 = k)) by done; try done; by rewrite IH.
Qed.
Lemma obj_del_update o k k' v : k ≠ k' → obj_del (obj_update o k' v) k = obj_update (obj_del o k) k' v.
Proof.
  intros Hne. induction o as [|[k1 v1] o IH]; cbn [obj_update obj_del]; [done|].
  destruct (decide (k1 = k')) as [->|H1].
  - rewrite (bool_decide_eq_true_2 (k' = k')) by done. cbn [obj_del]. rewrite (bool_decide_eq_false_2 (k' = k)) by done.
    cbn [obj_update]. by rewrite bool_decide_eq_true_2.
  - rewrite (bool_decide_eq_false_2 (k1 = k')) by done. cbn [obj_del]. destruct (k1 =s k); [done|].
    cbn [obj_update]. rewrite bool_decide_eq_false_2 by done. by rewrite IH.
Qed.
Lemma obj_del_extend o p k :
  obj_ok o → array_index k = None → k ∉ obj_keys p → obj_del (obj_extend o p) k = obj_extend (obj_del o k) p.
Proof.
  intros Ho Hk. revert o Ho. induction p as [|[k' v] p IH]; intros o Ho Hp; [done|]. unfold obj_extend in *. cbn [fold_left obj_keys map fst snd] in *.
  apply not_elem_of_cons in Hp as [Hne Hp]. rewrite IH by (done || by apply obj_ok_set). f_equal.
  unfold obj_set, obj_has. rewrite obj_get_del_ne by done. case_bool_decide; [by apply obj_del_update|by apply obj_del_add].
Qed.

Lemma reread_rule i o : obj_ok o → ID ∉ obj_keys o → obj_del (parse_rule i (VObj o)) ID = o.
Proof.
  intros Ho Hid. unfold parse_rule. cbn [v_or truthy entries].
  rewrite obj_del_extend; [|by apply keys_okb_ok|reflexivity|done]. cbn [obj_del]. rewrite bool_decide_eq_true_2 by done.
  by apply obj_of_entries_id.
Qed.

Lemma payload_reread l :
  Forall (λ v, ∃ o, v = VObj o ∧ obj_ok o ∧ ID ∉ obj_keys o) l → payload (imap parse_rule l) = VArr l.
Proof.
  intros HF. unfold payload. f_equal. apply list_eq. intros i. change (map ?f ?l) with (f <$> l).
  rewrite list_lookup_fmap, list_lookup_imap. destruct (l !! i) as [v|] eqn:E; [|done]. cbn.
  rewrite list.Forall_forall in HF. apply list_elem_of_lookup_2, HF in E as (o & -> & Ho & Hid). f_equal. f_equal.
  by apply reread_rule.
Qed.

Lemma norm_payload rs :
  Forall rule_wf rs → ∃ l, json_norm (payload rs) = VArr l ∧ Forall (λ v, ∃ o, v = VObj o ∧ obj_ok o ∧ ID ∉ obj_keys o) l.
Proof.
  intros HF. eexists. split; [reflexivity|]. apply Forall_map_2, Forall_map_2. eapply list.Forall_impl; [exact HF|].
  intros r [Ho _]%rule_wf_iff. eexists. split; [apply json_norm_obj|]. split; [by apply kept_ok, obj_ok_del|].
  intros (kv & Hk & Hin)%list_elem_of_fmap. apply list_elem_of_fmap in Hin as (kv' & -> & Hin). cbn [fst] in Hk.
  apply kept_elem in Hin. assert (ID ∈ obj_keys (obj_del r ID)) as Hc by (apply list_elem_of_fmap; by exists kv').
  revert Hc. by apply obj_get_keys, obj_get_del.
Qed.

(** A table that was read from its text has the text that was read. *)
Lemma rules_text_stable rs : Forall rule_wf rs → rulesToJson (parseRulesJson (VStr (rulesToJson rs))) = rulesToJson rs.
Proof.
  intros HF. unfold parseRulesJson. rewrite rules_text_parses by done. destruct (norm_payload rs HF) as (l & Hl & HL).
  rewrite Hl. unfold rulesToJson. rewrite payload_reread by done. rewrite <- Hl.
  unfold stringify2_text, stringify2. rewrite !ser_serializable by (done || apply json_norm_kept). cbn [default from_option id].
  apply ser_text_norm.
Qed.
Lemma rules_text_wf rs : Forall rule_wf rs → text_ok (VStr (rulesToJson rs)).
Proof.
  intros HF v. rewrite rules_text_parses by done. intros <-%Ok_inj.
  by apply json_norm_wf, table_wf.
Qed.

(** *** The invariant *)

Definition draft_ok (d : jstr) : Prop := ∀ v, JSON_parse (trim d) = Ok v → val_wf v.

Record inv (p : page) : Prop := {
  inv_rules : Forall rule_wf (rules p);
  inv_text : text_ok (rules_text p);
  inv_editing : ∀ r, editingRule p = Some r → rule_wf r;
  inv_draft : draft_ok (paramTemplateDraft p);
  inv_step : editMode p = Visual → rulesToJson (rules p) = rulesToJson (parseRulesJson (rules_text p));
}.

Lemma modal_keeps b r e i d p : inv p → (∀ x, r = Some x → rule_wf x) → draft_ok d → inv (set_modal b r e i d p).
Proof. intros [H1 H2 H3 H4 H5] Hr Hd. by split. Qed.

Lemma update_keeps next p : inv p → Forall rule_wf next → inv (updateRulesState next p).
Proof.
  intros [H1 H2 H3 H4 H5] Hn.
  assert (rules_text (updateRulesState next p) = VStr (rulesToJson next)) as Ht.
  { unfold rules_text, updateRulesState. cbn [inputs set_inputs]. by rewrite oget_set, decide_True. }
  split; try done; rewrite Ht.
  - by apply rules_text_wf.
  - intros _. symmetry. by apply rules_text_stable.
Qed.

Lemma inv_follow before p :
  Forall rule_wf (rules p) → text_ok (rules_text p) → (∀ r, editingRule p = Some r → rule_wf r) →
  draft_ok (paramTemplateDraft p) →
  (editMode p = Visual → editMode before = Visual → strict_eq (rules_text before) (rules_text p) = true →
   rulesToJson (rules p) = rulesToJson (parseRulesJson (rules_text p))) →
  inv (follow_text before p).
Proof.
  intros H1 H2 H3 H4 H5. unfold follow_text. destruct (editMode p) eqn:Em.
  - destruct (strict_eq (rules_text before) (rules_text p)) eqn:Es; cbn [andb].
    + destruct (editMode before) eqn:Eb; cbn; [split; try done; auto|]. split; try done. by apply parsed_rules_wf.
    + split; try done. by apply parsed_rules_wf.
  - rewrite bool_decide_eq_false_2 by done. cbn [andb]. split; try done. congruence.
Qed.

Lemma renumber_wf l : Forall rule_wf l → Forall rule_wf (renumber l).
Proof.
  intros HF. rewrite list.Forall_forall in HF. apply imap_Forall. intros i r Hr. apply rule_wf_set; [auto|by apply units_ok_wf|done].
Qed.

Lemma proto_wf k : val_wf (proto_get k).
Proof. unfold proto_get. destruct (bool_decide _); [apply wf_fun|]. destruct (_ =s _); [apply rule_wf_nil|apply wf_undef]. Qed.
Lemma oget_wf o k : rule_wf o → val_wf (oget o k).
Proof.
  intros [_ HF]%rule_wf_iff. unfold oget. destruct (obj_get o k) as [v|] eqn:E; [|apply proto_wf].
  rewrite list.Forall_forall in HF. apply obj_get_In, HF in E as [_ E]. exact E.
Qed.
Lemma get_opt_wf v k : val_wf v → val_wf (get_opt v k).
Proof.
  intros Hv. unfold get_opt. destruct Hv as [| | | |s Hs|l Hl|o Ho HF|f]; cbn [get]; try apply wf_undef; try apply proto_wf.
  - destruct (_ =s _); [done|]. destruct (array_index k) as [i|]; [|apply proto_wf].
    destruct (s !! Z.to_nat i) as [c|] eqn:E; [|apply wf_undef]. apply wf_str, Forall_singleton.
    apply list_elem_of_lookup_2 in E. unfold jstr_wf in Hs. rewrite list.Forall_forall in Hs. auto.
  - destruct (_ =s _); [done|]. destruct (array_index k) as [i|]; [|destruct (bool_decide _); [apply wf_fun|apply proto_wf]].
    destruct (l !! Z.to_nat i) as [x|] eqn:E; [|apply wf_undef]. apply list_elem_of_lookup_2 in E.
    rewrite list.Forall_forall in Hl. by apply Hl.
  - apply oget_wf. by apply rule_wf_iff.
Qed.
Lemma trimmed_wf v s : val_wf v → trimmed v = Ok s → jstr_wf s.
Proof.
  intros Hv. unfold trimmed. assert (val_wf (v_or v (VStr []))) as Hw by (apply v_or_wf; [done|apply wf_str, Forall_nil_2]).
  destruct Hw as [| | | |t Ht| | |]; try done. intros <-%Ok_inj. by apply jstr_wf_trim.
Qed.
Lemma lines_wf v l : val_wf v → normalizeStringList v = Ok l → Forall jstr_wf l.
Proof.
  intros Hv. unfold normalizeStringList. destruct (negb _); [intros <-%Ok_inj; apply Forall_nil_2|].
  destruct Hv as [| | | |s Hs| | |]; try done. intros <-%Ok_inj. rewrite list.Forall_forall. intros x Hx.
  apply elem_of_filter_bool in Hx as [Hx _]. apply list_elem_of_fmap in Hx as (y & -> & Hy). apply jstr_wf_trim.
  pose proof (split_on_Forall is_unit 10 s Hs) as HF. rewrite list.Forall_forall in HF. by apply HF.
Qed.
Lemma texts_wf l : Forall jstr_wf l → val_wf (texts l).
Proof. intros HF. apply wf_arr, Forall_map_2. eapply list.Forall_impl; [exact HF|]. intros s Hs. by apply wf_str. Qed.

(** Objects that are written out *)
Lemma fields_wf l :
  keys_okb (map (λ kv, u kv.1) l) = true → Forall (λ kv, units_ok (u kv.1) = true ∧ val_wf kv.2) l → rule_wf (fields l).
Proof.
  intros Hk HF. apply rule_wf_iff. split.
  - apply keys_okb_ok. unfold obj_keys, fields. rewrite map_map. exact Hk.
  - apply Forall_map_2. eapply list.Forall_impl; [exact HF|]. intros [k v] [H1 H2]. split; [by apply units_ok_wf|done].
Qed.
Ltac each_field := repeat (apply Forall_cons_2; [split; [reflexivity|cbn [snd]]|]); [..|apply Forall_nil_2].

Lemma source_wf v x : val_wf v → normalizeKeySource v = Ok x → val_wf (source_val x).
Proof.
  intros Hv. unfold normalizeKeySource. destruct (trimmed (get_opt v (u "type"))) as [t|] eqn:Et; [|done].
  destruct (trimmed (get_opt v (u "key"))) as [k|] eqn:Ek; [|done].
  destruct (trimmed (get_opt v (u "path"))) as [p|] eqn:Ep; [|done]. cbn [rbind].
  apply trimmed_wf in Et, Ek, Ep; try by apply get_opt_wf. intros <-%Ok_inj.
  destruct (t =s u "gjson"); (apply fields_wf; [reflexivity|]); each_field; cbn [type key path]; apply wf_str; done || apply Forall_nil_2.
Qed.
Lemma sources_wf v xs : val_wf v → normalize_sources v = Ok xs → Forall (λ x, val_wf (source_val x)) xs.
Proof.
  intros Hv. unfold normalize_sources.
  assert (val_wf (v_or v (VArr []))) as Hw by (apply v_or_wf; [done|apply wf_arr, Forall_nil_2]).
  destruct Hw as [| | | | |l Hl| |]; try done. intros Hm. rewrite list.Forall_forall. intros x Hx.
  apply (rmapM_elem _ _ _ _ Hm) in Hx as (y & Hy & Hn). rewrite list.Forall_forall in Hl. eapply source_wf; [|exact Hn]. auto.
Qed.
Lemma source_vals_wf xs : Forall (λ x, val_wf (source_val x)) xs → val_wf (VArr (map source_val xs)).
Proof. intros HF. by apply wf_arr, Forall_map_2. Qed.
Lemma validated_wf v xs : val_wf v → validateKeySources v = Ok (inr xs) → Forall (λ x, val_wf (source_val x)) xs.
Proof.
  intros Hv. unfold validateKeySources. destruct (normalize_sources v) as [all|] eqn:En; [|done]. cbn [rbind].
  apply sources_wf in En; [|done]. set (ys := List.filter _ all). intros H%Ok_inj.
  assert (xs = ys) as ->.
  { revert H. clearbody ys. destruct ys as [|y l]; [done|]. destruct (first_error (y :: l)); [done|]. by intros [= <-]. }
  unfold ys. rewrite list.Forall_forall in *. intros x Hx. apply elem_of_filter_bool in Hx as [Hx _]. auto.
Qed.

(** Objects that are written out in pieces *)
Lemma pieces_wf (o : obj) :
  keys_okb (obj_keys o) = true → Forall (λ kv, jstr_wf kv.1 ∧ val_wf kv.2) o → rule_wf o.
Proof. intros Hk HF. apply rule_wf_iff. split; [by apply keys_okb_ok|done]. Qed.
Lemma fields_Forall l :
  Forall (λ kv, units_ok (u kv.1) = true ∧ val_wf kv.2) l → Forall (λ kv, jstr_wf kv.1 ∧ val_wf kv.2) (fields l).
Proof.
  intros HF. apply Forall_map_2. eapply list.Forall_impl; [exact HF|]. intros [k v] [H1 H2]. split; [by apply units_ok_wf|done].
Qed.

Lemma rule_object_wf id name models paths sources regex ttl g n skip agents override :
  val_wf id → jstr_wf name → Forall jstr_wf models → Forall jstr_wf paths → Forall (λ x, val_wf (source_val x)) sources →
  jstr_wf regex → num_wf ttl → Forall jstr_wf agents → (∀ o, override = Some o → rule_wf o) →
  rule_wf (rule_object id name models paths sources regex ttl g n skip agents override).
Proof.
  intros Hi Hn Hm Hp Hs Hx Ht Ha Ho. apply source_vals_wf in Hs. apply texts_wf in Hm, Hp, Ha.
  apply pieces_wf; [by destruct skip, agents, override|]. unfold rule_object. rewrite !list.Forall_app. split_and!.
  - apply fields_Forall. each_field; try done; by (apply wf_str || apply wf_num || apply wf_bool).
  - destruct skip; [|apply Forall_nil_2]. apply fields_Forall. each_field. apply wf_bool.
  - destruct agents; [apply Forall_nil_2|]. apply fields_Forall. by each_field.
  - destruct override as [o|]; [|apply Forall_nil_2]. apply fields_Forall. each_field. by apply Ho.
Qed.

(** *** The draft of the template *)

Lemma json_norm_twice v : json_norm (json_norm v) = json_norm v.
Proof.
  induction v as [| |b|n|s|l IH|o IH|f] using val_ind'; try done.
  - cbn [json_norm]. destruct (isFinite n) eqn:Ef; [|done]. destruct (neg_zero n) eqn:Ez; [done|]. cbn [json_norm]. by rewrite Ef, Ez.
  - cbn [json_norm]. f_equal. rewrite map_map. apply map_ext_in. intros x Hx%list_elem_of_In. rewrite list.Forall_forall in IH. auto.
  - rewrite json_norm_obj, json_norm_obj. f_equal. rewrite kept_all.
    + rewrite map_map. apply map_ext_in. intros kv Hkv%list_elem_of_In%kept_elem. cbn [fst snd]. f_equal.
      rewrite list.Forall_forall in IH. by apply (IH kv).
    + apply Forall_map_2, list.Forall_forall. intros kv _. apply json_norm_kept.
Qed.

Lemma stringified_draft v : val_wf v → draft_ok (stringify2_text v).
Proof.
  intros Hv. destruct (unserializable v) eqn:Eu; [by destruct v|].
  assert (stringify2 v = Some (ser_text indent2 [] v)) as Es by by apply ser_serializable.
  unfold stringify2_text. rewrite Es. cbn [default from_option Datatypes.id]. intros w. rewrite trim_tight.
  - rewrite (JSON_parse_ser indent2 v _ indent2_ws Hv Es). intros <-%Ok_inj. by apply json_norm_wf.
  - eapply (ser_tight indent2 [] (json_norm v)); [by apply json_norm_wf|apply json_norm_twice|].
    rewrite ser_serializable by apply json_norm_kept. by rewrite ser_text_norm.
Qed.
Lemma empty_draft : draft_ok [].
Proof. by intros v. Qed.

Lemma at_wf o k : rule_wf o → val_wf (at_ o k).
Proof. apply oget_wf. Qed.

Lemma override_wf d label override o : draft_ok d → parseOptionalObjectJson d label = inr override → override = Some o → rule_wf o.
Proof.
  intros Hd. unfold parseOptionalObjectJson. destruct (negb _); [by intros [= <-]|].
  destruct (JSON_parse (trim d)) as [v|] eqn:E; [|done]. apply Hd in E. destruct v; try done. by intros [= <-] [= <-].
Qed.

Lemma build_draft r init : rule_wf r → buildModalFormValues r = Ok init → draft_ok (draft_of init).
Proof.
  intros Hr. unfold buildModalFormValues. destruct (join_lines (at_ r "model_regex")) as [models|]; [|done].
  destruct (join_lines (at_ r "path_regex")) as [paths|]; [|done].
  destruct (join_lines (at_ r "user_agent_include")) as [agents|]; [|done].
  destruct (to_num _) as [ttl|]; [|done]. cbn [rbind]. intros <-%Ok_inj.
  match goal with |- draft_ok (draft_of ?o) => change (draft_of o) with
    (if truthy (at_ r "param_override_template") then stringify2_text (at_ r "param_override_template") else []) end.
  destruct (truthy _); [|apply empty_draft]. by apply stringified_draft, at_wf.
Qed.

(** *** What the handlers keep *)

Lemma payload_rule_wf values p r : inv p → rule_wf values → rulePayload values p = Ok (inr r) → rule_wf r.
Proof.
  intros [_ _ He Hd _] Hv (id & name & models & paths & sources & regex & ttl & g & n & skip & agents & override & -> & [Hm ? Hso Hag Hov Hid Hna ? Hpa Hre Htt])
    %rulePayload_parts.
  assert (∀ k, val_wf (at_ values k)) as Hat by (intros; by apply at_wf).
  apply rule_object_wf.
  - destruct (isEdit p); [|apply Ok_inj in Hid; by rewrite <- Hid].
    destruct (editingRule p) as [r|] eqn:E; [|done]. apply Ok_inj in Hid. rewrite <- Hid. apply oget_wf; auto.
  - eapply trimmed_wf; [|eassumption]; apply Hat.
  - eapply lines_wf; [|eassumption]; apply Hat.
  - eapply lines_wf; [|eassumption]; apply Hat.
  - eapply validated_wf; [|eassumption]. destruct (editingRule p) as [r|] eqn:E; [apply at_wf; auto|apply wf_undef].
  - eapply trimmed_wf; [|eassumption]; apply Hat.
  - eapply to_num_wf; [|eassumption]. apply v_or_wf; [done|apply (count_wf 0)].
  - eapply lines_wf; [|eassumption]; apply Hat.
  - intros o. eapply override_wf; eassumption.
Qed.

Lemma inv_save values p : inv p → rule_wf values → inv (handleModalSave (Ok values) p).1.
Proof.
  intros Hi Hv. unfold handleModalSave, save_rule. cbn [rbind].
  destruct (rulePayload values p) as [[|r]|] eqn:Er; [done| |done]. apply payload_rule_wf in Er; [|done..]. cbn [rbind].
  assert (∀ next, Forall rule_wf next → inv (close_modal (updateRulesState (renumber next) p))) as Hn.
  { intros next Hn. apply modal_keeps; [by apply update_keeps, renumber_wf|done|apply empty_draft]. }
  pose proof (inv_rules _ Hi). destruct (isEdit p).
  - destruct (rule_index p) as [[i|]|]; [|done..]. cbn [rbind fst]. apply Hn. by apply Forall_insert.
  - cbn [fst]. apply Hn. apply list.Forall_app. split; [done|]. by apply Forall_singleton.
Qed.

Lemma open_keeps rule edit p : inv p → rule_wf rule → inv (open_modal rule edit p).1.
Proof.
  intros Hi Hr. unfold open_modal. destruct (buildModalFormValues rule) as [init|] eqn:E; cbn [fst];
    (apply modal_keeps; [done|by intros ? [= <-]|]); [by eapply build_draft|apply Hi].
Qed.

Lemma new_rule_wf : rule_wf new_rule.
Proof.
  apply fields_wf; [reflexivity|].
  each_field; try apply wf_bool; try (apply wf_str, Forall_nil_2); try (apply wf_arr, Forall_nil_2); [|apply (count_wf 0)].
  apply wf_arr, Forall_singleton. apply fields_wf; [reflexivity|]. each_field; apply wf_str; [by apply units_ok_wf|apply Forall_nil_2].
Qed.

Lemma edited_wf r rule : rule_wf r → edited_rule r = Ok rule → rule_wf rule.
Proof.
  intros Hr. unfold edited_rule. destruct (normalize_sources _) as [xs|] eqn:E; [|done]. cbn [rbind]. intros <-%Ok_inj.
  apply sources_wf in E; [|by apply at_wf]. apply rule_wf_set; [|by apply units_ok_wf|by apply source_vals_wf].
  apply rule_wf_set; [done|by apply units_ok_wf|]. destruct (is_arr _); [by apply at_wf|apply wf_arr, Forall_nil_2].
Qed.

Lemma editing_wf p : inv p → rule_wf (default [] (editingRule p)).
Proof. intros Hi. destruct (editingRule p) as [r|] eqn:E; [by apply (inv_editing _ Hi)|apply rule_wf_nil]. Qed.
Lemma editing_sources_wf p l : inv p → editing_sources p = Ok l → Forall val_wf l.
Proof.
  intros Hi. unfold editing_sources.
  assert (val_wf (v_or (match editingRule p with Some r => at_ r "key_sources" | None => VUndef end) (VArr []))) as Hw.
  { apply v_or_wf; [|apply wf_arr, Forall_nil_2]. destruct (editingRule p) as [r|] eqn:E; [|apply wf_undef].
    by apply at_wf, (inv_editing _ Hi). }
  destruct Hw; try done. by intros <-%Ok_inj.
Qed.
Lemma inv_sources l p : inv p → Forall val_wf l → inv (set_sources l p).
Proof.
  intros Hi Hl. apply modal_keeps; [done| |apply Hi]. intros r [= <-].
  apply rule_wf_set; [by apply editing_wf|by apply units_ok_wf|by apply wf_arr].
Qed.

Lemma inv_update_source i patch p : inv p → rule_wf patch → inv (or_keep p (updateKeySource i patch p)).
Proof.
  intros Hi Hp. unfold updateKeySource. destruct (editing_sources p) as [l|] eqn:El; [|done]. cbn [rbind].
  apply editing_sources_wf in El; [|done]. destruct (normalizeKeySource _) as [s|] eqn:Es; [|done]. cbn [rbind or_keep].
  apply inv_sources; [done|]. apply Forall_insert; [done|]. eapply source_wf; [|exact Es].
  apply rule_wf_iff in Hp as [_ Hp]. apply rule_wf_extend; [|done]. apply rule_wf_of_entries, entries_wf.
  apply v_or_wf; [|apply rule_wf_nil]. destruct (l !! i) as [v|] eqn:E; [|apply wf_undef].
  apply list_elem_of_lookup_2 in E. rewrite list.Forall_forall in El. by apply El.
Qed.
Lemma inv_add_source p : inv p → inv (or_keep p (addKeySource p)).
Proof.
  intros Hi. unfold addKeySource. destruct (editing_sources p) as [l|] eqn:El; [|done]. cbn [rbind or_keep].
  apply inv_sources; [done|]. apply list.Forall_app. split; [by eapply editing_sources_wf|]. apply Forall_singleton.
  apply fields_wf; [reflexivity|]. each_field; apply wf_str; [by apply units_ok_wf|apply Forall_nil_2].
Qed.
Lemma inv_remove_source i p : inv p → inv (or_keep p (removeKeySource i p)).
Proof.
  intros Hi. unfold removeKeySource. destruct (editing_sources p) as [l|] eqn:El; [|done]. cbn [rbind or_keep].
  apply inv_sources; [done|]. by eapply Forall_delete, editing_sources_wf.
Qed.

Lemma inv_format p : inv p → inv (formatParamTemplateDraft p).1.
Proof.
  intros Hi. unfold formatParamTemplateDraft. destruct (negb _); [done|].
  destruct (JSON_parse _) as [v|] eqn:E; [|done]. cbn [fst]. apply modal_keeps; [done|apply Hi|].
  apply stringified_draft. by apply (inv_draft _ Hi).
Qed.

(** *** Templates *)

Lemma free_name_wf existing base now fuel i : 0 ≤ i → jstr_wf base → jstr_wf now → jstr_wf (free_name existing base now fuel i).
Proof.
  intros Hi Hb Hn. revert i Hi. induction fuel as [|fuel IH]; intros i Hi; cbn [free_name].
  - apply jstr_wf_app. split; [done|]. by apply jstr_wf_cons.
  - destruct (bool_decide _); [apply IH; lia|]. apply jstr_wf_app. split; [done|]. apply jstr_wf_cons. split; [done|by apply dec_wf].
Qed.
Lemma unique_name_wf existing name now : jstr_wf name → jstr_wf now → jstr_wf (makeUniqueName existing name now).
Proof.
  intros Hn Hnow. unfold makeUniqueName. cbv zeta.
  assert (jstr_wf (if nonempty (trim name) then trim name else u "rule")) as Hb.
  { destruct (nonempty _); [by apply jstr_wf_trim|by apply units_ok_wf]. }
  destruct (bool_decide _); [by apply free_name_wf|done].
Qed.
Lemma template_wf existing now t name rule :
  units_ok (stringify_text (VObj t)) = true → jstr_wf name → named_template existing now t name = Ok rule → rule_wf rule.
Proof.
  intros Ht Hn. unfold named_template, cloneChannelAffinityTemplate. destruct (JSON_parse _) as [v|] eqn:E; [|done]. cbn [rbind].
  intros <-%Ok_inj. apply JSON_parse_wf in E; [|by apply units_ok_wf].
  apply rule_wf_set; [by apply rule_wf_of_entries, entries_wf|by apply units_ok_wf|by apply wf_str].
Qed.
Lemma inv_templates now p : inv p → jstr_wf now → inv (or_keep p (appendCodexAndClaudeCodeTemplates now p)).
Proof.
  intros Hi Hnow. unfold appendCodexAndClaudeCodeTemplates. destruct (rule_names _) as [existing|]; [|done]. cbn [rbind].
  destruct (named_template existing now codexCli _) as [t1|] eqn:E1; [|done]. cbn [rbind].
  destruct (named_template _ now claudeCli _) as [t2|] eqn:E2; [|done]. cbn [rbind or_keep].
  apply template_wf in E1; [|by vm_compute|apply unique_name_wf; [by apply units_ok_wf|done]].
  apply template_wf in E2; [|by vm_compute|apply unique_name_wf; [by apply units_ok_wf|done]].
  apply update_keeps, renumber_wf; [done|]. apply list.Forall_app. split; [apply Hi|].
  apply Forall_cons_2; [done|]. by apply Forall_singleton.
Qed.

(** *** Options *)

Lemma text_ok_str t : jstr_wf t → text_ok (VStr t).
Proof.
  intros Ht v. unfold or_empty, v_or, parse_val. destruct (truthy (VStr t)); cbn [to_str rbind]; apply JSON_parse_wf; [done|].
  by apply units_ok_wf.
Qed.
Lemma text_ok_stringify x : val_wf x → text_ok (VStr (stringify2_text x)).
Proof.
  intros Hx. destruct (unserializable x) eqn:Eu; [destruct x; try done; by apply text_ok_str, units_ok_wf|].
  assert (stringify2 x = Some (ser_text indent2 [] x)) as Es by by apply ser_serializable.
  pose proof (JSON_parse_ser indent2 x _ indent2_ws Hx Es) as Hp.
  unfold stringify2_text. rewrite Es. cbn [default from_option Datatypes.id]. intros v. unfold or_empty, v_or.
  destruct (truthy _) eqn:E.
  - unfold parse_val. cbn [to_str rbind]. rewrite Hp. intros <-%Ok_inj. by apply json_norm_wf.
  - apply (text_ok_str []). apply Forall_nil_2.
Qed.

Section options.
Context `{Unicode}.

Definition option_ok (v : val) : Prop := match v with VStr s => jstr_wf s | VBool _ => True | _ => False end.

Lemma option_text_ok v : option_ok v → text_ok v.
Proof.
  destruct v as [| |b| |s| | |]; try done; [|apply text_ok_str]. intros _ x.
  destruct b; [unfold parse_val; cbn [or_empty v_or truthy to_str rbind]|unfold parse_val; cbn [or_empty v_or truthy to_str rbind]];
    apply JSON_parse_wf; by apply units_ok_wf.
Qed.
Lemma or_empty_twice v : or_empty (or_empty v) = or_empty v.
Proof. unfold or_empty, v_or. by destruct (truthy v) eqn:E; [rewrite E|]. Qed.
Lemma rules_option_ok v : option_ok v → text_ok (rules_option v).
Proof.
  intros Hv. apply option_text_ok in Hv. unfold rules_option. destruct (parse_val (or_empty v)) as [x|] eqn:E.
  - by apply text_ok_stringify, Hv.
  - unfold text_ok. rewrite or_empty_twice. by rewrite E.
Qed.

Lemma load_option_ok kv current current' :
  option_ok kv.2 → load_option current kv = Ok current' → text_ok (oget current KEY_RULES) → text_ok (oget current' KEY_RULES).
Proof.
  intros Hv Hl Hc. destruct kv as [k v]. unfold load_option in Hl. cbn [snd] in Hv.
  destruct (k =s KEY_RULES) eqn:Ek.
  - apply bool_decide_eq_true_1 in Ek as ->. change (Ok (obj_set current KEY_RULES (rules_option v)) = Ok current') in Hl.
    apply Ok_inj in Hl as <-. rewrite oget_set, decide_True by done.
    by apply rules_option_ok.
  - apply bool_decide_eq_false_1 in Ek.
    assert (∀ x, oget (obj_set current k x) KEY_RULES = oget current KEY_RULES) as Hs.
    { intros x. by rewrite oget_set, decide_False. }
    destruct ((k =s KEY_ENABLED) || (k =s KEY_SWITCH_ON_SUCCESS)).
    { apply Ok_inj in Hl as <-. rewrite Hs. exact Hc. }
    destruct ((k =s KEY_MAX_ENTRIES) || (k =s KEY_DEFAULT_TTL)).
    + destruct (number_option v); [|done]. cbn [rbind] in Hl. apply Ok_inj in Hl as <-. rewrite Hs. exact Hc.
    + apply Ok_inj in Hl as <-. exact Hc.
Qed.

Lemma load_options_ok options current current' :
  Forall (λ kv, option_ok kv.2) options → rfold load_option current options = Ok current' →
  text_ok (oget current KEY_RULES) → text_ok (oget current' KEY_RULES).
Proof.
  intros HF. revert current. induction HF as [|kv options Hv HF IH]; intros current; cbn [rfold]; [by intros <-%Ok_inj|].
  destruct (load_option current kv) as [c|] eqn:E; [|done]. cbn [rbind]. intros Hl Hc. eapply IH; [exact Hl|]. by eapply load_option_ok.
Qed.

Lemma inv_load options p : inv p → Forall (λ kv, option_ok kv.2) options → inv (or_keep p (load_options options p)).
Proof.
  intros Hi Ho. unfold load_options. destruct (rfold _ _ _) as [c|] eqn:E; [|done]. cbn [rbind or_keep].
  apply load_options_ok in E; [|done|apply Hi]. destruct Hi as [H1 H2 H3 H4 H5]. split; try done. by apply parsed_rules_wf.
Qed.

(** *** Every event *)

Lemma inv_followed before p : inv p → inv (follow_text before p).
Proof. intros [H1 H2 H3 H4 H5]. by apply inv_follow; auto. Qed.

Lemma inv_to_json p : inv p → inv (switchToJsonMode p).
Proof.
  intros [H1 H2 H3 H4 H5].
  assert (rules_text (switchToJsonMode p) = VStr (rulesToJson (rules p))) as Ht.
  { unfold rules_text, switchToJsonMode. cbn [inputs set_inputs]. by rewrite oget_set, decide_True. }
  split; try done. rewrite Ht. by apply rules_text_wf.
Qed.
Lemma inv_to_visual p : inv p → inv (follow_text p (switchToVisualMode p).1).
Proof.
  intros Hi. unfold switchToVisualMode. destruct (tryParseRulesJsonArray _); cbn [fst]; [by apply inv_followed|].
  destruct Hi as [H1 H2 H3 H4 H5]. apply inv_follow; try done. intros _ Hb _. by apply H5.
Qed.
Lemma inv_type_rules text p : inv p → jstr_wf text → inv (follow_text p (change_input KEY_RULES (VStr text) p)).
Proof.
  intros [H1 H2 H3 H4 H5] Ht.
  assert (rules_text (change_input KEY_RULES (VStr text) p) = VStr text) as E.
  { unfold rules_text, change_input. cbn [inputs set_inputs]. by rewrite oget_set, decide_True. }
  apply inv_follow; try done; rewrite E; [by apply text_ok_str|]. intros _ Hv Hs. cbn [rules change_input set_inputs].
  rewrite H5 by done. destruct (rules_text p); try done. cbn [strict_eq] in Hs. by apply bool_decide_eq_true_1 in Hs as ->.
Qed.
Lemma inv_change_input k v p : inv p → k ≠ KEY_RULES → inv (change_input k v p).
Proof.
  intros [H1 H2 H3 H4 H5] Hk.
  assert (rules_text (change_input k v p) = rules_text p) as E.
  { unfold rules_text, change_input. cbn [inputs set_inputs]. by rewrite oget_set, decide_False. }
  split; try done; by rewrite E.
Qed.

Lemma inv_step_event e p : inv p → event_wf e → inv (step e p).
Proof.
  intros Hi He. unfold step. destruct e; cbn [handle event_wf] in *; [|by apply inv_to_visual|by apply inv_type_rules|..];
    apply inv_followed.
  - by apply inv_to_json.
  - case_bool_decide; [done|by apply inv_change_input].
  - case_bool_decide; [done|]. unfold change_number. destruct (to_num _); [by apply inv_change_input|done].
  - by apply inv_templates.
  - apply open_keeps; [done|apply new_rule_wf].
  - destruct (rules p !! i) as [r|] eqn:E; [|done]. unfold handleEditRule. destruct (edited_rule r) as [rule|] eqn:Er; [|done].
    apply open_keeps; [done|]. eapply edited_wf; [|exact Er]. apply list_elem_of_lookup_2 in E. pose proof (inv_rules _ Hi) as HF.
    rewrite list.Forall_forall in HF. by apply HF.
  - apply modal_keeps; [done|done|apply empty_draft].
  - apply update_keeps, renumber_wf; [done|]. pose proof (inv_rules _ Hi) as HF. rewrite list.Forall_forall in *.
    intros r [Hr _]%elem_of_filter_bool. by apply HF.
  - destruct values as [values|]; [by apply inv_save|done].
  - by apply inv_update_source.
  - by apply inv_add_source.
  - by apply inv_remove_source.
  - apply modal_keeps; [done| |apply Hi]. intros r [= <-]. apply rule_wf_set; [by apply editing_wf|by apply units_ok_wf|done].
  - apply modal_keeps; [done|apply Hi|]. destruct He as [| | | |s Hs| | |]; try apply empty_draft. intros v.
    by apply JSON_parse_wf, jstr_wf_trim.
  - by apply inv_format.
  - by apply inv_load.
Qed.

Lemma start_keeps : inv page0.
Proof. split; [apply Forall_nil_2|by apply text_ok_str, units_ok_wf|done|apply empty_draft|done]. Qed.

Lemma reachable_keeps p : reachable p → inv p.
Proof. intros Hr. induction Hr as [|e p Hr IH He]; [apply start_keeps|by apply inv_step_event]. Qed.

(** C19: while the table of rules is shown and the text that will be stored is an array of
    objects without an id of their own, the rows of the table, without the ids the page gives
    them and read as JSON reads them, are these objects: as many, in this order, with these
    fields and values; after any sequence of edits, templates, deletions, loads of the options,
    switches of the mode and texts typed by hand.  Of other texts, which the page also stores,
    nothing is said. *)
Theorem table_in_step p text os :
  reachable p → editMode p = Visual →
  rules_text p = VStr text → JSON_parse text = Ok (VArr (map VObj os)) → Forall (λ o, u "id" ∉ obj_keys o) os →
  json_norm (VArr (map (λ r, VObj (obj_del r (u "id"))) (rules p))) = json_norm (VArr (map VObj os)).
Proof.
  intros Hi%reachable_keeps Hm Ht Hj Hid. pose proof (inv_step _ Hi Hm) as Hs.
  pose proof (inv_text _ Hi) as Hok. rewrite Ht in Hs, Hok.
  assert (Hp : parse_val (or_empty (VStr text)) = Ok (VArr (map VObj os))).
  { unfold or_empty, v_or. destruct (truthy (VStr text)) eqn:E; [exact Hj|].
    cbn [truthy] in E. apply negb_false_iff, bool_decide_eq_true_1 in E. by rewrite E in Hj. }
  pose proof (parsed_rules_wf _ Hok) as Hw. apply (f_equal (λ s, parse_val (or_empty (VStr s)))) in Hs.
  rewrite !rules_text_parses in Hs by (done || apply Hi). apply Ok_inj in Hs. change (json_norm (payload (rules p)) = json_norm (VArr (map VObj os))).
  rewrite Hs. unfold parseRulesJson. rewrite Hp. f_equal. apply payload_reread.
  apply Hok in Hp. inversion Hp as [| | | | |l Hl| |]; subst. rewrite List.Forall_map in Hl |- *.
  rewrite list.Forall_forall in Hl, Hid |- *. intros o Ho. exists o. split; [done|].
  specialize (Hl o Ho). apply rule_wf_iff in Hl as [Hl _]. split; [done|by apply Hid].
Qed.
End options.

(** ** Storing *)

Lemma option_values_keys p compact keys reqs : rmapM (option_value p compact) keys = Ok reqs → map fst reqs = keys.
Proof.
  revert reqs. induction keys as [|k keys IH]; intros reqs; cbn [rmapM]; [by intros <-%Ok_inj|].
  unfold option_value at 1. destruct (if k =s KEY_RULES then _ else _) as [v|]; [|done]. cbn [rbind].
  destruct (rmapM _ keys) as [rs|]; [|done]. cbn [rbind]. intros <-%Ok_inj. cbn [map fst]. by rewrite IH.
Qed.
Lemma compact_parses x : val_wf x → unserializable x = false → JSON_parse (stringify_text x) = Ok (json_norm x).
Proof.
  intros Hx Hs. apply (JSON_parse_ser []); [apply Forall_nil_2|done|]. unfold stringify_text, stringify.
  by rewrite ser_serializable.
Qed.

Section submit.
Context `{Unicode}.

(** the requests are for the options that changed, each once and in their order; the rules
    are sent as the value of their text, written without blanks, and the other options as
    texts. *)
Theorem submit_exact p reqs :
  reachable p → onSubmit p = Ok (inr reqs) →
  map fst reqs = compareObjects (inputs p) (inputsRow p) ∧
  ∀ k v, (k, v) ∈ reqs →
    if k =s KEY_RULES then ∃ x, parse_val (or_empty (rules_text p)) = Ok x ∧ JSON_parse v = Ok (json_norm x)
    else to_str (v_coalesce (oget (inputs p) k) (VStr [])) = Ok v.
Proof.
  intros Hi%reachable_keeps. unfold onSubmit. destruct (compareObjects _ _) as [|k0 ks]; [done|].
  destruct (parse_val _) as [x|] eqn:Ex; [|done]. destruct (rmapM _ _) as [rs|] eqn:Er; [|done].
  cbn [rmap]. intros H0. apply Ok_inj in H0. injection H0 as <-. split; [by eapply option_values_keys|]. intros k v Hin.
  apply (rmapM_elem _ _ _ _ Er) in Hin as (k' & _ & Hk). unfold option_value in Hk. destruct (k' =s KEY_RULES) eqn:Ek.
  - cbn [rbind] in Hk. apply Ok_inj in Hk. injection Hk as <- <-. rewrite Ek. exists x. split; [done|].
    apply compact_parses; [by apply (inv_text _ Hi)|]. unfold parse_val in Ex.
    destruct (to_str _); [|done]. by eapply JSON_parse_kept.
  - destruct (to_str _) as [t|] eqn:Et; [|done]. cbn [rbind] in Hk. apply Ok_inj in Hk. injection Hk as <- <-. by rewrite Ek.
Qed.
End submit.

(** ** Samples *)

#[local] Existing Instance ascii_unicode.

Lemma values_wf : rule_wf sample_values.
Proof.
  apply fields_wf; [reflexivity|]. each_field; try apply wf_bool; try apply wf_num, of_Z_wf; apply wf_str; by apply units_ok_wf.
Qed.
Lemma sample_reachable : reachable (step (Save (Ok sample_values)) (step (UpdateSource 0 sample_source) (step OpenAdd page0))).
Proof.
  apply reach_step; [|apply values_wf]. apply reach_step; [apply reach_step; [apply reach_start|done]|].
  apply fields_wf; [reflexivity|]. each_field. apply wf_str. by apply units_ok_wf.
Qed.

(** The rules of a text *)
Definition text_objs (text : val) : list obj :=
  match parse_val text with
  | Ok (VArr l) => map (λ v, match v with VObj o => o | _ => [] end) l
  | _ => []
  end.

Lemma table_in_step_witness :
  let p := step (Save (Ok sample_values)) (step (UpdateSource 0 sample_source) (step OpenAdd page0)) in
  let os := text_objs (rules_text p) in
  length os = 1%nat ∧
  json_norm (VArr (map (λ r, VObj (obj_del r (u "id"))) (rules p))) = json_norm (VArr (map VObj os)).
Proof.
  split; [vm_compute; reflexivity|].
  apply (table_in_step _ (stringify2_text (payload (rules sample_saved))));
    [exact sample_reachable|reflexivity|vm_compute; reflexivity|vm_compute; reflexivity|].
  apply list.Forall_forall. intros o Ho. apply (bool_decide_unpack _). revert o Ho. apply list.Forall_forall.
  apply forallb_True. vm_compute. exact I.
Defined.

Lemma submit_exact_witness :
  let p := step (Save (Ok sample_values)) (step (UpdateSource 0 sample_source) (step OpenAdd page0)) in
  ∃ v, onSubmit p = Ok (inr [(KEY_RULES, v)]) ∧ ∃ x, parse_val (or_empty (rules_text p)) = Ok x ∧ JSON_parse v = Ok (json_norm x).
Proof.
  exists (stringify_text (payload (rules sample_saved))). split; [vm_compute; reflexivity|].
  refine (proj2 (submit_exact _ _ sample_reachable _) KEY_RULES _ _); [vm_compute; reflexivity|by apply list_elem_of_singleton].
Defined.

(** *** What gets lost *)

Section lost.
Context `{Unicode}.

(** In the JSON mode the table is not refreshed, yet the buttons for the templates, for a new
    rule and for the JSON mode itself write the table over the text. *)
Example typed_text_lost :
  let typed := step (TypeRules (u "[1, 2]")) (step ToJson page0) in
  rules_text typed = txt "[1, 2]" ∧ rules_text (step ToJson typed) = txt "[]".
Proof. split; reflexivity. Qed.

(** A text that is not an array is stored; the table would be empty. *)
Example not_an_array_stored :
  let typed := step (TypeRules (u "7")) (step ToJson page0) in
  onSubmit typed = Ok (inr [(KEY_RULES, u "7")]) ∧ (switchToVisualMode typed).2 = Some (u "Rules JSON must be an array").
Proof. split; vm_compute; reflexivity. Qed.

(** A text of other things than objects is stored as it is, and the table shows a blank rule
    for each. *)
Example numbers_shown_blank :
  let p := step ToVisual (step (TypeRules (u "[1, 2]")) (step ToJson page0)) in
  editMode p = Visual ∧ onSubmit p = Ok (inr [(KEY_RULES, u "[1,2]")]) ∧
  map (λ r, obj_del r (u "id")) (rules p) = [[]; []].
Proof. split; [reflexivity|]. split; vm_compute; reflexivity. Qed.

End lost.
