(* ===== verification/TokenKeys.v ===== *)
(** * Keys of tokens (hooks/tokens/useTokensData.jsx)

    The list of tokens has their keys only in part; a key is fetched when it is shown or
    copied.  Callers that ask while a request is under way share it, and a key that was
    fetched is kept.  The requests under way, with those who wait for them, are part of the
    state, so that replies come in any order.  Handlers run on the state of the last render.

    [key_requests_counted]: for each token there are as many requests as failed ones, plus one
    when a request is under way or the key is there; never two are under way.
    [shown_has_key]: a key is shown only when it is there, and the signs of loading are those of
    the requests.  [copied_exact]: when the server answers each request with the key of the
    token it is about, every text on the clipboard is one that some event asked for: the key of
    its token, its connection, or the lines of a batch.  [waiting_served]: a reply serves
    everyone who waited for it. *)

From S2P Require Import Prelude JsString JsNumber JsValue Json Tokens.

Local Open Scope Z_scope.

(** Tokens come from the server with a number; the other properties are an object. *)
Record token := { id : Z; data : obj }.

(** ** State *)

(** Who waits for a key; [Batch b i]: the token at [i] of a batch *)
Inductive caller := Toggle | CopyKey | CopyConnection | Batch (b i : nat).
Record request := { about : Z; suppressError : bool; callers : list caller }.
Record batch := { b_tokens : list token; b_keys : list (option jstr); b_named : bool; b_failed : bool }.

(** [copied]: the texts given to the clipboard; [sent] and [failed] record the requests for
    keys. *)
Record keys := {
  showKeys : gset Z;
  resolvedTokenKeys : gmap Z jstr;
  loadingTokenKeys : gset Z;
  keyRequests : list request;
  batches : list batch;
  copied : list jstr;
  errors : list jstr;
  sent : list Z;
  failed : list Z;
}.
Definition keys0 : keys :=
  {| showKeys := ∅; resolvedTokenKeys := ∅; loadingTokenKeys := ∅; keyRequests := []; batches := []; copied := []; errors := [];
     sent := []; failed := [] |}.

Definition set_show (s : gset Z) (k : keys) : keys :=
  {| showKeys := s; resolvedTokenKeys := resolvedTokenKeys k; loadingTokenKeys := loadingTokenKeys k;
     keyRequests := keyRequests k; batches := batches k; copied := copied k; errors := errors k; sent := sent k; failed := failed k |}.
Definition set_requests (rs : list request) (l : gset Z) (k : keys) : keys :=
  {| showKeys := showKeys k; resolvedTokenKeys := resolvedTokenKeys k; loadingTokenKeys := l; keyRequests := rs;
     batches := batches k; copied := copied k; errors := errors k; sent := sent k; failed := failed k |}.
Definition set_batches (bs : list batch) (c : list jstr) (k : keys) : keys :=
  {| showKeys := showKeys k; resolvedTokenKeys := resolvedTokenKeys k; loadingTokenKeys := loadingTokenKeys k;
     keyRequests := keyRequests k; batches := bs; copied := c; errors := errors k; sent := sent k; failed := failed k |}.
Definition say (m : jstr) (k : keys) : keys :=
  {| showKeys := showKeys k; resolvedTokenKeys := resolvedTokenKeys k; loadingTokenKeys := loadingTokenKeys k;
     keyRequests := keyRequests k; batches := batches k; copied := copied k; errors := errors k ++ [m]; sent := sent k;
     failed := failed k |}.
Definition resolve (t : Z) (key : jstr) (k : keys) : keys :=
  {| showKeys := showKeys k; resolvedTokenKeys := <[t := key]> (resolvedTokenKeys k); loadingTokenKeys := loadingTokenKeys k;
     keyRequests := keyRequests k; batches := batches k; copied := copied k; errors := errors k; sent := sent k; failed := failed k |}.
Definition log (s f : list Z) (k : keys) : keys :=
  {| showKeys := showKeys k; resolvedTokenKeys := resolvedTokenKeys k; loadingTokenKeys := loadingTokenKeys k;
     keyRequests := keyRequests k; batches := batches k; copied := copied k; errors := errors k; sent := sent k ++ s;
     failed := failed k ++ f |}.

(** ** What the callers do with the key *)

Definition sk (key : jstr) : jstr := u "sk-" ++ key.
Definition batch_line (named : bool) (t : token) (key : jstr) : res jstr :=
  if named then let! name := to_str (oget (data t) (u "name")) in Ok (name ++ u "    " ++ sk key ++ [10]) else Ok (sk key ++ [10]).
Definition batch_text (named : bool) (ts : list token) (ks : list jstr) : res jstr :=
  rmap (@concat Z) (rmapM (λ tk, batch_line named tk.1 tk.2) (zip ts ks)).

Definition set_key (i : nat) (key : jstr) (b : batch) : batch :=
  {| b_tokens := b_tokens b; b_keys := <[i := Some key]> (b_keys b); b_named := b_named b; b_failed := b_failed b |}.
Definition set_failed (b : batch) : batch :=
  {| b_tokens := b_tokens b; b_keys := b_keys b; b_named := b_named b; b_failed := true |}.
Definition all_keys (b : batch) : option (list jstr) := mapM (λ x, x) (b_keys b).

Section server.
Context (server : val).       (* [getServerAddress()] *)

(** The rest of a caller, once it has the key *)
Definition deliver (t : Z) (key : jstr) (k : keys) (c : caller) : keys :=
  match c with
  | Toggle => if nonempty key then set_show ({[t]} ∪ showKeys k) k else k
  | CopyKey => set_batches (batches k) (copied k ++ [sk key]) k
  | CopyConnection =>
    set_batches (batches k) (copied k ++ [encodeChannelConnectionString (VStr (sk key)) server]) k
  | Batch b i =>
    match batches k !! b with
    | Some x =>
      let x' := set_key i key x in
      let bs := <[b := x']> (batches k) in
      match all_keys x' with
      | Some ks =>
        match batch_text (b_named x') (b_tokens x') ks with
        | Ok text => set_batches bs (copied k ++ [text]) k
        | Throw _ => say (u "复制令牌失败") (set_batches bs (copied k) k)
        end
      | None => set_batches bs (copied k) k
      end
    | None => k
    end
  end.

(** ... or once it has failed: a batch says so, the first time; the others leave the error
    unhandled.  A batch that has failed never has all its keys. *)
Definition reject (m : jstr) (k : keys) (c : caller) : keys :=
  match c with
  | Batch b _ =>
    match batches k !! b with
    | Some x => if b_failed x then k else say m (set_batches (<[b := set_failed x]> (batches k)) (copied k) k)
    | None => k
    end
  | _ => k
  end.

Definition add_caller (c : caller) (q : request) : request :=
  {| about := about q; suppressError := suppressError q; callers := callers q ++ [c] |}.
Definition is_about (t : Z) (q : request) : bool := about q =? t.

(** A key that was fetched and is not empty *)
Definition known_key (t : Z) (k : keys) : option jstr :=
  match resolvedTokenKeys k !! t with Some key => if nonempty key then Some key else None | None => None end.

Definition fetchTokenKey (suppress : bool) (c : caller) (t : Z) (k : keys) : keys :=
  if t =? 0 then
    let m := u "令牌不存在" in reject m (if suppress then k else say m k) c
  else
    match known_key t k with
    | Some key => deliver t key k c
    | None =>
      match find_index (is_about t) (keyRequests k) with
      | Some i => set_requests (alter (add_caller c) i (keyRequests k)) (loadingTokenKeys k) k
      | None =>
        log [t] [] (set_requests (keyRequests k ++ [{| about := t; suppressError := suppress; callers := [c] |}])
                      ({[t]} ∪ loadingTokenKeys k) k)
      end
    end.

(** The reply to a request: the key, or the message of the error *)
Definition settled (i : nat) (q : request) (k : keys) : keys :=
  set_requests (delete i (keyRequests k)) (loadingTokenKeys k ∖ {[about q]}) k.
Definition key_replied (i : nat) (reply : jstr + jstr) (k : keys) : keys :=
  match keyRequests k !! i with
  | None => k
  | Some q =>
    match reply with
    | inr key => fold_left (deliver (about q) key) (callers q) (settled i q (resolve (about q) key k))
    | inl m =>
      let m := if nonempty m then m else u "获取令牌密钥失败" in
      let k := log [] [about q] (settled i q (if suppressError q then k else say m k)) in
      fold_left (reject m) (callers q) k
    end
  end.

(** ** Handlers *)

Definition toggleTokenVisibility (t : Z) (k : keys) : keys :=
  if t =? 0 then k
  else if bool_decide (t ∈ showKeys k) then set_show (showKeys k ∖ {[t]}) k
  else fetchTokenKey false Toggle t k.
Definition copyTokenKey (t : Z) (k : keys) : keys := fetchTokenKey false CopyKey t k.
Definition copyTokenConnectionString (t : Z) (k : keys) : keys := fetchTokenKey false CopyConnection t k.
(** [selected]: the tokens that are chosen *)
Definition batchCopyTokens (selected : list token) (named : bool) (k : keys) : keys :=
  match selected with
  | [] => say (u "请至少选择一个令牌！") k
  | _ =>
    let b := length (batches k) in
    let k := set_batches (batches k ++ [{| b_tokens := selected; b_keys := replicate (length selected) None; b_named := named;
                                           b_failed := false |}])
               (copied k) k in
    fold_left (λ k it, fetchTokenKey true (Batch b it.1) (id it.2) k) (imap pair selected) k
  end.

Inductive event :=
| ToggleVisibility (t : Z)
| CopyTokenKey (t : Z)
| CopyTokenConnection (t : Z)
| BatchCopy (selected : list token) (named : bool)
| KeyReplied (i : nat) (reply : jstr + jstr)
| HideAll.

(** [HideAll]: a new page of the list *)
Definition step (e : event) (k : keys) : keys :=
  match e with
  | ToggleVisibility t => toggleTokenVisibility t k
  | CopyTokenKey t => copyTokenKey t k
  | CopyTokenConnection t => copyTokenConnectionString t k
  | BatchCopy selected named => batchCopyTokens selected named k
  | KeyReplied i reply => key_replied i reply k
  | HideAll => set_show ∅ k
  end.
(** A key that is fetched is not empty ([Tokens.fetchTokenKey_truthy]). *)
Definition event_ok (e : event) : Prop := match e with KeyReplied _ (inr key) => key ≠ [] | _ => True end.

Inductive reachable : keys → Prop :=
| reach_start : reachable keys0
| reach_step e k : reachable k → event_ok e → reachable (step e k).

End server.

(** ** The invariant *)

Definition occ (t : Z) (l : list Z) : nat := length (List.filter (Z.eqb t) l).
Definition in_flight (k : keys) : list Z := map about (keyRequests k).

(** A batch has keys of its own tokens only, and waits at the right places. *)
Definition batch_ok (r : gmap Z jstr) (x : batch) : Prop :=
  Forall2 (λ t ok, ∀ key, ok = Some key → r !! id t = Some key) (b_tokens x) (b_keys x).
Definition caller_ok (bs : list batch) (t : Z) (c : caller) : Prop :=
  match c with Batch b i => ∃ x tk, bs !! b = Some x ∧ b_tokens x !! i = Some tk ∧ id tk = t | _ => True end.

Record inv (k : keys) : Prop := {
  inv_distinct : NoDup (in_flight k);
  inv_loading : loadingTokenKeys k = list_to_set (in_flight k);
  inv_unknown : ∀ t, t ∈ in_flight k → resolvedTokenKeys k !! t = None;
  inv_key : ∀ t key, resolvedTokenKeys k !! t = Some key → key ≠ [];
  inv_shown : ∀ t, t ∈ showKeys k → is_Some (resolvedTokenKeys k !! t);
  inv_count : ∀ t, occ t (sent k) = (occ t (in_flight k) + (if decide (is_Some (resolvedTokenKeys k !! t)) then 1 else 0)
                                     + occ t (failed k))%nat;
  inv_batches : Forall (batch_ok (resolvedTokenKeys k)) (batches k);
  inv_callers : Forall (λ q, Forall (caller_ok (batches k) (about q)) (callers q)) (keyRequests k);
}.

Lemma occ_app t l l' : occ t (l ++ l') = (occ t l + occ t l')%nat.
Proof. unfold occ. by rewrite List.filter_app, length_app. Qed.
Lemma occ_one t t' : occ t [t'] = if decide (t = t') then 1%nat else 0%nat.
Proof. unfold occ. cbn [List.filter]. destruct (Z.eqb_spec t t'); case_decide; done. Qed.
Lemma occ_not_in t l : t ∉ l → occ t l = 0%nat.
Proof.
  induction l as [|x l IH]; intros H; [done|]. apply not_elem_of_cons in H as [Hx H].
  change (x :: l) with ([x] ++ l). rewrite occ_app, occ_one, decide_False by done. by rewrite IH.
Qed.
Lemma occ_perm t l l' : l ≡ₚ l' → occ t l = occ t l'.
Proof.
  induction 1 as [|x l l' _ IH|x y l|l l' l'' _ IH1 _ IH2]; [done| | |congruence]; unfold occ in *; cbn [List.filter].
  - destruct (t =? x); cbn [length]; by rewrite IH.
  - by destruct (t =? x), (t =? y).
Qed.
Lemma occ_once t l : NoDup l → (occ t l ≤ 1)%nat.
Proof.
  induction 1 as [|x l Hx HN IH]; [unfold occ; cbn; lia|]. change (x :: l) with ([x] ++ l). rewrite occ_app, occ_one.
  case_decide as E; [|lia]. subst. rewrite occ_not_in by done. lia.
Qed.

(** The tokens of the batches *)
Definition same_tokens (bs bs' : list batch) : Prop := map b_tokens bs `prefix_of` map b_tokens bs'.
#[local] Instance same_tokens_preorder : PreOrder same_tokens.
Proof. unfold same_tokens. split; [intros ?; reflexivity|intros ??? H1 H2; by etrans]. Qed.
Lemma caller_ok_more bs bs' t c : same_tokens bs bs' → caller_ok bs t c → caller_ok bs' t c.
Proof.
  intros [r Hr]. destruct c as [| | |b i]; try done. intros (x & tk & Hb & Hi & Ht).
  assert (map b_tokens bs' !! b = Some (b_tokens x)) as H.
  { rewrite Hr. apply lookup_app_l_Some. change (map b_tokens bs) with (b_tokens <$> bs). by rewrite list_lookup_fmap, Hb. }
  change (map b_tokens bs') with (b_tokens <$> bs') in H. rewrite list_lookup_fmap in H.
  destruct (bs' !! b) as [x'|] eqn:E; [|done]. injection H as H. exists x', tk. by rewrite H.
Qed.
Lemma same_tokens_insert bs b x x' : bs !! b = Some x → b_tokens x' = b_tokens x → same_tokens bs (<[b := x']> bs).
Proof.
  intros Hb Hx. exists []. rewrite app_nil_r. change (map b_tokens ?l) with (b_tokens <$> l).
  rewrite list_fmap_insert, Hx. apply list_insert_id. by rewrite list_lookup_fmap, Hb.
Qed.

(** What a key leaves of the state *)
Record kept (k k' : keys) : Prop := {
  kept_resolved : resolvedTokenKeys k' = resolvedTokenKeys k;
  kept_requests : keyRequests k' = keyRequests k;
  kept_loading : loadingTokenKeys k' = loadingTokenKeys k;
  kept_sent : sent k' = sent k;
  kept_failed : failed k' = failed k;
  kept_tokens : same_tokens (batches k) (batches k');
}.
Lemma kept_refl k : kept k k.
Proof. by split. Qed.
Lemma kept_trans k1 k2 k3 : kept k1 k2 → kept k2 k3 → kept k1 k3.
Proof. intros [] []. split; try congruence. by etrans. Qed.

(** A step that only shows, fills batches and copies *)
Lemma inv_kept k k' :
  inv k → kept k k' → (∀ t, t ∈ showKeys k' → is_Some (resolvedTokenKeys k !! t)) →
  Forall (batch_ok (resolvedTokenKeys k)) (batches k') → inv k'.
Proof.
  intros [H1 H2 H3 H4 H5 H6 H7 H8] [K1 K2 K3 K4 K5 K6] Hs Hb.
  assert (in_flight k' = in_flight k) as Hf by (unfold in_flight; by rewrite K2).
  split; rewrite ?Hf, ?K1, ?K2, ?K3, ?K4, ?K5; try done.
  eapply list.Forall_impl; [exact H8|]. intros q HF. eapply list.Forall_impl; [exact HF|]. intros c. by apply caller_ok_more.
Qed.

Lemma batch_ok_set r x i key tk :
  batch_ok r x → b_tokens x !! i = Some tk → r !! id tk = Some key → batch_ok r (set_key i key x).
Proof.
  intros Hb Ht Hk. unfold batch_ok, set_key. cbn [b_tokens b_keys]. rewrite <- (list_insert_id _ _ _ Ht).
  apply Forall2_insert; [exact Hb|]. by intros ? [= <-].
Qed.
Lemma all_keys_of r x ks :
  batch_ok r x → all_keys x = Some ks → Forall2 (λ t key, r !! id t = Some key) (b_tokens x) ks.
Proof.
  intros Hb Ha%mapM_Some_1. unfold batch_ok in Hb. revert ks Ha. induction Hb as [|t o ts os Ho Hb IH]; intros ks Ha.
  - by inversion_clear Ha.
  - inversion Ha as [|? key ? ks' Hk Ha']; subst. constructor; [by apply Ho|by apply IH].
Qed.

(** ** What the handlers keep *)

Section handlers.
Context (server : val).

Lemma deliver_kept t key k c : kept k (deliver server t key k c).
Proof.
  destruct c as [| | |b i]; cbn [deliver]; [by destruct (nonempty key)|done|done|].
  destruct (batches k !! b) as [x|] eqn:Eb; [|apply kept_refl].
  assert (same_tokens (batches k) (<[b := set_key i key x]> (batches k))) as Hs by by eapply same_tokens_insert.
  destruct (all_keys _) as [ks|]; [destruct (batch_text _ _ _)|]; by split.
Qed.

Lemma batch_of b x k : inv k → batches k !! b = Some x → batch_ok (resolvedTokenKeys k) x.
Proof.
  intros Hi Hb. pose proof (inv_batches _ Hi) as HF. rewrite list.Forall_forall in HF. apply HF.
  by apply list_elem_of_lookup_2 in Hb.
Qed.
Lemma batch_filled t key k b i x :
  inv k → resolvedTokenKeys k !! t = Some key → caller_ok (batches k) t (Batch b i) → batches k !! b = Some x →
  batch_ok (resolvedTokenKeys k) (set_key i key x).
Proof.
  intros Hi Hk (x' & tk & Hx & Htk & Hid) Eb. rewrite Eb in Hx. injection Hx as <-. rewrite <- Hid in Hk.
  eapply batch_ok_set; [by eapply batch_of|exact Htk|exact Hk].
Qed.

Lemma deliver_inv t key k c :
  inv k → resolvedTokenKeys k !! t = Some key → caller_ok (batches k) t c → inv (deliver server t key k c).
Proof.
  intros Hi Hk Hc. pose proof (deliver_kept t key k c) as Hkept. revert Hkept.
  destruct c as [| | |b i]; cbn [deliver]; intros Hkept.
  - destruct (nonempty key); [|done]. apply (inv_kept k); [done|done| |apply Hi].
    intros t' [ ->%elem_of_singleton|Ht]%elem_of_union; [by rewrite Hk|by apply Hi].
  - apply (inv_kept k); [done|done|apply Hi|apply Hi].
  - apply (inv_kept k); [done|done|apply Hi|apply Hi].
  - destruct (batches k !! b) as [x|] eqn:Eb; [|done].
    assert (Forall (batch_ok (resolvedTokenKeys k)) (<[b := set_key i key x]> (batches k))) as HF.
    { apply Forall_insert; [apply Hi|by eapply batch_filled]. }
    destruct (all_keys (set_key i key x)) as [ks|]; [destruct (batch_text _ _ _) as [text|]|];
      (apply (inv_kept k); [done|done|apply Hi|done]).
Qed.

Lemma say_inv m k : inv k → inv (say m k).
Proof. by intros []. Qed.

Lemma reject_kept m k c : kept k (reject m k c).
Proof.
  destruct c as [| | |b i]; try apply kept_refl. cbn [reject]. destruct (batches k !! b) as [x|] eqn:Eb; [|apply kept_refl].
  destruct (b_failed x); [apply kept_refl|]. split; try done. by eapply same_tokens_insert.
Qed.
Lemma reject_inv m k c : inv k → inv (reject m k c).
Proof.
  intros Hi. pose proof (reject_kept m k c) as Hkept. revert Hkept. destruct c as [| | |b i]; cbn [reject]; try done. intros Hkept.
  destruct (batches k !! b) as [x|] eqn:Eb; [|done]. destruct (b_failed x); [done|].
  apply (inv_kept k); [done|done|apply Hi|]. apply Forall_insert; [apply Hi|]. exact (batch_of b x k Hi Eb).
Qed.

(** Everyone who waited *)
Lemma deliver_all t key cs k :
  inv k → resolvedTokenKeys k !! t = Some key → Forall (caller_ok (batches k) t) cs →
  inv (fold_left (deliver server t key) cs k) ∧ kept k (fold_left (deliver server t key) cs k).
Proof.
  revert k. induction cs as [|c cs IH]; intros k Hi Hk HF; cbn [fold_left]; [by split; [|apply kept_refl]|].
  apply Forall_cons in HF as [Hc HF]. pose proof (deliver_kept t key k c) as Hd.
  destruct (IH (deliver server t key k c)) as [I1 I2].
  - by apply deliver_inv.
  - by rewrite (kept_resolved _ _ Hd).
  - eapply list.Forall_impl; [exact HF|]. intros c'. apply caller_ok_more, (kept_tokens _ _ Hd).
  - split; [done|by eapply kept_trans].
Qed.
Lemma reject_all m cs k : inv k → inv (fold_left (reject m) cs k).
Proof. revert k. induction cs as [|c cs IH]; intros k Hi; [done|]. by apply IH, reject_inv. Qed.

Lemma flight_delete k i q : keyRequests k !! i = Some q → in_flight k ≡ₚ about q :: map about (delete i (keyRequests k)).
Proof. intros H. unfold in_flight. apply (Permutation_map about (delete_Permutation _ _ _ H)). Qed.

Lemma alter_insert_Some {A} (f : A → A) i (l : list A) x : l !! i = Some x → alter f i l = <[i := f x]> l.
Proof.
  revert i. induction l as [|y l IH]; intros [|i] H; try done; [by injection H as ->|]. cbn. f_equal. by apply IH.
Qed.

(** Requests that are asked, joined and settled *)
Lemma ask_inv t s c k :
  inv k → t ∉ in_flight k → resolvedTokenKeys k !! t = None → caller_ok (batches k) t c →
  inv (log [t] [] (set_requests (keyRequests k ++ [{| about := t; suppressError := s; callers := [c] |}])
                    ({[t]} ∪ loadingTokenKeys k) k)).
Proof.
  intros [H1 H2 H3 H4 H5 H6 H7 H8] Hn Hr Hc. set (k' := log _ _ _).
  assert (in_flight k' = in_flight k ++ [t]) as Hf by apply map_app.
  split; try done; rewrite ?Hf.
  - apply NoDup_app. split; [done|]. split; [|apply NoDup_singleton]. intros x Hx ->%list_elem_of_singleton. done.
  - cbn [loadingTokenKeys k' log set_requests]. rewrite list_to_set_app_L, H2. set_solver.
  - intros x [Hx| ->%list_elem_of_singleton]%elem_of_app; [by apply H3|done].
  - intros x. cbn [sent failed k' log set_requests resolvedTokenKeys]. rewrite app_nil_r, !occ_app, H6. lia.
  - cbn [batches keyRequests k' log set_requests]. apply list.Forall_app. split; [done|]. by apply Forall_singleton, Forall_singleton.
Qed.
Lemma join_inv i q c k :
  inv k → keyRequests k !! i = Some q → caller_ok (batches k) (about q) c →
  inv (set_requests (alter (add_caller c) i (keyRequests k)) (loadingTokenKeys k) k).
Proof.
  intros [H1 H2 H3 H4 H5 H6 H7 H8] Hq Hc. set (k' := set_requests _ _ _).
  assert (in_flight k' = in_flight k) as Hf.
  { unfold in_flight. change (map about ?l) with (about <$> l). cbn [keyRequests k' set_requests].
    rewrite (alter_insert_Some _ _ _ _ Hq), list_fmap_insert. apply list_insert_id. by rewrite list_lookup_fmap, Hq. }
  split; try done; rewrite ?Hf; try done.
  cbn [batches keyRequests k' set_requests]. rewrite (alter_insert_Some _ _ _ _ Hq). rewrite list.Forall_forall in H8.
  apply Forall_insert; [by apply list.Forall_forall|]. cbn [callers about add_caller]. apply list.Forall_app.
  split; [apply H8; by apply list_elem_of_lookup_2 in Hq|by apply Forall_singleton].
Qed.

Lemma flight_loading k k' q :
  in_flight k ≡ₚ about q :: in_flight k' → about q ∉ in_flight k' →
  list_to_set (in_flight k) ∖ {[about q]} =@{gset Z} list_to_set (in_flight k').
Proof.
  intros Hp Hq. rewrite (list_to_set_perm_L _ _ Hp), list_to_set_cons. apply set_eq. intros t.
  rewrite elem_of_difference, elem_of_union, !elem_of_list_to_set, elem_of_singleton. split; [tauto|].
  intros Ht. split; [by right|]. by intros ->.
Qed.

(** The request at [i] leaves, with the key or with a failure. *)
Lemma settle_known i q key k :
  inv k → keyRequests k !! i = Some q → key ≠ [] → inv (settled i q (resolve (about q) key k)).
Proof.
  intros [H1 H2 H3 H4 H5 H6 H7 H8] Hq Hne. set (k' := settled _ _ _). pose proof (flight_delete k i q Hq) as Hp.
  change (map about _) with (in_flight k') in Hp.
  pose proof H1 as HN. rewrite Hp in HN. apply NoDup_cons in HN as [Hnot HN].
  assert (resolvedTokenKeys k !! about q = None) as Hnone by (apply H3; rewrite Hp; by left).
  assert (resolvedTokenKeys k ⊆ resolvedTokenKeys k') as Hsub by by apply insert_subseteq.
  assert (∀ t x, resolvedTokenKeys k !! t = Some x → resolvedTokenKeys k' !! t = Some x) as Hmono.
  { intros t x Ht. by eapply lookup_weaken. }
  split; try done.
  - cbn [loadingTokenKeys k' settled set_requests resolve]. by rewrite H2, (flight_loading k k' q).
  - intros t Ht. cbn [resolvedTokenKeys k' settled set_requests resolve]. rewrite lookup_insert_ne by (by intros <-).
    apply H3. rewrite Hp. by right.
  - intros t x. cbn [resolvedTokenKeys k' settled set_requests resolve]. rewrite lookup_insert_Some.
    intros [[_ <-]|[_ Ht]]; [done|by eapply H4].
  - intros t Ht. destruct (H5 t Ht) as [x Hx]. exists x. by apply Hmono.
  - intros t. change (sent k') with (sent k). change (failed k') with (failed k). rewrite H6, (occ_perm t _ _ Hp).
    change (about q :: in_flight k') with ([about q] ++ in_flight k'). rewrite occ_app, occ_one.
    cbn [resolvedTokenKeys k' settled set_requests resolve]. destruct (decide (t = about q)) as [->|Hne'].
    + rewrite lookup_insert_eq, Hnone, decide_False, decide_True by (done || by intros []). lia.
    + rewrite lookup_insert_ne by done. lia.
  - eapply list.Forall_impl; [exact H7|]. intros x Hx. eapply Forall2_impl; [exact Hx|]. intros t o Ho key' ->. by apply Hmono, Ho.
  - by apply Forall_delete.
Qed.

Lemma settle_failed i q k : inv k → keyRequests k !! i = Some q → inv (log [] [about q] (settled i q k)).
Proof.
  intros [H1 H2 H3 H4 H5 H6 H7 H8] Hq. set (k' := log _ _ _). pose proof (flight_delete k i q Hq) as Hp.
  change (map about _) with (in_flight k') in Hp.
  pose proof H1 as HN. rewrite Hp in HN. apply NoDup_cons in HN as [Hnot HN]. split; try done.
  - cbn [loadingTokenKeys k' log settled set_requests]. by rewrite H2, (flight_loading k k' q).
  - intros t Ht. apply H3. rewrite Hp. by right.
  - intros t. cbn [sent failed k' log settled set_requests resolvedTokenKeys].
    rewrite app_nil_r, occ_app, occ_one, H6, (occ_perm t _ _ Hp).
    change (about q :: in_flight k') with ([about q] ++ in_flight k'). rewrite occ_app, occ_one. case_decide; lia.
  - by apply Forall_delete.
Qed.

Lemma replied_inv i reply k : inv k → event_ok (KeyReplied i reply) → inv (key_replied server i reply k).
Proof.
  intros Hi Hok. unfold key_replied. destruct (keyRequests k !! i) as [q|] eqn:Eq; [|done]. destruct reply as [m|key].
  - apply reject_all, settle_failed; destruct (suppressError q); try done; by apply say_inv.
  - apply deliver_all; [by apply settle_known|by apply lookup_insert_eq|].
    pose proof (inv_callers _ Hi) as HF. rewrite list.Forall_forall in HF. apply (HF q). by apply list_elem_of_lookup_2 in Eq.
Qed.

Lemma fetch_inv s c t k :
  inv k → caller_ok (batches k) t c →
  inv (fetchTokenKey server s c t k) ∧ same_tokens (batches k) (batches (fetchTokenKey server s c t k)).
Proof.
  intros Hi Hc. unfold fetchTokenKey. destruct (t =? 0).
  { split; [apply reject_inv; destruct s; [done|by apply say_inv]|].
    destruct s; [apply (kept_tokens _ _ (reject_kept _ k c))|apply (kept_tokens _ _ (reject_kept _ (say _ k) c))]. }
  unfold known_key. destruct (resolvedTokenKeys k !! t) as [key|] eqn:Er.
  { assert (nonempty key = true) as -> by (apply negb_true_iff, bool_decide_eq_false_2; by eapply inv_key).
    split; [by apply deliver_inv|apply (kept_tokens _ _ (deliver_kept t key k c))]. }
  destruct (find_index (is_about t) (keyRequests k)) as [i|] eqn:Ei.
  - apply find_index_Some in Ei as (q & Hq & Hab & _). apply Z.eqb_eq in Hab. split; [|done].
    eapply join_inv; [done|exact Hq|by rewrite Hab].
  - split; [|done]. apply ask_inv; try done. intros (q & -> & Hin)%list_elem_of_fmap.
    apply find_index_None in Ei. rewrite list.Forall_forall in Ei. specialize (Ei q Hin). unfold is_about in Ei. lia.
Qed.

(** What every fetch of a batch keeps, the batch keeps. *)
Lemma batch_fold (P : keys → Prop) b ts j k :
  (∀ i t k, inv k → P k → caller_ok (batches k) t (Batch b i) → P (fetchTokenKey server true (Batch b i) t k)) →
  inv k → P k → (∃ x, batches k !! b = Some x ∧ ∀ i t, ts !! i = Some t → b_tokens x !! (j + i)%nat = Some t) →
  let k' := fold_left (λ k it, fetchTokenKey server true (Batch b it.1) (id it.2) k) (imap (λ i t, ((j + i)%nat, t)) ts) k in
  inv k' ∧ P k'.
Proof.
  intros HP. revert j k. induction ts as [|t ts IH]; intros j k Hi Hk (x & Hx & Ht); [done|]. cbn [imap fold_left].
  assert (Hc : caller_ok (batches k) (id t) (Batch b (j + 0))).
  { exists x, t. split; [done|]. split; [by apply (Ht 0%nat)|done]. }
  destruct (fetch_inv true (Batch b (j + 0)) (id t) k Hi Hc) as [Hi' [r Hs]].
  pose proof (HP _ _ _ Hi Hk Hc) as Hk'.
  set (k' := fetchTokenKey _ _ _ _ _) in *. cbn [fst snd]. erewrite imap_ext; [apply (IH (S j) k'); [done|done|]|].
  - assert (map b_tokens (batches k') !! b = Some (b_tokens x)) as Hb.
    { rewrite Hs. apply lookup_app_l_Some. change (map b_tokens ?l) with (b_tokens <$> l). by rewrite list_lookup_fmap, Hx. }
    change (map b_tokens ?l) with (b_tokens <$> l) in Hb. rewrite list_lookup_fmap in Hb.
    destruct (batches k' !! b) as [x'|]; [|done]. injection Hb as Hb. exists x'. split; [done|]. rewrite Hb.
    intros i t' Hi2. replace (S j + i)%nat with (j + S i)%nat by lia. by apply Ht.
  - intros i t' _. cbn. f_equal. lia.
Qed.

(** The same for a batch as it starts *)
Definition new_batch (selected : list token) (named : bool) : batch :=
  {| b_tokens := selected; b_keys := replicate (length selected) None; b_named := named; b_failed := false |}.

Lemma new_batch_inv x k : inv k → batch_ok (resolvedTokenKeys k) x → inv (set_batches (batches k ++ [x]) (copied k) k).
Proof.
  intros Hi Hx. apply (inv_kept k); [done| |apply Hi|].
  - split; try done. cbn [batches set_batches]. unfold same_tokens. rewrite map_app. by eexists.
  - cbn [batches set_batches]. apply list.Forall_app. split; [apply Hi|by apply Forall_singleton].
Qed.

Lemma show_inv s k : inv k → (∀ t, t ∈ s → t ∈ showKeys k) → inv (set_show s k).
Proof. intros Hi Hs. apply (inv_kept k); [done|by split| |apply Hi]. intros t Ht. by apply Hi, Hs. Qed.

Lemma batch_starts (P : keys → Prop) selected named k :
  inv k → P (say (u "请至少选择一个令牌！") k) →
  P (set_batches (batches k ++ [new_batch selected named]) (copied k) k) →
  (∀ i t k', inv k' → P k' → caller_ok (batches k') t (Batch (length (batches k)) i) →
     P (fetchTokenKey server true (Batch (length (batches k)) i) t k')) →
  inv (batchCopyTokens server selected named k) ∧ P (batchCopyTokens server selected named k).
Proof.
  intros Hi Hn Hb HP. unfold batchCopyTokens. destruct selected as [|t0 ts0]; [split; [by apply say_inv|done]|].
  remember (t0 :: ts0) as selected. apply (batch_fold P (length (batches k)) selected 0); [done| |done|].
  - apply new_batch_inv; [done|]. unfold batch_ok. cbn [b_tokens b_keys]. clear. induction selected; cbn; constructor; done.
  - exists (new_batch selected named). split; [|done]. cbn [batches set_batches]. by apply list_lookup_middle.
Qed.

Lemma step_inv e k : inv k → event_ok e → inv (step server e k).
Proof.
  intros Hi Hok. destruct e as [t|t|t|selected named|i reply|]; cbn [step].
  - unfold toggleTokenVisibility. destruct (t =? 0); [done|]. case_bool_decide; [apply show_inv; [done|set_solver]|by apply fetch_inv].
  - by apply fetch_inv.
  - by apply fetch_inv.
  - by apply (batch_starts (λ _, True)).
  - by apply replied_inv.
  - apply show_inv; [done|set_solver].
Qed.

Lemma reachable_inv_keys k : reachable server k → inv k.
Proof.
  induction 1 as [|e k _ IH Hok]; [|by apply step_inv]. split; try done; try apply Forall_nil_2; try apply NoDup_nil_2; try set_solver.
Qed.
End handlers.

(** ** Theorems *)

(** C27: for every token, the requests for its key that were ever sent are those that failed, one
    more when a request is under way and one more when the key is there -- never both, and
    never two under way: whoever asks in between shares the request or gets the key. *)
Theorem key_requests_counted server k t :
  reachable server k →
  occ t (sent k) = (occ t (in_flight k) + (if decide (is_Some (resolvedTokenKeys k !! t)) then 1 else 0) + occ t (failed k))%nat ∧
  (occ t (sent k) ≤ 1 + occ t (failed k))%nat.
Proof.
  intros [H1 _ H3 _ _ H6 _ _]%reachable_inv_keys. split; [apply H6|]. rewrite H6. pose proof (occ_once t _ H1) as Ho.
  destruct (decide _) as [Hs|]; [|lia]. rewrite occ_not_in; [lia|]. intros Hin%H3. rewrite Hin in Hs. by destruct Hs.
Qed.

(** a token is shown with its key only when the key was fetched and is not empty, and the sign
    of loading is on for exactly the tokens with a request under way. *)
Theorem shown_has_key server k :
  reachable server k →
  (∀ t, t ∈ showKeys k → ∃ key, resolvedTokenKeys k !! t = Some key ∧ key ≠ []) ∧
  (∀ t, t ∈ loadingTokenKeys k ↔ t ∈ in_flight k).
Proof.
  intros [_ H2 _ H4 H5 _ _ _]%reachable_inv_keys. split.
  - intros t [key Hk]%H5. exists key. split; [done|by eapply H4].
  - intros t. rewrite H2. apply elem_of_list_to_set.
Qed.

(** *** What the clipboard gets

    [server_key t] is the key the server has for a token.  A trace is honest when every
    successful reply carries the key of the token the request is about. *)

Definition connection_text (server : val) (key : jstr) : jstr :=
  stringify_text (VObj [(u "_type", VStr (u "aggreapi_channel_conn")); (u "key", VStr key); (u "url", server)]).

Section trace.
Context (server : val) (server_key : Z → jstr).

Definition honest (e : event) (k : keys) : Prop :=
  match e with
  | KeyReplied i (inr key) => key ≠ [] ∧ ∀ q, keyRequests k !! i = Some q → key = server_key (about q)
  | _ => True
  end.
Inductive runs : list event → keys → Prop :=
| run_start : runs [] keys0
| run_step es e k : runs es k → honest e k → runs (es ++ [e]) (step server e k).

(** The texts an event asks for *)
Inductive asks : event → jstr → Prop :=
| asks_key t : asks (CopyTokenKey t) (u "sk-" ++ server_key t)
| asks_connection t : asks (CopyTokenConnection t) (connection_text server (u "sk-" ++ server_key t))
| asks_keys ts : asks (BatchCopy ts false) (concat (map (λ t, u "sk-" ++ server_key (id t) ++ [10]) ts))
| asks_named ts names :
    Forall2 (λ t name, to_str (oget (data t) (u "name")) = Ok name) ts names →
    asks (BatchCopy ts true)
      (concat (zip_with (λ t name, name ++ u "    " ++ u "sk-" ++ server_key (id t) ++ [10]) ts names)).

(** What is known of the state after the events [es] *)
Definition wants (es : list event) (t : Z) (c : caller) : Prop :=
  match c with CopyKey => CopyTokenKey t ∈ es | CopyConnection => CopyTokenConnection t ∈ es | _ => True end.
Record track (es : list event) (k : keys) : Prop := {
  track_resolved : ∀ t key, resolvedTokenKeys k !! t = Some key → key = server_key t;
  track_batches : Forall (λ x, BatchCopy (b_tokens x) (b_named x) ∈ es) (batches k);
  track_callers : Forall (λ q, Forall (wants es (about q)) (callers q)) (keyRequests k);
  track_copied : Forall (λ text, ∃ e, e ∈ es ∧ asks e text) (copied k);
}.

Lemma track_more es es' k : es ⊆ es' → track es k → track es' k.
Proof.
  intros Hs [H1 H2 H3 H4]. split; [done|..].
  - eapply list.Forall_impl; [exact H2|]. intros x Hx. by apply Hs.
  - eapply list.Forall_impl; [exact H3|]. intros q HF. eapply list.Forall_impl; [exact HF|].
    intros [] Hc; try done; by apply Hs.
  - eapply list.Forall_impl; [exact H4|]. intros text (e & He & Ha). exists e. split; [by apply Hs|done].
Qed.

Lemma batch_text_asks named ts ks text :
  Forall2 (λ t key, key = server_key (id t)) ts ks → batch_text named ts ks = Ok text → asks (BatchCopy ts named) text.
Proof.
  intros HF. unfold batch_text. destruct (rmapM _ (zip ts ks)) as [ls|] eqn:El; [|done]. intros <-%Ok_inj.
  destruct named; cbn [batch_line] in El.
  - assert (∃ names, Forall2 (λ t name, to_str (oget (data t) (u "name")) = Ok name) ts names ∧
      ls = zip_with (λ t name, name ++ u "    " ++ u "sk-" ++ server_key (id t) ++ [10]) ts names) as (names & Hn & ->).
    { revert ls El. induction HF as [|t key ts ks -> HF IH]; intros ls; cbn [zip zip_with rmapM].
      - intros <-%Ok_inj. exists []. by split.
      - cbn [fst snd]. destruct (to_str _) as [name|] eqn:Et; cbn [rbind]; [|done].
        destruct (rmapM _ (zip ts ks)) as [ls'|]; cbn [rbind]; [|done]. intros <-%Ok_inj.
        destruct (IH ls' eq_refl) as (names & Hn & ->). exists (name :: names). split; [by constructor|].
        cbn [zip_with]. unfold sk. by rewrite <- !app_assoc. }
    by constructor.
  - assert (ls = map (λ t, u "sk-" ++ server_key (id t) ++ [10]) ts) as ->; [|constructor].
    revert ls El. induction HF as [|t key ts ks -> HF IH]; intros ls; cbn [zip zip_with rmapM map]; [by intros <-%Ok_inj|].
    cbn [fst snd rbind]. destruct (rmapM _ (zip ts ks)) as [ls'|]; cbn [rbind]; [|done]. intros <-%Ok_inj.
    by rewrite (IH ls' eq_refl).
Qed.

Lemma track_copies es k bs texts :
  track es k → Forall (λ x, BatchCopy (b_tokens x) (b_named x) ∈ es) bs → Forall (λ text, ∃ e, e ∈ es ∧ asks e text) texts →
  track es (set_batches bs (copied k ++ texts) k).
Proof. intros [H1 H2 H3 H4] Hb Hc. split; try done. cbn [copied set_batches]. by apply list.Forall_app. Qed.

Lemma track_deliver es t key k c :
  inv k → track es k → resolvedTokenKeys k !! t = Some key → caller_ok (batches k) t c → wants es t c →
  track es (deliver server t key k c).
Proof.
  intros Hi Ht Hk Hc Hw. pose proof (track_resolved _ _ Ht _ _ Hk) as Hkey. destruct c as [| | |b i]; cbn [deliver].
  - destruct (nonempty key); [|done]. by destruct Ht.
  - apply track_copies; [done|apply Ht|]. apply Forall_singleton. exists (CopyTokenKey t). split; [done|].
    rewrite Hkey. apply asks_key.
  - apply track_copies; [done|apply Ht|]. apply Forall_singleton. exists (CopyTokenConnection t). split; [done|].
    rewrite Hkey. apply asks_connection.
  - destruct (batches k !! b) as [x|] eqn:Eb; [|done].
    assert (Hin : BatchCopy (b_tokens x) (b_named x) ∈ es).
    { pose proof (track_batches _ _ Ht) as HF. rewrite list.Forall_forall in HF. apply (HF x).
      by apply list_elem_of_lookup_2 in Eb. }
    assert (HF : Forall (λ x, BatchCopy (b_tokens x) (b_named x) ∈ es) (<[b := set_key i key x]> (batches k))).
    { apply Forall_insert; [apply Ht|exact Hin]. }
    assert (Hnone : track es (set_batches (<[b := set_key i key x]> (batches k)) (copied k) k)).
    { rewrite <- (app_nil_r (copied k)). apply track_copies; [done|done|apply Forall_nil_2]. }
    destruct (all_keys (set_key i key x)) as [ks|] eqn:Ea; [|done]. destruct (batch_text _ _ _) as [text|] eqn:Et.
    + apply track_copies; [done|done|]. apply Forall_singleton. eexists. split; [exact Hin|].
      apply (batch_text_asks _ _ ks); [|exact Et].
      pose proof (all_keys_of _ _ _ (batch_filled _ _ _ _ _ _ Hi Hk Hc Eb) Ea) as Hall.
      eapply Forall2_impl; [exact Hall|]. intros t' key' Hk'. by apply (track_resolved _ _ Ht).
    + by destruct Hnone.
Qed.

Lemma track_deliver_all es t key cs k :
  inv k → track es k → resolvedTokenKeys k !! t = Some key → Forall (caller_ok (batches k) t) cs → Forall (wants es t) cs →
  track es (fold_left (deliver server t key) cs k).
Proof.
  revert k. induction cs as [|c cs IH]; intros k Hi Ht Hk HF Hw; cbn [fold_left]; [done|].
  apply Forall_cons in HF as [Hc HF]. apply Forall_cons in Hw as [Hw0 Hw].
  pose proof (deliver_kept server t key k c) as Hd. apply IH; [by apply deliver_inv|by apply track_deliver| | |done].
  - by rewrite (kept_resolved _ _ Hd).
  - eapply list.Forall_impl; [exact HF|]. intros c'. apply caller_ok_more, (kept_tokens _ _ Hd).
Qed.

Lemma track_reject es m k c : track es k → track es (reject m k c).
Proof.
  intros Ht. destruct c as [| | |b i]; cbn [reject]; try done. destruct (batches k !! b) as [x|] eqn:Eb; [|done].
  destruct (b_failed x); [done|]. destruct Ht as [H1 H2 H3 H4]. split; try done. cbn [batches say set_batches].
  apply Forall_insert; [done|]. rewrite list.Forall_forall in H2. apply (H2 x). by apply list_elem_of_lookup_2 in Eb.
Qed.
Lemma track_reject_all es m cs k : track es k → track es (fold_left (reject m) cs k).
Proof. revert k. induction cs as [|c cs IH]; intros k Hk; [done|]. by apply IH, track_reject. Qed.

Lemma track_say es m k : track es k → track es (say m k).
Proof. by intros []. Qed.

Lemma track_fetch es sup c t k :
  inv k → track es k → caller_ok (batches k) t c → wants es t c → track es (fetchTokenKey server sup c t k).
Proof.
  intros Hi Ht Hc Hw. unfold fetchTokenKey. destruct (t =? 0); [apply track_reject; destruct sup; [done|by apply track_say]|].
  unfold known_key. destruct (resolvedTokenKeys k !! t) as [key|] eqn:Er.
  { assert (nonempty key = true) as -> by (apply negb_true_iff, bool_decide_eq_false_2; by eapply inv_key).
    by apply track_deliver. }
  destruct Ht as [H1 H2 H3 H4]. destruct (find_index (is_about t) (keyRequests k)) as [i|] eqn:Ei.
  - apply find_index_Some in Ei as (q & Hq & Hab & _). apply Z.eqb_eq in Hab. split; try done.
    cbn [keyRequests set_requests]. rewrite (alter_insert_Some _ _ _ _ Hq). apply Forall_insert; [done|].
    cbn [about callers add_caller]. apply list.Forall_app. split; [|by rewrite Hab; apply Forall_singleton].
    rewrite list.Forall_forall in H3. apply (H3 q). by apply list_elem_of_lookup_2 in Hq.
  - split; try done. cbn [keyRequests log set_requests]. apply list.Forall_app. split; [done|].
    by apply Forall_singleton, Forall_singleton.
Qed.

Lemma track_replied es i reply k :
  inv k → track es k → honest (KeyReplied i reply) k → track es (key_replied server i reply k).
Proof.
  intros Hi Ht Hok. unfold key_replied. destruct (keyRequests k !! i) as [q|] eqn:Eq; [|done].
  assert (Hw : Forall (wants es (about q)) (callers q)).
  { pose proof (track_callers _ _ Ht) as HF. rewrite list.Forall_forall in HF. apply (HF q). by apply list_elem_of_lookup_2 in Eq. }
  destruct reply as [m|key].
  - apply track_reject_all. assert (Ht' : track es (if suppressError q then k else say (if nonempty m then m else u "获取令牌密钥失败") k))
      by (destruct (suppressError q); [done|by apply track_say]).
    destruct Ht' as [H1 H2 H3 H4]. split; try done. cbn [keyRequests log settled set_requests]. apply Forall_delete.
    by destruct (suppressError q).
  - destruct Hok as [Hne Hkey]. specialize (Hkey q Eq).
    apply track_deliver_all; [by apply settle_known| |by apply lookup_insert_eq| |done].
    + destruct Ht as [H1 H2 H3 H4]. split; try done; [|by apply Forall_delete].
      intros t x. cbn [resolvedTokenKeys settled set_requests resolve]. rewrite lookup_insert_Some.
      intros [[<- <-]|[_ Hx]]; [done|by apply H1].
    + pose proof (inv_callers _ Hi) as HF. rewrite list.Forall_forall in HF. apply (HF q). by apply list_elem_of_lookup_2 in Eq.
Qed.

Lemma honest_ok e k : honest e k → event_ok e.
Proof. destruct e as [| | | |i [m|key]|]; try done. by intros []. Qed.

Lemma track_step es e k :
  inv k → track es k → honest e k → e ∈ es → track es (step server e k).
Proof.
  intros Hi Ht Hok Hin. destruct e as [t|t|t|selected named|i reply|]; cbn [step].
  - unfold toggleTokenVisibility. destruct (t =? 0); [done|]. case_bool_decide; [by destruct Ht|by apply track_fetch].
  - by apply track_fetch.
  - by apply track_fetch.
  - apply (batch_starts server (track es)); [done|by apply track_say| |].
    + rewrite <- (app_nil_r (copied k)). apply track_copies; [done| |apply Forall_nil_2].
      apply list.Forall_app. split; [apply Ht|]. by apply Forall_singleton.
    + intros i t k' Hi' Ht' Hc. by apply track_fetch.
  - by apply track_replied.
  - by destruct Ht.
Qed.

Lemma runs_track es k : runs es k → reachable server k ∧ track es k.
Proof.
  induction 1 as [|es e k _ [IH1 IH2] Hok].
  - split; [constructor|]. split; try done; apply Forall_nil_2.
  - split; [apply reach_step; [done|by eapply honest_ok]|].
    apply track_step; [by apply (reachable_inv_keys server)|eapply track_more; [|exact IH2]; set_solver|done|set_solver].
Qed.

(** C30: when every successful reply carries the key the server has for the token the request was
    made for, every text given to the clipboard is one that an event of the session asked for:
    sk- and the key of the token whose key was to be copied, the connection text with it, or,
    for a batch, a line for each selected token in the order of the selection, with sk- and the
    key of that token, after its name and four blanks when names were asked for. *)
Theorem copied_exact es k :
  runs es k → Forall (λ text, ∃ e, e ∈ es ∧ asks e text) (copied k).
Proof. intros [_ Ht]%runs_track. apply Ht. Qed.
End trace.

Lemma deliver_grows server t key k c :
  showKeys k ⊆ showKeys (deliver server t key k c) ∧ ∃ more, copied (deliver server t key k c) = copied k ++ more.
Proof.
  assert (∃ more, copied k = copied k ++ more) as Hnil by (exists []; by rewrite app_nil_r).
  destruct c as [| | |b i]; cbn [deliver].
  - destruct (nonempty key); [|by split]. split; [cbn [showKeys set_show]; set_solver|done].
  - split; [done|by eexists].
  - split; [done|by eexists].
  - destruct (batches k !! b) as [x|]; [|by split].
    destruct (all_keys _); [destruct (batch_text _ _ _)|]; (split; [done|]); [by eexists|done|done].
Qed.
Lemma deliver_all_grows server t key cs k :
  showKeys k ⊆ showKeys (fold_left (deliver server t key) cs k) ∧
  ∃ more, copied (fold_left (deliver server t key) cs k) = copied k ++ more.
Proof.
  revert k. induction cs as [|c cs IH]; intros k; cbn [fold_left]; [split; [done|]; exists []; by rewrite app_nil_r|].
  destruct (deliver_grows server t key k c) as [H1 [m1 E1]], (IH (deliver server t key k c)) as [H2 [m2 E2]].
  split; [by etrans|]. exists (m1 ++ m2). by rewrite E2, E1, app_assoc.
Qed.

Lemma served server t key cs k c :
  key ≠ [] → c ∈ cs →
  let k' := fold_left (deliver server t key) cs k in
  match c with
  | Toggle => t ∈ showKeys k'
  | CopyKey => (u "sk-" ++ key) ∈ copied k'
  | CopyConnection => connection_text server (u "sk-" ++ key) ∈ copied k'
  | Batch _ _ => True
  end.
Proof.
  intros Hne. revert k. induction cs as [|c0 cs IH]; intros k Hin; [by apply not_elem_of_nil in Hin|].
  apply elem_of_cons in Hin as [<-|Hin]; [|by apply IH]. cbn [fold_left]. cbv zeta.
  destruct (deliver_all_grows server t key cs (deliver server t key k c)) as [H1 [m E]].
  destruct c; cbn [deliver] in *; [..|exact I].
  - apply H1. unfold nonempty. rewrite bool_decide_eq_false_2 by done. cbn [negb showKeys set_show]. set_solver.
  - rewrite E. cbn [copied set_batches]. apply elem_of_app. left. apply elem_of_app. right. by apply list_elem_of_singleton.
  - rewrite E. cbn [copied set_batches]. apply elem_of_app. left. apply elem_of_app. right. by apply list_elem_of_singleton.
Qed.

(** when the key arrives it is kept and the request is over, and everyone who waited for it is
    served: who wanted to see it sees it, who wanted to copy it has it copied. *)
Theorem waiting_served server k i q key c :
  reachable server k → keyRequests k !! i = Some q → key ≠ [] → c ∈ callers q →
  let k' := key_replied server i (inr key) k in
  resolvedTokenKeys k' !! about q = Some key ∧ (about q ∉ in_flight k') ∧
  match c with
  | Toggle => about q ∈ showKeys k'
  | CopyKey => (u "sk-" ++ key) ∈ copied k'
  | CopyConnection => connection_text server (u "sk-" ++ key) ∈ copied k'
  | Batch _ _ => True
  end.
Proof.
  intros Hi%reachable_inv_keys Hq Hne Hc. unfold key_replied. rewrite Hq. cbv zeta.
  pose proof (settle_known i q key k Hi Hq Hne) as Hs.
  assert (Forall (caller_ok (batches k) (about q)) (callers q)) as Hok.
  { pose proof (inv_callers _ Hi) as HF. rewrite list.Forall_forall in HF. apply (HF q). by apply list_elem_of_lookup_2 in Hq. }
  assert (resolvedTokenKeys (settled i q (resolve (about q) key k)) !! about q = Some key) as Hr by apply lookup_insert_eq.
  destruct (deliver_all server (about q) key (callers q) _ Hs Hr Hok) as [Hi' [K1 _ _ _ _ _]].
  split; [by rewrite K1|]. split; [|by apply served].
  intros Hin. pose proof (inv_unknown _ Hi' _ Hin) as Hnone. rewrite K1, Hr in Hnone. done.
Qed.

(** The replies of the helper are as the events require. *)
Lemma fetched_ok api t i key : Tokens.fetchTokenKey api t = Ok (VStr key) → event_ok (KeyReplied i (inr key)).
Proof. intros H%fetchTokenKey_truthy Hk. rewrite Hk in H. done. Qed.

(** ** Samples *)

Definition tokA : token := {| id := 7; data := [(u "name", VStr (u "main"))] |}.
Definition tokB : token := {| id := 9; data := [(u "name", VStr (u "spare"))] |}.
Definition here : val := VStr (u "https://h").
(** A token is shown, copied, and copied with another in one batch: two requests in all. *)
Definition asked : keys :=
  step here (BatchCopy [tokB; tokA] true) (step here (CopyTokenKey 7) (step here (ToggleVisibility 7) keys0)).
Definition answered : keys := step here (KeyReplied 0 (inr (u "ka"))) (step here (KeyReplied 1 (inr (u "kb"))) asked).

Lemma asked_state : reachable here asked.
Proof. repeat apply reach_step; try done. apply reach_start. Qed.
Lemma answered_reachable : reachable here answered.
Proof. apply reach_step; [apply reach_step; [apply asked_state|done]|done]. Qed.

Example one_request_each : sent answered = [7; 9] ∧ in_flight asked = [7; 9] ∧ in_flight answered = [].
Proof. repeat split; reflexivity. Qed.
Example batch_copied :
  copied answered =
  [u "sk-ka"; u "spare    sk-kb" ++ 10 :: u "main    sk-ka" ++ [10]].
Proof. vm_compute. reflexivity. Qed.

(** Whether an error is shown is decided by who asked first: a batch keeps it to itself, so that a
    copy that joined its request fails without a word, and a batch that joins the request of
    a copy has it shown twice. *)
Example joined_error_unreported :
  let batch_first := step here (CopyTokenKey 7) (step here (BatchCopy [tokA] false) keys0) in
  let copy_first := step here (BatchCopy [tokA] false) (step here (CopyTokenKey 7) keys0) in
  errors (step here (KeyReplied 0 (inl (u "no"))) batch_first) = [u "no"] ∧
  errors (step here (KeyReplied 0 (inl (u "no"))) copy_first) = [u "no"; u "no"].
Proof. split; vm_compute; reflexivity. Qed.

Lemma key_requests_counted_witness : occ 7 (sent answered) = 1%nat ∧ (occ 7 (sent answered) ≤ 1 + occ 7 (failed answered))%nat.
Proof. split; [reflexivity|]. apply (key_requests_counted here answered 7). exact answered_reachable. Defined.
Lemma shown_has_key_witness : ∃ key, resolvedTokenKeys answered !! 7 = Some key ∧ key ≠ [].
Proof. apply (shown_has_key here answered answered_reachable). vm_compute. done. Defined.
(** The keys of the server, and the trace above *)
Definition server_keys (t : Z) : jstr := if t =? 7 then u "ka" else u "kb".
Definition sample_trace : list event :=
  [ToggleVisibility 7; CopyTokenKey 7; BatchCopy [tokB; tokA] true; KeyReplied 1 (inr (u "kb")); KeyReplied 0 (inr (u "ka"))].
Lemma sample_runs : runs here server_keys sample_trace answered.
Proof.
  change sample_trace with ((((([] ++ [ToggleVisibility 7]) ++ [CopyTokenKey 7]) ++ [BatchCopy [tokB; tokA] true])
    ++ [KeyReplied 1 (inr (u "kb"))]) ++ [KeyReplied 0 (inr (u "ka"))]).
  apply run_step; [apply run_step; [apply run_step; [apply run_step; [apply run_step; [apply run_start|done]|done]|done]|]|].
  - split; [done|]. intros q Hq. vm_compute in Hq. by injection Hq as <-.
  - split; [done|]. intros q Hq. vm_compute in Hq. by injection Hq as <-.
Qed.
Lemma copied_exact_witness :
  Forall (λ text, ∃ e, e ∈ sample_trace ∧ asks here server_keys e text) (copied answered) ∧ length (copied answered) = 2%nat.
Proof. split; [exact (copied_exact here server_keys sample_trace answered sample_runs)|reflexivity]. Defined.
Lemma waiting_served_witness :
  7 ∈ showKeys (key_replied here 0 (inr (u "ka")) asked).
Proof.
  refine (proj2 (proj2 (waiting_served here asked 0 {| about := 7; suppressError := false; callers := [Toggle; CopyKey; Batch 0 1] |}
    (u "ka") Toggle asked_state _ _ _))); [reflexivity|done|by left].
Defined.
